(* ===== verification/_CoqProject ===== *)
-Q . S2P
Prelude.v
Bytes.v
Base64.v
GoLib.v
Float64.v
GoStrings.v
Cmdline.v
Badge.v
Statement.v
Transparency.v
GoHeap.v
Messages.v
Uuidv7.v
Http.v
Currency.v
Nonce.v
AnonErrors.v
Credit.v
CreditText.v
Gossip.v
App.v
Work.v
Pool.v
HttpRetry.v
HttpApi.v
BlindSigning.v
NonceLocking.v
LockHttp.v
Processor.v
Bank.v
WalletStats.v
DelayPool.v
Transfer.v
BankHttp.v
Pipeline.v
Steps.v
Wallet.v
Health.v
Checker.v
Tags.v
TpmKeys.v
Properties.v
TpmOps.v
TpmSpec.v
TpmSim.v
TpmStore.v
TpmHpke.v
Evidence.v
NodeEvent.v
RouterApi.v
RouterState.v
Manager.v
Ring.v
Cluster.v
RouterHttp.v
Gateway.v
Statements.v
Slsa.v
GossipApp.v
AuthClient.v
Verify.v
RouterCom.v
NodeSetup.v
Attest.v
ClientParams.v
CMem.v
CStream.v
CLib.v
CApi.v
Client.v
NodeFinder.v
