(* ===== verification/Prelude.v ===== *)
(** * OpenPCC: a verification library for the OpenPCC Go sources

    OpenPCC runs AI requests on attested compute nodes and pays for them with
    anonymous credits.  The sources under [src/] fall into an anonymous payment
    system ([anonpay/]), a router that keeps track of compute nodes and sends
    requests to them ([router/]), attestation evidence and its verification
    ([attestation/], [transparency/]), and the client, gateway, services and
    infrastructure around them.  This library models the payment system, the router with its distributed state and
    its handling of requests, the client, and the data formats they exchange, as
    executable Rocq definitions, and proves the properties that make them
    correct.

    ** Conventions

    A Go function returning [(T, error)] is a [result E T]; a Go panic is [None]
    of an [option] or, where errors occur as well, [Panicked] of [failure].  Stateful methods take and return the state; an operation
    that holds a mutex is one step unless it can block meanwhile.  64-bit integers are [Z] with the wrap-around
    written out ([wrap_s], [wrap_u], the [%i64] notations).  Clocks, random
    numbers and readers are arguments.  Ranging over a Go map is in an arbitrary
    order given by the class [RangeOrder]; sorting that is not stable is any sort
    that meets [SliceSort].  Packages that are only called are classes of
    operations with their documented laws as separate classes: the RSA blind
    signature library ([BlindRSA], [BlindRSALaws]), URLs, UUIDs, protobuf
    timestamps and the protobuf wire format ([UrlLib], [UuidLib],
    [TimestampLib], [ProtoWire]), X.509 certificates ([X509Lib]).  Every class
    has an instance that satisfies its laws, used by the witnesses.

    ** Files

    - [Prelude]: results, machine integers, list and map lemmas, tactics.
    - [Bytes], [Base64], [GoLib], [Float64]: the parts of the Go standard library
      the sources use: big-endian and hex encodings, base64, sorting and
      searching, time, binary64 arithmetic.
    - [Uuidv7] models [uuidv7/uuidv7.go], [Tags] models [tags/tags.go].
    - [Currency] models [anonpay/currency/value.go]; [Nonce] models
      [anonpay/nonce.go]; [AnonErrors] models [anonpay/errors.go]; [Credit]
      models [anonpay/credit.go] and [unblinded_credit.go].
    - [BlindSigning] models [anonpay/blind_signing.go], [issuer.go], [payee.go].
    - [NonceLocking] models the locker of [anonpay/anonpay.go] as the class
      [NonceLocker], with two sets of laws: [NonceLockerContract] is what its
      documentation asks for, met also by a locker that drops expired nonces;
      [NonceLockerSpec] describes a locker that keeps the state of its nonces,
      which the processor, the bank and the router are proved against.  The
      in-memory locker and ticket adapter of [anonpay/noncelocking] are an
      instance of both.
    - [Processor] models [anonpay/processor.go] and [exchanger.go] against the
      contract; [Bank] models [anonpay/banking/inmem/bank.go] and
      [account_token.go] on top of them.
    - [Health] models [router/health] (checks, histories, grader); [Evidence]
      models [attestation/evidence/evidence.go]; [NodeEvent] models
      [router/agent]; [RouterApi] models [router/api]; [RouterState] models the
      mergeable state of [router/state]; [Manager] models
      [router/state/manager.go], [router/node_evaluation.go],
      [router/routing_set.go] and the queries of [router/router.go]; [Ring]
      models [router/ring.go].
    - [CreditText]: the binary and text forms of values, nonces and credits.
    - [WalletStats], [Transfer], [Pipeline], [Wallet] model [anonpay/wallet]: the
      counters of [internal/stats]; the endpoints and [Process] of
      [internal/transfer] against the contract of [anonpay/banking] (the class
      [BlindBankContract] with its laws [BlindBankSpec], kept by the bank of
      [Bank]); the bodies of the steps of [internal/pipeline]; and [wallet.go]
      and [payment.go] with callers and pipeline as a step relation, in which a
      payment that is being completed is seen between its effects.
    - [Work] models [work/pipeline.go] and the parallel step of
      [pipeline_steps.go], [Pool] models [work/pool.go], as actions of their
      goroutines in any order; [Steps] models [work/io.go], the serial step and
      the steps of the wallet that pair and route, and wires the whole pipeline
      of the wallet as an instance of [Work].
    - [GoHeap]: [container/heap] over an interface with its laws; [DelayPool]
      models [delay/pool.go] and [pool_heap.go], the pool as a step relation of
      callers, processor, clock and closing call.
    - [Cmdline] models [cmdline/parser.go].
    - [HttpRetry] models [httpretry]; [HttpApi] holds what the clients of packages
      [httpapi] share; [LockHttp] and [BankHttp] model
      [anonpay/noncelocking/httpapi] and [anonpay/banking/httpapi] on top of them,
      for any ticket locker and any bank that keeps its contract.
    - [Cluster] models [router/cluster_member.go] on top of [Manager] and [Ring].
    - [Http]: the headers and response writers of [net/http] that the sources
      use, and [httpfmt] and [proton] on top of them; [GoStrings]: splitting,
      trimming and parsing of strings.
    - [Statement] models [transparency/statement.go], [caching_signer.go],
      [bundle_finder.go] and [fs_store.go], the store of bundles a class with a
      contract that the file store keeps; [Transparency] models the verifier, the
      finder and the importer on top of it; [Statements] models
      [transparency/statements], [Slsa] its provenance statements.  Sigstore is the
      class [Sigstore] with [SigstoreLaws].
    - [TpmKeys] models the parts of [tpm] that compute without a device; [Verify]
      models [attestation/verify] on top of [TpmKeys], [Evidence], [Cmdline] and
      [Statements].  The libraries for TPM structures, RSA, X.509, TEE reports and
      JWTs are the classes [Tpm2], [RsaLib], [CertLib], [TeeLib], [JwtLib].
    - [TpmHpke] models [tpm/hpke], with a sender that follows RFC 9180 as the
      reference; HKDF and the AEAD are the classes [HkdfLib] and [AeadLib].
    - [Badge] models [auth/credentialing], [AuthClient] models [auth/client] on top
      of [HttpRetry], [BlindSigning], [Transparency] and [Statements].
    - [RouterHttp] models [router/http_handler.go]: the handlers as functions, a
      proxied request as a step relation; it is a client of the class
      [NodeService] (the router of [Manager] is the instance) and of the
      processor.
    - [Messages] models [messages/messages.go]; [Gateway] models [gateway] and
      [keyrotation] and the client's choice of a key; [ClientParams] models
      [models], [request_params.go], [option.go] and the configuration in
      [client.go]; [Client] models the round trip of [client.go] on top of
      [Wallet], [Messages] and [RouterApi]; [NodeFinder] models
      [simple_node_finder.go] and [cached_node_finder.go].
    - [Gossip] models the packets of [app/gossip]: [broadcaster.go], [receiver.go]
      and what [delegate.go] does with a packet, under a network that loses,
      repeats and reorders; [GossipApp] models its application: [app.go],
      [config.go], [option.go] and the events that [delegate.go] passes on; [App]
      models [app/multi_app.go] and [app/run.go] as step relations over their
      goroutines; [Checker] models [router/health/checker.go] over a transport that is
      a list of answers.
    - The C library ([main/]): [CMem] is the C heap as typed blocks, a state monad
      whose faults are [None] with its weakest preconditions, and models
      [registry.go], [common.go] and [util.go] on it; [CStream] is
      [bufio.Scanner] with the split function of [response_stream.go]; [CLib]
      models the exported functions of [client.go], [response.go] and
      [response_stream.go]; [CApi] models the Go wrappers around them.
    - [Properties] models [tpm/properties.go] and the handle queries of
      [tpm/tpm.go] over a TPM that answers capability commands.
    - [RouterCom] models the service of a compute node in
      [cmd/mem-compute/router_com_lib.go] on top of [Evidence], [Verify],
      [TpmHpke] and [Messages].
    - [TpmOps] models what [tpm/tpm.go] does with a device, as programs over the
      class [TpmDevice], which executes the commands of go-tpm (a type indexed by
      their answers) or fails them.  [TpmSpec] states what the TPM 2.0 specification
      says of these commands, as a view of a device with the effect of each command
      ([TpmEffects]) and when a TPM without faults carries it out ([ReliableTpm]), and
      has rules for programs; [TpmSim] is a TPM in software that keeps it; [TpmStore]
      shows what the operations then do.
    - [NodeSetup] models the setup of a node's TPM and the collection of its evidence:
      [vtpm.go] and [evidence.go] of [cmd/mem-compute] and the attestors of
      [attestation/attest] they use; [Attest] models the other attestors, for TEE
      devices, cloud providers, Nvidia and the event log.

    ** What the theorems show

    - Money: amounts are represented exactly or rounded to a neighbour; credits
      identify their value and nonce, verify and survive the wire; a nonce is
      spent at most once, hence a credit is deposited or exchanged at most once;
      withdrawals are all or nothing; balances neither go negative nor overflow
      and agree with the ledger over any run.
    - Routers: routers that have received the same events and checks, directly or
      through gossip, are in the same state whatever the order of messages, as
      long as no event follows a shutdown and no two different checks of a node
      share an instant; a picked node is one that is running; every node known
      to a router on its own stays scheduled for evaluation; the ring shares the
      nodes out among the routers.
    - Formats: evidence, events, manifests, headers and tags round trip.
    - Wallet: transfers conserve money, the status reports what is held, every
      batch is returned once, every payment is accounted for, also while its result
      waits for the pipeline, and [Close] waits for exactly the outstanding ones.
    - Pipelines: shared outputs are closed once and in time, [Close] returns, the
      wallet's pipeline is valid; the parallel step keeps its bounds, cannot
      deadlock and accounts for each input, but forgets failures to send; routing
      loses no account; scaling the pool counts workers that are leaving.
    - Requests: a delivered response has cost its credit exactly once and carries
      the refund the node reported, and an aborted one has cost it only if it broke
      off at its very end or its refund could not be made; manifest queries cost an attestation credit;
      a client settles each payment once; messages, errors and parameters reach
      the other side; the gateway accepts the key a client chooses.
    - Delay pool: the heap is a priority queue; what is added is delivered once
      and not too early, no wake-up is lost, closing ends and may lose items.
    - HTTP services: without faults a remote locker or bank is the local one; a
      retry sends what the first attempt read of the body; a lost answer loses a
      lock or pays for a withdrawal twice.
    - Trust: what the transparency verifier returns was signed under the policy and
      is about the data; signed and imported statements are found again; a node
      whose evidence is accepted has shown a chain from the embedded roots to the
      key that is returned, except that its event log is bound only by digests; the
      node opens what was sealed for its key, each message under its own nonce;
      the authentication client only uses keys that were signed for.
    - Cluster: gossip acts on a receiver as the news itself; members that agree
      on the cluster share the health checks out.
    - Gossip packets: whatever the network does, exactly the messages all of whose
      chunks arrived are delivered, once and unchanged; packets keep the limit.
    - Gossip application: one that says it can be joined runs, unless it is being shut
      down; when it has returned without an error nothing of it is left; joining does
      not depend on the order in which addresses are found.
    - Processes: a group of applications ends when all have, with all errors; the
      exit code of one tells whether it failed; a health check is that of its last
      attempt and successful when one was.
    - C library: wrappers touch and free only their own memory, except for the
      blocks that leak, and panic only on requests too long for a C [int]; destroyed handles are refused for good; the stream of a
      response delivers its body in order, each chunk cut at its first NUL.
    - Compute nodes: a service is created only from complete evidence; a request
      sealed for a node and forwarded by the router is opened by it, and its answer
      by the client; the properties of a TPM are those it reports.
    - TPM: what is written to NV memory is read back, the policy digest of the device
      is the one clients compute; a setup that fails half way leaves no transient
      object and no session; whatever the TPM held before, the setup of an honest node
      and its evidence succeed, the verifier accepts them and returns the key of the
      TPM, and the service starts from them.
    - Provenance: nothing of the event payload and the branch names is left in a
      converted statement, the rest is; converting back gives the statement.
    - Attestors: the verifier checks a TDX report with what Intel's services told the
      node, and a GPU with the very token its service issued; a padded certificate is
      found in NV memory; certificates are fetched over https from hosts whose name
      ends in that of the service.
    - Where the code falls short of its intent the theorem states what it does:
      parsing of large special values, nonce lifetime, unchecked tickets, merging
      of conflicting checks, known-node accounting, nodes without agent state,
      ring positions, consolidated accounts, failed payments, amounts the wallet
      admits but cannot serve, requests that break off, malformed refunds,
      refused tags, generated key pairs.

    ** Bounds and fuel

    Loops over slices and maps are structural.  [merge_loop] runs with the sum of
    the lengths of both histories as fuel, one unit per step; [egcd] with twice
    the bit length of the modulus, enough by the usual halving argument (shown in
    [egcd_gcd]); [Merge_converges] and [generateBlindingFactor_spec] therefore
    state results, not only partial correctness.
    The wallet's steps are bounded by their inputs; [Close] and [BeginPayment]
    are steps of [wallet_step], so statements about them hold for every
    interleaving.

    ** Not modelled

    The sending of HTTP requests and the wiring of servers, goroutines and timers
    beyond the step relations, the memberlist library, what is behind the commands to
    TPM and TEE devices, the parsers of certificates, reports and JSON, the start of
    the processes, the construction of sigstore clients, tracing, command line
    programs, test suites and generated code: they call libraries or the operating
    system.
    The channels that connect the pipeline steps are lists: the order in which a
    step sees its inputs is arbitrary, and the steps of the wallet run one at a
    time but for [Work]. *)

From Stdlib Require Export ZArith Lia.
From Stdlib Require Export Strings.Byte.
From stdpp Require Export base gmap strings list fin_maps sorting.

#[global] Open Scope Z_scope.

(** ** Go results

    A Go function returning [(T, error)] is a [result E T]: on the error path
    callers of this code base never look at the first component. *)

Inductive result (E A : Type) : Type :=
| Ok (a : A)
| Err (e : E).
Arguments Ok {E A} a.
Arguments Err {E A} e.

#[global] Instance result_ret {E} : MRet (result E) := λ A a, Ok a.
#[global] Instance result_bind {E} : MBind (result E) := λ A B f m,
  match m with Ok a => f a | Err e => Err e end.
#[global] Instance result_fmap {E} : FMap (result E) := λ A B f m,
  match m with Ok a => Ok (f a) | Err e => Err e end.

Definition is_ok {E A} (r : result E A) : bool :=
  match r with Ok _ => true | Err _ => false end.

(** [fmt.Errorf("...: %w", err)]: the error is wrapped, the value kept. *)
Definition wrap_err {E F A} (f : E → F) (r : result E A) : result F A :=
  match r with Ok a => Ok a | Err e => Err (f e) end.

#[global] Instance result_eq_dec {E A} `{EqDecision E, EqDecision A} :
  EqDecision (result E A).
Proof. solve_decision. Defined.

Lemma result_bind_ok {E A B} (m : result E A) (f : A → result E B) b :
  m ≫= f = Ok b ↔ ∃ a, m = Ok a ∧ f a = Ok b.
Proof. destruct m; simpl; naive_solver. Qed.

Lemma result_bind_err {E A B} (m : result E A) (f : A → result E B) e :
  m ≫= f = Err e ↔ m = Err e ∨ ∃ a, m = Ok a ∧ f a = Err e.
Proof. destruct m; simpl; naive_solver. Qed.

Lemma is_ok_true {E A} (r : result E A) : is_ok r = true ↔ ∃ a, r = Ok a.
Proof. destruct r; simpl; naive_solver. Qed.

Lemma wrap_err_ok {E F A} (f : E → F) (r : result E A) a :
  wrap_err f r = Ok a ↔ r = Ok a.
Proof. destruct r; simpl; naive_solver. Qed.

(** Case analysis on the head [match]/[if] of a hypothesis or the goal, closing
    the impossible branches; the workhorse of the branch-by-branch proofs. *)
Ltac inv_step :=
  match goal with
  | H : Ok _ = Ok _ |- _ => injection H as H; subst
  | H : Err _ = Err _ |- _ => injection H as H; subst
  | H : Ok _ = Err _ |- _ => discriminate H
  | H : Err _ = Ok _ |- _ => discriminate H
  | H : Some _ = Some _ |- _ => injection H as H; subst
  | H : Some _ = None |- _ => discriminate H
  | H : None = Some _ |- _ => discriminate H
  | H : (_, _) = (_, _) |- _ => injection H as H; subst
  | H : context [match ?x with _ => _ end] |- _ =>
      let E := fresh "E" in destruct x eqn:E; try discriminate H
  end.
Ltac inv_all := repeat (simpl in *; inv_step).

(** ** Machine integers

    Go integers wrap around silently.  A [w]-bit value is a [Z]; [wrap_s] and
    [wrap_u] reduce an exact result to the signed and unsigned width. *)

Definition wrap_s (w z : Z) : Z := (z + 2 ^ (w - 1)) mod 2 ^ w - 2 ^ (w - 1).
Definition wrap_u (w z : Z) : Z := z mod 2 ^ w.

Definition in_int64 (z : Z) : Prop := - 2 ^ 63 ≤ z < 2 ^ 63.
Definition in_uint64 (z : Z) : Prop := 0 ≤ z < 2 ^ 64.

Declare Scope int64_scope.
Delimit Scope int64_scope with i64.
Notation "a + b" := (wrap_s 64 (Z.add a b)) : int64_scope.
Notation "a - b" := (wrap_s 64 (Z.sub a b)) : int64_scope.
Notation "a * b" := (wrap_s 64 (Z.mul a b)) : int64_scope.

Lemma wrap_s64_small z : in_int64 z → wrap_s 64 z = z.
Proof.
  unfold in_int64, wrap_s. intros H.
  change (2 ^ (64 - 1)) with (2 ^ 63). change (2 ^ 64) with (2 * 2 ^ 63).
  rewrite Z.mod_small; lia.
Qed.

Lemma wrap_s64_range z : in_int64 (wrap_s 64 z).
Proof.
  unfold in_int64, wrap_s.
  pose proof (Z.mod_pos_bound (z + 2 ^ (64 - 1)) (2 ^ 64) ltac:(lia)).
  change (2 ^ (64 - 1)) with (2 ^ 63) in *. change (2 ^ 64) with (2 * 2 ^ 63) in *. lia.
Qed.

Lemma wrap_s64_add_idemp a b : wrap_s 64 (wrap_s 64 a + b) = wrap_s 64 (a + b).
Proof.
  unfold wrap_s.
  replace ((a + 2 ^ (64 - 1)) mod 2 ^ 64 - 2 ^ (64 - 1) + b + 2 ^ (64 - 1))
    with ((a + 2 ^ (64 - 1)) mod 2 ^ 64 + b) by lia.
  rewrite Zplus_mod_idemp_l. do 2 f_equal. lia.
Qed.

(** Congruence modulo the word size: what wrap-around arithmetic preserves. *)
Definition eqm64 (a b : Z) : Prop := a mod 2 ^ 64 = b mod 2 ^ 64.
Infix "≡₆₄" := eqm64 (at level 70, no associativity).

#[export] Instance eqm64_equiv : Equivalence eqm64.
Proof. split; unfold eqm64; congruence. Qed.
#[export] Instance eqm64_add : Proper (eqm64 ==> eqm64 ==> eqm64) Z.add.
Proof. intros a a' Ha b b' Hb. unfold eqm64 in *. by rewrite Z.add_mod, Ha, Hb, <- Z.add_mod. Qed.
#[export] Instance eqm64_sub : Proper (eqm64 ==> eqm64 ==> eqm64) Z.sub.
Proof. intros a a' Ha b b' Hb. unfold eqm64 in *. by rewrite Zminus_mod, Ha, Hb, <- Zminus_mod. Qed.
#[export] Instance eqm64_mul : Proper (eqm64 ==> eqm64 ==> eqm64) Z.mul.
Proof. intros a a' Ha b b' Hb. unfold eqm64 in *. by rewrite Z.mul_mod, Ha, Hb, <- Z.mul_mod. Qed.
#[export] Instance eqm64_wrap : Proper (eqm64 ==> eq) (wrap_s 64).
Proof. intros a b H. unfold wrap_s. f_equal. exact (eqm64_add _ _ H (2 ^ (64 - 1)) _ eq_refl). Qed.

Lemma wrap_s64_eqm a : wrap_s 64 a ≡₆₄ a.
Proof.
  unfold eqm64, wrap_s. rewrite Zminus_mod, Z.mod_mod, <- Zminus_mod by done. f_equal. lia.
Qed.

Lemma eqm64_wrap_eq a b : a ≡₆₄ b → in_int64 b → wrap_s 64 a = b.
Proof. intros -> Hb. by apply wrap_s64_small. Qed.

Lemma wrap_u_range w z : 0 ≤ w → 0 ≤ wrap_u w z < 2 ^ w.
Proof. intros. apply Z.mod_pos_bound. lia. Qed.

Lemma wrap_u_small w z : 0 ≤ z < 2 ^ w → wrap_u w z = z.
Proof. apply Z.mod_small. Qed.

(** ** Sorted lists *)

Lemma StronglySorted_mono {A} (R R' : A → A → Prop) l :
  (∀ x y, R x y → R' x y) → StronglySorted R l → StronglySorted R' l.
Proof.
  intros HR. induction 1 as [|x l Hl IH Hx]; constructor; [done|].
  eapply Forall_impl; [exact Hx|]. auto.
Qed.

Lemma filter_none {A} (P : A → Prop) `{!∀ x, Decision (P x)} l : Forall (λ x, ¬ P x) l → filter P l = [].
Proof. induction 1 as [|x l Hx Hl IH]; [done|]. by rewrite filter_cons_False. Qed.

Lemma filter_all {A} (P : A → Prop) `{!∀ x, Decision (P x)} l : Forall P l → filter P l = l.
Proof. induction 1 as [|x l Hx Hl IH]; [done|]. rewrite filter_cons_True by done. by f_equal. Qed.

(** ** Sums over finite maps *)

Definition map_sum {K A} `{Countable K} (f : A → Z) (m : gmap K A) : Z := map_fold (λ _ x s, f x + s) 0 m.

Lemma map_sum_empty {K A} `{Countable K} (f : A → Z) : map_sum f (∅ : gmap K A) = 0.
Proof. done. Qed.

Lemma map_sum_insert_new {K A} `{Countable K} (f : A → Z) (m : gmap K A) k x :
  m !! k = None → map_sum f (<[k := x]> m) = f x + map_sum f m.
Proof.
  intros Hk. unfold map_sum. apply (map_fold_insert_L (λ _ x s, f x + s)); [|done].
  intros. lia.
Qed.

Lemma map_sum_delete {K A} `{Countable K} (f : A → Z) (m : gmap K A) k x :
  m !! k = Some x → map_sum f m = f x + map_sum f (delete k m).
Proof.
  intros Hk. rewrite <- (insert_delete_id m k x) at 1 by done.
  apply map_sum_insert_new, lookup_delete_eq.
Qed.

(** Replacing an entry changes the sum by the difference; an absent one counts
    as zero. *)
Lemma map_sum_insert {K A} `{Countable K} (f : A → Z) (m : gmap K A) k x :
  map_sum f (<[k := x]> m) = map_sum f m - from_option f 0 (m !! k) + f x.
Proof.
  destruct (m !! k) as [y|] eqn:E; simpl.
  - rewrite (map_sum_delete f m k y E), <- insert_delete_eq.
    rewrite map_sum_insert_new by apply lookup_delete_eq. lia.
  - rewrite map_sum_insert_new by done. lia.
Qed.

Definition sum_Z (l : list Z) : Z := foldr Z.add 0 l.
Lemma sum_Z_app l k : sum_Z (l ++ k) = sum_Z l + sum_Z k.
Proof. induction l; simpl; lia. Qed.

Lemma sum_Z_fmap_cons {A} (f : A → Z) x (l : list A) : sum_Z (f <$> x :: l) = f x + sum_Z (f <$> l).
Proof. done. Qed.

(** Replacing one element changes a sum by the difference. *)
Lemma sum_Z_insert {A} (f : A → Z) (l : list A) i x y :
  l !! i = Some x → sum_Z (f <$> <[i := y]> l) = sum_Z (f <$> l) - f x + f y.
Proof.
  intros Hi. pose proof (lookup_lt_Some _ _ _ Hi). rewrite insert_take_drop by done.
  assert (sum_Z (f <$> l) = sum_Z (f <$> take i l ++ x :: drop (S i) l)) as -> by (by rewrite (take_drop_middle l i x Hi)).
  rewrite !fmap_app, !sum_Z_app, !sum_Z_fmap_cons. lia.
Qed.
Lemma sum_Z_delete {A} (f : A → Z) (l : list A) i x : l !! i = Some x → sum_Z (f <$> delete i l) = sum_Z (f <$> l) - f x.
Proof.
  intros Hi. rewrite delete_take_drop.
  assert (sum_Z (f <$> l) = sum_Z (f <$> take i l ++ x :: drop (S i) l)) as -> by (by rewrite (take_drop_middle l i x Hi)).
  rewrite !fmap_app, !sum_Z_app, sum_Z_fmap_cons. lia.
Qed.
Lemma sum_Z_nonneg {A} (f : A → Z) (l : list A) : (∀ x, 0 ≤ f x) → 0 ≤ sum_Z (f <$> l).
Proof. intros Hf. induction l as [|x l IH]; [done|]. rewrite sum_Z_fmap_cons. specialize (Hf x). lia. Qed.
Lemma sum_Z_elem {A} (f : A → Z) (l : list A) x : (∀ x, 0 ≤ f x) → x ∈ l → f x ≤ sum_Z (f <$> l).
Proof.
  intros Hf. induction l as [|y l IH]; [by intros ?%not_elem_of_nil|]. pose proof (sum_Z_nonneg f l Hf).
  rewrite sum_Z_fmap_cons. intros [->|Hx]%elem_of_cons; [lia|]. specialize (IH Hx). specialize (Hf y). lia.
Qed.
Lemma sum_Z_zero {A} (f : A → Z) (l : list A) : (∀ x, 0 ≤ f x) → sum_Z (f <$> l) = 0 → ∀ x, x ∈ l → f x = 0.
Proof. intros Hf Hs x Hx. pose proof (sum_Z_elem f l x Hf Hx). specialize (Hf x). lia. Qed.

Create HintDb openpcc.
#[export] Hint Resolve wrap_s64_range wrap_s64_small wrap_u_small : openpcc.
Create HintDb wrap.
#[export] Hint Rewrite wrap_s64_small wrap_u_small using (unfold in_int64 in *; lia) : wrap.

(** Finite case analysis by evaluation: a decidable property checked over
    integer ranges holds of every number in them. *)
Lemma Z_range_decide (P : Z → Prop) `{∀ z, Decision (P z)} lo n :
  forallb (λ z, bool_decide (P z)) (seqZ lo n) = true → ∀ z, lo ≤ z < lo + n → P z.
Proof.
  intros Hall z Hz. rewrite forallb_forall in Hall.
  apply (bool_decide_eq_true_1 (P z)), Hall, list_elem_of_In, elem_of_seqZ. lia.
Qed.

Lemma Z_range_decide2 (P : Z → Z → Prop) `{∀ x y, Decision (P x y)} lo n lo' n' :
  forallb (λ x, forallb (λ y, bool_decide (P x y)) (seqZ lo' n')) (seqZ lo n) = true →
  ∀ x y, lo ≤ x < lo + n → lo' ≤ y < lo' + n' → P x y.
Proof.
  intros Hall x y Hx Hy. rewrite forallb_forall in Hall.
  refine (Z_range_decide (P x) lo' n' _ y Hy).
  apply Hall, list_elem_of_In, elem_of_seqZ. lia.
Qed.

(** [by_enum P lo n lo' n' x y] proves [P x y] by checking the whole range. *)
Ltac by_enum2 P lo n lo' n' x y :=
  let H := fresh in
  assert (H : ∀ a b, lo ≤ a < lo + n → lo' ≤ b < lo' + n' → P a b);
  [ apply (@Z_range_decide2 P (λ a b, ltac:(cbv beta; apply _)) lo n lo' n'); vm_compute; reflexivity
  | apply (H x y); lia ].
Ltac by_enum P lo n x :=
  let H := fresh in
  assert (H : ∀ a, lo ≤ a < lo + n → P a);
  [ apply (@Z_range_decide P (λ a, ltac:(cbv beta; apply _)) lo n); vm_compute; reflexivity | apply (H x); lia ].
