(* ===== verification/Bytes.v ===== *)
(** Bytes, big-endian integers and hexadecimal text: what the sources use of
    Go's [encoding/binary] and [encoding/hex]. *)

From Stdlib Require Import Strings.Ascii.
From S2P Require Import Prelude.

(** ** Bytes *)

Definition byte_val (b : byte) : Z := Z.of_N (Byte.to_N b).
Definition byte_of (z : Z) : byte :=
  match Byte.of_N (Z.to_N (z mod 256)) with Some b => b | None => x00 end.

#[global] Instance byte_eq_dec : EqDecision byte := Byte.byte_eq_dec.
#[global] Program Instance byte_countable : Countable byte :=
  inj_countable Byte.to_N Byte.of_N _.
Next Obligation. intros b. apply Byte.of_to_N. Qed.

Lemma byte_val_range b : 0 ≤ byte_val b < 256.
Proof. unfold byte_val. pose proof (Byte.to_N_bounded b). lia. Qed.

Lemma byte_val_of z : byte_val (byte_of z) = z mod 256.
Proof.
  unfold byte_val, byte_of. pose proof (Z.mod_pos_bound z 256 ltac:(lia)) as Hz.
  destruct (Byte.of_N _) as [b|] eqn:E.
  - apply Byte.to_of_N in E. rewrite E, Z2N.id; lia.
  - apply Byte.of_N_None_iff in E. lia.
Qed.

Lemma byte_of_val b : byte_of (byte_val b) = b.
Proof.
  unfold byte_of. rewrite Z.mod_small by apply byte_val_range.
  unfold byte_val. rewrite N2Z.id, Byte.of_to_N. done.
Qed.

Lemma byte_val_inj b c : byte_val b = byte_val c → b = c.
Proof. intros H. rewrite <- (byte_of_val b), H. apply byte_of_val. Qed.

(** ** [binary.BigEndian]: the [n] low bytes, most significant first *)

Fixpoint be_bytes (n : nat) (z : Z) : list byte :=
  match n with
  | O => []
  | S m => byte_of (Z.shiftr z (8 * Z.of_nat m)) :: be_bytes m z
  end.

Definition be_val (l : list byte) : Z :=
  foldl (λ acc b, acc * 256 + byte_val b) 0 l.

Lemma length_be_bytes n z : length (be_bytes n z) = n.
Proof. induction n; simpl; congruence. Qed.

Lemma be_val_acc l a :
  foldl (λ acc b, acc * 256 + byte_val b) a l = a * 256 ^ Z.of_nat (length l) + be_val l.
Proof.
  revert a. induction l as [|b l IH]; intros a; [unfold be_val; simpl; lia|].
  unfold be_val. cbn [foldl]. rewrite IH, (IH (0 * 256 + byte_val b)).
  cbn [length]. rewrite Nat2Z.inj_succ, Z.pow_succ_r by lia. lia.
Qed.

Lemma be_val_cons b l : be_val (b :: l) = byte_val b * 256 ^ Z.of_nat (length l) + be_val l.
Proof. unfold be_val at 1. simpl. apply be_val_acc. Qed.

Lemma be_val_range l : 0 ≤ be_val l < 256 ^ Z.of_nat (length l).
Proof.
  induction l as [|b l IH]; [done|].
  rewrite be_val_cons. simpl length. rewrite Nat2Z.inj_succ, Z.pow_succ_r by lia.
  pose proof (byte_val_range b). nia.
Qed.

Lemma be_val_bytes n z : be_val (be_bytes n z) = z mod 256 ^ Z.of_nat n.
Proof.
  induction n as [|n IH]; [by rewrite Z.mod_1_r|].
  cbn [be_bytes]. rewrite be_val_cons, length_be_bytes, IH, byte_val_of.
  rewrite Z.shiftr_div_pow2, Z.pow_mul_r by lia. change (2 ^ 8) with 256.
  rewrite Nat2Z.inj_succ, Z.pow_succ_r by lia.
  rewrite (Z.mul_comm 256), Z.rem_mul_r by lia. lia.
Qed.

(** A big-endian encoding followed by a tail is read back unambiguously. *)
Lemma be_bytes_inj n z z' :
  be_bytes n z = be_bytes n z' → z mod 256 ^ Z.of_nat n = z' mod 256 ^ Z.of_nat n.
Proof. intros H. rewrite <- !be_val_bytes. by rewrite H. Qed.

Lemma be_val_inj l k : length l = length k → be_val l = be_val k → l = k.
Proof.
  induction l as [|b l IH] in k |- *; destruct k as [|c k]; try done. cbn [length]. intros [= Hlen] Heq. rewrite !be_val_cons, Hlen in Heq.
  pose proof (be_val_range l) as H1. pose proof (be_val_range k) as H2. rewrite Hlen in H1.
  assert (byte_val b = byte_val c) as Hbc by nia. rewrite (byte_val_inj _ _ Hbc). f_equal. apply IH; [done|]. rewrite Hbc in Heq. lia.
Qed.

Lemma be_bytes_val l : be_bytes (length l) (be_val l) = l.
Proof.
  apply be_val_inj; [apply length_be_bytes|]. rewrite be_val_bytes. apply Z.mod_small, be_val_range.
Qed.

(** [big.Int.Bytes]: no leading zeros. *)
Definition big_bytes (z : Z) : list byte :=
  be_bytes (Z.to_nat (if z =? 0 then 0 else Z.log2 z / 8 + 1)) z.

Lemma length_big_bytes z n : 0 ≤ z < 256 ^ Z.of_nat n → (length (big_bytes z) ≤ n)%nat.
Proof.
  intros Hz. unfold big_bytes. rewrite length_be_bytes. destruct (Z.eqb_spec z 0) as [|Hne]; [lia|].
  change 256 with (2 ^ 8) in Hz. rewrite <- Z.pow_mul_r in Hz by lia.
  pose proof (proj1 (Z.log2_lt_pow2 z (8 * Z.of_nat n) ltac:(lia)) ltac:(lia)).
  assert (Z.log2 z / 8 < Z.of_nat n) by (apply Z.div_lt_upper_bound; lia). lia.
Qed.

Lemma be_val_big_bytes z : 0 ≤ z → be_val (big_bytes z) = z.
Proof.
  intros Hz. unfold big_bytes. rewrite be_val_bytes. destruct (Z.eqb_spec z 0) as [->|Hne]; [done|]. apply Z.mod_small.
  split; [done|]. change 256 with (2 ^ 8). rewrite <- Z.pow_mul_r by lia. apply Z.log2_lt_pow2; [lia|].
  pose proof (Z.mod_pos_bound (Z.log2 z) 8 ltac:(lia)). pose proof (Z.div_mod (Z.log2 z) 8 ltac:(lia)).
  assert (0 ≤ Z.log2 z / 8) by (apply Z.div_pos; [apply Z.log2_nonneg|lia]). rewrite Z2Nat.id by lia. lia.
Qed.

(** Padded to [n] bytes. *)
Lemma pad_big_bytes z n : 0 ≤ z < 256 ^ Z.of_nat n →
  replicate (n - length (big_bytes z)) x00 ++ big_bytes z = be_bytes n z.
Proof.
  intros Hz. pose proof (length_big_bytes z n Hz). apply be_val_inj.
  - rewrite length_app, length_replicate, length_be_bytes. lia.
  - rewrite be_val_bytes, Z.mod_small by done. rewrite <- (be_val_big_bytes z) at 3 by lia.
    generalize (big_bytes z) at 2 3. intros l. induction (n - length (big_bytes z))%nat as [|m IH]; [done|].
    cbn [replicate app]. rewrite be_val_cons, IH. done.
Qed.

(** [binary.LittleEndian] *)
Definition le_bytes (n : nat) (z : Z) : list byte := reverse (be_bytes n z).
Definition le_val (l : list byte) : Z := be_val (reverse l).
Lemma length_le_bytes n z : length (le_bytes n z) = n.
Proof. unfold le_bytes. by rewrite length_reverse, length_be_bytes. Qed.
Lemma le_val_bytes n z : le_val (le_bytes n z) = z mod 256 ^ Z.of_nat n.
Proof. unfold le_val, le_bytes. by rewrite reverse_involutive, be_val_bytes. Qed.
Lemma le_bytes_val l : le_bytes (length l) (le_val l) = l.
Proof. unfold le_val, le_bytes. rewrite <- (length_reverse l), be_bytes_val. apply reverse_involutive. Qed.
Lemma le_val_range l : 0 ≤ le_val l < 256 ^ Z.of_nat (length l).
Proof. unfold le_val. rewrite <- length_reverse. apply be_val_range. Qed.

(** ** [encoding/hex] *)

Definition hex_digit (n : Z) : ascii :=
  if decide (n < 10) then ascii_of_N (Z.to_N (48 + n)) else ascii_of_N (Z.to_N (87 + n)).

Fixpoint hex_encode (l : list byte) : string :=
  match l with
  | [] => EmptyString
  | b :: l => String (hex_digit (byte_val b / 16)) (String (hex_digit (byte_val b mod 16)) (hex_encode l))
  end.

Lemma hex_byte_inj b c :
  hex_digit (byte_val b / 16) = hex_digit (byte_val c / 16) →
  hex_digit (byte_val b mod 16) = hex_digit (byte_val c mod 16) → b = c.
Proof.
  assert (Hd : ∀ n m, 0 ≤ n < 16 → 0 ≤ m < 16 → hex_digit n = hex_digit m → n = m).
  { intros n m Hn Hm H. apply (f_equal N_of_ascii) in H. unfold hex_digit in H.
    repeat case_decide; rewrite !N_ascii_embedding in H by lia; lia. }
  pose proof (byte_val_range b). pose proof (byte_val_range c).
  intros H1%Hd H2%Hd; [apply byte_val_inj|..]; try (Z.to_euclidean_division_equations; lia).
Qed.

Lemma hex_encode_inj l k : hex_encode l = hex_encode k → l = k.
Proof.
  revert k. induction l as [|b l IH]; intros [|c k] H; simplify_eq/=; [done|].
  f_equal; auto using hex_byte_inj.
Qed.

#[global] Instance hex_encode_Inj : Inj (=) (=) hex_encode.
Proof. exact hex_encode_inj. Qed.

Lemma length_hex_encode l : String.length (hex_encode l) = (2 * length l)%nat.
Proof. induction l; simpl; lia. Qed.

(** [hex.DecodeString] takes both cases. *)
Definition hex_val (c : ascii) : option Z :=
  let n := Z.of_N (N_of_ascii c) in
  if (48 <=? n) && (n <=? 57) then Some (n - 48)
  else if (97 <=? n) && (n <=? 102) then Some (n - 87)
  else if (65 <=? n) && (n <=? 70) then Some (n - 55) else None.
Fixpoint hex_decode (s : string) : option (list byte) :=
  match s with
  | EmptyString => Some []
  | String c (String d s) =>
      hi ← hex_val c; lo ← hex_val d; rest ← hex_decode s; Some (byte_of (16 * hi + lo) :: rest)
  | String _ EmptyString => None
  end.

Lemma hex_val_digit n : 0 ≤ n < 16 → hex_val (hex_digit n) = Some n.
Proof. intros H. by_enum (λ n, hex_val (hex_digit n) = Some n) 0 16 n. Qed.

Lemma hex_decode_encode l : hex_decode (hex_encode l) = Some l.
Proof.
  induction l as [|b l IH]; [done|]. cbn [hex_encode hex_decode]. pose proof (byte_val_range b).
  rewrite !hex_val_digit by (Z.to_euclidean_division_equations; lia). cbn [mbind option_bind]. rewrite IH. cbn.
  rewrite <- (byte_of_val b) at 3. do 3 f_equal. symmetry. apply Z.div_mod. lia.
Qed.

(** A string and its bytes. *)
Definition string_bytes (s : string) : list byte := String.list_byte_of_string s.
Definition bytes_string (b : list byte) : string := String.string_of_list_byte b.

Lemma bytes_string_bytes s : bytes_string (string_bytes s) = s.
Proof. apply String.string_of_list_byte_of_string. Qed.
Lemma string_bytes_string b : string_bytes (bytes_string b) = b.
Proof. apply String.list_byte_of_string_of_list_byte. Qed.
Lemma string_bytes_app s t : string_bytes (s +:+ t) = string_bytes s ++ string_bytes t.
Proof.
  unfold string_bytes, String.list_byte_of_string. rewrite <- map_app. f_equal.
  induction s as [|c s IH]; [done|]. cbn [String.list_ascii_of_string app]. by rewrite <- IH.
Qed.
Lemma length_string_bytes s : length (string_bytes s) = String.length s.
Proof.
  unfold string_bytes, String.list_byte_of_string. rewrite length_map.
  induction s as [|c s IH]; [done|]. cbn [String.list_ascii_of_string length String.length]. by rewrite IH.
Qed.
Lemma string_bytes_inj s t : string_bytes s = string_bytes t → s = t.
Proof. intros H. by rewrite <- (bytes_string_bytes s), H, bytes_string_bytes. Qed.

#[export] Hint Resolve byte_val_range be_val_range : openpcc.
#[export] Hint Rewrite byte_of_val byte_val_of length_be_bytes be_val_bytes : openpcc.
