(* ===== verification/Base64.v ===== *)
(** What the sources use of [encoding/base64]: the padded standard alphabet
    ([StdEncoding]) and the unpadded URL alphabet ([RawURLEncoding]).  Decoding
    skips line breaks and, like Go's non-strict decoder, ignores the unused bits
    of the last digit. *)

From Stdlib Require Import Strings.Ascii.
From Stdlib Require Strings.String.
From S2P Require Import Prelude Bytes.

Record Encoding := MkEncoding { char62 : ascii; char63 : ascii; padded : bool }.

Definition StdEncoding : Encoding := MkEncoding "+" "/" true.
Definition RawURLEncoding : Encoding := MkEncoding "-" "_" false.

Definition char_code (c : ascii) : Z := Z.of_N (N_of_ascii c).
Definition char_of (n : Z) : ascii := ascii_of_N (Z.to_N n).

Section base64.
Context (enc : Encoding).

Definition digit_char (d : Z) : ascii :=
  if d <? 26 then char_of (65 + d)
  else if d <? 52 then char_of (97 + (d - 26))
  else if d <? 62 then char_of (48 + (d - 52))
  else if d =? 62 then char62 enc else char63 enc.

Definition char_digit (c : ascii) : option Z :=
  let n := char_code c in
  if (65 <=? n) && (n <=? 90) then Some (n - 65)
  else if (97 <=? n) && (n <=? 122) then Some (n - 97 + 26)
  else if (48 <=? n) && (n <=? 57) then Some (n - 48 + 52)
  else if bool_decide (c = char62 enc) then Some 62
  else if bool_decide (c = char63 enc) then Some 63 else None.

Definition pad_chars (l : list ascii) : list ascii := if padded enc then l else [].

Fixpoint encode_chars (l : list byte) : list ascii :=
  match l with
  | [] => []
  | [a] =>
      let a := byte_val a in
      digit_char (a / 4) :: digit_char (a mod 4 * 16) :: pad_chars ["="%char; "="%char]
  | [a; b] =>
      let a := byte_val a in let b := byte_val b in
      digit_char (a / 4) :: digit_char (a mod 4 * 16 + b / 16) :: digit_char (b mod 16 * 4)
        :: pad_chars ["="%char]
  | a :: b :: c :: l =>
      let a := byte_val a in let b := byte_val b in let c := byte_val c in
      digit_char (a / 4) :: digit_char (a mod 4 * 16 + b / 16) ::
      digit_char (b mod 16 * 4 + c / 64) :: digit_char (c mod 64) :: encode_chars l
  end.

Definition is_pad (c : ascii) : bool := padded enc && bool_decide (c = "="%char).

Fixpoint decode_chars (l : list ascii) : option (list byte) :=
  match l with
  | [] => Some []
  | [_] => None
  | c0 :: c1 :: rest0 =>
      d0 ← char_digit c0; d1 ← char_digit c1;
      let b0 := byte_of (d0 * 4 + d1 / 16) in
      match rest0 with
      | [] => if padded enc then None else Some [b0]
      | c2 :: rest1 =>
          if is_pad c2 then
            match rest1 with
            | [c3] => if is_pad c3 then Some [b0] else None
            | _ => None
            end
          else
            d2 ← char_digit c2;
            let b1 := byte_of (d1 mod 16 * 16 + d2 / 4) in
            match rest1 with
            | [] => if padded enc then None else Some [b0; b1]
            | c3 :: rest =>
                if is_pad c3 then match rest with [] => Some [b0; b1] | _ => None end
                else
                  d3 ← char_digit c3;
                  let b2 := byte_of (d2 mod 4 * 64 + d3) in
                  t ← decode_chars rest;
                  Some (b0 :: b1 :: b2 :: t)
            end
      end
  end.

Definition is_newline (c : ascii) : bool := bool_decide (char_code c = 10) || bool_decide (char_code c = 13).

Definition EncodeToString (l : list byte) : string := String.string_of_list_ascii (encode_chars l).
Definition DecodeString (s : string) : option (list byte) :=
  decode_chars (filter (λ c, is_newline c = false) (String.list_ascii_of_string s)).
End base64.

(** The two encodings of the sources, for which the alphabet is one to one. *)
Definition known (enc : Encoding) : Prop := enc = StdEncoding ∨ enc = RawURLEncoding.

Lemma digit_props enc d : known enc → 0 ≤ d < 64 →
  char_digit enc (digit_char enc d) = Some d ∧ is_pad enc (digit_char enc d) = false ∧
  is_newline (digit_char enc d) = false.
Proof.
  intros [-> | ->] Hd.
  - by_enum (λ d, char_digit StdEncoding (digit_char StdEncoding d) = Some d ∧
      is_pad StdEncoding (digit_char StdEncoding d) = false ∧ is_newline (digit_char StdEncoding d) = false) 0 64 d.
  - by_enum (λ d, char_digit RawURLEncoding (digit_char RawURLEncoding d) = Some d ∧
      is_pad RawURLEncoding (digit_char RawURLEncoding d) = false ∧
      is_newline (digit_char RawURLEncoding d) = false) 0 64 d.
Qed.

Lemma digit_char_digit enc d : known enc → 0 ≤ d < 64 → char_digit enc (digit_char enc d) = Some d.
Proof. intros. by apply digit_props. Qed.
Lemma digit_is_pad enc d : known enc → 0 ≤ d < 64 → is_pad enc (digit_char enc d) = false.
Proof. intros. by apply digit_props. Qed.

Lemma list_ind3 {A} (P : list A → Prop) :
  P [] → (∀ a, P [a]) → (∀ a b, P [a; b]) → (∀ a b c l, P l → P (a :: b :: c :: l)) → ∀ l, P l.
Proof.
  intros H0 H1 H2 H3. fix IH 1. intros [|a [|b [|c l]]]; [apply H0|apply H1|apply H2|apply H3, IH].
Qed.

Lemma byte_of_eq z b : z = byte_val b → byte_of z = b.
Proof. intros ->. apply byte_of_val. Qed.

Ltac sextets :=
  repeat match goal with b : byte |- _ =>
    let H := fresh in pose proof (byte_val_range b) as H; revert H; generalize (byte_val b); clear b; intros ?z H end;
  Z.to_euclidean_division_equations; lia.

Lemma decode_encode_chars enc l : known enc → decode_chars enc (encode_chars enc l) = Some l.
Proof.
  intros Hk.
  assert (padded enc = true ∨ padded enc = false) as Hpad by (destruct (padded enc); auto).
  induction l as [|a|a b|a b c l IH] using list_ind3; [done|..]; cbn [encode_chars decode_chars];
    rewrite !(digit_char_digit enc) by (done || sextets); cbn [mbind option_bind].
  - unfold pad_chars, is_pad. destruct Hpad as [Hpad|Hpad]; rewrite !Hpad; cbn [decode_chars].
    all: do 2 f_equal; apply byte_of_eq; sextets.
  - rewrite (digit_is_pad enc) by (done || sextets). unfold pad_chars, is_pad.
    destruct Hpad as [Hpad|Hpad]; rewrite !Hpad; simpl; repeat f_equal; apply byte_of_eq; sextets.
  - rewrite !(digit_is_pad enc) by (done || sextets). rewrite IH. simpl.
    repeat f_equal; apply byte_of_eq; sextets.
Qed.

Lemma encode_no_newline enc l : known enc → Forall (λ c, is_newline c = false) (encode_chars enc l).
Proof.
  intros Hk. induction l as [|a|a b|a b c l IH] using list_ind3; cbn [encode_chars]; [done|..].
  all: repeat (apply Forall_cons; split; [apply digit_props; [done|sextets]|]); try done.
  all: unfold pad_chars; destruct (padded enc); repeat constructor.
Qed.

Lemma Decode_Encode enc l : known enc → DecodeString enc (EncodeToString enc l) = Some l.
Proof.
  intros Hk. unfold DecodeString, EncodeToString. rewrite String.list_ascii_of_string_of_list_ascii.
  rewrite filter_all by by apply encode_no_newline. by apply decode_encode_chars.
Qed.

Lemma EncodeToString_inj enc l k : known enc → EncodeToString enc l = EncodeToString enc k → l = k.
Proof.
  intros Hk H. apply (f_equal (DecodeString enc)) in H. rewrite !Decode_Encode in H by done. by injection H.
Qed.
