(* ===== verification/GoLib.v ===== *)
(** The parts of Go's standard library the sources lean on ([sort], [time]),
    and the interfaces of the packages they only call ([net/url],
    [google/uuid], [timestamppb]).  An interface is a class: the clients'
    theorems are proved against it, the instances at the end show that its laws
    can hold and let concrete runs be evaluated. *)

From Stdlib Require Import Strings.Ascii.
From S2P Require Import Prelude Bytes.

(** ** [time]

    A [time.Time] is its distance to the Unix epoch and a [time.Duration] a
    number, both in nanoseconds. *)

Definition second : Z := 1000000000.
Definition minute : Z := 60 * second.
(** The zero [time.Time] is January 1 of year 1, 00:00:00 UTC. *)
Definition zero_time : Z := -62135596800 * second.
Definition is_zero_time (t : Z) : bool := bool_decide (t = zero_time).
(** [t.Unix()]: whole seconds, rounded towards the past. *)
Definition unix (t : Z) : Z := t / second.
(** [t.Before(u)] and [t.After(u)]. *)
Definition before (t u : Z) : bool := t <? u.
Definition after (t u : Z) : bool := u <? t.

(** ** [sort.Search]: binary search for the first index where [f] holds *)

Fixpoint search_loop (fuel : nat) (f : nat → bool) (i j : nat) : nat :=
  match fuel with
  | O => i
  | S fuel =>
      if (i <? j)%nat then
        let h := ((i + j) / 2)%nat in
        if f h then search_loop fuel f i h else search_loop fuel f (S h) j
      else i
  end.
Definition sort_search (n : nat) (f : nat → bool) : nat := search_loop (S n) f 0 n.

Definition upward (n : nat) (f : nat → bool) : Prop :=
  ∀ i j, (i ≤ j)%nat → (j < n)%nat → f i = true → f j = true.

Lemma search_loop_spec n f fuel i j :
  upward n f → (i ≤ j ≤ n)%nat → (j - i < fuel)%nat →
  (∀ k, (k < i)%nat → f k = false) →
  (∀ k, (j ≤ k < n)%nat → f k = true) →
  let r := search_loop fuel f i j in
  (r ≤ n)%nat ∧ (∀ k, (k < r)%nat → f k = false) ∧ (∀ k, (r ≤ k < n)%nat → f k = true).
Proof.
  intros Hup. revert i j. induction fuel as [|fuel IH]; intros i j Hij Hf Hlo Hhi; [lia|].
  cbn [search_loop]. destruct (Nat.ltb_spec i j) as [Hlt|Hge].
  - pose proof (Nat.Div0.div_lt_upper_bound (i + j) 2 j ltac:(lia)).
    pose proof (Nat.div_le_lower_bound (i + j) 2 i ltac:(lia) ltac:(lia)).
    destruct (f ((i + j) / 2)%nat) eqn:E.
    + apply IH; [lia|lia|done|]. intros k Hk. apply (Hup ((i + j) / 2)%nat); [lia..|done].
    + apply IH; [lia|lia| |done]. intros k Hk.
      destruct (f k) eqn:Ek; [|done].
      rewrite (Hup k ((i + j) / 2)%nat) in E; [done|lia..|done].
  - assert (i = j) as -> by lia. split; [lia|auto].
Qed.

(** Enough fuel is built in: the result splits the range at the first hit. *)
Lemma sort_search_spec n f :
  upward n f →
  (sort_search n f ≤ n)%nat ∧ (∀ k, (k < sort_search n f)%nat → f k = false) ∧
  (∀ k, (sort_search n f ≤ k < n)%nat → f k = true).
Proof. intros H. apply search_loop_spec; auto with lia. Qed.

(** ** [sort.Slice] and [slices.SortFunc]

    Both are unstable sorts: they promise a permutation ordered by [less], not
    which one.  Clients only get that promise. *)

Record weak_order {A} (less : A → A → bool) : Prop := {
  weak_asym x y : less x y = true → less y x = false;
  weak_trans x y z : less y x = false → less z y = false → less z x = false;
}.

Class SliceSort := {
  slice_sort {A} : (A → A → bool) → list A → list A;
  slice_sort_perm {A} (less : A → A → bool) l : slice_sort less l ≡ₚ l;
  slice_sort_sorted {A} (less : A → A → bool) l :
    weak_order less → StronglySorted (λ x y, less y x = false) (slice_sort less l);
}.

(** [slices.Sort] on integers: the order is total, so the result is unique. *)
Definition slices_sort (l : list Z) : list Z := merge_sort (≤) l.

Lemma slices_sort_perm l : slices_sort l ≡ₚ l.
Proof. apply merge_sort_Permutation. Qed.
Lemma slices_sort_sorted l : StronglySorted (≤) (slices_sort l).
Proof. apply (StronglySorted_merge_sort (≤)). Qed.

(** ** [net/url] *)

Class UrlLib := {
  url : Type;
  url_eq_dec :: EqDecision url;
  url_parse : string → option url;
  url_string : url → string;
  url_scheme : url → string;
  url_host : url → string;
}.
(** What the round trips rely on: the URLs at hand print to text that parses
    back, and printing tells them apart. *)
Class UrlLaws (U : UrlLib) := {
  url_parse_string (u : url) : url_parse (url_string u) = Some u;
}.

(** ** [crypto/sha256] *)

Class Sha256Lib := {
  sha256 : list byte → list byte;
  length_sha256 b : length (sha256 b) = 32%nat;
}.

(** ** [google/uuid]

    A UUID is an array of 16 bytes, kept as the number those bytes spell. *)

Abbreviation uuid := N.
Definition uuid_bytes (u : uuid) : list byte := be_bytes 16 (Z.of_N u).
Definition zero_uuid : uuid := 0%N.
Definition uuid_wf (u : uuid) : Prop := (u < 2 ^ 128)%N.

Class UuidLib := {
  uuid_parse : string → option uuid;
  uuid_string : uuid → string;
  uuid_version : uuid → Z;
}.
Class UuidLaws (U : UuidLib) := {
  uuid_parse_string u : uuid_wf u → uuid_parse (uuid_string u) = Some u;
}.

Lemma uuid_bytes_inj u v : uuid_wf u → uuid_wf v → uuid_bytes u = uuid_bytes v → u = v.
Proof.
  unfold uuid_wf, uuid_bytes. intros Hu Hv H%be_bytes_inj.
  change (256 ^ Z.of_nat 16) with (2 ^ 128) in H.
  rewrite !Z.mod_small in H by lia. lia.
Qed.

(** ** Plain errors: [errors.New]/[fmt.Errorf] and their [%w] wrapping *)

Inductive goerror :=
| ErrorNew (msg : string)
| ErrorWrap (msg : string) (e : goerror).

#[global] Instance goerror_eq_dec : EqDecision goerror.
Proof. solve_decision. Defined.
(** [err.Error()]. *)
Fixpoint Error_text (e : goerror) : string :=
  match e with ErrorNew msg => msg | ErrorWrap msg e => msg +:+ ": " +:+ Error_text e end.

(** ** [timestamppb] *)

Class TimestampLib := {
  timestamp : Type;
  ts_new : Z → timestamp;
  ts_as_time : timestamp → Z;
  ts_seconds : timestamp → Z;
}.
Class TimestampLaws (T : TimestampLib) := {
  ts_as_time_new t : ts_as_time (ts_new t) = t;
  ts_seconds_new t : ts_seconds (ts_new t) = unix t;
}.

(** ** [proto.Marshal] and [proto.Unmarshal] for the generated message type [M] *)

Class ProtoWire (M : Type) := {
  proto_marshal : M → option (list byte);
  proto_unmarshal : list byte → option M;
}.
Class ProtoWireLaws (M : Type) {W : ProtoWire M} := {
  proto_unmarshal_marshal (m : M) b : proto_marshal m = Some b → proto_unmarshal b = Some m;
}.

Definition marshal_message {M} {W : ProtoWire M} (m : M) : result goerror (list byte) :=
  match proto_marshal m with Some b => Ok b | None => Err (ErrorNew "proto: marshal") end.
Definition unmarshal_message {M} {W : ProtoWire M} (b : list byte) : result goerror M :=
  match proto_unmarshal b with Some m => Ok m | None => Err (ErrorNew "proto: cannot parse") end.

Lemma unmarshal_marshalled {M} {W : ProtoWire M} {WL : ProtoWireLaws M} (m : M) b :
  marshal_message m = Ok b → unmarshal_message b = Ok m.
Proof.
  unfold marshal_message, unmarshal_message. destruct (proto_marshal m) eqn:E; [|done].
  intros [= <-]. by rewrite (proto_unmarshal_marshal m).
Qed.

(** ** The [range] order of maps

    A [range] over a map visits its keys in an order the program must not rely
    on: any enumeration. *)

Class RangeOrder := {
  range_keys {K} `{Countable K} : gset K → list K;
  range_keys_perm {K} `{Countable K} (s : gset K) : range_keys s ≡ₚ elements s;
}.

Definition range_map {R : RangeOrder} {K A} `{Countable K} (m : gmap K A) : list (K * A) :=
  omap (λ k, (k,.) <$> m !! k) (range_keys (dom m)).

Lemma range_keys_elem {R : RangeOrder} {K} `{Countable K} (s : gset K) k : k ∈ range_keys s ↔ k ∈ s.
Proof. rewrite range_keys_perm. apply elem_of_elements. Qed.

Lemma range_keys_nodup {R : RangeOrder} {K} `{Countable K} (s : gset K) : NoDup (range_keys s).
Proof. rewrite range_keys_perm. apply NoDup_elements. Qed.

Lemma range_map_elem {R : RangeOrder} {K A} `{Countable K} (m : gmap K A) k x :
  (k, x) ∈ range_map m ↔ m !! k = Some x.
Proof.
  unfold range_map. rewrite list_elem_of_omap. split.
  - intros (k' & _ & E). destruct (m !! k') eqn:Ek; naive_solver.
  - intros Hk. exists k. rewrite range_keys_elem, Hk. split; [by apply elem_of_dom_2 in Hk|done].
Qed.

Lemma range_map_keys {R : RangeOrder} {K A} `{Countable K} (m : gmap K A) :
  (range_map m).*1 = range_keys (dom m).
Proof.
  unfold range_map. assert (H' : ∀ l, (∀ k, k ∈ l → is_Some (m !! k)) →
    (omap (λ k, (k,.) <$> m !! k) l).*1 = l).
  { induction l as [|k l IH]; intros Hl; [done|]. destruct (Hl k) as [x Hx]; [left|].
    cbn [omap list_omap]. rewrite Hx. simpl. f_equal. apply IH. intros. apply Hl. by right. }
  apply H'. intros k Hk%range_keys_elem. by apply elem_of_dom.
Qed.

Lemma range_map_nodup {R : RangeOrder} {K A} `{Countable K} (m : gmap K A) : NoDup (range_map m).*1.
Proof. rewrite range_map_keys. apply range_keys_nodup. Qed.

(** ** Reference instances, used by the witnesses *)

Definition elements_order : RangeOrder.
Proof. refine {| range_keys K _ _ s := elements s |}. done. Defined.

Section insertion_sort.
Context {A : Type} (less : A → A → bool).

Fixpoint sort_insert (x : A) (l : list A) : list A :=
  match l with
  | [] => [x]
  | y :: k => if less x y then x :: l else y :: sort_insert x k
  end.
Definition insertion_sort (l : list A) : list A := foldl (λ acc x, sort_insert x acc) [] l.

Lemma sort_insert_perm x l : sort_insert x l ≡ₚ x :: l.
Proof.
  induction l as [|y l IH]; simpl; [done|]. destruct (less x y); [done|].
  rewrite IH. apply Permutation_swap.
Qed.

Lemma insertion_sort_perm_acc l acc :
  foldl (λ acc x, sort_insert x acc) acc l ≡ₚ l ++ acc.
Proof.
  revert acc. induction l as [|x l IH]; intros acc; simpl; [done|].
  rewrite IH, sort_insert_perm. by rewrite <- Permutation_middle.
Qed.

Lemma sort_insert_sorted x l :
  weak_order less → StronglySorted (λ x y, less y x = false) l →
  StronglySorted (λ x y, less y x = false) (sort_insert x l).
Proof.
  intros [Has Htr]. induction 1 as [|y l Hl IH Hy]; simpl; [repeat constructor|].
  destruct (less x y) eqn:E.
  - constructor; [by constructor|]. constructor; [by apply Has|].
    eapply Forall_impl; [exact Hy|]. intros z Hz. simpl in *.
    apply (Htr _ y); [by apply Has|done].
  - constructor; [done|]. rewrite sort_insert_perm. by constructor.
Qed.

Lemma insertion_sort_sorted l :
  weak_order less → StronglySorted (λ x y, less y x = false) (insertion_sort l).
Proof.
  intros Hw. unfold insertion_sort.
  assert (H : StronglySorted (λ x y, less y x = false) []) by constructor.
  revert H. generalize (@nil A). induction l as [|x l IH]; intros acc Hacc; simpl; [done|].
  apply IH. by apply sort_insert_sorted.
Qed.
End insertion_sort.

Program Definition insertion_slice_sort : SliceSort :=
  {| slice_sort _ less l := insertion_sort less l |}.
Next Obligation. intros. rewrite (insertion_sort_perm_acc less l []). by rewrite app_nil_r. Qed.
Next Obligation. intros. by apply insertion_sort_sorted. Qed.

(** URLs that are their own text; the scheme is the text before the first [:], the
    host what follows [://]. *)
Fixpoint before_colon (s : string) : string :=
  match s with
  | EmptyString => EmptyString
  | String c s => if bool_decide (c = ":"%char) then EmptyString else String c (before_colon s)
  end.
Fixpoint after_slashes (s : string) : string :=
  match s with
  | String ":" (String "/" (String "/" s)) => s
  | String _ s => after_slashes s
  | EmptyString => EmptyString
  end.
Definition text_url : UrlLib :=
  {| url := string; url_parse s := Some s; url_string u := u; url_scheme := before_colon; url_host := after_slashes |}.
Lemma text_url_laws : UrlLaws text_url.
Proof. by constructor. Qed.

(** A digest that keeps the first 31 bytes of its input and a checksum of it. *)
Definition toy_digest (b : list byte) : list byte :=
  take 31 (b ++ replicate 31 x00) ++ [byte_of (Z.of_nat (length b) + sum_Z (byte_val <$> b))].
Program Definition toy_sha256 : Sha256Lib := {| sha256 := toy_digest |}.
Next Obligation. intros b. unfold toy_digest. rewrite length_app, length_take, length_app, length_replicate, Nat.min_l by lia. done. Qed.

Definition unix_timestamp : TimestampLib :=
  {| timestamp := Z; ts_new t := t; ts_as_time t := t; ts_seconds t := unix t |}.
Lemma unix_timestamp_laws : TimestampLaws unix_timestamp.
Proof. by constructor. Qed.

(** UUIDs written in binary, with the version in the high nibble of byte 6. *)
Fixpoint pos_text (p : positive) : string :=
  match p with
  | xH => EmptyString
  | xO p => String "0"%char (pos_text p)
  | xI p => String "1"%char (pos_text p)
  end.
Fixpoint text_pos (s : string) : option positive :=
  match s with
  | EmptyString => Some xH
  | String c s =>
      if bool_decide (c = "0"%char) then xO <$> text_pos s
      else if bool_decide (c = "1"%char) then xI <$> text_pos s else None
  end.
Lemma text_pos_text p : text_pos (pos_text p) = Some p.
Proof. induction p as [p IH|p IH|]; simpl; by rewrite ?IH. Qed.

Definition binary_uuid : UuidLib := {|
  uuid_parse s := Pos.pred_N <$> text_pos s;
  uuid_string u := pos_text (N.succ_pos u);
  uuid_version u := Z.of_N ((u / 2 ^ 76) mod 16);
|}.
Lemma binary_uuid_laws : UuidLaws binary_uuid.
Proof. constructor. intros u _. simpl. rewrite text_pos_text. simpl. by rewrite N.pos_pred_succ. Qed.

(** A wire format for any type of messages whose fields are countable: the bits of
    their code, a byte each. *)
Fixpoint pos_bytes (p : positive) : list byte :=
  match p with xH => [] | xO p => x00 :: pos_bytes p | xI p => x01 :: pos_bytes p end.
Fixpoint bytes_pos (b : list byte) : positive :=
  match b with [] => xH | c :: b => if bool_decide (c = x00) then xO (bytes_pos b) else xI (bytes_pos b) end.
Lemma bytes_pos_bytes p : bytes_pos (pos_bytes p) = p.
Proof. induction p as [p IH|p IH|]; cbn; by rewrite ?IH. Qed.

Definition record_wire {M B} `{Countable B} (f : M → B) (g : B → M) : ProtoWire M := {|
  proto_marshal m := Some (pos_bytes (encode (f m)));
  proto_unmarshal b := g <$> decode (bytes_pos b);
|}.
Lemma record_wire_laws {M B} `{Countable B} (f : M → B) (g : B → M) :
  (∀ m, g (f m) = m) → @ProtoWireLaws M (record_wire f g).
Proof. intros Hg. constructor. intros m b [= <-]. cbn. rewrite bytes_pos_bytes, decode_encode. cbn. by rewrite Hg. Qed.
