(* ===== verification/Float64.v ===== *)
(** IEEE 754 binary64 as the sources use it, on top of the axiom-free
    [SpecFloat]: arithmetic rounds to nearest even at 53 bits of precision. *)

From Stdlib Require Import Floats.SpecFloat.
From S2P Require Import Prelude.

Abbreviation float64 := spec_float.

Definition f64_of_Z (z : Z) : float64 := binary_normalize 53 1024 z 0 false.
Definition f64_sub : float64 → float64 → float64 := SFsub 53 1024.
Definition f64_mul : float64 → float64 → float64 := SFmul 53 1024.
Definition f64_div : float64 → float64 → float64 := SFdiv 53 1024.
Definition f64_ltb : float64 → float64 → bool := SFltb.
Definition f64_eqb : float64 → float64 → bool := SFeqb.
Definition f64_zero : float64 := S754_zero false.
Definition f64_one : float64 := f64_of_Z 1.

(** The integers [math.Floor] and [math.Ceil] produce, for finite arguments. *)
Definition f64_floor (x : float64) : option Z :=
  match x with
  | S754_zero _ => Some 0
  | S754_finite s m e =>
      let z := if s then Z.neg m else Z.pos m in
      Some (if 0 <=? e then z * 2 ^ e else z / 2 ^ (- e))
  | _ => None
  end.
Definition f64_ceil (x : float64) : option Z :=
  match x with
  | S754_zero _ => Some 0
  | S754_finite s m e =>
      let z := if s then Z.neg m else Z.pos m in
      Some (if 0 <=? e then z * 2 ^ e else - (- z / 2 ^ (- e)))
  | _ => None
  end.

Definition f64_finite (x : float64) : Prop := is_Some (f64_floor x).
(** [x < 0] fails exactly on zeros, positive numbers, +Inf and NaN. *)
Definition f64_nonneg (x : float64) : Prop := f64_ltb x f64_zero = false.

Lemma f64_ltb_zero_finite s m e : f64_ltb (S754_finite s m e) f64_zero = s.
Proof. by destruct s. Qed.

Lemma f64_floor_nonneg x z : f64_nonneg x → f64_floor x = Some z → 0 ≤ z.
Proof.
  unfold f64_nonneg. destruct x as [| | |s m e]; simpl; intros Hn Hz; simplify_eq; [lia|].
  rewrite f64_ltb_zero_finite in Hn. subst s. case_match; [lia|].
  apply Z.div_pos; lia.
Qed.

(** The ceiling exists with the floor and is the floor or its successor. *)
Lemma f64_ceil_floor x lo :
  f64_floor x = Some lo → ∃ hi, f64_ceil x = Some hi ∧ lo ≤ hi ≤ lo + 1.
Proof.
  destruct x as [| | |s m e]; simpl; intros H; simplify_eq.
  { exists 0. split; [done|lia]. }
  eexists; split; [done|]. set (z := if s then _ else _). clearbody z.
  destruct (0 <=? e) eqn:E; [lia|]. apply Z.leb_gt in E.
  assert (0 < 2 ^ (- e)) by lia. generalize dependent (2 ^ (- e)). intros d ?.
  pose proof (Z.div_mod z d). pose proof (Z.mod_pos_bound z d).
  pose proof (Z.div_mod (- z) d). pose proof (Z.mod_pos_bound (- z) d). nia.
Qed.

Lemma digits2_pos_log2 m : Zpos (digits2_pos m) = Z.log2 (Zpos m) + 1.
Proof.
  induction m as [m IH|m IH|]; [| |done]; cbn [digits2_pos]; rewrite Pos2Z.inj_succ, IH.
  - change (Z.pos m~1) with (2 * Z.pos m + 1). rewrite Z.log2_succ_double by lia. lia.
  - change (Z.pos m~0) with (2 * Z.pos m). rewrite Z.log2_double by lia. lia.
Qed.

Lemma shift_pos_mul d m : Zpos (Zpower.shift_pos d m) = Zpos m * 2 ^ Zpos d.
Proof. by rewrite Zpower.shift_pos_correct, Z.mul_comm. Qed.

(** Numbers of up to 53 bits are stored with a 53-bit mantissa, unrounded. *)
Lemma f64_of_Z_pos m :
  Zpos m < 2 ^ 53 → ∃ m' e, f64_of_Z (Zpos m) = S754_finite false m' e ∧ e ≤ 0 ∧ Zpos m' = Zpos m * 2 ^ (- e).
Proof.
  intros Hm. unfold f64_of_Z, binary_normalize, binary_round.
  pose proof (digits2_pos_log2 m) as Hd. pose proof (Z.log2_nonneg (Zpos m)).
  assert (Z.log2 (Zpos m) < 53) by (apply Z.log2_lt_pow2; lia).
  set (D := Zpos (digits2_pos m)) in *.
  assert (Hf : fexp 53 1024 (D + 0) = D - 53) by (unfold fexp, emin; lia).
  unfold shl_align. fold D. rewrite Hf.
  assert (Hshift : ∃ m', match D - 53 - 0 with
      | Z.neg d => (Pos.iter xO m d, D - 53) | _ => (m, 0) end = (m', D - 53)
      ∧ Zpos m' = Zpos m * 2 ^ (53 - D)).
  { destruct (D - 53 - 0) as [|p|p] eqn:E; [|lia|].
    - exists m. replace (D - 53) with 0 by lia. replace (53 - D) with 0 by lia. split; [done|lia].
    - eexists. split; [done|]. change (Pos.iter xO m p) with (Zpower.shift_pos p m). rewrite shift_pos_mul. do 2 f_equal. lia. }
  destruct Hshift as (m' & -> & Hm').
  assert (HD' : Z.pos (digits2_pos m') = 53).
  { rewrite digits2_pos_log2, Hm', Z.log2_mul_pow2 by lia. lia. }
  assert (Hshr : ∀ l, shr_fexp 53 1024 (Zpos m') (D - 53) l = (shr_record_of_loc (Zpos m') l, D - 53)).
  { intros l. unfold shr_fexp, shr, Zdigits2. rewrite HD'.
    replace (fexp 53 1024 (53 + (D - 53)) - (D - 53)) with 0; [done|].
    unfold fexp, emin. lia. }
  unfold binary_round_aux. rewrite Hshr. cbn [shr_record_of_loc shr_m shr_r shr_s loc_of_shr_record round_nearest_even].
  rewrite Hshr. cbn [shr_record_of_loc shr_m].
  rewrite (proj2 (Z.leb_le (D - 53) (1024 - 53))) by lia.
  exists m', (D - 53). split_and!; [done|lia|]. rewrite Hm'. do 2 f_equal. lia.
Qed.

Lemma f64_floor_of_Z z : 0 ≤ z < 2 ^ 53 → f64_floor (f64_of_Z z) = Some z ∧ f64_ceil (f64_of_Z z) = Some z.
Proof.
  intros Hz. destruct z as [|m|]; [done| |lia].
  destruct (f64_of_Z_pos m) as (m' & e & -> & He & Hm'); [lia|]. cbn [f64_floor f64_ceil].
  assert (0 < 2 ^ (- e)) by (apply Z.pow_pos_nonneg; lia).
  rewrite Hm'. destruct (Z.leb_spec 0 e) as [|].
  - replace e with 0 by lia. simpl. split; f_equal; lia.
  - rewrite <- Z.mul_opp_l, !Z.div_mul by lia. split; f_equal; lia.
Qed.

Lemma f64_nonneg_of_Z z : 0 ≤ z < 2 ^ 53 → f64_nonneg (f64_of_Z z).
Proof.
  intros Hz. unfold f64_nonneg. destruct z as [|m|]; [done| |lia].
  destruct (f64_of_Z_pos m) as (m' & e & -> & _); [lia|]. apply f64_ltb_zero_finite.
Qed.
