(* ===== verification/GoStrings.v ===== *)
(** What the sources use of [strings], [strconv] and [net] on text: splitting,
    trimming, decimal integers, and host and port. *)

From Stdlib Require Import Strings.Ascii.
From Stdlib Require Strings.String.
From Stdlib Require Import Structures.OrderedTypeEx.
From stdpp Require Import pretty.
From S2P Require Import Prelude GoLib.

Abbreviation chars := String.list_ascii_of_string.
Abbreviation of_chars := String.string_of_list_ascii.

(** ** [strings] *)

(** [strings.Split] by one character: never empty. *)
Fixpoint split_chars (sep : ascii) (l : list ascii) : list (list ascii) :=
  match l with
  | [] => [[]]
  | c :: l =>
      if bool_decide (c = sep) then [] :: split_chars sep l
      else match split_chars sep l with
           | part :: parts => (c :: part) :: parts
           | [] => [[c]]
           end
  end.
Definition Split (s : string) (sep : ascii) : list string := of_chars <$> split_chars sep (chars s).

Fixpoint Join (parts : list string) (sep : string) : string :=
  match parts with
  | [] => ""
  | [p] => p
  | p :: parts => p +:+ sep +:+ Join parts sep
  end.

Definition asc (n : nat) : ascii := ascii_of_nat n.

(** The UTF-8 texts of the white space characters of [unicode.IsSpace]. *)
Definition spaces : list (list ascii) :=
  ((λ n, [asc n]) <$> [9; 10; 11; 12; 13; 32]%nat) ++
  [[asc 194; asc 133]; [asc 194; asc 160]; [asc 225; asc 154; asc 128]] ++
  ((λ n, [asc 226; asc 128; asc n]) <$> [128; 129; 130; 131; 132; 133; 134; 135; 136; 137; 138; 168; 169; 175]%nat) ++
  [[asc 226; asc 129; asc 159]; [asc 227; asc 128; asc 128]].

Fixpoint strip (prefix l : list ascii) : option (list ascii) :=
  match prefix, l with
  | [], _ => Some l
  | p :: prefix, c :: l => if bool_decide (p = c) then strip prefix l else None
  | _ :: _, [] => None
  end.
Definition strip_any (ps : list (list ascii)) (l : list ascii) : option (list ascii) :=
  foldr (λ p rest, match strip p l with Some l' => Some l' | None => rest end) None ps.

(** Each round strips at least one character, so the length is enough. *)
Fixpoint trim_left (ps : list (list ascii)) (fuel : nat) (l : list ascii) : list ascii :=
  match fuel with
  | O => l
  | S fuel => match strip_any ps l with Some l' => trim_left ps fuel l' | None => l end
  end.
Definition trim_right (l : list ascii) : list ascii :=
  reverse (trim_left (reverse <$> spaces) (length l) (reverse l)).
Definition TrimSpace (s : string) : string :=
  let l := chars s in of_chars (trim_right (trim_left spaces (length l) l)).

(** [strings.Compare(a, b) < 0] is a strict order. *)
Lemma string_less_weak_order : weak_order String.ltb.
Proof.
  assert (Hlt : ∀ a b, String.ltb a b = true ↔ String_as_OT.lt a b).
  { intros a b. rewrite <- String_as_OT.cmp_lt. unfold String.ltb, String_as_OT.cmp. by destruct (String.compare a b). }
  assert (Hanti : ∀ a b, String.ltb a b = true → String.ltb b a = false).
  { intros a b. unfold String.ltb. rewrite (String.compare_antisym b a). by destruct (String.compare a b). }
  split; [done|]. intros x y z H1 H2. destruct (String.ltb z x) eqn:E; [|done]. exfalso.
  destruct (String.ltb x y) eqn:Exy.
  - apply Hlt in E, Exy. assert (String.ltb z y = true) by (apply Hlt; by eapply String_as_OT.lt_trans). congruence.
  - assert (x = y) as ->; [|congruence]. revert H1 Exy. unfold String.ltb. rewrite (String.compare_antisym y x).
    destruct (String.compare x y) eqn:Ec; try done. intros _ _. by apply String.compare_eq_iff.
Qed.

Lemma string_less_antisym a b : String.ltb a b = false → String.ltb b a = false → a = b.
Proof.
  unfold String.ltb. rewrite (String.compare_antisym b a). destruct (String.compare a b) eqn:Ec; try done.
  intros _ _. by apply String.compare_eq_iff.
Qed.

(** [sort.Strings] and [sort.StringsAreSorted] *)
Definition string_le (a b : string) : Prop := Is_true (String.leb a b).
#[global] Instance string_le_dec : RelDecision string_le.
Proof. intros a b. unfold string_le. apply _. Defined.

Lemma string_le_not_less a b : string_le a b ↔ String.ltb b a = false.
Proof.
  unfold string_le, String.leb, String.ltb. rewrite (String.compare_antisym b a).
  by destruct (String.compare a b).
Qed.
#[global] Instance string_le_trans : Transitive string_le.
Proof. intros a b c. rewrite !string_le_not_less. apply string_less_weak_order. Qed.
#[global] Instance string_le_total : Total string_le.
Proof.
  intros a b. rewrite !string_le_not_less. destruct (String.ltb b a) eqn:E; [right|by left].
  destruct string_less_weak_order as [Ha _]. by apply Ha.
Qed.
#[global] Instance string_le_antisymm : AntiSymm (=) string_le.
Proof. intros a b. rewrite !string_le_not_less. intros H1 H2. by apply string_less_antisym. Qed.

Definition sort_Strings (l : list string) : list string := merge_sort string_le l.
Fixpoint StringsAreSorted (l : list string) : bool :=
  match l with
  | a :: ((b :: _) as l) => negb (String.ltb b a) && StringsAreSorted l
  | _ => true
  end.

Lemma StringsAreSorted_spec l : StringsAreSorted l = true ↔ StronglySorted string_le l.
Proof.
  split.
  - intros Hl. apply Sorted_StronglySorted; [apply _|]. induction l as [|a [|b l] IH]; [constructor|by repeat constructor|].
    cbn [StringsAreSorted] in Hl. apply andb_true_iff in Hl as [Hab Hl]. constructor; [by apply IH|]. constructor.
    rewrite string_le_not_less. by destruct (String.ltb b a).
  - induction l as [|a [|b l] IH]; [done..|]. intros Hl. apply StronglySorted_inv in Hl as [Hl Ha]. 
    change (StringsAreSorted (a :: b :: l)) with (negb (String.ltb b a) && StringsAreSorted (b :: l)).
    rewrite (IH Hl), andb_true_r. apply Forall_cons in Ha as [Ha _]. apply string_le_not_less in Ha. by rewrite Ha.
Qed.

Lemma sort_Strings_sorted l : StringsAreSorted (sort_Strings l) = true.
Proof. apply StringsAreSorted_spec, StronglySorted_merge_sort; apply _. Qed.
Lemma sort_Strings_perm l : sort_Strings l ≡ₚ l.
Proof. apply merge_sort_Permutation. Qed.
Lemma sort_Strings_id l : StringsAreSorted l = true → sort_Strings l = l.
Proof.
  intros Hl%StringsAreSorted_spec. apply (StronglySorted_unique string_le); [|done|apply sort_Strings_perm].
  apply StringsAreSorted_spec, sort_Strings_sorted.
Qed.

(** ** [filepath.Match] for patterns of [*] and literal characters

    [*] stands for any characters other than the separator. *)
Fixpoint glob_match (p s : list ascii) : bool :=
  match p with
  | [] => match s with [] => true | _ => false end
  | c :: p =>
      if bool_decide (c = "*"%char) then
        (fix star s := glob_match p s ||
          match s with [] => false | d :: s => negb (bool_decide (d = "/"%char)) && star s end) s
      else match s with [] => false | d :: s => bool_decide (c = d) && glob_match p s end
  end.
Definition Match (pattern name : string) : bool := glob_match (chars pattern) (chars name).

Lemma glob_match_literal l p s : "*"%char ∉ l → glob_match (l ++ p) (l ++ s) = glob_match p s.
Proof.
  induction l as [|c l IH]; intros Hl; [done|]. apply not_elem_of_cons in Hl as [Hc Hl]. cbn [app glob_match].
  rewrite bool_decide_eq_false_2 by congruence. by rewrite bool_decide_eq_true_2, IH by done.
Qed.

Lemma glob_match_star a p s : "/"%char ∉ a → glob_match p s = true → glob_match ("*"%char :: p) (a ++ s) = true.
Proof.
  intros Ha Hp. cbn [glob_match]. rewrite bool_decide_eq_true_2 by done. induction a as [|c a IH].
  - cbn [app]. destruct s; by rewrite Hp.
  - apply not_elem_of_cons in Ha as [Hc Ha]. cbn [app]. rewrite (IH Ha), bool_decide_eq_false_2 by congruence. apply orb_true_r.
Qed.

(** ** [strconv] *)

Definition digit_val (c : ascii) : option Z :=
  let n := Z.of_N (N_of_ascii c) in if (48 <=? n) && (n <=? 57) then Some (n - 48) else None.
Fixpoint digits_val (acc : Z) (l : list ascii) : option Z :=
  match l with
  | [] => Some acc
  | c :: l => d ← digit_val c; digits_val (10 * acc + d) l
  end.
Definition parse_unsigned (l : list ascii) : option Z :=
  match l with [] => None | _ => digits_val 0 l end.
(** [strconv.ParseInt(s, 10, 64)]: an optional sign and decimal digits, in range. *)
Definition ParseInt (s : string) : option Z :=
  z ← match chars s with
      | "+"%char :: l => parse_unsigned l
      | "-"%char :: l => Z.opp <$> parse_unsigned l
      | l => parse_unsigned l
      end;
  if (- 2 ^ 63 <=? z) && (z <? 2 ^ 63) then Some z else None.

(** ** [net.SplitHostPort]: the host *)

Fixpoint index_of (c : ascii) (l : list ascii) : option nat :=
  match l with
  | [] => None
  | d :: l => if bool_decide (c = d) then Some O else S <$> index_of c l
  end.
Definition last_index_of (c : ascii) (l : list ascii) : option nat :=
  i ← index_of c (reverse l); Some (length l - 1 - i)%nat.

Definition addr_err (why : string) : goerror := ErrorNew (why +:+ " in address").
Definition SplitHost (hostport : string) : result goerror string :=
  let l := chars hostport in
  match last_index_of ":" l with
  | None => Err (addr_err "missing port")
  | Some i =>
      '(host, j, k) ←
        match l with
        | "["%char :: _ =>
            match index_of "]" l with
            | None => Err (addr_err "missing ']'")
            | Some e =>
                if (S e =? length l)%nat then Err (addr_err "missing port")
                else if (S e =? i)%nat then Ok (take (e - 1) (drop 1 l), 1%nat, S e)
                else if bool_decide (l !! S e = Some ":"%char) then Err (addr_err "too many colons")
                else Err (addr_err "missing port")
            end
        | _ =>
            if bool_decide (":"%char ∈ take i l) then Err (addr_err "too many colons")
            else Ok (take i l, 0%nat, 0%nat)
        end;
      if bool_decide ("["%char ∈ drop j l) then Err (addr_err "unexpected '['")
      else if bool_decide ("]"%char ∈ drop k l) then Err (addr_err "unexpected ']'")
      else Ok (of_chars host)
  end.

(** ** Splitting and joining *)

Lemma split_chars_nonempty sep l : split_chars sep l ≠ [].
Proof. destruct l as [|c l]; simpl; [done|]. case_bool_decide; [done|]. by destruct (split_chars sep l). Qed.

Lemma split_chars_app sep a l :
  sep ∉ a → split_chars sep (a ++ l) =
    match split_chars sep l with part :: parts => (a ++ part) :: parts | [] => [a] end.
Proof.
  induction a as [|c a IH]; intros Hn; simpl.
  - pose proof (split_chars_nonempty sep l). by destruct (split_chars sep l).
  - rewrite not_elem_of_cons in Hn. rewrite bool_decide_eq_false_2 by (intros ->; naive_solver).
    rewrite IH by naive_solver. pose proof (split_chars_nonempty sep l). by destruct (split_chars sep l).
Qed.

Lemma chars_app a b : chars (a +:+ b) = chars a ++ chars b.
Proof. induction a as [|c a IH]; [done|]. simpl. by f_equal. Qed.

Lemma string_app_assoc (a b c : string) : (a +:+ b) +:+ c = a +:+ b +:+ c.
Proof. induction a as [|x a IH]; [done|]. change (String x ((a +:+ b) +:+ c) = String x (a +:+ b +:+ c)). by rewrite IH. Qed.
Lemma string_app_nil_r (a : string) : a +:+ "" = a.
Proof. induction a as [|x a IH]; [done|]. change (String x (a +:+ "") = String x a). by rewrite IH. Qed.

(** [strings.Contains]. *)
Fixpoint str_contains (s sub : string) : bool :=
  String.prefix sub s || match s with EmptyString => false | String _ s => str_contains s sub end.

(** Splitting inverts joining when no part contains the separator. *)
Lemma Split_Join parts sep :
  parts ≠ [] → Forall (λ p, sep ∉ chars p) parts → Split (Join parts (String sep "")) sep = parts.
Proof.
  intros Hne Hf. unfold Split. destruct parts as [|p parts]; [done|]. clear Hne. revert p Hf.
  induction parts as [|q parts IH]; intros p [Hp Hf]%Forall_cons.
  - cbn [Join]. rewrite <- (app_nil_r (chars p)), split_chars_app by done. simpl.
    by rewrite app_nil_r, String.string_of_list_ascii_of_string.
  - change (Join (p :: q :: parts) (String sep "")) with (p +:+ String sep "" +:+ Join (q :: parts) (String sep "")).
    rewrite chars_app, split_chars_app by done.
    change (chars (String sep "" +:+ Join (q :: parts) (String sep ""))) with (sep :: chars (Join (q :: parts) (String sep ""))).
    cbn [split_chars].
    rewrite bool_decide_eq_true_2 by done. rewrite app_nil_r, fmap_cons, String.string_of_list_ascii_of_string.
    f_equal. by apply IH.
Qed.

(** ** Decimal integers

    [strconv.FormatInt(z, 10)] is [pretty]. *)

Lemma digit_val_char (d : N) : (d < 10)%N → digit_val (pretty_N_char d) = Some (Z.of_N d).
Proof.
  intros Hd. assert (d ∈ [0; 1; 2; 3; 4; 5; 6; 7; 8; 9]%N) as Hin by (rewrite !elem_of_cons; lia).
  revert d Hd Hin. cut (Forall (λ d, digit_val (pretty_N_char d) = Some (Z.of_N d)) [0; 1; 2; 3; 4; 5; 6; 7; 8; 9]%N);
    [intros H d _ Hin; by eapply (Forall_forall _ _) in H|by repeat constructor].
Qed.

Lemma digits_val_pretty_go (x : N) s : digits_val 0 (chars (pretty_N_go x s)) = digits_val (Z.of_N x) (chars s).
Proof.
  revert s. induction (N.lt_wf_0 x) as [x _ IH]. intros s.
  destruct (decide (0 < x)%N) as [Hx|Hx].
  - rewrite pretty_N_go_step by done. rewrite IH by (apply N.div_lt; lia). cbn [String.list_ascii_of_string digits_val].
    rewrite digit_val_char by (apply N.mod_lt; done). cbn [mbind option_bind].
    f_equal. rewrite N2Z.inj_div, N2Z.inj_mod. rewrite <- Z.div_mod by lia. done.
  - replace x with 0%N by lia. done.
Qed.

Lemma digits_val_head c l acc z : digits_val acc (c :: l) = Some z → c ≠ "+"%char ∧ c ≠ "-"%char.
Proof. cbn [digits_val]. intros H. split; intros ->; by vm_compute in H. Qed.

Lemma parse_pretty_pos p : parse_unsigned (chars (pretty_N_go (Npos p) "")) = Some (Zpos p).
Proof.
  pose proof (digits_val_pretty_go (Npos p) "") as H. destruct (chars _) as [|c l] eqn:E; [done|]. exact H.
Qed.

Lemma ParseInt_pretty z : in_int64 z → ParseInt (pretty z) = Some z.
Proof.
  unfold in_int64. intros Hz. unfold ParseInt.
  assert (match chars (pretty z) with
      | "+"%char :: l => parse_unsigned l
      | "-"%char :: l => Z.opp <$> parse_unsigned l
      | l => parse_unsigned l
      end = Some z) as ->.
  { destruct z as [|p|p]; [done| |].
    - change (pretty (Zpos p)) with (pretty_N_go (Npos p) ""). rewrite <- (parse_pretty_pos p) at 1.
      pose proof (digits_val_pretty_go (Npos p) "") as H.
      destruct (chars _) as [|c l]; [done|]. apply digits_val_head in H as [Hplus Hminus].
      destruct c as [[] [] [] [] [] [] [] []]; try done.
    - transitivity (Z.opp <$> parse_unsigned (chars (pretty_N_go (Npos p) ""))); [done|]. by rewrite parse_pretty_pos. }
  cbn [mbind option_bind]. by replace ((- 2 ^ 63 <=? z) && (z <? 2 ^ 63)) with true by (symmetry; rewrite andb_true_iff; lia).
Qed.
