(* ===== verification/Cmdline.v ===== *)
(** Package [cmdline]: the parser of kernel command lines, a state machine over the
    characters of the text. *)

From Stdlib Require Import Strings.Ascii.
From Stdlib Require Strings.String.
From S2P Require Import Prelude GoLib GoStrings.

(** ** Ranging over a string

    [for i, r := range s] decodes UTF-8: the width of the encoding that a string
    starts with, 0 if there is none. *)

Definition code (c : ascii) : nat := nat_of_ascii c.
Definition between (lo hi : nat) (c : ascii) : bool := (lo <=? code c)%nat && (code c <=? hi)%nat.
Definition continuation : ascii → bool := between 128 191.

Definition rune_width (l : list ascii) : nat :=
  match l with
  | [] => 0
  | c :: l =>
      if (code c <? 128)%nat then 1
      else match l with
      | c1 :: l1 =>
          if between 194 223 c then if continuation c1 then 2 else 0
          else match l1 with
          | c2 :: l2 =>
              if (code c =? 224)%nat then if between 160 191 c1 && continuation c2 then 3 else 0
              else if between 225 236 c || between 238 239 c then if continuation c1 && continuation c2 then 3 else 0
              else if (code c =? 237)%nat then if between 128 159 c1 && continuation c2 then 3 else 0
              else match l2 with
              | c3 :: _ =>
                  let tail := continuation c2 && continuation c3 in
                  if (code c =? 240)%nat then if between 144 191 c1 && tail then 4 else 0
                  else if between 241 243 c then if continuation c1 && tail then 4 else 0
                  else if (code c =? 244)%nat then if between 128 143 c1 && tail then 4 else 0
                  else 0
              | [] => 0
              end
          | [] => 0
          end
      | [] => 0
      end
  end%nat.

(** U+FFFD, which stands for a byte that is not part of an encoding. *)
Definition rune_error : list ascii := [asc 239; asc 191; asc 189].

(** The positions and texts [string(r)] of the characters; each takes at least a
    byte, so the length is enough fuel. *)
Fixpoint range_string (fuel i : nat) (l : list ascii) : list (nat * list ascii) :=
  match fuel, l with
  | S fuel, _ :: _ =>
      match rune_width l with
      | O => (i, rune_error) :: range_string fuel (S i) (drop 1 l)
      | w => (i, take w l) :: range_string fuel (i + w) (drop w l)
      end
  | _, _ => []
  end.

(** ** The parser *)

Inductive parse_error :=
| EscapeOutsideQuotes (i : nat)
| QuotesInKey (i : nat)
| EmptyKey (i : nat)
| SpacesInKey (i : nat)
| UnterminatedEscape
| UnterminatedQuote.

Inductive parser_state := key | value | value_quoted.
#[global] Instance parser_state_eq_dec : EqDecision parser_state.
Proof. solve_decision. Defined.

Record parser := MkParser {
  inEscape : bool;
  currentKey : list ascii;
  currentValue : list ascii;
  state : parser_state;
  parsed : gmap string string;
}.
Definition new_parser : parser := MkParser false [] [] key ∅.

Definition store (k v : list ascii) (m : gmap string string) : gmap string string := <[of_chars k := of_chars v]> m.
Definition is_char (n : nat) (r : list ascii) : bool := bool_decide (r = [asc n]).
Definition is_blank (r : list ascii) : bool := is_char 32 r || is_char 9 r.

(** The body of the loop. *)
Definition parse_rune (i : nat) (r : list ascii) (p : parser) : result parse_error parser :=
  let '(MkParser esc k v st m) := p in
  if esc then
    if negb (bool_decide (st = value_quoted)) then Err (EscapeOutsideQuotes i)
    else Ok (MkParser false k (v ++ r) st m)
  else if is_char 92 r then
    if negb (bool_decide (st = value_quoted)) then Err (EscapeOutsideQuotes i)
    else Ok (MkParser true k v st m)
  else if is_char 34 r then
    match st with
    | key => Err (QuotesInKey i)
    | value => Ok (MkParser esc k v value_quoted m)
    | value_quoted => Ok (MkParser esc k v value m)
    end
  else if is_char 61 r && bool_decide (st = key) then
    match k with [] => Err (EmptyKey i) | _ => Ok (MkParser esc k v value m) end
  else if is_blank r && negb (bool_decide (st = value_quoted)) then
    match st, k with
    | key, _ :: _ => Ok (MkParser esc [] v st (store k [] m))
    | value, _ => Ok (MkParser esc [] [] key (store k v m))
    | _, _ => Ok p
    end
  else if is_blank r then
    match st with
    | key => Err (SpacesInKey i)
    | _ => Ok (MkParser esc k (v ++ r) st m)
    end
  else
    match st with
    | key => Ok (MkParser esc (k ++ r) v st m)
    | _ => Ok (MkParser esc k (v ++ r) st m)
    end.

Fixpoint parse_runes (rs : list (nat * list ascii)) (p : parser) : result parse_error parser :=
  match rs with
  | [] => Ok p
  | (i, r) :: rs => p ← parse_rune i r p; parse_runes rs p
  end.

(** After the loop. *)
Definition finish (p : parser) : result parse_error (gmap string string) :=
  let '(MkParser esc k v st m) := p in
  if esc then Err UnterminatedEscape
  else if bool_decide (st = value_quoted) then Err UnterminatedQuote
  else
    match st, k with
    | key, _ :: _ => Ok (store k [] m)
    | _, _ :: _ => Ok (store k v m)
    | _, [] => Ok m
    end.

Definition Parse (cmdline : string) : result parse_error (gmap string string) :=
  let l := chars (TrimSpace cmdline) in
  p ← parse_runes (range_string (length l) 0 l) new_parser;
  finish p.

Example Parse_1 : Parse "root=/dev/sda1 quiet" = Ok {[ "root" := "/dev/sda1"; "quiet" := "" ]}.
Proof. vm_compute. reflexivity. Qed.

(** ** Writing a command line *)

Definition escape (c : ascii) : list ascii :=
  if bool_decide (c = asc 34) || bool_decide (c = asc 92) then [asc 92; c] else [c].
Definition quoted (v : list ascii) : list ascii := asc 34 :: (v ≫= escape) ++ [asc 34].
Definition render_item (kv : string * option string) : list ascii :=
  chars kv.1 ++ match kv.2 with Some v => asc 61 :: quoted (chars v) | None => [] end.
Fixpoint render_items (kvs : list (string * option string)) : list ascii :=
  match kvs with
  | [] => []
  | [kv] => render_item kv
  | kv :: kvs => render_item kv ++ asc 32 :: render_items kvs
  end.
Definition render (kvs : list (string * option string)) : string := of_chars (render_items kvs).

(** Keys of visible characters other than quote, equals sign and backslash; values
    of any ASCII characters. *)
Definition key_char (c : ascii) : bool :=
  between 33 126 c && negb (bool_decide (c = asc 34) || bool_decide (c = asc 61) || bool_decide (c = asc 92)).
Definition is_ascii (c : ascii) : bool := (code c <? 128)%nat.
Definition item_ok (kv : string * option string) : Prop :=
  kv.1 ≠ "" ∧ forallb key_char (chars kv.1) = true ∧
  match kv.2 with Some v => forallb is_ascii (chars v) = true | None => True end.

(** Later assignments override earlier ones; a key without value maps to nothing. *)
Definition assign (m : gmap string string) (kv : string * option string) : gmap string string :=
  <[kv.1 := default "" kv.2]> m.

(** ** Lemmas *)

(** A run over ASCII characters that meets no error. *)
Fixpoint parse_ascii (l : list ascii) (p : parser) : option parser :=
  match l with
  | [] => Some p
  | c :: l => match parse_rune 0 [c] p with Ok p => parse_ascii l p | Err _ => None end
  end.

Lemma parse_rune_pos i r p p' : parse_rune 0 r p = Ok p' → parse_rune i r p = Ok p'.
Proof.
  destruct p as [esc k v st m]. unfold parse_rune.
  repeat match goal with |- context [if ?b then _ else _] => destruct b end; try done; destruct st, k; done.
Qed.

Lemma parse_ascii_app l l' p : parse_ascii (l ++ l') p = parse_ascii l p ≫= parse_ascii l'.
Proof. induction l as [|c l IH] in p |- *; [done|]. cbn. destruct (parse_rune 0 [c] p); [apply IH|done]. Qed.

Lemma rune_width_ascii c l : is_ascii c = true → rune_width (c :: l) = 1%nat.
Proof. intros H. unfold rune_width. unfold is_ascii in H. by rewrite H. Qed.

Lemma parse_runes_ascii l fuel i p p' :
  forallb is_ascii l = true → (length l ≤ fuel)%nat → parse_ascii l p = Some p' →
  parse_runes (range_string fuel i l) p = Ok p'.
Proof.
  induction l as [|c l IH] in fuel, i, p |- *; intros Ha Hf Hp; [by destruct fuel; injection Hp as ->|].
  destruct fuel as [|fuel]; [cbn in Hf; lia|]. cbn [forallb] in Ha. apply andb_true_iff in Ha as [Hc Ha].
  cbn -[parse_rune rune_width]. rewrite rune_width_ascii by done. cbn -[parse_rune]. cbn -[parse_rune] in Hp.
  destruct (parse_rune 0 [c] p) as [p1|] eqn:E; [|done]. rewrite take_0, drop_0, (parse_rune_pos i _ _ _ E).
  cbn -[parse_rune]. apply IH; [done|cbn in Hf; lia|done].
Qed.

(** Case analysis on a character, its eight bits. *)
Ltac by_bits c := destruct c as [[] [] [] [] [] [] [] []]; vm_compute; intros; try discriminate; repeat split; reflexivity.

Lemma key_char_plain c : key_char c = true →
  is_char 92 [c] = false ∧ is_char 34 [c] = false ∧ is_char 61 [c] = false ∧ is_blank [c] = false ∧ is_ascii c = true.
Proof. by_bits c. Qed.

Lemma parse_key l k v m : forallb key_char l = true →
  parse_ascii l (MkParser false k v key m) = Some (MkParser false (k ++ l) v key m).
Proof.
  induction l as [|c l IH] in k |- *; intros Hl; [by rewrite app_nil_r|]. cbn in Hl. apply andb_true_iff in Hl as [Hc Hl].
  destruct (key_char_plain c Hc) as (H1 & H2 & H3 & H4 & _). cbn [parse_ascii]. unfold parse_rune.
  rewrite H1, H2, H3, H4. cbn. rewrite IH by done. by rewrite <- app_assoc.
Qed.

Lemma parse_escaped l k v m : forallb is_ascii l = true →
  parse_ascii (l ≫= escape) (MkParser false k v value_quoted m) = Some (MkParser false k (v ++ l) value_quoted m).
Proof.
  induction l as [|c l IH] in v |- *; intros Hl; [by rewrite app_nil_r|]. cbn in Hl. apply andb_true_iff in Hl as [Hc Hl].
  cbn [mbind list_bind]. rewrite parse_ascii_app.
  assert (parse_ascii (escape c) (MkParser false k v value_quoted m) = Some (MkParser false k (v ++ [c]) value_quoted m)) as ->.
  { unfold escape. destruct (bool_decide (c = asc 34)) eqn:E1, (bool_decide (c = asc 92)) eqn:E2; cbn [orb parse_ascii];
      try (unfold parse_rune; cbn; done). unfold parse_rune, is_blank, is_char.
    assert (∀ n, bool_decide ([c] = [asc n]) = bool_decide (c = asc n)) as Heq by (intros n; apply bool_decide_ext; split; [by intros [= ->]|by intros ->]).
    rewrite !Heq, E1, E2.
    by destruct (bool_decide (c = asc 61)), (bool_decide (c = asc 32)), (bool_decide (c = asc 9)). }
  cbn. rewrite IH by done. by rewrite <- app_assoc.
Qed.

Lemma chars_of_chars s : of_chars (chars s) = s.
Proof. apply String.string_of_list_ascii_of_string. Qed.

(** The value collected while an item is read, and the state it ends in. *)
Definition item_value (kv : string * option string) : list ascii := match kv.2 with Some v => chars v | None => [] end.
Definition item_state (kv : string * option string) : parser_state := match kv.2 with Some _ => value | None => key end.

Lemma parse_item kv m : item_ok kv →
  parse_ascii (render_item kv) (MkParser false [] [] key m) = Some (MkParser false (chars kv.1) (item_value kv) (item_state kv) m).
Proof.
  intros (Hne & Hk & Hv). unfold render_item, item_value, item_state. rewrite parse_ascii_app, parse_key by done. cbn [mbind option_bind app].
  destruct kv as [k [v|]]; [|done]. cbn [fst snd] in *. destruct k as [|c k]; [done|].
  unfold quoted. change (asc 61 :: asc 34 :: (chars v ≫= escape) ++ [asc 34]) with ([asc 61; asc 34] ++ (chars v ≫= escape) ++ [asc 34]).
  rewrite !parse_ascii_app.
  assert (parse_ascii [asc 61; asc 34] (MkParser false (chars (String c k)) [] key m) =
    Some (MkParser false (chars (String c k)) [] value_quoted m)) as -> by reflexivity.
  cbn [mbind option_bind]. rewrite parse_ascii_app, parse_escaped by done. reflexivity.
Qed.

Lemma parse_space kv m : item_ok kv →
  parse_rune 0 [asc 32] (MkParser false (chars kv.1) (item_value kv) (item_state kv) m) = Ok (MkParser false [] [] key (assign m kv)).
Proof.
  intros (Hne & _). destruct kv as [k [v|]]; unfold item_value, item_state, assign; cbn [fst snd default from_option id] in *.
  - unfold parse_rune. cbn. unfold store. by rewrite !chars_of_chars.
  - destruct k as [|c k]; [done|]. unfold parse_rune. cbn. unfold store. cbn. by rewrite chars_of_chars.
Qed.

Lemma finish_item kv m : item_ok kv →
  finish (MkParser false (chars kv.1) (item_value kv) (item_state kv) m) = Ok (assign m kv).
Proof.
  intros (Hne & _). destruct kv as [k [v|]]; unfold item_value, item_state, assign; cbn [fst snd default from_option id] in *;
    (destruct k as [|c k]; [done|]); unfold finish, store; cbn; by rewrite ?chars_of_chars.
Qed.

Lemma parse_items kvs m : Forall item_ok kvs →
  ∃ p, parse_ascii (render_items kvs) (MkParser false [] [] key m) = Some p ∧ finish p = Ok (foldl assign m kvs).
Proof.
  induction kvs as [|kv kvs IH] in m |- *; intros Hok; [by exists (MkParser false [] [] key m)|].
  apply Forall_cons in Hok as [Hkv Hok]. destruct kvs as [|kv' kvs'] eqn:E.
  - cbn [render_items foldl]. rewrite parse_item by done. eexists. split; [done|]. by apply finish_item.
  - rewrite <- E in *. assert (render_items (kv :: kvs) = render_item kv ++ asc 32 :: render_items kvs) as -> by (by rewrite E).
    destruct (IH (assign m kv) Hok) as (p & Hp & Hf). exists p. split; [|done].
    rewrite parse_ascii_app, parse_item by done. cbn [mbind option_bind parse_ascii]. by rewrite parse_space.
Qed.

(** *** Trimming changes nothing *)

Definition visible (c : ascii) : bool := between 33 126 c.

Lemma strip_any_visible c l : visible c = true → strip_any spaces (c :: l) = None ∧ strip_any (reverse <$> spaces) (c :: l) = None.
Proof. by_bits c. Qed.

Lemma trim_visible c l d l' : visible c = true → visible d = true → c :: l = l' ++ [d] → TrimSpace (of_chars (c :: l)) = of_chars (c :: l).
Proof.
  intros Hc Hd Heq. unfold TrimSpace. assert (chars (of_chars (c :: l)) = c :: l) as -> by apply String.list_ascii_of_string_of_list_ascii.
  cbn [length trim_left]. rewrite (proj1 (strip_any_visible c l Hc)). f_equal. unfold trim_right. rewrite Heq, reverse_snoc, length_app. cbn [length].
  rewrite Nat.add_1_r. cbn [trim_left]. rewrite (proj2 (strip_any_visible d (reverse l') Hd)). by rewrite reverse_cons, reverse_involutive.
Qed.

Lemma key_char_visible c : key_char c = true → visible c = true ∧ is_ascii c = true.
Proof. by_bits c. Qed.

Lemma keys_visible l : forallb key_char l = true → forallb visible l = true ∧ forallb is_ascii l = true.
Proof.
  induction l as [|c l IH]; [done|]. cbn [forallb]. intros [Hc Hl]%andb_true_iff. destruct (key_char_visible c Hc) as [-> ->]. by apply IH.
Qed.

Lemma escaped_ascii l : forallb is_ascii l = true → forallb is_ascii (l ≫= escape) = true.
Proof.
  induction l as [|c l IH]; [done|]. cbn [forallb]. intros [Hc Hl]%andb_true_iff. cbn [mbind list_bind]. rewrite forallb_app, IH by done.
  unfold escape. by destruct (_ || _); cbn [forallb]; rewrite Hc.
Qed.

(** A list of characters that trimming leaves alone. *)
Definition trimmed (l : list ascii) : Prop :=
  forallb is_ascii l = true ∧ (∃ c l', l = c :: l' ∧ visible c = true) ∧ ∃ l' d, l = l' ++ [d] ∧ visible d = true.

Lemma render_item_trimmed kv : item_ok kv → trimmed (render_item kv).
Proof.
  intros (Hne & Hk & Hv). destruct (keys_visible _ Hk) as [Hvis Hasc]. destruct kv as [[|c k] [v|]]; cbn [fst snd] in *; try done;
    unfold render_item; cbn [fst snd]; (split; [|split]).
  - rewrite forallb_app, Hasc. cbn. rewrite forallb_app, escaped_ascii by done. reflexivity.
  - exists c. eexists. split; [reflexivity|]. cbn in Hvis. by apply andb_true_iff in Hvis as [? _].
  - exists (chars (String c k) ++ asc 61 :: asc 34 :: (chars v ≫= escape)), (asc 34). split; [|done]. unfold quoted. by rewrite <- app_assoc.
  - by rewrite forallb_app, Hasc.
  - exists c. eexists. split; [reflexivity|]. cbn in Hvis. by apply andb_true_iff in Hvis as [? _].
  - rewrite app_nil_r. destruct (exists_last (l:=chars (String c k))) as (l' & d & E); [done|]. exists l', d. split; [done|].
    rewrite E, forallb_app in Hvis. apply andb_true_iff in Hvis as [_ Hd]. cbn in Hd. by rewrite andb_true_r in Hd.
Qed.

Lemma trimmed_app l l' : trimmed l → trimmed l' → trimmed (l ++ asc 32 :: l').
Proof.
  intros (Ha & (c & l1 & -> & Hc) & _) (Ha' & _ & (l2 & d & -> & Hd)). split; [|split].
  - rewrite forallb_app, Ha. cbn [forallb]. by rewrite Ha'.
  - exists c. eexists. by split.
  - exists ((c :: l1) ++ asc 32 :: l2), d. split; [|done]. by rewrite <- app_assoc.
Qed.

Lemma render_trimmed kvs : Forall item_ok kvs → kvs ≠ [] → trimmed (render_items kvs).
Proof.
  induction kvs as [|kv kvs IH]; intros Hok Hne; [done|]. apply Forall_cons in Hok as [Hkv Hok]. pose proof (render_item_trimmed kv Hkv) as Ht.
  destruct kvs as [|kv' kvs'] eqn:E; [done|]. rewrite <- E in *.
  assert (render_items (kv :: kvs) = render_item kv ++ asc 32 :: render_items kvs) as -> by (by rewrite E).
  apply trimmed_app; [done|]. apply IH; [done|by rewrite E].
Qed.

(** Parsing inverts writing.  Whatever assignments are written to a command
    line, with values in quotes and quotes and backslashes escaped, the parser
    accepts it and returns exactly those assignments, the later ones overriding
    the earlier ones, keys without a value with an empty one. *)
Theorem Parse_render kvs : Forall item_ok kvs → Parse (render kvs) = Ok (foldl assign ∅ kvs).
Proof.
  intros Hok. destruct (parse_items kvs ∅ Hok) as (p & Hp & Hf). unfold Parse, render.
  assert (TrimSpace (of_chars (render_items kvs)) = of_chars (render_items kvs) ∧ forallb is_ascii (render_items kvs) = true) as [-> Ha].
  { destruct (decide (kvs = [])) as [->|Hne]; [by vm_compute|].
    destruct (render_trimmed kvs Hok Hne) as (Ha & (c & l & E & Hc) & (l' & d & E' & Hd)). split; [|done].
    rewrite E. apply (trim_visible c l d l'); [done..|]. by rewrite <- E, <- E'. }
  rewrite String.list_ascii_of_string_of_list_ascii. rewrite (parse_runes_ascii _ _ _ _ p Ha) by (done || exact Hp). done.
Qed.

(** A value with a quote and a backslash. *)
Definition demo_value : string := of_chars [asc 97; asc 34; asc 98; asc 92; asc 99].
Definition demo_items : list (string * option string) := [("ro", None); ("root", Some demo_value); ("mode", Some "a b"); ("mode", Some "c")].
Lemma Parse_render_witness : Parse (render demo_items) = Ok {[ "ro" := ""; "root" := demo_value; "mode" := "c" ]}.
Proof. rewrite Parse_render; [vm_compute; reflexivity|]. repeat constructor; discriminate. Defined.
