(* ===== verification/Badge.v ===== *)
(** Package [auth/credentialing] ([credentials.go], [badge.go]): badges, the signed
    lists of models a client may use, and their encodings. *)

From Stdlib Require Import Strings.Ascii.
From Stdlib Require Strings.String.
From S2P Require Import Prelude Bytes Base64 GoLib GoStrings.

Definition PrefixLen : nat := 4.

Record Credentials := MkCredentials { Models : list string }.

Definition isValidASCII (str : string) : bool :=
  forallb (λ b, (32 <=? byte_val b) && (byte_val b <? 127)) (string_bytes str).

(** The buffer holds what was written before. *)
Definition encodeString (buf : list byte) (str : string) : result goerror (list byte * Z) :=
  if negb (isValidASCII str) then Err (ErrorNew "unsupported string: contains non-ascii characters")
  else
    let len := Z.of_nat (length (string_bytes str)) in
    if len =? 0 then Err (ErrorNew "failed to encode string: length must be greater than 0")
    else if 2 ^ 32 - 1 <? len then Err (ErrorNew "failed to encode string: exceeded maximum length")
    else Ok (buf ++ le_bytes PrefixLen len ++ string_bytes str, len + Z.of_nat PrefixLen).

Fixpoint encode_all (buf : list byte) (strs : list string) : result goerror (list byte) :=
  match strs with
  | [] => Ok buf
  | str :: strs => '(buf, _) ← encodeString buf str; encode_all buf strs
  end.

(** The argument is sorted in place; the second component is what it is then. *)
Definition encodeStrings (strs : list string) : result goerror (list byte) * list string :=
  let strs := sort_Strings strs in (encode_all [] strs, strs).

(** The string and the rest of the buffer. *)
Definition decodeString (buf : list byte) : result goerror (string * list byte) :=
  if (length buf <? PrefixLen)%nat then Err (ErrorWrap "failed to decode string length" (ErrorNew "EOF"))
  else
    let prefix := le_val (take PrefixLen buf) in
    let rest := drop PrefixLen buf in
    if prefix =? 0 then Err (ErrorNew "failed to decode string, length must be greater than 0")
    else match rest with
    | [] => Err (ErrorWrap "failed to decode string" (ErrorNew "EOF"))
    | _ =>
        if Z.of_nat (length rest) <? prefix then Err (ErrorNew "failed to decode string. unexpected number of bytes read")
        else
          let str := bytes_string (take (Z.to_nat prefix) rest) in
          if negb (isValidASCII str) then Err (ErrorNew "failed to decode string: contains non-ascii characters")
          else Ok (str, drop (Z.to_nat prefix) rest)
    end.

(** Every round takes bytes from the buffer, so its length is enough fuel. *)
Fixpoint decode_all (fuel : nat) (buf : list byte) : result goerror (list string) :=
  match buf, fuel with
  | [], _ => Ok []
  | _, O => Err (ErrorNew "fuel")
  | _, S fuel =>
      '(str, buf) ← decodeString buf;
      strs ← decode_all fuel buf; Ok (str :: strs)
  end.
Definition decodeStrings (strList : list byte) : result goerror (list string) :=
  strs ← decode_all (length strList) strList;
  if negb (StringsAreSorted strs) then Err (ErrorNew "failed to decode strings list. strings are not sorted") else Ok strs.

(** ** Protobuf and text forms *)

Record PbCredentials := MkPbCredentials { pb_models : list byte }.
Record PbBadge := MkPbBadge { pb_credentials : PbCredentials; pb_badge_signature : list byte }.

(** The receiver's models are sorted by the call. *)
Definition Credentials_MarshalProto (c : Credentials) : result goerror PbCredentials * Credentials :=
  let '(r, models) := encodeStrings (Models c) in (MkPbCredentials <$> r, MkCredentials models).
Definition Credentials_UnmarshalProto (creds : PbCredentials) : result goerror Credentials :=
  MkCredentials <$> decodeStrings (pb_models creds).
Definition Credentials_MarshalBinary {W : ProtoWire PbCredentials} (c : Credentials) : result goerror (list byte) :=
  creds ← (Credentials_MarshalProto c).1; marshal_message creds.

Record Badge := MkBadge { badge_Credentials : Credentials; badge_Signature : list byte }.

Definition Badge_MarshalProto (b : Badge) : result goerror PbBadge :=
  creds ← (Credentials_MarshalProto (badge_Credentials b)).1; Ok (MkPbBadge creds (badge_Signature b)).
Definition Badge_UnmarshalProto (badge : PbBadge) : result goerror Badge :=
  creds ← Credentials_UnmarshalProto (pb_credentials badge); Ok (MkBadge creds (pb_badge_signature badge)).

Section text.
Context {W : ProtoWire PbBadge}.
Definition MarshalText (b : Badge) : result goerror (list byte) :=
  badgeProto ← wrap_err (ErrorWrap "failed to marshal badge") (Badge_MarshalProto b);
  wrap_err (ErrorWrap "failed to marshal badge") (marshal_message badgeProto).
Definition UnmarshalText (text : list byte) : result goerror Badge :=
  badgeProto ← wrap_err (ErrorWrap "failed to unmarshal badge") (unmarshal_message text);
  Badge_UnmarshalProto badgeProto.
Definition Serialize (b : Badge) : result goerror string := EncodeToString StdEncoding <$> MarshalText b.
Definition Deserialize (serializedBadge : string) : result goerror Badge :=
  match DecodeString StdEncoding serializedBadge with
  | None => Err (ErrorNew "illegal base64 data")
  | Some badgeBytes => UnmarshalText badgeBytes
  end.
End text.

(** ** The codec *)

Definition encodable (str : string) : Prop := isValidASCII str = true ∧ 0 < Z.of_nat (String.length str) < 2 ^ 32.

Definition string_code (str : string) : list byte := le_bytes PrefixLen (Z.of_nat (String.length str)) ++ string_bytes str.

Lemma encodeString_ok buf str b n : encodeString buf str = Ok (b, n) ↔
  encodable str ∧ b = buf ++ string_code str ∧ n = Z.of_nat (String.length str) + 4.
Proof.
  unfold encodeString, encodable, string_code. rewrite length_string_bytes. destruct (isValidASCII str); [cbn [negb]|naive_solver].
  destruct (Z.eqb_spec (Z.of_nat (String.length str)) 0) as [E|E]; [naive_solver lia|].
  destruct (Z.ltb_spec (2 ^ 32 - 1) (Z.of_nat (String.length str))); [naive_solver lia|]. split.
  - intros [= <- <-]. split; [|done]. split; [done|lia].
  - by intros (_ & -> & ->).
Qed.

Lemma encode_all_ok buf strs b : encode_all buf strs = Ok b ↔ Forall encodable strs ∧ b = buf ++ (strs ≫= string_code).
Proof.
  induction strs as [|str strs IH] in buf |- *; cbn; [rewrite app_nil_r; naive_solver|].
  rewrite result_bind_ok, Forall_cons. split.
  - intros ([buf' n] & (He & -> & _)%encodeString_ok & (Hes & ->)%IH). by rewrite <- app_assoc.
  - intros ((He & Hes) & ->). exists (buf ++ string_code str, Z.of_nat (String.length str) + 4).
    split; [by apply encodeString_ok|]. apply IH. by rewrite <- app_assoc.
Qed.

Lemma decodeString_code str rest : encodable str → decodeString (string_code str ++ rest) = Ok (str, rest).
Proof.
  intros (Hv & Hl). unfold decodeString, string_code. rewrite <- app_assoc.
  assert (length (le_bytes PrefixLen (Z.of_nat (String.length str))) = PrefixLen) as Hp by apply length_le_bytes.
  rewrite !length_app, Hp, (proj2 (Nat.ltb_ge _ _)) by lia.
  rewrite take_app_length', drop_app_length', le_val_bytes by done. change (256 ^ Z.of_nat PrefixLen) with (2 ^ 32).
  rewrite Z.mod_small by lia. rewrite (proj2 (Z.eqb_neq _ _)) by lia.
  assert (string_bytes str ++ rest ≠ []) as Hne.
  { intros E. apply (f_equal length) in E. rewrite length_app, length_string_bytes in E. cbn in E. lia. }
  destruct (string_bytes str ++ rest) as [|c l] eqn:E; [done|]. rewrite <- E, length_app, length_string_bytes.
  rewrite (proj2 (Z.ltb_ge _ _)) by lia. rewrite Nat2Z.id.
  assert (String.length str = length (string_bytes str)) as -> by (by rewrite length_string_bytes).
  rewrite take_app_length, drop_app_length, bytes_string_bytes, Hv. done.
Qed.

Lemma decode_all_code fuel strs : Forall encodable strs → (length (strs ≫= string_code) ≤ fuel)%nat →
  decode_all fuel (strs ≫= string_code) = Ok strs.
Proof.
  induction strs as [|str strs IH] in fuel |- *; intros Hs Hf; [by destruct fuel|]. apply Forall_cons in Hs as [He Hs].
  cbn [mbind list_bind] in *. assert (length (string_code str) = (4 + String.length str)%nat) as Hlen.
  { unfold string_code. by rewrite length_app, length_le_bytes, length_string_bytes. }
  rewrite length_app in Hf. destruct fuel as [|fuel]; [lia|].
  destruct (string_code str ++ (strs ≫= string_code)) as [|c l] eqn:E; [apply (f_equal length) in E; rewrite length_app in E; cbn in E; lia|].
  rewrite <- E. cbn [decode_all]. rewrite E. rewrite <- E at 1. rewrite decodeString_code by done. cbn. by rewrite IH by (done || lia).
Qed.

Lemma decodeString_inv buf str rest : decodeString buf = Ok (str, rest) → encodable str ∧ buf = string_code str ++ rest.
Proof.
  unfold decodeString. destruct (Nat.ltb_spec (length buf) PrefixLen) as [|Hl]; [done|].
  destruct (Z.eqb_spec (le_val (take PrefixLen buf)) 0) as [|H0]; [done|]. destruct (drop PrefixLen buf) as [|c l] eqn:Ed; [done|]. rewrite <- Ed.
  destruct (Z.ltb_spec (Z.of_nat (length (drop PrefixLen buf))) (le_val (take PrefixLen buf))) as [|Hb]; [done|].
  set (n := le_val (take PrefixLen buf)) in *. pose proof (le_val_range (take PrefixLen buf)) as Hr. fold n in Hr.
  rewrite length_take_le in Hr by done. change (256 ^ Z.of_nat PrefixLen) with (2 ^ 32) in Hr.
  destruct (isValidASCII _) eqn:Ev; [|done]. intros [= <- <-].
  assert (string_bytes (bytes_string (take (Z.to_nat n) (drop PrefixLen buf))) = take (Z.to_nat n) (drop PrefixLen buf)) as Hsb
    by apply string_bytes_string.
  assert (String.length (bytes_string (take (Z.to_nat n) (drop PrefixLen buf))) = Z.to_nat n) as Hlen.
  { rewrite <- length_string_bytes, Hsb, length_take. lia. }
  split; [split; [done|rewrite Hlen; lia]|]. unfold string_code. rewrite Hlen, Hsb, Z2Nat.id by lia.
  assert (le_bytes PrefixLen n = take PrefixLen buf) as ->.
  { pose proof (le_bytes_val (take PrefixLen buf)) as Hv. by rewrite length_take_le in Hv. }
  by rewrite <- app_assoc, take_drop, take_drop.
Qed.

Lemma decode_all_inv fuel buf strs : decode_all fuel buf = Ok strs → Forall encodable strs ∧ buf = strs ≫= string_code.
Proof.
  induction fuel as [|fuel IH] in buf, strs |- *; intros Hd; (destruct buf as [|c buf]; [injection Hd as <-; split; [constructor|done]|]); [done|].
  cbn [decode_all] in Hd. apply result_bind_ok in Hd as ([str rest] & (He & Hb)%decodeString_inv & Hd).
  apply result_bind_ok in Hd as (strs' & (Hs & Hr)%IH & [= <-]). split; [by constructor|]. cbn [mbind list_bind]. by rewrite Hb, Hr.
Qed.

Lemma encode_decode strs b : (encodeStrings strs).1 = Ok b → decodeStrings b = Ok (sort_Strings strs).
Proof.
  cbn. intros (Hs & ->)%encode_all_ok. unfold decodeStrings. cbn [app]. rewrite decode_all_code by done. cbn [mbind result_bind].
  by rewrite sort_Strings_sorted.
Qed.

(** The encoding of a list of models is canonical, so that a signature on it is
    one on the list: encoding sorts the list and succeeds exactly on non-empty
    strings of visible characters and spaces of less than 4 GiB, decoding gives back
    the sorted list, and nothing but an encoding decodes: what decodes to a list is
    the encoding of this list. *)
Theorem model_list_canonical strs b :
  ((encodeStrings strs).1 = Ok b → Forall encodable strs ∧ decodeStrings b = Ok (encodeStrings strs).2) ∧
  (Forall encodable strs → ∃ b, (encodeStrings strs).1 = Ok b) ∧
  (decodeStrings b = Ok strs → encodeStrings strs = (Ok b, strs)).
Proof.
  split; [|split].
  - intros He. split; [|by apply encode_decode]. cbn in He. apply encode_all_ok in He as [Hs _]. by rewrite sort_Strings_perm in Hs.
  - intros Hs. cbn. eexists. apply encode_all_ok. split; [by rewrite sort_Strings_perm|done].
  - unfold decodeStrings. intros Hd. apply result_bind_ok in Hd as (strs' & (Hs & Hb)%decode_all_inv & Hd).
    destruct (StringsAreSorted strs') eqn:Es; [|done]. injection Hd as ->. unfold encodeStrings. rewrite sort_Strings_id by done.
    f_equal. apply encode_all_ok. by split.
Qed.

Definition demo_models : list string := ["qwen3:1.7b"; "llama 3"].
Definition demo_model_bytes : list byte := match (encodeStrings demo_models).1 with Ok b => b | Err _ => [] end.
Lemma model_list_canonical_witness : decodeStrings demo_model_bytes = Ok ["llama 3"; "qwen3:1.7b"] ∧
  encodeStrings ["llama 3"; "qwen3:1.7b"] = (Ok demo_model_bytes, ["llama 3"; "qwen3:1.7b"]).
Proof.
  assert (decodeStrings demo_model_bytes = Ok ["llama 3"; "qwen3:1.7b"]) as Hd by (vm_compute; reflexivity).
  split; [exact Hd|]. destruct (model_list_canonical ["llama 3"; "qwen3:1.7b"] demo_model_bytes) as (_ & _ & Hc). apply Hc. exact Hd.
Defined.

(** The text of a badge gives back the badge, its models sorted. *)
Lemma badge_text_roundtrip {W : ProtoWire PbBadge} {WL : ProtoWireLaws PbBadge} b t :
  Serialize b = Ok t →
  Deserialize t = Ok (MkBadge (MkCredentials (sort_Strings (Models (badge_Credentials b)))) (badge_Signature b)).
Proof.
  unfold Serialize, Deserialize. destruct (MarshalText b) as [bytes|] eqn:Em; [|done]. cbn. intros [= <-].
  rewrite Decode_Encode by (by left). unfold MarshalText in Em. apply result_bind_ok in Em as (pb & Hp%wrap_err_ok & Hm%wrap_err_ok).
  unfold UnmarshalText. rewrite (unmarshal_marshalled _ _ Hm). cbn [wrap_err mbind result_bind].
  unfold Badge_MarshalProto in Hp. apply result_bind_ok in Hp as (creds & Hc & [= <-]).
  unfold Credentials_MarshalProto in Hc. destruct (encodeStrings (Models (badge_Credentials b))) as [r models] eqn:Ee.
  destruct r as [mb|]; [|done]. cbn in Hc. injection Hc as <-.
  assert ((encodeStrings (Models (badge_Credentials b))).1 = Ok mb) as He by (by rewrite Ee). apply encode_decode in He.
  unfold Badge_UnmarshalProto, Credentials_UnmarshalProto. cbn [pb_credentials pb_models pb_badge_signature]. by rewrite He.
Qed.
