(* ===== verification/Statement.v ===== *)
(** Package [transparency], the part about statements and where their bundles are
    kept: [statement.go], [caching_signer.go], [bundle_finder.go], [fs_store.go]
    and the errors of [cserrors]. *)

From Stdlib Require Import Strings.Ascii.
From Stdlib Require Strings.String.
From S2P Require Import Prelude Bytes GoLib GoStrings.

(** ** Errors *)

Inductive terr :=
| ErrNotFound
| ErrNoStatement
| TErr (msg : string)
| TWrap (msg : string) (e : terr).
#[global] Instance terr_eq_dec : EqDecision terr.
Proof. solve_decision. Defined.

(** [errors.Is(err, cserrors.ErrNotFound)] *)
Fixpoint is_not_found (e : terr) : bool :=
  match e with ErrNotFound => true | TWrap _ e => is_not_found e | _ => false end.
Definition twrap {A} (msg : string) : result terr A → result terr A := wrap_err (TWrap msg).

(** ** Statements *)

(** [encoding/json] on the values of a predicate, Go's [any]. *)
Class JsonLib := {
  any : Type;
  any_of_string : string → any;
  (** the type assertion [v.(string)] *)
  any_string : any → option string;
  json_Marshal : gmap string any → option (list byte);
}.
Class JsonLaws (J : JsonLib) := {
  any_string_of s : any_string (any_of_string s) = Some s;
}.

Record StatementSubject := MkSubject { Name : string; Digest : gmap string string }.

Section statement.
Context {U : UrlLib} {H : Sha256Lib} {J : JsonLib}.

Record Statement := MkStatement {
  Subject : list StatementSubject;
  PredicateType : string;
  Predicate : gmap string any;
}.

Definition hexSha256Digest (s : StatementSubject) : string := default "" (Digest s !! "sha256").

Definition Sha256Match (s : StatementSubject) (data : list byte) : result terr bool :=
  let hash := sha256 data in
  match Digest s !! "sha256" with
  | None => Err (TErr "subject is missing sha256 digest")
  | Some hexDigest =>
      match hex_decode hexDigest with
      | None => Err (TWrap "failed to decode subject hash from hex" (TErr "encoding/hex"))
      | Some digestHash => Ok (bool_decide (digestHash = hash))
      end
  end.

Definition validateSha256Hash (d : list byte) : result terr unit :=
  if (length d =? 32)%nat then Ok tt else Err (TErr "invalid sha256 digest").

Definition validatePredicateType (s : string) : result terr unit :=
  match url_parse s with
  | None => Err (TWrap "invalid predicate type" (TErr "url"))
  | Some ptURL =>
      if bool_decide (url_scheme ptURL = "") then Err (TErr "predicate type is missing scheme")
      else if bool_decide (url_host ptURL = "") then Err (TErr "predicate type is missing host")
      else Ok tt
  end.

Fixpoint validate_subjects (seen : gset string) (subjects : list StatementSubject) : result terr unit :=
  match subjects with
  | [] => Ok tt
  | subject :: subjects =>
      if bool_decide (Name subject ∈ seen) then Err (TErr ("duplicate subject " +:+ Name subject))
      else
        let digest := hexSha256Digest subject in
        if bool_decide (digest = "") then Err (TErr "missing sha256 digest")
        else match hex_decode digest with
        | None => Err (TWrap "invalid sha256 digest, not hex-encoded" (TErr "encoding/hex"))
        | Some rawHash =>
            validateSha256Hash rawHash ≫= λ _, validate_subjects ({[Name subject]} ∪ seen) subjects
        end
  end.

(** [None] is the nil statement. *)
Definition Validate (s : option Statement) : result terr unit :=
  match s with
  | None => Err (TErr "nil statement")
  | Some s =>
      if bool_decide (Subject s = []) then Err (TErr "missing subject")
      else
        _ ← validate_subjects ∅ (Subject s);
        validatePredicateType (PredicateType s)
  end.

Context {R : RangeOrder}.

Definition NewStatement (subject : gmap string (list byte)) (predicateType : string) (predicate : gmap string any) : Statement :=
  MkStatement ((λ nd, MkSubject nd.1 {[ "sha256" := hex_encode (sha256 nd.2) ]}) <$> range_map subject)
    predicateType predicate.

(** ** The keys of stored bundles *)

Context {S : SliceSort}.

Definition MaxCacheableSubjects : nat := 10.
Definition hashLen : nat := 12.
Definition hexHash (b : list byte) : string := hex_encode (take hashLen (sha256 b)).

(** [hexDigest[:hashLen*2]] *)
Definition short_digest (hexDigest : string) : string := String.substring 0 (hashLen * 2) hexDigest.

Definition by_name (a b : StatementSubject) : bool := String.ltb (Name a) (Name b).

Definition idInput (subjects : list StatementSubject) (predicateType : string) (predicateJSON : list byte) : list byte :=
  string_bytes (foldl (λ acc subject, acc +:+ Name subject +:+ hexSha256Digest subject) "" subjects +:+ predicateType)
    ++ predicateJSON.

Definition bundle_key (predicateTypePart idPart hexDigestsPart : string) : string :=
  "statements/" +:+ predicateTypePart +:+ "/" +:+ idPart +:+ "/" +:+ hexDigestsPart +:+ ".pb".

Definition newStatementBundleKey (statement : Statement) : result terr string :=
  _ ← twrap "invalid statement" (Validate (Some statement));
  if (MaxCacheableSubjects <? length (Subject statement))%nat then
    Err (TErr "can't create key for statement with more than 10 subjects")
  else
    let subjects := slice_sort by_name (Subject statement) in
    let hexDigests := short_digest ∘ hexSha256Digest <$> subjects in
    match json_Marshal (Predicate statement) with
    | None => Err (TWrap "failed to marshal predicate to json" (TErr "encoding/json"))
    | Some predicateJSON =>
        let predicateTypePart := hexHash (string_bytes (PredicateType statement)) in
        let idPart := hexHash (idInput subjects (PredicateType statement) predicateJSON) in
        let hexDigestsPart := Join hexDigests "_" in
        Ok (bundle_key predicateTypePart idPart hexDigestsPart)
    end.
End statement.

(** ** Stores *)

Class BundleStore := {
  store : Type;
  FindByKey : string → store → result terr (list byte);
  Insert : string → list byte → store → result terr unit * store;
  FindByGlob : string → store → result terr (list (list byte));
}.

(** What a store keeps; it may refuse any call. *)
Class BundleStoreContract (B : BundleStore) := {
  stored : store → gmap string (list byte);
  FindByKey_ok k s b : FindByKey k s = Ok b → stored s !! k = Some b;
  FindByKey_missing k s e : FindByKey k s = Err e → is_not_found e = true → stored s !! k = None;
  Insert_ok k b s s' : Insert k b s = (Ok tt, s') → stored s' = <[k := b]> (stored s);
  FindByGlob_ok g s bs : FindByGlob g s = Ok bs →
    bs ≡ₚ (filter (λ kb, Match g kb.1 = true) (map_to_list (stored s))).*2;
}.

(** *** [FSStore]

    The files below the path of the store, and the fault that operations on the
    file system meet: opening or reading fails, creating a directory or file
    fails, or copying stops after some bytes. *)

Inductive fs_fault := OpenFails | ReadFails | MkdirFails | CreateFails | CopyFails (n : nat).
Record fs := MkFS { files : gmap string (list byte); fault : option fs_fault }.

Definition FSStore_FindByKey (key : string) (s : fs) : result terr (list byte) :=
  match fault s with
  | Some OpenFails => Err (TWrap "failed to open file" (TErr "io"))
  | Some ReadFails =>
      match files s !! key with
      | None => Err ErrNotFound
      | Some _ => Err (TWrap "failed to read all data in the file" (TErr "io"))
      end
  | _ => match files s !! key with None => Err ErrNotFound | Some data => Ok data end
  end.

Definition FSStore_Insert (key : string) (bundle : list byte) (s : fs) : result terr unit * fs :=
  match fault s with
  | Some MkdirFails => (Err (TWrap "failed to create directory" (TErr "io")), s)
  | Some CreateFails => (Err (TWrap "failed to create file" (TErr "io")), s)
  | Some (CopyFails n) =>
      (Err (TWrap "failed to copy bundle to file" (TErr "io")), MkFS (<[key := take n bundle]> (files s)) (fault s))
  | _ => (Ok tt, MkFS (<[key := bundle]> (files s)) (fault s))
  end.

Section walk.
Context {R : RangeOrder}.
(** The walk visits the files in some order and stops at the first error. *)
Fixpoint walk (pattern : string) (s : fs) (paths : list string) : result terr (list (list byte)) :=
  match paths with
  | [] => Ok []
  | relPath :: paths =>
      if Match pattern relPath then
        data ← twrap "failed to get data for key" (FSStore_FindByKey relPath s);
        out ← walk pattern s paths; Ok (data :: out)
      else walk pattern s paths
  end.
Definition FSStore_FindByGlob (pattern : string) (s : fs) : result terr (list (list byte)) :=
  walk pattern s (range_map (files s)).*1.

#[global] Instance FSStore : BundleStore := {|
  store := fs;
  FindByKey := FSStore_FindByKey;
  Insert := FSStore_Insert;
  FindByGlob := FSStore_FindByGlob;
|}.
End walk.

(** ** Finding bundles *)

Section finder.
Context {U : UrlLib} {H : Sha256Lib} {J : JsonLib} {S : SliceSort} {B : BundleStore}.

Definition FindSignatureBundleByHash (hash : list byte) (st : store) : result terr (list byte) :=
  _ ← validateSha256Hash hash;
  FindByKey ("data/" +:+ hex_encode (take hashLen hash) +:+ ".pb") st.
Definition FindSignatureBundleByData (data : list byte) (st : store) : result terr (list byte) :=
  FindSignatureBundleByHash (sha256 data) st.

Definition FindStatementBundle (statement : Statement) (st : store) : result terr (string * list byte) :=
  key ← twrap "failed to create key" (newStatementBundleKey statement);
  bundle ← FindByKey key st; Ok (key, bundle).

Record StatementBundleQuery := MkQuery { q_PredicateType : string; q_Hash : list byte }.

Definition FindStatementBundles (q : StatementBundleQuery) (st : store) : result terr (list (list byte)) :=
  predicateMatcher ←
    (if bool_decide (q_PredicateType q = "") then Ok "*"
     else validatePredicateType (q_PredicateType q) ≫= λ _, Ok (hexHash (string_bytes (q_PredicateType q))));
  digestMatcher ←
    (if (0 <? length (q_Hash q))%nat then
       validateSha256Hash (q_Hash q) ≫= λ _, Ok ("*" +:+ hex_encode (take hashLen (q_Hash q)) +:+ "*.pb")
     else Ok "*.pb");
  let glob := "statements/" +:+ predicateMatcher +:+ "/*/" +:+ digestMatcher in
  twrap "failed to find bundles for prefix" (FindByGlob glob st).

(** ** The caching signer *)

Class DataStatementSigner := {
  signer : Type;
  Sign : list byte → signer → result terr (list byte) * signer;
  SignStatement : Statement → signer → result terr (list byte) * signer;
}.
Context {D : DataStatementSigner}.

Definition sign_and_insert (sign : signer → result terr (list byte) * signer) (key : string) (s : signer * store) :
    result terr (list byte) * (signer * store) :=
  match sign s.1 with
  | (Err e, sg) => (Err (TWrap "failed to sign statement" e), (sg, s.2))
  | (Ok bundle, sg) =>
      match Insert key bundle s.2 with
      | (Err e, st) => (Err (TWrap "failed to insert bundle" e), (sg, st))
      | (Ok _, st) => (Ok bundle, (sg, st))
      end
  end.
Definition signAndInsertData (key : string) (data : list byte) := sign_and_insert (Sign data) key.
Definition signAndInsertStatement (key : string) (statement : Statement) := sign_and_insert (SignStatement statement) key.

Definition CachingSigner_Sign (data : list byte) (s : signer * store) : result terr (list byte) * (signer * store) :=
  let key := "data/" +:+ hexHash data +:+ ".pb" in
  match FindByKey key s.2 with
  | Ok bundle => (Ok bundle, s)
  | Err e =>
      if is_not_found e then signAndInsertData key data s
      else (Err (TWrap "failed to find bundle" e), s)
  end.

Definition CachingSigner_SignStatement (statement : Statement) (s : signer * store) :
    result terr (string * list byte) * (signer * store) :=
  match newStatementBundleKey statement with
  | Err e => (Err (TWrap "failed to create key" e), s)
  | Ok key =>
      match FindByKey key s.2 with
      | Ok bundle => (Ok (key, bundle), s)
      | Err e =>
          if is_not_found e then
            let '(r, s) := signAndInsertStatement key statement s in
            ((λ bundle, (key, bundle)) <$> r, s)
          else (Err (TWrap "failed to find bundle" e), s)
      end
  end.
End finder.

(** ** What a valid statement has *)

Lemma hex_val_plain c v : hex_val c = Some v → c ≠ "*"%char ∧ c ≠ "/"%char.
Proof. intros Hv. split; intros ->; by vm_compute in Hv. Qed.

Lemma hex_decode_ind (P : string → list byte → Prop) :
  P "" [] →
  (∀ c d s x y l, hex_val c = Some x → hex_val d = Some y → hex_decode s = Some l → P s l →
     P (String c (String d s)) (byte_of (16 * x + y) :: l)) →
  ∀ s l, hex_decode s = Some l → P s l.
Proof.
  intros H0 HS s. assert (∀ n s, (String.length s ≤ n)%nat → ∀ l, hex_decode s = Some l → P s l) as Hall; [|by eapply Hall].
  intros n. induction n as [|n IH]; intros [|c [|d t]] Hlen l Hl; cbn in Hl, Hlen; try (by injection Hl as <-); try lia; [done|].
  destruct (hex_val c) as [x|] eqn:Ec, (hex_val d) as [y|] eqn:Ed, (hex_decode t) as [l'|] eqn:Et; cbn in Hl; try done.
  injection Hl as <-. apply HS; [done..|]. apply IH; [lia|done].
Qed.

Lemma hex_decode_plain s l : hex_decode s = Some l → Forall (λ c, c ≠ "*"%char ∧ c ≠ "/"%char) (chars s).
Proof.
  revert s l. apply (hex_decode_ind (λ s l, Forall (λ c, c ≠ "*"%char ∧ c ≠ "/"%char) (chars s))); [constructor|].
  intros c d s x y l Hc Hd _ IH. cbn. repeat constructor; eauto using hex_val_plain; eapply hex_val_plain; eauto.
Qed.

Lemma hex_decode_length s l : hex_decode s = Some l → String.length s = (2 * length l)%nat.
Proof. revert s l. apply (hex_decode_ind (λ s l, String.length s = (2 * length l)%nat)); [done|]. intros. cbn. lia. Qed.

Lemma hex_encode_plain l : Forall (λ c, c ≠ "*"%char ∧ c ≠ "/"%char) (chars (hex_encode l)).
Proof. apply (hex_decode_plain _ l), hex_decode_encode. Qed.

Lemma substring_hex n l : String.substring 0 (n * 2) (hex_encode l) = hex_encode (take n l).
Proof. induction n as [|n IH] in l |- *; [by destruct l as [|b l]|]. destruct l as [|b l]; [done|]. cbn. by rewrite IH. Qed.

Lemma substring_chars n s : chars (String.substring 0 n s) = take n (chars s).
Proof. induction n as [|n IH] in s |- *; [by destruct s|]. destruct s as [|c s]; [done|]. cbn. by rewrite IH. Qed.

Section valid.
Context {U : UrlLib} {H : Sha256Lib} {J : JsonLib}.

Definition digest_ok (subject : StatementSubject) : Prop :=
  ∃ rawHash, hex_decode (hexSha256Digest subject) = Some rawHash ∧ length rawHash = 32%nat.

Lemma validate_subjects_ok seen l : validate_subjects seen l = Ok tt →
  NoDup (Name <$> l) ∧ (∀ x, x ∈ l → Name x ∉ seen ∧ digest_ok x).
Proof.
  induction l as [|x l IH] in seen |- *; intros Hv; [split; [constructor|by intros x ?%elem_of_nil]|]. cbn in Hv.
  case_bool_decide as Hs; [done|]. case_bool_decide; [done|]. destruct (hex_decode (hexSha256Digest x)) as [raw|] eqn:Er; [|done].
  unfold validateSha256Hash in Hv. destruct (Nat.eqb_spec (length raw) 32); [|done]. cbn in Hv. apply IH in Hv as [Hnd Hl]. split.
  - cbn. constructor; [|done]. intros (y & Heq & Hy)%list_elem_of_fmap. apply (Hl y Hy). set_solver.
  - intros y [->|Hy]%elem_of_cons; [split; [done|by exists raw]|]. destruct (Hl y Hy) as [Hn Hd]. split; [set_solver|done].
Qed.

Lemma Validate_ok s : Validate (Some s) = Ok tt →
  Subject s ≠ [] ∧ NoDup (Name <$> Subject s) ∧ Forall digest_ok (Subject s) ∧ validatePredicateType (PredicateType s) = Ok tt.
Proof.
  cbn. case_bool_decide as He; [done|]. destruct (validate_subjects ∅ (Subject s)) as [[]|] eqn:Ev; [|done]. cbn. intros Hp.
  apply validate_subjects_ok in Ev as [Hnd Hd]. split_and!; [done..| |done]. apply Forall_forall. intros x Hx. by apply Hd.
Qed.

Lemma validate_subjects_complete seen l :
  NoDup (Name <$> l) → (∀ x, x ∈ l → Name x ∉ seen ∧ digest_ok x) → validate_subjects seen l = Ok tt.
Proof.
  induction l as [|x l IH] in seen |- *; intros Hnd Hl; [done|]. cbn in Hnd. apply NoDup_cons in Hnd as [Hn Hnd].
  destruct (Hl x) as [Hs (raw & Hr & Hlen)]; [left|]. cbn. rewrite bool_decide_eq_false_2 by done.
  rewrite bool_decide_eq_false_2 by (intros E; rewrite E in Hr; injection Hr as <-; done). rewrite Hr. unfold validateSha256Hash.
  rewrite Hlen. cbn. apply IH; [done|]. intros y Hy. destruct (Hl y) as [Hy1 Hy2]; [by right|]. split; [|done].
  intros [E%elem_of_singleton|?]%elem_of_union; [|done]. apply Hn. rewrite <- E. by apply list_elem_of_fmap_2.
Qed.

Lemma Validate_subjects_perm s s' :
  Validate (Some s) = Ok tt → Subject s ≡ₚ Subject s' → PredicateType s = PredicateType s' → Validate (Some s') = Ok tt.
Proof.
  intros (Hne & Hnd & Hd & Hp)%Validate_ok Hperm Hpt. cbn. rewrite bool_decide_eq_false_2.
  - rewrite validate_subjects_complete; [cbn; by rewrite <- Hpt|by rewrite <- Hperm|]. intros x Hx. rewrite <- Hperm in Hx.
    split; [set_solver|]. by rewrite Forall_forall in Hd; apply Hd.
  - intros E. rewrite E in Hperm. by apply Permutation_nil_r in Hperm.
Qed.

Context {S : SliceSort}.

(** The parts of a key. *)
Lemma bundle_key_parts s key : newStatementBundleKey s = Ok key →
  Validate (Some s) = Ok tt ∧ ∃ json,
  json_Marshal (Predicate s) = Some json ∧
  key = bundle_key (hexHash (string_bytes (PredicateType s)))
          (hexHash (idInput (slice_sort by_name (Subject s)) (PredicateType s) json))
          (Join (short_digest ∘ hexSha256Digest <$> slice_sort by_name (Subject s)) "_").
Proof.
  unfold newStatementBundleKey. destruct (Validate (Some s)) as [[]|] eqn:Ev; [|done]. cbn [twrap wrap_err mbind result_bind].
  destruct (Nat.ltb_spec MaxCacheableSubjects (length (Subject s))); [done|].
  destruct (json_Marshal (Predicate s)) as [json|] eqn:Ej; [|done]. intros [= <-]. eauto.
Qed.

(** *** The order of the subjects does not matter *)

Lemma by_name_sorted_unique l k : NoDup (Name <$> l) → l ≡ₚ k → slice_sort by_name l = slice_sort by_name k.
Proof.
  intros Hnd Hp.
  assert (weak_order by_name) as Hw.
  { destruct string_less_weak_order as [Ha Ht]. split; unfold by_name; [intros x y; apply Ha|intros x y z; apply Ht]. }
  apply (StronglySorted_unique_strong (λ x y, by_name y x = false)); [|by apply slice_sort_sorted..|by rewrite !slice_sort_perm].
  intros x y Hx Hy H1 H2. rewrite slice_sort_perm in Hx, Hy. rewrite <- Hp in Hy.
  assert (Name x = Name y) as Heq by (by apply string_less_antisym).
  apply list_elem_of_lookup in Hx as [i Hi], Hy as [j Hj].
  assert (i = j) as ->; [|congruence]. eapply NoDup_lookup; [exact Hnd|..]; rewrite list_lookup_fmap; [by rewrite Hi|].
  rewrite Hj. cbn. by rewrite Heq.
Qed.
End valid.

(** ** What a key identifies *)

Section key_identity.
Context {U : UrlLib} {H : Sha256Lib} {J : JsonLib} {S : SliceSort}.

Lemma digest_length x : digest_ok x → String.length (hexSha256Digest x) = 64%nat.
Proof. intros (raw & Hd & Hl). apply hex_decode_length in Hd. lia. Qed.

Definition subject_text (x : StatementSubject) : list byte := string_bytes (Name x) ++ string_bytes (hexSha256Digest x).

Lemma idInput_text l pt json : idInput l pt json = (l ≫= subject_text) ++ string_bytes pt ++ json.
Proof.
  unfold idInput. rewrite string_bytes_app, <- app_assoc. f_equal.
  assert (∀ acc, string_bytes (foldl (λ acc x, acc +:+ Name x +:+ hexSha256Digest x) acc l) = string_bytes acc ++ (l ≫= subject_text)) as Hacc;
    [|by rewrite Hacc].
  induction l as [|x l IH]; intros acc; [by rewrite app_nil_r|]. cbn [foldl mbind list_bind]. rewrite IH. unfold subject_text.
  by rewrite !string_bytes_app, <- !app_assoc.
Qed.

Lemma subject_texts_inj l k r r' :
  Forall digest_ok l → Forall digest_ok k → Name <$> l = Name <$> k →
  (l ≫= subject_text) ++ r = (k ≫= subject_text) ++ r' → hexSha256Digest <$> l = hexSha256Digest <$> k ∧ r = r'.
Proof.
  induction l as [|x l IH] in k |- *; intros Hl Hk Hn Heq; destruct k as [|y k]; try done.
  apply Forall_cons in Hl as [Hx Hl], Hk as [Hy Hk]. cbn in Hn. injection Hn as Hn Hns.
  cbn [mbind list_bind] in Heq. unfold subject_text in Heq at 1 3. rewrite Hn, <- !app_assoc in Heq. apply app_inv_head in Heq.
  apply app_inj_1 in Heq as [Hd Heq]; [|by rewrite !length_string_bytes, !digest_length].
  apply IH in Heq as [Hds Hr]; [|done..]. split; [|done]. cbn. by rewrite (string_bytes_inj _ _ Hd), Hds.
Qed.

Lemma string_app_inj (a b c d : string) : String.length a = String.length b → a +:+ c = b +:+ d → a = b ∧ c = d.
Proof.
  induction a as [|x a IH] in b |- *; intros Hl Heq; destruct b as [|y b]; try done. cbn in Hl, Heq. injection Heq as -> Heq.
  destruct (IH b ltac:(lia) Heq) as [-> ->]. done.
Qed.

Lemma bundle_key_inj pt id ds pt' id' ds' :
  String.length pt = String.length pt' → String.length id = String.length id' →
  bundle_key pt id ds = bundle_key pt' id' ds' → pt = pt' ∧ id = id' ∧ ds +:+ ".pb" = ds' +:+ ".pb".
Proof.
  intros H1 H2 Heq. unfold bundle_key in Heq. apply string_app_inj in Heq as [_ Heq]; [|done].
  apply string_app_inj in Heq as [-> Heq]; [|done]. apply string_app_inj in Heq as [_ Heq]; [|done].
  apply string_app_inj in Heq as [-> Heq]; [|done]. by apply string_app_inj in Heq as [_ ->].
Qed.

Lemma length_hexHash b : String.length (hexHash b) = 24%nat.
Proof. unfold hexHash. rewrite length_hex_encode, length_take, length_sha256. done. Qed.
End key_identity.


(** Two inputs with the same (truncated) hash. *)
Definition collision {H : Sha256Lib} (x y : list byte) : Prop := x ≠ y ∧ hexHash x = hexHash y.

Lemma hexHash_cases {H : Sha256Lib} x y : hexHash x = hexHash y → x = y ∨ collision x y.
Proof. intros Heq. destruct (decide (x = y)) as [|Hne]; [by left|right; by split]. Qed.

(** A key identifies a statement by its contents.  The order in which a
    statement lists its subjects makes no difference.  And if two statements with
    the same subject names have the same key, their digests, predicate types and
    predicates, as JSON, are the same, or else the statements are a collision of
    the truncated hash. *)
Theorem bundle_key_identifies {U : UrlLib} {H : Sha256Lib} {J : JsonLib} {S : SliceSort} s s' key :
  newStatementBundleKey s = Ok key →
  (Subject s ≡ₚ Subject s' → PredicateType s = PredicateType s' → Predicate s = Predicate s' →
   newStatementBundleKey s' = Ok key) ∧
  (newStatementBundleKey s' = Ok key →
   Name <$> slice_sort by_name (Subject s) = Name <$> slice_sort by_name (Subject s') →
   (hexSha256Digest <$> slice_sort by_name (Subject s) = hexSha256Digest <$> slice_sort by_name (Subject s') ∧
    PredicateType s = PredicateType s' ∧ json_Marshal (Predicate s) = json_Marshal (Predicate s')) ∨
   collision (string_bytes (PredicateType s)) (string_bytes (PredicateType s')) ∨
   ∃ json json', json_Marshal (Predicate s) = Some json ∧ json_Marshal (Predicate s') = Some json' ∧
     collision (idInput (slice_sort by_name (Subject s)) (PredicateType s) json)
       (idInput (slice_sort by_name (Subject s')) (PredicateType s') json')).
Proof.
  intros Hkey. pose proof (bundle_key_parts _ _ Hkey) as (Hv & json & Hj & Ek). pose proof (Validate_ok _ Hv) as (Hne & Hnd & Hd & Hp). split.
  - intros Hperm Hpt Hpred. unfold newStatementBundleKey in *. rewrite (Validate_subjects_perm s s') by done. rewrite Hv in Hkey.
    rewrite <- Hpred, <- Hpt, <- (by_name_sorted_unique (Subject s) (Subject s')) by done. by rewrite <- (Permutation_length Hperm).
  - intros Hkey' Hn. apply bundle_key_parts in Hkey' as (Hv' & json' & Hj' & Ek').
    pose proof (Validate_ok _ Hv') as (_ & _ & Hd' & _). rewrite Ek in Ek'.
    apply bundle_key_inj in Ek' as (E1 & E2 & _); [|by rewrite !length_hexHash..].
    destruct (hexHash_cases _ _ E1) as [Hpt|Hc]; [|by right; left].
    destruct (hexHash_cases _ _ E2) as [Hid|Hc]; [|right; right; by exists json, json'].
    left. apply string_bytes_inj in Hpt. rewrite !idInput_text, Hpt in Hid.
    apply subject_texts_inj in Hid as [Hds Hr]; [|by rewrite slice_sort_perm..|done].
    apply app_inv_head in Hr. split; [done|]. split; [done|]. by rewrite Hj, Hj', Hr.
Qed.

(** Names are not delimited, so different statements can share a key without any
    collision: a name may contain what looks like the digest of one subject and the
    name of the next. *)
Section ambiguous.
Context {U : UrlLib} {H : Sha256Lib} {J : JsonLib}.
Definition hex_zero : string := hex_encode (replicate 32 x00).
Definition hex_one : string := hex_encode (replicate 32 x01).
Definition subject_of (name digest : string) : StatementSubject := MkSubject name {[ "sha256" := digest ]}.
Definition ambiguous_1 (pt : string) : Statement :=
  MkStatement [subject_of "a" hex_zero; subject_of ("b" +:+ hex_zero +:+ "c") hex_one] pt ∅.
Definition ambiguous_2 (pt : string) : Statement :=
  MkStatement [subject_of ("a" +:+ hex_zero +:+ "b") hex_zero; subject_of "c" hex_one] pt ∅.

Lemma ambiguous_keys pt : validatePredicateType pt = Ok tt →
  newStatementBundleKey (S:=insertion_slice_sort) (ambiguous_1 pt) = newStatementBundleKey (S:=insertion_slice_sort) (ambiguous_2 pt) ∧
  Validate (Some (ambiguous_1 pt)) = Ok tt ∧ Validate (Some (ambiguous_2 pt)) = Ok tt.
Proof.
  intros Hpt.
  assert (Validate (Some (ambiguous_1 pt)) = Ok tt) as H1.
  { cbn [Validate]. rewrite bool_decide_eq_false_2 by done.
    assert (validate_subjects ∅ (Subject (ambiguous_1 pt)) = Ok tt) as -> by (vm_compute; reflexivity). done. }
  assert (Validate (Some (ambiguous_2 pt)) = Ok tt) as H2.
  { cbn [Validate]. rewrite bool_decide_eq_false_2 by done.
    assert (validate_subjects ∅ (Subject (ambiguous_2 pt)) = Ok tt) as -> by (vm_compute; reflexivity). done. }
  split; [|done]. unfold newStatementBundleKey. rewrite H1, H2. cbn [twrap wrap_err mbind result_bind].
  assert (∀ json, idInput (slice_sort (SliceSort:=insertion_slice_sort) by_name (Subject (ambiguous_1 pt))) pt json =
    idInput (slice_sort (SliceSort:=insertion_slice_sort) by_name (Subject (ambiguous_2 pt))) pt json) as Hid.
  { intros json. rewrite !idInput_text. by f_equal. }
  assert (short_digest ∘ hexSha256Digest <$> slice_sort (SliceSort:=insertion_slice_sort) by_name (Subject (ambiguous_1 pt)) =
    short_digest ∘ hexSha256Digest <$> slice_sort (SliceSort:=insertion_slice_sort) by_name (Subject (ambiguous_2 pt))) as Hds
    by (vm_compute; reflexivity).
  rewrite Hds. change (Predicate (ambiguous_1 pt)) with (Predicate (ambiguous_2 pt)).
  change (PredicateType (ambiguous_1 pt)) with pt. change (PredicateType (ambiguous_2 pt)) with pt.
  change (length (Subject (ambiguous_1 pt))) with 2%nat. change (length (Subject (ambiguous_2 pt))) with 2%nat.
  destruct (json_Marshal (Predicate (ambiguous_2 pt))) as [json|]; [|done]. by rewrite Hid.
Qed.
End ambiguous.

(** ** Bundles that were signed are found *)

Section found.
Context {U : UrlLib} {H : Sha256Lib} {J : JsonLib} {S : SliceSort}.

Definition plain (s : string) : Prop := Forall (λ c, c ≠ "*"%char ∧ c ≠ "/"%char) (chars s).

Lemma plain_app a b : plain a → plain b → plain (a +:+ b).
Proof. unfold plain. rewrite chars_app. apply Forall_app_2. Qed.
Lemma plain_no_star a : plain a → "*"%char ∉ chars a.
Proof. unfold plain. rewrite Forall_forall. intros Hf Hin. by destruct (Hf _ Hin). Qed.
Lemma plain_no_slash a : plain a → "/"%char ∉ chars a.
Proof. unfold plain. rewrite Forall_forall. intros Hf Hin. by destruct (Hf _ Hin). Qed.
Lemma plain_hexHash b : plain (hexHash b).
Proof. apply hex_encode_plain. Qed.

Lemma plain_short_digest x : digest_ok x → plain (short_digest (hexSha256Digest x)).
Proof.
  intros (raw & Hd & _). apply hex_decode_plain in Hd. unfold plain, short_digest. rewrite substring_chars. by apply Forall_take.
Qed.

Lemma Join_around d ds sep : d ∈ ds → plain sep → Forall plain ds → ∃ a b, Join ds sep = a +:+ d +:+ b ∧ plain a ∧ plain b.
Proof.
  intros Hd Hsep. induction ds as [|e ds IH]; [by apply elem_of_nil in Hd|]. intros [He Hds]%Forall_cons.
  assert (plain (Join ds sep)) as Hj.
  { clear IH Hd. induction ds as [|f [|g ds] IH]; [constructor|by apply Forall_cons in Hds as [? _]|].
    apply Forall_cons in Hds as [Hf Hds]. cbn. apply plain_app; [done|]. apply plain_app; [done|]. by apply IH. }
  apply elem_of_cons in Hd as [->|Hd].
  - destruct ds as [|f ds].
    + exists "", "". split; [symmetry; apply string_app_nil_r|split; constructor].
    + exists "", (sep +:+ Join (f :: ds) sep). split; [done|]. split; [constructor|]. by apply plain_app.
  - destruct (IH Hd Hds) as (a & b & Heq & Ha & Hb). destruct ds as [|f ds]; [by apply elem_of_nil in Hd|].
    exists (e +:+ sep +:+ a), b. split_and!; [|by repeat apply plain_app|done]. cbn [Join]. cbn [Join] in Heq. rewrite Heq.
    by rewrite !string_app_assoc.
Qed.

(** Every query that fits a statement matches its key. *)
Lemma key_matches pt id ds pm dm :
  plain pt → plain id → plain ds → (pm = "*" ∨ pm = pt) →
  (dm = "*.pb" ∨ ∃ a d b, ds = a +:+ d +:+ b ∧ plain a ∧ plain d ∧ plain b ∧ dm = "*" +:+ d +:+ "*.pb") →
  Match ("statements/" +:+ pm +:+ "/*/" +:+ dm) (bundle_key pt id ds) = true.
Proof.
  intros Hpt Hid Hds Hpm Hdm. unfold Match, bundle_key. rewrite !chars_app. rewrite glob_match_literal by (vm_compute; set_solver).
  assert (glob_match (chars "/*/" ++ chars dm) (chars "/" ++ chars id ++ chars "/" ++ chars ds ++ chars ".pb") = true) as Hrest.
  { change (chars "/*/" ++ chars dm) with (chars "/" ++ "*"%char :: chars "/" ++ chars dm).
    rewrite glob_match_literal by (vm_compute; set_solver). apply glob_match_star; [by apply plain_no_slash|].
    rewrite glob_match_literal by (vm_compute; set_solver). destruct Hdm as [->|(a & d & b & -> & Ha & Hd & Hb & ->)].
    - change (chars "*.pb") with ("*"%char :: chars ".pb"). apply glob_match_star; [by apply plain_no_slash|done].
    - rewrite !chars_app, <- !app_assoc. change (chars "*" ++ chars d ++ chars "*.pb") with ("*"%char :: chars d ++ chars "*.pb").
      apply glob_match_star; [by apply plain_no_slash|]. rewrite glob_match_literal by (by apply plain_no_star).
      change (chars "*.pb") with ("*"%char :: chars ".pb"). apply glob_match_star; [by apply plain_no_slash|done]. }
  destruct Hpm as [->| ->].
  - change (chars "*" ++ ?x) with ("*"%char :: x). apply glob_match_star; [by apply plain_no_slash|done].
  - by rewrite glob_match_literal by (by apply plain_no_star).
Qed.

(** A query asks for a statement: its predicate type, or any, and one of its
    digests, in lower case, or any. *)
Definition query_fits (q : StatementBundleQuery) (s : Statement) : Prop :=
  (q_PredicateType q = "" ∨ q_PredicateType q = PredicateType s) ∧
  (q_Hash q = [] ∨ ∃ x, x ∈ Subject s ∧ hexSha256Digest x = hex_encode (q_Hash q)).

Lemma Join_plain ds sep : plain sep → Forall plain ds → plain (Join ds sep).
Proof.
  intros Hsep. induction ds as [|e ds IH]; intros Hds; [constructor|].
  destruct (Join_around e (e :: ds) sep) as (a & b & -> & Ha & Hb); [by left|done..|].
  apply Forall_cons in Hds as [? _]. by repeat apply plain_app.
Qed.

Lemma query_finds {B : BundleStore} {BC : BundleStoreContract B} s key st b q bs :
  newStatementBundleKey s = Ok key → stored st !! key = Some b → query_fits q s → FindStatementBundles q st = Ok bs → b ∈ bs.
Proof.
  intros (Hv & json & Hj & Ek)%bundle_key_parts Hst [Hqp Hqh] Hfind. pose proof (Validate_ok _ Hv) as (_ & _ & Hd & _).
  unfold FindStatementBundles in Hfind.
  set (parts := short_digest ∘ hexSha256Digest <$> slice_sort by_name (Subject s)) in *.
  assert (Forall plain parts) as Hparts.
  { apply Forall_fmap. rewrite slice_sort_perm. eapply Forall_impl; [exact Hd|]. intros x. apply plain_short_digest. }
  apply result_bind_ok in Hfind as (pm & Hpm & Hfind). apply result_bind_ok in Hfind as (dm & Hdm & Hfind).
  apply wrap_err_ok, FindByGlob_ok in Hfind. rewrite Hfind. apply list_elem_of_fmap. exists (key, b). split; [done|].
  apply list_elem_of_filter. split; [|by apply elem_of_map_to_list]. cbn [fst]. rewrite Ek.
  apply key_matches; [apply plain_hexHash..| | |].
  - apply Join_plain; [|done]. by repeat constructor.
  - case_bool_decide as Hq0; [left; congruence|]. destruct Hqp as [|Hqp]; [done|]. right.
    destruct (validatePredicateType (q_PredicateType q)) as [[]|]; [|done]. injection Hpm as <-. by rewrite Hqp.
  - destruct (Nat.ltb_spec 0 (length (q_Hash q))) as [Hl|Hl]; [|left; congruence]. right.
    destruct Hqh as [Hnil|(x & Hx & Hxd)]; [rewrite Hnil in Hl; cbn in Hl; lia|].
    destruct (validateSha256Hash (q_Hash q)) as [[]|]; [|done]. injection Hdm as <-.
    destruct (Join_around (hex_encode (take hashLen (q_Hash q))) parts "_") as (a & b' & Hj' & Ha & Hb'); [|by repeat constructor|done|].
    + apply list_elem_of_fmap. exists x. split; [|by rewrite slice_sort_perm]. unfold short_digest, compose.
      by rewrite Hxd, substring_hex.
    + exists a, (hex_encode (take hashLen (q_Hash q))), b'. split_and!; [done..|apply hex_encode_plain|done|done].
Qed.
End found.

(** What the caching signer signs is kept and found.  When it returns a bundle
    for a statement the store has that bundle under the key; asking again gives the
    same bundle without signing anything, or the store's error; so does looking for
    the statement; and every query for the statement, by its predicate type, by one
    of its digests, by both or by none, returns the bundle among its answers. *)
Theorem signed_statement_found {U : UrlLib} {H : Sha256Lib} {J : JsonLib} {S : SliceSort} {B : BundleStore}
    {BC : BundleStoreContract B} {D : DataStatementSigner} s sg st key b sg' st' :
  CachingSigner_SignStatement s (sg, st) = (Ok (key, b), (sg', st')) →
  stored st' !! key = Some b ∧
  (∀ sg'', ∃ r, CachingSigner_SignStatement s (sg'', st') = (r, (sg'', st')) ∧ (∀ kb, r = Ok kb → kb = (key, b))) ∧
  (∀ kb, FindStatementBundle s st' = Ok kb → kb = (key, b)) ∧
  ∀ q bs, query_fits q s → FindStatementBundles q st' = Ok bs → b ∈ bs.
Proof.
  intros Hsign. unfold CachingSigner_SignStatement in Hsign. destruct (newStatementBundleKey s) as [k|] eqn:Ek; [|done].
  assert (k = key ∧ stored st' !! key = Some b) as [-> Hst].
  { cbn [snd] in Hsign. destruct (FindByKey k st) as [b0|e] eqn:Ef; [injection Hsign as <- <- <- <-; eauto using FindByKey_ok|].
    destruct (is_not_found e); [|done]. unfold signAndInsertStatement, sign_and_insert in Hsign. cbn [fst snd] in Hsign.
    destruct (SignStatement s sg) as [[b0|] sg1]; [|done]. destruct (Insert k b0 st) as [[[]|] st1] eqn:Ei; [|done].
    cbn in Hsign. injection Hsign as <- <- <- <-. split; [done|]. rewrite (Insert_ok _ _ _ _ Ei). apply lookup_insert_eq. }
  split; [done|]. split; [|split].
  - intros sg''. unfold CachingSigner_SignStatement. rewrite Ek. cbn [snd]. destruct (FindByKey key st') as [b1|e] eqn:Ef.
    + eexists. split; [done|]. intros kb [= <-]. apply FindByKey_ok in Ef. congruence.
    + destruct (is_not_found e) eqn:En; [|eexists; split; [done|by intros]]. rewrite (FindByKey_missing _ _ _ Ef En) in Hst. done.
  - intros kb. unfold FindStatementBundle. rewrite Ek. cbn [twrap wrap_err mbind result_bind]. destruct (FindByKey key st') as [b1|] eqn:Ef; [|done].
    cbn. intros [= <-]. apply FindByKey_ok in Ef. congruence.
  - intros q bs Hq Hf. by eapply query_finds.
Qed.

(** ** [FSStore] keeps the contract *)

Lemma walk_ok pattern s paths bs : walk pattern s paths = Ok bs →
  bs = omap (λ p, if Match pattern p then files s !! p else None) paths.
Proof.
  induction paths as [|p paths IH] in bs |- *; intros Hw; [by injection Hw as <-|]. cbn in Hw. cbn [omap list_omap].
  destruct (Match pattern p); [|by apply IH].
  apply result_bind_ok in Hw as (d & Hd & Hw). apply result_bind_ok in Hw as (out & Hout & Hw). injection Hw as <-.
  apply wrap_err_ok in Hd. unfold FSStore_FindByKey in Hd. rewrite <- (IH _ Hout).
  destruct (fault s) as [[]|], (files s !! p); by simplify_eq.
Qed.

Lemma range_map_perm {R : RangeOrder} {K A} `{Countable K} (m : gmap K A) : range_map m ≡ₚ map_to_list m.
Proof.
  apply NoDup_Permutation; [eapply NoDup_fmap_1, range_map_nodup|apply NoDup_map_to_list|].
  intros [k x]. by rewrite range_map_elem, elem_of_map_to_list.
Qed.

#[export] Program Instance FSStore_contract {R : RangeOrder} : BundleStoreContract FSStore := {| stored := files |}.
Next Obligation. intros R k s b. cbn. unfold FSStore_FindByKey. destruct (fault s) as [[]|], (files s !! k); by intros [=]; subst. Qed.
Next Obligation.
  intros R k s e. cbn. unfold FSStore_FindByKey. destruct (fault s) as [[]|], (files s !! k); intros [=]; subst; by cbn.
Qed.
Next Obligation. intros R k b s s'. cbn. unfold FSStore_Insert. destruct (fault s) as [[]|]; by intros [=]; subst. Qed.
Next Obligation.
  intros R g s bs Hf. cbn in Hf |- *. unfold FSStore_FindByGlob in Hf. apply walk_ok in Hf as ->.
  assert (∀ l, (∀ kb, kb ∈ l → files s !! kb.1 = Some kb.2) →
    omap (λ p, if Match g p then files s !! p else None) l.*1 = (filter (λ kb, Match g kb.1 = true) l).*2) as Hl.
  { intros l. induction l as [|[k b] l IH]; intros Hin; [done|]. rewrite fmap_cons. cbn [omap list_omap fst].
    pose proof (Hin (k, b) ltac:(left)) as Hkb. cbn in Hkb. rewrite Hkb. destruct (Match g k) eqn:Em.
    - rewrite filter_cons_True by done. cbn. f_equal. apply IH. intros. apply Hin. by right.
    - rewrite filter_cons_False by (cbn; congruence). apply IH. intros. apply Hin. by right. }
  rewrite Hl by (intros [k b] Hkb; by apply range_map_elem in Hkb). by rewrite range_map_perm.
Qed.

(** An insertion that is interrupted leaves a truncated bundle behind, and from then
    on the signer hands out the truncated bundle as the bundle of the statement. *)
Lemma interrupted_insert_served {U : UrlLib} {H : Sha256Lib} {J : JsonLib} {S : SliceSort} {R : RangeOrder}
    {D : DataStatementSigner} s sg m n key b sg' :
  newStatementBundleKey s = Ok key → m !! key = None → SignStatement s sg = (Ok b, sg') →
  CachingSigner_SignStatement (B:=FSStore) s (sg, MkFS m (Some (CopyFails n))) =
    (Err (TWrap "failed to insert bundle" (TWrap "failed to copy bundle to file" (TErr "io"))),
     (sg', MkFS (<[key := take n b]> m) (Some (CopyFails n)))) ∧
  CachingSigner_SignStatement (B:=FSStore) s (sg', MkFS (<[key := take n b]> m) None) =
    (Ok (key, take n b), (sg', MkFS (<[key := take n b]> m) None)).
Proof.
  intros Hk Hm Hs. unfold CachingSigner_SignStatement. rewrite Hk. split.
  - cbn. unfold FSStore_FindByKey. cbn. rewrite Hm. cbn. unfold signAndInsertStatement, sign_and_insert. cbn. by rewrite Hs.
  - cbn. unfold FSStore_FindByKey. cbn. by rewrite lookup_insert_eq.
Qed.

(** ** Witnesses *)

(** Predicates of strings, and a signer that numbers its bundles. *)
Definition text_json : JsonLib := {|
  any := string; any_of_string s := s; any_string s := Some s; json_Marshal m := Some (pos_bytes (encode m)) |}.
Lemma text_json_laws : JsonLaws text_json.
Proof. by constructor. Qed.
Definition counting_signer : @DataStatementSigner text_json := {|
  signer := nat;
  Sign _ n := (Ok [byte_of (Z.of_nat n)], S n);
  SignStatement _ n := (Ok [byte_of (Z.of_nat n)], S n) |}.

Section demo.
#[local] Instance demo_url : UrlLib := text_url.
#[local] Instance demo_sha : Sha256Lib := toy_sha256.
#[local] Instance demo_json : JsonLib := text_json.
#[local] Instance demo_sort : SliceSort := insertion_slice_sort.
#[local] Instance demo_order : RangeOrder := elements_order.
#[local] Instance demo_signer : DataStatementSigner := counting_signer.

Definition demo_statement : Statement :=
  MkStatement [subject_of "key" hex_one; subject_of "image" hex_zero] "https://example.com/v1" {[ "k" := "v" ]}.
Definition demo_permuted : Statement :=
  MkStatement [subject_of "image" hex_zero; subject_of "key" hex_one] "https://example.com/v1" {[ "k" := "v" ]}.
Definition demo_key : string := match newStatementBundleKey demo_statement with Ok k => k | Err _ => "" end.
Lemma demo_key_eq : newStatementBundleKey demo_statement = Ok demo_key.
Proof. vm_compute. reflexivity. Qed.

Lemma bundle_key_identifies_witness : newStatementBundleKey demo_permuted = Ok demo_key.
Proof.
  apply (bundle_key_identifies demo_statement demo_permuted demo_key demo_key_eq); [|reflexivity..].
  apply Permutation_swap.
Defined.

Definition demo_fs : fs := MkFS ∅ None.
Definition demo_fs' : fs := MkFS {[ demo_key := [x07] ]} None.
Lemma demo_signs : CachingSigner_SignStatement demo_statement (7%nat, demo_fs) = (Ok (demo_key, [x07]), (8%nat, demo_fs')).
Proof. vm_compute. reflexivity. Qed.
Definition demo_query : StatementBundleQuery := MkQuery "https://example.com/v1" (replicate 32 x00).

Lemma signed_statement_found_witness : stored demo_fs' !! demo_key = Some [x07] ∧
  (∀ bs, FindStatementBundles demo_query demo_fs' = Ok bs → [x07] ∈ bs) ∧ FindStatementBundles demo_query demo_fs' = Ok [[x07]].
Proof.
  destruct (signed_statement_found demo_statement _ _ _ _ _ _ demo_signs) as (H1 & _ & _ & H2). split; [exact H1|]. split; [|vm_compute; reflexivity].
  intros bs. apply H2. split; [by right|]. right. exists (subject_of "image" hex_zero). split; [|reflexivity]. right. left.
Defined.
End demo.
