(* ===== verification/Transparency.v ===== *)
(** Package [transparency], the part that verifies bundles: [verifier.go],
    [statement_finder.go], [bundle_importer.go], the protobuf and JSON forms of
    statements in [statement.go] and their signing in [signer.go].  The sigstore
    and in-toto libraries are classes. *)

From Stdlib Require Strings.String.
From S2P Require Import Prelude Bytes Base64 GoLib GoStrings Statement.

(** ** [in-toto] statements and [structpb] *)

Record PbSubject := MkPbSubject { pb_name : string; pb_digest : gmap string string }.

Class StructLib {J : JsonLib} := {
  struct : Type;
  NewStruct : gmap string any → option struct;
  AsMap : struct → gmap string any;
}.
Class StructLaws {J : JsonLib} (L : StructLib) := {
  AsMap_NewStruct m s : NewStruct m = Some s → AsMap s = m;
}.

Record PbStatement {J : JsonLib} {L : StructLib} := MkPbStatement {
  pb_statement_type : string;
  pb_subject : list PbSubject;
  pb_predicate_type : string;
  pb_predicate : option struct;
}.

Class InToto {J : JsonLib} {L : StructLib} := {
  pb_Validate : PbStatement → option string;
  protojson_Marshal : PbStatement → option (list byte);
}.

Section statement_pb.
Context {J : JsonLib} {L : StructLib}.

Definition StatementTypeUri : string := "https://in-toto.io/Statement/v1".

Definition MarshalJSON {I : InToto} (s : Statement) : result terr (list byte) :=
  let sub := (λ subject, MkPbSubject (Name subject) (Digest subject)) <$> Subject s in
  match NewStruct (Predicate s) with
  | None => Err (TWrap "failed to create protobuf struct" (TErr "structpb"))
  | Some predicate =>
      let pb := MkPbStatement _ _ StatementTypeUri sub (PredicateType s) (Some predicate) in
      match pb_Validate pb with
      | Some e => Err (TWrap "invalid statement" (TErr e))
      | None =>
          match protojson_Marshal pb with
          | None => Err (TWrap "failed to marshal to json" (TErr "protojson"))
          | Some data => Ok data
          end
      end
  end.

(** The error is always nil; a missing struct is an empty map. *)
Definition UnmarshalProto (pb : PbStatement) : Statement :=
  MkStatement ((λ sub, MkSubject (pb_name sub) (pb_digest sub)) <$> pb_subject pb) (pb_predicate_type pb)
    (match pb_predicate pb with Some s => AsMap s | None => ∅ end).
End statement_pb.

(** ** [sigstore-go] *)

Inductive ArtifactPolicy :=
| WithArtifact (data : list byte)
| WithArtifactDigest (alg : string) (digest : list byte)
| WithoutArtifactUnsafe.

Record IdentityPolicy := MkIdentityPolicy {
  OIDCIssuer : string; OIDCIssuerRegex : string; OIDCSubject : string; OIDCSubjectRegex : string }.

Record TimestampVerificationResult := MkTimestamp { ts_Type : string; ts_Timestamp : Z }.

Record VerificationResult {J : JsonLib} {L : StructLib} := MkVerification {
  res_Statement : option PbStatement;
  VerifiedTimestamps : list TimestampVerificationResult;
}.

Class Sigstore {J : JsonLib} {L : StructLib} := {
  bundle_pb : Type;
  bundle_unmarshal : list byte → option bundle_pb;
  bundle : Type;
  NewBundle : bundle_pb → result string bundle;
  cert_identity : Type;
  NewShortCertificateIdentity : string → string → string → string → result string cert_identity;
  sigstore_verifier : Type;
  sigstore_Verify : sigstore_verifier → bundle → ArtifactPolicy → cert_identity → result string VerificationResult;
}.

(** What a verification means: the statement is the one in the bundle, the bundle
    was signed by an identity that the policy admits, and an artifact is one of the
    statement's subjects, by a digest of some algorithm, the digest named "sha256"
    being SHA-256. *)
Class SigstoreLaws {J : JsonLib} {L : StructLib} {H : Sha256Lib} (G : Sigstore) := {
  bundle_statement : bundle → option PbStatement;
  signed_under : bundle → cert_identity → Prop;
  digest_hex : string → list byte → string;
  digest_hex_sha256 data : digest_hex "sha256" data = hex_encode (sha256 data);
  Verify_statement v b p id r : sigstore_Verify v b p id = Ok r → res_Statement r = bundle_statement b;
  Verify_identity v b p id r : sigstore_Verify v b p id = Ok r → signed_under b id;
  Verify_artifact v b data id r pb :
    sigstore_Verify v b (WithArtifact data) id = Ok r → bundle_statement b = Some pb →
    ∃ x alg, x ∈ pb_subject pb ∧ pb_digest x !! alg = Some (digest_hex alg data);
}.

Section verifier.
Context {U : UrlLib} {H : Sha256Lib} {J : JsonLib} {L : StructLib} {G : Sigstore}.

Record BundleMetadata := MkMeta { Timestamp : Z }.

Fixpoint findTimestampVerification (timestamps : list TimestampVerificationResult) : option Z :=
  match timestamps with
  | [] => None
  | timestamp :: timestamps =>
      if bool_decide (ts_Type timestamp = "Tlog") then Some (ts_Timestamp timestamp)
      else findTimestampVerification timestamps
  end.

(** The texts of the library's errors are kept: one of them is recognised below. *)
Definition lib_err {A} (msg : string) (r : result string A) : result terr A := wrap_err (λ e, TWrap msg (TErr e)) r.

Definition doVerify (v : sigstore_verifier) (b : list byte) (artifactPolicy : ArtifactPolicy) (identity : IdentityPolicy) :
    result terr (option PbStatement * BundleMetadata) :=
  match bundle_unmarshal b with
  | None => Err (TWrap "failed to unmarshal bundle from protobuf" (TErr "proto"))
  | Some bpb =>
      sigstoreBundle ← lib_err "failed to create new sigstore bundle" (NewBundle bpb);
      certIdentity ← lib_err "failed to create certificate identity policy"
        (NewShortCertificateIdentity (OIDCIssuer identity) (OIDCIssuerRegex identity) (OIDCSubject identity) (OIDCSubjectRegex identity));
      result ← lib_err "failed to verify" (sigstore_Verify v sigstoreBundle artifactPolicy certIdentity);
      match findTimestampVerification (VerifiedTimestamps result) with
      | None => Err (TErr "result is missing timestamp")
      | Some timestamp => Ok (res_Statement result, MkMeta timestamp)
      end
  end.

Definition handleStatementPB (statementPB : option PbStatement) : result terr Statement :=
  match statementPB with None => Err ErrNoStatement | Some pb => Ok (UnmarshalProto pb) end.

Definition Verify (v : sigstore_verifier) (data b : list byte) (identity : IdentityPolicy) : result terr BundleMetadata :=
  snd <$> doVerify v b (WithArtifact data) identity.
Definition VerifyHash (v : sigstore_verifier) (sha256Hash b : list byte) (identity : IdentityPolicy) : result terr BundleMetadata :=
  snd <$> doVerify v b (WithArtifactDigest "sha256" sha256Hash) identity.

Definition VerifyStatement (v : sigstore_verifier) (data b : list byte) (identity : IdentityPolicy) :
    result terr (Statement * BundleMetadata) :=
  '(statementPB, bMeta) ← doVerify v b (WithArtifact data) identity;
  statement ← handleStatementPB statementPB; Ok (statement, bMeta).

Definition VerifyStatementHash (v : sigstore_verifier) (sha256Hash b : list byte) (identity : IdentityPolicy) :
    result terr (Statement * BundleMetadata) :=
  '(statementPB, bMeta) ← doVerify v b (WithArtifactDigest "sha256" sha256Hash) identity;
  statement ← handleStatementPB statementPB; Ok (statement, bMeta).

(** [err.Error()] *)
Fixpoint error_text (e : terr) : string :=
  match e with
  | ErrNotFound => "not found"
  | ErrNoStatement => "no statement in bundle"
  | TErr msg => msg
  | TWrap msg e => msg +:+ ": " +:+ error_text e
  end.

Definition no_artifact_text : string := "artifact must be provided to verify message signature".

Definition VerifyStatementIntegrity (v : sigstore_verifier) (b : list byte) (identity : IdentityPolicy) :
    result terr (Statement * BundleMetadata) :=
  match doVerify v b WithoutArtifactUnsafe identity with
  | Err e => if str_contains (error_text e) no_artifact_text then Err ErrNoStatement else Err e
  | Ok (statementPB, bMeta) => statement ← handleStatementPB statementPB; Ok (statement, bMeta)
  end.

Definition VerifyStatementPredicate (v : sigstore_verifier) (b : list byte) (predicateKey : string) (identity : IdentityPolicy) :
    result terr (Statement * BundleMetadata) :=
  '(statement, _) ← VerifyStatementIntegrity v b identity;
  match Predicate statement !! predicateKey with
  | None => Err (TErr ("predicate does not contain " +:+ predicateKey +:+ " key"))
  | Some predicateVal =>
      match any_string predicateVal with
      | None => Err (TErr ("predicate value for key " +:+ predicateKey +:+ " does not contain a string"))
      | Some base64Val =>
          match DecodeString StdEncoding base64Val with
          | None => Err (TWrap "failed to base64 decode predicate value" (TErr "base64"))
          | Some data => VerifyStatement v data b identity
          end
      end
  end.

Definition VerifyStatementWithProcessor (v : sigstore_verifier) (b : list byte)
    (processor : Statement → result terr (list byte)) (identity : IdentityPolicy) : result terr (Statement * BundleMetadata) :=
  '(statement, _) ← twrap "failed to verify statement integrity" (VerifyStatementIntegrity v b identity);
  data ← twrap "failed to get subject data" (processor statement);
  VerifyStatement v data b identity.

(** *** [CachedVerifier] *)

Record CachedVerifier := MkCached { delegate : sigstore_verifier; cv_statements : gmap string Statement }.
Definition NewCachedVerifier (verifier : sigstore_verifier) : CachedVerifier := MkCached verifier ∅.

Definition remember (b : list byte) (r : result terr (Statement * BundleMetadata)) (c : CachedVerifier) :
    result terr (Statement * BundleMetadata) * CachedVerifier :=
  match r with
  | Err e => (Err e, c)
  | Ok (statement, bMeta) =>
      (Ok (statement, bMeta), MkCached (delegate c) (<[hex_encode (sha256 b) := statement]> (cv_statements c)))
  end.
Definition Cached_VerifyStatementWithProcessor (c : CachedVerifier) b processor identity :=
  remember b (VerifyStatementWithProcessor (delegate c) b processor identity) c.
Definition Cached_VerifyStatementPredicate (c : CachedVerifier) b predicateKey identity :=
  remember b (VerifyStatementPredicate (delegate c) b predicateKey identity) c.
Definition CachedStatements {R : RangeOrder} (c : CachedVerifier) : list Statement := (range_map (cv_statements c)).*2.

(** ** [StatementFinder] and [BundleImporter] *)

Record BundleAndStatement := MkBAS {
  bas_Bundle : list byte; bas_Meta : BundleMetadata; bas_Statement : Statement; bas_Key : string }.

Context {S : SliceSort} {B : BundleStore}.

Definition FindBundleAndStatement (v : sigstore_verifier) (identity : IdentityPolicy) (s : Statement) (st : store) :
    result terr BundleAndStatement :=
  '(key, bundle) ← FindStatementBundle s st;
  '(statement, bMeta) ← twrap "failed to verify integrity of statement bundle" (VerifyStatementIntegrity v bundle identity);
  Ok (MkBAS bundle bMeta statement key).

Fixpoint verify_all (v : sigstore_verifier) (identity : IdentityPolicy) (bundles : list (list byte)) :
    result terr (list BundleAndStatement) :=
  match bundles with
  | [] => Ok []
  | bundle :: bundles =>
      '(statement, bMeta) ← twrap "failed to verify integrity of statement bundle" (VerifyStatementIntegrity v bundle identity);
      out ← verify_all v identity bundles;
      Ok (MkBAS bundle bMeta statement "" :: out)
  end.

(** New to old. *)
Definition newer (b1 b2 : BundleAndStatement) : bool := Timestamp (bas_Meta b2) <? Timestamp (bas_Meta b1).

Definition FindStatements (v : sigstore_verifier) (identity : IdentityPolicy) (q : StatementBundleQuery) (st : store) :
    result terr (list BundleAndStatement) :=
  bundles ← FindStatementBundles q st;
  out ← verify_all v identity bundles;
  Ok (slice_sort newer out).

Definition ImportStatementBundle (v : sigstore_verifier) (identity : IdentityPolicy) (b : list byte) (st : store) :
    result terr BundleAndStatement * store :=
  match VerifyStatementIntegrity v b identity with
  | Err e => (Err (TWrap "failed to verify statement bundle integrity" e), st)
  | Ok (statement, bMeta) =>
      match newStatementBundleKey statement with
      | Err e => (Err (TWrap "failed to create key" e), st)
      | Ok key =>
          let out := MkBAS b bMeta statement "" in
          match FindByKey key st with
          | Err e =>
              if is_not_found e then
                match Insert key b st with
                | (Err e, st) => (Err (TWrap "failed to insert bundle" e), st)
                | (Ok _, st) => (Ok out, st)
                end
              else (Err (TWrap "failed to find existing bundle" e), st)
          | Ok bundle =>
              if bool_decide (bundle = b) then (Ok out, st)
              else (Err (TErr "stored bundle does not match imported bundle even though they have the same key"), st)
          end
      end
  end.

(** ** [Signer.SignStatement], with the signing of a payload a parameter *)

Definition Signer_SignStatement {I : InToto} {sg} (doSign : string → list byte → sg → result terr (list byte) * sg)
    (statement : Statement) (s : sg) : result terr (list byte) * sg :=
  match twrap "invalid statement" (Validate (Some statement)) with
  | Err e => (Err e, s)
  | Ok _ =>
      match twrap "failed to marshal statement to json" (MarshalJSON statement) with
      | Err e => (Err e, s)
      | Ok data => doSign "application/vnd.in-toto+json" data s
      end
  end.
End verifier.

(** ** What a verified statement is *)

Section soundness.
Context {U : UrlLib} {H : Sha256Lib} {J : JsonLib} {L : StructLib} {G : Sigstore} {GL : SigstoreLaws G}.

(** The statement of a bundle signed by an identity of the policy. *)
Definition genuine (identity : IdentityPolicy) (b : list byte) (s : Statement) : Prop :=
  ∃ bpb sb cid pb, bundle_unmarshal b = Some bpb ∧ NewBundle bpb = Ok sb ∧
    NewShortCertificateIdentity (OIDCIssuer identity) (OIDCIssuerRegex identity) (OIDCSubject identity)
      (OIDCSubjectRegex identity) = Ok cid ∧
    signed_under sb cid ∧ bundle_statement sb = Some pb ∧ s = UnmarshalProto pb.

(** Data that is a subject of the statement. *)
Definition has_artifact (s : Statement) (data : list byte) : Prop :=
  ∃ x alg, x ∈ Subject s ∧ Digest x !! alg = Some (digest_hex alg data).

Lemma genuine_unique identity identity' b s s' : genuine identity b s → genuine identity' b s' → s = s'.
Proof.
  intros (b1 & s1 & c1 & p1 & E1 & E2 & _ & _ & E3 & ->) (b2 & s2 & c2 & p2 & F1 & F2 & _ & _ & F3 & ->).
  rewrite E1 in F1. injection F1 as <-. rewrite E2 in F2. injection F2 as <-. rewrite E3 in F3. by injection F3 as <-.
Qed.

Lemma doVerify_genuine v b p identity opb meta s :
  doVerify v b p identity = Ok (opb, meta) → handleStatementPB opb = Ok s →
  genuine identity b s ∧ ∀ data, p = WithArtifact data → has_artifact s data.
Proof.
  unfold doVerify. destruct (bundle_unmarshal b) as [bpb|] eqn:Eb; [|done]. intros Hd Hs.
  apply result_bind_ok in Hd as (sb & Esb%wrap_err_ok & Hd). apply result_bind_ok in Hd as (cid & Ecid%wrap_err_ok & Hd).
  apply result_bind_ok in Hd as (r & Er%wrap_err_ok & Hd). destruct (findTimestampVerification _) as [t|]; [|done].
  injection Hd as <- <-. rewrite (Verify_statement _ _ _ _ _ Er) in Hs. unfold handleStatementPB in Hs.
  destruct (bundle_statement sb) as [pb|] eqn:Epb; [|done]. injection Hs as <-. split.
  - exists bpb, sb, cid, pb. eauto 10 using Verify_identity.
  - intros data ->. destruct (Verify_artifact _ _ _ _ _ _ Er Epb) as (x & alg & Hx & Ha).
    exists (MkSubject (pb_name x) (pb_digest x)), alg. split; [|done]. cbn. by apply (list_elem_of_fmap_2 (λ sub, MkSubject (pb_name sub) (pb_digest sub))).
Qed.

Lemma Integrity_genuine v b identity s meta : VerifyStatementIntegrity v b identity = Ok (s, meta) → genuine identity b s.
Proof.
  unfold VerifyStatementIntegrity. destruct (doVerify _ _ _ _) as [[opb m]|e] eqn:Ed; [|by destruct (str_contains _ _)].
  intros Hv. apply result_bind_ok in Hv as (s' & Hs & [= -> _]). by eapply doVerify_genuine.
Qed.

Lemma VerifyStatement_genuine v data b identity s meta :
  VerifyStatement v data b identity = Ok (s, meta) → genuine identity b s ∧ has_artifact s data.
Proof.
  unfold VerifyStatement. intros Hv. apply result_bind_ok in Hv as ([opb m] & Ed & Hv).
  apply result_bind_ok in Hv as (s' & Hs & [= -> _]). destruct (doVerify_genuine _ _ _ _ _ _ _ Ed Hs). eauto.
Qed.

Lemma Processor_genuine v b f identity s meta : VerifyStatementWithProcessor v b f identity = Ok (s, meta) →
  genuine identity b s ∧ ∃ data, f s = Ok data ∧ has_artifact s data.
Proof.
  unfold VerifyStatementWithProcessor. intros Hv. apply result_bind_ok in Hv as ([s1 m1] & Hi%wrap_err_ok & Hv).
  apply result_bind_ok in Hv as (data & Hf%wrap_err_ok & [Hg Ha]%VerifyStatement_genuine). split; [done|]. exists data. split; [|done].
  by rewrite (genuine_unique _ _ _ _ _ Hg (Integrity_genuine _ _ _ _ _ Hi)).
Qed.

Definition predicate_data (s : Statement) (k : string) : option (list byte) :=
  v ← Predicate s !! k; t ← any_string v; DecodeString StdEncoding t.

Lemma Predicate_genuine v b k identity s meta : VerifyStatementPredicate v b k identity = Ok (s, meta) →
  genuine identity b s ∧ ∃ data, predicate_data s k = Some data ∧ has_artifact s data.
Proof.
  unfold VerifyStatementPredicate. intros Hv. apply result_bind_ok in Hv as ([s1 m1] & Hi & Hv).
  destruct (Predicate s1 !! k) as [val|] eqn:Ek; [|done]. destruct (any_string val) as [t|] eqn:Et; [|done].
  destruct (DecodeString StdEncoding t) as [data|] eqn:Ed; [|done]. apply VerifyStatement_genuine in Hv as [Hg Ha]. split; [done|].
  exists data. split; [|done]. rewrite (genuine_unique _ _ _ _ _ Hg (Integrity_genuine _ _ _ _ _ Hi)).
  unfold predicate_data. rewrite Ek. cbn. rewrite Et. done.
Qed.

(** The statements a cached verifier reports were all verified. *)
Definition all_genuine (c : CachedVerifier) : Prop :=
  map_Forall (λ _ s, ∃ identity b, genuine identity b s) (cv_statements c).

Lemma remember_genuine b r c :
  all_genuine c → (∀ s m, r = Ok (s, m) → ∃ identity, genuine identity b s) → all_genuine (remember b r c).2.
Proof.
  intros Hc Hr. destruct r as [[s m]|e]; [|done]. destruct (Hr s m eq_refl) as [identity Hg]. apply map_Forall_insert_2; eauto.
Qed.

Lemma cached_genuine c b f k identity : all_genuine c →
  all_genuine (Cached_VerifyStatementWithProcessor c b f identity).2 ∧ all_genuine (Cached_VerifyStatementPredicate c b k identity).2.
Proof.
  intros Hc. split; apply remember_genuine; try done; intros s m Hs; exists identity.
  - by eapply Processor_genuine.
  - by eapply Predicate_genuine.
Qed.

(** ** Finding and importing *)

Context {S : SliceSort} {B : BundleStore} {BC : BundleStoreContract B}.

Lemma verify_all_ok v identity bundles out : verify_all v identity bundles = Ok out →
  bas_Bundle <$> out = bundles ∧
  Forall (λ x, VerifyStatementIntegrity v (bas_Bundle x) identity = Ok (bas_Statement x, bas_Meta x)) out.
Proof.
  induction bundles as [|b bundles IH] in out |- *; cbn; intros Hv; [injection Hv as <-; split; [done|constructor]|].
  apply result_bind_ok in Hv as ([s m] & Hs%wrap_err_ok & Hv). apply result_bind_ok in Hv as (out' & Hv & [= <-]).
  destruct (IH _ Hv) as [Hb Hall]. split; [cbn; by rewrite Hb|by constructor].
Qed.

Lemma newer_weak_order : weak_order newer.
Proof. split; unfold newer; intros; rewrite ?Z.ltb_lt, ?Z.ltb_ge in *; lia. Qed.
End soundness.

(** C5. Verified means signed and about the data.  Whatever the verifier returns for
    a bundle is the statement in that bundle, signed by an identity of the policy;
    with a processor the data it computes from that very statement, with a key the
    decoded text the predicate has there, is a subject of the statement. *)
Theorem verified_statements {U : UrlLib} {H : Sha256Lib} {J : JsonLib} {L : StructLib} {G : Sigstore} {GL : SigstoreLaws G}
    v b identity s meta :
  (VerifyStatementIntegrity v b identity = Ok (s, meta) → genuine identity b s) ∧
  (∀ f, VerifyStatementWithProcessor v b f identity = Ok (s, meta) →
     genuine identity b s ∧ ∃ data, f s = Ok data ∧ has_artifact s data) ∧
  (∀ k, VerifyStatementPredicate v b k identity = Ok (s, meta) →
     genuine identity b s ∧ ∃ data, predicate_data s k = Some data ∧ has_artifact s data).
Proof. split; [apply Integrity_genuine|]. split; intros ?; [apply Processor_genuine|apply Predicate_genuine]. Qed.

(** Importing makes a statement findable.  After an import the bundle is in the
    store and looking for the imported statement gives it back, unless the store
    fails, with the same bundle and time; nothing is overwritten: a different bundle
    already stored for the statement is an error that changes nothing. *)
Theorem imported_statement_found {U : UrlLib} {H : Sha256Lib} {J : JsonLib} {L : StructLib} {G : Sigstore}
    {S : SliceSort} {B : BundleStore} {BC : BundleStoreContract B} v identity b st r st' :
  ImportStatementBundle v identity b st = (r, st') →
  match r with
  | Ok out =>
      (∃ key, newStatementBundleKey (bas_Statement out) = Ok key ∧ stored st' !! key = Some b ∧
        (stored st !! key = None ∨ stored st !! key = Some b ∧ st' = st)) ∧
      (∀ found, FindBundleAndStatement v identity (bas_Statement out) st' = Ok found →
        bas_Bundle found = b ∧ bas_Statement found = bas_Statement out ∧ bas_Meta found = bas_Meta out)
  | Err _ => ∀ s m key b', VerifyStatementIntegrity v b identity = Ok (s, m) → newStatementBundleKey s = Ok key →
      FindByKey key st = Ok b' → b' ≠ b ∧ st' = st
  end.
Proof.
  unfold ImportStatementBundle. destruct (VerifyStatementIntegrity v b identity) as [[s m]|e] eqn:Ev; [|by intros [= <- <-]].
  destruct (newStatementBundleKey s) as [key|e] eqn:Ek; [|by intros [= <- <-]; congruence].
  assert (∀ st', stored st' !! key = Some b → ∀ found, FindBundleAndStatement v identity s st' = Ok found →
    bas_Bundle found = b ∧ bas_Statement found = s ∧ bas_Meta found = m) as Hfound.
  { intros st1 Hst found Hf. unfold FindBundleAndStatement in Hf. apply result_bind_ok in Hf as ([k1 b1] & Hf & Hr).
    unfold FindStatementBundle in Hf. rewrite Ek in Hf. cbn in Hf. apply result_bind_ok in Hf as (b2 & Hb2%FindByKey_ok & [= <- <-]).
    assert (b2 = b) as -> by congruence. rewrite Ev in Hr. cbn in Hr. by injection Hr as <-. }
  destruct (FindByKey key st) as [b1|e] eqn:Ef.
  - pose proof (FindByKey_ok _ _ _ Ef) as Hst. case_bool_decide as Hb; intros [= <- <-].
    + subst b1. split; [|by apply Hfound]. exists key. cbn. eauto.
    + intros s' m' key' b' [= <- <-] Hk Hb'. rewrite Ek in Hk. injection Hk as <-. split; [congruence|done].
  - destruct (is_not_found e) eqn:En.
    + pose proof (FindByKey_missing _ _ _ Ef En) as Hst. destruct (Insert key b st) as [[[]|e'] st1] eqn:Ei; intros [= <- <-].
      * pose proof (Insert_ok _ _ _ _ Ei) as Hst1. assert (stored st1 !! key = Some b) by (rewrite Hst1; apply lookup_insert_eq).
        split; [|by apply Hfound]. exists key. cbn. eauto.
      * intros s' m' key' b' [= <- <-] Hk Hb'. congruence.
    + intros [= <- <-] s' m' key' b' [= <- <-] Hk Hb'. congruence.
Qed.

(** What [FindStatements] returns is exactly what the store has for the query, every
    bundle verified, new to old. *)
Lemma FindStatements_ok {U : UrlLib} {H : Sha256Lib} {J : JsonLib} {L : StructLib} {G : Sigstore} {S : SliceSort}
    {B : BundleStore} v identity q st out :
  FindStatements v identity q st = Ok out →
  ∃ bundles, FindStatementBundles q st = Ok bundles ∧ bas_Bundle <$> out ≡ₚ bundles ∧
    Forall (λ x, VerifyStatementIntegrity v (bas_Bundle x) identity = Ok (bas_Statement x, bas_Meta x)) out ∧
    StronglySorted (λ x y, Timestamp (bas_Meta y) ≤ Timestamp (bas_Meta x)) out.
Proof.
  unfold FindStatements. intros Hf. apply result_bind_ok in Hf as (bundles & Hb & Hf). apply result_bind_ok in Hf as (out' & Hv & [= <-]).
  exists bundles. apply verify_all_ok in Hv as [<- Hall]. split; [done|]. split; [by rewrite slice_sort_perm|].
  split; [by rewrite slice_sort_perm|]. eapply StronglySorted_mono; [|apply slice_sort_sorted, newer_weak_order].
  intros x y. cbn. unfold newer. by rewrite Z.ltb_ge.
Qed.

(** ** A reference sigstore

    A bundle is the code of a statement and the subject who signed it. *)

Section reference.
#[local] Instance ref_json : JsonLib := text_json.
#[local] Instance ref_sha : Sha256Lib := toy_sha256.

Definition text_struct : @StructLib text_json := {|
  struct := gmap string string; NewStruct m := Some m; AsMap s := s |}.
#[local] Instance ref_struct : StructLib := text_struct.

Abbreviation statement_code := (string * list (string * gmap string string) * string * option (gmap string string))%type.
Definition of_code (c : statement_code * string) : PbStatement :=
  let '((ty, subs, pt, pred), _) := c in MkPbStatement _ _ ty ((λ nd, MkPbSubject nd.1 nd.2) <$> subs) pt pred.

Definition subject_matches (data : list byte) (x : PbSubject) : bool :=
  bool_decide (pb_digest x !! "sha256" = Some (hex_encode (sha256 data))).

Definition code_sigstore : Sigstore := {|
  bundle_pb := statement_code * string;
  bundle_unmarshal b := decode (bytes_pos b);
  bundle := statement_code * string;
  NewBundle b := Ok b;
  cert_identity := string;
  NewShortCertificateIdentity _ _ subject _ := Ok subject;
  sigstore_verifier := unit;
  sigstore_Verify _ b p id :=
    if bool_decide (b.2 = id) then
      let ok := match p with WithArtifact data => existsb (subject_matches data) (pb_subject (of_code b)) | _ => true end in
      if ok then Ok (MkVerification _ _ (Some (of_code b)) [MkTimestamp "Tlog" 5]) else Err "no subject"
    else Err "identity";
|}.

Program Definition code_sigstore_laws : SigstoreLaws code_sigstore := {|
  bundle_statement b := Some (of_code b);
  signed_under b id := b.2 = id;
  digest_hex _ data := hex_encode (sha256 data);
|}.
Next Obligation. done. Qed.
Next Obligation. intros v b p id r. cbn. case_bool_decide; [|done]. destruct p; try destruct (existsb _ _); intros [=]; by subst. Qed.
Next Obligation. intros v b p id r. cbn. by case_bool_decide. Qed.
Next Obligation.
  intros v b data id r pb Hv [= <-]. revert Hv. cbn. case_bool_decide; [|done].
  destruct (existsb (subject_matches data) _) eqn:E; [|done]. intros _. apply existsb_exists in E as (x & Hx & Hm).
  apply bool_decide_eq_true in Hm. exists x, "sha256". split; [by apply list_elem_of_In|done].
Qed.
End reference.

Section demo.
#[local] Instance demo_json : JsonLib := text_json.
#[local] Instance demo_sha : Sha256Lib := toy_sha256.
#[local] Instance demo_struct : StructLib := text_struct.
#[local] Instance demo_sigstore : Sigstore := code_sigstore.
#[local] Instance demo_sigstore_laws : SigstoreLaws demo_sigstore := code_sigstore_laws.
#[local] Instance demo_url : UrlLib := text_url.
#[local] Instance demo_sort : SliceSort := insertion_slice_sort.
#[local] Instance demo_order : RangeOrder := elements_order.

(** The key of a service, as text in base64, signed by an identity [ci]. *)
Definition demo_data : list byte := string_bytes "public key".
Definition demo_text : string := EncodeToString StdEncoding demo_data.
Definition demo_bundle : list byte :=
  pos_bytes (encode ((StatementTypeUri, [("jwk", {[ "sha256" := hex_encode (sha256 demo_data) ]} : gmap string string)],
    "https://example.com/v1", Some ({[ "jwkRaw" := demo_text ]} : gmap string string)), "ci")).
Definition demo_identity : IdentityPolicy := MkIdentityPolicy "issuer" "" "ci" "".
Definition demo_pb : PbStatement :=
  MkPbStatement _ _ StatementTypeUri [MkPbSubject "jwk" {[ "sha256" := hex_encode (sha256 demo_data) ]}]
    "https://example.com/v1" (Some {[ "jwkRaw" := demo_text ]}).

Definition demo_verifier : @sigstore_verifier _ _ code_sigstore := tt.

Lemma demo_verified : VerifyStatementPredicate demo_verifier demo_bundle "jwkRaw" demo_identity =
  Ok (UnmarshalProto demo_pb, MkMeta 5).
Proof. vm_compute. reflexivity. Qed.

Lemma verified_statements_witness : genuine demo_identity demo_bundle (UnmarshalProto demo_pb) ∧
  ∃ data, predicate_data (UnmarshalProto demo_pb) "jwkRaw" = Some data ∧ has_artifact (UnmarshalProto demo_pb) data.
Proof.
  destruct (verified_statements demo_verifier demo_bundle demo_identity (UnmarshalProto demo_pb) (MkMeta 5)) as (_ & _ & Hk).
  apply Hk. exact demo_verified.
Defined.

Definition demo_import : result terr BundleAndStatement * fs :=
  ImportStatementBundle demo_verifier demo_identity demo_bundle (MkFS ∅ None : store).
Definition demo_imported : bool := is_ok demo_import.1 && bool_decide (size (files demo_import.2) = 1%nat).
Lemma demo_imported_true : demo_imported = true.
Proof. vm_compute. reflexivity. Qed.

Lemma imported_statement_found_witness : demo_imported = true ∧ ∀ out st', demo_import = (Ok out, st') →
  ∃ key, newStatementBundleKey (bas_Statement out) = Ok key ∧ stored (BundleStoreContract:=FSStore_contract) st' !! key = Some demo_bundle.
Proof.
  split; [exact demo_imported_true|]. intros out st' Ho.
  destruct (imported_statement_found (BC:=FSStore_contract) _ _ _ _ _ _ Ho) as ((key & H1 & H2 & _) & _). eauto.
Defined.
End demo.
