(* ===== verification/GoHeap.v ===== *)
(** * Slices as heaps

    Swapping two elements of a slice, and Go's package [container/heap] with the
    correctness of its operations: on any implementation of [heap.Interface] that
    stands for a list, they keep the elements and the heap order and [Pop]
    returns a least element. *)

From S2P Require Export Prelude.

(** ** Swapping *)

(** [l[i], l[j] = l[j], l[i]] for indices in range. *)
Definition swap {A} (i j : nat) (l : list A) : list A :=
  match l !! i, l !! j with Some x, Some y => <[i := y]> (<[j := x]> l) | _, _ => l end.

Lemma swap_length {A} i j (l : list A) : length (swap i j l) = length l.
Proof. unfold swap. repeat case_match; by rewrite ?length_insert. Qed.

Lemma swap_lookup {A} i j k (l : list A) :
  (i < length l)%nat → (j < length l)%nat →
  swap i j l !! k = if decide (k = i) then l !! j else if decide (k = j) then l !! i else l !! k.
Proof.
  intros Hi Hj. unfold swap. destruct (lookup_lt_is_Some_2 l i Hi) as [x Hx]. destruct (lookup_lt_is_Some_2 l j Hj) as [y Hy].
  rewrite Hx, Hy. repeat case_decide; subst;
    rewrite ?list_lookup_insert_eq, ?list_lookup_insert_ne, ?list_lookup_insert_eq by (rewrite ?length_insert; congruence || lia); congruence.
Qed.

Lemma swap_perm {A} i j (l : list A) : swap i j l ≡ₚ l.
Proof.
  destruct (decide (i < length l)%nat) as [Hi|Hi].
  2: { unfold swap. by rewrite lookup_ge_None_2 by lia. }
  destruct (decide (j < length l)%nat) as [Hj|Hj].
  2: { unfold swap. rewrite (lookup_ge_None_2 l j) by lia. by case_match. }
  symmetry. apply Permutation_inj. split; [by rewrite swap_length|].
  exists (λ k, if decide (k = i) then j else if decide (k = j) then i else k). split.
  - intros a b. repeat case_decide; congruence.
  - intros k. rewrite swap_lookup by done. repeat case_decide; subst; congruence.
Qed.

Lemma swap_lookup_i {A} i j (l : list A) : (i < length l)%nat → (j < length l)%nat → swap i j l !! i = l !! j.
Proof. intros Hi Hj. rewrite swap_lookup by done. by rewrite decide_True. Qed.

Lemma swap_lookup_other {A} i j k (l : list A) : k ≠ i → k ≠ j → swap i j l !! k = l !! k.
Proof. intros Hi Hj. unfold swap. repeat case_match; [|done..]. by rewrite !list_lookup_insert_ne by done. Qed.

(** ** [container/heap] *)

(** [heap.Interface]; popping an empty slice panics. *)
Class HeapInterface (H A : Type) := {
  Len : H → nat;
  Less : H → nat → nat → bool;
  Swap : H → nat → nat → H;
  SlicePush : A → H → H;
  SlicePop : H → option (A * H);
}.

Section heap.
Context {H A : Type} {I : HeapInterface H A}.

Fixpoint up_loop (fuel : nat) (h : H) (j : nat) : H :=
  match fuel with
  | O => h
  | S fuel =>
      let i := ((j - 1) / 2)%nat in
      if (i =? j)%nat || negb (Less h j i) then h else up_loop fuel (Swap h i j) i
  end.
Definition up (h : H) (j : nat) : H := up_loop (S j) h j.

Fixpoint down_loop (fuel : nat) (h : H) (i n : nat) : H :=
  match fuel with
  | O => h
  | S fuel =>
      let j1 := (2 * i + 1)%nat in
      if (n <=? j1)%nat then h
      else
        let j2 := (j1 + 1)%nat in
        let j := if (j2 <? n)%nat && Less h j2 j1 then j2 else j1 in
        if negb (Less h j i) then h else down_loop fuel (Swap h i j) j n
  end.
Definition down (h : H) (i n : nat) : H := down_loop n h i n.

Fixpoint Init_loop (i : nat) (n : nat) (h : H) : H :=
  match i with O => h | S i => Init_loop i n (down h i n) end.
Definition Init (h : H) : H := Init_loop (Len h / 2) (Len h) h.

Definition Push (x : A) (h : H) : H :=
  let h := SlicePush x h in up h (Len h - 1).

Definition Pop (h : H) : option (A * H) :=
  match Len h with
  | O => None
  | S n => SlicePop (down (Swap h 0 n) 0 n)
  end.
End heap.

(** What an implementation promises: it stands for a list of elements that are
    ordered by an integer key. *)
Class HeapLaws {H A K : Type} {I : HeapInterface H A} (items : H → list K) (view : A → K) (key : K → Z) := {
  Len_items h : Len h = length (items h);
  Less_items h i j x y : items h !! i = Some x → items h !! j = Some y → Less h i j = (key x <? key y);
  Swap_items h i j : (i < Len h)%nat → (j < Len h)%nat → items (Swap h i j) = swap i j (items h);
  SlicePush_items x h : items (SlicePush x h) = items h ++ [view x];
  SlicePop_items h l k : items h = l ++ [k] → ∃ x h', SlicePop h = Some (x, h') ∧ view x = k ∧ items h' = l;
}.

(** ** Heap order *)

Definition child (i k : nat) : Prop := k = (2 * i + 1)%nat ∨ k = (2 * i + 2)%nat.

Section order.
Context {K : Type} (key : K → Z).

Definition key_at (l : list K) (i : nat) : Z := from_option key 0 (l !! i).

Lemma key_at_swap i j k l : (i < length l)%nat → (j < length l)%nat →
  key_at (swap i j l) k = if decide (k = i) then key_at l j else if decide (k = j) then key_at l i else key_at l k.
Proof. intros Hi Hj. unfold key_at. rewrite swap_lookup by done. by repeat case_decide. Qed.

Lemma key_at_lookup l i x : l !! i = Some x → key_at l i = key x.
Proof. unfold key_at. by intros ->. Qed.

(** Every child below [n] of a position from [m] on is not less than its parent. *)
Definition heap_range (m n : nat) (l : list K) : Prop :=
  ∀ i k, (m ≤ i)%nat → child i k → (k < n)%nat → key_at l i ≤ key_at l k.
Definition heap_ordered (l : list K) : Prop := heap_range 0 (length l) l.

(** The order holds except that the element at [j] may be less than its parent. *)
Definition up_range (n j : nat) (l : list K) : Prop :=
  (∀ i k, child i k → (k < n)%nat → k ≠ j → key_at l i ≤ key_at l k) ∧
  (∀ i k, child i j → child j k → (k < n)%nat → key_at l i ≤ key_at l k).

(** The order holds except that the element at [i] may be greater than its
    children. *)
Definition down_range (m n i : nat) (l : list K) : Prop :=
  (∀ p k, (m ≤ p)%nat → child p k → (k < n)%nat → p ≠ i → key_at l p ≤ key_at l k) ∧
  (∀ p k, (m ≤ p)%nat → child p i → child i k → (k < n)%nat → key_at l p ≤ key_at l k).

Lemma child_lt i k : child i k → (i < k)%nat.
Proof. unfold child. lia. Qed.

Lemma child_parent k : (0 < k)%nat → child ((k - 1) / 2) k.
Proof. intros Hk. unfold child. pose proof (Nat.div_mod_eq (k - 1) 2). pose proof (Nat.mod_upper_bound (k - 1) 2). lia. Qed.

Lemma child_inj i j k : child i k → child j k → i = j.
Proof. unfold child. lia. Qed.

Lemma heap_root n l k : heap_range 0 n l → (k < n)%nat → key_at l 0 ≤ key_at l k.
Proof.
  intros Hh. induction k as [k IH] using lt_wf_ind. intros Hk. destruct (decide (k = 0)%nat) as [->|Hne]; [done|].
  pose proof (child_parent k ltac:(lia)) as Hc. pose proof (child_lt _ _ Hc).
  transitivity (key_at l ((k - 1) / 2)); [apply IH; lia|]. apply Hh; [lia|done..].
Qed.

Lemma heap_ordered_nil : heap_ordered [].
Proof. intros i k _ Hc Hk. simpl in Hk. lia. Qed.
End order.

Section correct.
Context {H A K : Type} {I : HeapInterface H A} (items : H → list K) (view : A → K) (key : K → Z).
Context {L : HeapLaws items view key}.
Notation key_at := (key_at key).

Lemma Less_key h i j : (i < Len h)%nat → (j < Len h)%nat → Less h i j = (key_at (items h) i <? key_at (items h) j).
Proof.
  rewrite Len_items. intros [x Hx]%lookup_lt_is_Some_2 [y Hy]%lookup_lt_is_Some_2.
  by rewrite (Less_items _ _ _ _ _ Hx Hy), (key_at_lookup _ _ _ _ Hx), (key_at_lookup _ _ _ _ Hy).
Qed.

(** [up] keeps the elements and restores the order. *)
Lemma up_loop_spec fuel h j :
  (j < Len h)%nat → (j < fuel)%nat → up_range key (Len h) j (items h) →
  items (up_loop fuel h j) ≡ₚ items h ∧ heap_ordered key (items (up_loop fuel h j)).
Proof.
  revert h j. induction fuel as [|fuel IH]; intros h j Hj Hf [Ho Hg]; [lia|]. cbn [up_loop].
  assert (j = 0 ∨ 0 < j)%nat as [->|Hpos] by lia.
  { cbn. split; [done|]. intros i k _ Hc Hk. rewrite <- Len_items in Hk. apply Ho; [done|done|]. apply child_lt in Hc. lia. }
  pose proof (child_parent j Hpos) as Hp. set (p := ((j - 1) / 2)%nat) in *. pose proof (child_lt _ _ Hp) as Hlt.
  destruct (Nat.eqb_spec p j) as [|_]; [lia|]. cbn [orb]. rewrite Less_key by lia.
  destruct (Z.ltb_spec (key_at (items h) j) (key_at (items h) p)) as [Hl|Hl]; cbn [negb].
  - assert (items (Swap h p j) = swap p j (items h)) as Es by (apply Swap_items; lia).
    assert (Len (Swap h p j) = Len h) as El by (rewrite !Len_items, Es; apply swap_length).
    pose proof Hj as Hj'. rewrite Len_items in Hj'.
    destruct (IH (Swap h p j) p) as [Hperm Hord]; [lia..| |].
    + rewrite El, Es. split.
      * intros i k Hc Hk Hkp. rewrite !key_at_swap by lia. rewrite (decide_False (P:=k = p)) by done.
        destruct (decide (k = j)) as [->|Hkj].
        { rewrite (child_inj _ _ _ Hc Hp), decide_True by done. lia. }
        pose proof (Ho i k Hc Hk Hkj). destruct (decide (i = p)) as [->|Hip]; [lia|].
        destruct (decide (i = j)) as [->|Hij]; [by apply Hg|done].
      * intros i k Hc Hck Hk. rewrite !key_at_swap by lia. pose proof (child_lt _ _ Hc). pose proof (child_lt _ _ Hck).
        rewrite (decide_False (P:=i = p)), (decide_False (P:=i = j)), (decide_False (P:=k = p)) by lia.
        pose proof (Ho i p Hc ltac:(lia) ltac:(lia)).
        destruct (decide (k = j)) as [->|Hkj]; [done|]. pose proof (Ho p k Hck Hk Hkj). lia.
    + split; [by rewrite Hperm, Es, swap_perm|done].
  - split; [done|]. intros i k _ Hc Hk. rewrite <- Len_items in Hk. destruct (decide (k = j)) as [->|Hne]; [|by apply Ho].
    by rewrite (child_inj _ _ _ Hc Hp).
Qed.

(** [down] keeps the elements and the ones from [n] on, and makes the positions
    from [m] on ordered below [n]. *)
Lemma down_loop_spec fuel h m i n :
  (n ≤ Len h)%nat → (m ≤ i)%nat → (n ≤ i + fuel)%nat → down_range key m n i (items h) →
  items (down_loop fuel h i n) ≡ₚ items h ∧ heap_range key m n (items (down_loop fuel h i n)) ∧
  ∀ k, (n ≤ k)%nat → items (down_loop fuel h i n) !! k = items h !! k.
Proof.
  revert h i. induction fuel as [|fuel IH]; intros h i Hn Hmi Hf Hd; cbn [down_loop].
  { split; [done|]. split; [|done]. intros p k Hp Hc Hk. pose proof (child_lt _ _ Hc). by apply (proj1 Hd); [..|lia]. }
  destruct (Nat.leb_spec n (2 * i + 1)) as [Hle|Hlt].
  { split; [done|]. split; [|done]. intros p k Hp Hc Hk. apply (proj1 Hd); [done..|]. intros ->. unfold child in Hc. lia. }
  set (j2 := (2 * i + 1 + 1)%nat).
  set (j := if (j2 <? n)%nat && Less h j2 (2 * i + 1) then j2 else (2 * i + 1)%nat).
  assert (child i j ∧ (j < n)%nat ∧ ∀ k, child i k → (k < n)%nat → key_at (items h) j ≤ key_at (items h) k) as (Hc & Hj & Hmin).
  { unfold j. destruct (Nat.ltb_spec j2 n) as [H2|H2]; cbn [andb].
    - rewrite Less_key by lia. destruct (Z.ltb_spec (key_at (items h) j2) (key_at (items h) (2 * i + 1))) as [Hs|Hs];
        (split; [unfold child, j2; lia|]; split; [lia|]; intros k [->|Hk] Hkn; [lia|]; replace k with j2 by (unfold j2; lia); lia).
    - split; [by left|]. split; [lia|]. intros k [->|Hk] Hkn; [lia|]. unfold j2 in H2. lia. }
  clearbody j. pose proof (child_lt _ _ Hc) as Hij. rewrite Less_key by lia. destruct Hd as [Hd Hg].
  destruct (Z.ltb_spec (key_at (items h) j) (key_at (items h) i)) as [Hl|Hl]; cbn [negb].
  - assert (items (Swap h i j) = swap i j (items h)) as Es by (apply Swap_items; lia).
    assert (Len (Swap h i j) = Len h) as El by (rewrite !Len_items, Es; apply swap_length).
    pose proof Hn as Hn'. rewrite Len_items in Hn'.
    destruct (IH (Swap h i j) j) as (Hperm & Hord & Hrest); [lia..| |].
    + rewrite Es. split.
      * intros p k Hp Hck Hk Hpj. rewrite !key_at_swap by lia. pose proof (child_lt _ _ Hck).
        rewrite (decide_False (P:=p = j)) by done.
        destruct (decide (p = i)) as [->|Hpi].
        -- rewrite (decide_False (P:=k = i)) by lia. destruct (decide (k = j)) as [->|Hkj]; [lia|by apply Hmin].
        -- destruct (decide (k = i)) as [->|Hki]; [by apply (Hg p j)|].
           destruct (decide (k = j)) as [->|Hkj]; [by destruct (child_inj _ _ _ Hc Hck)|by apply Hd].
      * intros p k Hp Hcp Hck Hk. rewrite !key_at_swap by lia. pose proof (child_lt _ _ Hcp). pose proof (child_lt _ _ Hck).
        pose proof (child_inj _ _ _ Hc Hcp). subst p. rewrite decide_True by done.
        rewrite (decide_False (P:=k = i)), (decide_False (P:=k = j)) by lia. apply Hd; [lia|done|done|lia].
    + split; [by rewrite Hperm, Es, swap_perm|]. split; [done|]. intros k Hk. rewrite Hrest by done.
      rewrite Es. apply swap_lookup_other; lia.
  - split; [done|]. split; [|done]. intros p k Hp Hck Hk. destruct (decide (p = i)) as [->|Hne]; [|by apply Hd].
    pose proof (Hmin k Hck Hk). lia.
Qed.

(** *** The operations *)

Lemma Push_spec x h :
  heap_ordered key (items h) → items (Push x h) ≡ₚ view x :: items h ∧ heap_ordered key (items (Push x h)).
Proof.
  intros Ho. unfold Push. assert (items (SlicePush x h) = items h ++ [view x]) as E by apply SlicePush_items.
  assert (Len (SlicePush x h) = S (length (items h))) as El by (rewrite Len_items, E, length_app; simpl; lia).
  assert (∀ k, (k < length (items h))%nat → key_at (items h ++ [view x]) k = key_at (items h) k) as Hk.
  { intros k Hk. unfold key_at, GoHeap.key_at. by rewrite lookup_app_l. }
  destruct (up_loop_spec (S (Len (SlicePush x h) - 1)) (SlicePush x h) (Len (SlicePush x h) - 1)) as [Hp Hord]; [lia|lia| |].
  { rewrite El, E. split.
    - intros i k Hc Hlt Hne. pose proof (child_lt _ _ Hc). rewrite !Hk by lia. apply Ho; [lia|done|lia].
    - intros i k _ Hc Hlt. apply child_lt in Hc. lia. }
  split; [|exact Hord]. unfold up. rewrite Hp, E. by rewrite Permutation_app_comm.
Qed.

Lemma Pop_spec h :
  heap_ordered key (items h) →
  match Pop h with
  | None => items h = []
  | Some (x, h') => items h !! 0%nat = Some (view x) ∧ items h ≡ₚ view x :: items h' ∧ heap_ordered key (items h') ∧
      ∀ y, y ∈ items h' → key (view x) ≤ key y
  end.
Proof.
  intros Ho. unfold Pop. destruct (Len h) as [|n] eqn:El; rewrite Len_items in El.
  { by apply nil_length_inv. }
  assert (items (Swap h 0 n) = swap 0 n (items h)) as Es by (apply Swap_items; rewrite Len_items; lia).
  assert (Len (Swap h 0 n) = S n) as El' by (rewrite Len_items, Es, swap_length; done).
  destruct (down_loop_spec n (Swap h 0 n) 0 0 n) as (Hp & Hord & Hrest); [lia..| |].
  { rewrite Es. split.
    - intros p k _ Hc Hk Hp. pose proof (child_lt _ _ Hc). rewrite !key_at_swap by lia.
      rewrite !decide_False by lia. apply Ho; [lia|done|lia].
    - intros p k _ Hc. apply child_lt in Hc. lia. }
  fold (down (Swap h 0 n) 0 n) in *. set (l := items (down (Swap h 0 n) 0 n)) in *.
  assert (length l = S n) as Hlen by (rewrite Hp, Es, swap_length; lia).
  destruct (lookup_lt_is_Some_2 (items h) 0) as [x0 Hx0]; [lia|].
  assert (l !! n = Some x0) as Hlast.
  { rewrite (Hrest n), Es, swap_lookup by lia. case_decide; [by subst n|]. by rewrite decide_True. }
  assert (l = take n l ++ [x0]) as Hsplit.
  { rewrite <- (take_drop n l) at 1. f_equal. rewrite (drop_S _ _ _ Hlast). f_equal. apply drop_ge. lia. }
  destruct (SlicePop_items (down (Swap h 0 n) 0 n) (take n l) x0 Hsplit) as (x & h' & -> & Hv & Hi).
  assert (items h ≡ₚ x0 :: take n l) as Hperm.
  { transitivity l; [by rewrite Hp, Es, swap_perm|]. rewrite Hsplit at 1. by rewrite Permutation_app_comm. }
  rewrite Hi, Hv. split; [done|]. split; [done|]. split.
  - intros i k _ Hc Hk. rewrite length_take, Hlen in Hk. pose proof (child_lt _ _ Hc).
    pose proof (Hord i k ltac:(lia) Hc ltac:(lia)) as Hle. unfold GoHeap.key_at in *. by rewrite !lookup_take_lt by lia.
  - intros y Hy. assert (y ∈ items h) as [k Hk]%list_elem_of_lookup_1 by (rewrite Hperm; by right).
    rewrite <- (key_at_lookup key _ _ _ Hx0), <- (key_at_lookup key _ _ _ Hk).
    apply heap_root with (n := length (items h)); [exact Ho|]. by eapply lookup_lt_Some.
Qed.
End correct.

(** What swapping, appending and cutting off keep, the operations keep. *)
Section invariant.
Context {H A : Type} {I : HeapInterface H A} (P : H → Prop).
Context (Swap_inv : ∀ h i j, P h → P (Swap h i j)).

Lemma up_inv h j : P h → P (up h j).
Proof.
  unfold up. generalize (S j) as fuel. intros fuel. revert h j. induction fuel as [|fuel IH]; intros h j Hh; [done|].
  cbn [up_loop]. case_match; [done|]. by apply IH, Swap_inv.
Qed.
Lemma down_inv h i n : P h → P (down h i n).
Proof.
  unfold down. generalize n at 1 as fuel. intros fuel. revert h i. induction fuel as [|fuel IH]; intros h i Hh; [done|].
  cbn [down_loop]. case_match; [done|]. case_match; case_match; try done; by apply IH, Swap_inv.
Qed.
Lemma Push_inv x h : P (SlicePush x h) → P (Push x h).
Proof. apply up_inv. Qed.
Lemma Pop_inv h x h' : (∀ h x h', P h → SlicePop h = Some (x, h') → P h') → P h → Pop h = Some (x, h') → P h'.
Proof. intros Hpop Hh. unfold Pop. case_match; [done|]. apply Hpop. by apply down_inv, Swap_inv. Qed.
End invariant.
