(* ===== verification/Messages.v ===== *)
(** Package [messages]: HTTP messages between client and compute node, encoded as
    binary HTTP and sealed for the node.  The binary HTTP and the two-way
    encryption libraries are parameters; what the package adds is the choice of
    media type and of chunking, which both ends have to agree on. *)

From S2P Require Import Prelude GoLib.

Definition MediaTypeRequest : string := "application/confsec-req".
Definition MediaTypeRequestChunked : string := "application/confsec-chunked-req".
Definition MediaTypeResponse : string := "application/confsec-res".
Definition MediaTypeResponseChunked : string := "application/confsec-chunked-res".

(** [quicvarint.Len]: the length of a variable-length integer (RFC 9000). *)
Definition varint_len (n : Z) : Z :=
  if n <=? 63 then 1 else if n <=? 16383 then 2 else if n <=? 1073741823 then 4 else 8.
Definition UserChunkLen : Z := 128.
Definition encodedChunkLen : Z := UserChunkLen + varint_len UserChunkLen.
Definition encapsulatedChunkLen : Z := encodedChunkLen + varint_len UserChunkLen + 16.
Definition EncapsulatedChunkLen : Z := encapsulatedChunkLen.

Definition UnroutableHostname : string := "confsec.invalid".
Definition IsRequestMediaType (v : string) : bool :=
  bool_decide (v = MediaTypeRequest) || bool_decide (v = MediaTypeRequestChunked).

(** The options of a sealer or opener: none, or chunking with the maximal length
    of a chunk of plaintext (and the initial buffer, which an opener adds). *)
Definition options := option Z.
Definition chunkedSealerOpts : options := Some encodedChunkLen.
Definition chunkedOpenerOpts : options := Some encodedChunkLen.

(** [bhttp] and [twoway]. *)
Class MessageLib := {
  http_request : Type;
  http_response : Type;
  bhttp_message : Type;
  EncodeRequest : http_request → result goerror bhttp_message;
  DecodeRequest : bhttp_message → result goerror http_request;
  EncodeResponse : http_response → result goerror bhttp_message;
  DecodeResponse : bhttp_message → result goerror http_response;
  IsIndeterminateLength : bhttp_message → bool;

  sender : Type;
  receiver : Type;
  public_key : Type;
  request_sealer : Type;
  request_opener : Type;
  response_opener_func : Type;
  ciphertext : Type;
  receiver_key : receiver → public_key;
  NewRequestSealer : sender → bhttp_message → string → options → result goerror request_sealer;
  sealed_request : request_sealer → ciphertext;
  EncapsulateKey : request_sealer → public_key → result goerror (list byte * response_opener_func);
  NewRequestOpener : receiver → list byte → ciphertext → string → options → result goerror request_opener;
  opened_message : request_opener → bhttp_message;
  NewResponseSealer : request_opener → bhttp_message → string → options → result goerror ciphertext;
  open_response : response_opener_func → ciphertext → string → options → result goerror bhttp_message;
}.

(** What the libraries promise: decoding inverts encoding; a receiver opens what
    was sealed for its key under the same media type and options, and the sender
    opens what the receiver sealed in answer, again under the same ones. *)
Class MessageLaws (L : MessageLib) := {
  decode_encode_request r m : EncodeRequest r = Ok m → DecodeRequest m = Ok r;
  decode_encode_response r m : EncodeResponse r = Ok m → DecodeResponse m = Ok r;
  open_sealed_request snd m mt o s rcv key f :
    NewRequestSealer snd m mt o = Ok s → EncapsulateKey s (receiver_key rcv) = Ok (key, f) →
    ∃ op, NewRequestOpener rcv key (sealed_request s) mt o = Ok op ∧ opened_message op = m;
  open_sealed_response snd m mt o s rcv key f op m' mt' o' c :
    NewRequestSealer snd m mt o = Ok s → EncapsulateKey s (receiver_key rcv) = Ok (key, f) →
    NewRequestOpener rcv key (sealed_request s) mt o = Ok op →
    NewResponseSealer op m' mt' o' = Ok c → open_response f c mt' o' = Ok m';
}.

Section messages.
Context {L : MessageLib}.

Definition EncapsulateRequest (snd : sender) (req : http_request) : result goerror (request_sealer * string) :=
  reqMsg ← wrap_err (ErrorWrap "failed to encode request to bhttp") (EncodeRequest req);
  let '(mediaType, opts) :=
    if IsIndeterminateLength reqMsg then (MediaTypeRequestChunked, chunkedSealerOpts) else (MediaTypeRequest, None) in
  sealer ← wrap_err (ErrorWrap "failed to create new request sealer") (NewRequestSealer snd reqMsg mediaType opts);
  Ok (sealer, mediaType).

(** The switch on the media type. *)
Definition opener_opts (whole chunked mediaType : string) : result goerror options :=
  if bool_decide (mediaType = whole) then Ok None
  else if bool_decide (mediaType = chunked) then Ok chunkedOpenerOpts
  else Err (ErrorNew "unknown media type").

Definition DecapsulateRequest (rcv : receiver) (encapKey : list byte) (mediaType : string) (r : ciphertext) :
    result goerror (http_request * request_opener) :=
  opts ← opener_opts MediaTypeRequest MediaTypeRequestChunked mediaType;
  opener ← wrap_err (ErrorWrap "failed to create request opener") (NewRequestOpener rcv encapKey r mediaType opts);
  req ← wrap_err (ErrorWrap "failed to decode request from bhttp") (DecodeRequest (opened_message opener));
  Ok (req, opener).

Definition EncapsulateResponse (rcv : request_opener) (resp : http_response) : result goerror (ciphertext * string) :=
  respMsg ← wrap_err (ErrorWrap "failed to encode response to bhttp") (EncodeResponse resp);
  let '(mediaType, opts) :=
    if IsIndeterminateLength respMsg then (MediaTypeResponseChunked, chunkedSealerOpts) else (MediaTypeResponse, None) in
  sealer ← wrap_err (ErrorWrap "failed to create response sealer") (NewResponseSealer rcv respMsg mediaType opts);
  Ok (sealer, mediaType).

Definition DecapsulateResponse (openerFunc : response_opener_func) (mediaType : string) (r : ciphertext) :
    result goerror http_response :=
  opts ← opener_opts MediaTypeResponse MediaTypeResponseChunked mediaType;
  m ← wrap_err (ErrorWrap "failed to create response opener") (open_response openerFunc r mediaType opts);
  wrap_err (ErrorWrap "failed to decode response from bhttp") (DecodeResponse m).

(** An encapsulated request is sealed under one of the two request types, with
    the options the receiver derives from the type. *)
Lemma EncapsulateRequest_ok snd req s mt :
  EncapsulateRequest snd req = Ok (s, mt) →
  IsRequestMediaType mt = true ∧
  ∃ m o, EncodeRequest req = Ok m ∧ NewRequestSealer snd m mt o = Ok s ∧
    opener_opts MediaTypeRequest MediaTypeRequestChunked mt = Ok o.
Proof.
  unfold EncapsulateRequest. intros (m & Hm%wrap_err_ok & H)%result_bind_ok.
  destruct (IsIndeterminateLength m); apply result_bind_ok in H as (s' & Hs%wrap_err_ok & [= <- <-]);
    (split; [done|by eexists _, _]).
Qed.
End messages.

Lemma message_understood {L : MessageLib} {LL : MessageLaws L} snd req s mt rcv key f :
  EncapsulateRequest snd req = Ok (s, mt) → EncapsulateKey s (receiver_key rcv) = Ok (key, f) →
  IsRequestMediaType mt = true ∧
  ∃ opener, DecapsulateRequest rcv key mt (sealed_request s) = Ok (req, opener) ∧
    (∀ resp c mt', EncapsulateResponse opener resp = Ok (c, mt') → DecapsulateResponse f mt' c = Ok resp) ∧
    ∀ mt' c, mt' ∉ [MediaTypeResponse; MediaTypeResponseChunked] → ∃ e, DecapsulateResponse f mt' c = Err e.
Proof.
  intros (Hmt & m & o & Hm & Hs & Ho)%EncapsulateRequest_ok Hk. split; [done|].
  destruct (open_sealed_request _ _ _ _ _ _ _ _ Hs Hk) as (op & Hop & Hmsg). exists op. split_and!.
  - unfold DecapsulateRequest. rewrite Ho. cbn [mbind result_bind]. rewrite Hop. cbn [mbind result_bind wrap_err].
    by rewrite Hmsg, (decode_encode_request _ _ Hm).
  - intros resp c mt'. unfold EncapsulateResponse. intros (m' & Hm'%wrap_err_ok & H)%result_bind_ok.
    unfold DecapsulateResponse, opener_opts.
    destruct (IsIndeterminateLength m'); apply result_bind_ok in H as (c' & Hc%wrap_err_ok & [= <- <-]);
      pose proof (open_sealed_response _ _ _ _ _ _ _ _ _ _ _ _ _ Hs Hk Hop Hc) as Hf;
      rewrite ?bool_decide_eq_false_2, bool_decide_eq_true_2 by done; cbn [mbind result_bind];
      unfold chunkedOpenerOpts, chunkedSealerOpts in *; rewrite Hf; cbn [mbind result_bind wrap_err];
      by rewrite (decode_encode_response _ _ Hm').
  - intros mt' c Hn. unfold DecapsulateResponse, opener_opts. rewrite !bool_decide_eq_false_2 by set_solver. by eexists.
Qed.

(** Client and node understand each other.  A request the client encapsulates
    for a node's key is decapsulated by that node to the same request, whatever
    its length; the response the node seals in answer is decapsulated by the
    client to the same response; other media types are refused. *)
Theorem message_roundtrip {L : MessageLib} {LL : MessageLaws L} snd req s mt rcv key f :
  EncapsulateRequest snd req = Ok (s, mt) → EncapsulateKey s (receiver_key rcv) = Ok (key, f) →
  IsRequestMediaType mt = true ∧
  ∃ opener, DecapsulateRequest rcv key mt (sealed_request s) = Ok (req, opener) ∧
    (∀ resp c mt', EncapsulateResponse opener resp = Ok (c, mt') → DecapsulateResponse f mt' c = Ok resp) ∧
    ∀ mt' c, mt' ∉ [MediaTypeResponse; MediaTypeResponseChunked] → ∃ e, DecapsulateResponse f mt' c = Err e.
Proof. apply message_understood. Qed.

(** Libraries that do not encrypt, for the witness. *)
Definition plain_lib : MessageLib := {|
  http_request := list byte; http_response := list byte; bhttp_message := list byte;
  EncodeRequest r := Ok r; DecodeRequest m := Ok m; EncodeResponse r := Ok r; DecodeResponse m := Ok m;
  IsIndeterminateLength m := (100 <? length m)%nat;
  sender := unit; receiver := unit; public_key := unit; request_sealer := list byte; request_opener := list byte;
  response_opener_func := unit; ciphertext := list byte; receiver_key _ := tt;
  NewRequestSealer _ m _ _ := Ok m; sealed_request s := s; EncapsulateKey _ _ := Ok ([x01], tt);
  NewRequestOpener _ _ c _ _ := Ok c; opened_message op := op;
  NewResponseSealer _ m _ _ := Ok m; open_response _ c _ _ := Ok c;
|}.
Lemma plain_lib_laws : MessageLaws plain_lib.
Proof. constructor; simpl; intros; simplify_eq; eauto. Qed.

Lemma message_roundtrip_witness :
  ∃ opener, DecapsulateRequest (L:=plain_lib) tt [x01] MediaTypeRequestChunked (replicate 200 x05) = Ok (replicate 200 x05, opener).
Proof.
  destruct (@message_roundtrip plain_lib plain_lib_laws tt (replicate 200 x05) (replicate 200 x05) MediaTypeRequestChunked
    tt [x01] tt) as (_ & op & H & _); [vm_compute; reflexivity|reflexivity|]. exists op. exact H.
Defined.
