(* ===== verification/Uuidv7.v ===== *)
(** Package [uuidv7]: version 7 UUIDs on top of [google/uuid]. *)

From S2P Require Import Prelude GoLib.

Definition Version : Z := 7.

Section uuidv7.
Context {U : UuidLib}.

Definition check_version (uid : option uuid) : result goerror uuid :=
  match uid with
  | None => Err (ErrorNew "invalid UUID")
  | Some uid =>
      if uuid_version uid =? Version then Ok uid else Err (ErrorNew "got uuid of other version")
  end.

Definition Parse (s : string) : result goerror uuid := check_version (uuid_parse s).

(** [None] is the panic. *)
Definition MustParse (s : string) : option uuid :=
  match Parse s with Ok uid => Some uid | Err _ => None end.

(** An identifier of this system: 16 bytes, version 7. *)
Definition uuid7 (u : uuid) : Prop := uuid_wf u ∧ uuid_version u = Version.

Lemma Parse_string {UL : UuidLaws U} u : uuid7 u → Parse (uuid_string u) = Ok u.
Proof. intros [Hwf Hv]. unfold Parse. rewrite uuid_parse_string by done. simpl. by rewrite Hv. Qed.
End uuidv7.
