(* ===== verification/Http.v ===== *)
(** What the services use of [net/http] (headers, response writers) and package
    [httpfmt] ([binary.go], [errors.go], [headers.go], [proto.go], with
    [proton/decoder.go]): binary responses, error bodies and the generic handler. *)

From Stdlib Require Import Strings.Ascii.
From Stdlib Require Strings.String.
From stdpp Require Import pretty.
From S2P Require Import Prelude Bytes GoLib.

(** ** [http.Header] *)

Abbreviation Header := (gmap string (list string)).

Definition upper_char (c : ascii) : ascii :=
  let n := N_of_ascii c in if (97 <=? n)%N && (n <=? 122)%N then ascii_of_N (n - 32) else c.
Definition lower_char (c : ascii) : ascii :=
  let n := N_of_ascii c in if (65 <=? n)%N && (n <=? 90)%N then ascii_of_N (n + 32) else c.
Definition is_token_char (c : ascii) : bool :=
  let n := N_of_ascii c in
  ((48 <=? n)%N && (n <=? 57)%N) || ((65 <=? n)%N && (n <=? 90)%N) || ((97 <=? n)%N && (n <=? 122)%N) ||
  bool_decide (c ∈ String.list_ascii_of_string "!#$%&'*+-.^_`|~").
Fixpoint canonical_chars (up : bool) (s : string) : string :=
  match s with
  | EmptyString => EmptyString
  | String c s =>
      String (if up then upper_char c else lower_char c) (canonical_chars (bool_decide (c = "-"%char)) s)
  end.
(** [textproto.CanonicalMIMEHeaderKey]: names with other characters stay as they are. *)
Definition CanonicalHeaderKey (s : string) : string :=
  if forallb is_token_char (String.list_ascii_of_string s) then canonical_chars true s else s.

Definition Get (h : Header) (key : string) : string :=
  match h !! CanonicalHeaderKey key with Some (v :: _) => v | _ => "" end.
Definition SetHeader (key value : string) (h : Header) : Header := <[CanonicalHeaderKey key := [value]]> h.
Definition Del (key : string) (h : Header) : Header := delete (CanonicalHeaderKey key) h.
Definition AddHeader (key value : string) (h : Header) : Header :=
  <[CanonicalHeaderKey key := default [] (h !! CanonicalHeaderKey key) ++ [value]]> h.

(** ** [http.ResponseWriter]

    The first status written counts; a body without a status has status 200. *)

Record ResponseWriter := MkWriter { w_header : Header; w_status : option Z; w_body : list byte }.
Definition new_writer : ResponseWriter := MkWriter ∅ None [].

Definition StatusOK : Z := 200.
Definition StatusBadRequest : Z := 400.
Definition StatusNotFound : Z := 404.
Definition StatusInternalServerError : Z := 500.
Definition StatusBadGateway : Z := 502.

Definition on_header (f : Header → Header) (w : ResponseWriter) : ResponseWriter :=
  MkWriter (f (w_header w)) (w_status w) (w_body w).
Definition WriteHeader (code : Z) (w : ResponseWriter) : ResponseWriter :=
  MkWriter (w_header w) (Some (default code (w_status w))) (w_body w).
Definition WriteBody (data : list byte) (w : ResponseWriter) : ResponseWriter :=
  MkWriter (w_header w) (Some (default StatusOK (w_status w))) (w_body w ++ data).

(** [http.Error]. *)
Definition http_Error (msg : string) (code : Z) (w : ResponseWriter) : ResponseWriter :=
  WriteBody (string_bytes msg ++ [x0a])
    (WriteHeader code
      (on_header (λ h, SetHeader "X-Content-Type-Options" "nosniff"
         (SetHeader "Content-Type" "text/plain; charset=utf-8" (Del "Content-Length" h))) w)).

(** ** [headers.go] *)

Definition add_values (name : string) (values : list string) (to : Header) : Header :=
  foldl (λ to value, AddHeader name value to) to values.
Definition CopyHeaders {R : RangeOrder} (from to : Header) (skipNames : list string) : Header :=
  foldl (λ to '(name, values), if bool_decide (name ∈ skipNames) then to else add_values name values to)
    to (range_map from).

Definition MakeAuthHeaderValue (secret : string) : string := "Bearer " +:+ secret.

(** ** [binary.go] *)

(** The [httpfmt.Error] message. *)
Record PbError := MkPbError { pb_message : string }.

Section binary.
Context {WE : ProtoWire PbError}.

Definition WriteBinary (data : list byte) (code : Z) (w : ResponseWriter) : ResponseWriter :=
  WriteBody data
    (WriteHeader code
      (on_header (λ h, SetHeader "Content-Length" (pretty (Z.of_nat (length data)))
         (SetHeader "Content-Type" "application/octet-stream" h)) w)).

Definition BinaryError (msg : string) (code : Z) (w : ResponseWriter) : ResponseWriter :=
  match marshal_message (MkPbError msg) with
  | Err _ => http_Error "server error" StatusInternalServerError w
  | Ok data => WriteBinary data code w
  end.
Definition BinaryBadRequest (msg : string) : ResponseWriter → ResponseWriter := BinaryError msg StatusBadRequest.
Definition BinaryServerError : ResponseWriter → ResponseWriter :=
  BinaryError "internal server error" StatusInternalServerError.

(** [proton.Decoder.Decode] of a reader that yields [body], or fails. *)
Definition Decode {M} {W : ProtoWire M} (body : result goerror (list byte)) : result goerror M :=
  b ← wrap_err (ErrorWrap "failed to read message") body;
  wrap_err (ErrorWrap "failed to unmarshal message") (unmarshal_message b).

Definition DecodeBinaryError (body : result goerror (list byte)) : result goerror PbError := Decode body.
Definition DecodeBinaryErrorAsError (body : result goerror (list byte)) : result goerror goerror :=
  pbErr ← DecodeBinaryError body; Ok (ErrorNew (pb_message pbErr)).

(** What [errors.As] finds in the error of a target function. *)
Inductive target_error := PlainError | ErrorWithStatusCode (StatusCode : Z) (PublicMessage : string).

(** A request as the handler sees it: headers and the outcome of reading the body. *)
Record Request := MkRequest { r_Header : Header; r_Body : result goerror (list byte) }.

(** [targetFunc] may change the state [St] of the service. *)
Definition BinaryHandler {In Out St} (unmarshal : list byte → result goerror In)
    (marshal : Out → result goerror (list byte)) (targetFunc : In → St → result target_error Out * St)
    (r : Request) (w : ResponseWriter) (s : St) : ResponseWriter * St :=
  if negb (bool_decide (Get (r_Header r) "Content-Type" = "application/octet-stream")) then
    (BinaryBadRequest "invalid Content-Type, requires 'application/octet-stream'" w, s)
  else
    match r_Body r with
    | Err _ => (BinaryBadRequest "failed to read body" w, s)
    | Ok input =>
        match unmarshal input with
        | Err _ => (BinaryBadRequest "invalid binary data" w, s)
        | Ok in_ =>
            let '(out, s) := targetFunc in_ s in
            match out with
            | Err (ErrorWithStatusCode code msg) => (BinaryError msg code w, s)
            | Err PlainError => (BinaryServerError w, s)
            | Ok out =>
                match marshal out with
                | Err _ => (BinaryServerError w, s)
                | Ok resBody => (WriteBinary resBody StatusOK w, s)
                end
            end
        end
    end.

(** The type [none] marshals to nothing and unmarshals from anything. *)
Definition BinaryHandlerInputOnly {In St} (unmarshal : list byte → result goerror In)
    (targetFunc : In → St → result target_error unit * St) : Request → ResponseWriter → St → ResponseWriter * St :=
  BinaryHandler unmarshal (λ _, Ok []) targetFunc.
Definition BinaryHandlerOutputOnly {Out St} (marshal : Out → result goerror (list byte))
    (targetFunc : St → result target_error Out * St) : Request → ResponseWriter → St → ResponseWriter * St :=
  BinaryHandler (λ _, Ok tt) marshal (λ _, targetFunc).

(** ** [proto.go] *)

Definition WriteBinaryProto {M} {W : ProtoWire M} (message : M) (w : ResponseWriter) : ResponseWriter :=
  match marshal_message message with
  | Err _ => BinaryServerError w
  | Ok body => WriteBinary body StatusOK w
  end.

(** ** [errors.go]

    The JSON decoder is a parameter; the joined errors are listed, without the
    nil ones [errors.Join] drops. *)

Definition maxErrorBytes : nat := Z.to_nat 4096.
Definition joined (err : goerror) (r : result goerror goerror) : list goerror :=
  match r with Ok causeErr => [err; causeErr] | Err decErr => [err; decErr] end.
Definition ParseBodyAsError (DecodeJSONErrorAsError : list byte → result goerror goerror)
    (resp : ResponseWriter) (err : goerror) : list goerror :=
  let reader := take maxErrorBytes (w_body resp) in
  if bool_decide (Get (w_header resp) "Content-Type" = "application/json") then
    joined err (DecodeJSONErrorAsError reader)
  else if bool_decide (Get (w_header resp) "Content-Type" = "application/octet-stream") then
    joined err (DecodeBinaryErrorAsError (Ok reader))
  else [err; ErrorNew (bytes_string reader)].
End binary.

(** ** Headers *)

Lemma Get_Set_eq k v h : Get (SetHeader k v h) k = v.
Proof. unfold Get, SetHeader. by rewrite lookup_insert_eq. Qed.
Lemma Get_Set_ne k k' v h : CanonicalHeaderKey k ≠ CanonicalHeaderKey k' → Get (SetHeader k v h) k' = Get h k'.
Proof. intros Hne. unfold Get, SetHeader. by rewrite lookup_insert_ne. Qed.
Lemma Get_Del_eq k h : Get (Del k h) k = "".
Proof. unfold Get, Del. by rewrite lookup_delete_eq. Qed.
Lemma Get_Del_ne k k' h : CanonicalHeaderKey k ≠ CanonicalHeaderKey k' → Get (Del k h) k' = Get h k'.
Proof. intros Hne. unfold Get, Del. by rewrite lookup_delete_ne. Qed.

(** Reading one fixed header after writing another. *)
Ltac header_simpl :=
  repeat first
    [ rewrite Get_Set_eq | rewrite Get_Del_eq
    | rewrite Get_Set_ne by (vm_compute; discriminate)
    | rewrite Get_Del_ne by (vm_compute; discriminate) ].

Lemma add_values_lookup name values to k :
  values ≠ [] →
  add_values name values to !! k =
    if bool_decide (k = CanonicalHeaderKey name)
    then Some (default [] (to !! CanonicalHeaderKey name) ++ values) else to !! k.
Proof.
  induction values as [|v values IH] in to |- *; [done|]. intros _.
  change (add_values name (v :: values) to) with (add_values name values (AddHeader name v to)).
  unfold AddHeader. destruct values as [|v' values].
  - cbn [add_values foldl]. case_bool_decide as Hk; [subst; by rewrite lookup_insert_eq|by rewrite lookup_insert_ne].
  - rewrite IH by done. case_bool_decide as Hk; [|by rewrite lookup_insert_ne].
    rewrite lookup_insert_eq. cbn. by rewrite <- app_assoc.
Qed.

(** All names are canonical and carry a value, as in any header built with
    [Set] and [Add]. *)
Definition header_wf (h : Header) : Prop :=
  ∀ k vs, h !! k = Some vs → CanonicalHeaderKey k = k ∧ vs ≠ [].

Definition copy_one (skipNames : list string) (to : Header) (e : string * list string) : Header :=
  let '(name, values) := e in if bool_decide (name ∈ skipNames) then to else add_values name values to.

Lemma copy_fold skip l to k :
  NoDup l.*1 → (∀ n vs, (n, vs) ∈ l → CanonicalHeaderKey n = n ∧ vs ≠ []) →
  foldl (copy_one skip) to l !! k =
    match list_to_map (M:=Header) l !! k with
    | Some vs => if bool_decide (k ∈ skip) then to !! k else Some (default [] (to !! k) ++ vs)
    | None => to !! k
    end.
Proof.
  induction l as [|[n vs] l IH] in to |- *; intros Hnd Hwf; [done|].
  apply NoDup_cons in Hnd as [Hn Hnd]. destruct (Hwf n vs) as [Hc Hvs]; [by left|].
  cbn [foldl]. rewrite IH; [|done|intros ???; apply Hwf; by right].
  cbn [list_to_map foldr curry fst snd copy_one].
  destruct (decide (k = n)) as [->|Hk].
  - rewrite lookup_insert_eq. apply not_elem_of_list_to_map in Hn. simpl in Hn. rewrite Hn.
    case_bool_decide; [done|]. rewrite add_values_lookup, Hc by done. by rewrite bool_decide_eq_true_2.
  - rewrite lookup_insert_ne by done.
    assert ((if bool_decide (n ∈ skip) then to else add_values n vs to) !! k = to !! k) as ->; [|done].
    destruct (bool_decide (n ∈ skip)); [done|]. rewrite add_values_lookup, Hc by done. by rewrite bool_decide_eq_false_2.
Qed.

Lemma range_map_list_to_map {R : RangeOrder} {A} (m : gmap string A) k :
  list_to_map (M:=gmap string A) (range_map m) !! k = m !! k.
Proof.
  destruct (m !! k) as [x|] eqn:E.
  - apply elem_of_list_to_map; [apply range_map_nodup|by apply range_map_elem].
  - apply not_elem_of_list_to_map. intros ([k' x] & -> & H)%list_elem_of_fmap. apply range_map_elem in H. simpl in E. congruence.
Qed.

(** Copying headers appends, for every name not skipped, the values of the
    source in their order to those of the target, whatever order the map is
    ranged over; skipped names and names the source lacks are untouched. *)
Theorem CopyHeaders_spec {R : RangeOrder} from to skipNames k :
  header_wf from →
  CopyHeaders from to skipNames !! k =
    match from !! k with
    | Some vs => if bool_decide (k ∈ skipNames) then to !! k else Some (default [] (to !! k) ++ vs)
    | None => to !! k
    end.
Proof.
  intros Hwf. rewrite <- (range_map_list_to_map from). apply copy_fold; [apply range_map_nodup|].
  intros n vs H%range_map_elem. by apply Hwf.
Qed.

(** ** Error bodies *)

Lemma BinaryError_writes {WE : ProtoWire PbError} msg code data :
  marshal_message (MkPbError msg) = Ok data →
  let w := BinaryError msg code new_writer in
  w_status w = Some code ∧ w_body w = data ∧ Get (w_header w) "Content-Type" = "application/octet-stream".
Proof.
  intros H. unfold BinaryError. rewrite H. cbn [WriteBinary WriteBody WriteHeader on_header w_header w_status w_body new_writer default].
  split_and!; [done|done|]. by header_simpl.
Qed.

(** The message of an error reaches the client.  When a target function
    fails with a status code and a public message, the handler answers with that
    code, and a client of the response gets that message, provided its encoding
    is at most 4096 bytes; the state is the one the function left. *)
Theorem error_reaches_client {WE : ProtoWire PbError} {WEL : ProtoWireLaws PbError} {In Out St}
    unmarshal marshal (target : In → St → result target_error Out * St) r s in_ code msg s' input data json err :
  Get (r_Header r) "Content-Type" = "application/octet-stream" → r_Body r = Ok input → unmarshal input = Ok in_ →
  target in_ s = (Err (ErrorWithStatusCode code msg), s') →
  marshal_message (MkPbError msg) = Ok data → Z.of_nat (length data) ≤ 4096 →
  let '(w, s1) := BinaryHandler unmarshal marshal target r new_writer s in
  s1 = s' ∧ w_status w = Some code ∧ ParseBodyAsError json w err = [err; ErrorNew msg].
Proof.
  intros Hct Hb Hu Ht Hd Hl. unfold BinaryHandler. rewrite Hct, bool_decide_eq_true_2, Hb, Hu, Ht by done. cbn [negb].
  destruct (BinaryError_writes msg code data Hd) as (Hs & Hbody & Hh). split_and!; [done|done|].
  unfold ParseBodyAsError. rewrite Hh, Hbody, bool_decide_eq_false_2, bool_decide_eq_true_2, take_ge by (done || (unfold maxErrorBytes; lia)).
  unfold DecodeBinaryErrorAsError, DecodeBinaryError, Decode. cbn [wrap_err mbind result_bind].
  by rewrite (unmarshal_marshalled _ _ Hd).
Qed.

Definition demo_headers : Header := {[ "Accept" := ["a"; "b"]; "X-Credit" := ["c"] ]}.
Lemma CopyHeaders_spec_witness :
  CopyHeaders (R:=elements_order) demo_headers {[ "Accept" := ["z"] ]} ["X-Credit"] !! "Accept" = Some ["z"; "a"; "b"] ∧
  CopyHeaders (R:=elements_order) demo_headers {[ "Accept" := ["z"] ]} ["X-Credit"] !! "X-Credit" = None.
Proof.
  assert (header_wf demo_headers) as Hwf.
  { intros k vs. unfold demo_headers. rewrite lookup_insert_Some, lookup_singleton_Some. intros [[<- <-]|(_ & <- & <-)]; by vm_compute. }
  split; rewrite (CopyHeaders_spec (R:=elements_order)) by exact Hwf; vm_compute; reflexivity.
Defined.

(** The wire format of the witness: the text of the message. *)
Definition text_error_wire : ProtoWire PbError := {|
  proto_marshal m := Some (string_bytes (pb_message m)); proto_unmarshal b := Some (MkPbError (bytes_string b)) |}.
Lemma text_error_wire_laws : @ProtoWireLaws _ text_error_wire.
Proof.
  constructor. intros [m] b [= <-]. simpl. unfold bytes_string, string_bytes. by rewrite String.string_of_list_byte_of_string.
Qed.

Lemma error_reaches_client_witness :
  ParseBodyAsError (WE:=text_error_wire) (λ _, Err (ErrorNew "json"))
    (BinaryHandler (WE:=text_error_wire) (In:=unit) (Out:=unit) (St:=nat) (λ _, Ok tt) (λ _, Ok [])
      (λ _ n, (Err (ErrorWithStatusCode 409 "nonce locked"), S n))
      (MkRequest {[ "Content-Type" := ["application/octet-stream"] ]} (Ok [])) new_writer 0%nat).1
    (ErrorNew "request failed") = [ErrorNew "request failed"; ErrorNew "nonce locked"].
Proof.
  pose proof (@error_reaches_client text_error_wire text_error_wire_laws unit unit nat (λ _, Ok tt) (λ _, Ok [])
    (λ _ n, (Err (ErrorWithStatusCode 409 "nonce locked"), S n))
    (MkRequest {[ "Content-Type" := ["application/octet-stream"] ]} (Ok [])) 0%nat tt 409 "nonce locked" 1%nat []
    (string_bytes "nonce locked") (λ _, Err (ErrorNew "json")) (ErrorNew "request failed")) as H.
  apply H; [vm_compute; reflexivity..|simpl; lia].
Defined.
