(* ===== verification/Currency.v ===== *)
(** Package [anonpay/currency] ([value.go]): currency values, a 9-bit
    floating-point format with a shift bit for special values, their exact and
    stochastically rounded construction and their two-byte blind encoding. *)

From Stdlib Require Import Floats.SpecFloat.
From S2P Require Import Prelude Bytes Float64.

(** ** Data *)

Definition MaxAmount : Z := Z.shiftl 31 (31 + 3 - 4).

Inductive error :=
| ErrNegativeUnrepresentable
| ErrOverflow (got : Z)
| ErrNoExactRepresentation
| ErrNotAnAmount
| ErrTooShort
| ErrTooManyBitsSet
| ErrNegativeBitsNeeded (bits : Z)
| ErrMissingCurrency.

Record Value := MkValue { shift : bool; value : Z }.

#[global] Instance error_eq_dec : EqDecision error.
Proof. solve_decision. Defined.
#[global] Instance Value_eq_dec : EqDecision Value.
Proof. solve_decision. Defined.

Definition Zero : Value := MkValue false 0.

(** "The top 7 bits of value must be zero." *)
Definition value_wf (c : Value) : Prop := 0 ≤ value c < 512.

(** [bits.Len64] and [bits.TrailingZeros64] *)
Definition len64 (x : Z) : Z := if x =? 0 then 0 else Z.log2 x + 1.
Fixpoint pos_ctz (p : positive) : Z :=
  match p with xO p => 1 + pos_ctz p | _ => 0 end.
Definition trailing_zeros64 (x : Z) : Z :=
  match x with Zpos p => pos_ctz p | _ => 64 end.

(** ** Exact construction *)

Definition createExactUnsafe (amount : Z) : result error Value :=
  if amount <? 16 then Ok (MkValue false (wrap_u 16 amount))
  else
    let bitsNeeded := len64 amount in
    let zeros := trailing_zeros64 amount in
    if 5 <? bitsNeeded - zeros then Err ErrNoExactRepresentation
    else
      let mantissa := Z.land (Z.shiftr amount (bitsNeeded - 5)) 15 in
      if bitsNeeded <? 4 then Err (ErrNegativeBitsNeeded bitsNeeded)
      else
        let biasedExponent := wrap_u 64 (bitsNeeded - 4) in
        if 31 <? biasedExponent then Err (ErrOverflow amount)
        else Ok (MkValue false (wrap_u 16 (Z.lor (Z.shiftl biasedExponent 4) mantissa))).

Definition Exact (signedAmount : Z) : result error Value :=
  if signedAmount <? 0 then Err ErrNegativeUnrepresentable
  else
    let amount := wrap_u 64 signedAmount in
    if MaxAmount <? amount then Err (ErrOverflow amount) else createExactUnsafe amount.

Definition CanRepresent (signedAmount : Z) : bool := is_ok (Exact signedAmount).

(** [None] is the panic of the source. *)
Definition MustSpecial (signedAmount : Z) : option Value :=
  match Exact signedAmount with
  | Ok c => Some (MkValue true (value c))
  | Err _ => None
  end.

(** ** Reading *)

Definition NonZero (c : Value) : bool := negb (value c =? 0) || shift c.

Definition Amount (c : Value) : result error Z :=
  if shift c then Err ErrNotAnAmount
  else
    let biasedExponent := Z.shiftr (value c) 4 in
    if biasedExponent =? 0 then Ok (value c)
    else
      let mantissa := Z.lor (Z.land (value c) 15) 16 in
      let exponentShift := biasedExponent - 1 in
      Ok (wrap_s 64 (Z.shiftl mantissa exponentShift)).

Definition AmountOrZero (c : Value) : Z :=
  match Amount c with Ok a => a | Err _ => 0 end.

(** ** The blind encoding *)

Definition BlindBytes (c : Value) : result error (list byte) :=
  let topBit := wrap_u 8 (Z.shiftr (Z.land (value c) 256) 8) in
  let shiftBit := if shift c then 1 else 0 in
  let firstByte := Z.lor (Z.shiftl topBit 1) shiftBit in
  Ok [byte_of firstByte; byte_of (wrap_u 8 (Z.land (value c) 255))].

Definition ParseCurrencyFromBlindBytes (b : list byte) : result error Value :=
  match b with
  | b0 :: b1 :: _ =>
      let b0 := byte_val b0 in
      if 3 <? b0 then Err ErrTooManyBitsSet
      else
        let v := byte_val b1 in
        Ok (MkValue (b0 =? 1) (if Z.land b0 2 =? 2 then Z.lor v 256 else v))
  | _ => Err ErrTooShort
  end.

(** The [protos.Currency] message: one optional bytes field. *)
Record PbCurrency := MkPbCurrency { pb_currency : option (list byte) }.

Definition UnmarshalProto (pbc : option PbCurrency) : result error Value :=
  match pbc ≫= pb_currency with
  | None => Err ErrMissingCurrency
  | Some b => ParseCurrencyFromBlindBytes b
  end.

Definition MarshalProto (c : Value) : result error PbCurrency :=
  b ← BlindBytes c; Ok (MkPbCurrency (Some b)).

(** ** Stochastic rounding *)

Section rounded.
(** Converting NaN, an infinity or a float outside the range of [uint64] is
    implementation-defined in Go: some number the theorems know nothing of. *)
Context (uint64_undef : float64 → Z).

Definition to_uint64 (x : float64) (z : option Z) : Z :=
  match z with
  | Some z => if (0 <=? z) && (z <? 2 ^ 64) then z else uint64_undef x
  | None => uint64_undef x
  end.

Definition choose (x roundingFactor : float64) (lowerBound upperBound : Z) : result error Value :=
  let lowerProbability :=
    f64_div (f64_sub (f64_of_Z upperBound) x)
            (f64_sub (f64_of_Z upperBound) (f64_of_Z lowerBound)) in
  if f64_ltb lowerProbability roundingFactor
  then createExactUnsafe upperBound else createExactUnsafe lowerBound.

Definition Rounded (signedAmount roundingFactor : float64) : result error Value :=
  if f64_ltb signedAmount f64_zero then Err ErrNegativeUnrepresentable
  else
    let lowerBound := to_uint64 signedAmount (f64_floor signedAmount) in
    let upperBound := to_uint64 signedAmount (f64_ceil signedAmount) in
    let isInteger := lowerBound =? upperBound in
    if MaxAmount <? upperBound then Err (ErrOverflow upperBound)
    else if upperBound <=? 32 then
      if isInteger then createExactUnsafe upperBound
      else choose signedAmount roundingFactor lowerBound upperBound
    else
      let amount := lowerBound in
      let bitsNeeded := len64 amount in
      if bitsNeeded <? 5 then Err (ErrNegativeBitsNeeded bitsNeeded)
      else
        let shiftToClear := bitsNeeded - 5 in
        let truncatedAmount := Z.shiftr amount shiftToClear in
        let lowerBound := wrap_u 64 (Z.shiftl truncatedAmount shiftToClear) in
        let upperBound := wrap_u 64 (Z.shiftl (truncatedAmount + 1) shiftToClear) in
        if isInteger && (lowerBound =? amount) then createExactUnsafe amount
        else choose signedAmount roundingFactor lowerBound upperBound.
End rounded.

(** ** The values that have a representation *)

Lemma pos_ctz_max p k : 0 ≤ k → (2 ^ k | Zpos p) → k ≤ pos_ctz p.
Proof.
  revert k. induction p as [p IH|p IH|]; intros k Hk Hd; cbn [pos_ctz].
  1, 3: destruct (Z.eq_dec k 0) as [->|]; [lia|]; exfalso;
    replace k with (1 + (k - 1)) in Hd by lia; rewrite Z.pow_add_r in Hd by lia;
    destruct Hd as [q Hq]; lia.
  destruct (Z.eq_dec k 0) as [->|]; [specialize (IH 0); simpl in IH; cut (0 ≤ pos_ctz p); [lia|]|].
  { apply IH; [lia|]. apply Z.divide_1_l. }
  specialize (IH (k - 1)). cut (k - 1 ≤ pos_ctz p); [lia|]. apply IH; [lia|].
  replace k with (1 + (k - 1)) in Hd by lia. rewrite Z.pow_add_r in Hd by lia.
  destruct Hd as [q Hq]. exists q. lia.
Qed.

Lemma pos_ctz_divide p : 0 ≤ pos_ctz p ∧ (2 ^ pos_ctz p | Zpos p).
Proof.
  induction p as [p IH|p [IH0 IH]|]; cbn [pos_ctz]; [split; [lia|apply Z.divide_1_l]| |split; [lia|apply Z.divide_1_l]].
  split; [lia|]. rewrite Z.pow_add_r by lia. destruct IH as [q Hq]. exists q. lia.
Qed.

Lemma len64_bounds z : 0 < z → 1 ≤ len64 z ∧ 2 ^ (len64 z - 1) ≤ z < 2 ^ len64 z.
Proof.
  intros Hz. unfold len64. destruct (Z.eqb_spec z 0); [lia|].
  pose proof (Z.log2_spec z Hz). pose proof (Z.log2_nonneg z).
  replace (Z.log2 z + 1 - 1) with (Z.log2 z) by lia. split; [lia|done].
Qed.

Lemma len64_unique z n : 0 < n → 2 ^ (n - 1) ≤ z < 2 ^ n → len64 z = n.
Proof.
  intros Hn Hz. unfold len64. assert (0 < 2 ^ (n - 1)) by (apply Z.pow_pos_nonneg; lia).
  destruct (Z.eqb_spec z 0); [lia|].
  rewrite (Z.log2_unique z (n - 1)); [lia|lia|].
  by replace (Z.succ (n - 1)) with n by lia.
Qed.

Lemma len64_ge5 z : 16 ≤ z → 5 ≤ len64 z.
Proof.
  intros Hz. destruct (len64_bounds z) as [? [_ Hhi]]; [lia|].
  assert (4 < len64 z) by (apply (Z.pow_lt_mono_r_iff 2 4 (len64 z)); lia). lia.
Qed.

Lemma MaxAmount_eq : MaxAmount = 33285996544.
Proof. done. Qed.

(** A normal number [m * 2^k] and its encoding. *)
Definition normal (m k : Z) : Prop := 16 ≤ m < 32 ∧ 0 ≤ k ≤ 30.
Definition normal_value (m k : Z) : Value := MkValue false (16 * (k + 1) + (m - 16)).

Lemma createExactUnsafe_normal m k :
  normal m k → createExactUnsafe (m * 2 ^ k) = Ok (normal_value m k).
Proof.
  intros [Hm Hk].
  by_enum2 (λ m k, createExactUnsafe (m * 2 ^ k) = Ok (normal_value m k)) 16 16 0 31 m k.
Qed.

Lemma createExactUnsafe_small z : 0 ≤ z < 16 → createExactUnsafe z = Ok (MkValue false z).
Proof.
  intros Hz. unfold createExactUnsafe. rewrite wrap_u_small by lia.
  by destruct (Z.ltb_spec z 16); [|lia].
Qed.

Lemma Amount_normal m k : normal m k → Amount (normal_value m k) = Ok (m * 2 ^ k).
Proof.
  intros [Hm Hk].
  by_enum2 (λ m k, Amount (normal_value m k) = Ok (m * 2 ^ k)) 16 16 0 31 m k.
Qed.

Lemma Amount_small z : 0 ≤ z < 16 → Amount (MkValue false z) = Ok z.
Proof.
  intros Hz. unfold Amount. cbn. rewrite Z.shiftr_div_pow2, Z.div_small by lia. done.
Qed.

Lemma normal_shape z :
  16 ≤ z ≤ MaxAmount → (2 ^ (len64 z - 5) | z) → ∃ m k, normal m k ∧ z = m * 2 ^ k.
Proof.
  intros Hz Hd. destruct (len64_bounds z) as [Hl1 [Hlo Hhi]]; [lia|].
  assert (5 ≤ len64 z ≤ 35).
  { rewrite MaxAmount_eq in Hz.
    pose proof (len64_ge5 z ltac:(lia)).
    assert (len64 z - 1 < 35) by (apply (Z.pow_lt_mono_r_iff 2 (len64 z - 1) 35); lia). lia. }
  destruct Hd as [m Hm]. exists m, (len64 z - 5). split; [|done].
  set (d := 2 ^ (len64 z - 5)) in *. assert (0 < d) by (apply Z.pow_pos_nonneg; lia).
  replace (len64 z - 1) with (4 + (len64 z - 5)) in Hlo by lia.
  replace (len64 z) with (5 + (len64 z - 5)) in Hhi by lia.
  rewrite Z.pow_add_r in Hlo, Hhi by lia. fold d in Hlo, Hhi.
  unfold normal. change (2 ^ 4) with 16 in Hlo. change (2 ^ 5) with 32 in Hhi. nia.
Qed.

Lemma createExactUnsafe_inv z v :
  0 ≤ z ≤ MaxAmount → createExactUnsafe z = Ok v →
  (z < 16 ∧ v = MkValue false z) ∨ ∃ m k, normal m k ∧ z = m * 2 ^ k ∧ v = normal_value m k.
Proof.
  intros Hz H. destruct (Z_lt_dec z 16).
  { left. rewrite createExactUnsafe_small in H by lia. naive_solver. }
  right. assert (Hd : (2 ^ (len64 z - 5) | z)).
  { unfold createExactUnsafe in H. destruct (Z.ltb_spec z 16); [lia|].
    destruct (Z.ltb_spec 5 (len64 z - trailing_zeros64 z)) as [|Hle]; [done|].
    destruct z as [|p|p]; [lia| |lia]. cbn [trailing_zeros64] in Hle.
    pose proof (pos_ctz_divide p) as [? Hdiv].
    pose proof (len64_ge5 (Zpos p) ltac:(lia)).
    etransitivity; [|exact Hdiv]. exists (2 ^ (pos_ctz p - (len64 (Zpos p) - 5))).
    rewrite <- Z.pow_add_r by lia. f_equal. lia. }
  destruct (normal_shape z) as (m & k & Hn & ->); [lia|done|].
  exists m, k. rewrite createExactUnsafe_normal in H by done. naive_solver.
Qed.

Lemma normal_le_MaxAmount m k : normal m k → 16 ≤ m * 2 ^ k ≤ MaxAmount.
Proof.
  intros [Hm Hk]. assert (1 ≤ 2 ^ k) by (apply (Z.pow_le_mono_r 2 0 k); lia).
  assert (2 ^ k ≤ 2 ^ 30) by (apply Z.pow_le_mono_r; lia). rewrite MaxAmount_eq. nia.
Qed.

Lemma Exact_createExactUnsafe z : 0 ≤ z ≤ MaxAmount → Exact z = createExactUnsafe z.
Proof.
  intros Hz. unfold Exact. rewrite MaxAmount_eq in *.
  destruct (Z.ltb_spec z 0); [lia|]. rewrite wrap_u_small by lia.
  destruct (Z.ltb_spec 33285996544 z); [lia|done].
Qed.

Lemma Exact_range z v : z < 2 ^ 63 → Exact z = Ok v → 0 ≤ z ≤ MaxAmount.
Proof.
  unfold Exact. intros Hz. destruct (Z.ltb_spec z 0); [done|].
  rewrite wrap_u_small by lia. destruct (Z.ltb_spec MaxAmount z); [done|]. lia.
Qed.

Lemma CanRepresent_iff z :
  0 ≤ z ≤ MaxAmount →
  CanRepresent z = true ↔ z < 16 ∨ ∃ m k, normal m k ∧ z = m * 2 ^ k.
Proof.
  intros Hz. unfold CanRepresent. rewrite Exact_createExactUnsafe by done. split.
  - intros [v Hv]%is_ok_true. destruct (createExactUnsafe_inv z v Hz Hv); naive_solver.
  - intros [?|(m & k & Hn & ->)].
    + by rewrite createExactUnsafe_small by lia.
    + by rewrite createExactUnsafe_normal.
Qed.

Lemma Exact_wf z v : z < 2 ^ 63 → Exact z = Ok v → value_wf v ∧ shift v = false ∧ Amount v = Ok z.
Proof.
  intros Hz H. pose proof (Exact_range z v Hz H) as Hr.
  rewrite Exact_createExactUnsafe in H by done. unfold value_wf.
  destruct (createExactUnsafe_inv z v Hr H) as [[? ->]|(m & k & Hn & -> & ->)].
  - rewrite Amount_small by lia. simpl. auto with lia.
  - rewrite Amount_normal by done. unfold normal in Hn. simpl. auto with lia.
Qed.

Definition amount_exact (n : Z) : bool :=
  match Amount (MkValue false n) with
  | Ok z => bool_decide (Exact z = Ok (MkValue false n)) && (0 <=? z) && (z <=? MaxAmount)
  | Err _ => false
  end.

Lemma Exact_of_Amount v :
  value_wf v → shift v = false → ∃ z, Amount v = Ok z ∧ Exact z = Ok v ∧ 0 ≤ z ≤ MaxAmount.
Proof.
  destruct v as [sh n]. unfold value_wf. simpl. intros Hn ->.
  assert (amount_exact n = true) as H by by_enum (λ n, amount_exact n = true) 0 512 n.
  unfold amount_exact in H. destruct (Amount _) as [z|]; [|done]. exists z.
  rewrite !andb_true_iff, bool_decide_eq_true, !Z.leb_le in H. tauto.
Qed.

(** [Exact] and [Amount] are inverse: constructing an exact value from any
    64-bit amount succeeds precisely when a well-formed value denotes that
    amount, and then yields that (unique) value.  Every other amount, including
    negative and too large ones, is refused. *)
Theorem Exact_iff_Amount z v :
  in_int64 z → Exact z = Ok v ↔ value_wf v ∧ Amount v = Ok z.
Proof.
  intros [_ Hz]. split.
  - intros H%Exact_wf; tauto.
  - intros [Hwf HA]. assert (shift v = false) as Hs by (unfold Amount in HA; by destruct (shift v)).
    destruct (Exact_of_Amount v Hwf Hs) as (z' & HA' & HE & _). congruence.
Qed.

Lemma Exact_iff_Amount_witness :
  in_int64 72 ∧ (Exact 72 = Ok (MkValue false 50) ↔
    value_wf (MkValue false 50) ∧ Amount (MkValue false 50) = Ok 72).
Proof.
  split; [unfold in_int64; lia|]. apply Exact_iff_Amount. unfold in_int64. lia.
Defined.

(** ** The blind encoding *)

Definition blind_image (c : Value) : list byte :=
  [byte_of (Z.lor (Z.shiftl (value c / 256) 1) (if shift c then 1 else 0)); byte_of (value c mod 256)].

Lemma BlindBytes_eq c : value_wf c → BlindBytes c = Ok (blind_image c).
Proof.
  destruct c as [sh n]. unfold value_wf. intros Hn. simpl in Hn.
  destruct sh.
  - by_enum (λ n, BlindBytes (MkValue true n) = Ok (blind_image (MkValue true n))) 0 512 n.
  - by_enum (λ n, BlindBytes (MkValue false n) = Ok (blind_image (MkValue false n))) 0 512 n.
Qed.

Lemma Parse_blind_image c :
  value_wf c →
  ParseCurrencyFromBlindBytes (blind_image c) =
    Ok (MkValue (shift c && (value c <? 256)) (value c)).
Proof.
  destruct c as [sh n]. unfold value_wf. intros Hn. simpl in Hn.
  destruct sh.
  - by_enum (λ n, ParseCurrencyFromBlindBytes (blind_image (MkValue true n)) =
      Ok (MkValue (true && (n <? 256)) n)) 0 512 n.
  - by_enum (λ n, ParseCurrencyFromBlindBytes (blind_image (MkValue false n)) =
      Ok (MkValue (false && (n <? 256)) n)) 0 512 n.
Qed.

Lemma Parse_wf b v : ParseCurrencyFromBlindBytes b = Ok v → value_wf v.
Proof.
  unfold ParseCurrencyFromBlindBytes. destruct b as [|b0 [|b1 b]]; [done..|].
  pose proof (byte_val_range b1). unfold value_wf.
  destruct (3 <? byte_val b0); [done|]. destruct (Z.land (byte_val b0) 2 =? 2); intros [= <-]; simpl; [|lia].
  assert (Z.lor (byte_val b1) 256 = byte_val b1 + 256) as ->; [|lia].
  by_enum (λ x, Z.lor x 256 = x + 256) 0 256 (byte_val b1).
Qed.

Lemma blind_roundtrip c :
  value_wf c →
  (BlindBytes c ≫= ParseCurrencyFromBlindBytes) = Ok (MkValue (shift c && (value c <? 256)) (value c)).
Proof. intros. rewrite BlindBytes_eq by done. cbn [mbind result_bind]. by apply Parse_blind_image. Qed.

(** Encoding a well-formed currency value into its two blind bytes and
    parsing them gives the value back exactly when it is not a special value
    with the top bit set: [b[0] == 1] drops the shift bit of [b[0] == 3], so a
    special value of 256 or more parses as an ordinary, spendable amount. *)
Theorem blind_roundtrip_iff c :
  value_wf c →
  (BlindBytes c ≫= ParseCurrencyFromBlindBytes) = Ok c ↔ shift c = false ∨ value c < 256.
Proof.
  intros Hwf. rewrite blind_roundtrip by done.
  destruct c as [[] n]; simpl; destruct (Z.ltb_spec n 256); split; intros; naive_solver lia.
Qed.

Lemma blind_roundtrip_iff_witness :
  value_wf (MkValue true 256) ∧
  ((BlindBytes (MkValue true 256) ≫= ParseCurrencyFromBlindBytes) = Ok (MkValue true 256)
    ↔ shift (MkValue true 256) = false ∨ value (MkValue true 256) < 256).
Proof. split; [unfold value_wf; simpl; lia|]. apply blind_roundtrip_iff. unfold value_wf. simpl. lia. Defined.

(** The blind bytes, which the blind signature binds as metadata, identify
    the value: two well-formed values with the same encoding are equal, so a
    signature for one amount is never metadata-compatible with another. *)
Theorem BlindBytes_inj c d :
  value_wf c → value_wf d → BlindBytes c = BlindBytes d → c = d.
Proof.
  intros Hc Hd. rewrite !BlindBytes_eq by done. unfold blind_image.
  destruct c as [sc n], d as [sd m]. unfold value_wf in *. simpl in *. intros H. injection H as H1 H2.
  apply (f_equal byte_val) in H1, H2. rewrite !byte_val_of in H1, H2.
  assert (∀ k, 0 ≤ k < 2 → Z.lor (Z.shiftl k 1) 1 = 2 * k + 1 ∧ Z.lor (Z.shiftl k 1) 0 = 2 * k) as Hl.
  { intros k Hk. assert (k = 0 ∨ k = 1) as [-> | ->] by lia; done. }
  assert (0 ≤ n / 256 < 2 ∧ 0 ≤ m / 256 < 2) as [Hn Hm] by (Z.to_euclidean_division_equations; lia).
  destruct (Hl _ Hn) as [Hn1 Hn0], (Hl _ Hm) as [Hm1 Hm0].
  assert (n / 256 = m / 256 ∧ sc = sd) as [Hnm ->].
  { destruct sc, sd; rewrite ?Hn1, ?Hn0, ?Hm1, ?Hm0 in H1; rewrite !Z.mod_small in H1 by lia;
      split; try done; lia. }
  f_equal. rewrite !Z.mod_mod in H2 by lia. rewrite (Z.div_mod n 256), (Z.div_mod m 256) by lia. congruence.
Qed.

Lemma BlindBytes_inj_witness :
  value_wf (MkValue true 3) ∧ BlindBytes (MkValue true 3) = BlindBytes (MkValue true 3) ∧
  MkValue true 3 = MkValue true 3.
Proof.
  assert (value_wf (MkValue true 3)) by (unfold value_wf; simpl; lia).
  split; [done|]. split; [done|]. apply BlindBytes_inj; done.
Defined.

(** ** Rounding lands on a neighbour *)

Definition representable (z : Z) : Prop :=
  0 ≤ z < 16 ∨ ∃ m k, normal m k ∧ z = m * 2 ^ k.

Lemma createExactUnsafe_representable z :
  representable z → ∃ v, createExactUnsafe z = Ok v ∧ value_wf v ∧ Amount v = Ok z.
Proof.
  intros [Hz|(m & k & Hn & ->)].
  - exists (MkValue false z). rewrite createExactUnsafe_small, Amount_small by done.
    unfold value_wf. simpl. auto with lia.
  - exists (normal_value m k). rewrite createExactUnsafe_normal, Amount_normal by done.
    unfold value_wf, normal in *. simpl. auto with lia.
Qed.

Lemma representable_le32 z : 0 ≤ z ≤ 32 → representable z.
Proof.
  intros Hz. destruct (Z_lt_dec z 16); [left; lia|right].
  destruct (Z.eq_dec z 32) as [->|]; [exists 16, 1|exists z, 0]; unfold normal; lia.
Qed.

Lemma CanRepresent_representable r : in_int64 r → CanRepresent r = true → representable r.
Proof.
  intros [_ Hr] H. pose proof H as [v Hv]%is_ok_true. apply Exact_range in Hv; [|done].
  apply CanRepresent_iff in H; [|done]. unfold representable. destruct H; [left; lia|by right].
Qed.

(** Between two consecutive normal numbers of one exponent nothing else fits. *)
Lemma representable_gap t s r :
  normal t s → representable r → r < (t + 1) * 2 ^ s → r ≤ t * 2 ^ s.
Proof.
  intros [Ht Hs] Hr Hlt. assert (1 ≤ 2 ^ s) by (apply (Z.pow_le_mono_r 2 0 s); lia).
  destruct Hr as [?|(m & k & [Hm Hk] & ->)]; [nia|].
  destruct (Z_le_dec s k) as [Hsk|Hsk].
  - assert (E : m * 2 ^ k = (m * 2 ^ (k - s)) * 2 ^ s).
    { rewrite <- Z.mul_assoc, <- Z.pow_add_r by lia. do 2 f_equal. lia. }
    rewrite E in *. apply Z.mul_lt_mono_pos_r in Hlt; [|lia]. apply Z.mul_le_mono_nonneg_r; lia.
  - assert (E : 2 ^ s = 2 * 2 ^ (s - k - 1) * 2 ^ k).
    { rewrite <- (Z.pow_succ_r 2 (s - k - 1)), <- Z.pow_add_r by lia. f_equal. lia. }
    assert (1 ≤ 2 ^ (s - k - 1)) by (apply (Z.pow_le_mono_r 2 0); lia).
    assert (1 ≤ 2 ^ k) by (apply (Z.pow_le_mono_r 2 0); lia). nia.
Qed.

Lemma truncation_normal z :
  16 ≤ z ≤ MaxAmount →
  let s := len64 z - 5 in let t := Z.shiftr z s in
  normal t s ∧ t * 2 ^ s ≤ z < (t + 1) * 2 ^ s.
Proof.
  intros Hz s t. pose proof (len64_ge5 z ltac:(lia)).
  destruct (len64_bounds z) as [_ [Hlo Hhi]]; [lia|].
  assert (len64 z - 1 < 35).
  { rewrite MaxAmount_eq in Hz. apply (Z.pow_lt_mono_r_iff 2 (len64 z - 1) 35); lia. }
  replace (len64 z - 1) with (4 + s) in Hlo by lia. replace (len64 z) with (5 + s) in Hhi by lia.
  rewrite Z.pow_add_r in Hlo, Hhi by lia. subst t. rewrite Z.shiftr_div_pow2 by lia.
  assert (0 < 2 ^ s) by (apply Z.pow_pos_nonneg; lia).
  change (2 ^ 4) with 16 in Hlo. change (2 ^ 5) with 32 in Hhi.
  pose proof (Z.div_mod z (2 ^ s)). pose proof (Z.mod_pos_bound z (2 ^ s)).
  unfold normal. split; [split; [|lia]|]; nia.
Qed.

Lemma successor_normal t s :
  normal t s → (t + 1) * 2 ^ s ≤ MaxAmount → representable ((t + 1) * 2 ^ s).
Proof.
  intros [Ht Hs] Hmax. right. destruct (Z.eq_dec t 31) as [->|].
  - exists 16, (s + 1). rewrite Z.pow_add_r by lia. split; [|lia].
    split; [lia|]. split; [lia|]. assert (s < 30); [|lia].
    apply (Z.pow_lt_mono_r_iff 2 s 30); rewrite MaxAmount_eq in Hmax; lia.
  - exists (t + 1), s. unfold normal. lia.
Qed.

(** [a] is the closest representable amount on one side of the argument. *)
Definition neighbour (lo hi a : Z) : Prop :=
  (a ≤ lo ∧ ∀ r, in_int64 r → CanRepresent r = true → r ≤ lo → r ≤ a) ∨
  (hi ≤ a ∧ ∀ r, in_int64 r → CanRepresent r = true → hi ≤ r → a ≤ r).

Lemma choose_cases x rf l u (P : Z → Prop) :
  representable l → representable u → P l → P u →
  ∃ v a, choose x rf l u = Ok v ∧ value_wf v ∧ Amount v = Ok a ∧ P a.
Proof.
  intros Hl Hu Pl Pu. unfold choose. destruct (f64_ltb _ rf).
  - destruct (createExactUnsafe_representable u Hu) as (v & ? & ? & ?). eauto 6.
  - destruct (createExactUnsafe_representable l Hl) as (v & ? & ? & ?). eauto 6.
Qed.

Lemma neighbour_small lo hi a : a = lo ∨ a = hi → neighbour lo hi a.
Proof. intros [-> | ->]; [left|right]; split; auto with lia. Qed.

Lemma rounded_neighbour undef x rf lo hi :
  f64_nonneg x → f64_floor x = Some lo → f64_ceil x = Some hi → hi ≤ MaxAmount →
  ∃ v a, Rounded undef x rf = Ok v ∧ value_wf v ∧ Amount v = Ok a ∧ neighbour lo hi a.
Proof.
  intros Hx Hlo Hhi Hmax. pose proof (f64_floor_nonneg x lo Hx Hlo) as Hlo0.
  destruct (f64_ceil_floor x lo Hlo) as (hi' & Hhi' & Hle). rewrite Hhi in Hhi'. injection Hhi' as <-.
  unfold Rounded. unfold f64_nonneg in Hx. rewrite Hx, Hlo, Hhi. unfold to_uint64.
  pose proof MaxAmount_eq as HM.
  replace ((0 <=? lo) && (lo <? 2 ^ 64)) with true by (symmetry; rewrite andb_true_iff; lia).
  replace ((0 <=? hi) && (hi <? 2 ^ 64)) with true by (symmetry; rewrite andb_true_iff; lia).
  destruct (Z.ltb_spec MaxAmount hi); [lia|]. destruct (Z.leb_spec hi 32) as [H32|H32].
  { destruct (Z.eqb_spec lo hi).
    - destruct (createExactUnsafe_representable hi) as (v & ? & ? & ?);
        [apply representable_le32; lia|]. exists v, hi. split_and!; auto using neighbour_small.
    - apply choose_cases; auto using neighbour_small; apply representable_le32; lia. }
  pose proof (len64_ge5 lo ltac:(lia)). destruct (Z.ltb_spec (len64 lo) 5); [lia|].
  destruct (truncation_normal lo ltac:(lia)) as [Hn Hb].
  set (s := len64 lo - 5) in *. set (t := Z.shiftr lo s) in *.
  pose proof (normal_le_MaxAmount t s Hn).
  assert (0 < 2 ^ s ≤ 2 ^ 30) by (unfold normal in Hn; split;
    [apply Z.pow_pos_nonneg; lia|apply Z.pow_le_mono_r; lia]).
  rewrite !Z.shiftl_mul_pow2, !wrap_u_small by (unfold normal in Hn; nia).
  assert (Hrep : representable (t * 2 ^ s)) by (right; eauto).
  destruct ((lo =? hi) && (t * 2 ^ s =? lo)) eqn:Eint.
  { apply andb_true_iff in Eint as [->%Z.eqb_eq E%Z.eqb_eq].
    destruct (createExactUnsafe_representable hi) as (v & ? & ? & ?); [by rewrite <- E|].
    exists v, hi. split_and!; auto using neighbour_small. }
  assert (Hup : hi ≤ (t + 1) * 2 ^ s) by lia.
  assert (t * 2 ^ s < hi) by (apply andb_false_iff in Eint as [?%Z.eqb_neq|?%Z.eqb_neq]; lia).
  apply choose_cases; [done| | |].
  - apply successor_normal; [done|]. rewrite HM. unfold normal in Hn.
    destruct (Z.eq_dec s 30) as [E30|]; [|assert (2 ^ s ≤ 2 ^ 29) by (apply Z.pow_le_mono_r; lia); nia].
    rewrite E30 in *. nia.
  - left. split; [lia|]. intros r Hi Hr%(CanRepresent_representable r Hi) ?.
    apply representable_gap; [done..|lia].
  - right. split; [done|]. intros r Hi Hr%(CanRepresent_representable r Hi) ?.
    destruct (Z_lt_dec r ((t + 1) * 2 ^ s)) as [Hlt|]; [|lia].
    pose proof (representable_gap t s r Hn Hr Hlt). lia.
Qed.

(** [Rounded] never fails on a finite non-negative amount whose ceiling is
    at most [MaxAmount], whatever the rounding factor: it returns a well-formed
    ordinary value, namely the greatest representable amount below the argument
    or the least one above it.  In particular it is exact on representable
    amounts. *)
Theorem Rounded_neighbour undef x rf lo hi :
  f64_nonneg x → f64_floor x = Some lo → f64_ceil x = Some hi → hi ≤ MaxAmount →
  ∃ v a, Rounded undef x rf = Ok v ∧ value_wf v ∧ Amount v = Ok a ∧ neighbour lo hi a.
Proof. apply rounded_neighbour. Qed.

Lemma Rounded_neighbour_witness :
  ∃ v a, Rounded (λ _, 0) (f64_of_Z 69) f64_one = Ok v ∧ value_wf v ∧ Amount v = Ok a ∧ neighbour 69 69 a.
Proof. apply Rounded_neighbour; [reflexivity..|]. vm_compute. discriminate. Defined.
