(* ===== verification/Nonce.v ===== *)
(** Package [anonpay] ([nonce.go]): the timestamped randomness that identifies a
    credit, its quantised timestamps, its acceptance window and its encodings. *)

From Stdlib Require Import Floats.SpecFloat.
From S2P Require Import Prelude Bytes GoLib Float64.

(** ** Constants and data *)

Definition NonceTimeQuantizationSeconds : Z := 60 * 60.
Definition NonceLen : nat := 16.
Definition NonceMinimumSafeTimeSeconds : Z := 30.
Definition NonceLifespanSeconds : Z := 60 * 60 * 24 + 2 * NonceTimeQuantizationSeconds.
Definition NonceMaxClockSkewSeconds : Z := 30.

Record Nonce := MkNonce {
  Timestamp : Z;
  nonce_bytes : list byte;
  UnsafeIncrement : bool;
}.

#[global] Instance Nonce_eq_dec : EqDecision Nonce.
Proof. solve_decision. Defined.

(** [Nonce{}] *)
Definition zero_nonce : Nonce := MkNonce 0 [] false.

Inductive nonce_error :=
| ErrRandom
| ErrNilProtobuf
| ErrIncompleteProtobuf
| ErrIncorrectLength (got : nat).

(** ** Timestamps *)

(** Go's integer division truncates towards zero. *)
Definition RoundDownNonceTimestamp (timestamp : Z) : Z :=
  wrap_s 64 (Z.quot timestamp NonceTimeQuantizationSeconds * NonceTimeQuantizationSeconds).

Definition SafeNonceTimestamp (timestamp : Z) (randomFactor : float64) : Z * bool :=
  let roundedTimestamp := RoundDownNonceTimestamp timestamp in
  let nonQuantizedSeconds := wrap_s 64 (timestamp - roundedTimestamp) in
  let factor :=
    f64_sub f64_one
      (f64_div (f64_of_Z nonQuantizedSeconds) (f64_of_Z NonceTimeQuantizationSeconds)) in
  if f64_ltb factor randomFactor then
    (wrap_s 64 (roundedTimestamp + NonceTimeQuantizationSeconds),
     nonQuantizedSeconds <? NonceMinimumSafeTimeSeconds)
  else (roundedTimestamp, false).

Definition IsExpiredAt (n : Nonce) (timestamp : Z) : bool :=
  let minTime := timestamp + -1 * second * NonceMaxClockSkewSeconds in
  if Timestamp n <? RoundDownNonceTimestamp (unix minTime) then true
  else
    let maxTime := timestamp + second * (NonceLifespanSeconds + NonceMaxClockSkewSeconds) in
    RoundDownNonceTimestamp (unix maxTime) <? Timestamp n.

(** ** Creation

    [i] is what [rand.Int(rand.Reader, 1<<53)] delivered and [fill] what
    [rand.Read] wrote, [None] when the reader failed. *)

Definition RandFloat64 (i : option Z) : result nonce_error float64 :=
  match i with
  | Some i => Ok (f64_div (f64_of_Z i) (f64_of_Z (2 ^ 53)))
  | None => Err ErrRandom
  end.

Definition RandomNonce (i : option Z) (now : Z) (fill : option (list byte)) : result nonce_error Nonce :=
  randomFactor ← RandFloat64 i;
  let '(timestamp, unsafeIncrement) := SafeNonceTimestamp (unix now) randomFactor in
  match fill with
  | Some b => Ok (MkNonce timestamp b unsafeIncrement)
  | None => Err ErrRandom
  end.

(** ** Encodings *)

Definition BlindBytes (n : Nonce) : result nonce_error (list byte) :=
  Ok (be_bytes 8 (Timestamp n) ++ nonce_bytes n).

Section proto.
Context {T : TimestampLib}.

(** The [protos.Nonce] message. *)
Record PbNonce := MkPbNonce {
  pb_timestamp : option timestamp;
  pb_nonce : option (list byte);
}.

(** The receiver [n] keeps the field the message does not carry. *)
Definition UnmarshalProto (n : Nonce) (pbn : option PbNonce) : result nonce_error Nonce :=
  match pbn with
  | None => Err ErrNilProtobuf
  | Some pbn =>
      match pb_nonce pbn, pb_timestamp pbn with
      | Some b, Some ts =>
          if negb (length b =? NonceLen)%nat then Err (ErrIncorrectLength (length b))
          else Ok (MkNonce (ts_seconds ts) b (UnsafeIncrement n))
      | _, _ => Err ErrIncompleteProtobuf
      end
  end.

Definition MarshalProto (n : Nonce) : PbNonce :=
  MkPbNonce (Some (ts_new (Timestamp n * second))) (Some (nonce_bytes n)).
End proto.

(** ** Theorems *)

Lemma RoundDown_nonneg t :
  0 ≤ t < 2 ^ 63 →
  let r := RoundDownNonceTimestamp t in
  r = t / NonceTimeQuantizationSeconds * NonceTimeQuantizationSeconds ∧ 0 ≤ r ≤ t ∧ t < r + 3600.
Proof.
  intros Ht r. subst r. unfold RoundDownNonceTimestamp. rewrite Z.quot_div_nonneg by (unfold NonceTimeQuantizationSeconds; lia).
  change NonceTimeQuantizationSeconds with 3600.
  pose proof (Z.div_mod t 3600). pose proof (Z.mod_pos_bound t 3600).
  rewrite wrap_s64_small by (unfold in_int64; lia). lia.
Qed.

Lemma RoundDown_quantum t u :
  0 ≤ t → t ≤ u → u < 2 ^ 63 →
  let r := RoundDownNonceTimestamp t in
  (NonceTimeQuantizationSeconds | r) ∧ r ≤ t < r + NonceTimeQuantizationSeconds ∧
  RoundDownNonceTimestamp r = r ∧ r ≤ RoundDownNonceTimestamp u.
Proof.
  intros H0 Htu Hu r. subst r. destruct (RoundDown_nonneg t) as (E & Hr & Hlt); [lia|].
  destruct (RoundDown_nonneg u) as (Eu & _ & _); [lia|].
  rewrite E in Hr, Hlt |- *. rewrite Eu. change NonceTimeQuantizationSeconds with 3600 in *.
  assert (t / 3600 ≤ u / 3600) by (apply Z.div_le_mono; lia).
  split; [by exists (t / 3600)|]. split; [lia|]. split; [|lia].
  destruct (RoundDown_nonneg (t / 3600 * 3600)) as (E' & _ & _); [lia|]. rewrite E'.
  change NonceTimeQuantizationSeconds with 3600. rewrite Z.div_mul by lia. lia.
Qed.

(** Rounding a timestamp of the epoch's era down to the quantum gives the
    largest multiple of an hour that is not after it, is idempotent and monotone. *)
Theorem RoundDownNonceTimestamp_spec t u :
  0 ≤ t → t ≤ u → u < 2 ^ 63 →
  let r := RoundDownNonceTimestamp t in
  (NonceTimeQuantizationSeconds | r) ∧ r ≤ t < r + NonceTimeQuantizationSeconds ∧
  RoundDownNonceTimestamp r = r ∧ r ≤ RoundDownNonceTimestamp u.
Proof. apply RoundDown_quantum. Qed.

Lemma RoundDownNonceTimestamp_spec_witness :
  (NonceTimeQuantizationSeconds | RoundDownNonceTimestamp 7201) ∧
  RoundDownNonceTimestamp 7201 ≤ 7201 < RoundDownNonceTimestamp 7201 + NonceTimeQuantizationSeconds ∧
  RoundDownNonceTimestamp (RoundDownNonceTimestamp 7201) = RoundDownNonceTimestamp 7201 ∧
  RoundDownNonceTimestamp 7201 ≤ RoundDownNonceTimestamp 10800.
Proof. apply (RoundDownNonceTimestamp_spec 7201 10800); lia. Defined.

Lemma unix_add t s : unix (t + second * s) = unix t + s.
Proof. unfold unix, second. rewrite Z.mul_comm, Z.div_add by lia. lia. Qed.

(** The instants at which a quantised nonce is accepted, in closed form. *)
Lemma accept_window n t :
  (NonceTimeQuantizationSeconds | Timestamp n) → 30 ≤ unix t < 2 ^ 62 →
  IsExpiredAt n t = false ↔
  Timestamp n - NonceLifespanSeconds - NonceMaxClockSkewSeconds ≤ unix t ∧
  unix t < Timestamp n + NonceTimeQuantizationSeconds + NonceMaxClockSkewSeconds.
Proof.
  intros [h Hh] Ht. unfold IsExpiredAt.
  replace (t + -1 * second * NonceMaxClockSkewSeconds) with (t + second * -30)
    by (unfold second, NonceMaxClockSkewSeconds; lia).
  rewrite !unix_add. rewrite Hh.
  destruct (RoundDown_nonneg (unix t + -30)) as (E1 & H1 & H1'); [lia|].
  destruct (RoundDown_nonneg (unix t + (NonceLifespanSeconds + NonceMaxClockSkewSeconds)))
    as (E2 & H2 & H2'); [unfold NonceLifespanSeconds, NonceMaxClockSkewSeconds, NonceTimeQuantizationSeconds; lia|].
  rewrite E1, E2 in *. unfold NonceLifespanSeconds, NonceMaxClockSkewSeconds in *.
  change NonceTimeQuantizationSeconds with 3600 in *.
  set (q1 := (unix t + -30) / 3600) in *. set (q2 := (unix t + _) / 3600) in *.
  destruct (Z.ltb_spec (h * 3600) (q1 * 3600)); [split; [done|lia]|].
  rewrite Z.ltb_ge. lia.
Qed.

(** The instants at which the arithmetic on timestamps does not wrap around. *)
Definition clock_ok (t : Z) : Prop := 0 ≤ unix t < 2 ^ 62.

Lemma RoundDown_mono t u :
  - 2 ^ 62 ≤ t → t ≤ u → u ≤ 2 ^ 62 + 2 ^ 60 → RoundDownNonceTimestamp t ≤ RoundDownNonceTimestamp u.
Proof.
  intros Ht Htu Hu. unfold RoundDownNonceTimestamp. change NonceTimeQuantizationSeconds with 3600.
  pose proof (Z.quot_le_mono t u 3600 ltac:(lia) Htu).
  rewrite !wrap_s64_small by (unfold in_int64; Z.to_euclidean_division_equations; lia). lia.
Qed.

(** A nonce that was live and is expired now is expired for good. *)
Lemma expired_for_good n t0 t t' :
  IsExpiredAt n t0 = false → clock_ok t0 → t0 ≤ t → IsExpiredAt n t = true → t ≤ t' → clock_ok t' →
  IsExpiredAt n t' = true.
Proof.
  unfold clock_ok, IsExpiredAt. intros H0 Hok0 Ht0 H Ht Hok'.
  assert (unix t0 ≤ unix t ≤ unix t') as Hu by (unfold unix, second; split; apply Z.div_le_mono; lia).
  replace (-1 * second * NonceMaxClockSkewSeconds) with (second * -30) in * by (unfold second, NonceMaxClockSkewSeconds; lia).
  rewrite !unix_add in *.
  assert (0 < NonceLifespanSeconds + NonceMaxClockSkewSeconds < 2 ^ 60) as Hw by (vm_compute; done).
  set (w := NonceLifespanSeconds + NonceMaxClockSkewSeconds) in *.
  pose proof (RoundDown_mono (unix t + -30) (unix t' + -30) ltac:(lia) ltac:(lia) ltac:(lia)).
  pose proof (RoundDown_mono (unix t0 + w) (unix t + w) ltac:(lia) ltac:(lia) ltac:(lia)).
  repeat case_match; rewrite ?Z.ltb_lt, ?Z.ltb_ge in *; done || lia.
Qed.

Lemma SafeNonceTimestamp_cases t rf :
  0 ≤ t < 2 ^ 62 →
  let r := RoundDownNonceTimestamp t in
  (SafeNonceTimestamp t rf = (r, false)) ∨
  (SafeNonceTimestamp t rf =
     (r + NonceTimeQuantizationSeconds, t - r <? NonceMinimumSafeTimeSeconds)).
Proof.
  intros Ht r. destruct (RoundDown_nonneg t) as (_ & Hr & Hlt); [lia|]. fold r in Hr, Hlt.
  unfold SafeNonceTimestamp. fold r. change NonceTimeQuantizationSeconds with 3600 in *.
  rewrite !wrap_s64_small by (unfold in_int64; lia).
  destruct (f64_ltb _ rf); [by right|by left].
Qed.

Lemma RandomNonce_shape i now fill n :
  RandomNonce i now fill = Ok n →
  ∃ rf b, fill = Some b ∧ nonce_bytes n = b ∧
    (Timestamp n, UnsafeIncrement n) = SafeNonceTimestamp (unix now) rf.
Proof.
  unfold RandomNonce. intros (rf & _ & H)%result_bind_ok. exists rf.
  destruct (SafeNonceTimestamp (unix now) rf). destruct fill as [bs|]; [|done].
  exists bs. injection H as <-. done.
Qed.

(** The life of a nonce, from the instant it is drawn: it is accepted until
    thirty seconds past the end of the current period, and rejected for good
    from thirty seconds past the end of the following one.  The acceptance
    window therefore closes after at most two periods, although the declared
    lifespan of a nonce is 24 hours plus two periods. *)
Theorem RandomNonce_lifetime i now fill n t :
  30 ≤ unix now → unix now ≤ unix t < 2 ^ 62 → RandomNonce i now fill = Ok n →
  (unix t < RoundDownNonceTimestamp (unix now) + NonceTimeQuantizationSeconds + NonceMaxClockSkewSeconds →
     IsExpiredAt n t = false) ∧
  (RoundDownNonceTimestamp (unix now) + 2 * NonceTimeQuantizationSeconds + NonceMaxClockSkewSeconds ≤ unix t →
     IsExpiredAt n t = true).
Proof.
  intros H0 Ht (rf & b & -> & _ & HT)%RandomNonce_shape.
  destruct (RoundDown_quantum (unix now) (unix now)) as (Hd & Hr & _); [lia..|].
  assert (Timestamp n = RoundDownNonceTimestamp (unix now) ∨
    Timestamp n = RoundDownNonceTimestamp (unix now) + NonceTimeQuantizationSeconds) as Hcase.
  { destruct (SafeNonceTimestamp_cases (unix now) rf) as [E|E]; [lia| |]; rewrite E in HT;
      injection HT; auto. }
  assert (HdT : (NonceTimeQuantizationSeconds | Timestamp n)).
  { destruct Hcase as [-> | ->]; [done|]. apply Z.divide_add_r; [done|apply Z.divide_refl]. }
  pose proof (accept_window n t HdT ltac:(lia)) as Hw.
  unfold NonceLifespanSeconds, NonceMaxClockSkewSeconds in *.
  change NonceTimeQuantizationSeconds with 3600 in *. split.
  - intros. apply Hw. lia.
  - intros. destruct (IsExpiredAt n t); [done|]. lia.
Qed.

Lemma RandomNonce_lifetime_witness :
  ∃ n, RandomNonce (Some 0) (5000 * second) (Some (replicate 16 x00)) = Ok n ∧
    IsExpiredAt n (7229 * second) = false ∧ IsExpiredAt n (10830 * second) = true.
Proof.
  eexists. split; [vm_compute; reflexivity|].
  split; eapply (RandomNonce_lifetime (Some 0) (5000 * second) (Some (replicate 16 x00)));
    vm_compute; first [reflexivity | discriminate | split; [discriminate|reflexivity]].
Defined.

(** The message a credit signature covers identifies the nonce: two nonces
    with 64-bit timestamps and the same blind bytes have the same timestamp and
    the same random bytes. *)
Theorem nonce_BlindBytes_inj n m :
  in_int64 (Timestamp n) → in_int64 (Timestamp m) → BlindBytes n = BlindBytes m →
  Timestamp n = Timestamp m ∧ nonce_bytes n = nonce_bytes m.
Proof.
  unfold BlindBytes, in_int64. intros Hn Hm H.
  assert (be_bytes 8 (Timestamp n) ++ nonce_bytes n = be_bytes 8 (Timestamp m) ++ nonce_bytes m)
    as [H' ->]%app_inj_1 by congruence; [|by rewrite !length_be_bytes].
  clear H. rename H' into H. split; [|done].
  apply be_bytes_inj in H. change (256 ^ Z.of_nat 8) with (2 ^ 64) in H.
  destruct (Z_lt_dec (Timestamp n) 0), (Z_lt_dec (Timestamp m) 0);
    Z.to_euclidean_division_equations; lia.
Qed.

Lemma nonce_BlindBytes_inj_witness :
  Timestamp (MkNonce 7 [x01] true) = Timestamp (MkNonce 7 [x01] false) ∧
  nonce_bytes (MkNonce 7 [x01] true) = nonce_bytes (MkNonce 7 [x01] false).
Proof. apply nonce_BlindBytes_inj; [unfold in_int64; simpl; lia..|reflexivity]. Defined.

Lemma nonce_proto_roundtrip `{TL : !TimestampLaws T} r n :
  length (nonce_bytes n) = NonceLen →
  UnmarshalProto r (Some (MarshalProto n)) =
    Ok (MkNonce (Timestamp n) (nonce_bytes n) (UnsafeIncrement r)).
Proof.
  intros Hl. unfold UnmarshalProto, MarshalProto. simpl. rewrite Hl, ts_seconds_new. simpl.
  do 2 f_equal. unfold unix, second. by rewrite Z.div_mul.
Qed.

Lemma UnmarshalProto_length `{T : TimestampLib} r p n :
  UnmarshalProto r p = Ok n → length (nonce_bytes n) = NonceLen.
Proof.
  unfold UnmarshalProto. intros H. destruct p as [p|]; [|done].
  destruct (pb_nonce p) as [b|], (pb_timestamp p); try done.
  destruct (Nat.eqb_spec (length b) NonceLen); [|done]. injection H as <-. done.
Qed.
