(* ===== verification/AnonErrors.v ===== *)
(** Package [anonpay] ([errors.go]) and the error chains Go builds from it with
    [fmt.Errorf("...: %w")] and [errors.Join]: constructors for the errors the
    package declares, for wrapping and for joining, and the chain walks
    [errors.Is] and [errors.As]. *)

From S2P Require Import Prelude GoLib.
From S2P Require Currency Nonce.

Inductive err :=
| ErrNonceConsumed
| ErrNonceLocked
| InsufficientBalanceError (Balance : Z)
| CreditsNotAvailableError (Credits : Z) (Amount : Currency.Value)
| VerificationError (Err : err)
| InputError (Err : err)
| ErrFinished                       (* processor.go: transaction has finished *)
| ContextCanceled                   (* context.Canceled *)
| CurrencyError (e : Currency.error)
| NonceError (e : Nonce.nonce_error)
| ErrNew (msg : string)             (* errors.New, or Errorf without %w *)
| Wrapped (msg : string) (e : err)  (* fmt.Errorf("msg: %w", e) *)
| Joined (e1 e2 : err).             (* errors.Join of two errors *)

#[global] Instance nonce_error_eq_dec : EqDecision Nonce.nonce_error.
Proof. solve_decision. Defined.
#[global] Instance err_eq_dec : EqDecision err.
Proof. intros x y. unfold Decision. decide equality; exact (decide (_ = _)). Defined.

Definition KnownBalance (Balance : Z) : bool := 0 <=? Balance.

(** [Unwrap() error] and [Unwrap() []error]: the next errors of the chain. *)
Definition unwrap (e : err) : list err :=
  match e with
  | VerificationError e | InputError e | Wrapped _ e => [e]
  | Joined e1 e2 => [e1; e2]
  | _ => []
  end.

(** A walk of the chain looking for an error that satisfies [p]. *)
Fixpoint chain_has (p : err → bool) (e : err) : bool :=
  p e || match e with
         | VerificationError e | InputError e | Wrapped _ e => chain_has p e
         | Joined e1 e2 => chain_has p e1 || chain_has p e2
         | _ => false
         end.

Definition errors_Is (e target : err) : bool := chain_has (λ x, bool_decide (x = target)) e.
Definition as_InputError (e : err) : bool :=
  chain_has (λ x, match x with InputError _ => true | _ => false end) e.
Definition as_InsufficientBalanceError (e : err) : bool :=
  chain_has (λ x, match x with InsufficientBalanceError _ => true | _ => false end) e.
Definition as_CreditsNotAvailableError (e : err) : bool :=
  chain_has (λ x, match x with CreditsNotAvailableError _ _ => true | _ => false end) e.

(** [errors.Join]: [nil] operands are dropped. *)
Definition errors_Join (a b : option err) : option err :=
  match a, b with
  | Some a, Some b => Some (Joined a b)
  | Some a, None => Some a
  | None, b => b
  end.

Lemma chain_has_unwrap p e e' : e' ∈ unwrap e → chain_has p e' = true → chain_has p e = true.
Proof.
  destruct e; simpl; intros Hin%list_elem_of_In Hp; simpl in Hin;
    repeat (destruct Hin as [->|Hin]); try done; by rewrite ?Hp, ?orb_true_r.
Qed.
