(* ===== verification/Credit.v ===== *)
(** Package [anonpay] ([credit.go], [unblinded_credit.go], the [AnyCredit]
    interface of [anonpay.go]): credits and their protobuf form. *)

From S2P Require Import Prelude GoLib AnonErrors.
From S2P Require Currency Nonce.

Record BlindedCredit := MkBlinded {
  b_value : Currency.Value;
  b_nonce : Nonce.Nonce;
  b_signature : list byte;
}.

Record UnblindedCredit := MkUnblinded {
  u_value : Currency.Value;
  u_nonce : Nonce.Nonce;
  u_signature : list byte;
}.

#[global] Instance BlindedCredit_eq_dec : EqDecision BlindedCredit.
Proof. solve_decision. Defined.
#[global] Instance UnblindedCredit_eq_dec : EqDecision UnblindedCredit.
Proof. solve_decision. Defined.

(** The two types cannot be converted into each other; code that accepts both
    goes through the interface. *)
Inductive AnyCredit :=
| Blinded (c : BlindedCredit)
| Unblinded (c : UnblindedCredit).

#[global] Instance AnyCredit_eq_dec : EqDecision AnyCredit.
Proof. solve_decision. Defined.

Definition credit_Value (c : AnyCredit) : Currency.Value :=
  match c with Blinded c => b_value c | Unblinded c => u_value c end.
Definition credit_Nonce (c : AnyCredit) : Nonce.Nonce :=
  match c with Blinded c => b_nonce c | Unblinded c => u_nonce c end.
Definition credit_Signature (c : AnyCredit) : list byte :=
  match c with Blinded c => b_signature c | Unblinded c => u_signature c end.

Section proto.
Context {T : TimestampLib}.

(** The [protos.Credit] message. *)
Record PbCredit := MkPbCredit {
  pb_value : option Currency.PbCurrency;
  pb_nonce : option Nonce.PbNonce;
  pb_signature : option (list byte);
}.

Definition currency_err {A} (r : result Currency.error A) : result err A := wrap_err CurrencyError r.
Definition nonce_err {A} (r : result Nonce.nonce_error A) : result err A := wrap_err NonceError r.

Definition BlindedCredit_MarshalProto (c : BlindedCredit) : result err PbCredit :=
  pv ← currency_err (Currency.MarshalProto (b_value c));
  Ok (MkPbCredit (Some pv) (Some (Nonce.MarshalProto (b_nonce c))) (Some (b_signature c))).

Definition BlindedCredit_UnmarshalProto (credit : option PbCredit) : result err BlindedCredit :=
  match credit with
  | None => Err (ErrNew "nil protobuf")
  | Some credit =>
      match pb_signature credit with
      | None => Err (ErrNew "missing signature")
      | Some sig =>
          if (length sig =? 0)%nat then Err (ErrNew "zero-len signature")
          else
            val ← wrap_err (Wrapped "failed to unmarshal value")
                    (currency_err (Currency.UnmarshalProto (pb_value credit)));
            nonce ← wrap_err (Wrapped "failed to unmarshal nonce")
                      (nonce_err (Nonce.UnmarshalProto Nonce.zero_nonce (pb_nonce credit)));
            Ok (MkBlinded val nonce sig)
      end
  end.

Definition UnblindedCredit_MarshalProto (c : UnblindedCredit) : result err PbCredit :=
  pv ← currency_err (Currency.MarshalProto (u_value c));
  Ok (MkPbCredit (Some pv) (Some (Nonce.MarshalProto (u_nonce c))) (Some (u_signature c))).

Definition UnblindedCredit_UnmarshalProto (credit : option PbCredit) : result err UnblindedCredit :=
  match credit with
  | None => Err (ErrNew "nil protobuf")
  | Some credit =>
      match pb_signature credit with
      | None => Err (ErrNew "missing signature")
      | Some sig =>
          if (length sig =? 0)%nat then Err (ErrNew "zero-len signature")
          else
            val ← wrap_err (Wrapped "failed to unmarshal value")
                    (currency_err (Currency.UnmarshalProto (pb_value credit)));
            nonce ← wrap_err (Wrapped "failed to unmarshal nonce")
                      (nonce_err (Nonce.UnmarshalProto Nonce.zero_nonce (pb_nonce credit)));
            Ok (MkUnblinded val nonce sig)
      end
  end.

(** What a credit must satisfy to survive the wire unchanged. *)
Definition wire_ok (v : Currency.Value) (n : Nonce.Nonce) (sig : list byte) : Prop :=
  Currency.value_wf v ∧ (Currency.shift v = false ∨ Currency.value v < 256) ∧
  length (Nonce.nonce_bytes n) = Nonce.NonceLen ∧ Nonce.UnsafeIncrement n = false ∧ sig ≠ [].

Context {TL : TimestampLaws T}.

Lemma currency_wire v :
  Currency.value_wf v → (Currency.shift v = false ∨ Currency.value v < 256) →
  ∃ pv, Currency.MarshalProto v = Ok pv ∧ Currency.UnmarshalProto (Some pv) = Ok v.
Proof.
  intros Hwf Hs. unfold Currency.MarshalProto. rewrite Currency.BlindBytes_eq by done.
  eexists. split; [done|]. unfold Currency.UnmarshalProto.
  cbn [mbind option_bind Currency.pb_currency]. rewrite Currency.Parse_blind_image by done.
  destruct v as [[] n]; simpl in *; [|done]. by rewrite (proj2 (Z.ltb_lt n 256)) by naive_solver.
Qed.

Lemma nonce_wire n :
  length (Nonce.nonce_bytes n) = Nonce.NonceLen → Nonce.UnsafeIncrement n = false →
  Nonce.UnmarshalProto Nonce.zero_nonce (Some (Nonce.MarshalProto n)) = Ok n.
Proof. intros Hl Hu. rewrite Nonce.nonce_proto_roundtrip by done. destruct n. simpl in *. by subst. Qed.
End proto.

(** A credit survives the wire: for credits with a well-formed value whose
    shift bit is encodable, a 16-byte nonce that is safe to use and a signature,
    unmarshalling the marshalled message gives the same credit, for blinded and
    unblinded credits alike. *)
Lemma credit_proto_roundtrip `{TL : !TimestampLaws T} v n sig :
  wire_ok v n sig →
  (p ← BlindedCredit_MarshalProto (MkBlinded v n sig); BlindedCredit_UnmarshalProto (Some p))
    = Ok (MkBlinded v n sig) ∧
  (p ← UnblindedCredit_MarshalProto (MkUnblinded v n sig); UnblindedCredit_UnmarshalProto (Some p))
    = Ok (MkUnblinded v n sig).
Proof.
  intros (Hwf & Hs & Hl & Hu & Hsig).
  destruct (currency_wire v Hwf Hs) as (pv & Hm & Hun).
  assert ((length sig =? 0)%nat = false) as Hne by (by destruct sig).
  unfold BlindedCredit_MarshalProto, UnblindedCredit_MarshalProto, currency_err.
  cbn [b_value u_value b_nonce u_nonce b_signature u_signature]. rewrite Hm.
  cbn [wrap_err mbind result_bind]. unfold BlindedCredit_UnmarshalProto, UnblindedCredit_UnmarshalProto.
  cbn [pb_value pb_nonce pb_signature]. unfold currency_err, nonce_err.
  by rewrite Hne, Hun, (nonce_wire n Hl Hu).
Qed.
