(* ===== verification/CreditText.v ===== *)
(** The binary and text forms of values, nonces and credits ([MarshalBinary],
    [MarshalText] and their inverses in [currency/value.go], [nonce.go],
    [credit.go] and [unblinded_credit.go]): the protobuf message, and its base64
    text as it travels in HTTP headers. *)

From S2P Require Import Prelude Bytes Base64 GoLib AnonErrors Credit.
From S2P Require Currency Nonce.

Definition proto_err {A} (r : result goerror A) : result err A :=
  wrap_err (λ _, ErrNew "proto: invalid message") r.

Definition decode_text (p : string) : result err (list byte) :=
  match DecodeString StdEncoding p with None => Err (ErrNew "illegal base64 data") | Some b => Ok b end.

Section text.
Context {T : TimestampLib}.
Context {WV : ProtoWire Currency.PbCurrency} {WN : ProtoWire Nonce.PbNonce} {WC : ProtoWire PbCredit}.

(** ** [currency/value.go] *)

Definition Value_MarshalBinary (c : Currency.Value) : result err (list byte) :=
  b ← currency_err (Currency.BlindBytes c);
  proto_err (marshal_message (Currency.MkPbCurrency (Some b))).
Definition Value_UnmarshalBinary (b : list byte) : result err Currency.Value :=
  pbc ← proto_err (unmarshal_message b);
  currency_err (Currency.UnmarshalProto (Some pbc)).
Definition Value_MarshalText (c : Currency.Value) : result err string :=
  b ← Value_MarshalBinary c; Ok (EncodeToString StdEncoding b).
Definition Value_UnmarshalText (p : string) : result err Currency.Value :=
  b ← decode_text p; Value_UnmarshalBinary b.

(** ** [nonce.go] *)

Definition Nonce_MarshalBinary (n : Nonce.Nonce) : result err (list byte) :=
  proto_err (marshal_message (Nonce.MarshalProto n)).
Definition Nonce_UnmarshalBinary (n : Nonce.Nonce) (b : list byte) : result err Nonce.Nonce :=
  pbn ← proto_err (unmarshal_message b);
  nonce_err (Nonce.UnmarshalProto n (Some pbn)).

(** ** [credit.go] and [unblinded_credit.go] *)

Definition BlindedCredit_MarshalBinary (c : BlindedCredit) : result err (list byte) :=
  pbc ← BlindedCredit_MarshalProto c; proto_err (marshal_message pbc).
Definition BlindedCredit_UnmarshalBinary (b : list byte) : result err BlindedCredit :=
  pbc ← proto_err (unmarshal_message b); BlindedCredit_UnmarshalProto (Some pbc).
Definition BlindedCredit_MarshalText (c : BlindedCredit) : result err string :=
  b ← BlindedCredit_MarshalBinary c; Ok (EncodeToString StdEncoding b).
Definition BlindedCredit_UnmarshalText (p : string) : result err BlindedCredit :=
  b ← decode_text p; BlindedCredit_UnmarshalBinary b.

Definition UnblindedCredit_MarshalBinary (c : UnblindedCredit) : result err (list byte) :=
  pbc ← UnblindedCredit_MarshalProto c; proto_err (marshal_message pbc).
Definition UnblindedCredit_UnmarshalBinary (b : list byte) : result err UnblindedCredit :=
  pbc ← proto_err (unmarshal_message b); UnblindedCredit_UnmarshalProto (Some pbc).
Definition UnblindedCredit_MarshalText (c : UnblindedCredit) : result err string :=
  b ← UnblindedCredit_MarshalBinary c; Ok (EncodeToString StdEncoding b).
Definition UnblindedCredit_UnmarshalText (p : string) : result err UnblindedCredit :=
  b ← decode_text p; UnblindedCredit_UnmarshalBinary b.

(** Decoding the text of marshalled bytes gives the bytes. *)
Lemma decode_text_encode b : decode_text (EncodeToString StdEncoding b) = Ok b.
Proof. unfold decode_text. by rewrite Decode_Encode by by left. Qed.

Lemma text_ok {A} (m : result err (list byte)) (f : list byte → result err A) text :
  (b ← m; Ok (EncodeToString StdEncoding b)) = Ok text → ∃ b, m = Ok b ∧ (x ← decode_text text; f x) = f b.
Proof. intros (b & Hb & [= <-])%result_bind_ok. exists b. by rewrite decode_text_encode. Qed.

Lemma proto_wire_ok {M} {W : ProtoWire M} {WL : ProtoWireLaws M} (m : M) b :
  proto_err (marshal_message m) = Ok b → proto_err (unmarshal_message b) = Ok m.
Proof. intros H%wrap_err_ok. by apply wrap_err_ok, unmarshal_marshalled. Qed.
End text.

(** Values and credits survive their text form, the base64 of the protobuf
    message in which a credit travels in an HTTP header: a text produced from a
    well-formed value or credit decodes to exactly that value or credit, and
    producing the text of a well-formed credit fails only if the protobuf
    library refuses the message. *)
Theorem credit_text_roundtrip {T : TimestampLib} {TL : TimestampLaws T}
    {WV : ProtoWire Currency.PbCurrency} {WC : ProtoWire PbCredit}
    {WVL : ProtoWireLaws Currency.PbCurrency} {WCL : ProtoWireLaws PbCredit} v n sig :
  wire_ok v n sig →
  (∀ text, Value_MarshalText v = Ok text → Value_UnmarshalText text = Ok v) ∧
  (∀ text, BlindedCredit_MarshalText (MkBlinded v n sig) = Ok text →
     BlindedCredit_UnmarshalText text = Ok (MkBlinded v n sig)) ∧
  (∀ text, UnblindedCredit_MarshalText (MkUnblinded v n sig) = Ok text →
     UnblindedCredit_UnmarshalText text = Ok (MkUnblinded v n sig)) ∧
  (∀ e, BlindedCredit_MarshalText (MkBlinded v n sig) = Err e ∨ UnblindedCredit_MarshalText (MkUnblinded v n sig) = Err e →
     e = ErrNew "proto: invalid message").
Proof.
  intros Hok. destruct (credit_proto_roundtrip v n sig Hok) as [Hb Hu]. split_and!.
  - unfold Value_MarshalText, Value_UnmarshalText, Value_MarshalBinary, Value_UnmarshalBinary.
    intros text (b & Hm & ->)%(text_ok _ (λ b, pbc ← proto_err (unmarshal_message b); currency_err (Currency.UnmarshalProto (Some pbc)))).
    apply result_bind_ok in Hm as (bb & Hbb%wrap_err_ok & Hm%proto_wire_ok). rewrite Hm. cbn [mbind result_bind].
    destruct Hok as (Hwf & Hs & _). destruct (currency_wire v Hwf Hs) as (pv & Hpv & Hun).
    unfold Currency.MarshalProto in Hpv. rewrite Hbb in Hpv. injection Hpv as <-. unfold currency_err. by rewrite Hun.
  - unfold BlindedCredit_MarshalText, BlindedCredit_UnmarshalText.
    intros text (b & Hm & ->)%(text_ok _ BlindedCredit_UnmarshalBinary).
    apply result_bind_ok in Hm as (pb & Hpb & Hm%proto_wire_ok). rewrite Hpb in Hb.
    unfold BlindedCredit_UnmarshalBinary. by rewrite Hm.
  - unfold UnblindedCredit_MarshalText, UnblindedCredit_UnmarshalText.
    intros text (b & Hm & ->)%(text_ok _ UnblindedCredit_UnmarshalBinary).
    apply result_bind_ok in Hm as (pb & Hpb & Hm%proto_wire_ok). rewrite Hpb in Hu.
    unfold UnblindedCredit_UnmarshalBinary. by rewrite Hm.
  - unfold BlindedCredit_MarshalText, UnblindedCredit_MarshalText, BlindedCredit_MarshalBinary, UnblindedCredit_MarshalBinary.
    destruct (BlindedCredit_MarshalProto _) as [pb|] eqn:Eb; [|done].
    destruct (UnblindedCredit_MarshalProto _) as [pu|] eqn:Eu; [|done]. cbn [mbind result_bind].
    unfold proto_err, marshal_message. intros e [H|H]; repeat case_match; simpl in *; by simplify_eq.
Qed.

(** Wire formats for witnesses: values carry a presence byte, credits of one
    fixed value and nonce carry their signature. *)
Definition demo_value : Currency.Value := Currency.MkValue false 300.
Definition demo_nonce : Nonce.Nonce := Nonce.MkNonce 7200 (replicate 16 x07) false.
Definition demo_value_wire : ProtoWire Currency.PbCurrency := {|
  proto_marshal m := match Currency.pb_currency m with None => Some [] | Some b => Some (x01 :: b) end;
  proto_unmarshal b := match b with [] => Some (Currency.MkPbCurrency None) | _ :: b => Some (Currency.MkPbCurrency (Some b)) end;
|}.
Lemma demo_value_wire_laws : @ProtoWireLaws _ demo_value_wire.
Proof. constructor. by intros [[]] b [= <-]. Qed.

Definition demo_pb_value (v : Currency.Value) : option Currency.PbCurrency :=
  match Currency.BlindBytes v with Ok b => Some (Currency.MkPbCurrency (Some b)) | Err _ => None end.
Definition demo_pb_nonce (n : Nonce.Nonce) : option (@Nonce.PbNonce unix_timestamp) :=
  Some (@Nonce.MarshalProto unix_timestamp n).
#[local] Instance PbCurrency_eq_dec : EqDecision Currency.PbCurrency.
Proof. solve_decision. Defined.
#[local] Instance PbNonce_eq_dec : EqDecision (@Nonce.PbNonce unix_timestamp).
Proof. intros [t b] [t' b']. change (option Z) in t, t'. unfold Decision. decide equality; [solve_decision|]. apply (option_eq_dec (A:=Z)). Defined.
Definition fixed_credit_wire (v : Currency.Value) (n : Nonce.Nonce) : ProtoWire (@PbCredit unix_timestamp) := {|
  proto_marshal m :=
    if bool_decide (pb_value m = demo_pb_value v) && bool_decide (pb_nonce m = demo_pb_nonce n) then pb_signature m else None;
  proto_unmarshal b := Some (MkPbCredit (demo_pb_value v) (demo_pb_nonce n) (Some b));
|}.
Lemma fixed_credit_wire_laws v n : @ProtoWireLaws _ (fixed_credit_wire v n).
Proof.
  constructor. intros [v' n' [s|]] b; simpl; repeat case_bool_decide; simpl; try done. intros [= <-]. by subst.
Qed.

Lemma credit_text_roundtrip_witness :
  ∃ text, @BlindedCredit_MarshalText unix_timestamp (fixed_credit_wire demo_value demo_nonce) (MkBlinded demo_value demo_nonce [x0a; x0b]) = Ok text ∧
    @BlindedCredit_UnmarshalText unix_timestamp (fixed_credit_wire demo_value demo_nonce) text = Ok (MkBlinded demo_value demo_nonce [x0a; x0b]).
Proof.
  exists "Cgs=".
  assert (@BlindedCredit_MarshalText unix_timestamp (fixed_credit_wire demo_value demo_nonce) (MkBlinded demo_value demo_nonce [x0a; x0b]) = Ok "Cgs=") as H
    by (vm_compute; reflexivity).
  split; [exact H|].
  apply (@credit_text_roundtrip unix_timestamp unix_timestamp_laws demo_value_wire (fixed_credit_wire demo_value demo_nonce)
    demo_value_wire_laws (fixed_credit_wire_laws demo_value demo_nonce) demo_value demo_nonce [x0a; x0b]); [|exact H].
  unfold wire_ok, Currency.value_wf. simpl. split_and!; auto with lia.
Defined.
