(* ===== verification/Gossip.v ===== *)
(** Package [app/gossip]: splitting messages into chunks that fit a gossip packet
    ([broadcaster.go]) and putting them together again ([receiver.go]), over a
    network that loses, repeats and reorders packets. *)

From S2P Require Import Prelude Bytes GoLib.

(** ** Chunks *)

Definition versionLen : nat := 1.
Definition idLen : nat := 16.
Definition indexLen : nat := 4.
Definition finalLen : nat := 1.
Definition headerLen : nat := versionLen + idLen + indexLen + finalLen.
Definition version : byte := x01.
Definition finalChunk : byte := x01.

Record chunk := MkChunk { msgID : list byte; index : Z; final : byte; data : list byte }.

(** [writeHeader] and the data behind it. *)
Definition writeHeader (id : list byte) (currentIndex : Z) (final : byte) : list byte :=
  [version] ++ id ++ be_bytes indexLen currentIndex ++ [final].

Definition parseChunk (raw : list byte) : result string chunk :=
  if (length raw <=? headerLen)%nat then Err "expected a chunk of more than 22 bytes"
  else if negb (bool_decide (raw !! 0%nat = Some version)) then Err "can only parse chunks of version 1"
  else
    let idEnd := (idLen + versionLen)%nat in
    let indexEnd := (idEnd + indexLen)%nat in
    Ok (MkChunk (take idLen (drop versionLen raw)) (be_val (take indexLen (drop idEnd raw)))
      (default x00 (raw !! indexEnd)) (drop headerLen raw)).

(** ** [broadcaster.go]

    [drawn] counts what was read of the random source, whose [n]-th read is
    [idFunc n]. *)
Record broadcaster := MkBroadcaster {
  backlog : list (list byte);
  currentMsgID : list byte;
  currentIndex : Z;
  currentMsg : list byte;
  drawn : nat;
}.
Definition newBroadcaster : broadcaster := MkBroadcaster [] (replicate idLen x00) 0 [] 0.

Definition message (msg : list byte) (c : broadcaster) : broadcaster :=
  MkBroadcaster (backlog c ++ [msg]) (currentMsgID c) (currentIndex c) (currentMsg c) (drawn c).

Definition messageChunk (maxLen : Z) (c : broadcaster) : list byte * broadcaster :=
  let '(n, final) :=
    if Z.of_nat (length (currentMsg c)) <=? maxLen then (length (currentMsg c), finalChunk) else (Z.to_nat maxLen, x00) in
  (writeHeader (currentMsgID c) (currentIndex c) final ++ take n (currentMsg c),
   MkBroadcaster (backlog c) (currentMsgID c) (wrap_u 32 (currentIndex c + 1)) (drop n (currentMsg c)) (drawn c)).

Section broadcaster.
Context (idFunc : nat → result string (list byte)).

Definition nextMessage (c : broadcaster) : result string unit * broadcaster :=
  match idFunc (drawn c), backlog c with
  | Ok id, msg :: rest => (Ok tt, MkBroadcaster rest id 0 msg (S (drawn c)))
  | Ok id, [] => (Ok tt, MkBroadcaster [] id 0 [] (S (drawn c)))
  | Err e, _ => (Err ("failed to generate ID: " +:+ e), MkBroadcaster (backlog c) (currentMsgID c) (currentIndex c) (currentMsg c) (S (drawn c)))
  end.

Fixpoint chunks_loop (fuel : nat) (overhead limit total : Z) (c : broadcaster) : option (list (list byte) * broadcaster) :=
  match fuel with
  | O => None
  | S fuel =>
      if negb (total <? limit) then Some ([], c)
      else
        let emit c :=
          let maxB := limit - total - overhead - Z.of_nat headerLen in
          if maxB <=? 0 then Some ([], c)
          else
            let '(chunk, c) := messageChunk maxB c in
            '(chunks, c) ← chunks_loop fuel overhead limit (total + (overhead + Z.of_nat (length chunk))) c;
            Some (chunk :: chunks, c) in
        match currentMsg c with
        | [] =>
            match backlog c with
            | [] => Some ([], c)
            | _ => match nextMessage c with
                   | (Err _, c) => Some ([], c)
                   | (Ok _, c) => emit c
                   end
            end
        | _ => emit c
        end
  end.
Definition chunks (overhead limit : Z) (c : broadcaster) : option (list (list byte) * broadcaster) :=
  chunks_loop (S (Z.to_nat limit)) overhead limit 0 c.

(** What the application and the gossip library ask of the broadcaster, and the
    chunks it hands out. *)
Inductive call := Message (msg : list byte) | Chunks (overhead limit : Z).
Fixpoint broadcast (calls : list call) (c : broadcaster) : option (list (list byte) * broadcaster) :=
  match calls with
  | [] => Some ([], c)
  | Message msg :: calls => broadcast calls (message msg c)
  | Chunks overhead limit :: calls =>
      '(out, c) ← chunks overhead limit c;
      '(rest, c) ← broadcast calls c;
      Some (out ++ rest, c)
  end.
Definition messages_of (calls : list call) : list (list byte) := omap (λ c, match c with Message m => Some m | _ => None end) calls.
End broadcaster.

(** ** [receiver.go] *)

Record chunkedMsg := MkChunked { chunks_of : gmap Z (list byte); finalIndex : option Z; msgLen : Z; createdAt : Z }.
Abbreviation receiver := (gmap (list byte) chunkedMsg).

(** The loops from [i] to [final]: a missing chunk ends them, so that one round
    more than there are chunks is enough. *)
Fixpoint all_present (fuel : nat) (m : gmap Z (list byte)) (i final : Z) : bool :=
  match fuel with
  | O => false
  | S fuel => if final <? i then true else if m !! i is Some _ then all_present fuel m (i + 1) final else false
  end.
Fixpoint join_chunks (fuel : nat) (m : gmap Z (list byte)) (i final : Z) : option (list byte) :=
  match fuel with
  | O => None
  | S fuel => if final <? i then Some [] else data ← m !! i; rest ← join_chunks fuel m (i + 1) final; Some (data ++ rest)
  end.
Definition isComplete (m : chunkedMsg) : bool :=
  match finalIndex m with None => false | Some f => all_present (S (size (chunks_of m))) (chunks_of m) 0 f end.
Definition msg_bytes (m : chunkedMsg) : list byte :=
  match finalIndex m with None => [] | Some f => default [] (join_chunks (S (size (chunks_of m))) (chunks_of m) 0 f) end.

Definition receiveChunk (now : Z) (b : list byte) (r : receiver) : result string (list byte) * receiver :=
  match parseChunk b with
  | Err e => (Err e, r)
  | Ok c =>
      let msg := default (MkChunked ∅ None 0 now) (r !! msgID c) in
      if isComplete msg then (Ok [], r)
      else
        let msg := MkChunked (<[index c := data c]> (chunks_of msg))
          (if bool_decide (final c = finalChunk) then Some (index c) else finalIndex msg)
          (msgLen msg + Z.of_nat (length (data c))) (createdAt msg) in
        (Ok (if isComplete msg then msg_bytes msg else []), <[msgID c := msg]> r)
  end.

Definition cleanup (now maxAge : Z) (r : receiver) : receiver :=
  filter (λ kv, negb (before (createdAt kv.2) (now - maxAge)) = true) r.

(** [delegate.NotifyMsg]: what its handler is given for each packet. *)
Definition NotifyMsg (has_handler : bool) (now : Z) (msg : list byte) (r : receiver) : list (list byte) * receiver :=
  if negb has_handler then ([], r)
  else match receiveChunk now msg r with
       | (Ok [], r) | (Err _, r) => ([], r)
       | (Ok full, r) => ([full], r)
       end.
Fixpoint receive_all (packets : list (Z * list byte)) (r : receiver) : list (list byte) * receiver :=
  match packets with
  | [] => ([], r)
  | (now, b) :: packets =>
      let '(out, r) := NotifyMsg true now b r in
      let '(rest, r) := receive_all packets r in
      (out ++ rest, r)
  end.

(** ** Parsing chunks *)

Definition encode (id : list byte) (i : Z) (f : byte) (d : list byte) : list byte := writeHeader id i f ++ d.

Lemma length_encode id i f d : length id = 16%nat → length (encode id i f d) = (22 + length d)%nat.
Proof. intros Hid. unfold encode, writeHeader. rewrite !length_app, length_be_bytes, Hid. cbn [length]. unfold indexLen. lia. Qed.

Lemma parse_encode id i f d : length id = 16%nat → 0 ≤ i < 2 ^ 32 → d ≠ [] → parseChunk (encode id i f d) = Ok (MkChunk id i f d).
Proof.
  intros Hid Hi Hd. unfold parseChunk. rewrite (length_encode _ _ _ _ Hid). change headerLen with 22%nat.
  destruct (Nat.leb_spec (22 + length d) 22) as [Hl|_]; [destruct d; [done|cbn in Hl; lia]|].
  assert (encode id i f d = version :: (id ++ (be_bytes 4 i ++ f :: d))) as ->
    by (unfold encode, writeHeader; cbn; by rewrite <- !app_assoc).
  change (idLen + versionLen)%nat with 17%nat. change (17 + indexLen)%nat with 21%nat.
  rewrite bool_decide_true by done. cbn [negb]. unfold idLen, indexLen, versionLen, headerLen. cbn [drop].
  change ((version :: id ++ be_bytes 4 i ++ f :: d) !! 21%nat) with ((id ++ be_bytes 4 i ++ f :: d) !! 20%nat).
  rewrite drop_0, take_app_length', drop_app_length' by done. rewrite take_app_length' by (by rewrite length_be_bytes).
  rewrite lookup_app_r, Hid by lia. rewrite lookup_app_r, length_be_bytes by (rewrite length_be_bytes; lia).
  rewrite be_val_bytes, Z.mod_small by (cbn; lia). change (drop (1 + 16 + 4 + 1) (version :: id ++ be_bytes 4 i ++ f :: d))
    with (drop 21 (id ++ be_bytes 4 i ++ f :: d)). rewrite drop_app_ge by lia. rewrite Hid, drop_app_ge, length_be_bytes by (rewrite length_be_bytes; lia).
  done.
Qed.

(** ** A message in parts

    The parts a message was split into, with its id; [f_closed] once the last
    part was sent. *)
Record frag := MkFrag { f_id : list byte; f_parts : list (list byte); f_closed : bool }.
Definition frag_chunk (f : frag) (i : nat) (d : list byte) : list byte :=
  encode (f_id f) (Z.of_nat i) (if f_closed f && (S i =? length (f_parts f))%nat then finalChunk else x00) d.
Definition frag_chunks (f : frag) : list (list byte) := imap (frag_chunk f) (f_parts f).
Definition frag_message (f : frag) : list byte := mjoin (f_parts f).
(** Sent to the end, and all of it among the packets [rs]. *)
Definition frag_arrived (rs : list (list byte)) (f : frag) : Prop := f_closed f = true ∧ Forall (λ c, c ∈ rs) (frag_chunks f).
#[global] Instance frag_arrived_dec rs f : Decision (frag_arrived rs f).
Proof. unfold frag_arrived. apply _. Defined.

Record frag_wf (f : frag) : Prop := {
  wf_id : length (f_id f) = 16%nat;
  wf_parts : Forall (λ d, d ≠ []) (f_parts f);
  wf_len : Z.of_nat (length (f_parts f)) < 2 ^ 32;
  wf_closed : f_closed f = true → f_parts f ≠ [];
}.

Lemma frag_chunks_elem f c : c ∈ frag_chunks f ↔ ∃ i d, f_parts f !! i = Some d ∧ c = frag_chunk f i d.
Proof.
  unfold frag_chunks. rewrite list_elem_of_lookup. setoid_rewrite list_lookup_imap. split.
  - intros [i Hi]. destruct (f_parts f !! i) as [d|] eqn:E; [|done]. injection Hi as <-. eauto.
  - intros (i & d & E & ->). exists i. by rewrite E.
Qed.

Lemma parse_frag f i d : frag_wf f → f_parts f !! i = Some d → parseChunk (frag_chunk f i d) =
  Ok (MkChunk (f_id f) (Z.of_nat i) (if f_closed f && (S i =? length (f_parts f))%nat then finalChunk else x00) d).
Proof.
  intros [Hid Hp Hl _] Hi. pose proof (lookup_lt_Some _ _ _ Hi). apply parse_encode; [done|lia|]. by apply (Forall_lookup_1 _ _ _ _ Hp Hi).
Qed.

Lemma frag_chunk_inj f f' i i' d d' : frag_wf f → frag_wf f' → f_parts f !! i = Some d → f_parts f' !! i' = Some d' →
  frag_chunk f i d = frag_chunk f' i' d' → f_id f = f_id f' ∧ i = i'.
Proof.
  intros Hf Hf' Hi Hi' E. pose proof (parse_frag f i d Hf Hi) as H1. rewrite E, (parse_frag f' i' d' Hf' Hi') in H1.
  injection H1 as -> ? _ _. split; [done|lia].
Qed.

(** ** The receiver's view of a message *)

Lemma all_present_spec fuel m i f : (Z.to_nat (f + 1 - i) < fuel)%nat →
  all_present fuel m i f = true ↔ ∀ j, i ≤ j ≤ f → is_Some (m !! j).
Proof.
  induction fuel as [|fuel IH] in i |- *; intros Hf; [lia|]. cbn [all_present]. destruct (Z.ltb_spec f i).
  - split; [intros _ j Hj; lia|done].
  - destruct (m !! i) as [d|] eqn:E.
    + rewrite IH by lia. split; intros Hj j ?; [|apply Hj; lia]. destruct (decide (j = i)) as [->|]; [eauto|]. apply Hj. lia.
    + split; [done|]. intros Hj. destruct (Hj i) as [? [=]%(eq_trans (eq_sym E))]. lia.
Qed.

Lemma all_present_true fuel m i f : all_present fuel m i f = true → ∀ j, i ≤ j ≤ f → is_Some (m !! j).
Proof.
  induction fuel as [|fuel IH] in i |- *; [done|]. cbn [all_present]. destruct (Z.ltb_spec f i); [intros _ j Hj; lia|].
  destruct (m !! i) as [d|] eqn:E; [|done]. intros Ha j Hj. destruct (decide (j = i)) as [->|]; [eauto|]. apply (IH _ Ha). lia.
Qed.

(** One round more than there are chunks is enough. *)
Lemma present_enough (m : gmap Z (list byte)) f : (∀ j, 0 ≤ j ≤ f → is_Some (m !! j)) → (Z.to_nat (f + 1) < S (size m))%nat.
Proof.
  intros Hj. assert (list_to_set (seqZ 0 (f + 1)) ⊆ dom m) as Hs.
  { intros j Hin%elem_of_list_to_set%elem_of_seqZ. apply elem_of_dom, Hj. lia. }
  apply subseteq_size in Hs. rewrite size_list_to_set, length_seqZ, size_dom in Hs by apply NoDup_seqZ. lia.
Qed.

Lemma isComplete_spec m : isComplete m = true ↔ ∃ f, finalIndex m = Some f ∧ ∀ j, 0 ≤ j ≤ f → is_Some (chunks_of m !! j).
Proof.
  unfold isComplete. destruct (finalIndex m) as [f|]; [|by split; [|intros (? & [=] & _)]]. split.
  - intros Ha. exists f. split; [done|]. by apply (all_present_true _ _ _ _ Ha).
  - intros (? & [= <-] & Hj). apply all_present_spec; [|done]. rewrite Z.sub_0_r. by apply present_enough.
Qed.

Lemma join_chunks_parts fuel m ps i : (length ps - i < fuel)%nat → (∀ k d, ps !! k = Some d → m !! Z.of_nat k = Some d) →
  join_chunks fuel m (Z.of_nat i) (Z.of_nat (length ps) - 1) = Some (mjoin (drop i ps)).
Proof.
  induction fuel as [|fuel IH] in i |- *; intros Hf Hm; [lia|]. cbn [join_chunks]. destruct (Z.ltb_spec (Z.of_nat (length ps) - 1) (Z.of_nat i)).
  - by rewrite drop_ge by lia.
  - destruct (lookup_lt_is_Some_2 ps i) as [d Hd]; [lia|]. rewrite (Hm _ _ Hd). cbn [mbind option_bind].
    replace (Z.of_nat i + 1) with (Z.of_nat (S i)) by lia. rewrite IH by (done || lia). cbn. by rewrite (drop_S _ _ _ Hd).
Qed.

Record seen_in (f : frag) (rs : list (list byte)) (m : chunkedMsg) : Prop := {
  seen_parts i d : f_parts f !! i = Some d → chunks_of m !! Z.of_nat i = if decide (frag_chunk f i d ∈ rs) then Some d else None;
  seen_final : finalIndex m = Some (Z.of_nat (length (f_parts f)) - 1) ∧ f_closed f = true ∧
      (∀ d, f_parts f !! (length (f_parts f) - 1)%nat = Some d → frag_chunk f (length (f_parts f) - 1) d ∈ rs) ∨
    finalIndex m = None ∧ ¬ (f_closed f = true ∧ ∃ d, f_parts f !! (length (f_parts f) - 1)%nat = Some d ∧ frag_chunk f (length (f_parts f) - 1) d ∈ rs);
}.

Lemma seen_complete f rs m : frag_wf f → seen_in f rs m →
  (isComplete m = true ↔ frag_arrived rs f) ∧ (isComplete m = true → msg_bytes m = frag_message f).
Proof.
  intros [_ _ _ Hcl] [Hp Hfin]. rewrite isComplete_spec. destruct Hfin as [(Hf & Hc & Hlast)|(Hf & Hno)].
  - specialize (Hcl Hc). assert (length (f_parts f) ≠ 0%nat) as Hn by (by intros ?%length_zero_iff_nil).
    split.
    + rewrite Hf. split.
      * intros (? & [= <-] & Hj). split; [done|]. apply Forall_forall. intros c (i & d & Hi & ->)%frag_chunks_elem.
        pose proof (lookup_lt_Some _ _ _ Hi). destruct (Hj (Z.of_nat i)) as [x Hx]; [lia|]. rewrite (Hp _ _ Hi) in Hx. by case_decide.
      * intros [_ Hall]. eexists. split; [done|]. intros j Hj. destruct (lookup_lt_is_Some_2 (f_parts f) (Z.to_nat j)) as [d Hd]; [lia|].
        exists d. specialize (Hp _ _ Hd). rewrite Z2Nat.id in Hp by lia. rewrite Hp, decide_True; [done|].
        rewrite Forall_forall in Hall. apply Hall, frag_chunks_elem. eauto.
    + intros (x & Hx & Hj). rewrite Hf in Hx. injection Hx as <-. unfold msg_bytes. rewrite Hf.
      rewrite (join_chunks_parts _ _ (f_parts f) 0); [done| |].
      * pose proof (present_enough _ _ Hj). lia.
      * intros k d Hk. pose proof (lookup_lt_Some _ _ _ Hk). destruct (Hj (Z.of_nat k)) as [x Hx]; [lia|]. rewrite (Hp _ _ Hk) in *. by case_decide.
  - split; [|intros (? & Hx & _); congruence]. rewrite Hf. split; [by intros (? & [=] & _)|]. intros [Hc Hall]. destruct Hno. split; [done|].
    specialize (Hcl Hc). assert (length (f_parts f) ≠ 0%nat) as Hn by (by intros ?%length_zero_iff_nil).
    destruct (lookup_lt_is_Some_2 (f_parts f) (length (f_parts f) - 1)) as [d Hd]; [lia|]. exists d. split; [done|].
    rewrite Forall_forall in Hall. apply Hall, frag_chunks_elem. eauto.
Qed.

Definition stored (r : receiver) (id : list byte) : chunkedMsg := default (MkChunked ∅ None 0 0) (r !! id).

(** When a message was first seen makes no difference. *)
Lemma seen_in_created f rs ps fi n n' t t' : seen_in f rs (MkChunked ps fi n t) → seen_in f rs (MkChunked ps fi n' t').
Proof. intros [H1 H2]. by split. Qed.

Lemma frag_message_nonempty f : frag_wf f → f_closed f = true → frag_message f ≠ [].
Proof.
  intros [_ Hp _ Hc] Hcl. specialize (Hc Hcl). unfold frag_message. destruct (f_parts f) as [|d ds]; [done|].
  apply Forall_cons in Hp as [Hd _]. cbn. by destruct d.
Qed.

Lemma frag_chunk_elem f rs i d i' d' : frag_wf f → f_parts f !! i = Some d → f_parts f !! i' = Some d' →
  frag_chunk f i d ∈ rs ++ [frag_chunk f i' d'] ↔ frag_chunk f i d ∈ rs ∨ i = i'.
Proof.
  intros Hf Hi Hi'. rewrite elem_of_app, list_elem_of_singleton. split; (intros [?|E]; [by left|right]).
  - by apply (frag_chunk_inj f f i i' d d').
  - subst. congruence.
Qed.

Lemma seen_in_insert f rs i d m n : frag_wf f → f_parts f !! i = Some d → seen_in f rs m →
  seen_in f (rs ++ [frag_chunk f i d]) (MkChunked (<[Z.of_nat i := d]> (chunks_of m))
    (if bool_decide ((if f_closed f && (S i =? length (f_parts f))%nat then finalChunk else x00) = finalChunk) then Some (Z.of_nat i) else finalIndex m)
    n (createdAt m)).
Proof.
  intros Hf Hi [Hp Hfin]. pose proof (lookup_lt_Some _ _ _ Hi) as Hlt. split; cbn [chunks_of finalIndex].
  - intros j e Hj. destruct (decide (j = i)) as [->|Hne].
    + rewrite lookup_insert_eq. rewrite decide_True; [congruence|]. apply (frag_chunk_elem f rs i e i d); [done..|by right].
    + rewrite lookup_insert_ne by lia. rewrite (Hp _ _ Hj). pose proof (frag_chunk_elem f rs j e i d Hf Hj Hi). repeat case_decide; tauto || done.
  - destruct (f_closed f) eqn:Ec; cbn [andb]; [|right; rewrite bool_decide_false by done; split; [by destruct Hfin as [(_ & [=] & _)|[? _]]|by intros []]].
    destruct (Nat.eqb_spec (S i) (length (f_parts f))) as [He|He].
    + rewrite bool_decide_true by done. left. split; [f_equal; lia|]. split; [done|]. intros e He'.
      replace (length (f_parts f) - 1)%nat with i in * by lia. apply (frag_chunk_elem f rs i e i d); [done..|by right].
    + rewrite bool_decide_false by done. destruct Hfin as [(? & ? & Hl)|[Hn Hno]]; [left|right]; (split; [done|]).
      * split; [done|]. intros e He'. apply elem_of_app. left. by apply Hl.
      * intros [_ (e & He' & Hin)]. apply (frag_chunk_elem f rs _ e i d Hf He' Hi) in Hin as [Hin|Hin]; [apply Hno; eauto|lia].
Qed.

Lemma receive_frag now f rs r i d out r' : frag_wf f → f_parts f !! i = Some d → seen_in f rs (stored r (f_id f)) →
  NotifyMsg true now (frag_chunk f i d) r = (out, r') →
  seen_in f (rs ++ [frag_chunk f i d]) (stored r' (f_id f)) ∧ (∀ id, id ≠ f_id f → r' !! id = r !! id) ∧
  out = (if decide (frag_arrived rs f) then [] else if decide (frag_arrived (rs ++ [frag_chunk f i d]) f) then [frag_message f] else []).
Proof.
  intros Hf Hi Hs. unfold NotifyMsg, receiveChunk. cbn [negb]. rewrite (parse_frag f i d Hf Hi). cbn [msgID index final data].
  set (m := default (MkChunked ∅ None 0 now) (r !! f_id f)).
  assert (seen_in f rs m) as Hm by (unfold m, stored in *; destruct (r !! f_id f); [done|by eapply seen_in_created]).
  destruct (seen_complete f rs m Hf Hm) as [Hc _]. destruct (isComplete m) eqn:Em.
  - intros [= <- <-]. pose proof (proj1 Hc eq_refl) as Ha. rewrite decide_True by done. split; [|done].
    assert (frag_chunk f i d ∈ rs) as Hin by (destruct Ha as [_ Ha]; rewrite Forall_forall in Ha; apply Ha, frag_chunks_elem; eauto).
    destruct Hs as [Hp Hfin]. split.
    + intros j e Hj. rewrite (Hp _ _ Hj). pose proof (frag_chunk_elem f rs j e i d Hf Hj Hi) as Hk.
      assert (j = i → frag_chunk f j e ∈ rs) by (intros ->; by simplify_eq). repeat case_decide; tauto || done.
    + destruct Hfin as [(? & ? & Hl)|[Hn Hno]]; [left|right]; (split; [done|]).
      * split; [done|]. intros e He'. apply elem_of_app. left. by apply Hl.
      * intros [? (e & He' & Hin')]. apply (frag_chunk_elem f rs _ e i d Hf He' Hi) in Hin' as [Hin'|Hin']; apply Hno; (split; [done|]); [eauto|].
        exists e. split; [done|]. rewrite Hin' in *. by simplify_eq.
  - pose proof (seen_in_insert f rs i d m (msgLen m + Z.of_nat (length d)) Hf Hi Hm) as Hm'.
    destruct (seen_complete f _ _ Hf Hm') as [Hc' Hb']. rewrite (decide_False (P := frag_arrived rs f)) by (by intros ?%Hc).
    destruct (isComplete _) eqn:Em' in |- *.
    + rewrite Hb' by done. pose proof (proj1 Hc' Em') as Ha. rewrite decide_True by done.
      pose proof (frag_message_nonempty f Hf (proj1 Ha)). destruct (frag_message f) eqn:E; [done|]. intros [= <- <-].
      unfold stored. rewrite lookup_insert_eq. split; [done|]. split; [|done]. intros. by rewrite lookup_insert_ne.
    + rewrite decide_False by (intros Ha; apply Hc' in Ha; congruence). intros [= <- <-].
      unfold stored. rewrite lookup_insert_eq. split; [done|]. split; [|done]. intros. by rewrite lookup_insert_ne.
Qed.

(** ** Everything received *)

Lemma NoDup_key {A B} (key : A → B) (l : list A) x y : NoDup (key <$> l) → x ∈ l → y ∈ l → key x = key y → x = y.
Proof.
  intros Hn [i Hi]%list_elem_of_lookup [j Hj]%list_elem_of_lookup E.
  assert (i = j) as <- by (apply (NoDup_lookup _ i j (key x) Hn); rewrite list_lookup_fmap, ?Hi, ?Hj; cbn; congruence). congruence.
Qed.

Section frags.
Context (frags : list frag) (Hwf : Forall frag_wf frags) (Hids : NoDup (f_id <$> frags)).

Definition all_chunks : list (list byte) := mjoin (frag_chunks <$> frags).
Definition delivered (rs : list (list byte)) : list (list byte) := frag_message <$> filter (frag_arrived rs) frags.

Lemma all_chunks_elem c : c ∈ all_chunks ↔ ∃ f i d, f ∈ frags ∧ f_parts f !! i = Some d ∧ c = frag_chunk f i d.
Proof.
  unfold all_chunks. rewrite list_elem_of_join. setoid_rewrite list_elem_of_fmap. split.
  - intros (l & Hc & f & -> & Hf). apply frag_chunks_elem in Hc as (i & d & ? & ?). eauto 6.
  - intros (f & i & d & Hf & Hi & ->). exists (frag_chunks f). split; [apply frag_chunks_elem; eauto|eauto].
Qed.

Lemma other_arrived f g rs i d : frag_wf f → frag_wf g → f_id g ≠ f_id f → f_parts f !! i = Some d →
  frag_arrived (rs ++ [frag_chunk f i d]) g ↔ frag_arrived rs g.
Proof.
  intros Hf Hg Hne Hi. unfold frag_arrived. rewrite !Forall_forall. split; intros [Hc Ha]; (split; [done|]); intros c Hin; specialize (Ha c Hin).
  - apply elem_of_app in Ha as [?| ->%list_elem_of_singleton]; [done|]. apply frag_chunks_elem in Hin as (j & e & Hj & E).
    destruct (frag_chunk_inj f g i j d e Hf Hg Hi Hj E) as [? _]. congruence.
  - apply elem_of_app. by left.
Qed.

Lemma delivered_step f rs i d : f ∈ frags → f_parts f !! i = Some d →
  delivered (rs ++ [frag_chunk f i d]) ≡ₚ
  (if decide (frag_arrived rs f) then [] else if decide (frag_arrived (rs ++ [frag_chunk f i d]) f) then [frag_message f] else []) ++ delivered rs.
Proof.
  intros (l1 & l2 & E)%list_elem_of_split Hi. assert (Forall frag_wf (l1 ++ f :: l2)) as H1 by by rewrite <- E.
  assert (NoDup (f_id <$> l1 ++ f :: l2)) as H2 by by rewrite <- E. unfold delivered. rewrite E.
  rewrite fmap_app, fmap_cons in H2. apply NoDup_app in H2 as (_ & Hd1 & [Hd2 _]%NoDup_cons).
  apply Forall_app in H1 as [Hw1 [Hf Hw2]%Forall_cons]. rewrite Forall_forall in Hw1, Hw2.
  assert (∀ l : list frag, (∀ g, g ∈ l → frag_wf g ∧ f_id g ≠ f_id f) → filter (frag_arrived (rs ++ [frag_chunk f i d])) l = filter (frag_arrived rs) l) as Hl.
  { intros l Hg. induction l as [|g l IH]; [done|]. rewrite !filter_cons, IH by (intros; apply Hg; by right).
    destruct (Hg g) as [Hgw Hne]; [by left|]. pose proof (other_arrived f g rs i d Hf Hgw Hne Hi). repeat case_decide; tauto || done. }
  rewrite !filter_app, !filter_cons. rewrite (Hl l1), (Hl l2).
  - assert (frag_arrived rs f → frag_arrived (rs ++ [frag_chunk f i d]) f) as Hmono.
    { intros [Hc Ha]. split; [done|]. eapply Forall_impl; [exact Ha|]. intros c Hin. apply elem_of_app. by left. }
    repeat case_decide; try tauto; rewrite !fmap_app; cbn; try done. by rewrite Permutation_middle.
  - intros g Hg. split; [by apply Hw2|]. intros Eid. apply Hd2. rewrite <- Eid. by apply list_elem_of_fmap_2.
  - intros g Hg. split; [by apply Hw1|]. intros Eid. destruct (Hd1 (f_id g)); [by apply list_elem_of_fmap_2|rewrite Eid; by left].
Qed.

Lemma receive_all_frags packets rs r out r' : Forall (λ p, p.2 ∈ all_chunks) packets →
  (∀ f, f ∈ frags → seen_in f rs (stored r (f_id f))) → receive_all packets r = (out, r') →
  out ++ delivered rs ≡ₚ delivered (rs ++ packets.*2).
Proof.
  induction packets as [|[now c] packets IH] in rs, r, out |- *; cbn [receive_all fmap list_fmap snd]; intros Hp Hs Hr.
  - injection Hr as <- <-. by rewrite app_nil_r.
  - apply Forall_cons in Hp as [(f & i & d & Hf & Hi & E)%all_chunks_elem Hp]. cbn [snd] in E. subst c.
    destruct (NotifyMsg true now (frag_chunk f i d) r) as [o r1] eqn:En. destruct (receive_all packets r1) as [rest r2] eqn:Er. injection Hr as <- <-.
    pose proof Hwf as Hall. rewrite Forall_forall in Hall. destruct (receive_frag _ _ _ _ _ _ _ _ (Hall f Hf) Hi (Hs f Hf) En) as (Hs1 & Hoth & Ho).
    rewrite (cons_middle _ rs), app_assoc. rewrite <- (IH (rs ++ [frag_chunk f i d]) r1 rest Hp); [|clear IH|done].
    + rewrite (delivered_step f rs i d Hf Hi), <- Ho. rewrite !app_assoc. f_equiv. apply Permutation_app_comm.
    + intros g Hg. destruct (decide (f_id g = f_id f)) as [Eid|Hne].
      * assert (g = f) as -> by (by apply (NoDup_key f_id frags)). done.
      * unfold stored. rewrite (Hoth _ Hne). specialize (Hs g Hg). unfold stored in Hs. destruct Hs as [Hp1 Hp2].
        assert (∀ j e, f_parts g !! j = Some e → frag_chunk g j e ∈ rs ++ [frag_chunk f i d] ↔ frag_chunk g j e ∈ rs) as Hin.
        { intros j e Hj. rewrite elem_of_app, list_elem_of_singleton. split; [intros [?|E]; [done|]|by left].
          destruct (frag_chunk_inj g f j i e d (Hall g Hg) (Hall f Hf) Hj Hi E). congruence. }
        split.
        -- intros j e Hj. rewrite (Hp1 _ _ Hj). pose proof (Hin _ _ Hj). repeat case_decide; tauto || done.
        -- destruct Hp2 as [(? & ? & Hl)|[Hn Hno]]; [left|right]; (split; [done|]).
           ++ split; [done|]. intros e He. apply Hin; [done|]. by apply Hl.
           ++ intros [? (e & He & Hin')]. apply Hno. split; [done|]. exists e. split; [done|]. by apply Hin.
Qed.

Lemma nothing_seen f : frag_wf f → seen_in f [] (stored ∅ (f_id f)).
Proof.
  intros Hf. unfold stored. rewrite lookup_empty. split; cbn.
  - intros i d Hi. rewrite decide_False by apply not_elem_of_nil. by rewrite lookup_empty.
  - right. split; [done|]. by intros [_ (d & _ & ?%not_elem_of_nil)].
Qed.

Lemma delivered_nil : delivered [] = [].
Proof.
  unfold delivered. rewrite filter_none; [done|]. apply Forall_forall. pose proof (proj1 (Forall_forall _ _) Hwf) as Hw. intros f Hf [Hc Ha].
  pose proof (wf_closed f (Hw f Hf) Hc). destruct (f_parts f) as [|d ds] eqn:E; [done|].
  rewrite Forall_forall in Ha. destruct (not_elem_of_nil (frag_chunk f 0 d)). apply Ha, frag_chunks_elem. exists 0%nat, d. by rewrite E.
Qed.

(** What is handed on are the messages that arrived, each once. *)
Lemma receive_all_delivered packets out r' : Forall (λ p, p.2 ∈ all_chunks) packets → receive_all packets ∅ = (out, r') →
  out ≡ₚ delivered packets.*2.
Proof.
  intros Hp Hr. rewrite <- (app_nil_r out), <- delivered_nil. rewrite (receive_all_frags packets [] ∅ out r' Hp); [done| |done].
  intros f Hf. apply nothing_seen. rewrite Forall_forall in Hwf. by apply Hwf.
Qed.
End frags.

(** ** What the broadcaster sends *)

Lemma frag_chunks_snoc id ds d fin : frag_chunks (MkFrag id (ds ++ [d]) fin) =
  frag_chunks (MkFrag id ds false) ++ [encode id (Z.of_nat (length ds)) (if fin then finalChunk else x00) d].
Proof.
  unfold frag_chunks. cbn [f_parts]. rewrite imap_app. f_equal.
  - apply imap_ext. intros i e Hi. pose proof (lookup_lt_Some _ _ _ Hi). unfold frag_chunk. cbn [f_id f_closed f_parts andb].
    rewrite length_app. cbn [length]. destruct (Nat.eqb_spec (S i) (length ds + 1)); [lia|]. by rewrite andb_false_r.
  - cbn [imap]. unfold frag_chunk. cbn [f_id f_closed f_parts]. rewrite length_app. cbn [length]. rewrite Nat.add_0_r.
    destruct (Nat.eqb_spec (S (length ds)) (length ds + 1)); [|lia]. by rewrite andb_true_r.
Qed.

Lemma join_one {A} (l : list A) : mjoin [l] = l.
Proof. cbn. apply app_nil_r. Qed.
Lemma length_parts (ds : list (list byte)) : Forall (λ d, d ≠ []) ds → (length ds ≤ length (mjoin ds))%nat.
Proof. induction 1 as [|d ds Hd _ IH]; [done|]. change (mjoin (d :: ds)) with (d ++ mjoin ds). rewrite length_app. destruct d; [done|]. cbn [length]. lia. Qed.

Section sender.
Context (idFunc : nat → result string (list byte)).
Context (id_len : ∀ n id, idFunc n = Ok id → length id = 16%nat) (id_inj : ∀ n n' id, idFunc n = Ok id → idFunc n' = Ok id → n = n').

Definition good_message (m : list byte) : Prop := m ≠ [] ∧ Z.of_nat (length m) < 2 ^ 32.

(** The message that is being sent, with its parts so far. *)
Definition open_frag (c : broadcaster) (o : option (list (list byte))) : list frag :=
  match o with Some ds => [MkFrag (currentMsgID c) ds false] | None => [] end.
Definition open_message (c : broadcaster) (o : option (list (list byte))) : list (list byte) :=
  match o with Some ds => [mjoin ds ++ currentMsg c] | None => [] end.

Record binv (submitted sent : list (list byte)) (c : broadcaster) (fs : list frag) (o : option (list (list byte))) : Prop := {
  binv_sent : sent = all_chunks (fs ++ open_frag c o);
  binv_messages : submitted = (frag_message <$> fs) ++ open_message c o ++ backlog c;
  binv_good : Forall good_message submitted;
  binv_closed : Forall (λ f, f_closed f = true) fs;
  binv_wf : Forall frag_wf (fs ++ open_frag c o);
  binv_ids : NoDup (f_id <$> fs ++ open_frag c o);
  binv_drawn f : f ∈ fs ++ open_frag c o → ∃ k, (k < drawn c)%nat ∧ idFunc k = Ok (f_id f);
  binv_open : match o with
    | None => currentMsg c = []
    | Some ds => currentMsg c ≠ [] ∧ currentIndex c = Z.of_nat (length ds)
    end;
}.

Lemma new_binv : binv [] [] newBroadcaster [] None.
Proof. split; try done; try constructor. by intros f ?%not_elem_of_nil. Qed.

Lemma message_binv submitted sent c fs o m : good_message m → binv submitted sent c fs o → binv (submitted ++ [m]) sent (message m c) fs o.
Proof.
  intros Hm [H1 H2 H3 H4 H5 H6 H7 H8]. split; try done.
  - rewrite H2. unfold open_message. destruct o; cbn; by rewrite <- ?app_assoc.
  - by apply Forall_app; split; [|constructor].
Qed.

Lemma next_binv submitted sent c fs r c' : backlog c ≠ [] → binv submitted sent c fs None → nextMessage idFunc c = (r, c') →
  binv submitted sent c' fs (if r is Ok _ then Some [] else None).
Proof.
  intros Hb [H1 H2 H3 H4 H5 H6 H7 H8] Hn. unfold nextMessage in Hn. unfold open_frag, open_message in *. rewrite ?app_nil_r in *. cbn [app] in *.
  destruct (idFunc (drawn c)) as [id|e] eqn:Ei.
  - destruct (backlog c) as [|m rest] eqn:Eb; [done|]. injection Hn as <- <-.
    assert (good_message m) as [Hm0 Hm1] by (rewrite H2 in H3; by apply Forall_app in H3 as [_ [? _]%Forall_cons]).
    split; cbn [open_frag open_message backlog currentMsgID currentIndex currentMsg drawn]; try done.
    + rewrite H1. unfold all_chunks. rewrite fmap_app, join_app. cbn. by rewrite app_nil_r.
    + apply Forall_app. split; [done|]. constructor; [|done]. split; try done. by apply (id_len _ _ Ei).
    + rewrite fmap_app. apply NoDup_app. split; [done|]. split; [|apply NoDup_singleton]. intros x Hx Hin.
      apply list_elem_of_singleton in Hin as ->. apply list_elem_of_fmap in Hx as (f & Ef & Hf). destruct (H7 f Hf) as (k & Hk & Ek).
      cbn in Ef. rewrite <- Ef in Ek. pose proof (id_inj _ _ _ Ek Ei). lia.
    + intros f [Hf|Hf]%elem_of_app.
      * destruct (H7 f Hf) as (k & ? & ?). exists k. split; [lia|done].
      * apply list_elem_of_singleton in Hf as ->. exists (drawn c). split; [lia|done].
  - injection Hn as <- <-. split; cbn [open_frag open_message backlog currentMsg drawn]; rewrite ?app_nil_r; try done.
    intros f Hf. destruct (H7 f Hf) as (k & ? & ?). exists k. split; [lia|done].
Qed.

Lemma chunk_binv submitted sent c fs ds maxLen chunk c' : 0 < maxLen → binv submitted sent c fs (Some ds) → messageChunk maxLen c = (chunk, c') →
  (∃ fs' o', binv submitted (sent ++ [chunk]) c' fs' o') ∧ 22 < Z.of_nat (length chunk) ≤ 22 + maxLen.
Proof.
  intros Hmax [H1 H2 H3 H4 H5 H6 H7 [H8 H9]] Hc. unfold messageChunk in Hc. cbn [open_frag open_message] in *.
  apply Forall_app in H5 as [Hfs [Hof _]%Forall_cons]. destruct Hof as [Hid Hparts Hlen _]. cbn [f_id f_parts] in *.
  assert (Z.of_nat (length (mjoin ds ++ currentMsg c)) < 2 ^ 32) as Hml.
  { rewrite H2, !Forall_app in H3. destruct H3 as (_ & [[_ ?] _]%Forall_cons & _). done. }
  rewrite length_app in Hml. pose proof (length_parts ds Hparts).
  assert (length (currentMsg c) ≠ 0%nat) as Hcur by (by intros ?%length_zero_iff_nil).
  set (n := if Z.of_nat (length (currentMsg c)) <=? maxLen then length (currentMsg c) else Z.to_nat maxLen).
  set (fin := Z.of_nat (length (currentMsg c)) <=? maxLen).
  assert (chunk = encode (currentMsgID c) (Z.of_nat (length ds)) (if fin then finalChunk else x00) (take n (currentMsg c)) ∧
    c' = MkBroadcaster (backlog c) (currentMsgID c) (Z.of_nat (length (ds ++ [take n (currentMsg c)]))) (drop n (currentMsg c)) (drawn c)) as [-> ->].
  { rewrite length_app. cbn [length]. rewrite H9 in Hc. rewrite wrap_u_small in Hc by lia. unfold n, fin.
    destruct (Z.leb_spec (Z.of_nat (length (currentMsg c))) maxLen); injection Hc as <- <-; split; try done; f_equal; lia. }
  assert (0 < n ≤ length (currentMsg c))%nat as Hn by (unfold n; destruct (Z.leb_spec (Z.of_nat (length (currentMsg c))) maxLen); lia).
  assert (take n (currentMsg c) ≠ []) as Hd by (intros E; apply (f_equal length) in E; rewrite length_take in E; cbn in E; lia).
  assert (frag_wf (MkFrag (currentMsgID c) (ds ++ [take n (currentMsg c)]) fin)) as Hwf.
  { split; cbn [f_id f_parts f_closed]; [done| | |intros _; by destruct ds].
    - apply Forall_app. split; [done|]. by constructor.
    - rewrite length_app. cbn [length]. lia. }
  split; [|rewrite length_encode, length_take by done; unfold n; destruct (Z.leb_spec (Z.of_nat (length (currentMsg c))) maxLen); lia].
  assert (sent ++ [encode (currentMsgID c) (Z.of_nat (length ds)) (if fin then finalChunk else x00) (take n (currentMsg c))] =
    all_chunks (fs ++ [MkFrag (currentMsgID c) (ds ++ [take n (currentMsg c)]) fin])) as Hsent.
  { rewrite H1. unfold all_chunks. rewrite !fmap_app, !join_app, !list_fmap_singleton, !join_one, frag_chunks_snoc. by rewrite app_assoc. }
  assert (∃ k, (k < drawn c)%nat ∧ idFunc k = Ok (currentMsgID c)) as Hdrawn
    by (apply (H7 (MkFrag (currentMsgID c) ds false)), elem_of_app; right; by left).
  rewrite Hsent. rewrite fmap_app in H6. destruct fin eqn:Ef.
  - assert (n = length (currentMsg c)) as En by (unfold n; unfold fin in Ef; by rewrite Ef).
    exists (fs ++ [MkFrag (currentMsgID c) (ds ++ [take n (currentMsg c)]) true]), None. rewrite En in *.
    split; cbn [open_frag open_message backlog currentMsgID currentMsg drawn]; rewrite ?app_nil_r, ?fmap_app; try done.
    + rewrite H2. rewrite take_ge by lia. unfold frag_message at 3. cbn. rewrite join_app. cbn. by rewrite app_nil_r, <- !app_assoc.
    + apply Forall_app. split; [done|]. by constructor.
    + apply Forall_app. split; [done|]. by constructor.
    + intros f [Hf|Hf]%elem_of_app; [apply H7, elem_of_app; by left|]. apply list_elem_of_singleton in Hf as ->. apply Hdrawn.
    + apply drop_ge. lia.
  - exists fs, (Some (ds ++ [take n (currentMsg c)])).
    split; cbn [open_frag open_message backlog currentMsgID currentIndex currentMsg drawn]; rewrite ?fmap_app; try done.
    + by rewrite H2, join_app, join_one, <- (app_assoc (mjoin ds)), take_drop.
    + apply Forall_app. split; [done|]. by constructor.
    + intros f [Hf|Hf]%elem_of_app; [apply H7, elem_of_app; by left|]. apply list_elem_of_singleton in Hf as ->. apply Hdrawn.
    + split; [|done]. intros E. apply (f_equal length) in E. rewrite length_drop in E. cbn in E. unfold n, fin in *.
      destruct (Z.leb_spec (Z.of_nat (length (currentMsg c))) maxLen); [done|lia].
Qed.

Lemma chunks_loop_binv fuel overhead limit total submitted sent c fs o out c' :
  binv submitted sent c fs o → chunks_loop idFunc fuel overhead limit total c = Some (out, c') →
  ∃ fs' o', binv submitted (sent ++ out) c' fs' o'.
Proof.
  induction fuel as [|fuel IH] in total, sent, c, fs, o, out |- *; [done|]. intros Hb. cbn [chunks_loop].
  destruct (total <? limit); cbn [negb]; [|intros [= <- <-]; rewrite app_nil_r; eauto].
  assert (∀ c1 fs1 ds out, binv submitted sent c1 fs1 (Some ds) →
    (let maxB := limit - total - overhead - Z.of_nat headerLen in
     if maxB <=? 0 then Some ([], c1)
     else let '(chunk, c) := messageChunk maxB c1 in
       '(chunks, c) ← chunks_loop idFunc fuel overhead limit (total + (overhead + Z.of_nat (length chunk))) c; Some (chunk :: chunks, c)) = Some (out, c') →
    ∃ fs' o', binv submitted (sent ++ out) c' fs' o') as Hemit.
  { intros c1 fs1 ds out1 Hb1. cbv zeta. set (maxB := limit - total - overhead - Z.of_nat headerLen). destruct (Z.leb_spec maxB 0) as [|HmaxB];
      [intros [= <- <-]; rewrite app_nil_r; eauto|].
    destruct (messageChunk _ c1) as [chunk c2] eqn:Ec. destruct (chunk_binv _ _ _ _ _ _ _ _ HmaxB Hb1 Ec) as [(fs2 & o2 & Hb2) _].
    intros ([rest c3] & Hl & [= <- <-])%bind_Some. rewrite cons_middle, app_assoc. by apply (IH _ _ _ _ _ _ Hb2 Hl). }
  destruct (currentMsg c) as [|x xs] eqn:Ecur.
  - destruct (backlog c) eqn:Eb; [intros [= <- <-]; rewrite app_nil_r; eauto|].
    assert (o = None) as -> by (destruct o; [by destruct (binv_open _ _ _ _ _ Hb)|done]).
    destruct (nextMessage idFunc c) as [[[]|e] c1] eqn:En.
    + pose proof (next_binv _ _ _ _ _ _ ltac:(by rewrite Eb) Hb En) as Hb1. by apply (Hemit _ _ _ _ Hb1).
    + intros [= <- <-]. rewrite app_nil_r. pose proof (next_binv _ _ _ _ _ _ ltac:(by rewrite Eb) Hb En). eauto.
  - destruct o as [ds|]; [by apply (Hemit _ _ _ _ Hb)|]. by rewrite (binv_open _ _ _ _ _ Hb) in Ecur.
Qed.

Lemma broadcast_binv calls submitted sent c fs o out c' : Forall good_message (messages_of calls) →
  binv submitted sent c fs o → broadcast idFunc calls c = Some (out, c') →
  ∃ fs' o', binv (submitted ++ messages_of calls) (sent ++ out) c' fs' o'.
Proof.
  induction calls as [|[m|overhead limit] calls IH] in submitted, sent, c, fs, o, out |- *; cbn [broadcast]; intros Hg Hb.
  - intros [= <- <-]. rewrite !app_nil_r. eauto.
  - apply Forall_cons in Hg as [Hm Hg]. intros Hc. pose proof (message_binv _ _ _ _ _ _ Hm Hb) as Hb1.
    destruct (IH _ _ _ _ _ _ Hg Hb1 Hc) as (fs' & o' & Hb'). exists fs', o'. rewrite <- app_assoc in Hb'. done.
  - intros ([out1 c1] & H1 & ([rest c2] & H2 & [= <- <-])%bind_Some)%bind_Some.
    destruct (chunks_loop_binv _ _ _ _ _ _ _ _ _ _ _ Hb H1) as (fs1 & o1 & Hb1). rewrite app_assoc.
    by apply (IH _ _ _ _ _ _ Hg Hb1 H2).
Qed.
End sender.

(** C21. Gossip delivers what arrives: for messages that are not empty and shorter
    than 2^32 bytes, under ids that are distinct, the packets a broadcaster
    hands out are the chunks of a prefix of its messages, and of the next one
    in part; and whatever the network does to them, losing, repeating and
    reordering, the receiver hands on exactly the messages all of whose chunks
    arrived, each of them once and unchanged. When the broadcaster has nothing
    left and every packet arrived, these are all the messages. *)
Theorem gossip_delivers idFunc calls sent c packets out r' :
  (∀ n id, idFunc n = Ok id → length id = 16%nat) → (∀ n n' id, idFunc n = Ok id → idFunc n' = Ok id → n = n') →
  Forall good_message (messages_of calls) → broadcast idFunc calls newBroadcaster = Some (sent, c) →
  Forall (λ p, p.2 ∈ sent) packets → receive_all packets ∅ = (out, r') →
  ∃ frags, sent = all_chunks frags ∧ out ≡ₚ delivered frags packets.*2 ∧
    (frag_message <$> filter (λ f, f_closed f = true) frags) `prefix_of` messages_of calls ∧
    (backlog c = [] → currentMsg c = [] → (∀ b, b ∈ sent → b ∈ packets.*2) → out ≡ₚ messages_of calls).
Proof.
  intros Hlen Hinj Hg Hb Hp Hr. destruct (broadcast_binv idFunc Hlen Hinj _ _ _ _ _ _ _ _ Hg (new_binv idFunc) Hb) as (fs & o & [H1 H2 _ H4 H5 H6 _ H8]).
  cbn [app] in H1, H2. exists (fs ++ open_frag c o). split; [done|]. rewrite H1 in Hp.
  pose proof (receive_all_delivered _ H5 H6 _ _ _ Hp Hr) as Hout. split; [done|].
  assert (filter (λ f, f_closed f = true) (fs ++ open_frag c o) = fs) as Hfs.
  { rewrite filter_app, filter_all by done. destruct o; cbn [open_frag]; [rewrite filter_cons_False by done|]; by rewrite filter_nil, app_nil_r. }
  split; [rewrite Hfs, H2; apply prefix_app_r; done|]. intros Hbl Hcur Hall.
  destruct o; [by destruct H8|]. rewrite H2, Hbl, Hout. cbn [open_frag open_message app] in *. rewrite !app_nil_r in *.
  unfold delivered. rewrite filter_all; [done|]. rewrite Forall_forall in *. intros f Hf. split; [by apply H4|].
  apply Forall_forall. intros b Hin. apply Hall. rewrite H1. unfold all_chunks. apply list_elem_of_join. exists (frag_chunks f).
  split; [done|]. by apply list_elem_of_fmap_2.
Qed.

Definition sizes (overhead : Z) (out : list (list byte)) : Z := sum_Z ((λ b, overhead + Z.of_nat (length b)) <$> out).

Lemma length_messageChunk maxLen c chunk c' : 0 < maxLen → length (currentMsgID c) = 16%nat → messageChunk maxLen c = (chunk, c') →
  22 ≤ Z.of_nat (length chunk) ≤ 22 + maxLen ∧ length (currentMsgID c') = 16%nat.
Proof.
  intros Hm Hid. unfold messageChunk. destruct (Z.leb_spec (Z.of_nat (length (currentMsg c))) maxLen); intros [= <- <-];
    (split; [|done]); cbn [length]; rewrite !length_app; cbn [length]; rewrite length_take, Hid; lia.
Qed.

(** C22. The broadcaster always answers a request for packets, within the limit:
    with the overhead of each, the packets are together at most as long as what
    the gossip library allows. *)
Theorem chunks_fit idFunc overhead limit c :
  (∀ n id, idFunc n = Ok id → length id = 16%nat) → length (currentMsgID c) = 16%nat → 0 ≤ overhead →
  ∃ out c', chunks idFunc overhead limit c = Some (out, c') ∧ sizes overhead out ≤ Z.max 0 limit.
Proof.
  intros Hid Hc Ho. unfold chunks.
  assert (∀ fuel total c, (Z.to_nat (limit - total) < fuel)%nat → length (currentMsgID c) = 16%nat →
    ∃ out c', chunks_loop idFunc fuel overhead limit total c = Some (out, c') ∧ sizes overhead out ≤ Z.max 0 (limit - total)) as H.
  2: { destruct (H (S (Z.to_nat limit)) 0 c ltac:(rewrite Z.sub_0_r; lia) Hc) as (out & c' & H1 & H2). exists out, c'. split; [done|]. by rewrite Z.sub_0_r in H2. }
  intros fuel. induction fuel as [|fuel IH]; intros total c0 Hf Hc0; [lia|]. cbn [chunks_loop].
  destruct (Z.ltb_spec total limit); cbn [negb]; [|exists [], c0; split; [done|cbn; lia]].
  assert (∀ c1, length (currentMsgID c1) = 16%nat → ∃ out c',
    (let maxB := limit - total - overhead - Z.of_nat headerLen in
     if maxB <=? 0 then Some ([], c1)
     else let '(chunk, c) := messageChunk maxB c1 in
       '(chunks, c) ← chunks_loop idFunc fuel overhead limit (total + (overhead + Z.of_nat (length chunk))) c; Some (chunk :: chunks, c)) = Some (out, c') ∧
    sizes overhead out ≤ Z.max 0 (limit - total)) as Hemit.
  { intros c1 Hc1. cbv zeta. change (Z.of_nat headerLen) with 22. destruct (Z.leb_spec (limit - total - overhead - 22) 0) as [|HmaxB]; [exists [], c1; split; [done|cbn; lia]|].
    destruct (messageChunk _ c1) as [chunk c2] eqn:Ec. destruct (length_messageChunk _ _ _ _ HmaxB Hc1 Ec) as [Hl Hc2].
    destruct (IH (total + (overhead + Z.of_nat (length chunk))) c2) as (out & c' & -> & Hs); [lia|done|]. exists (chunk :: out), c'.
    split; [done|]. unfold sizes in *. rewrite sum_Z_fmap_cons. lia. }
  destruct (currentMsg c0); [|by apply Hemit]. destruct (backlog c0) eqn:Eb; [exists [], c0; split; [done|cbn; lia]|].
  destruct (nextMessage idFunc c0) as [[[]|e] c1] eqn:En; [|exists [], c1; split; [done|cbn; lia]]. apply Hemit.
  unfold nextMessage in En. destruct (idFunc (drawn c0)) as [id|] eqn:Ei; [|done]. rewrite Eb in En. injection En as <-. by apply (Hid _ _ Ei).
Qed.

(** *** Instances *)

(** Distinct ids for every read: random bytes are only so with overwhelming
    probability, so the instance runs out of them after two. *)
Definition two_ids (n : nat) : result string (list byte) :=
  match n with O => Ok (replicate 16 x00) | 1%nat => Ok (replicate 16 x01) | _ => Err "out of randomness" end.

(** A message of three bytes in packets with room for two, and one that fits. *)
Definition two_messages : list call := [Message [x0a; x0b; x0c]; Message [x0d]; Chunks 2 26; Chunks 2 60].
Definition two_sent : list (list byte) :=
  [encode (replicate 16 x00) 0 x00 [x0a; x0b]; encode (replicate 16 x00) 1 x01 [x0c]; encode (replicate 16 x01) 0 x01 [x0d]].
(** Out of order, with the last part of the first message twice. *)
Definition two_received : list (Z * list byte) :=
  [(1, encode (replicate 16 x00) 1 x01 [x0c]); (2, encode (replicate 16 x01) 0 x01 [x0d]); (3, encode (replicate 16 x00) 1 x01 [x0c]);
   (4, encode (replicate 16 x00) 0 x00 [x0a; x0b])].

Lemma gossip_delivers_witness : (receive_all two_received ∅).1 = [[x0d]; [x0a; x0b; x0c]] ∧
  (receive_all two_received ∅).1 ≡ₚ messages_of two_messages.
Proof.
  split; [vm_compute; reflexivity|].
  destruct (gossip_delivers two_ids two_messages two_sent (MkBroadcaster [] (replicate 16 x01) 1 [] 2) two_received
    (receive_all two_received ∅).1 (receive_all two_received ∅).2) as (frags & _ & _ & _ & H).
  - intros [|[|n]] id; cbn; [by intros [= <-]|by intros [= <-]|done].
  - intros [|[|n]] [|[|n']] id; cbn; (done || (intros [= <-]; done) || (intros [= <-] [=]; done)).
  - repeat constructor; done.
  - vm_compute; reflexivity.
  - repeat constructor; apply (bool_decide_eq_true_1 _); vm_compute; reflexivity.
  - apply surjective_pairing.
  - apply H; [reflexivity|reflexivity|]. apply (Forall_forall (λ b, b ∈ two_received.*2)).
    apply (bool_decide_eq_true_1 _); vm_compute; reflexivity.
Defined.

Lemma chunks_fit_witness : ∃ out c', chunks two_ids 2 60 (message [x0d] newBroadcaster) = Some (out, c') ∧ sizes 2 out ≤ 60.
Proof.
  destruct (chunks_fit two_ids 2 60 (message [x0d] newBroadcaster)) as (out & c' & H & Hs).
  - intros [|[|n]] id; cbn; [by intros [= <-]|by intros [= <-]|done].
  - reflexivity.
  - lia.
  - exists out, c'. split; [exact H|exact Hs].
Defined.
