(* ===== verification/App.v ===== *)
(** Package [app]: running several applications as one ([multi_app.go]) and
    running one until a signal ([run.go]), as actions of their goroutines in any
    order. *)

From S2P Require Import Prelude GoLib.

(** ** [multi_app.go] *)

Section multi.

(** A joined error is the list of its parts; [[]] is [nil]. *)
Abbreviation err := (list string).

(** [groupApp.run]: in its [select], calling the shutdown function, waiting for
    the application with what that returned, sending its error, about to cancel
    the group, or through. *)
Inductive monitor :=
| Selecting
| InShutdown
| Joining (shutdown : err)
| Sending (e : err)
| Cancelling
| Gone.

(** [ran] is what the application's [Run] returned, once it did. *)
Record groupApp := MkGroupApp { ran : option err; mon : monitor }.
Record Multi := MkMulti { apps : list groupApp; groupCtx_done : bool; outErr : err }.
Definition NewMulti (n : nat) : Multi := MkMulti (replicate n (MkGroupApp None Selecting)) false [].

Inductive maction :=
| RunReturns (i : nat) (e : err)       (* the application's [Run] *)
| SelectErr (i : nat)                  (* [err := <-errCh] *)
| SelectDone (i : nat)                 (* [<-a.groupCtx.Done()] *)
| ShutdownReturns (i : nat) (e : err)
| JoinErr (i : nat)
| SendErr (i : nat)                    (* received by [Multi.Run] *)
| CancelGroup (i : nat).

Definition with_app (i : nat) (a : groupApp) (m : Multi) : Multi := MkMulti (<[i := a]> (apps m)) (groupCtx_done m) (outErr m).
(** [a.run()] returned: an error is sent, [nil] ends the goroutine. *)
Definition finish (e : err) : monitor := match e with [] => Gone | _ => Sending e end.

Definition mstep (act : maction) (m : Multi) : option Multi :=
  match act with
  | RunReturns i e =>
      match apps m !! i with Some (MkGroupApp None mn) => Some (with_app i (MkGroupApp (Some e) mn) m) | _ => None end
  | SelectErr i =>
      match apps m !! i with Some (MkGroupApp (Some e) Selecting) => Some (with_app i (MkGroupApp (Some e) (finish e)) m) | _ => None end
  | SelectDone i =>
      match apps m !! i with
      | Some (MkGroupApp r Selecting) => if groupCtx_done m then Some (with_app i (MkGroupApp r InShutdown) m) else None
      | _ => None
      end
  | ShutdownReturns i e =>
      match apps m !! i with Some (MkGroupApp r InShutdown) => Some (with_app i (MkGroupApp r (Joining e)) m) | _ => None end
  | JoinErr i =>
      match apps m !! i with
      | Some (MkGroupApp (Some e) (Joining se)) => Some (with_app i (MkGroupApp (Some e) (finish (se ++ e))) m)
      | _ => None
      end
  | SendErr i =>
      match apps m !! i with
      | Some (MkGroupApp r (Sending e)) => Some (MkMulti (<[i := MkGroupApp r Cancelling]> (apps m)) (groupCtx_done m) (outErr m ++ e))
      | _ => None
      end
  | CancelGroup i =>
      match apps m !! i with
      | Some (MkGroupApp r Cancelling) => Some (MkMulti (<[i := MkGroupApp r Gone]> (apps m)) true (outErr m))
      | _ => None
      end
  end.
Definition mrun (acts : list maction) (m : Multi) : option Multi := foldl (λ m a, m ≫= mstep a) (Some m) acts.

(** [Run] returns what it received once every goroutine is through. *)
Definition Run_returns (m : Multi) : option err :=
  if forallb (λ a, match mon a with Gone => true | _ => false end) (apps m) then Some (outErr m) else None.

(** *** What holds of every application *)

Definition failed (a : groupApp) : bool := match ran a with Some (_ :: _) => true | _ => false end.
Definition app_ok (done : bool) (outErr : err) (a : groupApp) : Prop :=
  match mon a with
  | Selecting => True
  | InShutdown | Joining _ => done = true
  | Sending e => e ≠ [] ∧ is_Some (ran a) ∧ ∀ x, default [] (ran a) = x → x ⊆ e
  | Cancelling => is_Some (ran a) ∧ outErr ≠ [] ∧ default [] (ran a) ⊆ outErr
  | Gone => is_Some (ran a) ∧ default [] (ran a) ⊆ outErr ∧ (failed a = true → done = true)
  end.
Definition multi_inv (m : Multi) : Prop :=
  Forall (app_ok (groupCtx_done m) (outErr m)) (apps m) ∧ (groupCtx_done m = true → outErr m ≠ []).

Lemma app_ok_mono done done' out out' a : (done = true → done' = true) → out ⊆ out' → app_ok done out a → app_ok done' out' a.
Proof.
  intros Hd Ho. unfold app_ok. destruct (mon a); try done; try tauto.
  - intros (? & Hn & Hs). split; [done|]. split; [|set_solver]. intros ->. destruct out; [done|]. set_solver.
  - intros (? & Hs & Hf). split; [done|]. split; [set_solver|auto].
Qed.

Lemma with_app_inv i a m : app_ok (groupCtx_done m) (outErr m) a → multi_inv m → multi_inv (with_app i a m).
Proof. intros Ha [Hm Hd]. split; [|done]. by apply Forall_insert. Qed.

Lemma finish_ok done out e e' : e ⊆ e' → app_ok done out (MkGroupApp (Some e) (finish e')).
Proof.
  intros Hs. destruct e' as [|x l]; unfold app_ok; cbn.
  - assert (e = []) as -> by (destruct e; [by auto|]; set_solver). split; [eauto|]. split; [set_solver|by intros [=]].
  - split; [by auto|]. split; [eauto|]. by intros y <-.
Qed.

Lemma mstep_inv act m m' : multi_inv m → mstep act m = Some m' → multi_inv m'.
Proof.
  intros Hi Hs. pose proof Hi as [Hm Hd].
  assert (∀ i a, apps m !! i = Some a → app_ok (groupCtx_done m) (outErr m) a) as Hok by (intros i a Ha; by apply (Forall_lookup_1 _ _ _ _ Hm Ha)).
  destruct act as [i e|i|i|i e|i|i|i]; cbn [mstep] in Hs; destruct (apps m !! i) as [[r mn]|] eqn:Ha; try done; specialize (Hok _ _ Ha).
  - destruct r; [done|]. injection Hs as <-. apply with_app_inv; [|done]. unfold app_ok in *. cbn in *.
    destruct mn; try done; destruct_and!; match goal with H : is_Some None |- _ => by destruct H end.
  - destruct r as [e|], mn; try done. injection Hs as <-. apply with_app_inv; [|done]. by apply finish_ok.
  - destruct mn; try done. destruct (groupCtx_done m) eqn:Ed; [|done]. injection Hs as <-. apply with_app_inv; [|done]. by rewrite Ed.
  - destruct mn; try done. injection Hs as <-. by apply with_app_inv.
  - destruct r as [e|], mn as [| |se| | |]; try done. injection Hs as <-. apply with_app_inv; [|done]. apply finish_ok. set_solver.
  - destruct mn as [| | |e| |]; try done. injection Hs as <-. cbn in Hok. destruct Hok as (Hne & Hr & Hsub). split; cbn.
    + apply Forall_insert; [|].
      * eapply Forall_impl; [exact Hm|]. intros a. apply app_ok_mono; [done|set_solver].
      * cbn. split; [done|]. split; [intros [_ ?]%app_eq_nil; done|]. specialize (Hsub _ eq_refl). set_solver.
    + intros Hdone. intros [? _]%app_eq_nil. by apply Hd.
  - destruct mn; try done. injection Hs as <-. cbn in Hok. destruct Hok as (Hr & Hne & Hsub). split; cbn; [|done].
    apply Forall_insert; [|done]. eapply Forall_impl; [exact Hm|]. intros a. by apply app_ok_mono.
Qed.

Lemma mrun_inv acts n m : mrun acts (NewMulti n) = Some m → multi_inv m ∧ length (apps m) = n.
Proof.
  revert m. induction acts as [|a acts IH] using rev_ind; intros m Hm.
  - injection Hm as <-. split; [|apply length_replicate]. split; [|done]. by apply Forall_replicate.
  - unfold mrun in Hm. rewrite foldl_app in Hm. cbn in Hm. apply bind_Some in Hm as (m1 & H1 & H2). destruct (IH _ H1) as [Hi Hl].
    split; [by eapply mstep_inv|]. rewrite <- Hl. clear -H2. destruct a; cbn in H2; repeat (case_match; try done); simplify_eq; cbn; apply length_insert.
Qed.

(** When [Multi.Run] returns every application has returned, its error holds
    that of each of them, and no application was told to shut down unless one
    failed. Until then some goroutine can go on, or an application has not
    returned from its [Run] or its [Shutdown]; after the first failure was
    received and the group cancelled, none is left running without having been
    told to shut down. *)
Theorem Multi_Run_joins n acts m :
  mrun acts (NewMulti n) = Some m →
  (∀ e, Run_returns m = Some e → ∀ a, a ∈ apps m → ∃ x, ran a = Some x ∧ x ⊆ e) ∧
  (∀ a, a ∈ apps m → mon a = InShutdown ∨ (∃ x, mon a = Joining x) → outErr m ≠ []) ∧
  (Run_returns m = None → ∃ i a, apps m !! i = Some a ∧
    match mon a with
    | Selecting => ran a = None ∧ groupCtx_done m = false ∨ is_Some (mstep (SelectErr i) m) ∨ is_Some (mstep (SelectDone i) m)
    | InShutdown => True
    | Joining _ => ran a = None ∨ is_Some (mstep (JoinErr i) m)
    | Sending _ => is_Some (mstep (SendErr i) m)
    | Cancelling => is_Some (mstep (CancelGroup i) m)
    | Gone => False
    end).
Proof.
  intros Hm. destruct (mrun_inv _ _ _ Hm) as [[Hall Hd] _]. pose proof (proj1 (Forall_forall _ _) Hall) as Hok. clear Hall.
  split; [|split].
  - unfold Run_returns. intros e Hr a Ha. destruct (forallb _ (apps m)) eqn:E; [|done]. injection Hr as <-.
    rewrite forallb_forall in E. specialize (E a ltac:(by apply list_elem_of_In)). specialize (Hok a Ha). unfold app_ok in Hok.
    destruct (mon a); try done. destruct Hok as ([x Hx] & Hs & _). rewrite Hx in *. eauto.
  - intros a Ha Hmn. apply Hd. specialize (Hok a Ha). unfold app_ok in Hok. destruct Hmn as [Hmn|[x Hmn]]; by rewrite Hmn in Hok.
  - unfold Run_returns. intros Hr. destruct (forallb _ (apps m)) eqn:E; [done|].
    assert (∃ i a, apps m !! i = Some a ∧ mon a ≠ Gone) as (i & a & Hi & Hng).
    { clear -E. induction (apps m) as [|a l IH]; [done|]. cbn in E. destruct (mon a) eqn:Ea; try (exists 0%nat, a; split; [done|congruence]).
      destruct (IH E) as (i & b & ? & ?). by exists (S i), b. }
    exists i, a. split; [done|]. pose proof (Hok a (list_elem_of_lookup_2 _ _ _ Hi)) as Ha. cbn [mstep]. rewrite Hi.
    destruct a as [[r|] []]; cbn in *; try done; eauto; destruct (groupCtx_done m); eauto.
Qed.
End multi.

(** ** [run.go] *)

(** The goroutine that runs the application: in [Run], with its result to send,
    about to close [runDone], through, or in a panic. *)
Inductive runner := InRun | RunSending (e : option string) | Closing (e : option string) | RunDone (e : option string) | Panicked.
(** The goroutine that shuts it down: in its first [select], in [Shutdown],
    waiting for [runDone] or the timeout, sending, or through, with the result
    of [Shutdown] if it called it. *)
Inductive shutter := First | CallingShutdown | WaitingDone (e : option string) | ShutSending (e : option string) | Closed (e : option (option string)).

Record runstate := MkRunState {
  runner_of : runner;
  shutter_of : shutter;
  ctx_done : bool;
  timed_out : bool;      (* the timeout after the shutdown passed *)
  code : Z;
}.
Definition run_start : runstate := MkRunState InRun First false false 0.
Definition errs_closed (s : runstate) : bool := match shutter_of s with Closed _ => true | _ => false end.
Definition runDone (s : runstate) : bool := match runner_of s with RunDone _ => true | _ => false end.

Inductive raction :=
| AppReturns (e : option string)
| RunnerSends
| CloseRunDone
| CtxCancelled
| SeesRunDone                 (* the first [select] *)
| SeesCtx
| AppShutdownReturns (e : option string)
| WaitEnds                    (* on [runDone] *)
| WaitTimeout
| ShutterSends.

(** The main goroutine receives each error until the channel is closed. *)
Definition receive_code (e : option string) (code : Z) : Z := if e is Some _ then 1 else code.

Definition rstep (a : raction) (s : runstate) : option runstate :=
  let runner_is r := MkRunState r (shutter_of s) (ctx_done s) (timed_out s) (code s) in
  let shutter_is t := MkRunState (runner_of s) t (ctx_done s) (timed_out s) (code s) in
  match a with
  | AppReturns e => match runner_of s with InRun => Some (runner_is (RunSending e)) | _ => None end
  | RunnerSends =>
      match runner_of s with
      | RunSending e =>
          if errs_closed s then Some (runner_is Panicked)
          else Some (MkRunState (Closing e) (shutter_of s) (ctx_done s) (timed_out s) (receive_code e (code s)))
      | _ => None
      end
  | CloseRunDone => match runner_of s with Closing e => Some (runner_is (RunDone e)) | _ => None end
  | CtxCancelled => Some (MkRunState (runner_of s) (shutter_of s) true (timed_out s) (code s))
  | SeesRunDone => match shutter_of s with First => if runDone s then Some (shutter_is (Closed None)) else None | _ => None end
  | SeesCtx => match shutter_of s with First => if ctx_done s then Some (shutter_is CallingShutdown) else None | _ => None end
  | AppShutdownReturns e => match shutter_of s with CallingShutdown => Some (shutter_is (WaitingDone e)) | _ => None end
  | WaitEnds => match shutter_of s with WaitingDone e => if runDone s then Some (shutter_is (ShutSending e)) else None | _ => None end
  | WaitTimeout =>
      match shutter_of s with
      | WaitingDone e => Some (MkRunState (runner_of s) (ShutSending e) (ctx_done s) true (code s))
      | _ => None
      end
  | ShutterSends =>
      match shutter_of s with
      | ShutSending e => Some (MkRunState (runner_of s) (Closed (Some e)) (ctx_done s) (timed_out s) (receive_code e (code s)))
      | _ => None
      end
  end.
Definition rrun (acts : list raction) (s : runstate) : option runstate := foldl (λ s a, s ≫= rstep a) (Some s) acts.

(** [Run] returns its code once the channel is closed. *)
Definition Run_code (s : runstate) : option Z := if errs_closed s then Some (code s) else None.

(** The errors the main goroutine received. *)
Definition run_error (s : runstate) : option string :=
  match runner_of s with Closing e | RunDone e => e | _ => None end.
Definition shutdown_error (s : runstate) : option string :=
  match shutter_of s with Closed (Some e) => e | _ => None end.
Definition reported (s : runstate) : bool := match runner_of s with Closing _ | RunDone _ => true | _ => false end.

Definition run_inv (s : runstate) : Prop :=
  code s = (if run_error s is Some _ then 1 else if shutdown_error s is Some _ then 1 else 0) ∧
  (timed_out s = true ∨ match shutter_of s with ShutSending _ | Closed _ => runDone s = true | _ => runner_of s ≠ Panicked end).

Lemma rstep_inv a s s' : run_inv s → rstep a s = Some s' → run_inv s'.
Proof.
  intros [Hc Ht] Hs. destruct s as [r t c to co]. unfold run_inv, run_error, shutdown_error, runDone, errs_closed in *. cbn in Hc, Ht, Hs. subst co.
  destruct a; [destruct r; try done; injection Hs as <-|destruct r; try done; destruct t as [| | | |[]]; injection Hs as <-
    |destruct r; try done; injection Hs as <-|injection Hs as <-|destruct t, r; try done; injection Hs as <-|destruct t, c; try done; injection Hs as <-
    |destruct t; try done; injection Hs as <-|destruct t, r; try done; injection Hs as <-|destruct t; try done; injection Hs as <-
    |destruct t; try done; injection Hs as <-]; cbn;
    repeat match goal with e : option string |- _ => destruct e end; cbn in *;
    (split; [repeat case_match; simplify_eq; done|]); destruct Ht as [Ht|Ht]; try done; try (by left); try (by right); right; (by destruct t) || (by destruct r) || (by destruct t, r).
Qed.

Lemma rrun_inv acts s : rrun acts run_start = Some s → run_inv s.
Proof.
  revert s. induction acts as [|a acts IH] using rev_ind; intros s Hs; [injection Hs as <-; split; [done|by right]|].
  unfold rrun in Hs. rewrite foldl_app in Hs. cbn in Hs. apply bind_Some in Hs as (s1 & H1 & H2). eapply rstep_inv; [by apply IH|done].
Qed.

(** The exit code of [app.Run] is 1 exactly when the application's [Run], as
    far as it returned in time, or its [Shutdown] failed, and 0 otherwise.
    Unless the timeout after the shutdown passed, the application has returned;
    if it did pass, an application that returns later sends on a closed channel,
    and only then does the program panic. *)
Theorem Run_exit_code acts s :
  rrun acts run_start = Some s →
  (∀ n, Run_code s = Some n → n = (if run_error s is Some _ then 1 else if shutdown_error s is Some _ then 1 else 0)) ∧
  (timed_out s = false → is_Some (Run_code s) → reported s = true) ∧
  (runner_of s = Panicked → timed_out s = true) ∧
  (timed_out s = true → is_Some (Run_code s) → ∀ e, runner_of s = RunSending e →
    (λ s', runner_of s') <$> rstep RunnerSends s = Some Panicked).
Proof.
  intros Hs. destruct (rrun_inv _ _ Hs) as [Hc Ht]. unfold Run_code. split; [|split; [|split]].
  - intros n Hn. destruct (errs_closed s); [|done]. by injection Hn as <-.
  - intros Hto [n Hn]. destruct Ht as [Ht|Ht]; [congruence|]. unfold errs_closed in Hn. unfold reported, runDone in *.
    destruct (shutter_of s); try done. by destruct (runner_of s).
  - intros Hp. destruct Ht as [Ht|Ht]; [done|]. unfold runDone in Ht. rewrite Hp in Ht. destruct (shutter_of s); congruence.
  - intros _ [n Hn] e He. cbn. rewrite He. by destruct (errs_closed s).
Qed.

(** *** Instances *)

Definition two_apps : list maction :=
  [RunReturns 0 ["no port"]; SelectErr 0; SendErr 0; CancelGroup 0; SelectDone 1; ShutdownReturns 1 []; RunReturns 1 ["stopped"];
   JoinErr 1; SendErr 1; CancelGroup 1].
Lemma Multi_Run_joins_witness : ∃ m, mrun two_apps (NewMulti 2) = Some m ∧ Run_returns m = Some ["no port"; "stopped"] ∧
  ∀ a, a ∈ apps m → ∃ x, ran a = Some x ∧ x ⊆ ["no port"; "stopped"].
Proof.
  eexists. split; [vm_compute; reflexivity|]. split; [vm_compute; reflexivity|].
  eapply (Multi_Run_joins 2 two_apps); vm_compute; reflexivity.
Defined.

Definition late_return : list raction :=
  [CtxCancelled; SeesCtx; AppShutdownReturns None; WaitTimeout; ShutterSends; AppReturns None; RunnerSends].
Lemma Run_exit_code_witness : ∃ s, rrun late_return run_start = Some s ∧ runner_of s = Panicked ∧ Run_code s = Some 0 ∧ timed_out s = true.
Proof.
  eexists. split; [vm_compute; reflexivity|]. split; [reflexivity|]. split; [reflexivity|].
  eapply (Run_exit_code late_return); vm_compute; reflexivity.
Defined.
