(* ===== verification/Work.v ===== *)
(** Package [work] ([pipeline.go], [pipeline_steps.go], [pool.go]): pipelines of
    steps with shared outputs, and the step that runs a function in parallel, as
    actions of their goroutines in any order. *)

From stdpp Require Import pretty.
From S2P Require Import Prelude GoLib.

(** ** [pipeline.go] *)

(** A closer is known by its address; [close_error] is what closing it returns. *)
Definition closer : Type := Z.

Record PipelineStep := MkStep {
  ID : string;
  Outputs : gmap string closer;
  ReceivePipelineCancellation : bool;
  has_Func : bool;
}.

(** The parts of a joined error. *)
Inductive werr :=
| PipelineStepError (StepID : string) (Err : string)
| OutputCloseError (OutputID : string) (Err : string)
| NoSharedCloser (id : string)
| DoneWithoutAdd (id : string).

Record sharedOutput := MkShared { refs : Z; shared_closer : closer }.
Abbreviation sharedOutputs := (gmap string sharedOutput).

Fixpoint add_outputs (outputs : list (string * closer)) (c : sharedOutputs) : result string sharedOutputs :=
  match outputs with
  | [] => Ok c
  | (id, cl) :: outputs =>
      let sc := default (MkShared 0 cl) (c !! id) in
      if negb (shared_closer sc =? cl) then Err ("output with id " +:+ id +:+ " has different io.Closer values")
      else add_outputs outputs (<[id := MkShared (refs sc + 1) (shared_closer sc)]> c)
  end.

Section pipeline.
Context {R : RangeOrder} (close_error : closer → option string).

Definition addMany (outputs : gmap string closer) (c : sharedOutputs) : result string sharedOutputs :=
  add_outputs (range_map outputs) c.

(** The errors, the outputs, and what was closed. *)
Definition done_ (id : string) (c : sharedOutputs) : list werr * sharedOutputs * list string :=
  match c !! id with
  | None => ([NoSharedCloser id], c, [])
  | Some sc =>
      let result := refs sc - 1 in
      let c := <[id := MkShared result (shared_closer sc)]> c in
      if result <? 0 then ([DoneWithoutAdd id], c, [])
      else if 0 <? result then ([], c, [])
      else (match close_error (shared_closer sc) with Some e => [OutputCloseError id e] | None => [] end, c, [id])
  end.

Fixpoint check_steps (i : Z) (seenSteps : gset string) (outputs : sharedOutputs) (steps : list PipelineStep) :
    result string sharedOutputs :=
  match steps with
  | [] => Ok outputs
  | s :: steps =>
      if bool_decide (ID s = "") then Err ("worker at index " +:+ pretty i +:+ " has an empty id")
      else if bool_decide (ID s ∈ seenSteps) then Err ("duplicate step id " +:+ ID s +:+ " at index " +:+ pretty i)
      else if negb (has_Func s) then Err ("step " +:+ ID s +:+ " at index " +:+ pretty i +:+ " is missing a step function")
      else match addMany (Outputs s) outputs with
      | Err e => Err ("step " +:+ ID s +:+ " at index " +:+ pretty i +:+ " has invalid outputs: " +:+ e)
      | Ok outputs => check_steps (i + 1) ({[ ID s ]} ∪ seenSteps) outputs steps
      end
  end.

(** A context is cancelled with a cause, and only its first. *)
Inductive cause := StepFailed (es : list werr) | ErrPipelineClosed | ParentDone | CloseDone.
Definition cancel (c : option cause) (why : cause) : option cause := Some (default why c).

(** The goroutine of a step: in its function, marking its outputs as done,
    sending its result, or through. *)
Inductive goroutine :=
| InFunc (s : PipelineStep)
| Marking (s : PipelineStep) (todo : list string) (es : list werr)
| Sending (es : list werr)
| Finished.

(** [closing] is whether [Close] was called, which receives the [results];
    [closes] are the outputs closed so far. *)
Record Pipeline := MkPipeline {
  outputs : sharedOutputs;
  goroutines : list goroutine;
  gracefulCtx : option cause;
  hardCtx : option cause;
  closing : bool;
  results : list (list werr);
  closes : list string;
}.

Definition RunPipeline (steps : list PipelineStep) : result string Pipeline :=
  outputs ← check_steps 0 ∅ ∅ steps;
  Ok (MkPipeline outputs (InFunc <$> steps) None None false [] []).

(** The context a step's function was given. *)
Definition step_context (s : PipelineStep) (p : Pipeline) : option cause :=
  if ReceivePipelineCancellation s then gracefulCtx p else hardCtx p.

Definition wrap_step_error (s : PipelineStep) (e : option string) : list werr :=
  match e with Some e => [PipelineStepError (ID s) e] | None => [] end.

Inductive action :=
| Return (i : nat) (e : option string)   (* the function of step [i] returns *)
| MarkDone (i : nat)                     (* [done] of the next output *)
| Joined (i : nat)                       (* the pipeline is cancelled on an error *)
| Report (i : nat)                       (* [p.results <- err], received by [Close] *)
| ParentCancelled
| CloseCalled
| CloseCancelled.

Definition set_goroutine (i : nat) (g : goroutine) (p : Pipeline) : Pipeline :=
  MkPipeline (outputs p) (<[i := g]> (goroutines p)) (gracefulCtx p) (hardCtx p) (closing p) (results p) (closes p).
Definition set_contexts (graceful hard : option cause) (closing : bool) (p : Pipeline) : Pipeline :=
  MkPipeline (outputs p) (goroutines p) graceful hard closing (results p) (closes p).

Definition perform (a : action) (p : Pipeline) : option Pipeline :=
  match a with
  | Return i e =>
      match goroutines p !! i with
      | Some (InFunc s) => Some (set_goroutine i (Marking s (range_map (Outputs s)).*1 (wrap_step_error s e)) p)
      | _ => None
      end
  | MarkDone i =>
      match goroutines p !! i with
      | Some (Marking s (id :: todo) es) =>
          let '(es', outs, closed) := done_ id (outputs p) in
          Some (MkPipeline outs (<[i := Marking s todo (es ++ es')]> (goroutines p)) (gracefulCtx p) (hardCtx p)
            (closing p) (results p) (closes p ++ closed))
      | _ => None
      end
  | Joined i =>
      match goroutines p !! i with
      | Some (Marking s [] es) =>
          let p := set_goroutine i (Sending es) p in
          Some (match es with [] => p | _ => set_contexts (cancel (gracefulCtx p) (StepFailed es)) (hardCtx p) (closing p) p end)
      | _ => None
      end
  | Report i =>
      match goroutines p !! i with
      | Some (Sending es) =>
          if negb (closing p) then None
          else Some (MkPipeline (outputs p) (<[i := Finished]> (goroutines p)) (gracefulCtx p) (hardCtx p) true
            (results p ++ [es]) (closes p))
      | _ => None
      end
  | ParentCancelled => Some (set_contexts (cancel (gracefulCtx p) ParentDone) (hardCtx p) (closing p) p)
  | CloseCalled => if closing p then None else Some (set_contexts (cancel (gracefulCtx p) ErrPipelineClosed) (hardCtx p) true p)
  | CloseCancelled => if closing p then Some (set_contexts (gracefulCtx p) (cancel (hardCtx p) CloseDone) true p) else None
  end.

Definition run_pipeline (actions : list action) (p : Pipeline) : option Pipeline :=
  foldl (λ p a, p ≫= perform a) (Some p) actions.

(** What [Close] returns, once it received the result of every step. *)
Definition Close_result (p : Pipeline) : option (list werr) :=
  if (length (results p) =? length (goroutines p))%nat then Some (mjoin (results p)) else None.

(** *** Counting the users of an output *)

Definition holds (id : string) (g : goroutine) : Z :=
  match g with
  | InFunc s => if decide (is_Some (Outputs s !! id)) then 1 else 0
  | Marking _ todo _ => if decide (id ∈ todo) then 1 else 0
  | Sending _ | Finished => 0
  end.
Definition holders (id : string) (gs : list goroutine) : Z := sum_Z (holds id <$> gs).
Definition refs_of (c : sharedOutputs) (id : string) : Z := from_option refs 0 (c !! id).

(** An error the pipeline's own accounting would make. *)
Definition internal (e : werr) : Prop := match e with NoSharedCloser _ | DoneWithoutAdd _ => True | _ => False end.
Definition goroutine_ok (g : goroutine) : Prop :=
  match g with
  | Marking _ todo es => NoDup todo ∧ Forall (λ e, ¬ internal e) es
  | Sending es => Forall (λ e, ¬ internal e) es
  | _ => True
  end.

Definition finished (g : goroutine) : Z := match g with Finished => 1 | _ => 0 end.

Record pipeline_inv (p : Pipeline) : Prop := {
  inv_refs id : refs_of (outputs p) id = holders id (goroutines p);
  inv_closes id : id ∈ closes p ↔ is_Some (outputs p !! id) ∧ holders id (goroutines p) = 0;
  inv_nodup : NoDup (closes p);
  inv_goroutines : Forall goroutine_ok (goroutines p);
  inv_results : Forall (Forall (λ e, ¬ internal e)) (results p);
  inv_count : sum_Z (finished <$> goroutines p) = Z.of_nat (length (results p));
  inv_hard : hardCtx p ≠ None → closing p = true;
}.

Lemma holds_nonneg id g : 0 ≤ holds id g.
Proof. unfold holds. destruct g; try case_decide; lia. Qed.
Lemma holders_nonneg id gs : 0 ≤ holders id gs.
Proof. apply sum_Z_nonneg, holds_nonneg. Qed.

Lemma range_map_dom {A} (m : gmap string A) id : id ∈ (range_map m).*1 ↔ is_Some (m !! id).
Proof. by rewrite range_map_keys, range_keys_elem, elem_of_dom. Qed.

Lemma range_keys_holds (s : PipelineStep) id es : holds id (Marking s (range_map (Outputs s)).*1 es) = holds id (InFunc s).
Proof.
  cbn [holds]. pose proof (range_map_dom (Outputs s) id). repeat case_decide; tauto.
Qed.

Lemma add_outputs_ok l c c' : NoDup l.*1 → add_outputs l c = Ok c' →
  ∀ id, refs_of c' id = refs_of c id + (if decide (id ∈ l.*1) then 1 else 0) ∧ (is_Some (c' !! id) ↔ is_Some (c !! id) ∨ id ∈ l.*1).
Proof.
  induction l as [|[id0 cl] l IH] in c |- *; cbn [fmap list_fmap fst add_outputs].
  - intros _ [= <-] id. rewrite decide_False by apply not_elem_of_nil. rewrite elem_of_nil. split; [lia|tauto].
  - intros [Hn Hnd]%NoDup_cons. destruct (negb _); [done|]. intros Ha id. destruct (IH _ Hnd Ha id) as [Hr Hs]. rewrite Hr, Hs.
    unfold refs_of. destruct (decide (id = id0)) as [->|Hne].
    + rewrite lookup_insert_eq. rewrite decide_False by done. rewrite decide_True by (by left). cbn [from_option refs].
      split; [destruct (c !! id0); cbn; lia|]. split; [right; by left|]. intros _. left. eauto.
    + rewrite lookup_insert_ne by done. split; [|rewrite elem_of_cons; tauto].
      repeat case_decide; rewrite ?elem_of_cons in *; tauto || lia.
Qed.

Lemma check_steps_ok n seen c steps c' : check_steps n seen c steps = Ok c' →
  ∀ id, refs_of c' id = refs_of c id + holders id (InFunc <$> steps) ∧
    (is_Some (c' !! id) ↔ is_Some (c !! id) ∨ ∃ s, s ∈ steps ∧ is_Some (Outputs s !! id)).
Proof.
  induction steps as [|s steps IH] in n, seen, c |- *; cbn [check_steps]; intros Hc id.
  - injection Hc as <-. unfold holders. cbn. split; [lia|]. split; [by left|]. intros [?|(s & ?%not_elem_of_nil & _)]; done.
  - destruct (bool_decide _); [done|]. destruct (bool_decide _); [done|]. destruct (negb _); [done|].
    destruct (addMany _ _) as [c1|] eqn:Ea; [|done]. destruct (IH _ _ _ Hc id) as [Hr Hs].
    destruct (add_outputs_ok _ _ _ (range_map_nodup _) Ea id) as [Hr1 Hs1]. rewrite Hr, Hs, Hr1, Hs1.
    assert (id ∈ (range_map (Outputs s)).*1 ↔ is_Some (Outputs s !! id)) as Hi by apply range_map_dom.
    split; [|rewrite Hi; setoid_rewrite elem_of_cons; split; [intros [[?|?]|(s' & ? & ?)]|intros [?|(s' & [->|?] & ?)]]; eauto 6].
    unfold holders. rewrite fmap_cons, sum_Z_fmap_cons. cbn [holds]. repeat case_decide; tauto || lia.
Qed.

(** *** Which pipelines are valid *)

Lemma add_outputs_succeeds l c : NoDup l.*1 →
  is_ok (add_outputs l c) = true ↔ ∀ id cl, (id, cl) ∈ l → ∀ sc, c !! id = Some sc → shared_closer sc = cl.
Proof.
  induction l as [|[id0 cl0] l IH] in c |- *; cbn [fmap list_fmap fst add_outputs]; intros Hnd.
  - split; [by intros _ id cl ?%not_elem_of_nil|done].
  - apply NoDup_cons in Hnd as [Hn Hnd]. destruct (Z.eqb_spec (shared_closer (default (MkShared 0 cl0) (c !! id0))) cl0) as [He|He]; cbn [negb].
    + rewrite IH by done. split; intros Hl id cl Hin sc Hsc.
      * apply elem_of_cons in Hin as [[= -> ->]|Hin]; [by rewrite Hsc in He|]. apply (Hl id cl Hin).
        rewrite lookup_insert_ne; [done|]. intros <-. apply Hn. by apply (list_elem_of_fmap_2 fst l (id0, cl)).
      * assert (id0 ≠ id) as Hne by (intros <-; apply Hn; by apply (list_elem_of_fmap_2 fst l (id0, cl))).
        rewrite lookup_insert_ne in Hsc by done. apply (Hl id cl); [by right|done].
    + split; [done|]. intros Hl. destruct (c !! id0) as [sc|] eqn:Ec; cbn in He; [|done].
      destruct He. apply (Hl id0 cl0); [by left|done].
Qed.

Lemma add_outputs_closers l c c' id sc : add_outputs l c = Ok c' → c' !! id = Some sc →
  (∃ sc0, c !! id = Some sc0 ∧ shared_closer sc0 = shared_closer sc) ∨ (id, shared_closer sc) ∈ l.
Proof.
  induction l as [|[id0 cl0] l IH] in c |- *; cbn [add_outputs]; [intros [= <-]; eauto|].
  destruct (Z.eqb_spec (shared_closer (default (MkShared 0 cl0) (c !! id0))) cl0) as [He|He]; cbn [negb]; [|done].
  intros Ha Hsc. destruct (IH _ Ha Hsc) as [(sc0 & H0 & Hs)|?]; [|right; by right].
  destruct (decide (id0 = id)) as [<-|Hne]; [|rewrite lookup_insert_ne in H0 by done; eauto].
  rewrite lookup_insert_eq in H0. injection H0 as <-. cbn in Hs. right. rewrite <- Hs, He. by left.
Qed.

Lemma add_outputs_keeps l c c' id sc : add_outputs l c = Ok c' → c !! id = Some sc →
  ∃ sc', c' !! id = Some sc' ∧ shared_closer sc' = shared_closer sc.
Proof.
  induction l as [|[id0 cl0] l IH] in c, sc |- *; cbn [add_outputs]; [intros [= <-]; eauto|].
  destruct (negb _); [done|]. intros Ha Hsc. destruct (decide (id0 = id)) as [<-|Hne].
  - rewrite Hsc in Ha. destruct (IH _ _ Ha (lookup_insert_eq _ _ _)) as (sc' & H1 & H2). eauto.
  - apply (IH _ _ Ha). by rewrite lookup_insert_ne.
Qed.

(** Two steps that name an output have the same closer for it. *)
Definition agree (c : sharedOutputs) (s : PipelineStep) : Prop :=
  ∀ id cl, Outputs s !! id = Some cl → ∀ sc, c !! id = Some sc → shared_closer sc = cl.
Definition agree2 (s s' : PipelineStep) : Prop :=
  ∀ id cl cl', Outputs s !! id = Some cl → Outputs s' !! id = Some cl' → cl = cl'.
#[global] Instance agree2_dec s s' : Decision (agree2 s s').
Proof.
  refine (cast_if (decide (map_Forall (λ id cl, default cl (Outputs s' !! id) = cl) (Outputs s)))); unfold map_Forall, agree2 in *.
  - intros id cl cl' H1 H2. specialize (m id cl H1). cbn in m. by rewrite H2 in m.
  - intros H. apply n. intros id cl H1. destruct (Outputs s' !! id) as [cl'|] eqn:E; [|done]. symmetry. by apply (H id).
Defined.
Definition valid_steps (steps : list PipelineStep) : Prop :=
  NoDup (ID <$> steps) ∧ Forall (λ s, ID s ≠ "" ∧ has_Func s = true) steps ∧ Forall (λ s, Forall (agree2 s) steps) steps.

Lemma addMany_agree s c : is_ok (addMany (Outputs s) c) = true ↔ agree c s.
Proof.
  unfold addMany. rewrite (add_outputs_succeeds _ _ (range_map_nodup _)). unfold agree. by setoid_rewrite range_map_elem.
Qed.

Lemma addMany_agree2 s s' c c' : addMany (Outputs s) c = Ok c' → (agree c' s' ↔ agree c s' ∧ agree2 s s').
Proof.
  intros Ha. assert (agree c s) as Hs by (apply addMany_agree; by rewrite Ha). split.
  - intros Hc. split.
    + intros id cl Hid sc Hsc. destruct (add_outputs_keeps _ _ _ _ _ Ha Hsc) as (sc' & H1 & <-). by apply (Hc id).
    + intros id cl cl' Hid Hid'. destruct (add_outputs_ok _ _ _ (range_map_nodup _) Ha id) as [_ Hdom].
      destruct (proj2 Hdom) as [sc Hsc]; [right; apply range_map_dom; eauto|]. rewrite <- (Hc id cl' Hid' sc Hsc).
      destruct (add_outputs_closers _ _ _ _ _ Ha Hsc) as [(sc0 & H0 & <-)|Hin]; [symmetry; by apply (Hs id)|].
      apply range_map_elem in Hin. congruence.
  - intros [Hc H2] id cl Hid sc Hsc. destruct (add_outputs_closers _ _ _ _ _ Ha Hsc) as [(sc0 & H0 & <-)|Hin]; [by apply (Hc id)|].
    apply range_map_elem in Hin. by apply (H2 id).
Qed.

Lemma check_steps_succeeds n seen c steps : is_ok (check_steps n seen c steps) = true ↔
  (NoDup (ID <$> steps) ∧ Forall (λ s, ID s ∉ seen) steps) ∧ Forall (λ s, ID s ≠ "" ∧ has_Func s = true) steps ∧
  Forall (agree c) steps ∧ ForallOrdPairs agree2 steps.
Proof.
  induction steps as [|s steps IH] in n, seen, c |- *; cbn [check_steps fmap list_fmap].
  - split; [|done]. intros _. repeat split; constructor.
  - rewrite NoDup_cons, !Forall_cons. case_bool_decide as H1; [split; [done|tauto]|]. case_bool_decide as H2; [split; [done|tauto]|].
    destruct (has_Func s) eqn:Ef; cbn [negb]; [|split; [done|intuition congruence]]. pose proof (addMany_agree s c) as Hag.
    destruct (addMany (Outputs s) c) as [c1|e] eqn:Ea; cbn [is_ok] in *.
    + rewrite IH. assert (agree c s) by (by apply Hag). pose proof (λ s', addMany_agree2 s s' c c1 Ea) as Hc1.
      rewrite !Forall_forall. setoid_rewrite Hc1. setoid_rewrite not_elem_of_union. setoid_rewrite not_elem_of_singleton.
      rewrite list_elem_of_fmap. split.
      * intros ([Hnd Hseen] & Hok & Hagr & Hp). split; [split; [split; [|done]|split; [done|]]|split; [done|split; [split; [done|]|]]].
        -- intros (s' & E & Hs'). by destruct (Hseen s' Hs') as [? _].
        -- intros s' Hs'. apply (Hseen s' Hs').
        -- intros s' Hs'. apply (Hagr s' Hs').
        -- constructor; [|done]. apply Forall_forall. intros s' Hs'. apply (Hagr s' Hs').
      * intros ([[Hn Hnd] [Hs1 Hs2]] & [_ Hok] & [_ Hagr] & Hp). inversion Hp as [|?? Hp1 Hp2]; subst. rewrite Forall_forall in Hp1.
        split; [split; [done|]|split; [done|split; [|done]]].
        -- intros s' Hs'. split; [|by apply Hs2]. intros E. apply Hn. eauto.
        -- intros s' Hs'. split; [by apply Hagr|]. by apply Hp1.
    + split; [done|]. intros (_ & _ & [Hs _] & _). by apply Hag in Hs.
Qed.

Lemma agree2_sym s s' : agree2 s s' → agree2 s' s.
Proof. intros H id cl cl' H1 H2. symmetry. by apply (H id). Qed.
Lemma agree2_refl s : agree2 s s.
Proof. intros id cl cl' H1 H2. congruence. Qed.

Lemma ordered_pairs steps : ForallOrdPairs agree2 steps ↔ Forall (λ s, Forall (agree2 s) steps) steps.
Proof.
  induction steps as [|s steps IH]; [by split; constructor|]. rewrite Forall_cons, Forall_cons. split.
  - intros Hp. inversion Hp as [|?? H1 H2]; subst. rewrite IH in H2. split; [split; [apply agree2_refl|done]|].
    rewrite Forall_forall in *. intros s' Hs'. constructor; [by apply agree2_sym, H1|by apply H2].
  - intros [[_ H1] H2]. constructor; [done|]. apply IH. eapply Forall_impl; [exact H2|]. by intros s' [_ ?]%Forall_cons.
Qed.

(** [RunPipeline] accepts exactly the valid lists of steps. *)
Lemma RunPipeline_ok steps : is_ok (RunPipeline steps) = true ↔ valid_steps steps.
Proof.
  assert (is_ok (RunPipeline steps) = is_ok (check_steps 0 ∅ ∅ steps)) as -> by (unfold RunPipeline; by destruct (check_steps _ _ _ _)).
  rewrite check_steps_succeeds, ordered_pairs. unfold valid_steps, agree. rewrite !Forall_forall. set_solver.
Qed.

Lemma start_inv steps p : RunPipeline steps = Ok p → pipeline_inv p.
Proof.
  unfold RunPipeline. intros Hr. apply result_bind_ok in Hr as (outs & Hc & [= <-]). pose proof (check_steps_ok _ _ _ _ _ Hc) as Ho.
  split; cbn [outputs goroutines closes results hardCtx closing length].
  - intros id. rewrite (proj1 (Ho id)). unfold refs_of at 1. by rewrite lookup_empty.
  - intros id. rewrite elem_of_nil. split; [done|]. intros [[[? [=]]|(s & Hs & Hi)]%(proj2 (Ho id)) Hz].
    assert (holds id (InFunc s) = 0) as Hh
      by (apply (sum_Z_zero _ _ (holds_nonneg id) Hz); by apply list_elem_of_fmap_2).
    cbn in Hh. by rewrite decide_True in Hh by done.
  - constructor.
  - apply Forall_fmap, Forall_forall. done.
  - constructor.
  - clear. by induction steps.
  - done.
Qed.

(** The same goroutine, further on with the same outputs to mark. *)
Lemma set_inv i g g' p : goroutines p !! i = Some g → (∀ id, holds id g' = holds id g) → finished g' = finished g →
  goroutine_ok g' → pipeline_inv p → pipeline_inv (set_goroutine i g' p).
Proof.
  intros Hg Hh Hf Hok [Hr Hc Hn Hgs Hrs Hcount Hhard]. split; cbn [set_goroutine outputs goroutines closes results hardCtx closing]; try done.
  - intros id. unfold holders. rewrite (sum_Z_insert _ _ _ _ _ Hg), Hh, Hr. unfold holders. lia.
  - intros id. unfold holders. rewrite (sum_Z_insert _ _ _ _ _ Hg), Hh, Hc. unfold holders.
    split; intros [??]; split; (done || lia).
  - by apply Forall_insert.
  - rewrite (sum_Z_insert _ _ _ _ _ Hg). lia.
Qed.

Lemma contexts_inv graceful hard closing' p : (hard ≠ None → closing' = true) → pipeline_inv p →
  pipeline_inv (set_contexts graceful hard closing' p).
Proof. intros Hh []. by split. Qed.

Lemma mark_inv i s id todo es p p' : goroutines p !! i = Some (Marking s (id :: todo) es) → pipeline_inv p →
  perform (MarkDone i) p = Some p' → pipeline_inv p'.
Proof.
  intros Hg [Hr Hc Hn Hgs Hrs Hcount Hhard]. cbn [perform]. rewrite Hg.
  pose proof (Forall_lookup_1 _ _ _ _ Hgs Hg) as [[Hni Hnd]%NoDup_cons Hes].
  assert (∀ es' id', holders id' (<[i := Marking s todo es']> (goroutines p)) = holders id' (goroutines p) - (if decide (id' = id) then 1 else 0)) as Hh.
  { intros es' id'. unfold holders. rewrite (sum_Z_insert _ _ _ _ _ Hg). cbn [holds].
    repeat case_decide; rewrite ?elem_of_cons in *; subst; try tauto; lia. }
  pose proof (sum_Z_elem _ _ _ (holds_nonneg id) (list_elem_of_lookup_2 _ _ _ Hg)) as H1.
  cbn [holds] in H1. rewrite decide_True in H1 by by left. fold (holders id (goroutines p)) in H1.
  unfold done_. pose proof (Hr id) as Hri. unfold refs_of in Hri. destruct (outputs p !! id) as [sc|] eqn:Eo; cbn in Hri; [|lia].
  destruct (Z.ltb_spec (refs sc - 1) 0); [lia|].
  set (c' := <[id := _]> _).
  assert (∀ id', refs_of c' id' = holders id' (goroutines p) - (if decide (id' = id) then 1 else 0)) as Hrefs.
  { intros id'. unfold refs_of, c'. case_decide; [subst; rewrite lookup_insert_eq; cbn; lia|].
    rewrite lookup_insert_ne by done. rewrite <- Hr. unfold refs_of. lia. }
  assert (∀ id', is_Some (c' !! id') ↔ is_Some (outputs p !! id')) as Hdom.
  { intros id'. unfold c'. rewrite lookup_insert_is_Some'. split; [intros [->|]; eauto|tauto]. }
  assert (id ∉ closes p) as Hid by (intros [_ ?]%Hc; lia).
  destruct (Z.ltb_spec 0 (refs sc - 1)); intros [= <-];
    split; cbn [outputs goroutines closes results hardCtx closing]; try done.
  - intros id'. rewrite Hh. apply Hrefs.
  - intros id'. rewrite app_nil_r, Hdom, Hc, Hh. case_decide; subst; split; intros [? ?]; split; (done || lia).
  - by rewrite app_nil_r.
  - apply Forall_insert; [done|]. split; [done|]. by rewrite app_nil_r.
  - rewrite (sum_Z_insert _ _ _ _ _ Hg). cbn [finished]. lia.
  - intros id'. rewrite Hh. apply Hrefs.
  - intros id'. rewrite elem_of_app, list_elem_of_singleton, Hdom, Hc, Hh. case_decide; subst.
    + rewrite Eo. split; [intros _; split; [eauto|lia]|by right].
    + split; [intros [[??]|?]; [split; [done|lia]|done]|]. intros [??]. left. split; [done|lia].
  - apply NoDup_app. split; [done|]. split; [|apply NoDup_singleton]. by intros x Hx ->%list_elem_of_singleton.
  - apply Forall_insert; [done|]. split; [done|]. apply Forall_app. split; [done|]. destruct (close_error _); repeat constructor. by intros [].
  - rewrite (sum_Z_insert _ _ _ _ _ Hg). cbn [finished]. lia.
Qed.

Lemma perform_inv a p p' : pipeline_inv p → perform a p = Some p' → pipeline_inv p'.
Proof.
  intros Hi Hp. pose proof Hi as [Hr Hc Hn Hgs Hrs Hcount Hhard]. destruct a as [i e|i|i|i| | |]; cbn [perform] in Hp.
  - destruct (goroutines p !! i) as [[s| | |]|] eqn:Hg; try done. injection Hp as <-. apply (set_inv i (InFunc s)); try done.
    + intros id. apply range_keys_holds.
    + split; [apply range_map_nodup|]. destruct e; repeat constructor. by intros [].
  - destruct (goroutines p !! i) as [[|s [|id todo] es| |]|] eqn:Hg; try done. apply (mark_inv i s id todo es p); [done..|].
    cbn [perform]. by rewrite Hg.
  - destruct (goroutines p !! i) as [[|s [|id todo] es| |]|] eqn:Hg; try done. injection Hp as <-.
    assert (pipeline_inv (set_goroutine i (Sending es) p)) as Hs.
    { apply (set_inv i (Marking s [] es)); try done. by apply (Forall_lookup_1 _ _ _ _ Hgs Hg). }
    destruct es; [done|]. by apply contexts_inv.
  - destruct (goroutines p !! i) as [[| |es|]|] eqn:Hg; try done. destruct (closing p) eqn:Ec; [|done]. injection Hp as <-.
    assert (∀ id, holders id (<[i := Finished]> (goroutines p)) = holders id (goroutines p)) as Hh
      by (intros id; unfold holders; rewrite (sum_Z_insert _ _ _ _ _ Hg); cbn [holds]; lia).
    split; cbn [outputs goroutines closes results hardCtx closing]; try done.
    + intros id. by rewrite Hh.
    + intros id. by rewrite Hh.
    + by apply Forall_insert.
    + apply Forall_app. split; [done|]. apply Forall_singleton. apply (Forall_lookup_1 _ _ _ _ Hgs Hg).
    + rewrite (sum_Z_insert _ _ _ _ _ Hg), length_app. cbn [finished length]. lia.
  - injection Hp as <-. by apply contexts_inv.
  - destruct (closing p); [done|]. injection Hp as <-. by apply contexts_inv.
  - destruct (closing p); [|done]. injection Hp as <-. by apply contexts_inv.
Qed.

(** What no action changes: the outputs there are, and the number of goroutines. *)
Lemma perform_static a p p' : perform a p = Some p' →
  (∀ id, is_Some (outputs p' !! id) ↔ is_Some (outputs p !! id)) ∧ length (goroutines p') = length (goroutines p).
Proof.
  intros Hp. destruct a as [i e|i|i|i| | |]; cbn [perform] in Hp; repeat (case_match; try done); simplify_eq; cbn;
    rewrite ?length_insert; split; try done.
  intros id'. unfold done_ in *. repeat (case_match; try done); simplify_eq; rewrite ?lookup_insert_is_Some'; split; eauto;
    intros [->|]; eauto.
Qed.

Lemma finished_le gs : sum_Z (finished <$> gs) ≤ Z.of_nat (length gs).
Proof. induction gs as [|g gs IH]; [done|]. rewrite sum_Z_fmap_cons. cbn [length]. destruct g; cbn [finished]; lia. Qed.
Lemma sum_finished_all gs : sum_Z (finished <$> gs) = Z.of_nat (length gs) → ∀ g, g ∈ gs → g = Finished.
Proof.
  induction gs as [|g gs IH]; [by intros _ ? ?%not_elem_of_nil|]. rewrite sum_Z_fmap_cons. cbn [length]. intros Hs.
  pose proof (finished_le gs). intros g' [->|Hg]%elem_of_cons; destruct g; cbn [finished] in Hs; try lia; [done|]. apply IH; [lia|done].
Qed.
Lemma unfinished gs : sum_Z (finished <$> gs) ≠ Z.of_nat (length gs) → ∃ i g, gs !! i = Some g ∧ g ≠ Finished.
Proof.
  induction gs as [|g gs IH]; [done|]. rewrite sum_Z_fmap_cons. cbn [length]. intros Hs.
  destruct (decide (finished g = 1)) as [Hg|Hg]; [|exists 0%nat, g; split; [done|by intros ->]].
  destruct IH as (i & g' & Hi & Hne); [lia|]. by exists (S i), g'.
Qed.

(** What is left to do, in actions of the goroutines. *)
Definition work_of (g : goroutine) : Z :=
  match g with
  | InFunc s => 3 + Z.of_nat (size (Outputs s))
  | Marking _ todo _ => 2 + Z.of_nat (length todo)
  | Sending _ => 1
  | Finished => 0
  end.
Definition work (p : Pipeline) : Z := sum_Z (work_of <$> goroutines p).
Definition of_step (a : action) : bool := match a with Return _ _ | MarkDone _ | Joined _ | Report _ => true | _ => false end.

Lemma perform_work a p p' : perform a p = Some p' → work p' = work p - (if of_step a then 1 else 0).
Proof.
  intros Hp. unfold work. destruct a as [i e|i|i|i| | |]; cbn [perform of_step] in *;
    try (destruct (goroutines p !! i) as [g|] eqn:Hg; [|done]); repeat (case_match; try done); simplify_eq; cbn [set_goroutine set_contexts goroutines];
    rewrite ?(sum_Z_insert _ _ _ _ _ Hg); cbn [work_of length]; try lia.
  rewrite range_map_keys, range_keys_perm. change (length (elements (dom (Outputs s)))) with (size (dom (Outputs s))). rewrite size_dom. lia.
Qed.

Lemma run_pipeline_ind (P : list action → Pipeline → Prop) p : P [] p →
  (∀ actions a p1 p2, P actions p1 → perform a p1 = Some p2 → P (actions ++ [a]) p2) →
  ∀ actions p', run_pipeline actions p = Some p' → P actions p'.
Proof.
  intros H0 HS actions. induction actions as [|a actions IH] using rev_ind; intros p' Hp.
  - cbn in Hp. by injection Hp as <-.
  - unfold run_pipeline in Hp. rewrite foldl_app in Hp. cbn in Hp. apply bind_Some in Hp as (p1 & H1 & H2). eauto.
Qed.

Lemma run_inv actions p p' : pipeline_inv p → run_pipeline actions p = Some p' →
  pipeline_inv p' ∧ (∀ id, is_Some (outputs p' !! id) ↔ is_Some (outputs p !! id)) ∧ length (goroutines p') = length (goroutines p).
Proof.
  intros Hi. apply (run_pipeline_ind (λ _ p', pipeline_inv p' ∧ (∀ id, is_Some (outputs p' !! id) ↔ is_Some (outputs p !! id)) ∧
    length (goroutines p') = length (goroutines p))); [done|].
  intros _ a p1 p2 (H1 & Hd & Hl) Ha. split; [by apply (perform_inv a p1)|]. destruct (perform_static _ _ _ Ha) as [Hd2 Hl2].
  split; [|congruence]. intros id. by rewrite Hd2.
Qed.

Lemma start_outputs steps p : RunPipeline steps = Ok p →
  goroutines p = InFunc <$> steps ∧ ∀ id, is_Some (outputs p !! id) ↔ ∃ s, s ∈ steps ∧ is_Some (Outputs s !! id).
Proof.
  unfold RunPipeline. intros Hr. apply result_bind_ok in Hr as (outs & Hc & [= <-]). split; [done|]. intros id. cbn [outputs].
  destruct (check_steps_ok _ _ _ _ _ Hc id) as [_ ->]. split; [|by right]. by intros [[? [=]]|].
Qed.

Lemma holders_zero id gs : holders id gs = 0 ↔ ∀ g, g ∈ gs → holds id g = 0.
Proof.
  split; [apply sum_Z_zero, holds_nonneg|]. intros Hg. unfold holders. induction gs as [|g gs IH]; [done|].
  rewrite sum_Z_fmap_cons, (Hg g) by by left. apply IH. intros g' ?. apply Hg. by right.
Qed.

(** In whatever order the steps of a pipeline return, mark their outputs
    and report, an output is closed once, and it is closed exactly when no step
    that named it is still in its function or yet to mark it; the accounting of
    the users never fails, and the steps that do not ask for the cancellation of
    the pipeline see none before [Close] is called. When [Close] returns, it has
    the result of each step and every output is closed. *)
Theorem outputs_closed_once steps actions p p' :
  RunPipeline steps = Ok p → run_pipeline actions p = Some p' →
  NoDup (closes p') ∧
  (∀ id, id ∈ closes p' ↔ (∃ s, s ∈ steps ∧ is_Some (Outputs s !! id)) ∧ ∀ g, g ∈ goroutines p' → holds id g = 0) ∧
  Forall (Forall (λ e, ¬ internal e)) (results p') ∧
  (∀ s, ReceivePipelineCancellation s = false → step_context s p' ≠ None → closing p' = true) ∧
  (is_Some (Close_result p') → length (results p') = length steps ∧
    ∀ s id, s ∈ steps → is_Some (Outputs s !! id) → id ∈ closes p').
Proof.
  intros Hp Hrun. destruct (start_outputs _ _ Hp) as [Hgs Houts].
  destruct (run_inv _ _ _ (start_inv _ _ Hp) Hrun) as ([Hr Hc Hn Hg Hrs Hcount Hhard] & Hdom & Hlen).
  split; [done|]. split; [intros id; by rewrite Hc, Hdom, Houts, holders_zero|]. split; [done|].
  split; [unfold step_context; by intros s ->|]. unfold Close_result. destruct (Nat.eqb_spec (length (results p')) (length (goroutines p'))) as [He|]; [|by intros []].
  intros _. split; [rewrite He, Hlen, Hgs; apply length_fmap|]. intros s id Hs Hid. apply Hc. split; [apply Hdom, Houts; eauto|].
  apply holders_zero. intros g Hgin. by rewrite (sum_finished_all _ (eq_trans Hcount (f_equal Z.of_nat He)) g Hgin).
Qed.

(** Once [Close] was called, it returns as soon as the functions of the steps
    do: as long as it has not, a goroutine can act (if only by returning from
    its function), each of their actions brings the end nearer by one, and no
    other action moves it. *)
Theorem Close_returns steps actions p p' :
  RunPipeline steps = Ok p → run_pipeline actions p = Some p' →
  Z.of_nat (length (filter of_step actions)) + work p' = work p ∧ 0 ≤ work p' ∧
  (closing p' = true → Close_result p' = None → ∃ a, of_step a = true ∧ is_Some (perform a p')).
Proof.
  intros Hp Hrun. split; [|split].
  - revert actions p' Hrun. refine (run_pipeline_ind (λ actions p', Z.of_nat (length (filter of_step actions)) + work p' = work p) p _ _); [cbn; lia|].
    intros actions a p1 p2 IH Ha. rewrite (perform_work _ _ _ Ha), filter_app, length_app.
    destruct (of_step a) eqn:Ea; [rewrite filter_cons_True by (cbn; rewrite Ea; exact I)|rewrite filter_cons_False by (cbn; rewrite Ea; tauto)]; rewrite filter_nil; cbn [length]; lia.
  - apply sum_Z_nonneg. intros []; cbn; lia.
  - intros Hcl Hno. destruct (run_inv _ _ _ (start_inv _ _ Hp) Hrun) as ([_ _ _ _ _ Hcount _] & _ & _).
    destruct (unfinished (goroutines p')) as (i & g & Hi & Hg).
    { intros Hall. unfold Close_result in Hno. destruct (Nat.eqb_spec (length (results p')) (length (goroutines p'))); [done|]. lia. }
    destruct g as [s|s [|id todo] es|es|]; [exists (Return i None)|exists (Joined i)|exists (MarkDone i)|exists (Report i)|done];
      cbn [perform of_step]; rewrite Hi, ?Hcl; (split; [done|]); try destruct es; try destruct (done_ _ _) as [[]]; eauto.
Qed.
End pipeline.

(** ** [pipeline_steps.go]: [NewParallelStep] *)

Section parallel.
Context {In Out : Type} (MaxParallel : Z) (has_RemainingInput has_Output : bool).

(** A result on the channel of results; an error is its message. *)
Record presult := MkResult { jobID : Z; remainingIn : option In; output : option Out; result_err : option string }.

(** The goroutine that feeds the pool: claiming a slot for job [i], receiving its
    input, adding it, sending its last result, or through. *)
Inductive feeder :=
| Claiming (i : Z)
| Receiving (i : Z)
| Adding (i : Z) (x : In)
| Ending (r : presult)
| Fed.
Inductive collector := Waiting | Holding (r : presult) | Returned.

(** What became of a job's input: its output was sent, could not be sent or had
    nowhere to go; or the input was handed to [RemainingInput], or nobody asked
    for it. *)
Inductive fate := Sent (o : Out) | SendFailed (o : Out) | NoOutput (o : Out) | HandedBack (x : In) | Unclaimed (x : In).

(** [received] logs the inputs received, with the job each became, and [handled]
    what became of them. [jobs] are the ones added to the pool and not returned,
    [finishing] those about to send their result. *)
Record parallel := MkParallel {
  feeding : feeder;
  jobs : list (Z * In);
  finishing : list presult;
  slots : Z;
  buffer : list presult;
  results_closed : bool;
  collecting : collector;
  step_ctx : option string;
  step_err : list string;
  received : list (Z * In);
  handled : list (Z * fate);
}.

Definition max_slots : Z := Z.max 1 MaxParallel.
Definition max_buffer : Z := Z.max 0 (MaxParallel - 1).
Definition start : parallel := MkParallel (Claiming 0) [] [] 0 [] false Waiting None [] [] [].

Inductive paction :=
| StepCancelled (why : string)
| ClaimSlot
| ClaimCancelled
| Receive (o : In + option string)       (* an input; or the closed channel; or an error *)
| AddJob (o : option string)
| JobReturns (k : nat) (o : result string Out)
| JobSends (k : nat)
| FeederSends
| CloseResults
| Collect
| Process (sendErr : option string)
| FinishStep.

(** Sending on [results]: to a collector that waits, or into the buffer. *)
Definition offer (r : presult) (p : parallel) : option parallel :=
  let put buf col := Some (MkParallel (feeding p) (jobs p) (finishing p) (slots p) buf (results_closed p) col
    (step_ctx p) (step_err p) (received p) (handled p)) in
  match collecting p, buffer p with
  | Waiting, [] => put [] (Holding r)
  | _, _ => if Z.of_nat (length (buffer p)) <? max_buffer then put (buffer p ++ [r]) (collecting p) else None
  end.

Definition set_feeding (f : feeder) (p : parallel) : parallel :=
  MkParallel f (jobs p) (finishing p) (slots p) (buffer p) (results_closed p) (collecting p) (step_ctx p) (step_err p) (received p) (handled p).
Definition set_jobs (js : list (Z * In)) (fin : list presult) (ctx : option string) (p : parallel) : parallel :=
  MkParallel (feeding p) js fin (slots p) (buffer p) (results_closed p) (collecting p) ctx (step_err p) (received p) (handled p).
Definition set_slots (n : Z) (p : parallel) : parallel :=
  MkParallel (feeding p) (jobs p) (finishing p) n (buffer p) (results_closed p) (collecting p) (step_ctx p) (step_err p) (received p) (handled p).

(** [select { case <-slots: default: }]. *)
Definition free_slot (p : parallel) : parallel := set_slots (if 0 <? slots p then slots p - 1 else slots p) p.
Definition ctx_cancel (c : option string) (why : string) : option string := Some (default why c).

Definition fates (r : presult) (sendErr : option string) : list (Z * fate) :=
  match remainingIn r, output r with
  | Some x, _ => [(jobID r, if has_RemainingInput then HandedBack x else Unclaimed x)]
  | None, Some o => [(jobID r, if has_Output then (if sendErr is Some _ then SendFailed o else Sent o) else NoOutput o)]
  | None, None => []
  end.

(** The collector's loop body, given what sending the output would return. *)
Definition collect_result (r : presult) (sendErr : option string) (p : parallel) : parallel :=
  let p := MkParallel (feeding p) (jobs p) (finishing p) (slots p) (buffer p) (results_closed p) Waiting (step_ctx p)
    (step_err p) (received p) (handled p ++ fates r sendErr) in
  let join es p := MkParallel (feeding p) (jobs p) (finishing p) (slots p) (buffer p) (results_closed p) (collecting p) (step_ctx p)
    (step_err p ++ es) (received p) (handled p) in
  match result_err r with
  | Some e => free_slot (join ["job " +:+ pretty (jobID r) +:+ " failed: " +:+ e] p)
  | None =>
      match output r with
      | Some _ =>
          if has_Output && negb (length (step_err p) =? 0)%nat then join (match sendErr with Some e => [e] | None => [] end) p
          else free_slot p
      | None => free_slot p
      end
  end.

Definition pstep (a : paction) (p : parallel) : option parallel :=
  match a with
  | StepCancelled why => Some (set_jobs (jobs p) (finishing p) (ctx_cancel (step_ctx p) why) p)
  | ClaimSlot =>
      match feeding p with
      | Claiming i => if slots p <? max_slots then Some (set_slots (slots p + 1) (set_feeding (Receiving i) p)) else None
      | _ => None
      end
  | ClaimCancelled =>
      match feeding p, step_ctx p with
      | Claiming i, Some why => Some (set_feeding (Ending (MkResult i None None (Some why))) p)
      | _, _ => None
      end
  | Receive o =>
      match feeding p with
      | Receiving i =>
          Some (match o with
          | inl x =>
              MkParallel (Adding i x) (jobs p) (finishing p) (slots p) (buffer p) (results_closed p) (collecting p) (step_ctx p)
                (step_err p) (received p ++ [(i, x)]) (handled p)
          | inr e => set_feeding (Ending (MkResult i None None e)) p
          end)
      | _ => None
      end
  | AddJob o =>
      match feeding p with
      | Adding i x =>
          Some (match o with
          | None => set_jobs (jobs p ++ [(i, x)]) (finishing p) (step_ctx p) (set_feeding (Claiming (wrap_s 64 (i + 1))) p)
          | Some e => set_feeding (Ending (MkResult i (Some x) None (Some ("failed to add job to pool: " +:+ e)))) p
          end)
      | _ => None
      end
  | JobReturns k o =>
      match jobs p !! k with
      | Some (i, x) =>
          let js := delete k (jobs p) in
          Some (match o with
          | Ok v => set_jobs js (finishing p ++ [MkResult i None (Some v) None]) (step_ctx p) p
          | Err e => set_jobs js (finishing p ++ [MkResult i (Some x) None (Some ("func failed: " +:+ e))]) (ctx_cancel (step_ctx p) e) p
          end)
      | None => None
      end
  | JobSends k => r ← finishing p !! k; offer r (set_jobs (jobs p) (delete k (finishing p)) (step_ctx p) p)
  | FeederSends => match feeding p with Ending r => offer r (set_feeding Fed p) | _ => None end
  | CloseResults =>
      match feeding p, jobs p, finishing p, results_closed p with
      | Fed, [], [], false =>
          Some (MkParallel Fed [] [] (slots p) (buffer p) true (collecting p) (step_ctx p) (step_err p) (received p) (handled p))
      | _, _, _, _ => None
      end
  | Collect =>
      match collecting p, buffer p with
      | Waiting, r :: buf =>
          Some (MkParallel (feeding p) (jobs p) (finishing p) (slots p) buf (results_closed p) (Holding r) (step_ctx p)
            (step_err p) (received p) (handled p))
      | _, _ => None
      end
  | Process sendErr => match collecting p with Holding r => Some (collect_result r sendErr p) | _ => None end
  | FinishStep =>
      match collecting p, buffer p, results_closed p with
      | Waiting, [], true =>
          Some (MkParallel (feeding p) (jobs p) (finishing p) (slots p) [] true Returned (step_ctx p) (step_err p) (received p) (handled p))
      | _, _, _ => None
      end
  end.

Definition run_parallel (actions : list paction) (p : parallel) : option parallel :=
  foldl (λ p a, p ≫= pstep a) (Some p) actions.

(** *** The jobs and their inputs *)

Definition tracked (r : presult) : bool := bool_decide (is_Some (remainingIn r)) || bool_decide (is_Some (output r)).
Definition occurs {A} (j : Z) (l : list (Z * A)) : Z := sum_Z ((λ x, if decide (x.1 = j) then 1 else 0) <$> l).
Definition carries (j : Z) (r : presult) : Z := if decide (jobID r = j) then (if tracked r then 1 else 0) else 0.
Definition carried (j : Z) (rs : list presult) : Z := sum_Z (carries j <$> rs).

Definition held (c : collector) : list presult := match c with Holding r => [r] | _ => [] end.
Definition fed_by (f : feeder) : list presult := match f with Ending r => [r] | _ => [] end.
Definition adding (f : feeder) : list (Z * In) := match f with Adding i x => [(i, x)] | _ => [] end.
Definition inflight (p : parallel) : list presult := fed_by (feeding p) ++ finishing p ++ buffer p ++ held (collecting p).

(** The slots that are in use while the feeder runs. *)
Definition feeding_slot (f : feeder) : Z := match f with Receiving _ | Adding _ _ => 1 | _ => 0 end.
Lemma feeding_slot_nonneg f : 0 ≤ feeding_slot f.
Proof. by destruct f. Qed.
Definition feeds (f : feeder) : bool := match f with Ending _ | Fed => false | _ => true end.
Definition in_use (p : parallel) : Z :=
  feeding_slot (feeding p) + Z.of_nat (length (jobs p) + length (finishing p) + length (buffer p) + length (held (collecting p))).

Record parallel_inv (p : parallel) : Prop := {
  pinv_ids j : occurs j (received p) = occurs j (adding (feeding p)) + occurs j (jobs p) + carried j (inflight p) + occurs j (handled p);
  pinv_bound : Z.of_nat (length (jobs p) + length (finishing p)) ≤ max_slots;
  pinv_slots : feeds (feeding p) = true → in_use p ≤ slots p ≤ max_slots ∧ (step_err p = [] → slots p = in_use p);
  pinv_buffer : Z.of_nat (length (buffer p)) ≤ max_buffer;
  pinv_errs : Forall (λ r, result_err r = None ∨ step_ctx p ≠ None ∨ feeding p = Fed) (finishing p ++ buffer p ++ held (collecting p));
  pinv_err : step_err p = [] ∨ step_ctx p ≠ None ∨ feeding p = Fed;
  pinv_closed : results_closed p = true → feeding p = Fed ∧ jobs p = [] ∧ finishing p = [];
  pinv_returned : collecting p = Returned → results_closed p = true ∧ buffer p = [];
}.

Lemma start_pinv : parallel_inv start.
Proof.
  split; cbn; try done; try (constructor; done); unfold max_slots, max_buffer, in_use; cbn; try lia.
Qed.

Lemma occurs_app {A} j (l k : list (Z * A)) : occurs j (l ++ k) = occurs j l + occurs j k.
Proof. unfold occurs. by rewrite fmap_app, sum_Z_app. Qed.
Lemma carried_app j l k : carried j (l ++ k) = carried j l + carried j k.
Proof. unfold carried. by rewrite fmap_app, sum_Z_app. Qed.
Lemma carried_cons j r l : carried j (r :: l) = carries j r + carried j l.
Proof. done. Qed.
Lemma occurs_delete {A} j (l : list (Z * A)) k x : l !! k = Some x → occurs j (delete k l) = occurs j l - occurs j [x].
Proof. intros Hk. unfold occurs. rewrite (sum_Z_delete _ _ _ _ Hk). cbn. lia. Qed.
Lemma carried_delete j l k x : l !! k = Some x → carried j (delete k l) = carried j l - carried j [x].
Proof. intros Hk. unfold carried. rewrite (sum_Z_delete _ _ _ _ Hk). cbn. lia. Qed.

Lemma offer_spec r p p' : offer r p = Some p' → ∃ buf col,
  p' = MkParallel (feeding p) (jobs p) (finishing p) (slots p) buf (results_closed p) col (step_ctx p) (step_err p) (received p) (handled p) ∧
  (length buf + length (held col) = S (length (buffer p) + length (held (collecting p))))%nat ∧
  (∀ j, carried j (buf ++ held col) = carried j (buffer p ++ held (collecting p)) + carries j r) ∧
  (∀ P, P r → Forall P (buffer p ++ held (collecting p)) → Forall P (buf ++ held col)) ∧
  (Z.of_nat (length (buffer p)) ≤ max_buffer → Z.of_nat (length buf) ≤ max_buffer) ∧
  (col = Returned → collecting p = Returned).
Proof.
  unfold offer. intros Hp.
  assert (collecting p = Waiting ∧ buffer p = [] ∨ Z.of_nat (length (buffer p)) < max_buffer ∧
    p' = MkParallel (feeding p) (jobs p) (finishing p) (slots p) (buffer p ++ [r]) (results_closed p) (collecting p)
      (step_ctx p) (step_err p) (received p) (handled p)) as [[Hc Hb]|[Hl ->]].
  { destruct (collecting p), (buffer p); [by left| | | | |]; right;
      (match type of Hp with (if ?b then _ else _) = _ => destruct b eqn:El; [|done] end); apply Z.ltb_lt in El; injection Hp as <-; done. }
  - rewrite Hc, Hb in *. injection Hp as <-. exists [], (Holding r). split; [done|]. cbn. split; [done|].
    split; [intros j; unfold carried; cbn; lia|]. split; [intros; by constructor|]. done.
  - exists (buffer p ++ [r]), (collecting p). split; [done|]. rewrite length_app. cbn. split; [lia|].
    split; [intros j; rewrite !carried_app; unfold carried; cbn; lia|]. split; [|split; [lia|done]].
    intros P Hr [Hb Hh]%Forall_app. rewrite !Forall_app. repeat split; auto.
Qed.

Lemma job_returns_inv k o p p' : parallel_inv p → pstep (JobReturns k o) p = Some p' → parallel_inv p'.
Proof.
  intros [Hids Hbound Hslots Hbuf Herrs Herr Hclosed Hret]. cbn [pstep]. destruct (jobs p !! k) as [[i x]|] eqn:Hk; [|done].
  assert (length (jobs p) = S (length (delete k (jobs p)))) as Hl
    by (rewrite length_delete by eauto; pose proof (lookup_lt_Some _ _ _ Hk); lia).
  assert (∀ j r, jobID r = i → tracked r = true → occurs j (jobs p) = occurs j (delete k (jobs p)) + carried j [r]) as Ho.
  { intros j r <- Ht. rewrite (occurs_delete _ _ _ _ Hk). unfold occurs, carried, carries. cbn. rewrite Ht. case_decide; lia. }
  assert (∀ r c, jobID r = i → tracked r = true → (c = step_ctx p ∧ result_err r = None ∨ c ≠ None) →
    parallel_inv (set_jobs (delete k (jobs p)) (finishing p ++ [r]) c p)) as H.
  { intros r c Hi Ht Hc. unfold inflight, in_use in *.
    split; unfold inflight, in_use; cbn [set_jobs feeding jobs finishing slots buffer results_closed collecting step_ctx step_err received handled]; try done.
    - intros j. rewrite Hids, (Ho j r Hi Ht), !carried_app. lia.
    - rewrite length_app. cbn. lia.
    - rewrite length_app. cbn [length]. intros Hf. destruct (Hslots Hf) as [? Heq]. split; [lia|]. intros Hnil. rewrite (Heq Hnil). lia.
    - rewrite <- app_assoc. apply Forall_app in Herrs as [H1 H2]. apply Forall_app. split; [|apply Forall_cons; split].
      + eapply Forall_impl; [exact H1|]. cbn. intros r' [?|[?|?]]; [by left| |by right; right]. destruct Hc as [[-> _]|?]; auto.
      + destruct Hc as [[_ ?]|?]; auto.
      + eapply Forall_impl; [exact H2|]. cbn. intros r' [?|[?|?]]; [by left| |by right; right]. destruct Hc as [[-> _]|?]; auto.
    - destruct Herr as [?|[?|?]]; [by left| |by right; right]. destruct Hc as [[-> _]|?]; auto.
    - intros Hcl. destruct (Hclosed Hcl) as (_ & E & _). by rewrite E in Hk. }
  destruct o as [v|e]; intros [= <-]; apply H; cbn; auto.
Qed.

Lemma process_inv r sendErr p : collecting p = Holding r → parallel_inv p → parallel_inv (collect_result r sendErr p).
Proof.
  intros Hc [Hids Hbound Hslots Hbuf Herrs Herr Hclosed Hret]. unfold inflight, in_use in *. rewrite Hc in *. cbn [held length] in *.
  assert (∀ j, occurs j (fates r sendErr) = carries j r) as Hf.
  { intros j. unfold fates, carries, tracked. destruct (remainingIn r), (output r); unfold occurs; cbn; case_decide; lia. }
  rewrite !Forall_app in Herrs. destruct Herrs as (He1 & He2 & [Hr _]%Forall_cons).
  assert (∀ n es, (feeds (feeding p) = true → slots p - 1 ≤ n ≤ slots p ∧ (step_err p ++ es = [] → n = slots p - 1)) →
    (es = [] ∨ step_err p ≠ [] ∨ result_err r ≠ None) →
    parallel_inv (MkParallel (feeding p) (jobs p) (finishing p) n (buffer p) (results_closed p) Waiting (step_ctx p)
      (step_err p ++ es) (received p) (handled p ++ fates r sendErr))) as H.
  { intros n es Hn Hes. split; unfold inflight, in_use; cbn [held length feeding jobs finishing slots buffer results_closed collecting step_ctx step_err received handled]; try done.
    - intros j. rewrite Hids, occurs_app, !carried_app, Hf. unfold carried. cbn. lia.
    - intros Hfe. destruct (Hslots Hfe) as [? Heq], (Hn Hfe) as [? Hn2]. split; [lia|]. intros Hnil. rewrite (Hn2 Hnil).
      apply app_eq_nil in Hnil as [Hnil _]. rewrite (Heq Hnil). lia.
    - rewrite app_nil_r. by apply Forall_app.
    - destruct Hes as [->|[?|Hre]]; [by rewrite app_nil_r|destruct Herr as [?|?]; [done|by right]|].
      destruct Hr as [?|?]; [done|by right].
  }
  assert (∀ es, (es = [] ∨ step_err p ≠ [] ∨ result_err r ≠ None) → parallel_inv (MkParallel (feeding p) (jobs p) (finishing p)
    (if 0 <? slots p then slots p - 1 else slots p) (buffer p) (results_closed p) Waiting (step_ctx p)
      (step_err p ++ es) (received p) (handled p ++ fates r sendErr))) as Hfree.
  { intros es Hes. apply H; [|done]. intros Hfe. destruct (Hslots Hfe) as [? _]. pose proof (feeding_slot_nonneg (feeding p)).
    destruct (Z.ltb_spec 0 (slots p)); split; intros; lia. }
  assert (parallel_inv (free_slot (MkParallel (feeding p) (jobs p) (finishing p) (slots p) (buffer p) (results_closed p) Waiting
    (step_ctx p) (step_err p) (received p) (handled p ++ fates r sendErr)))) as Hplain
    by (pose proof (Hfree [] (or_introl eq_refl)) as Hx; by rewrite app_nil_r in Hx).
  unfold collect_result. destruct (result_err r) as [e|] eqn:Ee; [apply (Hfree [_]); right; by right|].
  destruct (output r) as [o|]; [|done]. cbn [step_err].
  destruct (has_Output && negb (length (step_err p) =? 0)%nat) eqn:Eb; [|done].
  apply andb_prop in Eb as [_ Hne%negb_true_iff%Nat.eqb_neq]. apply (H (slots p)); [|right; left; by intros E; rewrite E in Hne].
  intros _. split; [lia|]. intros [Hnil _]%app_eq_nil. by rewrite Hnil in Hne.
Qed.

#[local] Ltac pinv_cbn := unfold inflight, in_use in *;
  cbn [set_feeding set_slots set_jobs feeding jobs finishing slots buffer results_closed collecting step_ctx step_err received handled
    feeding_slot feeds adding fed_by app length held] in *.

Lemma sends_inv p k p' : parallel_inv p → pstep (JobSends k) p = Some p' → parallel_inv p'.
Proof.
  intros [Hids Hbound Hslots Hbuf Herrs Herr Hclosed Hret]. cbn [pstep]. destruct (finishing p !! k) as [r|] eqn:Hk; [|done].
  intros (buf & col & -> & Hlen & Hc & HP & Hb & Hcol)%offer_spec. pinv_cbn.
  assert (length (finishing p) = S (length (delete k (finishing p)))) as Hl
    by (rewrite length_delete by eauto; pose proof (lookup_lt_Some _ _ _ Hk); lia).
  rewrite Forall_app in Herrs. destruct Herrs as [Hf Hrest].
  split; pinv_cbn; try done.
  - intros j. rewrite Hids, !carried_app, (carried_delete _ _ _ _ Hk). specialize (Hc j). rewrite !carried_app in Hc.
    unfold carried in *. cbn in *. lia.
  - lia.
  - intros Hfe. destruct (Hslots Hfe) as [? Heq]. split; [lia|]. intros Hnil. rewrite (Heq Hnil). lia.
  - by apply Hb.
  - apply Forall_app. split; [by apply Forall_delete|]. apply HP; [|done]. apply (Forall_lookup_1 _ _ _ _ Hf Hk).
  - intros Hcl. destruct (Hclosed Hcl) as (_ & _ & E). by rewrite E in Hk.
  - intros Hcr. destruct (Hret (Hcol Hcr)) as [Hcl _]. destruct (Hclosed Hcl) as (_ & _ & E). by rewrite E in Hk.
Qed.

Lemma feeder_sends_inv p p' : parallel_inv p → pstep FeederSends p = Some p' → parallel_inv p'.
Proof.
  intros [Hids Hbound Hslots Hbuf Herrs Herr Hclosed Hret]. cbn [pstep]. destruct (feeding p) as [| | |r|] eqn:Ef; try done.
  intros (buf & col & -> & Hlen & Hc & HP & Hb & Hcol)%offer_spec. pinv_cbn. rewrite Ef in *.
  split; pinv_cbn; try done.
  - intros j. rewrite Hids, carried_cons, !carried_app. specialize (Hc j). rewrite !carried_app in Hc. change (occurs j (@nil (Z * In))) with 0. lia.
  - by apply Hb.
  - apply Forall_forall. auto.
  - auto.
  - intros Hcl. by destruct (Hclosed Hcl).
  - intros Hcr. destruct (Hret (Hcol Hcr)) as [Hcl _]. by destruct (Hclosed Hcl).
Qed.

Lemma feed_inv a p p' : match a with ClaimSlot | ClaimCancelled | Receive _ | AddJob _ => True | _ => False end →
  parallel_inv p → pstep a p = Some p' → parallel_inv p'.
Proof.
  intros Ha [Hids Hbound Hslots Hbuf Herrs Herr Hclosed Hret] Hp.
  assert (feeds (feeding p) = true) as Hfe by (destruct a; cbn [pstep] in Hp; try done; destruct (feeding p); done).
  assert (results_closed p = false) as Hopen by (destruct (results_closed p); [destruct (Hclosed eq_refl) as [E _]; by rewrite E in Hfe|done]).
  destruct (Hslots Hfe) as [Hs Hs2]. clear Hslots. pose proof (feeding_slot_nonneg (feeding p)).
  assert (Forall (λ r, result_err r = None ∨ step_ctx p ≠ None) (finishing p ++ buffer p ++ held (collecting p))) as Herrs'.
  { eapply Forall_impl; [exact Herrs|]. cbn. intros r [?|[?|E]]; auto. by rewrite E in Hfe. }
  destruct a as [ | | |o|o| | | | | | | ]; try done; cbn [pstep] in Hp;
    destruct (feeding p) as [i|i|i x| |] eqn:Ef; try done; repeat (case_match; try done); simplify_eq; subst;
    (split; pinv_cbn; rewrite ?Ef in *; try (rewrite Hopen; done); try done; pinv_cbn);
    rewrite ?Z.ltb_lt in *; rewrite ?length_app; cbn [length];
    lazymatch goal with
    | |- context [_ = Fed] => first [eapply Forall_impl; [exact Herrs'|]; cbn; intros r [?|?]; [by left|right; left; congruence]
      | destruct Herr as [?|[?|?]]; [by left|right; left; congruence|done]]
    | |- ∀ j, occurs j _ = _ =>
        intros j; rewrite ?occurs_app, Hids, ?carried_cons; unfold occurs, carries; cbn; repeat case_decide; lia
    | |- _ → _ => intros _; split; [lia|intros Hn; specialize (Hs2 Hn); lia]
    | |- _ => lia
    end.
Qed.

Lemma collect_inv p p' : parallel_inv p → pstep Collect p = Some p' → parallel_inv p'.
Proof.
  intros [Hids Hbound Hslots Hbuf Herrs Herr Hclosed Hret]. cbn [pstep].
  destruct (collecting p) eqn:Ec; try done. destruct (buffer p) as [|r buf] eqn:Eb; [done|]. intros [= <-].
  unfold inflight, in_use in *. rewrite Ec, Eb in Hids, Hslots. pinv_cbn. split; pinv_cbn; try done.
  - intros j. rewrite Hids, !carried_app, !carried_cons, !carried_app. unfold carried; cbn. lia.
  - intros Hfe. destruct (Hslots Hfe) as [? Heq]. split; [lia|]. intros Hn. rewrite (Heq Hn). lia.
  - lia.
  - rewrite app_nil_r in Herrs. apply Forall_app in Herrs as [H1 [H2 H3]%Forall_cons]. rewrite !Forall_app. auto using Forall_cons_2.
Qed.

Lemma pstep_inv a p p' : parallel_inv p → pstep a p = Some p' → parallel_inv p'.
Proof.
  intros Hi Hp. pose proof Hi as [Hids Hbound Hslots Hbuf Herrs Herr Hclosed Hret].
  destruct a as [why| | |o|o|k o|k| | | |sendErr| ];
    try (by (eapply feed_inv; [|exact Hi|exact Hp]; exact I)); [|by apply (job_returns_inv k o p)|by apply (sends_inv p k)|by apply (feeder_sends_inv p)| |by apply (collect_inv p)| |];
    cbn [pstep] in Hp.
  - injection Hp as <-. split; try done; cbn.
    + eapply Forall_impl; [exact Herrs|]. cbn. intros r [?|?]; auto.
    + auto.
  - destruct (feeding p) eqn:Ef; try done. destruct (jobs p) eqn:Ej, (finishing p) eqn:El, (results_closed p) eqn:Er; try done.
    injection Hp as <-. split; pinv_cbn; rewrite ?Ef, ?Ej, ?El in *; try done. intros Hr. by destruct (Hret Hr).
  - destruct (collecting p) eqn:Ec; try done. injection Hp as <-. by apply process_inv.
  - destruct (collecting p) eqn:Ec; try done. destruct (buffer p) eqn:Eb, (results_closed p) eqn:Er; try done.
    injection Hp as <-. destruct (Hclosed eq_refl) as (Ef & Ej & El).
    split; pinv_cbn; rewrite ?Ef, ?Ej, ?El, ?Ec, ?Eb in *; try done.
Qed.

(** Until it returns, the step can go on. *)
Lemma progress p : parallel_inv p → collecting p ≠ Returned → ∃ a, (∀ why, a ≠ StepCancelled why) ∧ is_Some (pstep a p).
Proof.
  intros [Hids Hbound Hslots Hbuf Herrs Herr Hclosed Hret] Hc. pinv_cbn.
  destruct (collecting p) as [|r|] eqn:Ec; [|exists (Process None); cbn; rewrite Ec; split; [done|eauto]|done].
  destruct (buffer p) as [|r buf] eqn:Eb; [|exists Collect; cbn; rewrite Ec, Eb; split; [done|eauto]].
  destruct (finishing p) as [|r fin] eqn:El;
    [|exists (JobSends 0); cbn; rewrite El; cbn; unfold offer; cbn; rewrite Ec, Eb; split; [done|eauto]].
  destruct (jobs p) as [|[i x] js] eqn:Ej; [|exists (JobReturns 0 (Err "")); cbn; rewrite Ej; split; [done|eauto]].
  destruct (feeding p) as [i|i|i x|r|] eqn:Ef.
  - destruct (Z.ltb_spec (slots p) max_slots) as [Hlt|Hge].
    { exists ClaimSlot. cbn. rewrite Ef. destruct (Z.ltb_spec (slots p) max_slots); [|lia]. split; [done|eauto]. }
    exists ClaimCancelled. cbn. rewrite Ef. destruct (step_ctx p); [split; [done|eauto]|].
    destruct (Hslots eq_refl) as [_ Heq]. destruct Herr as [Hn|[?|?]]; [|done..]. specialize (Heq Hn). unfold max_slots in *. cbn in Heq. lia.
  - exists (Receive (inr None)). cbn. rewrite Ef. split; [done|eauto].
  - exists (AddJob None). cbn. rewrite Ef. split; [done|eauto].
  - exists FeederSends. cbn. rewrite Ef. unfold offer. cbn. rewrite Ec, Eb. split; [done|eauto].
  - destruct (results_closed p) eqn:Er.
    + exists FinishStep. cbn. rewrite Ec, Eb, Er. split; [done|eauto].
    + exists CloseResults. cbn. rewrite Ef, Ej, El, Er. split; [done|eauto].
Qed.

Lemma parallel_ind (P : parallel → Prop) p : P p → (∀ a p1 p2, P p1 → pstep a p1 = Some p2 → P p2) →
  ∀ actions p', run_parallel actions p = Some p' → P p'.
Proof.
  intros H0 HS actions. induction actions as [|a actions IH] using rev_ind; intros p' Hp.
  - cbn in Hp. by injection Hp as <-.
  - unfold run_parallel in Hp. rewrite foldl_app in Hp. cbn in Hp. apply bind_Some in Hp as (p1 & H1 & H2). eauto.
Qed.

Lemma occurs_nonneg {A} j (l : list (Z * A)) : 0 ≤ occurs j l.
Proof. apply sum_Z_nonneg. intros. case_decide; lia. Qed.
Lemma occurs_cons {A} j i x (l : list (Z * A)) : occurs j ((i, x) :: l) = (if decide (i = j) then 1 else 0) + occurs j l.
Proof. done. Qed.
Lemma occurs_pos {A} j (l : list (Z * A)) : 0 < occurs j l → ∃ n x, l !! n = Some (j, x).
Proof.
  induction l as [|[i x] l IH]; [done|]. rewrite occurs_cons. case_decide as E.
  - intros _. subst. by exists 0%nat, x.
  - intros H. destruct IH as (n & y & Hn); [lia|]. by exists (S n), y.
Qed.
Lemma occurs_perm {A B} (l : list (Z * A)) (k : list (Z * B)) : (∀ j, occurs j l = occurs j k) → l.*1 ≡ₚ k.*1.
Proof.
  induction l as [|[i x] l IH] in k |- *; intros Ho.
  - destruct k as [|[i y] k]; [done|]. specialize (Ho i). rewrite occurs_cons, decide_True in Ho by done.
    pose proof (occurs_nonneg i k). change (occurs i (@nil (Z * A))) with 0 in Ho. lia.
  - destruct (occurs_pos i k) as (n & y & Hn).
    { rewrite <- Ho, occurs_cons, decide_True by done. pose proof (occurs_nonneg i l). lia. }
    rewrite (delete_Permutation k n (i, y) Hn). cbn. constructor. apply IH. intros j. rewrite (occurs_delete _ _ _ _ Hn), <- Ho, !occurs_cons.
    change (occurs j []) with 0. lia.
Qed.

(** C35. A parallel step keeps its bounds and loses no input in any interleaving:
    never more jobs in the pool than the larger of one and [MaxParallel], the
    buffer of results within its capacity; until it returns, some goroutine can
    act, so it cannot deadlock; and when it returns, each input it received
    became of exactly one of the fates of [fate]. *)
Theorem parallel_step_sound actions p :
  run_parallel actions start = Some p →
  Z.of_nat (length (jobs p) + length (finishing p)) ≤ max_slots ∧
  Z.of_nat (length (buffer p)) ≤ max_buffer ∧
  (collecting p ≠ Returned → ∃ a, (∀ why, a ≠ StepCancelled why) ∧ is_Some (pstep a p)) ∧
  (collecting p = Returned → (received p).*1 ≡ₚ (handled p).*1).
Proof.
  intros Hr. assert (parallel_inv p) as Hi by (revert Hr; apply parallel_ind; [apply start_pinv|apply pstep_inv]).
  pose proof Hi as [Hids Hbound Hslots Hbuf Herrs Herr Hclosed Hret]. split; [done|]. split; [done|]. split; [by apply progress|].
  intros Hc. destruct (Hret Hc) as [Hcl Eb]. destruct (Hclosed Hcl) as (Ef & Ej & El). apply occurs_perm. intros j.
  rewrite Hids. pinv_cbn. rewrite Hc, Eb, Ef, Ej, El. unfold occurs, carried. cbn. lia.
Qed.

(** An action by which nothing fails, sending the outputs apart. *)
Definition clean (a : paction) : Prop :=
  match a with
  | StepCancelled _ | Receive (inr (Some _)) | AddJob (Some _) | JobReturns _ (Err _) => False
  | _ => True
  end.

Record quiet (p : parallel) : Prop := {
  quiet_ctx : step_ctx p = None;
  quiet_err : step_err p = [];
  quiet_results : Forall (λ r, result_err r = None ∧ remainingIn r = None) (inflight p);
  quiet_handled : Forall (λ f, match f.2 with HandedBack _ | Unclaimed _ => False | _ => True end) (handled p);
}.

Lemma quiet_step a p p' : clean a → quiet p → pstep a p = Some p' → quiet p'.
Proof.
  intros Ha [Hctx Herr Hrs Hhd] Hp. unfold inflight in Hrs. rewrite !Forall_app in Hrs. destruct Hrs as (Hfe & Hfi & Hbu & Hhe).
  destruct a as [why| | |[x|[e|]]|[e|]|k [e|v]|k| | | |sendErr| ]; try done; cbn [pstep] in Hp.
  - destruct (feeding p); try done. destruct (_ <? _); [|done]. injection Hp as <-. split; try done. unfold inflight. cbn. by rewrite !Forall_app.
  - rewrite Hctx in Hp. by destruct (feeding p).
  - destruct (feeding p); try done. injection Hp as <-. split; try done. unfold inflight. cbn. by rewrite !Forall_app.
  - destruct (feeding p); try done. injection Hp as <-. split; try done. unfold inflight. cbn. constructor; [done|]. by rewrite !Forall_app.
  - destruct (feeding p); try done. injection Hp as <-. split; try done. unfold inflight. cbn. by rewrite !Forall_app.
  - destruct (jobs p !! k) as [[i x]|]; [|done]. injection Hp as <-. split; try done. unfold inflight. cbn. rewrite !Forall_app. by repeat constructor.
  - destruct (finishing p !! k) as [r|] eqn:Hk; [|done]. apply offer_spec in Hp as (buf & col & -> & _ & _ & HP & _).
    split; try done. unfold inflight. cbn. pose proof (Forall_lookup_1 _ _ _ _ Hfi Hk). rewrite (Forall_app _ (fed_by _)), (Forall_app _ (delete _ _)).
    split; [done|]. split; [by apply Forall_delete|]. apply HP; [done|]. by apply Forall_app.
  - destruct (feeding p) as [| | |r|] eqn:Ef; try done. apply offer_spec in Hp as (buf & col & -> & _ & _ & HP & _).
    split; try done. unfold inflight. cbn. apply Forall_app. split; [done|]. apply Forall_cons in Hfe as [? _]. apply HP; [done|]. by apply Forall_app.
  - destruct (feeding p), (jobs p), (finishing p), (results_closed p); try done. injection Hp as <-. split; try done. unfold inflight. cbn. by apply Forall_app.
  - destruct (collecting p); try done. destruct (buffer p) as [|r buf]; [done|]. apply Forall_cons in Hbu as [??]. injection Hp as <-. split; try done.
    unfold inflight. cbn. rewrite !Forall_app. auto using Forall_cons_2.
  - destruct (collecting p) as [|r|]; try done. injection Hp as <-. apply Forall_cons in Hhe as [[Hre Hri] _].
    assert (Forall (λ f : Z * fate, match f.2 with HandedBack _ | Unclaimed _ => False | _ => True end) (handled p ++ fates r sendErr)) as Hf.
    { apply Forall_app. split; [done|]. unfold fates. rewrite Hri. destruct (output r); repeat constructor. cbn. by destruct has_Output, sendErr. }
    unfold collect_result. rewrite Hre. cbn [step_err]. rewrite Herr. cbn [length Nat.eqb negb]. rewrite andb_false_r.
    destruct (output r); (split; try done; unfold inflight; cbn; by rewrite !Forall_app).
  - destruct (collecting p), (buffer p), (results_closed p); try done. injection Hp as <-. split; try done. unfold inflight. cbn.
    by rewrite !Forall_app.
Qed.

(** A failure to send an output is forgotten: when nothing else fails, the
    parallel step returns no error and hands no input back, whatever sending its
    outputs returned (the loop looks at the error of the step where it means
    the one of the send). *)
Theorem send_failures_forgotten actions p :
  Forall clean actions → run_parallel actions start = Some p →
  step_err p = [] ∧ ∀ i f, (i, f) ∈ handled p → match f with HandedBack _ | Unclaimed _ => False | _ => True end.
Proof.
  intros Hc Hr. assert (quiet p) as [_ He _ Hh].
  { revert p Hr. induction actions as [|a actions IH] using rev_ind; intros p Hr.
    - injection Hr as <-. by split; constructor.
    - unfold run_parallel in Hr. rewrite foldl_app in Hr. cbn in Hr. apply bind_Some in Hr as (p1 & H1 & H2).
      apply Forall_app in Hc as [Hc [Ha _]%Forall_cons]. by apply (quiet_step a p1); [|apply IH|]. }
  split; [done|]. intros i f Hin. by apply (proj1 (Forall_forall _ _) Hh (i, f)).
Qed.
End parallel.

(** *** Instances *)

Definition read_step : PipelineStep := MkStep "read" {["link" := 1]} true true.
Definition copy_step : PipelineStep := MkStep "copy" {["link" := 1; "out" := 2]} false true.

Definition copy_actions : list action :=
  [Return 0 None; MarkDone 0; Return 1 (Some "no space"); MarkDone 1; CloseCalled; MarkDone 1; Joined 1; Report 1; Joined 0; Report 0].
Definition copy_pipeline : option Pipeline :=
  match RunPipeline (R := elements_order) [read_step; copy_step] with Ok p => Some p | Err _ => None end.

Lemma outputs_closed_once_witness : ∃ p p',
  RunPipeline (R := elements_order) [read_step; copy_step] = Ok p ∧
  run_pipeline (R := elements_order) (λ _, None) copy_actions p = Some p' ∧
  Close_result p' = Some [PipelineStepError "copy" "no space"] ∧ closes p' = ["out"; "link"] ∧ NoDup (closes p').
Proof.
  eexists. eexists. split; [vm_compute; reflexivity|]. split; [vm_compute; reflexivity|]. split; [vm_compute; reflexivity|].
  split; [vm_compute; reflexivity|].
  eapply (outputs_closed_once (R := elements_order) (λ _, None) [read_step; copy_step] copy_actions); vm_compute; reflexivity.
Defined.

Lemma Close_returns_witness : ∃ p p',
  RunPipeline (R := elements_order) [read_step; copy_step] = Ok p ∧
  run_pipeline (R := elements_order) (λ _, None) copy_actions p = Some p' ∧
  Z.of_nat (length (filter of_step copy_actions)) + work p' = work p.
Proof.
  eexists. eexists. split; [vm_compute; reflexivity|]. split; [vm_compute; reflexivity|].
  eapply (Close_returns (R := elements_order) (λ _, None) [read_step; copy_step] copy_actions); vm_compute; reflexivity.
Defined.

(** Two inputs through a step with one slot; the second output cannot be sent. *)
Definition lost_send : list (paction (In := string) (Out := Z)) :=
  [ClaimSlot; Receive (inl "a"); AddJob None; JobReturns 0 (Ok 1); JobSends 0; Process None;
   ClaimSlot; Receive (inl "b"); AddJob None; JobReturns 0 (Ok 2); JobSends 0; Process (Some "context canceled");
   ClaimSlot; Receive (inr None); FeederSends; CloseResults; Process None; FinishStep].

Lemma parallel_step_sound_witness : ∃ p,
  run_parallel 1 true true lost_send start = Some p ∧ collecting p = Returned ∧ (received p).*1 ≡ₚ (handled p).*1.
Proof.
  eexists. split; [vm_compute; reflexivity|]. split; [reflexivity|].
  eapply (parallel_step_sound 1 true true lost_send); vm_compute; reflexivity.
Defined.

Lemma send_failures_forgotten_witness : ∃ p,
  run_parallel 1 true true lost_send start = Some p ∧ collecting p = Returned ∧ handled p = [(0, Sent 1); (1, SendFailed 2)] ∧ step_err p = [].
Proof.
  eexists. split; [vm_compute; reflexivity|]. split; [reflexivity|]. split; [reflexivity|].
  eapply (send_failures_forgotten 1 true true lost_send); [|vm_compute; reflexivity]. repeat constructor.
Defined.
