(* ===== verification/Pool.v ===== *)
(** Package [work], the pool of workers ([pool.go]): its counters, scaling it and
    closing it, as actions of the workers and the callers in any order. *)

From S2P Require Import Prelude GoLib.

(** ** State

    A worker is about to count itself idle, in its [select], with a job or a stop
    signal it took before it counts itself busy, in a job, or leaving: before its
    deferred [wg.Done], before [workers.Add(-1)], or gone. *)
Section pool.
Context {Job : Type} (maxOpenJobs : Z).

Inductive worker :=
| Starting
| Selecting
| TookJob (j : Job)
| Running (j : Job)
| TookStop
| Leaving
| Uncounting
| Gone.

(** The caller that has the mutex: none, [ScaleWorkers] with the workers still to
    start or stop, or [Close] waiting for idle workers or for the group. *)
Inductive holder := Free | Scaling (diff : Z) | WaitIdle | WaitGroup.

Record Pool := MkPool {
  mu : holder;
  closeCtx : bool;           (* cancelled *)
  jobQueue : list Job;
  queueClosed : bool;
  workers : Z;
  idleWorkers : Z;
  pool_workers : list worker;
  adders : list Job;         (* callers of [AddJob] in its [select] *)
  panicked : bool;
}.

Definition set_worker (k : nat) (w : worker) (dw di : Z) (p : Pool) : Pool :=
  MkPool (mu p) (closeCtx p) (jobQueue p) (queueClosed p) (workers p + dw) (idleWorkers p + di)
    (<[k := w]> (pool_workers p)) (adders p) (panicked p).
Definition set_mu (m : holder) (p : Pool) : Pool :=
  MkPool m (closeCtx p) (jobQueue p) (queueClosed p) (workers p) (idleWorkers p) (pool_workers p) (adders p) (panicked p).
Definition startWorker (p : Pool) : Pool :=
  MkPool (mu p) (closeCtx p) (jobQueue p) (queueClosed p) (workers p + 1) (idleWorkers p) (pool_workers p ++ [Starting]) (adders p) (panicked p).

Definition NewPool (startingWorkers : Z) : Pool :=
  Nat.iter (Z.to_nat (if startingWorkers <? 1 then 1 else startingWorkers)) startWorker
    (MkPool Free false [] false 0 0 [] [] false).

Definition waiting_for (w : worker) : Z := match w with Uncounting | Gone => 0 | _ => 1 end.
(** The count of the wait group. *)
Definition wg (p : Pool) : Z := sum_Z (waiting_for <$> pool_workers p).

(** ** Actions *)

Inductive action :=
| WorkerSteps (k : nat)             (* the next step of worker [k] outside its [select] *)
| WorkerTakes (k : nat)             (* a job from the queue, or its closing *)
| ScaleCall (totalWorkers : Z)
| ScaleStart
| ScaleStop (k : nat)               (* the stop signal, received by worker [k] *)
| ScaleReturn
| AddCall (j : Job)
| AddSend (i : nat)                 (* into the queue *)
| AddHand (i : nat) (k : nat)       (* straight to a worker in its [select] *)
| AddFails (i : nat)                (* the pool or the caller's context is closed *)
| CloseCall
| CloseQueue
| CloseReturn.

Definition drop_adder (i : nat) (queue : list Job) (p : Pool) : Pool :=
  MkPool (mu p) (closeCtx p) queue (queueClosed p) (workers p) (idleWorkers p) (pool_workers p) (delete i (adders p)) (panicked p).

Definition step (a : action) (p : Pool) : option Pool :=
  if panicked p then None else
  match a with
  | WorkerSteps k =>
      match pool_workers p !! k with
      | Some Starting => Some (set_worker k Selecting 0 1 p)
      | Some (TookJob j) => Some (set_worker k (Running j) 0 (-1) p)
      | Some (Running j) => Some (set_worker k Starting 0 0 p)
      | Some TookStop => Some (set_worker k Leaving 0 (-1) p)
      | Some Leaving => Some (set_worker k Uncounting 0 0 p)
      | Some Uncounting => Some (set_worker k Gone (-1) 0 p)
      | _ => None
      end
  | WorkerTakes k =>
      match pool_workers p !! k, jobQueue p with
      | Some Selecting, j :: queue =>
          Some (set_worker k (TookJob j) 0 0
            (MkPool (mu p) (closeCtx p) queue (queueClosed p) (workers p) (idleWorkers p) (pool_workers p) (adders p) false))
      | Some Selecting, [] => if queueClosed p then Some (set_worker k Leaving 0 0 p) else None
      | _, _ => None
      end
  | ScaleCall totalWorkers =>
      match mu p with
      | Free =>
          if totalWorkers <? 1 then Some p
          else if closeCtx p then Some p
          else Some (set_mu (Scaling (totalWorkers - workers p)) p)
      | _ => None
      end
  | ScaleStart => match mu p with Scaling diff => if 0 <? diff then Some (set_mu (Scaling (diff - 1)) (startWorker p)) else None | _ => None end
  | ScaleStop k =>
      match mu p, pool_workers p !! k with
      | Scaling diff, Some Selecting => if diff <? 0 then Some (set_mu (Scaling (diff + 1)) (set_worker k TookStop 0 0 p)) else None
      | _, _ => None
      end
  | ScaleReturn => match mu p with Scaling diff => if diff =? 0 then Some (set_mu Free p) else None | _ => None end
  | AddCall j =>
      if closeCtx p then Some p
      else Some (MkPool (mu p) (closeCtx p) (jobQueue p) (queueClosed p) (workers p) (idleWorkers p) (pool_workers p) (adders p ++ [j]) false)
  | AddSend i =>
      j ← adders p !! i;
      if queueClosed p then
        Some (MkPool (mu p) (closeCtx p) (jobQueue p) true (workers p) (idleWorkers p) (pool_workers p) (adders p) true)
      else if Z.of_nat (length (jobQueue p)) <? maxOpenJobs then Some (drop_adder i (jobQueue p ++ [j]) p) else None
  | AddHand i k =>
      j ← adders p !! i;
      match pool_workers p !! k, jobQueue p, queueClosed p with
      | Some Selecting, [], false => Some (set_worker k (TookJob j) 0 0 (drop_adder i [] p))
      | _, _, _ => None
      end
  | AddFails i => _ ← adders p !! i; Some (drop_adder i (jobQueue p) p)
  | CloseCall =>
      match mu p with
      | Free => if closeCtx p then Some p
          else Some (MkPool WaitIdle true (jobQueue p) (queueClosed p) (workers p) (idleWorkers p) (pool_workers p) (adders p) false)
      | _ => None
      end
  | CloseQueue =>
      match mu p with
      | WaitIdle => if idleWorkers p <? workers p then None
          else Some (MkPool WaitGroup true (jobQueue p) true (workers p) (idleWorkers p) (pool_workers p) (adders p) false)
      | _ => None
      end
  | CloseReturn => match mu p with WaitGroup => if wg p =? 0 then Some (set_mu Free p) else None | _ => None end
  end.

Definition run (actions : list action) (p : Pool) : option Pool := foldl (λ p a, p ≫= step a) (Some p) actions.

(** ** What the counters count *)

Definition counted (w : worker) : Z := match w with Gone => 0 | _ => 1 end.
Definition idle (w : worker) : Z := match w with Selecting | TookJob _ | TookStop => 1 | _ => 0 end.
Definition serves (w : worker) : Z := match w with Starting | Selecting | TookJob _ | Running _ => 1 | _ => 0 end.
Definition count (f : worker → Z) (p : Pool) : Z := sum_Z (f <$> pool_workers p).
(** The workers that go on to serve jobs, and those counted that do not. *)
Definition serving (p : Pool) : Z := count serves p.
Definition stopping (p : Pool) : Z := count counted p - serving p.

Record pool_inv (p : Pool) : Prop := {
  inv_workers : workers p = count counted p;
  inv_idle : if queueClosed p then count idle p ≤ idleWorkers p else idleWorkers p = count idle p;
  inv_queue : Z.of_nat (length (jobQueue p)) ≤ Z.max 0 maxOpenJobs;
  inv_closed : queueClosed p = true → closeCtx p = true;
  inv_scaling d : mu p = Scaling d → closeCtx p = false;
  inv_panicked : panicked p = true → queueClosed p = true;
}.

Lemma count_set f k w dw di p w0 : pool_workers p !! k = Some w0 → count f (set_worker k w dw di p) = count f p - f w0 + f w.
Proof. intros Hk. unfold count. cbn. apply (sum_Z_insert _ _ _ _ _ Hk). Qed.
Lemma count_start f p : count f (startWorker p) = count f p + f Starting.
Proof. unfold count. cbn. rewrite fmap_app, sum_Z_app. cbn. lia. Qed.

Lemma set_worker_inv k w w0 dw di p : pool_workers p !! k = Some w0 → counted w - counted w0 = dw →
  (if queueClosed p then idle w - idle w0 ≤ di else idle w - idle w0 = di) → pool_inv p → pool_inv (set_worker k w dw di p).
Proof.
  intros Hk Hw Hi [H1 H2 H3 H4 H5 H6]. split; try done; rewrite ?(count_set _ _ _ _ _ _ _ Hk); cbn.
  - lia.
  - destruct (queueClosed p); lia.
Qed.
Lemma start_worker_inv p : pool_inv p → pool_inv (startWorker p).
Proof.
  intros [H1 H2 H3 H4 H5 H6]. split; try done; rewrite ?count_start; cbn; [lia|]. destruct (queueClosed p); lia.
Qed.
Lemma mu_inv m p : (∀ d, m = Scaling d → closeCtx p = false) → pool_inv p → pool_inv (set_mu m p).
Proof. intros Hm [H1 H2 H3 H4 H5 H6]. by split. Qed.
Lemma queue_inv i queue p : Z.of_nat (length queue) ≤ Z.max 0 maxOpenJobs → pool_inv p → pool_inv (drop_adder i queue p).
Proof. intros Hq [H1 H2 H3 H4 H5 H6]. by split. Qed.

Lemma NewPool_inv n : pool_inv (NewPool n).
Proof.
  unfold NewPool. induction (Z.to_nat _) as [|m IH]; [|by apply start_worker_inv]. split; try done. cbn. lia.
Qed.

Lemma step_inv a p p' : pool_inv p → step a p = Some p' → pool_inv p'.
Proof.
  intros Hi Hp. pose proof Hi as [H1 H2 H3 H4 H5 H6]. unfold step in Hp. destruct (panicked p) eqn:Epan; [done|].
  destruct a as [k|k|n| |k| |j|i|i k|i| | | ].
  - destruct (pool_workers p !! k) as [w|] eqn:Hk; [|done]. destruct w; try done; injection Hp as <-;
      apply (set_worker_inv _ _ _ _ _ _ Hk); try done; by destruct (queueClosed p).
  - destruct (pool_workers p !! k) as [w|] eqn:Hk; [|done]. destruct w; try done. destruct (jobQueue p) as [|j queue] eqn:Eq.
    + destruct (queueClosed p) eqn:Ec; [|done]. injection Hp as <-. apply (set_worker_inv _ _ _ _ _ _ Hk); try done. by rewrite Ec.
    + injection Hp as <-. apply (set_worker_inv _ _ Selecting); [done..| |].
      * cbn. by destruct (queueClosed p).
      * split; try done. cbn in *. lia.
  - destruct (mu p); try done. destruct (n <? 1); [by injection Hp as <-|]. destruct (closeCtx p) eqn:Ec; [by injection Hp as <-|].
    injection Hp as <-. by apply mu_inv.
  - destruct (mu p) eqn:Em; try done. destruct (0 <? diff); [|done]. injection Hp as <-. apply mu_inv; [|by apply start_worker_inv].
    intros d _. by apply (H5 diff).
  - destruct (mu p) eqn:Em; try done. destruct (pool_workers p !! k) as [w|] eqn:Hk; [|done]. destruct w; try done.
    destruct (diff <? 0); [|done]. injection Hp as <-. apply mu_inv; [intros d _; by apply (H5 diff)|].
    apply (set_worker_inv _ _ _ _ _ _ Hk); try done. by destruct (queueClosed p).
  - destruct (mu p) eqn:Em; try done. destruct (diff =? 0); [|done]. injection Hp as <-. by apply mu_inv.
  - destruct (closeCtx p) eqn:Ec; injection Hp as <-; [done|]. by split.
  - apply bind_Some in Hp as (j & Hj & Hp). destruct (queueClosed p) eqn:Ec.
    + injection Hp as <-. by split.
    + destruct (Z.ltb_spec (Z.of_nat (length (jobQueue p))) maxOpenJobs); [|done]. injection Hp as <-. apply queue_inv; [|done].
      rewrite length_app. cbn. lia.
  - apply bind_Some in Hp as (j & Hj & Hp). destruct (pool_workers p !! k) as [w|] eqn:Hk; [|done]. destruct w; try done.
    destruct (jobQueue p) eqn:Eq; [|done]. destruct (queueClosed p) eqn:Ec; [done|]. injection Hp as <-.
    apply (set_worker_inv _ _ Selecting); [done..| |apply queue_inv; [cbn; lia|done]]. cbn. by rewrite Ec.
  - apply bind_Some in Hp as (j & Hj & [= <-]). by apply queue_inv.
  - destruct (mu p); try done. destruct (closeCtx p) eqn:Ec; injection Hp as <-; [done|]. by split.
  - destruct (mu p); try done. destruct (idleWorkers p <? workers p); [done|]. injection Hp as <-. split; try done. cbn.
    destruct (queueClosed p); [done|]. change (count idle p ≤ idleWorkers p). lia.
  - destruct (mu p); try done. destruct (wg p =? 0); [|done]. injection Hp as <-. by apply mu_inv.
Qed.

Lemma run_ind (P : Pool → Prop) p : P p → (∀ a p1 p2, P p1 → step a p1 = Some p2 → P p2) →
  ∀ actions p', run actions p = Some p' → P p'.
Proof.
  intros H0 HS actions. induction actions as [|a actions IH] using rev_ind; intros p' Hp.
  - cbn in Hp. by injection Hp as <-.
  - unfold run in Hp. rewrite foldl_app in Hp. cbn in Hp. apply bind_Some in Hp as (p1 & H1 & H2). eauto.
Qed.

Lemma reachable_pool_inv n actions p : run actions (NewPool n) = Some p → pool_inv p.
Proof. apply run_ind; [apply NewPool_inv|intros; by eapply step_inv]. Qed.

(** While the workers are scaled, those that serve and those still to start or
    stop add up to the same. *)
Lemma scaling_step a p p' d : a ≠ ScaleReturn → mu p = Scaling d → pool_inv p → step a p = Some p' →
  ∃ d', mu p' = Scaling d' ∧ serving p' + d' = serving p + d.
Proof.
  intros Hne Hd [_ _ _ H4 H5 _] Hp. unfold step in Hp. destruct (panicked p); [done|].
  assert (queueClosed p = false) as Hq by (specialize (H5 _ Hd); destruct (queueClosed p); [by rewrite H4 in H5|done]).
  unfold serving. destruct a as [k|k|n| |k| |j|i|i k|i| | | ]; rewrite ?Hd in Hp; try done.
  - destruct (pool_workers p !! k) as [w|] eqn:Hk; [|done]. exists d. destruct w; try done; injection Hp as <-;
      rewrite (count_set _ _ _ _ _ _ _ Hk); cbn; (split; [done|lia]).
  - rewrite Hq in Hp. destruct (pool_workers p !! k) as [w|] eqn:Hk; [|done]. exists d. destruct w, (jobQueue p); try done; injection Hp as <-;
      rewrite (count_set _ _ _ _ _ _ Selecting); try done; unfold count; cbn [pool_workers serves]; (split; [done|lia]).
  - destruct (Z.ltb_spec 0 d); [|done]. injection Hp as <-. exists (d - 1). split; [done|].
    change (count serves (startWorker p) + (d - 1) = count serves p + d). rewrite count_start. cbn. lia.
  - destruct (pool_workers p !! k) as [w|] eqn:Hk; [|done]. destruct w; try done. destruct (Z.ltb_spec d 0); [|done]. injection Hp as <-.
    exists (d + 1). split; [done|]. change (count serves (set_worker k TookStop 0 0 p) + (d + 1) = count serves p + d).
    rewrite (count_set _ _ _ _ _ _ _ Hk). cbn. lia.
  - destruct (closeCtx p); injection Hp as <-; by exists d.
  - apply bind_Some in Hp as (j & Hj & Hp). rewrite Hq in Hp. destruct (_ <? _); [|done]. injection Hp as <-. by exists d.
  - apply bind_Some in Hp as (j & Hj & Hp). destruct (pool_workers p !! k) as [w|] eqn:Hk; [|done]. destruct w, (jobQueue p), (queueClosed p); try done.
    injection Hp as <-. exists d. rewrite (count_set _ _ _ _ _ _ Selecting) by done. split; [done|].
    change (count serves (drop_adder i [] p)) with (count serves p). cbn. lia.
  - apply bind_Some in Hp as (j & Hj & [= <-]). by exists d.
Qed.

(** Whatever the workers and the callers do meanwhile, a call of
    [ScaleWorkers] leaves the pool with the number of workers asked for, less
    those that were still stopping when it was called: it counts these as
    workers to be stopped or kept, so that of two calls in a row the second
    stops too many. *)
Theorem ScaleWorkers_counts_stopping start pre total actions p p1 p2 p3 :
  run pre (NewPool start) = Some p → step (ScaleCall total) p = Some p1 → mu p1 ≠ Free →
  Forall (λ a, a ≠ ScaleReturn) actions → run actions p1 = Some p2 → step ScaleReturn p2 = Some p3 →
  serving p3 = total - stopping p.
Proof.
  intros Hpre Hcall Hmu Hne Hrun Hret. pose proof (reachable_pool_inv _ _ _ Hpre) as Hi. pose proof (step_inv _ _ _ Hi Hcall) as Hi1.
  assert (mu p1 = Scaling (total - workers p) ∧ serving p1 = serving p) as [Hm Hs].
  { unfold step in Hcall. destruct (panicked p); [done|]. destruct (mu p) eqn:Em; try done.
    destruct (total <? 1); [by simplify_eq; rewrite Em in Hmu|]. destruct (closeCtx p); [by simplify_eq; rewrite Em in Hmu|].
    by injection Hcall as <-. }
  assert (pool_inv p2 ∧ ∃ d, mu p2 = Scaling d ∧ serving p2 + d = serving p1 + (total - workers p)) as (Hi2 & d & Hd & Hsum).
  { clear Hret. revert p2 Hrun. induction actions as [|a actions IH] using rev_ind; intros p2 Hrun; [injection Hrun as <-; eauto|].
    apply Forall_app in Hne as [Hne [Ha _]%Forall_cons]. unfold run in Hrun. rewrite foldl_app in Hrun. cbn in Hrun.
    apply bind_Some in Hrun as (q & Hq & Hstep). destruct (IH Hne q Hq) as (Hiq & d & Hd & Hsum). split; [by eapply step_inv|].
    destruct (scaling_step _ _ _ _ Ha Hd Hiq Hstep) as (d' & Hd' & Hsum'). exists d'. split; [done|lia]. }
  unfold step in Hret. destruct (panicked p2); [done|]. rewrite Hd in Hret. destruct (Z.eqb_spec d 0); [|done]. injection Hret as <-.
  change (serving p2 = total - stopping p). destruct Hi as [Hw _ _ _ _ _]. unfold stopping. lia.
Qed.

(** The counters of the pool are right in any interleaving: [Workers] counts
    the workers that are not gone and, while the queue is open, [IdleWorkers]
    those that hold no job; no more jobs wait than [MaxOpenJobs]; [Close] returns
    only when every worker left its loop. Sending on the closed queue
    panics, and that only happens after a call of [Close]. *)
Theorem pool_counters start actions p :
  run actions (NewPool start) = Some p →
  workers p = count counted p ∧ (queueClosed p = false → idleWorkers p = count idle p) ∧
  Z.of_nat (length (jobQueue p)) ≤ Z.max 0 maxOpenJobs ∧
  (is_Some (step CloseReturn p) → ∀ w, w ∈ pool_workers p → w = Uncounting ∨ w = Gone) ∧
  (panicked p = true → closeCtx p = true).
Proof.
  intros Hr. destruct (reachable_pool_inv _ _ _ Hr) as [H1 H2 H3 H4 H5 H6]. split; [done|].
  split; [by intros E; rewrite E in H2|]. split; [done|]. split.
  - intros [q Hq] w Hw. unfold step in Hq. destruct (panicked p); [done|]. destruct (mu p); try done. destruct (Z.eqb_spec (wg p) 0) as [Hz|]; [|done].
    pose proof (sum_Z_zero waiting_for _ ltac:(by intros []) Hz w Hw) as Hww. destruct w; try done; auto.
  - auto.
Qed.
End pool.

(** *** Instances *)

(** Two workers, scaled to one twice in a row. *)
Definition first_scale : list (action (Job := unit)) :=
  [WorkerSteps 0; WorkerSteps 1; ScaleCall 1; ScaleStop 0; ScaleReturn].
Definition after_first_scale : option (Pool (Job := unit)) := run 0 first_scale (NewPool 2).

Lemma ScaleWorkers_counts_stopping_witness : ∃ p p1 p2 p3,
  run 0 first_scale (NewPool 2) = Some p ∧ step 0 (ScaleCall 1) p = Some p1 ∧ run 0 [ScaleStop 1; WorkerSteps 0] p1 = Some p2 ∧
  step 0 ScaleReturn p2 = Some p3 ∧ stopping p = 1 ∧ serving p3 = 1 - stopping p.
Proof.
  eexists. eexists. eexists. eexists. split; [vm_compute; reflexivity|]. split; [vm_compute; reflexivity|].
  split; [vm_compute; reflexivity|]. split; [vm_compute; reflexivity|]. split; [vm_compute; reflexivity|].
  eapply (ScaleWorkers_counts_stopping 0 2 first_scale 1 [ScaleStop 1; WorkerSteps 0]); try (vm_compute; reflexivity); [done|].
  repeat constructor; done.
Defined.

(** An [AddJob] past its first look at the pool when [Close] closes the queue. *)
Definition late_add : list (action (Job := unit)) :=
  [WorkerSteps 0; AddCall tt; CloseCall; CloseQueue; AddSend 0].

Lemma pool_counters_witness : ∃ p, run 0 late_add (NewPool 1) = Some p ∧ panicked p = true ∧ workers p = count counted p.
Proof.
  eexists. split; [vm_compute; reflexivity|]. split; [reflexivity|].
  eapply (pool_counters 0 1 late_add). vm_compute; reflexivity.
Defined.
