(* ===== verification/HttpRetry.v ===== *)
(** Package [httpretry]: retrying HTTP requests.  The transport that performs one
    attempt is a program over the body of the request; the backoff library is an
    interface.  The theorems compare [DoWith] with a loop that hands every
    attempt its body as a list of bytes. *)

From S2P Require Import Prelude Bytes GoLib GoStrings Http AnonErrors.

(** ** The backoff library ([cenkalti/backoff]) *)

Inductive retry_error := err500 | OtherError (e : err).
Definition is_err500 (e : retry_error) : bool := match e with err500 => true | _ => false end.

(** The outcome of one call of the operation. *)
Inductive op_result := Succeeded | Failed (e : retry_error) | Permanent (e : retry_error).

(** What [NextBackOff] and the context say after a failure: stop, with the error
    of the context if it is done, or try again. *)
Inductive next_result (B : Type) := Stop (ctxErr : option err) | Again (b : B).
Arguments Stop {B}.
Arguments Again {B}.

(** A [BackOff] carries its context; [None] is an operation that panics or never
    returns. *)
Class BackoffLib := {
  BackOff : Type;
  NextBackOff : BackOff → next_result BackOff;
  Retry {St : Type} : (St → option (op_result * St)) → BackOff → St → option (option retry_error * St);
}.

(** Its documentation: the operation runs until it does not fail or the backoff
    stops, at least once, and a permanent error is returned at once; every
    backoff stops some time; the error of a context is one of two. *)
Class BackoffLaws (B : BackoffLib) := {
  backoff_stops : well_founded (λ b' b, NextBackOff b = Again b');
  ctx_errors b e : NextBackOff b = Stop (Some e) → e = ContextCanceled ∨ e = ErrNew "context deadline exceeded";
  Retry_runs {St} (op : St → option (op_result * St)) b s :
    Retry op b s =
      match op s with
      | None => None
      | Some (Succeeded, s) => Some (None, s)
      | Some (Permanent e, s) => Some (Some e, s)
      | Some (Failed e, s) =>
          match NextBackOff b with
          | Stop (Some ctxErr) => Some (Some (OtherError ctxErr), s)
          | Stop None => Some (Some e, s)
          | Again b => Retry op b s
          end
      end;
}.

(** ** Bodies

    The body of a request is an [io.ReadCloser] over bytes in memory, as all
    callers pass; closing it may fail. *)

Record rewindableBody := MkBody {
  orig : list byte;                 (* what is left to read of the original *)
  orig_close : option err;          (* what closing the original returns *)
  origCloseDone : option (option err);  (* the value in the buffered channel *)
  closed_channel : bool;
  origClosed : bool;                (* the once has run *)
  origCloseErr : option err;
  buffer : list byte;
  recording : list byte;            (* what is left to read of the recording *)
}.

Definition newRewindableBody (content : list byte) (closeErr : option err) : rewindableBody :=
  MkBody content closeErr None false false None [] [].

(** [None]: the call blocks, as nobody has closed the body. *)
Definition Rewind (c : rewindableBody) : option (option err * rewindableBody) :=
  let rewound e c := Some (match e with
    | Some e => Some (Wrapped "can't rewind body that failed to close" e)
    | None => None end, c) in
  if origClosed c then
    rewound (origCloseErr c)
      (match origCloseErr c with
       | None => MkBody (orig c) (orig_close c) (origCloseDone c) (closed_channel c) true None (buffer c) (buffer c)
       | Some _ => c
       end)
  else
    match origCloseDone c with
    | None => None
    | Some e => rewound e (MkBody (orig c) (orig_close c) None (closed_channel c) true e (buffer c) (buffer c))
    end.

Inductive read_result := ReadBytes (p : list byte) | ReadEOF | ReadErr (e : err).

(** [Read] into a slice of [n] bytes. *)
Definition Read (n : nat) (c : rewindableBody) : read_result * rewindableBody :=
  match origCloseErr c with
  | Some e => (ReadErr (Wrapped "can't read from body that failed to close" e), c)
  | None =>
      if origClosed c then
        match recording c with
        | [] => (ReadEOF, c)
        | r => (ReadBytes (take n r),
            MkBody (orig c) (orig_close c) (origCloseDone c) (closed_channel c) (origClosed c) None (buffer c) (drop n r))
        end
      else
        match orig c with
        | [] => (ReadEOF, c)
        | o => (ReadBytes (take n o),
            MkBody (drop n o) (orig_close c) (origCloseDone c) (closed_channel c) (origClosed c) None (buffer c ++ take n o) (recording c))
        end
  end.

(** Reading until the end. *)
Definition ReadRest (c : rewindableBody) : result err (list byte) * rewindableBody :=
  match origCloseErr c with
  | Some e => (Err (Wrapped "can't read from body that failed to close" e), c)
  | None =>
      if origClosed c then
        (Ok (recording c),
          MkBody (orig c) (orig_close c) (origCloseDone c) (closed_channel c) (origClosed c) None (buffer c) [])
      else
        (Ok (orig c),
          MkBody [] (orig_close c) (origCloseDone c) (closed_channel c) (origClosed c) None (buffer c ++ orig c) (recording c))
  end.

(** [None]: sending on the closed channel panics. *)
Definition Close (c : rewindableBody) : option (option err * rewindableBody) :=
  if origClosed c then Some (origCloseErr c, c)
  else if closed_channel c then None
  else Some (orig_close c,
    MkBody (orig c) (orig_close c) (Some (orig_close c)) true (origClosed c) (origCloseErr c) (buffer c) (recording c)).

(** ** Transports *)

(** What one attempt does with the body before it returns. *)
Inductive exchange (R : Type) :=
| Done (r : R)
| ReadBody (n : nat) (k : read_result → exchange R)
| ReadAll (k : result err (list byte) → exchange R)   (* io.Copy, until the end or an error *)
| CloseBody (k : option err → exchange R).
Arguments Done {R}.
Arguments ReadBody {R}.
Arguments ReadAll {R}.
Arguments CloseBody {R}.

Fixpoint run_body {R} (x : exchange R) (c : rewindableBody) : option (R * rewindableBody) :=
  match x with
  | Done r => Some (r, c)
  | ReadBody n k => let '(res, c) := Read n c in run_body (k res) c
  | ReadAll k => let '(res, c) := ReadRest c in run_body (k res) c
  | CloseBody k => match Close c with None => None | Some (e, c) => run_body (k e) c end
  end.

(** A request without body: nothing to read, closing has no effect. *)
Fixpoint run_empty {R} (x : exchange R) : R :=
  match x with
  | Done r => r
  | ReadBody _ k => run_empty (k ReadEOF)
  | ReadAll k => run_empty (k (Ok []))
  | CloseBody k => run_empty (k None)
  end.

(** An error of the transport, with what [errors.As] finds for [net.Error]:
    [Timeout()] and [Error()]. *)
Record transport_error := MkTransportError { te_err : err; te_net : option (bool * string) }.

Record Response := MkResponse {
  StatusCode : Z;
  resp_Header : Header;
  resp_Body : result err (list byte);  (* the outcome of reading it to the end *)
  resp_Close : option err;
}.

Definition CheckFunc := Response → result err bool.
Definition Retry5xx : CheckFunc := λ r, Ok (500 <=? StatusCode r).

Definition retryable (e : transport_error) : bool :=
  negb (errors_Is (te_err e) ContextCanceled) &&
  match te_net e with
  | Some (timeout, msg) => timeout || str_contains msg "connection refused"
  | None => false
  end.

(** What the loop does with the outcome of an attempt: the answer to the backoff
    library and the response kept so far. *)
Definition judge (checkFunc : CheckFunc) (r : result transport_error Response) (last : option Response) :
    op_result * option Response :=
  match r with
  | Err e => ((if retryable e then Failed else Permanent) (OtherError (te_err e)), last)
  | Ok resp =>
      match checkFunc resp with
      | Err e => (Permanent (OtherError (Wrapped "failed to check response for retry" e)), Some resp)
      | Ok false => (Succeeded, Some resp)
      | Ok true =>
          match resp_Body resp with
          | Err e => (Failed (OtherError (Wrapped "failed to read body" e)), Some resp)
          | Ok b =>
              match resp_Close resp with
              | Some e => (Failed (OtherError (Wrapped "failed to close response body" e)), Some resp)
              | None => (Failed err500, Some (MkResponse (StatusCode resp) (resp_Header resp) (Ok b) None))
              end
          end
      end
  end.

Section client.
Context {BL : BackoffLib} {W : Type}.

(** [HTTPDoer.Do] for the one request at hand, in the world [W] of its transport. *)
Context (Do : W → exchange (result transport_error Response * W)).

Record retry_state := MkRetry {
  attempts : nat;                        (* i *)
  body : option rewindableBody;
  last_response : option Response;       (* result *)
  world : W;
}.

Definition perform (s : retry_state) : option (result transport_error Response * option rewindableBody * W) :=
  match body s with
  | None => let '(r, w) := run_empty (Do (world s)) in Some (r, None, w)
  | Some c => match run_body (Do (world s)) c with None => None | Some ((r, w), c) => Some (r, Some c, w) end
  end.

(** The operation [DoWith] hands to [backoff.Retry]. *)
Definition attempt (checkFunc : CheckFunc) (s : retry_state) : option (op_result * retry_state) :=
  let i := attempts s in
  let run s :=
    match perform s with
    | None => None
    | Some (r, c, w) =>
        let '(out, last) := judge checkFunc r (last_response s) in Some (out, MkRetry (S i) c last w)
    end in
  match body s with
  | Some c =>
      if (0 <? i)%nat then
        match Rewind c with
        | None => None
        | Some (Some e, c) =>
            Some (Permanent (OtherError (Wrapped "failed to rewind body" e)), MkRetry (S i) (Some c) (last_response s) (world s))
        | Some (None, c) => run (MkRetry i (Some c) (last_response s) (world s))
        end
      else run s
  | None => run s
  end.

(** The response and the error [DoWith] returns, and the world it leaves. *)
Definition DoWith (content : option (list byte * option err)) (b : BackOff) (checkFunc : CheckFunc) (w : W) :
    option (option Response * option err * W) :=
  let body := (λ '(content, closeErr), newRewindableBody content closeErr) <$> content in
  match Retry (attempt checkFunc) b (MkRetry 0 body None w) with
  | None => None
  | Some (finalErr, s) =>
      let e := match finalErr with
        | None | Some err500 => None
        | Some (OtherError e) => Some e
        end in
      Some (last_response s, e, world s)
  end.

Definition httpretry_Do (content : option (list byte * option err)) (DefaultBackoff : BackOff) (w : W) :
    option (option Response * option err * W) :=
  DoWith content DefaultBackoff Retry5xx w.
End client.
Arguments retry_state : clear implicits.

(** ** The reference: attempts on byte lists

    [plain x rest] runs an attempt on a body with [rest] left to read; it yields
    what is left unread and how often the body was closed. *)

Fixpoint plain {R} (x : exchange R) (rest : list byte) : R * list byte * nat :=
  match x with
  | Done r => (r, rest, 0%nat)
  | ReadBody n k =>
      match rest with
      | [] => plain (k ReadEOF) []
      | _ => plain (k (ReadBytes (take n rest))) (drop n rest)
      end
  | ReadAll k => plain (k (Ok rest)) []
  | CloseBody k => let '(r, rest, n) := plain (k None) rest in (r, rest, S n)
  end.

Section reference.
Context {BL : BackoffLib} {W : Type}.
Context (Do : W → exchange (result transport_error Response * W)).

Record plain_state := MkPlain { p_content : list byte; p_first : bool; p_last : option Response; p_world : W }.

(** The first attempt decides what all later ones get to read: the part of the
    content that it read itself. *)
Definition plain_attempt (checkFunc : CheckFunc) (s : plain_state) : option (op_result * plain_state) :=
  let '((r, w), rest, _) := plain (Do (p_world s)) (p_content s) in
  let content := if p_first s then take (length (p_content s) - length rest) (p_content s) else p_content s in
  let '(out, last) := judge checkFunc r (p_last s) in
  Some (out, MkPlain content false last w).

Definition plain_DoWith (content : list byte) (b : BackOff) (checkFunc : CheckFunc) (w : W) : option (option Response * option err * W) :=
  match Retry (plain_attempt checkFunc) b (MkPlain content true None w) with
  | None => None
  | Some (finalErr, s) =>
      Some (p_last s, match finalErr with None | Some err500 => None | Some (OtherError e) => Some e end, p_world s)
  end.
End reference.
Arguments plain_state : clear implicits.

(** ** Lemmas on the backoff library *)

Section laws.
Context {BL : BackoffLib} {BLL : BackoffLaws BL}.

Lemma backoff_ind (P : BackOff → Prop) :
  (∀ b, (∀ b', NextBackOff b = Again b' → P b') → P b) → ∀ b, P b.
Proof. intros H b. induction (backoff_stops b) as [b _ IH]. by apply H. Qed.

(** Two outcomes that agree up to a relation of the states. *)
Definition same_outcome {E S T} (R : S → T → Prop) (x : option (E * S)) (y : option (E * T)) : Prop :=
  match x, y with
  | Some (e, s), Some (e', t) => e = e' ∧ R s t
  | None, None => True
  | _, _ => False
  end.

(** Operations that simulate each other are retried alike. *)
Lemma Retry_simulation {S T} (R : S → T → Prop) op1 op2 :
  (∀ s t, R s t → same_outcome R (op1 s) (op2 t)) →
  ∀ b s t, R s t → same_outcome R (Retry op1 b s) (Retry op2 b t).
Proof.
  intros Hop b. induction b as [b IH] using backoff_ind. intros s t Hst. rewrite !Retry_runs. specialize (Hop s t Hst).
  destruct (op1 s) as [[o s']|], (op2 t) as [[o' t']|]; try done. destruct Hop as [<- Hst'].
  destruct o as [|e|e]; [done| |done]. destruct (NextBackOff b) as [[ce|]|b'] eqn:Hb; [done..|]. by apply IH.
Qed.

(** A property every run of the operation establishes and keeps holds at the end. *)
Lemma Retry_ends {S} (op : S → option (op_result * S)) (I : S → Prop) (Q : option retry_error → S → Prop) :
  (∀ s, I s → match op s with
     | None => False
     | Some (Succeeded, s') => Q None s'
     | Some (Permanent e, s') => Q (Some e) s'
     | Some (Failed e, s') => I s' ∧ Q (Some e) s' ∧ ∀ ce, Q (Some (OtherError ce)) s'
     end) →
  ∀ b s, I s → ∃ e s', Retry op b s = Some (e, s') ∧ Q e s'.
Proof.
  intros Hop b. induction b as [b IH] using backoff_ind. intros s Hs. rewrite Retry_runs. specialize (Hop s Hs).
  destruct (op s) as [[[|e|e] s']|]; [by eauto| |by eauto|done]. destruct Hop as (Hi & Hq & Hc).
  destruct (NextBackOff b) as [[ce|]|b'] eqn:Hb; [by eauto..|]. by apply IH.
Qed.
End laws.

(** ** Lemmas on bodies *)

(** A body that has not been rewound and whose original closes without error. *)
Definition fresh (c : rewindableBody) : Prop :=
  origClosed c = false ∧ origCloseErr c = None ∧ orig_close c = None ∧
  origCloseDone c = (if closed_channel c then Some None else None).
(** A body that has been rewound. *)
Definition rewound (c : rewindableBody) : Prop := origClosed c = true ∧ origCloseErr c = None.

Lemma run_body_fresh {R} (x : exchange R) c r rest n :
  fresh c → plain x (orig c) = (r, rest, n) → (n + (if closed_channel c then 1 else 0) ≤ 1)%nat →
  ∃ c', run_body x c = Some (r, c') ∧ fresh c' ∧ orig c' = rest ∧ buffer c' ++ rest = buffer c ++ orig c ∧
    closed_channel c' = closed_channel c || (0 <? n)%nat.
Proof.
  intros Hf. induction x as [r'|k f IH|f IH|f IH] in c, r, rest, n, Hf |- *; intros Hp Hn.
  - injection Hp as -> <- <-. exists c. rewrite orb_false_r. by destruct Hf.
  - cbn in Hp |- *. pose proof Hf as (Hc & He & Hoc & Hd). unfold Read. rewrite He, Hc.
    destruct (orig c) as [|o os] eqn:Ho.
    + cbn. rewrite <- Ho in Hp. edestruct (IH ReadEOF c) as (c' & ?); [done|by rewrite Ho in Hp |-*|done|]. exists c'. by rewrite <- Ho.
    + edestruct (IH (ReadBytes (take k (o :: os))) (MkBody (drop k (o :: os)) (orig_close c) (origCloseDone c) (closed_channel c)
          false None (buffer c ++ take k (o :: os)) (recording c))) as (c' & Hr & Hf' & Hor & Hb & Hcl); [by split_and!|exact Hp|exact Hn|].
      exists c'. split; [exact Hr|]. split_and!; [apply Hf'..|done| |done]. rewrite Hb. cbn [buffer orig]. by rewrite <- app_assoc, take_drop.
  - cbn in Hp |- *. destruct Hf as (Hc & He & Hoc & Hd). unfold ReadRest. rewrite He, Hc.
    edestruct (IH (Ok (orig c)) (MkBody [] (orig_close c) (origCloseDone c) (closed_channel c) false None (buffer c ++ orig c) (recording c)))
      as (c' & Hr & Hf' & Hor & Hb & Hcl); [by split_and!|exact Hp|exact Hn|].
    exists c'. split; [exact Hr|]. split_and!; [apply Hf'..|done| |done]. rewrite Hb. cbn [buffer orig]. by rewrite app_nil_r.
  - cbn in Hp |- *. destruct (plain (f None) (orig c)) as [[r1 rest1] n1] eqn:E. injection Hp as <- <- <-.
    destruct Hf as (Hc & He & Hoc & Hd). unfold Close. rewrite Hc. destruct (closed_channel c) eqn:Hcc; [lia|]. rewrite Hoc.
    edestruct (IH None (MkBody (orig c) None (Some None) true (origClosed c) (origCloseErr c) (buffer c) (recording c)))
      as (c' & Hr & Hf' & Hor & Hb & Hcl); [by split_and!|exact E|cbn; lia|].
    exists c'. rewrite Hc in Hr. split; [exact Hr|]. split_and!; [apply Hf'..|done|done|]. by rewrite Hcl.
Qed.

Lemma run_body_rewound {R} (x : exchange R) c :
  rewound c →
  let '(r, rest, _) := plain x (recording c) in
  ∃ c', run_body x c = Some (r, c') ∧ rewound c' ∧ buffer c' = buffer c.
Proof.
  intros Hw. induction x as [r|k f IH|f IH|f IH] in c, Hw |- *; cbn [plain run_body].
  - by exists c.
  - destruct Hw as [Hc He]. unfold Read. rewrite He, Hc. destruct (recording c) as [|o os] eqn:Ho.
    + specialize (IH ReadEOF c (conj Hc He)). by rewrite Ho in IH.
    + apply (IH _ (MkBody (orig c) (orig_close c) (origCloseDone c) (closed_channel c) true None (buffer c) (drop k (o :: os)))). done.
  - destruct Hw as [Hc He]. unfold ReadRest. rewrite He, Hc.
    apply (IH _ (MkBody (orig c) (orig_close c) (origCloseDone c) (closed_channel c) true None (buffer c) [])). done.
  - destruct Hw as [Hc He]. unfold Close. rewrite Hc, He. specialize (IH None c (conj Hc He)).
    by destruct (plain (f None) (recording c)) as [[r rest] n].
Qed.

Lemma rewind_fresh c : fresh c → closed_channel c = true →
  ∃ c', Rewind c = Some (None, c') ∧ rewound c' ∧ recording c' = buffer c ∧ buffer c' = buffer c.
Proof. intros (Hc & He & _ & Hd) Hcl. unfold Rewind. rewrite Hc, Hd, Hcl. eexists. by split_and!. Qed.
Lemma rewind_rewound c : rewound c →
  ∃ c', Rewind c = Some (None, c') ∧ rewound c' ∧ recording c' = buffer c ∧ buffer c' = buffer c.
Proof. intros [Hc He]. unfold Rewind. rewrite Hc, He. eexists. by split_and!. Qed.

(** ** Theorems *)

(** ** A server behind [net/http]

    The client's transport reads the body and closes it, the server's handler
    runs on the request, and the response comes back with its body in memory. *)

Definition response_of (w : ResponseWriter) : Response :=
  MkResponse (default StatusOK (w_status w)) (w_header w) (Ok (w_body w)) None.

Section server.
Context {St : Type} (header : Header) (handler : Request → ResponseWriter → St → ResponseWriter * St).

Definition serve_bytes (data : result goerror (list byte)) (s : St) : Response * St :=
  let '(w, s) := handler (MkRequest header data) new_writer s in (response_of w, s).
Definition as_goerror (r : result err (list byte)) : result goerror (list byte) := wrap_err (λ _, ErrorNew "body") r.

Definition reliable (s : St) : exchange (result transport_error Response * St) :=
  ReadAll (λ data, CloseBody (λ _,
    let '(resp, s) := serve_bytes (as_goerror data) s in Done (Ok resp, s))).

(** What may go wrong on the way: the request or the response is lost. *)
Inductive fault := LostRequest (e : transport_error) | LostResponse (e : transport_error).

Definition lossy (w : list fault * St) : exchange (result transport_error Response * (list fault * St)) :=
  let '(faults, s) := w in
  match faults with
  | [] => ReadAll (λ data, CloseBody (λ _,
      let '(resp, s) := serve_bytes (as_goerror data) s in Done (Ok resp, ([], s))))
  | LostRequest e :: faults => ReadAll (λ _, CloseBody (λ _, Done (Err e, (faults, s))))
  | LostResponse e :: faults => ReadAll (λ data, CloseBody (λ _,
      let '(_, s) := serve_bytes (as_goerror data) s in Done (Err e, (faults, s))))
  end.
End server.

Section theorems.
Context {BL : BackoffLib} {BLL : BackoffLaws BL} {W : Type}.
Context (Do : W → exchange (result transport_error Response * W)).

(** [RoundTripper]s close the body of the request, also on errors. *)
Definition closes_once : Prop := ∀ w rest, (plain (Do w) rest).2 = 1%nat.
(** Every attempt reads its body to the end; [serve] is what it then does. *)
Definition reads_all (serve : list byte → W → result transport_error Response * W) : Prop :=
  ∀ w rest, plain (Do w) rest = (serve rest w, [], 1%nat).

Definition same_progress (s : retry_state W) (t : plain_state W) : Prop :=
  last_response s = p_last t ∧ world s = p_world t ∧ p_first t = (attempts s =? 0)%nat ∧
  ∃ c, body s = Some c ∧
    if (attempts s =? 0)%nat then c = newRewindableBody (p_content t) None
    else buffer c = p_content t ∧ (rewound c ∨ (fresh c ∧ closed_channel c = true)).

Lemma attempt_plain check : closes_once → ∀ s t, same_progress s t →
  same_outcome same_progress (attempt Do check s) (plain_attempt Do check t).
Proof.
  intros Hclose s t (Hl & Hw & Hf & c & Hc & Hbody). unfold attempt, plain_attempt. rewrite Hc, Hf, <- Hl, <- Hw.
  pose proof (Hclose (world s) (p_content t)) as Hn.
  destruct (plain (Do (world s)) (p_content t)) as [[[r w] rest] n] eqn:Hp. cbn in Hn. subst n.
  destruct (attempts s) as [|i] eqn:Hi; cbn [Nat.eqb Nat.ltb Nat.leb] in *.
  - subst c. destruct (run_body_fresh (Do (world s)) (newRewindableBody (p_content t) None) (r, w) rest 1) as (c' & Hr & Hfr & _ & Hbuf & Hcl);
      [by split_and!|exact Hp|cbn; lia|].
    unfold perform. rewrite Hc, Hr. destruct (judge check r (last_response s)) as [o last]. split; [done|].
    split_and!; [done..|]. exists c'. split; [done|]. cbn. split; [|by right]. cbn [newRewindableBody buffer orig app] in Hbuf.
    rewrite <- Hbuf. rewrite length_app, Nat.add_sub. by rewrite take_app_length.
  - destruct Hbody as [Hb Hc']. assert (∃ c', Rewind c = Some (None, c') ∧ rewound c' ∧ recording c' = buffer c ∧ buffer c' = buffer c) as (c' & Hrw & Hw' & Hrec & Hb').
    { destruct Hc' as [?|[??]]; [by apply rewind_rewound|by apply rewind_fresh]. }
    rewrite Hrw. unfold perform. cbn [body world]. pose proof (run_body_rewound (Do (world s)) c' Hw') as Hrun.
    rewrite Hrec, Hb, Hp in Hrun. destruct Hrun as (c'' & -> & Hw'' & Hb''). cbn [last_response].
    destruct (judge check r (last_response s)) as [o last]. split; [done|]. split_and!; [done..|].
    exists c''. split; [done|]. cbn. split; [congruence|by left].
Qed.

Lemma retries_replay_body content b check w :
  closes_once →
  DoWith Do (Some (content, None)) b check w = plain_DoWith Do content b check w ∧
  is_Some (DoWith Do (Some (content, None)) b check w).
Proof.
  intros Hclose. assert (DoWith Do (Some (content, None)) b check w = plain_DoWith Do content b check w) as Heq.
  { unfold DoWith, plain_DoWith. cbn [fmap option_fmap option_map].
    assert (same_progress (MkRetry 0 (Some (newRewindableBody content None)) None w) (MkPlain content true None w)) as Hst
      by (split_and!; [done..|by eexists]).
    pose proof (Retry_simulation same_progress (attempt Do check) (plain_attempt Do check) (attempt_plain check Hclose) b _ _ Hst) as H.
    destruct (Retry (attempt Do check) b _) as [[e s]|], (Retry (plain_attempt Do check) b _) as [[e' t]|]; try done.
    by destruct H as [<- (-> & -> & _)]. }
  split; [done|]. rewrite Heq. unfold plain_DoWith.
  destruct (Retry_ends (plain_attempt Do check) (λ _, True) (λ _ _, True)) with (b:=b) (s:=MkPlain content true None w) as (e & s' & -> & _);
    [|done|done].
  intros s _. unfold plain_attempt. destruct (plain _ _) as [[[r w'] rest] n]. destruct (judge check r (p_last s)) as [[] last]; by cbn.
Qed.

(** C32. A retry sends what the first attempt has read.  Whatever the transport does,
    as long as it closes the body once in every attempt, [DoWith] returns the
    same response, error and state as the loop in which the first attempt gets
    the content of the body and every later one exactly the part of it that the
    first one read; in particular it returns. *)
Theorem retries_replay_first_attempt content b check w :
  closes_once →
  DoWith Do (Some (content, None)) b check w = plain_DoWith Do content b check w ∧
  is_Some (DoWith Do (Some (content, None)) b check w).
Proof. apply retries_replay_body. Qed.

(** An attempt of a transport that reads the whole body, as a function. *)
Definition serve_attempt (serve : W → result transport_error Response * W) (check : CheckFunc) (s : option Response * W) :
    option (op_result * (option Response * W)) :=
  let '(r, w) := serve s.2 in let '(out, last) := judge check r s.1 in Some (out, (last, w)).
Definition serve_DoWith (serve : W → result transport_error Response * W) (b : BackOff) (check : CheckFunc) (w : W) :
    option (option Response * option err * W) :=
  match Retry (serve_attempt serve check) b (None, w) with
  | None => None
  | Some (finalErr, (last, w)) =>
      Some (last, match finalErr with None | Some err500 => None | Some (OtherError e) => Some e end, w)
  end.

Lemma reads_all_closes serve : reads_all serve → closes_once.
Proof. intros H w rest. by rewrite H. Qed.

Lemma plain_serve serve check content b w : reads_all serve →
  plain_DoWith Do content b check w = serve_DoWith (serve content) b check w.
Proof.
  intros Hs. unfold plain_DoWith, serve_DoWith.
  pose proof (Retry_simulation (λ s t, p_content s = content ∧ p_last s = t.1 ∧ p_world s = t.2)
    (plain_attempt Do check) (serve_attempt (serve content) check)) as H.
  specialize (H ltac:(intros [c f l w1] [l' w'] (Hc & Hl & Hw); cbn in Hc, Hl, Hw; subst c l' w'; unfold plain_attempt, serve_attempt; cbn [p_world p_content p_first p_last fst snd]; rewrite Hs;
    destruct (serve content w1) as [r w2]; rewrite Nat.sub_0_r, firstn_all; destruct (judge check r l), f; done)
    b (MkPlain content true None w) (None, w) ltac:(done)).
  destruct (Retry (plain_attempt Do check) b _) as [[e s]|], (Retry (serve_attempt (serve content) check) b _) as [[e' [l' w']]|]; try done.
  by destruct H as [<- (_ & -> & ->)].
Qed.

(** With a transport that reads the whole body, every attempt gets the whole body. *)
Lemma DoWith_serve serve check content b w : reads_all serve →
  DoWith Do (Some (content, None)) b check w = serve_DoWith (serve content) b check w.
Proof.
  intros Hs. destruct (retries_replay_body content b check w (reads_all_closes _ Hs)) as [-> _]. by apply plain_serve.
Qed.

(** A request without body. *)
Lemma DoWith_empty serve check b w : (∀ w, run_empty (Do w) = serve w) →
  DoWith Do None b check w = serve_DoWith serve b check w.
Proof.
  intros Hs. unfold DoWith, serve_DoWith. cbn [fmap option_fmap option_map].
  pose proof (Retry_simulation (λ s t, body s = None ∧ last_response s = t.1 ∧ world s = t.2) (attempt Do check) (serve_attempt serve check)) as H.
  specialize (H ltac:(intros [i c l w1] [l' w'] (Hc & Hl & Hw); cbn in Hc, Hl, Hw; subst c l' w'; unfold attempt, perform, serve_attempt;
    cbn [body world attempts last_response fst snd]; rewrite Hs;
    destruct (serve w1) as [r w2]; cbn; destruct (judge check r l); done)
    b (MkRetry 0 None None w) (None, w) ltac:(done)).
  destruct (Retry (attempt Do check) b _) as [[e s]|], (Retry (serve_attempt serve check) b _) as [[e' [l' w']]|]; try done.
  by destruct H as [<- (_ & -> & ->)].
Qed.

(** A server that answers below 500 is asked once. *)
Lemma serve_answered serve b (w w' : W) resp :
  serve w = (Ok resp, w') → StatusCode resp < 500 → serve_DoWith serve b Retry5xx w = Some (Some resp, None, w').
Proof.
  intros Hs Hc. unfold serve_DoWith. rewrite Retry_runs. unfold serve_attempt at 1. cbn [fst snd]. rewrite Hs.
  cbn [judge Retry5xx]. unfold Retry5xx. by destruct (Z.leb_spec 500 (StatusCode resp)); [lia|].
Qed.

(** An attempt that failed and is made again. *)
Lemma serve_again serve b b' (w w' : W) te :
  serve w = (Err te, w') → retryable te = true → NextBackOff b = Again b' →
  serve_DoWith serve b Retry5xx w = serve_DoWith serve b' Retry5xx w'.
Proof.
  intros Hs Hr Hb. unfold serve_DoWith. rewrite Retry_runs. unfold serve_attempt at 1. cbn [fst snd]. rewrite Hs.
  cbn [judge]. by rewrite Hr, Hb.
Qed.

(** A server whose refusals with 500 and above change nothing still is where it
    was when the client gives up. *)
Lemma serve_refused serve b (w : W) resp data :
  serve w = (Ok resp, w) → 500 ≤ StatusCode resp → resp_Body resp = Ok data → resp_Close resp = None →
  ∃ e, serve_DoWith serve b Retry5xx w = Some (Some (MkResponse (StatusCode resp) (resp_Header resp) (Ok data) None), e, w) ∧
    (e = None ∨ e = Some ContextCanceled ∨ e = Some (ErrNew "context deadline exceeded")).
Proof.
  intros Hs Hc Hb Hcl. unfold serve_DoWith. generalize (@None Response).
  induction b as [b IH] using backoff_ind. intros last. rewrite Retry_runs. unfold serve_attempt at 1. cbn [fst snd]. rewrite Hs.
  cbn [judge]. unfold Retry5xx at 1. destruct (Z.leb_spec 500 (StatusCode resp)); [|lia]. rewrite Hb, Hcl.
  destruct (NextBackOff b) as [[ce|]|b'] eqn:E; [|by eauto|by apply IH].
  eexists. split; [done|]. right. destruct (ctx_errors _ _ E) as [-> | ->]; eauto.
Qed.

(** What [Do] returns.  It returns without error only if it has a response: one
    below 500, or, when it gave up retrying, the last one of 500 and above, with
    its body read into memory and closed; such a response is not reported as an
    error.  The error it returns otherwise is never the marker [err500]. *)
Theorem Do_answers content b w :
  closes_once →
  ∃ last e w', httpretry_Do Do (Some (content, None)) b w = Some (last, e, w') ∧
    (e = None → ∃ resp, last = Some resp ∧
      (StatusCode resp < 500 ∨ 500 ≤ StatusCode resp ∧ resp_Close resp = None ∧ ∃ data, resp_Body resp = Ok data)).
Proof.
  intros Hclose. unfold httpretry_Do. destruct (retries_replay_body content b Retry5xx w Hclose) as [-> _]. unfold plain_DoWith.
  destruct (Retry_ends (plain_attempt Do Retry5xx) (λ _, True)
    (λ e s, (e = None ∨ e = Some err500) → ∃ resp, p_last s = Some resp ∧
      (StatusCode resp < 500 ∨ 500 ≤ StatusCode resp ∧ resp_Close resp = None ∧ ∃ data, resp_Body resp = Ok data)))
    with (b:=b) (s:=MkPlain content true None w) as (e & s' & -> & Hq); [|done|].
  - intros s _. unfold plain_attempt. destruct (plain _ _) as [[[r w'] rest] n]. unfold judge, Retry5xx.
    destruct r as [resp|e].
    + destruct (Z.leb_spec 500 (StatusCode resp)); [|cbn; eauto].
      destruct (resp_Body resp) as [data|e]; [|by cbn; split_and!; [done|intros [?|?]|intros ? [?|?]]].
      destruct (resp_Close resp); [by cbn; split_and!; [done|intros [?|?]|intros ? [?|?]]|].
      cbn. split_and!; [done| |by intros ? [?|?]]. intros _. eexists. split; [done|]. right. cbn. eauto.
    + destruct (retryable e); cbn; [split_and!; [done|by intros [?|?]|by intros ? [?|?]]|by intros [?|?]].
  - eexists _, _, _. split; [done|]. intros He. apply Hq. destruct e as [[]|]; [by right|done|by left].
Qed.

(** A refused connection loses the body.  When the first attempt fails before it
    has read anything, as a refused connection does, every further attempt is
    made with an empty body, whatever the content was. *)
Theorem refused_connection_loses_body content b b' check w te w1 :
  closes_once →
  plain (Do w) content = (Err te, w1, content, 1%nat) → retryable te = true → NextBackOff b = Again b' →
  DoWith Do (Some (content, None)) b check w =
    match Retry (plain_attempt Do check) b' (MkPlain [] false None w1) with
    | None => None
    | Some (finalErr, s) =>
        Some (p_last s, match finalErr with None | Some err500 => None | Some (OtherError e) => Some e end, p_world s)
    end.
Proof.
  intros Hclose Hp Hr Hb. destruct (retries_replay_body content b check w Hclose) as [-> _]. unfold plain_DoWith.
  rewrite Retry_runs. unfold plain_attempt at 1. cbn [p_world p_content p_first p_last]. rewrite Hp. cbn [judge].
  by rewrite Hr, Hb, Nat.sub_diag.
Qed.
End theorems.

(** ** Posting bytes *)

(** [http.NewRequest] with a [bytes.Reader]: an empty one is no body. *)
Definition new_request_body (data : list byte) : option (list byte * option err) :=
  match data with [] => None | _ => Some (data, None) end.

Lemma reliable_reads_all {St} header handler :
  reads_all (reliable (St:=St) header handler)
    (λ data s, let '(resp, s) := serve_bytes header handler (Ok data) s in (Ok resp, s)).
Proof. intros s rest. unfold reliable. cbn. by destruct (serve_bytes header handler (Ok rest) s). Qed.

(** Over a reliable network every attempt is a run of the handler on the data. *)
Lemma post_reliable {BL : BackoffLib} {BLL : BackoffLaws BL} {St} header (handler : Request → ResponseWriter → St → ResponseWriter * St) data b check s :
  DoWith (reliable header handler) (new_request_body data) b check s =
    serve_DoWith (λ s, let '(resp, s) := serve_bytes header handler (Ok data) s in (Ok resp, s)) b check s.
Proof.
  destruct data as [|x data].
  - apply DoWith_empty. intros w. unfold reliable. cbn. by destruct (serve_bytes header handler (Ok []) w).
  - apply (DoWith_serve _ (λ data s, let '(resp, s) := serve_bytes header handler (Ok data) s in (Ok resp, s))).
    apply reliable_reads_all.
Qed.

(** ** Examples *)

(** A backoff of a fixed number of retries. *)
#[export] Instance counted_backoff : BackoffLib := {|
  BackOff := nat;
  NextBackOff n := match n with O => Stop None | S n => Again n end;
  Retry St op := fix retry n s :=
    match op s with
    | None => None
    | Some (Succeeded, s) => Some (None, s)
    | Some (Permanent e, s) => Some (Some e, s)
    | Some (Failed e, s) => match n with O => Some (Some e, s) | S n => retry n s end
    end;
|}.
Definition tries (n : nat) : BackOff (BackoffLib:=counted_backoff) := n.
#[export] Instance counted_backoff_laws : BackoffLaws counted_backoff.
Proof.
  constructor.
  - intros n. induction n as [|n IH]; constructor; intros n'; cbn; [done|by intros [= ->]].
  - intros b e. by destruct b.
  - intros St op b s. cbn. destruct b; cbn; by destruct (op s) as [[[] ?]|].
Qed.

(** One attempt over a network with faults. *)
Definition serve_lossy {St} header (handler : Request → ResponseWriter → St → ResponseWriter * St) data (w : list fault * St) :
    result transport_error Response * (list fault * St) :=
  let '(resp, s) := serve_bytes header handler (Ok data) w.2 in
  match w.1 with
  | [] => (Ok resp, ([], s))
  | LostRequest e :: faults => (Err e, (faults, w.2))
  | LostResponse e :: faults => (Err e, (faults, s))
  end.

Lemma post_lossy {BL : BackoffLib} {BLL : BackoffLaws BL} {St} header (handler : Request → ResponseWriter → St → ResponseWriter * St) data b check w :
  DoWith (lossy header handler) (new_request_body data) b check w = serve_DoWith (serve_lossy header handler data) b check w.
Proof.
  destruct data as [|x data].
  - apply DoWith_empty. intros [[|[]] s]; unfold serve_lossy; cbn; by destruct (serve_bytes header handler (Ok []) s).
  - apply (DoWith_serve _ (serve_lossy header handler)). intros [[|[]] s] rest; unfold serve_lossy; cbn;
      by destruct (serve_bytes header handler (Ok rest) s).
Qed.

(** A transport that reads its body in pieces of two bytes and answers with it; it
    fails as often as the world says, refusing the connection (true) or with
    status 503 after reading (false). *)
Fixpoint echo (fuel : nat) (seen : list byte) (k : list byte → result transport_error Response * list bool) :
    exchange (result transport_error Response * list bool) :=
  match fuel with
  | O => CloseBody (λ _, Done (k seen))
  | S fuel =>
      ReadBody 2 (λ r, match r with
        | ReadBytes p => echo fuel (seen ++ p) k
        | _ => CloseBody (λ _, Done (k seen))
        end)
  end.
Definition refused : transport_error :=
  MkTransportError (ErrNew "connection refused") (Some (false, "dial tcp: connection refused")).
Definition echo_transport (faults : list bool) : exchange (result transport_error Response * list bool) :=
  match faults with
  | true :: faults => CloseBody (λ _, Done (Err refused, faults))
  | false :: faults => echo 5 [] (λ seen, (Ok (MkResponse 503 ∅ (Ok seen) None), faults))
  | [] => echo 5 [] (λ seen, (Ok (MkResponse 200 ∅ (Ok seen) None), []))
  end.

Lemma echo_closes fuel seen k rest : (plain (echo fuel seen k) rest).2 = 1%nat.
Proof. induction fuel as [|fuel IH] in seen, rest |- *; [done|]. destruct rest; cbn; [done|apply IH]. Qed.
Lemma echo_transport_closes : closes_once echo_transport.
Proof. intros [|[] fs] rest; try apply echo_closes. done. Qed.

Definition demo_body : list byte := string_bytes "abcde".
Definition body_of {W} (r : option (option Response * option err * W)) : option (result err (list byte)) :=
  match r with Some (Some resp, None, _) => Some (resp_Body resp) | _ => None end.

Lemma retries_replay_first_attempt_witness :
  body_of (DoWith echo_transport (Some (demo_body, None)) (tries 5) Retry5xx [false; false]) = Some (Ok demo_body).
Proof.
  destruct (retries_replay_first_attempt echo_transport demo_body (tries 5) Retry5xx [false; false] echo_transport_closes) as [-> _].
  vm_compute. reflexivity.
Defined.

Lemma Do_answers_witness :
  ∃ last e w', httpretry_Do echo_transport (Some (demo_body, None)) (tries 1) [false; false; false] = Some (last, e, w') ∧
    e = None ∧ (StatusCode <$> last) = Some 503.
Proof.
  destruct (Do_answers echo_transport demo_body (tries 1) [false; false; false] echo_transport_closes) as (last & e & w' & H & _).
  exists last, e, w'. split; [exact H|]. vm_compute in H. injection H as <- <- _. split; reflexivity.
Defined.

Lemma refused_connection_loses_body_witness :
  body_of (DoWith echo_transport (Some (demo_body, None)) (tries 3) Retry5xx [true]) = Some (Ok []).
Proof.
  rewrite (refused_connection_loses_body echo_transport demo_body (tries 3) (tries 2) Retry5xx [true] refused [] echo_transport_closes);
    vm_compute; reflexivity.
Defined.
