(* ===== verification/HttpApi.v ===== *)
(** What the clients and servers of packages [httpapi] share: posting a protobuf
    message with retries and reading the response, and the effect of doing so over
    a reliable network or one that loses the first response. *)

From stdpp Require Import pretty.
From S2P Require Import Prelude GoLib Http AnonErrors HttpRetry.

Definition request_header : Header := SetHeader "Content-Type" "application/octet-stream" ∅.

(** The body of a response for a reader of [goerror]s. *)
Definition response_body (resp : Response) : result goerror (list byte) := wrap_err (λ _, ErrorNew "body") (resp_Body resp).

Definition unexpected_status (code : Z) (path : string) : err :=
  ErrNew ("unexpected status code from blind bank: " +:+ pretty code +:+ " for " +:+ path).
Definition decode_failed (e : goerror) : err := Wrapped "failed to decode response" (ErrNew "proto: cannot parse").

Section post.
Context {BL : BackoffLib} {W : Type} (Do : W → exchange (result transport_error Response * W)).

(** [refusal] is the error for a status other than 200, [outPB] says how the
    response is decoded; [None]: the call blocks or panics. *)
Definition post_message {M A} {WM : ProtoWire M} (requestBackoff : BackOff) (reqPB : M) (refusal : Z → err)
    (outPB : result goerror (list byte) → result goerror A) (s : W) : option (result err A * W) :=
  match marshal_message reqPB with
  | Err _ => Some (Err (Wrapped "failed to marshal request" (ErrNew "proto: marshal")), s)
  | Ok reqBytes =>
      match DoWith Do (new_request_body reqBytes) requestBackoff Retry5xx s with
      | None | Some (None, None, _) => None
      | Some (_, Some er, s) => Some (Err (Wrapped "http request failed" er), s)
      | Some (Some resp, None, s) =>
          Some (
            if negb (StatusCode resp =? StatusOK) then Err (refusal (StatusCode resp))
            else wrap_err decode_failed (outPB (response_body resp)), s)
      end
  end.
End post.

Lemma marshals {M} {WM : ProtoWire M} (m : M) : is_Some (proto_marshal m) → ∃ o, marshal_message m = Ok o.
Proof. intros [o Ho]. exists o. unfold marshal_message. by rewrite Ho. Qed.

(** Errors of the retries: that of the last response, or of the context. *)
Definition retry_failure (refusal : Z → err) (code : Z) (e : err) : Prop :=
  e = refusal code ∨ e = Wrapped "http request failed" ContextCanceled ∨
  e = Wrapped "http request failed" (ErrNew "context deadline exceeded").

Section served.
Context {BL : BackoffLib} {BLL : BackoffLaws BL} {St : Type} (handler : Request → ResponseWriter → St → ResponseWriter * St).
Context {M A : Type} {WM : ProtoWire M} (m : M) (refusal : Z → err) (outPB : result goerror (list byte) → result goerror A).
Context (reqBytes : list byte) (Hm : marshal_message m = Ok reqBytes).

(** One answer of the handler to the message. *)
Definition answers (s : St) (resp : Response) (body : list byte) (s' : St) : Prop :=
  serve_bytes request_header handler (Ok reqBytes) s = (resp, s') ∧ resp_Close resp = None ∧ resp_Body resp = Ok body.

(** The result of a response. *)
Definition read_response (code : Z) (body : list byte) : result err A :=
  if code =? StatusOK then wrap_err decode_failed (outPB (Ok body)) else Err (refusal code).

(** Over a reliable network a client sees the answer of the handler, given that
    answers the client retries change nothing. *)
Lemma post_served b s resp body s' :
  answers s resp body s' → (500 ≤ StatusCode resp → s' = s) →
  ∃ r, post_message (reliable request_header handler) b m refusal outPB s = Some (r, s') ∧
    (StatusCode resp < 500 → r = read_response (StatusCode resp) body) ∧
    (500 ≤ StatusCode resp → ∃ e, r = Err e ∧ retry_failure refusal (StatusCode resp) e).
Proof.
  intros (Hs & Hcl & Hb) Hsame. unfold post_message, read_response. rewrite Hm, post_reliable.
  match goal with |- context [serve_DoWith ?f _ _ _] => set (serve := f) end.
  assert (serve s = (Ok resp, s')) as Hserve by (unfold serve; by rewrite Hs).
  destruct (Z.ltb_spec (StatusCode resp) 500) as [Hlt|Hge].
  - rewrite (serve_answered serve b s s' resp Hserve Hlt). eexists. split; [reflexivity|]. unfold response_body. rewrite Hb.
    split; [|lia]. by destruct (StatusCode resp =? StatusOK).
  - rewrite (Hsame Hge) in *. destruct (serve_refused serve b s resp body Hserve Hge Hb Hcl) as (er & -> & Her).
    assert ((StatusCode resp =? StatusOK) = false) as Hne by (apply Z.eqb_neq; unfold StatusOK; lia).
    destruct Her as [-> |[-> | ->]]; (eexists; split; [reflexivity|]; split; [lia|]; intros _).
    + cbn [StatusCode]. rewrite Hne. eexists. split; [reflexivity|]. by left.
    + eexists. split; [reflexivity|]. right. by left.
    + eexists. split; [reflexivity|]. right. by right.
Qed.

(** When the first response is lost and the client tries again, the handler runs
    twice and the client sees the second answer. *)
Lemma post_lost b b' te s resp1 body1 s1 resp2 body2 s2 :
  retryable te = true → NextBackOff b = Again b' →
  answers s resp1 body1 s1 → answers s1 resp2 body2 s2 → StatusCode resp2 < 500 →
  post_message (lossy request_header handler) b m refusal outPB ([LostResponse te], s) =
    Some (read_response (StatusCode resp2) body2, ([], s2)).
Proof.
  intros Hte Hb (H1 & _ & _) (H2 & _ & Hb2) Hlt. unfold post_message, read_response. rewrite Hm, post_lossy.
  rewrite (serve_again _ b b' ([LostResponse te], s) ([], s1) te); [|unfold serve_lossy; cbn [fst snd]; by rewrite H1|done|done].
  rewrite (serve_answered _ b' ([], s1) ([], s2) resp2); [|unfold serve_lossy; cbn [fst snd]; by rewrite H2|done].
  unfold response_body. rewrite Hb2. by destruct (StatusCode resp2 =? StatusOK).
Qed.
End served.
