(* ===== verification/BlindSigning.v ===== *)
(** Package [anonpay] ([blind_signing.go], [issuer.go], [payee.go]): issuing and
    finalising credits with partially blind RSA signatures.

    The signature scheme itself is a third-party package, an interface here for
    one key pair: the issuer holds the private half, everyone the public one. *)

From S2P Require Import Prelude Bytes GoLib AnonErrors Credit.
From S2P Require Currency Nonce.

(** ** The [partiallyblindrsa] interface *)

Class BlindRSA := {
  verifier_state : Type;
  modulus : Z;
  rsa_blind_sign : list byte → list byte → result err (list byte);
  rsa_fixed_blind (message metadata salt r rInv : list byte) :
    result err (list byte * verifier_state);
  rsa_finalize : verifier_state → list byte → result err (list byte);
  rsa_verify (message metadata signature : list byte) : result err unit;
}.

(** ** [big.Int]: modular inverse and byte strings *)

(** Extended Euclid on remainders [r0 > r1] with the coefficients of the
    argument; the remainders' product halves at each step, so twice the bit
    length is fuel enough. *)
Fixpoint egcd (fuel : nat) (r0 r1 s0 s1 : Z) : Z * Z :=
  match fuel with
  | O => (r0, s0)
  | S fuel => if r1 =? 0 then (r0, s0) else egcd fuel r1 (r0 mod r1) s1 (s0 - r0 / r1 * s1)
  end.
(** [new(big.Int).ModInverse(r, n)], nil when [r] and [n] are not coprime. *)
Definition mod_inverse (r n : Z) : option Z :=
  let '(g, x) := egcd (Z.to_nat (2 * Z.log2 n + 2)) n (r mod n) 0 1 in
  if g =? 1 then Some (x mod n) else None.

Lemma egcd_gcd fuel r0 r1 s0 s1 :
  0 ≤ r1 < r0 → r0 * r1 < 2 ^ Z.of_nat fuel → fst (egcd fuel r0 r1 s0 s1) = Z.gcd r0 r1.
Proof.
  revert r0 r1 s0 s1. induction fuel as [|fuel IH]; intros r0 r1 s0 s1 Hr Hf; cbn [egcd].
  - assert (r1 = 0) as -> by (change (2 ^ Z.of_nat 0) with 1 in Hf; nia).
    rewrite Z.gcd_0_r. simpl. lia.
  - destruct (Z.eqb_spec r1 0) as [->|]; [rewrite Z.gcd_0_r; simpl; lia|].
    pose proof (Z.mod_pos_bound r0 r1). pose proof (Z.div_mod r0 r1).
    assert (1 ≤ r0 / r1) by (apply Z.div_le_lower_bound; lia).
    rewrite Nat2Z.inj_succ, Z.pow_succ_r in Hf by lia.
    rewrite IH; [|lia|nia]. rewrite Z.gcd_comm, Z.gcd_mod by lia. apply Z.gcd_comm.
Qed.

Lemma egcd_coeff fuel r n r0 r1 s0 s1 :
  (n | s0 * r - r0) → (n | s1 * r - r1) →
  let '(g, x) := egcd fuel r0 r1 s0 s1 in (n | x * r - g).
Proof.
  revert r0 r1 s0 s1. induction fuel as [|fuel IH]; intros r0 r1 s0 s1 H0 H1; cbn [egcd]; [done|].
  destruct (Z.eqb_spec r1 0); [done|]. apply IH; [done|].
  rewrite Z.mod_eq by lia.
  replace ((s0 - r0 / r1 * s1) * r - (r0 - r1 * (r0 / r1)))
    with ((s0 * r - r0) - r0 / r1 * (s1 * r - r1)) by lia.
  apply Z.divide_sub_r; [done|]. by apply Z.divide_mul_r.
Qed.

Lemma mod_inverse_spec r n :
  1 < n → match mod_inverse r n with
          | Some x => 0 ≤ x < n ∧ (x * r) mod n = 1
          | None => Z.gcd r n ≠ 1
          end.
Proof.
  intros Hn. unfold mod_inverse.
  pose proof (Z.mod_pos_bound r n ltac:(lia)) as Hr. pose proof (Z.log2_nonneg n).
  pose proof (egcd_gcd (Z.to_nat (2 * Z.log2 n + 2)) n (r mod n) 0 1 ltac:(lia)) as Hg.
  pose proof (egcd_coeff (Z.to_nat (2 * Z.log2 n + 2)) r n n (r mod n) 0 1) as Hc.
  destruct (egcd _ _ _ _ _) as [g x]. simpl in Hg.
  assert (g = Z.gcd r n) as ->.
  { rewrite Hg; [rewrite Z.gcd_comm, Z.gcd_mod by lia; apply Z.gcd_comm|].
    rewrite Z2Nat.id by lia. pose proof (Z.log2_spec n ltac:(lia)).
    replace (2 * Z.log2 n + 2) with (Z.succ (Z.log2 n) + Z.succ (Z.log2 n)) by lia.
    rewrite Z.pow_add_r by lia. nia. }
  destruct (Z.eqb_spec (Z.gcd r n) 1) as [E|]; [|done].
  split; [apply Z.mod_pos_bound; lia|]. rewrite Z.mul_mod_idemp_l by lia.
  destruct Hc as [q Hq].
  - exists (-1). lia.
  - exists (r / n). rewrite Z.mod_eq by lia. lia.
  - rewrite E in Hq. replace (x * r) with (1 + q * n) by lia.
    rewrite Z.mod_add by lia. apply Z.mod_small. lia.
Qed.

(** ** Signing, verifying and preparing credits *)

(** The size of a SHA-384 hash, [hashFunc.Size()]. *)
Definition hash_size : nat := 48.

(** What the protocol relies on: for a salt of the hash's size and a blinding
    factor given with its inverse, blinding, signing and finalising a message
    under some metadata gives a signature on them. *)
Class BlindRSALaws (B : BlindRSA) := {
  rsa_correct message metadata salt r rInv blinded st blindSig sig :
    length salt = hash_size → mod_inverse r modulus = Some rInv →
    rsa_fixed_blind message metadata salt (big_bytes r) (big_bytes rInv) = Ok (blinded, st) →
    rsa_blind_sign blinded metadata = Ok blindSig →
    rsa_finalize st blindSig = Ok sig →
    rsa_verify message metadata sig = Ok tt;
}.

Section blind_signing.
Context {B : BlindRSA}.

(** The Verify function assumes a salt of the hash's length, all zeros. *)
Definition zeroSalt : list byte := replicate hash_size x00.

Definition blindSign (value : Currency.Value) (blindedMessage : list byte) : result err (list byte) :=
  metadata ← wrap_err (Wrapped "failed to marshal currency") (currency_err (Currency.BlindBytes value));
  wrap_err (Wrapped "failed to sign blinded message") (rsa_blind_sign blindedMessage metadata).

Definition verifyCredit (c : AnyCredit) : result err unit :=
  msg ← wrap_err (Wrapped "failed to get nonce blind bytes") (nonce_err (Nonce.BlindBytes (credit_Nonce c)));
  metadata ← wrap_err (Wrapped "failed to get currency blind bytes")
               (currency_err (Currency.BlindBytes (credit_Value c)));
  wrap_err VerificationError (rsa_verify msg metadata (credit_Signature c)).

(** [r] is what [rand.Int(rand.Reader, n)] delivered, [None] on failure. *)
Definition generateBlindingFactor (n : Z) (r : option Z) : result err (Z * Z) :=
  match r with
  | None => Err (ErrNew "rand: failed to read")
  | Some r =>
      let r := if r =? 0 then 1 else r in
      match mod_inverse r n with
      | None => Err (ErrNew "blindrsa: invalid blind")
      | Some rInv => Ok (r, rInv)
      end
  end.

(** Everything random a credit is made of, and the time it is made. *)
Record Draw := MkDraw {
  draw_blind : option Z;
  draw_factor : option Z;
  draw_now : Z;
  draw_fill : option (list byte);
}.

Record unsignedCreditState := MkUnsigned {
  finalized : bool;
  us_nonce : Nonce.Nonce;
  us_state : verifier_state;
}.

Definition newUnsignedCredit (value : Currency.Value) (d : Draw) :
    result err (list byte * unsignedCreditState) :=
  '(r, rInv) ← wrap_err (Wrapped "failed to generate blinding factor")
                 (generateBlindingFactor modulus (draw_blind d));
  nonce ← wrap_err (Wrapped "failed to prepare nonce")
            (nonce_err (Nonce.RandomNonce (draw_factor d) (draw_now d) (draw_fill d)));
  msg ← wrap_err (Wrapped "failed to marshal nonce") (nonce_err (Nonce.BlindBytes nonce));
  metadata ← wrap_err (Wrapped "failed to marshal currency") (currency_err (Currency.BlindBytes value));
  '(blindedMessage, state) ← wrap_err (Wrapped "failed to blind message")
      (rsa_fixed_blind msg metadata zeroSalt (big_bytes r) (big_bytes rInv));
  Ok (blindedMessage, MkUnsigned false nonce state).

(** Called at time [now]: the outcome, the state left behind and the time the
    call returns, after it has slept until an unsafe nonce may be used. *)
Definition finalize (now : Z) (c : unsignedCreditState) (blindSignature : list byte) :
    result err (Nonce.Nonce * list byte) * unsignedCreditState * Z :=
  if finalized c then (Err (ErrNew "credit already finalized"), c, now)
  else
    match rsa_finalize (us_state c) blindSignature with
    | Err e => (Err (Wrapped "failed to finalize" e), c, now)
    | Ok signature =>
        let returned :=
          if Nonce.UnsafeIncrement (us_nonce c) then
            let safeTime :=
              (Nonce.RoundDownNonceTimestamp (unix now) + Nonce.NonceMinimumSafeTimeSeconds) * second in
            Z.max now safeTime
          else now in
        (Ok (us_nonce c, signature), MkUnsigned true (us_nonce c) (us_state c), returned)
    end.

(** *** The issuer *)

Record BlindSignRequest := MkBlindSignRequest {
  req_Value : Currency.Value;
  req_BlindedMessage : list byte;
}.

Definition Issuer_BlindSign (request : BlindSignRequest) : result err (list byte) :=
  blindSign (req_Value request) (req_BlindedMessage request).

Definition IssueUnblindedCredit (d : Draw) (now : Z) (value : Currency.Value) :
    result err UnblindedCredit :=
  '(blindedMessage, state) ← wrap_err (Wrapped "failed to create unsigned credit")
                               (newUnsignedCredit value d);
  blindSignature ← wrap_err (Wrapped "failed to blind sign") (blindSign value blindedMessage);
  '(nonce, signature) ← wrap_err (Wrapped "failed to finalize")
                          (finalize now state blindSignature).1.1;
  Ok (MkUnblinded value nonce signature).

Definition Issuer_VerifyCredit (credit : AnyCredit) : result err unit := verifyCredit credit.

(** *** The payee *)

Record BlindSignState := MkBlindSignState {
  bss_value : Currency.Value;
  bss_blindedMessage : list byte;
  bss_state : unsignedCreditState;
}.

Definition Request (c : BlindSignState) : BlindSignRequest :=
  MkBlindSignRequest (bss_value c) (bss_blindedMessage c).

Definition Finalize (now : Z) (c : BlindSignState) (blindSignature : list byte) :
    result err BlindedCredit * BlindSignState * Z :=
  let '(r, st, returned) := finalize now (bss_state c) blindSignature in
  (('(nonce, signature) ← r; Ok (MkBlinded (bss_value c) nonce signature)),
   MkBlindSignState (bss_value c) (bss_blindedMessage c) st, returned).

Definition BeginBlindedCredit (value : Currency.Value) (d : Draw) : result err BlindSignState :=
  '(blindedMessage, state) ← newUnsignedCredit value d;
  Ok (MkBlindSignState value blindedMessage state).

Definition Payee_VerifyCredit (credit : AnyCredit) : result err unit := verifyCredit credit.

(** *** Lemmas *)

Lemma newUnsignedCredit_inv value d bm st :
  newUnsignedCredit value d = Ok (bm, st) →
  ∃ msg metadata r rInv,
    Nonce.BlindBytes (us_nonce st) = Ok msg ∧ Currency.BlindBytes value = Ok metadata ∧
    mod_inverse r modulus = Some rInv ∧
    rsa_fixed_blind msg metadata zeroSalt (big_bytes r) (big_bytes rInv) = Ok (bm, us_state st) ∧ finalized st = false ∧
    Nonce.RandomNonce (draw_factor d) (draw_now d) (draw_fill d) = Ok (us_nonce st).
Proof.
  unfold newUnsignedCredit, currency_err, nonce_err.
  intros ([r rInv] & Hr%wrap_err_ok & H)%result_bind_ok.
  apply result_bind_ok in H as (n & Hn%wrap_err_ok%wrap_err_ok & H).
  apply result_bind_ok in H as (msg & Hmsg%wrap_err_ok%wrap_err_ok & H).
  apply result_bind_ok in H as (md & Hmd%wrap_err_ok%wrap_err_ok & H).
  apply result_bind_ok in H as ([bm' st'] & Hfb%wrap_err_ok & [= <- <-]).
  exists msg, md, r, rInv. split_and!; try done. unfold generateBlindingFactor in Hr.
  destruct (draw_blind d) as [f|]; [|done].
  destruct (mod_inverse _ modulus) eqn:Hi; [|done]. by simplify_eq.
Qed.

Lemma finalize_ok now st bs n sig st' t' :
  finalize now st bs = (Ok (n, sig), st', t') →
  finalized st = false ∧ finalized st' = true ∧ n = us_nonce st ∧
  rsa_finalize (us_state st) bs = Ok sig ∧ now ≤ t' ∧
  (Nonce.UnsafeIncrement n = true →
     (Nonce.RoundDownNonceTimestamp (unix now) + Nonce.NonceMinimumSafeTimeSeconds) * second ≤ t').
Proof.
  unfold finalize. destruct (finalized st); [done|].
  destruct (rsa_finalize _ _) eqn:E; [|done].
  intros H. simplify_eq. simpl. split_and!; try done; case_match; done || lia.
Qed.

Context {BL : BlindRSALaws B}.

(** Signing what [newUnsignedCredit] blinded and finalising gives a credit
    that verifies. *)
Lemma signed_verifies value d bm st bs now n sig st' t' c :
  newUnsignedCredit value d = Ok (bm, st) → blindSign value bm = Ok bs →
  finalize now st bs = (Ok (n, sig), st', t') →
  credit_Nonce c = n → credit_Value c = value → credit_Signature c = sig →
  verifyCredit c = Ok tt.
Proof.
  intros (msg & md & r & rInv & Hmsg & Hmd & Hinv & Hfb & _)%newUnsignedCredit_inv Hbs
    (_ & _ & -> & Hfin & _)%finalize_ok Hn Hv Hs.
  unfold blindSign, currency_err in Hbs. rewrite Hmd in Hbs. simpl in Hbs.
  apply wrap_err_ok in Hbs.
  unfold verifyCredit, currency_err, nonce_err. rewrite Hn, Hv, Hs, Hmsg, Hmd. simpl.
  by rewrite (rsa_correct _ _ zeroSalt _ _ _ _ _ _ eq_refl Hinv Hfb Hbs Hfin).
Qed.
End blind_signing.

(** A signature scheme that satisfies the laws: signing appends the metadata. *)
Definition toy_rsa : BlindRSA := {|
  verifier_state := unit;
  modulus := 3233;
  rsa_blind_sign blinded metadata := Ok (blinded ++ metadata);
  rsa_fixed_blind message metadata salt r rInv := Ok (message, tt);
  rsa_finalize st blindSig := Ok blindSig;
  rsa_verify message metadata signature :=
    if decide (signature = message ++ metadata) then Ok tt else Err (ErrNew "invalid signature");
|}.
Lemma toy_rsa_laws : BlindRSALaws toy_rsa.
Proof.
  constructor. simpl. intros. simplify_eq. by rewrite decide_True.
Qed.

Definition toy_draw (now : Z) : Draw :=
  MkDraw (Some 7) (Some 0) now (Some (replicate 16 x2a)).

Lemma issued_verifies `{BL : !BlindRSALaws B} d now value c :
  IssueUnblindedCredit d now value = Ok c →
  Issuer_VerifyCredit (Unblinded c) = Ok tt ∧ u_value c = value.
Proof.
  unfold IssueUnblindedCredit. intros ([bm st] & Hnew%wrap_err_ok & H)%result_bind_ok.
  apply result_bind_ok in H as (bs & Hbs%wrap_err_ok & H).
  apply result_bind_ok in H as ([n sig] & Hfin%wrap_err_ok & [= <-]).
  split; [|done]. destruct (finalize now st bs) as [[r st'] t'] eqn:E. simpl in Hfin. subst r.
  by eapply signed_verifies.
Qed.

(** A credit the issuer creates on its own verifies against its key and has
    the requested value. *)
Theorem IssueUnblindedCredit_verifies `{BL : !BlindRSALaws B} d now value c :
  IssueUnblindedCredit d now value = Ok c →
  Issuer_VerifyCredit (Unblinded c) = Ok tt ∧ u_value c = value.
Proof. apply issued_verifies. Qed.

Lemma IssueUnblindedCredit_verifies_witness :
  ∃ c, IssueUnblindedCredit (B:=toy_rsa) (toy_draw 0) 0 (Currency.MkValue false 50) = Ok c ∧
    Issuer_VerifyCredit (B:=toy_rsa) (Unblinded c) = Ok tt ∧ u_value c = Currency.MkValue false 50.
Proof.
  eexists. split; [vm_compute; reflexivity|].
  apply (@IssueUnblindedCredit_verifies toy_rsa toy_rsa_laws (toy_draw 0) 0). vm_compute. reflexivity.
Defined.

(** C12. The withdrawal protocol: a payee begins a credit, the issuer signs the
    request it sends, the payee finalises.  The credit verifies for payee and
    issuer and has the requested value; the call returns only once an unsafe
    nonce may be used; finalising a second time fails and changes nothing. *)
Theorem payee_protocol `{BL : !BlindRSALaws B} value d s bs now c s' returned now' bs' :
  BeginBlindedCredit value d = Ok s → Issuer_BlindSign (Request s) = Ok bs →
  Finalize now s bs = (Ok c, s', returned) →
  Payee_VerifyCredit (Blinded c) = Ok tt ∧ Issuer_VerifyCredit (Blinded c) = Ok tt ∧
  b_value c = value ∧ now ≤ returned ∧
  (Nonce.UnsafeIncrement (b_nonce c) = true →
     (Nonce.RoundDownNonceTimestamp (unix now) + Nonce.NonceMinimumSafeTimeSeconds) * second ≤ returned) ∧
  Finalize now' s' bs' = (Err (ErrNew "credit already finalized"), s', now').
Proof.
  unfold BeginBlindedCredit. intros ([bm st] & Hnew & [= <-])%result_bind_ok Hbs. unfold Finalize. simpl.
  destruct (finalize now st bs) as [[r st'] t'] eqn:E.
  destruct r as [[n sig]|]; simpl; intros H; simplify_eq.
  pose proof (finalize_ok _ _ _ _ _ _ _ E) as (_ & Hf & Hn & _ & Ht & Hsafe).
  assert (verifyCredit (Blinded (MkBlinded value n sig)) = Ok tt) as Hv by by eapply signed_verifies.
  unfold finalize. simpl. rewrite Hf. simpl. auto 10.
Qed.

Lemma payee_protocol_witness :
  ∃ s bs c s', BeginBlindedCredit (B:=toy_rsa) (Currency.MkValue false 50) (toy_draw 0) = Ok s ∧
    Issuer_BlindSign (B:=toy_rsa) (Request s) = Ok bs ∧
    Finalize (B:=toy_rsa) 7 s bs = (Ok c, s', 7) ∧
    Payee_VerifyCredit (B:=toy_rsa) (Blinded c) = Ok tt ∧ b_value c = Currency.MkValue false 50 ∧
    Finalize (B:=toy_rsa) 9 s' bs = (Err (ErrNew "credit already finalized"), s', 9).
Proof.
  do 4 eexists. split; [vm_compute; reflexivity|]. split; [vm_compute; reflexivity|].
  split; [vm_compute; reflexivity|].
  pose proof (λ s bs c s', @payee_protocol toy_rsa toy_rsa_laws
    (Currency.MkValue false 50) (toy_draw 0) s bs 7 c s' 7 9 bs) as H.
  edestruct H    as (H1 & _ & H3 & _ & _ & H6);
    [vm_compute; reflexivity|vm_compute; reflexivity|vm_compute; reflexivity|].
  split; [exact H1|]. split; [exact H3|exact H6].
Defined.

(** The blinding factor is invertible: whatever the random source delivers
    below the modulus, a returned pair consists of a non-zero residue and its
    inverse, and the only failures are a failing source and a residue that
    shares a factor with the modulus. *)
Theorem generateBlindingFactor_spec n r :
  1 < n → (∀ x, r = Some x → 0 ≤ x < n) →
  match generateBlindingFactor n r with
  | Ok (f, fInv) => 0 < f < n ∧ 0 ≤ fInv < n ∧ (fInv * f) mod n = 1
  | Err _ => r = None ∨ ∃ x, r = Some x ∧ x ≠ 0 ∧ Z.gcd x n ≠ 1
  end.
Proof.
  intros Hn Hr. unfold generateBlindingFactor. destruct r as [x|]; [|by left].
  specialize (Hr x eq_refl). set (f := if x =? 0 then 1 else x).
  assert (0 < f < n) by (subst f; destruct (Z.eqb_spec x 0); lia).
  pose proof (mod_inverse_spec f n Hn) as Hi. destruct (mod_inverse f n) as [fi|]; [tauto|].
  right. exists x. split; [done|]. subst f. destruct (Z.eqb_spec x 0) as [->|]; [|done].
  by rewrite Z.gcd_1_l in Hi.
Qed.

Lemma generateBlindingFactor_spec_witness :
  match generateBlindingFactor 3233 (Some 7) with
  | Ok (f, fInv) => 0 < f < 3233 ∧ 0 ≤ fInv < 3233 ∧ (fInv * f) mod 3233 = 1
  | Err _ => Some 7 = None ∨ ∃ x, Some 7 = Some x ∧ x ≠ 0 ∧ Z.gcd x 3233 ≠ 1
  end.
Proof. apply generateBlindingFactor_spec; [lia|]. intros x [= <-]. lia. Defined.
