(* ===== verification/NonceLocking.v ===== *)
(** Nonce locking: the [NonceLocker] contract of package [anonpay]
    ([anonpay.go]), the in-memory implementation
    ([noncelocking/inmem/nonce_locker.go]) and the adapter between its tickets
    and the contract ([noncelocking/ticket_locker_contract.go]). *)

From S2P Require Import Prelude Bytes GoLib AnonErrors.
From S2P Require Import Nonce.

(** ** The contract

    A locker keeps, for the random bytes of every nonce, whether it is free,
    locked or consumed. *)

Inductive nonce_state := NonceFree | NonceHeld | NonceUsed.

#[global] Instance nonce_state_eq_dec : EqDecision nonce_state.
Proof. solve_decision. Defined.

(** What a call sees of the outside world: the clock and the ticket reader. *)
Record LockEnv := MkLockEnv { env_now : Z; env_ticket : option (list byte) }.

Class NonceLocker := {
  locker : Type;
  LockedNonce : Type;
  CheckAndLockNonce : LockEnv → Nonce → locker → result err LockedNonce * locker;
  Consume : LockedNonce → locker → result err unit * locker;
  Release : LockedNonce → locker → result err unit * locker;
}.

(** What the documentation of the interface asks of an implementation, over the
    abstract state [nonce_stored] of every nonce.  Locking drops nothing but the
    state of expired nonces, and so does whatever the locker does on its own at
    a time [now]; a lock may be released after it was consumed, which changes
    nothing; nothing is said of how long the state of unconsumed nonces lives,
    nor of what nonces share a state. *)
Class NonceLockerContract (NL : NonceLocker) := {
  nonce_stored : locker → Nonce → nonce_state;
  lock_on : LockedNonce → Nonce → Prop;
  maintain : Z → locker → locker → Prop;

  con_bad_nonce env n s :
    length (nonce_bytes n) ≠ NonceLen ∨ IsExpiredAt n (env_now env) = true →
    ∃ e s', CheckAndLockNonce env n s = (Err e, s') ∧ as_InputError e = true;
  con_locked env n s : length (nonce_bytes n) = NonceLen → IsExpiredAt n (env_now env) = false →
    nonce_stored s n = NonceHeld →
    ∃ e s', CheckAndLockNonce env n s = (Err e, s') ∧ errors_Is e ErrNonceLocked = true;
  con_consumed env n s : length (nonce_bytes n) = NonceLen → IsExpiredAt n (env_now env) = false →
    nonce_stored s n = NonceUsed →
    ∃ e s', CheckAndLockNonce env n s = (Err e, s') ∧ errors_Is e ErrNonceConsumed = true;
  con_lock env n s l s' : CheckAndLockNonce env n s = (Ok l, s') →
    lock_on l n ∧ nonce_stored s' n = NonceHeld;
  con_consume l n s s' : lock_on l n → Consume l s = (Ok tt, s') →
    nonce_stored s n ≠ NonceUsed ∧ nonce_stored s' n = NonceUsed;
  con_release l n s s' : lock_on l n → nonce_stored s n = NonceHeld →
    Release l s = (Ok tt, s') → nonce_stored s' n = NonceFree;

  con_lock_keeps env m s n : nonce_stored s n = NonceUsed →
    nonce_stored (CheckAndLockNonce env m s).2 n = NonceUsed ∨ IsExpiredAt n (env_now env) = true;
  con_consume_keeps l s n : nonce_stored s n = NonceUsed → nonce_stored (Consume l s).2 n = NonceUsed;
  con_release_keeps l s n : nonce_stored s n = NonceUsed → nonce_stored (Release l s).2 n = NonceUsed;
  con_maintain_keeps now s s' n : maintain now s s' → nonce_stored s n = NonceUsed →
    nonce_stored s' n = NonceUsed ∨ IsExpiredAt n now = true;
}.

(** A locker that meets the contract, keeps one state for all nonces with the
    same random bytes and never drops any: a fresh lock is only granted on a
    live, well-sized, free nonce; a consumed nonce stays consumed and a lock on
    it is refused; calls that fail and calls on other nonces change nothing. *)
Class NonceLockerSpec (NL : NonceLocker) := {
  nonce_status : locker → list byte → nonce_state;
  locked_nonce : LockedNonce → list byte;

  lock_ok env n s l s' : CheckAndLockNonce env n s = (Ok l, s') →
    length (nonce_bytes n) = NonceLen ∧ IsExpiredAt n (env_now env) = false ∧
    locked_nonce l = nonce_bytes n ∧
    nonce_status s (nonce_bytes n) = NonceFree ∧ nonce_status s' (nonce_bytes n) = NonceHeld;
  lock_err env n s e s' : CheckAndLockNonce env n s = (Err e, s') → s' = s;
  lock_bad_nonce env n s :
    length (nonce_bytes n) ≠ NonceLen ∨ IsExpiredAt n (env_now env) = true →
    ∃ e s', CheckAndLockNonce env n s = (Err e, s') ∧ as_InputError e = true;
  lock_held env n s : length (nonce_bytes n) = NonceLen → IsExpiredAt n (env_now env) = false →
    nonce_status s (nonce_bytes n) = NonceHeld →
    ∃ e s', CheckAndLockNonce env n s = (Err e, s') ∧ errors_Is e ErrNonceLocked = true;
  lock_used env n s : length (nonce_bytes n) = NonceLen → IsExpiredAt n (env_now env) = false →
    nonce_status s (nonce_bytes n) = NonceUsed →
    ∃ e s', CheckAndLockNonce env n s = (Err e, s') ∧ errors_Is e ErrNonceConsumed = true;
  lock_other env n s b : b ≠ nonce_bytes n →
    nonce_status (CheckAndLockNonce env n s).2 b = nonce_status s b;

  consume_ok l s s' : Consume l s = (Ok tt, s') →
    nonce_status s (locked_nonce l) = NonceHeld ∧ nonce_status s' (locked_nonce l) = NonceUsed;
  consume_err l s e s' : Consume l s = (Err e, s') → s' = s;
  consume_other l s b : b ≠ locked_nonce l → nonce_status (Consume l s).2 b = nonce_status s b;

  release_ok l s s' : Release l s = (Ok tt, s') →
    nonce_status s' (locked_nonce l) = match nonce_status s (locked_nonce l) with NonceUsed => NonceUsed | _ => NonceFree end;
  release_err l s e s' : Release l s = (Err e, s') → s' = s;
  release_other l s b : b ≠ locked_nonce l → nonce_status (Release l s).2 b = nonce_status s b;
}.

(** ** The in-memory locker *)

Inductive nonceStatus := statusLocked | statusConsumed.

Record storedNonce := MkStored { status : nonceStatus; ticket : string }.

Abbreviation nonces_map := (gmap string storedNonce).

Definition NewNonceLocker : nonces_map := ∅.

Definition nonce_key (n : Nonce) : string := hex_encode (nonce_bytes n).

Definition bad_length (n : Nonce) : bool := negb (length (nonce_bytes n) =? NonceLen)%nat.

Definition LockNonce (env : LockEnv) (nonce : Nonce) (nonces : nonces_map) :
    result err string * nonces_map :=
  if bad_length nonce then (Err (InputError (ErrNew "invalid nonce length")), nonces)
  else if IsExpiredAt nonce (env_now env) then (Err (InputError (ErrNew "expired nonce")), nonces)
  else
    let key := nonce_key nonce in
    match nonces !! key with
    | Some sn =>
        match status sn with
        | statusLocked => (Err ErrNonceLocked, nonces)
        | statusConsumed => (Err ErrNonceConsumed, nonces)
        end
    | None =>
        match env_ticket env with
        | None => (Err (Wrapped "failed to read ticket" (ErrNew "unexpected EOF")), nonces)
        | Some ticketB =>
            let ticket := hex_encode ticketB in
            (Ok ticket, <[key := MkStored statusLocked ticket]> nonces)
        end
    end.

Definition ConsumeNonce (nonce : Nonce) (ticket : string) (nonces : nonces_map) :
    result err unit * nonces_map :=
  if bad_length nonce then (Err (InputError (ErrNew "invalid nonce length")), nonces)
  else
    let key := nonce_key nonce in
    match nonces !! key with
    | None => (Err (ErrNew "no lock found for ticket"), nonces)
    | Some sn =>
        match status sn with
        | statusConsumed => (Err ErrNonceConsumed, nonces)
        | statusLocked => (Ok tt, <[key := MkStored statusConsumed ticket]> nonces)
        end
    end.

Definition ReleaseNonce (nonce : Nonce) (ticket : string) (nonces : nonces_map) :
    result err unit * nonces_map :=
  if bad_length nonce then (Err (InputError (ErrNew "invalid nonce length")), nonces)
  else
    let key := nonce_key nonce in
    match nonces !! key with
    | None => (Err (ErrNew "no lock found for ticket"), nonces)
    | Some sn =>
        match status sn with
        | statusConsumed => (Err ErrNonceConsumed, nonces)
        | statusLocked => (Ok tt, delete key nonces)
        end
    end.

(** ** From tickets to the contract *)

(** The contract of a locker that hands out tickets
    ([noncelocking/ticket_locker_contract.go]). *)
Class TicketLockerContract := {
  tickets : Type;
  tc_LockNonce : LockEnv → Nonce → tickets → result err string * tickets;
  tc_ConsumeNonce : Nonce → string → tickets → result err unit * tickets;
  tc_ReleaseNonce : Nonce → string → tickets → result err unit * tickets;
}.

Record ticketLock := MkTicketLock { tl_nonce : Nonce; tl_ticket : string }.

Section adapter.
Context {TC : TicketLockerContract}.

Definition adapter_CheckAndLockNonce (env : LockEnv) (nonce : Nonce) (s : tickets) :
    result err ticketLock * tickets :=
  let '(r, s) := tc_LockNonce env nonce s in
  (ticket ← r; Ok (MkTicketLock nonce ticket), s).
Definition ticketLock_Consume (l : ticketLock) (s : tickets) : result err unit * tickets :=
  tc_ConsumeNonce (tl_nonce l) (tl_ticket l) s.
Definition ticketLock_Release (l : ticketLock) (s : tickets) : result err unit * tickets :=
  tc_ReleaseNonce (tl_nonce l) (tl_ticket l) s.

Definition FromTicketLocker : NonceLocker := {|
  locker := tickets;
  LockedNonce := ticketLock;
  CheckAndLockNonce := adapter_CheckAndLockNonce;
  Consume := ticketLock_Consume;
  Release := ticketLock_Release;
|}.
End adapter.

#[export] Instance inmem_tickets : TicketLockerContract := {|
  tickets := nonces_map;
  tc_LockNonce := LockNonce;
  tc_ConsumeNonce := ConsumeNonce;
  tc_ReleaseNonce := ReleaseNonce;
|}.

#[export] Instance inmem_locker : NonceLocker := FromTicketLocker.

Definition inmem_status (nonces : nonces_map) (b : list byte) : nonce_state :=
  match nonces !! hex_encode b with
  | None => NonceFree
  | Some sn => match status sn with statusLocked => NonceHeld | statusConsumed => NonceUsed end
  end.

Lemma inmem_status_insert_ne nonces b c sn :
  b ≠ c → inmem_status (<[hex_encode c := sn]> nonces) b = inmem_status nonces b.
Proof. intros. unfold inmem_status. by rewrite lookup_insert_ne by (by intros ?%(inj _)). Qed.

Lemma inmem_status_delete_ne nonces b c :
  b ≠ c → inmem_status (delete (hex_encode c) nonces) b = inmem_status nonces b.
Proof. intros. unfold inmem_status. by rewrite lookup_delete_ne by (by intros ?%(inj _)). Qed.

Lemma inmem_status_insert nonces c sn :
  inmem_status (<[hex_encode c := sn]> nonces) c =
    match status sn with statusLocked => NonceHeld | statusConsumed => NonceUsed end.
Proof. unfold inmem_status. by rewrite lookup_insert_eq. Qed.

Lemma inmem_status_delete nonces c : inmem_status (delete (hex_encode c) nonces) c = NonceFree.
Proof. unfold inmem_status. by rewrite lookup_delete_eq. Qed.

Lemma bad_length_false n : bad_length n = false ↔ length (nonce_bytes n) = NonceLen.
Proof. unfold bad_length. by rewrite negb_false_iff, Nat.eqb_eq. Qed.

(** Case analysis of the three ticket operations, branch by branch. *)
Ltac locker_cases :=
  unfold CheckAndLockNonce, Consume, Release, inmem_locker, FromTicketLocker, adapter_CheckAndLockNonce,
    ticketLock_Consume, ticketLock_Release, tc_LockNonce, tc_ConsumeNonce, tc_ReleaseNonce, inmem_tickets, LockNonce, ConsumeNonce, ReleaseNonce, nonce_key in *;
  repeat first
    [ progress simplify_eq/=
    | match goal with
      | H : context [if bad_length ?n then _ else _] |- _ =>
          let E := fresh "Hlen" in destruct (bad_length n) eqn:E
      | |- context [if bad_length ?n then _ else _] =>
          let E := fresh "Hlen" in destruct (bad_length n) eqn:E
      | H : context [if IsExpiredAt ?n ?t then _ else _] |- _ => destruct (IsExpiredAt n t) eqn:?
      | |- context [if IsExpiredAt ?n ?t then _ else _] => destruct (IsExpiredAt n t) eqn:?
      | H : context [match ?m !! ?k with _ => _ end] |- _ => destruct (m !! k) eqn:?
      | |- context [match ?m !! ?k with _ => _ end] => destruct (m !! k) eqn:?
      | H : context [match status ?s with _ => _ end] |- _ => destruct (status s) eqn:?
      | |- context [match status ?s with _ => _ end] => destruct (status s) eqn:?
      | H : context [match env_ticket ?s with _ => _ end] |- _ => destruct (env_ticket s) eqn:?
      | |- context [match env_ticket ?s with _ => _ end] => destruct (env_ticket s) eqn:?
      end ].

#[export] Program Instance inmem_locker_spec : NonceLockerSpec inmem_locker := {|
  nonce_status := inmem_status;
  locked_nonce l := nonce_bytes (tl_nonce l);
|}.
Next Obligation.
  intros env n s l s' H. locker_cases. apply bad_length_false in Hlen.
  rewrite inmem_status_insert. unfold inmem_status. simpl. by rewrite Heqo.
Qed.
Next Obligation. intros env n s e s' H. by locker_cases. Qed.
Next Obligation.
  intros env n s H. rewrite <- bad_length_false in H.
  locker_cases; destruct H; try congruence; by do 2 eexists.
Qed.
Next Obligation.
  intros env n s Hl He H. rewrite <- bad_length_false in Hl. unfold inmem_status in H.
  locker_cases; by do 2 eexists.
Qed.
Next Obligation.
  intros env n s Hl He H. rewrite <- bad_length_false in Hl. unfold inmem_status in H.
  locker_cases; by do 2 eexists.
Qed.
Next Obligation. intros env n s b Hb. locker_cases; auto using inmem_status_insert_ne. Qed.
Next Obligation.
  intros l s s' H. locker_cases. rewrite inmem_status_insert. unfold inmem_status.
  rewrite Heqo. simpl. by rewrite Heqn.
Qed.
Next Obligation. intros l s e s' H. by locker_cases. Qed.
Next Obligation. intros l s b Hb. locker_cases; auto using inmem_status_insert_ne. Qed.
Next Obligation.
  intros l s s' H. locker_cases. rewrite inmem_status_delete. unfold inmem_status.
  rewrite Heqo. simpl. by rewrite Heqn.
Qed.
Next Obligation. intros l s e s' H. by locker_cases. Qed.
Next Obligation. intros l s b Hb. locker_cases; auto using inmem_status_delete_ne. Qed.

(** ** The specification the in-memory locker implements

    The abstract machine keeps the state of every nonce, whatever its bytes, and
    knows nothing of keys, maps or tickets.  A call by any client is one step. *)

Inductive call :=
| CallLock (env : LockEnv) (n : Nonce)
| CallConsume (n : Nonce) (ticket : string)
| CallRelease (n : Nonce) (ticket : string).

Definition call_nonce (c : call) : list byte :=
  match c with CallLock _ n | CallConsume n _ | CallRelease n _ => nonce_bytes n end.

(** The new state of the nonce a call is about, or the error it answers. *)
Definition spec_next (c : call) (st : nonce_state) : result err nonce_state :=
  if negb (length (call_nonce c) =? NonceLen)%nat then Err (InputError (ErrNew "invalid nonce length"))
  else
    match c, st with
    | CallLock env n, _ =>
        if IsExpiredAt n (env_now env) then Err (InputError (ErrNew "expired nonce"))
        else match st with
             | NonceHeld => Err ErrNonceLocked
             | NonceUsed => Err ErrNonceConsumed
             | NonceFree =>
                 match env_ticket env with
                 | None => Err (Wrapped "failed to read ticket" (ErrNew "unexpected EOF"))
                 | Some _ => Ok NonceHeld
                 end
             end
    | _, NonceFree => Err (ErrNew "no lock found for ticket")
    | _, NonceUsed => Err ErrNonceConsumed
    | CallConsume _ _, NonceHeld => Ok NonceUsed
    | CallRelease _ _, NonceHeld => Ok NonceFree
    end.

Definition spec_call (c : call) (σ : list byte → nonce_state) : result err unit * (list byte → nonce_state) :=
  match spec_next c (σ (call_nonce c)) with
  | Err e => (Err e, σ)
  | Ok st => (Ok tt, λ b, if decide (b = call_nonce c) then st else σ b)
  end.

Definition inmem_call (c : call) (s : nonces_map) : result err unit * nonces_map :=
  match c with
  | CallLock env n => let '(r, s) := LockNonce env n s in (_ ← r; Ok tt, s)
  | CallConsume n t => ConsumeNonce n t s
  | CallRelease n t => ReleaseNonce n t s
  end.

(** Running a sequence of calls: the answers and the final state. *)
Fixpoint run {S} (step : call → S → result err unit * S) (cs : list call) (s : S) :
    list (result err unit) * S :=
  match cs with
  | [] => ([], s)
  | c :: cs => let '(r, s) := step c s in let '(rs, s) := run step cs s in (r :: rs, s)
  end.

Lemma inmem_call_refines c s σ :
  (∀ b, inmem_status s b = σ b) →
  (inmem_call c s).1 = (spec_call c σ).1 ∧
  ∀ b, inmem_status (inmem_call c s).2 b = (spec_call c σ).2 b.
Proof.
  intros Hs.
  assert (∀ n, inmem_status s (nonce_bytes n) =
    match s !! nonce_key n with
    | None => NonceFree
    | Some sn => match status sn with statusLocked => NonceHeld | statusConsumed => NonceUsed end
    end) as Hk by done.
  unfold spec_call. rewrite <- Hs. unfold spec_next.
  destruct c as [env n|n t|n t]; cbn [call_nonce inmem_call]; rewrite Hk;
    unfold LockNonce, ConsumeNonce, ReleaseNonce, bad_length;
    destruct (length (nonce_bytes n) =? NonceLen)%nat; cbn [negb]; try done;
    try (destruct (IsExpiredAt n (env_now env)); [done|]);
    destruct (s !! nonce_key n) as [[[] tk]|]; cbn [status]; try done;
    try (destruct (env_ticket env); [|done]); split; try done; intros b; cbn [snd];
    (case_decide as Hb; [subst b|]); unfold nonce_key;
    rewrite ?inmem_status_insert, ?inmem_status_delete,
      ?inmem_status_insert_ne, ?inmem_status_delete_ne by done; done.
Qed.

(** ** No double spend *)

Section single_use.
Context {NL : NonceLocker} {NLS : NonceLockerSpec NL}.

(** Any client may call any operation, in any order and with any lock. *)
Inductive locker_step : locker → locker → Prop :=
| step_lock env n s : locker_step s (CheckAndLockNonce env n s).2
| step_consume l s : locker_step s (Consume l s).2
| step_release l s : locker_step s (Release l s).2.

Lemma used_step s s' b : locker_step s s' → nonce_status s b = NonceUsed → nonce_status s' b = NonceUsed.
Proof.
  intros H Hb. destruct H as [env n s|l s|l s].
  - destruct (CheckAndLockNonce env n s) as [[l|e] s'] eqn:E; simpl.
    + destruct (decide (b = nonce_bytes n)) as [->|Hne].
      * apply lock_ok in E as (_ & _ & _ & Hf & _). congruence.
      * pose proof (lock_other env n s b Hne) as H. rewrite E in H. simpl in H. congruence.
    + by apply lock_err in E as ->.
  - destruct (Consume l s) as [[[]|e] s'] eqn:E; simpl.
    + destruct (decide (b = locked_nonce l)) as [->|Hne].
      * by apply consume_ok in E as [_ ?].
      * pose proof (consume_other l s b Hne) as H. rewrite E in H. simpl in H. congruence.
    + by apply consume_err in E as ->.
  - destruct (Release l s) as [[[]|e] s'] eqn:E; simpl.
    + destruct (decide (b = locked_nonce l)) as [->|Hne].
      * apply release_ok in E. by rewrite Hb in E.
      * pose proof (release_other l s b Hne) as H. rewrite E in H. simpl in H. congruence.
    + by apply release_err in E as ->.
Qed.

Lemma used_steps s s' b :
  rtc locker_step s s' → nonce_status s b = NonceUsed → nonce_status s' b = NonceUsed.
Proof. induction 1; eauto using used_step. Qed.

Lemma lock_used_fails env n s :
  nonce_status s (nonce_bytes n) = NonceUsed → ∃ e, (CheckAndLockNonce env n s).1 = Err e.
Proof.
  intros H. destruct (CheckAndLockNonce env n s) as [[l|e] s'] eqn:E; [|by eauto].
  apply lock_ok in E as (_ & _ & _ & ? & _). congruence.
Qed.

Lemma nonce_consumed_once_steps l s s1 s2 :
  Consume l s = (Ok tt, s1) → rtc locker_step s1 s2 →
  ∀ env n, nonce_bytes n = locked_nonce l → ∃ e, (CheckAndLockNonce env n s2).1 = Err e.
Proof.
  intros [_ Hu]%consume_ok Hsteps env n Hn. apply lock_used_fails.
  rewrite Hn. by eapply used_steps.
Qed.
End single_use.

(** C10. The in-memory locker implements the nonce state machine: for any
    sequence of lock, consume and release calls, with any tickets, clocks and
    ticket readers, it gives call for call the answer of the abstract machine,
    errors included, and ends with every nonce in the machine's state. *)
Theorem inmem_locker_refines cs :
  (run inmem_call cs NewNonceLocker).1 = (run spec_call cs (λ _, NonceFree)).1 ∧
  ∀ b, inmem_status (run inmem_call cs NewNonceLocker).2 b = (run spec_call cs (λ _, NonceFree)).2 b.
Proof.
  assert (∀ s σ, (∀ b, inmem_status s b = σ b) →
    (run inmem_call cs s).1 = (run spec_call cs σ).1 ∧
    ∀ b, inmem_status (run inmem_call cs s).2 b = (run spec_call cs σ).2 b) as H; [|by apply H].
  induction cs as [|c cs IH]; intros s σ Hs; [done|]. simpl.
  destruct (inmem_call_refines c s σ Hs) as [Hr Hs'].
  destruct (inmem_call c s) as [r s'], (spec_call c σ) as [r' σ']. simpl in Hr, Hs'. subst r'.
  destruct (IH s' σ' Hs') as [H1 H2].
  destruct (run inmem_call cs s'), (run spec_call cs σ'). simpl in *. by subst.
Qed.

(** *** Every locker that keeps its state meets the contract *)

#[export] Program Instance spec_meets_contract {NL : NonceLocker} {NLS : NonceLockerSpec NL} : NonceLockerContract NL := {|
  nonce_stored s n := nonce_status s (nonce_bytes n);
  lock_on l n := locked_nonce l = nonce_bytes n;
  maintain _ s s' := s' = s;
|}.
Next Obligation. intros. by apply lock_bad_nonce. Qed.
Next Obligation. intros. by apply lock_held. Qed.
Next Obligation. intros. by apply lock_used. Qed.
Next Obligation. intros NL NLS env n s l s' (_ & _ & ? & _ & ?)%lock_ok. done. Qed.
Next Obligation. cbn. intros NL NLS l n s s' <- [? ?]%consume_ok. split; congruence. Qed.
Next Obligation. cbn. intros NL NLS l n s s' <- Hh H%release_ok. by rewrite Hh in H. Qed.
Next Obligation. cbn. intros NL NLS env m s n Hu. left. by eapply used_step; [apply step_lock|]. Qed.
Next Obligation. cbn. intros NL NLS l s n Hu. by eapply used_step; [apply step_consume|]. Qed.
Next Obligation. cbn. intros NL NLS l s n Hu. by eapply used_step; [apply step_release|]. Qed.
Next Obligation. cbn. intros NL NLS now s s' n ->. by left. Qed.

(** *** A locker that drops expired nonces

    As the contract allows: it forgets expired nonces whenever it is asked for
    a lock and in between, and a lock can be released after it was consumed. *)

Definition drop_expired (now : Z) (s : Nonce → nonce_state) : Nonce → nonce_state :=
  λ n, if IsExpiredAt n now then NonceFree else s n.
Definition set_nonce (n : Nonce) (st : nonce_state) (s : Nonce → nonce_state) : Nonce → nonce_state :=
  λ m, if decide (m = n) then st else s m.

Definition dropping_locker : NonceLocker := {|
  locker := Nonce → nonce_state;
  LockedNonce := Nonce;
  CheckAndLockNonce env n s :=
    let s := drop_expired (env_now env) s in
    if bad_length n then (Err (InputError (ErrNew "invalid nonce length")), s)
    else if IsExpiredAt n (env_now env) then (Err (InputError (ErrNew "expired nonce")), s)
    else match s n with
         | NonceHeld => (Err ErrNonceLocked, s)
         | NonceUsed => (Err ErrNonceConsumed, s)
         | NonceFree => (Ok n, set_nonce n NonceHeld s)
         end;
  Consume n s :=
    match s n with NonceHeld => (Ok tt, set_nonce n NonceUsed s) | _ => (Err (ErrNew "not locked"), s) end;
  Release n s :=
    match s n with NonceHeld => (Ok tt, set_nonce n NonceFree s) | _ => (Ok tt, s) end;
|}.

Lemma set_nonce_eq n st s : set_nonce n st s n = st.
Proof. unfold set_nonce. by rewrite decide_True. Qed.
Lemma set_nonce_keeps m n st s : s m ≠ NonceUsed → s n = NonceUsed → set_nonce m st s n = NonceUsed.
Proof. intros Hm Hn. unfold set_nonce. case_decide; [congruence|done]. Qed.

Lemma drop_expired_keeps now s n :
  s n = NonceUsed → drop_expired now s n = NonceUsed ∨ IsExpiredAt n now = true.
Proof. unfold drop_expired. destruct (IsExpiredAt n now); auto. Qed.

#[export] Program Instance dropping_contract : NonceLockerContract dropping_locker := {|
  nonce_stored s n := s n;
  lock_on l n := l = n;
  maintain now s s' := ∀ n, s' n = s n ∨ IsExpiredAt n now = true;
|}.
Next Obligation.
  cbn. intros env n s H. rewrite <- bad_length_false in H.
  destruct (bad_length n); [eauto|]. destruct H as [?| ->]; [done|eauto].
Qed.
Next Obligation.
  cbn. intros env n s Hl He H. apply bad_length_false in Hl. unfold drop_expired. rewrite Hl, He, H. eauto.
Qed.
Next Obligation.
  cbn. intros env n s Hl He H. apply bad_length_false in Hl. unfold drop_expired. rewrite Hl, He, H. eauto.
Qed.
Next Obligation.
  cbn. intros env n s l s' H. repeat case_match; simplify_eq. split; [done|apply set_nonce_eq].
Qed.
Next Obligation. cbn. intros l n s s' -> H. case_match; simplify_eq. split; [congruence|apply set_nonce_eq]. Qed.
Next Obligation. cbn. intros l n s s' -> Hh H. rewrite Hh in H. simplify_eq. apply set_nonce_eq. Qed.
Next Obligation.
  cbn. intros env m s n [H| ?]%(drop_expired_keeps (env_now env)); [|by right]. left.
  repeat case_match; cbn [snd]; try done. apply set_nonce_keeps; congruence.
Qed.
Next Obligation. cbn. intros l s n H. case_match; cbn [snd]; try done. apply set_nonce_keeps; congruence. Qed.
Next Obligation. cbn. intros l s n H. case_match; cbn [snd]; try done. apply set_nonce_keeps; congruence. Qed.
Next Obligation. cbn. intros now s s' n Hm H. destruct (Hm n) as [Hs|]; [left; congruence|by right]. Qed.

(** *** The run of a locker *)

Section contract.
Context {NL : NonceLocker} {NLC : NonceLockerContract NL}.

(** Time passes, the locker looks after its state, and any client may call any
    operation, in any order and with any lock. *)
Inductive timed_step : Z * locker → Z * locker → Prop :=
| tstep_time now now' s : now ≤ now' → timed_step (now, s) (now', s)
| tstep_maintain now s s' : maintain now s s' → timed_step (now, s) (now, s')
| tstep_lock env n s : timed_step (env_now env, s) (env_now env, (CheckAndLockNonce env n s).2)
| tstep_consume now l s : timed_step (now, s) (now, (Consume l s).2)
| tstep_release now l s : timed_step (now, s) (now, (Release l s).2).

Lemma timed_steps_clock c c' : rtc timed_step c c' → c.1 ≤ c'.1.
Proof. induction 1 as [|c c1 c2 H _ IH]; [lia|]. destruct H; cbn in *; lia. Qed.

(** Consumed, or expired for good. *)
Definition spent (n : Nonce) (c : Z * locker) : Prop :=
  nonce_stored c.2 n = NonceUsed ∨ ∀ t, c.1 ≤ t → clock_ok t → IsExpiredAt n t = true.

Lemma spent_step n t0 c c' :
  IsExpiredAt n t0 = false → clock_ok t0 → t0 ≤ c.1 → timed_step c c' → spent n c → spent n c'.
Proof.
  intros Hlive H0 Ht Hstep [Hu|He].
  - destruct Hstep as [now now' s Hle|now s s' Hm|env m s|now l s|now l s]; cbn [fst snd] in *;
      [by left| | |left; by apply con_consume_keeps|left; by apply con_release_keeps].
    + destruct (con_maintain_keeps _ _ _ _ Hm Hu) as [?|He]; [by left|right].
      intros t Hlt Hok. by eapply expired_for_good.
    + destruct (con_lock_keeps env m s n Hu) as [?|He]; [by left|right].
      intros t Hlt Hok. by eapply expired_for_good.
  - right. intros t Hlt. apply He. pose proof (timed_steps_clock _ _ (rtc_once _ _ Hstep)). lia.
Qed.

Lemma spent_steps n t0 c c' :
  IsExpiredAt n t0 = false → clock_ok t0 → t0 ≤ c.1 → rtc timed_step c c' → spent n c → spent n c'.
Proof.
  intros Hlive H0 Ht Hrun. induction Hrun as [|c c1 c2 Hstep _ IH]; [done|]. intros Hs.
  apply IH; [|by eapply spent_step]. pose proof (timed_steps_clock _ _ (rtc_once _ _ Hstep)). lia.
Qed.

Lemma con_granted env n s l s' : CheckAndLockNonce env n s = (Ok l, s') →
  length (nonce_bytes n) = NonceLen ∧ IsExpiredAt n (env_now env) = false.
Proof.
  intros H. split.
  - destruct (decide (length (nonce_bytes n) = NonceLen)); [done|].
    destruct (con_bad_nonce env n s) as (e & s1 & Hc & _); [by left|congruence].
  - destruct (IsExpiredAt n (env_now env)) eqn:E; [|done].
    destruct (con_bad_nonce env n s) as (e & s1 & Hc & _); [by right|congruence].
Qed.
End contract.
#[global] Arguments timed_step : clear implicits.
#[global] Arguments timed_step {NL NLC}.

(** C38. A nonce is spent at most once, for every locker that meets the
    documented contract, also one that drops expired nonces and one where a lock
    may be released after it was consumed.  After a lock on a nonce was granted
    and consumed, whatever clients call and however the locker drops expired
    state while time passes, every later attempt to lock the nonce fails: with
    [ErrNonceConsumed], and with an [InputError] once the nonce has expired.  As
    long as it has not expired, no lock on it can be consumed again and
    releasing one leaves it consumed. *)
Theorem nonce_consumed_once {NL : NonceLocker} {NLC : NonceLockerContract NL} env n s0 l s1 t2 s2 s3 t4 s4 :
  clock_ok (env_now env) → CheckAndLockNonce env n s0 = (Ok l, s1) →
  rtc timed_step (env_now env, s1) (t2, s2) → Consume l s2 = (Ok tt, s3) →
  rtc timed_step (t2, s3) (t4, s4) →
  (∀ env', t4 ≤ env_now env' → clock_ok (env_now env') → ∃ e, (CheckAndLockNonce env' n s4).1 = Err e ∧
    if IsExpiredAt n (env_now env') then as_InputError e = true else errors_Is e ErrNonceConsumed = true) ∧
  (IsExpiredAt n t4 = false → clock_ok t4 → nonce_stored s4 n = NonceUsed ∧ ∀ l', lock_on l' n →
    (∃ e, (Consume l' s4).1 = Err e) ∧ nonce_stored (Release l' s4).2 n = NonceUsed).
Proof.
  intros Hok Hlock Hrun Hcons Hrun'. destruct (con_granted _ _ _ _ _ Hlock) as [Hlen Hlive].
  destruct (con_lock _ _ _ _ _ Hlock) as [Hl _]. destruct (con_consume _ _ _ _ Hl Hcons) as [_ Hu].
  pose proof (timed_steps_clock _ _ Hrun) as Ht. cbn [fst] in Ht.
  destruct (spent_steps n (env_now env) (t2, s3) (t4, s4) Hlive Hok Ht Hrun' ltac:(by left)) as [Hs|He]; cbn [fst snd] in *; split.
  - intros env' Hle Hok'. destruct (IsExpiredAt n (env_now env')) eqn:Ee.
    + destruct (con_bad_nonce env' n s4) as (e & s' & -> & ?); [by right|eauto].
    + destruct (con_consumed env' n s4) as (e & s' & -> & ?); eauto.
  - intros _ _. split; [done|]. intros l' Hl'. split; [|by apply con_release_keeps].
    destruct (Consume l' s4) as [[[]|e] s'] eqn:E; [|by eauto]. by destruct (con_consume _ _ _ _ Hl' E).
  - intros env' Hle Hok'. rewrite (He _ Hle Hok').
    destruct (con_bad_nonce env' n s4) as (e & s' & -> & ?); [right; by apply He|eauto].
  - intros Hlive' Hok'. rewrite He in Hlive' by (done || lia). done.
Qed.

Definition demo_nonce : Nonce := MkNonce 7200 (replicate 16 x11) false.
Definition demo_env : LockEnv := MkLockEnv (7300 * second) (Some (replicate 8 xff)).
Definition demo_lock : ticketLock := MkTicketLock demo_nonce "ffffffffffffffff".
Definition demo_locked : nonces_map := (CheckAndLockNonce demo_env demo_nonce NewNonceLocker).2.

Definition demo_spent : nonces_map := (Consume demo_lock demo_locked).2.

(** In memory; and in a locker that drops the nonce a year later. *)
Lemma nonce_consumed_once_witness :
  (∃ e, (CheckAndLockNonce demo_env demo_nonce demo_spent).1 = Err e ∧ errors_Is e ErrNonceConsumed = true) ∧
  let free : Nonce → nonce_state := λ _, NonceFree in let later := MkLockEnv (31536000 * second) None in
  ∃ e, (CheckAndLockNonce (NonceLocker:=dropping_locker) later demo_nonce free).1 = Err e ∧ as_InputError e = true.
Proof.
  assert (Consume demo_lock demo_locked = (Ok tt, demo_spent)) as H by (vm_compute; reflexivity).
  assert (CheckAndLockNonce demo_env demo_nonce NewNonceLocker = (Ok demo_lock, demo_locked)) as Hl by (vm_compute; reflexivity).
  assert (clock_ok (7300 * second)) as Hok by (vm_compute; split; congruence).
  split.
  - destruct (nonce_consumed_once (NL:=inmem_locker) demo_env demo_nonce NewNonceLocker demo_lock demo_locked (7300 * second)
      demo_locked demo_spent (7300 * second) demo_spent Hok Hl (rtc_refl _ _) H (rtc_refl _ _)) as [Hn _].
    exact (Hn demo_env (Z.le_refl _) Hok).
  - intros free later. set (held := set_nonce demo_nonce NonceHeld (drop_expired (7300 * second) free)).
    set (used := set_nonce demo_nonce NonceUsed held).
    assert (rtc (timed_step (NL:=dropping_locker)) (7300 * second, used) (31536000 * second, free)) as Hrun.
    { eapply rtc_l; [apply (tstep_time (NL:=dropping_locker) _ (31536000 * second)); vm_compute; congruence|].
      eapply rtc_once, (tstep_maintain (NL:=dropping_locker)). intros n. unfold used, held, set_nonce.
      case_decide as Hn; [right; subst n; vm_compute; reflexivity|left]. unfold drop_expired. by case_match. }
    assert (CheckAndLockNonce (NonceLocker:=dropping_locker) demo_env demo_nonce free = (Ok demo_nonce, held)) as Hl' by reflexivity.
    assert (Consume (NonceLocker:=dropping_locker) demo_nonce held = (Ok tt, used)) as Hc' by reflexivity.
    destruct (nonce_consumed_once (NL:=dropping_locker) demo_env demo_nonce free demo_nonce held (7300 * second)
      held used (31536000 * second) free Hok Hl' (rtc_refl _ _) Hc' Hrun) as [Hn _].
    apply (Hn later); [apply Z.le_refl|vm_compute; split; congruence].
Defined.

(** The in-memory locker does not check tickets: once a nonce is locked,
    consuming or releasing it succeeds with any ticket, so a client whose own
    lock was released long ago can spend or free a lock it does not hold. *)
Theorem tickets_not_checked n t s sn :
  length (nonce_bytes n) = NonceLen → s !! nonce_key n = Some sn → status sn = statusLocked →
  ConsumeNonce n t s = (Ok tt, <[nonce_key n := MkStored statusConsumed t]> s) ∧
  ReleaseNonce n t s = (Ok tt, delete (nonce_key n) s).
Proof.
  intros Hl%bad_length_false Hs Hsn. unfold ConsumeNonce, ReleaseNonce. by rewrite Hl, Hs, Hsn.
Qed.

Lemma tickets_not_checked_witness :
  ConsumeNonce demo_nonce "stale" demo_locked =
    (Ok tt, <[nonce_key demo_nonce := MkStored statusConsumed "stale"]> demo_locked) ∧
  ReleaseNonce demo_nonce "stale" demo_locked = (Ok tt, delete (nonce_key demo_nonce) demo_locked).
Proof.
  apply (tickets_not_checked demo_nonce "stale" demo_locked (MkStored statusLocked "ffffffffffffffff"));
    vm_compute; reflexivity.
Defined.
