(* ===== verification/LockHttp.v ===== *)
(** The nonce-locking service over HTTP: package [noncelocking/httpapi], the
    server's handlers around a ticket locker and the client, which is a ticket
    locker itself. *)

From S2P Require Import Prelude GoLib Http AnonErrors Nonce NonceLocking HttpRetry HttpApi.

(** ** Messages *)

Record PbLockRequest (T : TimestampLib) := MkLockRequest { lock_nonce : option PbNonce }.
Arguments MkLockRequest {T}.
Arguments lock_nonce {T}.
Record PbLockResponse := MkLockResponse { lock_ticket : option string }.
Record PbUnlockRequest (T : TimestampLib) := MkUnlockRequest { unlock_nonce : option PbNonce; unlock_ticket : option string }.
Arguments MkUnlockRequest {T}.
Arguments unlock_nonce {T}.
Arguments unlock_ticket {T}.

(** The routes, with what their handlers see of the outside world. *)
Inductive endpoint := lock (env : LockEnv) | consume | release.
Definition path (e : endpoint) : string :=
  match e with lock _ => "/lock" | consume => "/consume" | release => "/release" end.

Definition StatusConflict : Z := 409.
Definition StatusGone : Z := 410.

(** ** The server *)

Definition convertInputError (e : err) : target_error :=
  if as_InputError e then ErrorWithStatusCode StatusBadRequest "invalid input"
  else if errors_Is e ErrNonceLocked then ErrorWithStatusCode StatusConflict "nonce is locked"
  else if errors_Is e ErrNonceConsumed then ErrorWithStatusCode StatusGone "nonce is consumed"
  else PlainError.

Section server.
Context {T : TimestampLib} {TC : TicketLockerContract} {WE : ProtoWire PbError}
  {WL : ProtoWire (PbLockRequest T)} {WR : ProtoWire PbLockResponse} {WU : ProtoWire (PbUnlockRequest T)}.

Definition nonce_goerror (e : nonce_error) : goerror := ErrorNew "nonce".

Definition lockRequest_UnmarshalBinary (data : list byte) : result goerror Nonce :=
  req ← unmarshal_message (M:=PbLockRequest T) data;
  wrap_err nonce_goerror (UnmarshalProto zero_nonce (lock_nonce req)).
Definition lockResponse_MarshalBinary (ticket : string) : result goerror (list byte) :=
  marshal_message (MkLockResponse (Some ticket)).
Definition UnlockRequest_UnmarshalBinary (data : list byte) : result goerror (Nonce * string) :=
  req ← unmarshal_message (M:=PbUnlockRequest T) data;
  n ← wrap_err nonce_goerror (UnmarshalProto zero_nonce (unlock_nonce req));
  Ok (n, default "" (unlock_ticket req)).

Definition LockHandler (env : LockEnv) : Request → ResponseWriter → tickets → ResponseWriter * tickets :=
  BinaryHandler lockRequest_UnmarshalBinary lockResponse_MarshalBinary
    (λ nonce s, let '(r, s) := tc_LockNonce env nonce s in (wrap_err convertInputError r, s)).
Definition ConsumeHandler : Request → ResponseWriter → tickets → ResponseWriter * tickets :=
  BinaryHandlerInputOnly UnlockRequest_UnmarshalBinary
    (λ '(nonce, ticket) s, let '(r, s) := tc_ConsumeNonce nonce ticket s in (wrap_err convertInputError r, s)).
Definition ReleaseHandler : Request → ResponseWriter → tickets → ResponseWriter * tickets :=
  BinaryHandlerInputOnly UnlockRequest_UnmarshalBinary
    (λ '(nonce, ticket) s, let '(r, s) := tc_ReleaseNonce nonce ticket s in (wrap_err convertInputError r, s)).

Definition ServeHTTP (e : endpoint) : Request → ResponseWriter → tickets → ResponseWriter * tickets :=
  match e with lock env => LockHandler env | consume => ConsumeHandler | release => ReleaseHandler end.
End server.

(** ** The client *)

(** [HTTPClient.Do] for a request to an endpoint; [net] is the other end. *)
Class HTTPClient := {
  net : Type;
  http_Do : endpoint → Header → net → exchange (result transport_error Response * net);
}.

Section client.
Context {T : TimestampLib} {BL : BackoffLib} {HC : HTTPClient}
  {WL : ProtoWire (PbLockRequest T)} {WR : ProtoWire PbLockResponse} {WU : ProtoWire (PbUnlockRequest T)}.

Definition refusal (e : endpoint) (code : Z) : err :=
  if code =? StatusBadRequest then InputError (unexpected_status code (path e))
  else if code =? StatusGone then ErrNonceConsumed
  else if code =? StatusConflict then ErrNonceLocked
  else unexpected_status code (path e).

Definition doRequest {M A} {WM : ProtoWire M} (requestBackoff : BackOff) (e : endpoint) (reqPB : M)
    (outPB : result goerror (list byte) → result goerror A) (s : net) : option (result err A * net) :=
  post_message (http_Do e request_header) requestBackoff reqPB (refusal e) outPB s.

Definition Client_LockNonce (requestBackoff : BackOff) (env : LockEnv) (nonce : Nonce) (s : net) : option (result err string * net) :=
  prod_map (wrap_err (Wrapped "failed to send lock request")) id <$>
    doRequest requestBackoff (lock env) (MkLockRequest (Some (MarshalProto nonce)))
      (λ body, resp ← Decode (M:=PbLockResponse) body; Ok (default "" (lock_ticket resp))) s.
Definition Client_ConsumeNonce (requestBackoff : BackOff) (nonce : Nonce) (ticket : string) (s : net) : option (result err unit * net) :=
  prod_map (wrap_err (Wrapped "failed to send consume request")) id <$>
    doRequest requestBackoff consume (MkUnlockRequest (Some (MarshalProto nonce)) (Some ticket)) (λ _, Ok tt) s.
Definition Client_ReleaseNonce (requestBackoff : BackOff) (nonce : Nonce) (ticket : string) (s : net) : option (result err unit * net) :=
  prod_map (wrap_err (Wrapped "failed to send release request")) id <$>
    doRequest requestBackoff release (MkUnlockRequest (Some (MarshalProto nonce)) (Some ticket)) (λ _, Ok tt) s.
End client.

(** Client and server joined by a reliable network, and by one with faults. *)
Section networks.
Context {T : TimestampLib} {TC : TicketLockerContract} {WE : ProtoWire PbError}
  {WL : ProtoWire (PbLockRequest T)} {WR : ProtoWire PbLockResponse} {WU : ProtoWire (PbUnlockRequest T)}.

Definition reliable_client : HTTPClient := {|
  net := tickets;
  http_Do e header := reliable header (ServeHTTP e);
|}.
Definition lossy_client : HTTPClient := {|
  net := list fault * tickets;
  http_Do e header := lossy header (ServeHTTP e);
|}.
End networks.

(** ** Lemmas *)

(** The class of an error, as the server sorts it. *)
Inductive error_kind := KindInput | KindLocked | KindConsumed | KindOther.
Definition kind_of (e : err) : error_kind :=
  if as_InputError e then KindInput
  else if errors_Is e ErrNonceLocked then KindLocked
  else if errors_Is e ErrNonceConsumed then KindConsumed
  else KindOther.

(** The same result, or errors of the same class. *)
Definition same_answer {A} (r r' : result err A) : Prop :=
  match r, r' with
  | Ok a, Ok a' => a = a'
  | Err e, Err e' => kind_of e = kind_of e'
  | _, _ => False
  end.

Lemma kind_wrapped msg e : kind_of (Wrapped msg e) = kind_of e.
Proof. done. Qed.

Lemma binary_serves {WE : ProtoWire PbError} {In Out St} (unmarshal : list byte → result goerror In) (marshal : Out → result goerror (list byte))
    (target : In → St → result target_error Out * St) data in_ s out s' :
  unmarshal data = Ok in_ → target in_ s = (out, s') →
  ∃ resp body, serve_bytes request_header (BinaryHandler unmarshal marshal target) (Ok data) s = (resp, s') ∧
    resp_Close resp = None ∧ resp_Body resp = Ok body ∧
    match out with
    | Ok y => ∀ o, marshal y = Ok o → StatusCode resp = StatusOK ∧ body = o
    | Err PlainError => StatusCode resp = StatusInternalServerError
    | Err (ErrorWithStatusCode code msg) => is_Some (proto_marshal (MkPbError msg)) → StatusCode resp = code
    end.
Proof.
  intros Hu Ht. unfold serve_bytes, BinaryHandler. cbn [r_Header r_Body].
  assert (Get request_header "Content-Type" = "application/octet-stream") as -> by (vm_compute; reflexivity).
  rewrite bool_decide_eq_true_2, Hu, Ht by done. cbn [negb].
  destruct out as [y|[|code msg]].
  - destruct (marshal y) as [o|]; (eexists _, _; split; [reflexivity|]; split; [done|]; split; [reflexivity|]); [|done].
    intros o' [= <-]. done.
  - eexists _, _. split; [reflexivity|]; split; [done|]; split; [reflexivity|]. unfold BinaryServerError, BinaryError.
    by destruct (marshal_message _).
  - eexists _, _. split; [reflexivity|]; split; [done|]; split; [reflexivity|]. intros [o Ho]. unfold BinaryError, marshal_message. by rewrite Ho.
Qed.

Section theorems.
Context {T : TimestampLib} {TL : TimestampLaws T} {BL : BackoffLib} {BLL : BackoffLaws BL}
  {WE : ProtoWire PbError} {WL : ProtoWire (PbLockRequest T)} {WR : ProtoWire PbLockResponse} {WU : ProtoWire (PbUnlockRequest T)}
  {WLL : ProtoWireLaws (PbLockRequest T)} {WRL : ProtoWireLaws PbLockResponse} {WUL : ProtoWireLaws (PbUnlockRequest T)}
  {TC : TicketLockerContract}.

(** The status for a class of errors. *)
Definition code_of (k : error_kind) : Z :=
  match k with KindInput => StatusBadRequest | KindLocked => StatusConflict | KindConsumed => StatusGone | KindOther => StatusInternalServerError end.
Lemma refusal_kind e k : kind_of (refusal e (code_of k)) = k.
Proof. by destruct k. Qed.
Lemma retry_failure_kind e er : retry_failure (refusal e) (code_of KindOther) er → kind_of er = KindOther.
Proof. by intros [->|[->| ->]]. Qed.
Lemma code_of_retried k : 500 ≤ code_of k → k = KindOther.
Proof. destruct k; unfold code_of, StatusBadRequest, StatusConflict, StatusGone; [lia..|done]. Qed.

(** The messages the handlers answer with can be encoded. *)
Definition error_messages : list string :=
  ["invalid input"; "nonce is locked"; "nonce is consumed"; "invalid binary data"].
Context (Hmsg : ∀ msg, msg ∈ error_messages → is_Some (proto_marshal (MkPbError msg))).

Lemma convert_code er (code : Z) :
  match convertInputError er with
  | PlainError => code = StatusInternalServerError
  | ErrorWithStatusCode c msg => is_Some (proto_marshal (MkPbError msg)) → code = c
  end → code = code_of (kind_of er).
Proof.
  unfold convertInputError, kind_of. destruct (as_InputError er); [|destruct (errors_Is er ErrNonceLocked); [|destruct (errors_Is er ErrNonceConsumed)]];
    intros H; apply H || apply H, Hmsg; unfold error_messages; set_solver.
Qed.

(** A call over the wire whose request the server can read: the same answer as the
    target function, and its state. *)
Lemma lock_call_served {M In Out A} {WM : ProtoWire M} b e (m : M) unmarshal (marshal : Out → result goerror (list byte))
    target (call : In → tickets → result err Out * tickets) outPB (read : Out → A) reqBytes in_ s :
  ServeHTTP e = BinaryHandler unmarshal marshal target →
  target in_ s = (let '(r, s) := call in_ s in (wrap_err convertInputError r, s)) →
  marshal_message m = Ok reqBytes → unmarshal reqBytes = Ok in_ →
  (∀ y, (call in_ s).1 = Ok y → ∃ o, marshal y = Ok o ∧ outPB (Ok o) = Ok (read y)) →
  (∀ er, (call in_ s).1 = Err er → kind_of er = KindOther → (call in_ s).2 = s) →
  ∃ r, doRequest (HC:=reliable_client) b e m outPB s = Some (r, (call in_ s).2) ∧
    same_answer (y ← (call in_ s).1; Ok (read y)) r.
Proof.
  intros He Ht Hm Hu Hout Hsame. destruct (call in_ s) as [out s'] eqn:Hcall. cbn [fst snd] in *.
  destruct (binary_serves unmarshal marshal target reqBytes in_ s
    (wrap_err convertInputError out) s' Hu) as (resp & body & Hserve & Hcl & Hb & Hst); [exact Ht|]. rewrite <- He in Hserve.
  destruct out as [y|er]; cbn [mbind result_bind].
  - destruct (Hout y eq_refl) as (o & Ho & Hdec). destruct (Hst o Ho) as [Hs ->].
    destruct (post_served (ServeHTTP e) m (refusal e) outPB reqBytes Hm b s resp o s') as (r & Hr & Hok & _);
      [done|rewrite Hs; unfold StatusOK; lia|]. exists r. split; [exact Hr|]. rewrite Hok by (rewrite Hs; unfold StatusOK; lia).
    unfold read_response. by rewrite Hs, Hdec.
  - apply convert_code in Hst. destruct (post_served (ServeHTTP e) m (refusal e) outPB reqBytes Hm b s resp body s') as (r & Hr & Hlt & Hge);
      [done|intros Hcode; apply (Hsame er eq_refl), code_of_retried; by rewrite <- Hst|].
    exists r. split; [exact Hr|]. destruct (Z.ltb_spec (StatusCode resp) 500) as [Hl|Hl].
    + rewrite (Hlt Hl). unfold read_response. rewrite Hst. destruct (Z.eqb_spec (code_of (kind_of er)) StatusOK) as [E|_]; [by destruct (kind_of er)|].
      cbn. by rewrite refusal_kind.
    + destruct (Hge Hl) as (e' & -> & He'). rewrite Hst in Hl, He'. apply code_of_retried in Hl. rewrite Hl in He'.
      apply retry_failure_kind in He'. cbn. congruence.
Qed.

Lemma same_answer_wrapped {A} msg (r r' : result err A) : same_answer r r' → same_answer r (wrap_err (Wrapped msg) r').
Proof. by destruct r, r'. Qed.
Lemma same_answer_id {A} (r r' : result err A) : same_answer (y ← r; Ok y) r' → same_answer r r'.
Proof. by destruct r. Qed.

(** The nonce as the server gets it. *)
Definition wire_nonce (n : Nonce) : Nonce := MkNonce (Timestamp n) (nonce_bytes n) false.

(** A refused call changes nothing, and tickets and nonces can be encoded. *)
Context (Hlock_err : ∀ env n s e s', tc_LockNonce env n s = (Err e, s') → s' = s)
  (Hconsume_err : ∀ n t s e s', tc_ConsumeNonce n t s = (Err e, s') → s' = s)
  (Hrelease_err : ∀ n t s e s', tc_ReleaseNonce n t s = (Err e, s') → s' = s)
  (Hnonce : ∀ n, is_Some (proto_marshal (MkLockRequest (Some (MarshalProto n)))))
  (Hticket : ∀ env n s t s', tc_LockNonce env n s = (Ok t, s') → is_Some (proto_marshal (MkLockResponse (Some t)))).

Lemma lock_request_read n data : length (nonce_bytes n) = NonceLen →
  marshal_message (MkLockRequest (Some (MarshalProto n))) = Ok data → lockRequest_UnmarshalBinary data = Ok (wire_nonce n).
Proof.
  intros Hl Hm. unfold lockRequest_UnmarshalBinary. rewrite (unmarshal_marshalled _ _ Hm). cbn [mbind result_bind lock_nonce].
  by rewrite nonce_proto_roundtrip.
Qed.
Lemma unlock_request_read n t data : length (nonce_bytes n) = NonceLen →
  marshal_message (MkUnlockRequest (Some (MarshalProto n)) (Some t)) = Ok data → UnlockRequest_UnmarshalBinary data = Ok (wire_nonce n, t).
Proof.
  intros Hl Hm. unfold UnlockRequest_UnmarshalBinary. rewrite (unmarshal_marshalled _ _ Hm). cbn [mbind result_bind unlock_nonce unlock_ticket].
  by rewrite nonce_proto_roundtrip.
Qed.

Lemma lock_over_http b env n s : length (nonce_bytes n) = NonceLen →
  ∃ r, Client_LockNonce (HC:=reliable_client) b env n s = Some (r, (tc_LockNonce env (wire_nonce n) s).2) ∧
    same_answer (tc_LockNonce env (wire_nonce n) s).1 r.
Proof.
  intros Hl. destruct (marshals _ (Hnonce n)) as [data Hm].
  destruct (lock_call_served b (lock env) (MkLockRequest (Some (MarshalProto n))) lockRequest_UnmarshalBinary lockResponse_MarshalBinary
    (λ nonce s, let '(r, s) := tc_LockNonce env nonce s in (wrap_err convertInputError r, s)) (tc_LockNonce env)
    (λ body : result goerror (list byte), resp ← Decode (M:=PbLockResponse) body; Ok (default "" (lock_ticket resp))) (λ t : string, t) data (wire_nonce n) s)
    as (r & Hr & Ha); [done|done|exact Hm|by apply lock_request_read| | |].
  - intros t Ht. destruct (tc_LockNonce env (wire_nonce n) s) as [r s'] eqn:E. cbn in Ht. subst r.
    destruct (marshals _ (Hticket _ _ _ _ _ E)) as [o Ho]. exists o. split; [exact Ho|].
    unfold Decode. cbn [wrap_err mbind result_bind]. by rewrite (unmarshal_marshalled _ _ Ho).
  - intros er Her _. destruct (tc_LockNonce env (wire_nonce n) s) as [r s'] eqn:E. cbn in Her |- *. subst r. by eapply Hlock_err.
  - unfold Client_LockNonce. rewrite Hr. cbn. eexists. split; [reflexivity|]. apply same_answer_wrapped. by apply same_answer_id.
Qed.

(** Consuming and releasing are alike. *)
Lemma unlock_over_http b e n t s op :
  (e = consume ∧ op = tc_ConsumeNonce ∨ e = release ∧ op = tc_ReleaseNonce) →
  length (nonce_bytes n) = NonceLen → is_Some (proto_marshal (MkUnlockRequest (Some (MarshalProto n)) (Some t))) →
  ∃ r, doRequest (HC:=reliable_client) b e (MkUnlockRequest (Some (MarshalProto n)) (Some t)) (λ _, Ok tt) s = Some (r, (op (wire_nonce n) t s).2) ∧
    same_answer (op (wire_nonce n) t s).1 r.
Proof.
  intros Hop Hl Ht. destruct (marshals _ Ht) as [data Hm].
  destruct (lock_call_served b e (MkUnlockRequest (Some (MarshalProto n)) (Some t)) UnlockRequest_UnmarshalBinary (λ _ : unit, Ok [])
    (λ '(n, t) s, let '(r, s) := op n t s in (wrap_err convertInputError r, s)) (λ '(n, t), op n t)
    (λ _ : result goerror (list byte), Ok tt) (λ u : unit, u) data (wire_nonce n, t) s) as (r & Hr & Ha); [|done|exact Hm|by apply unlock_request_read| | |].
  - by destruct Hop as [[-> ->]|[-> ->]].
  - intros [] _. by exists [].
  - intros er Her _. destruct (op (wire_nonce n) t s) as [r s'] eqn:E. cbn in Her |- *. subst r.
    destruct Hop as [[-> ->]|[-> ->]]; eauto.
  - exists r. split; [exact Hr|]. by apply same_answer_id.
Qed.

(** ** Sequences of calls *)

Inductive ticket_call := TLock (env : LockEnv) (n : Nonce) | TConsume (n : Nonce) (t : string) | TRelease (n : Nonce) (t : string).
(** The answers of calls of either kind: locks return a ticket. *)
Definition ticket_answer : Type := result err string + result err unit.
Definition same_ticket_answer (a a' : ticket_answer) : Prop :=
  match a, a' with inl r, inl r' => same_answer r r' | inr r, inr r' => same_answer r r' | _, _ => False end.

Definition local_call (c : ticket_call) (s : tickets) : ticket_answer * tickets :=
  match c with
  | TLock env n => prod_map inl id (tc_LockNonce env (wire_nonce n) s)
  | TConsume n t => prod_map inr id (tc_ConsumeNonce (wire_nonce n) t s)
  | TRelease n t => prod_map inr id (tc_ReleaseNonce (wire_nonce n) t s)
  end.
Definition http_call (b : BackOff) (c : ticket_call) (s : tickets) : option (ticket_answer * tickets) :=
  match c with
  | TLock env n => prod_map inl id <$> Client_LockNonce (HC:=reliable_client) b env n s
  | TConsume n t => prod_map inr id <$> Client_ConsumeNonce (HC:=reliable_client) b n t s
  | TRelease n t => prod_map inr id <$> Client_ReleaseNonce (HC:=reliable_client) b n t s
  end.

Fixpoint local_calls (cs : list ticket_call) (s : tickets) : list ticket_answer * tickets :=
  match cs with
  | [] => ([], s)
  | c :: cs => let '(a, s) := local_call c s in let '(l, s) := local_calls cs s in (a :: l, s)
  end.
Fixpoint http_calls (b : BackOff) (cs : list ticket_call) (s : tickets) : option (list ticket_answer * tickets) :=
  match cs with
  | [] => Some ([], s)
  | c :: cs => '(a, s) ← http_call b c s; '(l, s) ← http_calls b cs s; Some (a :: l, s)
  end.

Definition call_ok (c : ticket_call) : Prop :=
  match c with
  | TLock _ n => length (nonce_bytes n) = NonceLen
  | TConsume n t | TRelease n t =>
      length (nonce_bytes n) = NonceLen ∧ is_Some (proto_marshal (MkUnlockRequest (Some (MarshalProto n)) (Some t)))
  end.

Lemma http_call_local b c s : call_ok c →
  ∃ a, http_call b c s = Some (a, (local_call c s).2) ∧ same_ticket_answer (local_call c s).1 a.
Proof.
  destruct c as [env n|n t|n t]; cbn [call_ok http_call local_call].
  - intros Hl. destruct (lock_over_http b env n s Hl) as (r & -> & Ha). eexists. by split.
  - intros [Hl Ht]. destruct (unlock_over_http b consume n t s tc_ConsumeNonce ltac:(by left) Hl Ht) as (r & Hr & Ha).
    unfold Client_ConsumeNonce. rewrite Hr. eexists. split; [reflexivity|]. by apply same_answer_wrapped.
  - intros [Hl Ht]. destruct (unlock_over_http b release n t s tc_ReleaseNonce ltac:(by right) Hl Ht) as (r & Hr & Ha).
    unfold Client_ReleaseNonce. rewrite Hr. eexists. split; [reflexivity|]. by apply same_answer_wrapped.
Qed.
End theorems.

(** A remote locker is the locker.  Over a network without faults, whatever
    ticket locker is behind the server, as long as its refusals change nothing and
    nonces, tickets and error messages can be encoded: any sequence of calls
    through the client, whatever its backoff, returns, leaves the locker where the
    same calls made directly leave it, and gives call for call the same tickets
    and errors of the same class. *)
Theorem http_locker_refines {T : TimestampLib} {TL : TimestampLaws T} {BL : BackoffLib} {BLL : BackoffLaws BL}
    {WE : ProtoWire PbError} {WL : ProtoWire (PbLockRequest T)} {WR : ProtoWire PbLockResponse} {WU : ProtoWire (PbUnlockRequest T)}
    {WLL : ProtoWireLaws (PbLockRequest T)} {WRL : ProtoWireLaws PbLockResponse} {WUL : ProtoWireLaws (PbUnlockRequest T)}
    {TC : TicketLockerContract} b cs s :
  (∀ msg, msg ∈ error_messages → is_Some (proto_marshal (MkPbError msg))) →
  (∀ env n s e s', tc_LockNonce env n s = (Err e, s') → s' = s) →
  (∀ n t s e s', tc_ConsumeNonce n t s = (Err e, s') → s' = s) →
  (∀ n t s e s', tc_ReleaseNonce n t s = (Err e, s') → s' = s) →
  (∀ n, is_Some (proto_marshal (MkLockRequest (Some (MarshalProto n))))) →
  (∀ env n s t s', tc_LockNonce env n s = (Ok t, s') → is_Some (proto_marshal (MkLockResponse (Some t)))) →
  Forall call_ok cs →
  ∃ answers, http_calls b cs s = Some (answers, (local_calls cs s).2) ∧ Forall2 same_ticket_answer (local_calls cs s).1 answers.
Proof.
  intros Hmsg Hl Hc Hr Hn Ht Hok. induction Hok as [|c cs Hcall _ IH] in s |- *; [by exists []|]. cbn [http_calls local_calls].
  destruct (http_call_local Hmsg Hl Hc Hr Hn Ht b c s Hcall) as (a & -> & Ha). destruct (local_call c s) as [a0 s1]. cbn [fst snd mbind option_bind] in *.
  destruct (IH s1) as (l & -> & Hfl). destruct (local_calls cs s1) as [l0 s2]. cbn in *. exists (a :: l). by split; [|constructor].
Qed.

(** A lost answer loses the lock.  When the locker grants a lock but its answer
    does not reach the client, which then tries again, the client is told that the
    nonce is locked; it is: the locker keeps the lock, and nobody knows its ticket. *)
Theorem lost_ticket {T : TimestampLib} {TL : TimestampLaws T} {BL : BackoffLib} {BLL : BackoffLaws BL}
    {WE : ProtoWire PbError} {WL : ProtoWire (PbLockRequest T)} {WR : ProtoWire PbLockResponse} {WU : ProtoWire (PbUnlockRequest T)}
    {WLL : ProtoWireLaws (PbLockRequest T)} b b' env n s te t s' :
  is_Some (proto_marshal (MkPbError "nonce is locked")) → is_Some (proto_marshal (MkLockRequest (Some (MarshalProto n)))) →
  LockNonce env (wire_nonce n) s = (Ok t, s') → retryable te = true → NextBackOff b = Again b' →
  ∃ e, Client_LockNonce (HC:=lossy_client) b env n ([LostResponse te], s) = Some (Err e, ([], s')) ∧
    kind_of e = KindLocked ∧ inmem_status s' (nonce_bytes n) = NonceHeld.
Proof.
  intros Hmsg Hreq Hlock Hte Hb. pose proof Hlock as Hlock0. unfold LockNonce in Hlock0.
  destruct (bad_length (wire_nonce n)) eqn:Hl; [done|]. destruct (IsExpiredAt (wire_nonce n) (env_now env)) eqn:He; [done|].
  destruct (s !! nonce_key (wire_nonce n)) as [sn|]; [by destruct (status sn)|]. destruct (env_ticket env) as [tb|]; [|done]. injection Hlock0 as Ht Hs'.
  assert (inmem_status s' (nonce_bytes n) = NonceHeld) as Hheld by (rewrite <- Hs'; apply inmem_status_insert).
  assert (LockNonce env (wire_nonce n) s' = (Err ErrNonceLocked, s')) as Hagain.
  { unfold LockNonce. rewrite Hl, He, <- Hs'. by rewrite lookup_insert_eq. }
  destruct (marshals _ Hreq) as [data Hm]. apply bad_length_false in Hl.
  destruct (binary_serves (St:=nonces_map) lockRequest_UnmarshalBinary lockResponse_MarshalBinary
    (λ nonce s, let '(r, s) := LockNonce env nonce s in (wrap_err convertInputError r, s)) data (wire_nonce n) s (Ok t) s'
    (lock_request_read n data Hl Hm)) as (resp1 & body1 & Hs1 & Hcl1 & Hb1 & _); [by rewrite Hlock|].
  destruct (binary_serves (St:=nonces_map) lockRequest_UnmarshalBinary lockResponse_MarshalBinary
    (λ nonce s, let '(r, s) := LockNonce env nonce s in (wrap_err convertInputError r, s)) data (wire_nonce n) s' (Err (convertInputError ErrNonceLocked)) s'
    (lock_request_read n data Hl Hm)) as (resp & body & Hs2 & Hcl2 & Hb2 & Hcode); [by rewrite Hagain|].
  cbn in Hcode. specialize (Hcode Hmsg). unfold Client_LockNonce, doRequest. cbn [http_Do lossy_client net].
  rewrite (post_lost (St:=nonces_map) (ServeHTTP (TC:=inmem_tickets) (lock env)) _ _ _ data Hm b b' te s resp1 body1 s' resp body s' Hte Hb);
    [|done|done|rewrite Hcode; unfold StatusConflict; lia].
  unfold read_response. rewrite Hcode. eexists. split; [reflexivity|]. by split.
Qed.

(** ** Examples, over the wire format of countable messages *)

Section demo.
#[local] Existing Instances unix_timestamp unix_timestamp_laws text_error_wire text_error_wire_laws counted_backoff counted_backoff_laws.

(** The fields of a nonce. *)
Definition nonce_fields (m : PbNonce (T:=unix_timestamp)) : option Z * option (list byte) := (pb_timestamp m, pb_nonce m).
Definition of_nonce_fields (x : option Z * option (list byte)) : PbNonce (T:=unix_timestamp) := MkPbNonce x.1 x.2.

#[local] Instance lock_request_wire : ProtoWire (PbLockRequest unix_timestamp) :=
  record_wire (λ m, nonce_fields <$> lock_nonce m) (λ x, MkLockRequest (of_nonce_fields <$> x)).
#[local] Instance lock_request_laws : ProtoWireLaws (PbLockRequest unix_timestamp).
Proof. apply record_wire_laws. by intros [[[]|]]. Qed.
#[local] Instance lock_response_wire : ProtoWire PbLockResponse := record_wire lock_ticket MkLockResponse.
#[local] Instance lock_response_laws : ProtoWireLaws PbLockResponse.
Proof. apply record_wire_laws. by intros []. Qed.
#[local] Instance unlock_request_wire : ProtoWire (PbUnlockRequest unix_timestamp) :=
  record_wire (λ m, (nonce_fields <$> unlock_nonce m, unlock_ticket m)) (λ x, MkUnlockRequest (of_nonce_fields <$> x.1) x.2).
#[local] Instance unlock_request_laws : ProtoWireLaws (PbUnlockRequest unix_timestamp).
Proof. apply record_wire_laws. by intros [[[]|]]. Qed.

Definition demo_calls : list ticket_call :=
  [TLock demo_env demo_nonce; TLock demo_env demo_nonce; TConsume demo_nonce "ffffffffffffffff"; TRelease demo_nonce "ffffffffffffffff"].

Lemma http_locker_refines_witness :
  ∃ answers, http_calls (tries 1) demo_calls NewNonceLocker = Some (answers, (local_calls demo_calls NewNonceLocker).2) ∧
    Forall2 same_ticket_answer (local_calls demo_calls NewNonceLocker).1 answers.
Proof.
  apply (http_locker_refines (WE:=text_error_wire) (TC:=inmem_tickets)).
  - intros msg _. by eexists.
  - intros env n s e s' H. cbn in H. exact (lock_err (NL:=inmem_locker) env n s e s' ltac:(cbn; unfold adapter_CheckAndLockNonce; cbn; by rewrite H)).
  - intros n t s e s'. exact (consume_err (NL:=inmem_locker) (MkTicketLock n t) s e s').
  - intros n t s e s'. exact (release_err (NL:=inmem_locker) (MkTicketLock n t) s e s').
  - intros n. by eexists.
  - intros env n s t s' _. by eexists.
  - repeat constructor; by eexists.
Defined.

Lemma lost_ticket_witness :
  ∃ e s', Client_LockNonce (HC:=lossy_client) (tries 1) demo_env demo_nonce ([LostResponse (MkTransportError (ErrNew "timeout") (Some (true, "timeout")))], NewNonceLocker)
      = Some (Err e, ([], s')) ∧
    kind_of e = KindLocked ∧ inmem_status s' (nonce_bytes demo_nonce) = NonceHeld.
Proof.
  destruct (lost_ticket (tries 1) (tries 0) demo_env demo_nonce NewNonceLocker
    (MkTransportError (ErrNew "timeout") (Some (true, "timeout"))) "ffffffffffffffff" demo_locked) as (e & H).
  - by eexists.
  - by eexists.
  - vm_compute. reflexivity.
  - reflexivity.
  - reflexivity.
  - exists e, demo_locked. exact H.
Defined.
End demo.
