(* ===== verification/Processor.v ===== *)
(** Package [anonpay] ([processor.go], [exchanger.go]): transactions over a
    locked credit nonce and the exchange of credits, for any nonce locker that
    keeps the state of its nonces
    ([NonceLockerSpec]). *)

From S2P Require Import Prelude GoLib AnonErrors Credit BlindSigning NonceLocking.
From S2P Require Currency Nonce.

Section processor.
Context {B : BlindRSA} {NL : NonceLocker}.

(** A context is live or cancelled, with the error [ctx.Err()] reports and the
    cause [context.Cause] reports. *)
Inductive ctx_state := CtxLive | CtxCancelled (ctx_err cause : err).

(** The [CancelCauseFunc] of the context: later calls have no effect. *)
Definition cancelFunc (cause : err) (c : ctx_state) : ctx_state :=
  match c with CtxLive => CtxCancelled ContextCanceled cause | _ => c end.

Record Transaction := MkTransaction {
  tx_ctx : ctx_state;
  tx_lockedNonce : LockedNonce;
  tx_credit : BlindedCredit;
}.

Definition BeginTransaction (env : LockEnv) (cred : BlindedCredit) (s : locker) :
    result err Transaction * locker :=
  match Issuer_VerifyCredit (Blinded cred) with
  | Err e => (Err (InputError (Wrapped "failed to verify credit" e)), s)
  | Ok _ =>
      let '(r, s) := CheckAndLockNonce env (b_nonce cred) s in
      (lockedNonce ← wrap_err (Wrapped "failed to lock nonce") r;
       Ok (MkTransaction CtxLive lockedNonce cred), s)
  end.

(** A call of [Commit]: the error it returns, the transaction after it and the
    locker after it.  The deferred function cancels the context with the
    outcome. *)
Definition Commit (tx : Transaction) (s : locker) : result err unit * Transaction * locker :=
  match tx_ctx tx with
  | CtxCancelled e _ => (Err e, tx, s)
  | CtxLive =>
      let '(r, s) := Consume (tx_lockedNonce tx) s in
      match r with
      | Ok _ =>
          (Ok tt, MkTransaction (cancelFunc ErrFinished (tx_ctx tx)) (tx_lockedNonce tx) (tx_credit tx), s)
      | Err e =>
          let '(r2, s) := Release (tx_lockedNonce tx) s in
          let joined := match r2 with Err e2 => Joined e e2 | Ok _ => e end in
          (Err (Wrapped "failed to consume locked nonce" joined),
           MkTransaction (cancelFunc joined (tx_ctx tx)) (tx_lockedNonce tx) (tx_credit tx), s)
      end
  end.

Definition CommitWithUnspend (d : Draw) (now : Z) (unspend : Currency.Value)
    (tx : Transaction) (s : locker) : result err UnblindedCredit * Transaction * locker :=
  let '(r, tx, s) := Commit tx s in
  (_ ← r; wrap_err (Wrapped "failed to create refund credit") (IssueUnblindedCredit d now unspend), tx, s).

Definition Rollback (tx : Transaction) (s : locker) : result err unit * locker :=
  match tx_ctx tx with
  | CtxCancelled e cause => (if errors_Is cause ErrFinished then Ok tt else Err e, s)
  | CtxLive =>
      let '(r, s) := Release (tx_lockedNonce tx) s in
      (wrap_err (Wrapped "failed to release locked nonce") r, s)
  end.

Definition Exchange (env : LockEnv) (credit : AnyCredit) (req : BlindSignRequest) (s : locker) :
    result err (list byte) * locker :=
  if negb (bool_decide (credit_Value credit = req_Value req)) then
    (Err (InputError (ErrNew "non-matching value")), s)
  else
    match Issuer_VerifyCredit credit with
    | Err e => (Err (InputError (Wrapped "failed to validate credit signature" e)), s)
    | Ok _ =>
        let '(r, s) := CheckAndLockNonce env (credit_Nonce credit) s in
        match r with
        | Err e => (Err (Wrapped "failed to lock credit nonce" e), s)
        | Ok nonceLock =>
            match Issuer_BlindSign req with
            | Err e =>
                let '(r2, s) := Release nonceLock s in
                let joined := match r2 with Err e2 => Joined e e2 | Ok _ => e end in
                (Err (Wrapped "failed to sign request" joined), s)
            | Ok signature =>
                let '(r2, s) := Consume nonceLock s in
                (_ ← wrap_err (Wrapped "failed to consume nonce") r2; Ok signature, s)
            end
        end
    end.

(** *** Lemmas *)

Context {NLS : NonceLockerSpec NL}.

Lemma BeginTransaction_ok env cred s tx s' :
  BeginTransaction env cred s = (Ok tx, s') →
  Issuer_VerifyCredit (Blinded cred) = Ok tt ∧ tx_ctx tx = CtxLive ∧ tx_credit tx = cred ∧
  CheckAndLockNonce env (b_nonce cred) s = (Ok (tx_lockedNonce tx), s').
Proof.
  unfold BeginTransaction. destruct (Issuer_VerifyCredit _) as [[]|]; [|done].
  destruct (CheckAndLockNonce _ _ _) as [[l|e] s1]; simpl; intros; by simplify_eq/=.
Qed.

Lemma BeginTransaction_err env cred s e s' : BeginTransaction env cred s = (Err e, s') → s' = s.
Proof.
  unfold BeginTransaction. destruct (Issuer_VerifyCredit _) as [[]|]; [|naive_solver].
  destruct (CheckAndLockNonce _ _ _) as [[l|e'] s1] eqn:E; simpl; intros; simplify_eq/=.
  by apply lock_err in E.
Qed.

Lemma Commit_ok tx s tx' s' :
  Commit tx s = (Ok tt, tx', s') →
  tx_ctx tx = CtxLive ∧ Consume (tx_lockedNonce tx) s = (Ok tt, s') ∧
  tx' = MkTransaction (CtxCancelled ContextCanceled ErrFinished) (tx_lockedNonce tx) (tx_credit tx).
Proof.
  unfold Commit. destruct (tx_ctx tx); [|done].
  destruct (Consume _ _) as [[[]|e] s1]; [by intros; simplify_eq|].
  by destruct (Release _ _).
Qed.

Lemma Exchange_ok env credit req s sig s' :
  Exchange env credit req s = (Ok sig, s') →
  credit_Value credit = req_Value req ∧ Issuer_VerifyCredit credit = Ok tt ∧
  Issuer_BlindSign req = Ok sig ∧
  ∃ l s1, CheckAndLockNonce env (credit_Nonce credit) s = (Ok l, s1) ∧ Consume l s1 = (Ok tt, s').
Proof.
  unfold Exchange. case_bool_decide as Hv; simpl; [|done].
  destruct (Issuer_VerifyCredit _) as [[]|]; [|done].
  destruct (CheckAndLockNonce _ _ _) as [[l|e] s1]; [|done].
  destruct (Issuer_BlindSign req) as [sg|]; [|by destruct (Release _ _)].
  destruct (Consume l s1) as [[[]|e] s2] eqn:E; simpl; intros; simplify_eq/=. eauto 10.
Qed.

(** A spent nonce stops the exchange before anything changes. *)
Lemma Exchange_spent env credit req s :
  nonce_status s (Nonce.nonce_bytes (credit_Nonce credit)) = NonceUsed →
  ∃ e, Exchange env credit req s = (Err e, s).
Proof.
  intros Hu. unfold Exchange. case_bool_decide; simpl; [|by eauto].
  destruct (Issuer_VerifyCredit _); [|by eauto].
  destruct (CheckAndLockNonce env (credit_Nonce credit) s) as [[l|e] s'] eqn:E.
  - apply lock_ok in E as (_ & _ & _ & ? & _). congruence.
  - apply lock_err in E as ->. eauto.
Qed.

Lemma Exchange_err env credit req s e s' :
  Exchange env credit req s = (Err e, s') →
  nonce_status s' (Nonce.nonce_bytes (credit_Nonce credit)) = NonceUsed →
  nonce_status s (Nonce.nonce_bytes (credit_Nonce credit)) = NonceUsed.
Proof.
  unfold Exchange. case_bool_decide; simpl; [|naive_solver].
  destruct (Issuer_VerifyCredit _); [|naive_solver].
  destruct (CheckAndLockNonce _ _ _) as [[l|e1] s1] eqn:El; [|apply lock_err in El; naive_solver].
  apply lock_ok in El as (_ & _ & Hln & _ & Hh).
  destruct (Issuer_BlindSign req).
  - destruct (Consume l s1) as [[[]|e2] s2] eqn:Ec; simpl; intros; simplify_eq.
    apply consume_err in Ec. congruence.
  - destruct (Release l s1) as [[[]|e2] s2] eqn:Er; intros; simplify_eq.
    + apply release_ok in Er. rewrite Hln, Hh in Er. congruence.
    + apply release_err in Er. congruence.
Qed.
(** A failing commit or a rollback spends nothing. *)
Lemma Commit_used tx s r tx' s' :
  Commit tx s = (Err r, tx', s') → ∀ n, nonce_status s' n = NonceUsed → nonce_status s n = NonceUsed.
Proof.
  unfold Commit. destruct (tx_ctx tx); [|naive_solver].
  destruct (Consume _ s) as [[[]|e] s1] eqn:Ec; [done|]. apply consume_err in Ec as ->.
  destruct (Release _ s) as [[[]|e2] s2] eqn:Er; intros; simplify_eq.
  - destruct (decide (n = locked_nonce (tx_lockedNonce tx))) as [->|Hn].
    + apply release_ok in Er. destruct (nonce_status s _); congruence.
    + pose proof (release_other (tx_lockedNonce tx) s n Hn) as Ho. rewrite Er in Ho. simpl in Ho. congruence.
  - by apply release_err in Er as ->.
Qed.

Lemma Rollback_used tx s r s' :
  Rollback tx s = (r, s') → ∀ n, nonce_status s' n = NonceUsed → nonce_status s n = NonceUsed.
Proof.
  unfold Rollback. destruct (tx_ctx tx); [|naive_solver].
  destruct (Release _ s) as [[[]|e2] s2] eqn:Er; intros; simplify_eq.
  - destruct (decide (n = locked_nonce (tx_lockedNonce tx))) as [->|Hn].
    + apply release_ok in Er. destruct (nonce_status s _); congruence.
    + pose proof (release_other (tx_lockedNonce tx) s n Hn) as Ho. rewrite Er in Ho. simpl in Ho. congruence.
  - by apply release_err in Er as ->.
Qed.

End processor.

(** A transaction ends once.  After a successful [Commit] the nonce is spent
    and the credit was a valid one; committing again reports the cancelled
    context and a deferred [Rollback] reports success, neither touching the
    locker; and no later transaction on the same nonce can begin, whatever the
    other clients of the locker do in between. *)
Theorem commit_final {B : BlindRSA} {NL : NonceLocker} {NLS : NonceLockerSpec NL}
    env cred s tx s1 s2 tx' s3 s4 :
  BeginTransaction env cred s = (Ok tx, s1) → rtc locker_step s1 s2 →
  Commit tx s2 = (Ok tt, tx', s3) → rtc locker_step s3 s4 →
  Issuer_VerifyCredit (Blinded cred) = Ok tt ∧
  Commit tx' s4 = (Err ContextCanceled, tx', s4) ∧ Rollback tx' s4 = (Ok tt, s4) ∧
  ∀ env' cred', Nonce.nonce_bytes (b_nonce cred') = Nonce.nonce_bytes (b_nonce cred) →
    ∃ e, BeginTransaction env' cred' s4 = (Err e, s4).
Proof.
  intros (Hv & _ & _ & Hlock)%BeginTransaction_ok _ (_ & Hc & ->)%Commit_ok Hsteps.
  apply lock_ok in Hlock as (_ & _ & Hl & _).
  split; [done|]. split; [done|]. split; [done|]. intros env' cred' Hn.
  destruct (BeginTransaction env' cred' s4) as [[tx2|e] s5] eqn:E.
  - apply BeginTransaction_ok in E as (_ & _ & _ & E). exfalso.
    destruct (nonce_consumed_once_steps _ _ _ _ Hc Hsteps env' (b_nonce cred')) as [e He]; [congruence|].
    by rewrite E in He.
  - exists e. by apply BeginTransaction_err in E as ->.
Qed.

(** A client of the in-memory locker with the toy signature scheme. *)
Definition demo_credit : BlindedCredit :=
  MkBlinded (Currency.MkValue false 50) (Nonce.MkNonce 7200 (replicate 16 x2a) false)
    ([x00; x00; x00; x00; x00; x00; x1c; x20] ++ replicate 16 x2a ++ [x00; x32]).
Definition demo_env' : LockEnv := MkLockEnv (7300 * second) (Some [xff]).
Definition demo_tx : Transaction (NL:=inmem_locker) :=
  MkTransaction (NL:=inmem_locker) CtxLive (MkTicketLock (b_nonce demo_credit) "ff") demo_credit.
Definition demo_s1 : nonces_map := {[ nonce_key (b_nonce demo_credit) := MkStored statusLocked "ff" ]}.
Definition demo_s2 : nonces_map := {[ nonce_key (b_nonce demo_credit) := MkStored statusConsumed "ff" ]}.
Definition demo_done : Transaction (NL:=inmem_locker) :=
  MkTransaction (NL:=inmem_locker) (CtxCancelled ContextCanceled ErrFinished)
    (MkTicketLock (b_nonce demo_credit) "ff") demo_credit.

Lemma commit_final_witness :
  BeginTransaction (B:=toy_rsa) (NL:=inmem_locker) demo_env' demo_credit NewNonceLocker = (Ok demo_tx, demo_s1) ∧
  Commit (NL:=inmem_locker) demo_tx demo_s1 = (Ok tt, demo_done, demo_s2) ∧
  Rollback (NL:=inmem_locker) demo_done demo_s2 = (Ok tt, demo_s2) ∧
  ∃ e, BeginTransaction (B:=toy_rsa) (NL:=inmem_locker) demo_env' demo_credit demo_s2 = (Err e, demo_s2).
Proof.
  assert (BeginTransaction (B:=toy_rsa) (NL:=inmem_locker) demo_env' demo_credit NewNonceLocker
    = (Ok demo_tx, demo_s1)) as H1 by (vm_cast_no_check (eq_refl (A:=result err (Transaction (NL:=inmem_locker)) * nonces_map) (Ok demo_tx, demo_s1))).
  assert (Commit (NL:=inmem_locker) demo_tx demo_s1 = (Ok tt, demo_done, demo_s2)) as H2
    by (vm_cast_no_check (eq_refl (A:=result err unit * Transaction (NL:=inmem_locker) * nonces_map) (Ok tt, demo_done, demo_s2))).
  pose proof (@commit_final toy_rsa inmem_locker inmem_locker_spec demo_env' demo_credit NewNonceLocker
    demo_tx demo_s1 demo_s1 demo_done demo_s2 demo_s2 H1 (rtc_refl _ _) H2 (rtc_refl _ _)) as (_ & _ & H3 & H4).
  split; [exact H1|]. split; [exact H2|]. split; [exact H3|]. apply H4. reflexivity.
Defined.

(** C3. Exchanging a credit is all or nothing and happens once.  On success the
    request asked for exactly the credit's value, the credit verified and the
    signature is the issuer's for that request; the credit's nonce went from
    free to spent, so that presenting the credit again, after any calls of other
    clients, is refused without touching the locker.  A failed exchange never
    spends the nonce. *)
Theorem Exchange_once {B : BlindRSA} {NL : NonceLocker} {NLS : NonceLockerSpec NL} env credit req s r s1 :
  Exchange env credit req s = (r, s1) →
  match r with
  | Ok sig =>
      credit_Value credit = req_Value req ∧ Issuer_VerifyCredit credit = Ok tt ∧
      Issuer_BlindSign req = Ok sig ∧
      nonce_status s (Nonce.nonce_bytes (credit_Nonce credit)) = NonceFree ∧
      nonce_status s1 (Nonce.nonce_bytes (credit_Nonce credit)) = NonceUsed ∧
      ∀ s2 env' req', rtc locker_step s1 s2 →
        ∃ e, Exchange env' credit req' s2 = (Err e, s2)
  | Err _ =>
      nonce_status s1 (Nonce.nonce_bytes (credit_Nonce credit)) = NonceUsed →
      nonce_status s (Nonce.nonce_bytes (credit_Nonce credit)) = NonceUsed
  end.
Proof.
  intros H. destruct r as [sig|e].
  - apply Exchange_ok in H as (Hv & Hc & Hs & l & sl & Hl & Hu).
    pose proof (lock_ok _ _ _ _ _ Hl) as (_ & _ & Hln & Hf & _).
    pose proof (consume_ok _ _ _ Hu) as [_ Hu'].
    rewrite Hln in Hu'. split_and!; try done. intros s2 env' req' Hsteps.
    apply Exchange_spent. by eapply used_steps.
  - exact (Exchange_err _ _ _ _ _ _ H).
Qed.

Definition demo_request : BlindSignRequest := MkBlindSignRequest (Currency.MkValue false 50) [x07].

Lemma Exchange_once_witness :
  Exchange (B:=toy_rsa) (NL:=inmem_locker) demo_env' (Blinded demo_credit) demo_request NewNonceLocker
    = (Ok [x07; x00; x32], demo_s2) ∧
  ∃ e, Exchange (B:=toy_rsa) (NL:=inmem_locker) demo_env' (Blinded demo_credit) demo_request demo_s2
    = (Err e, demo_s2).
Proof.
  assert (Exchange (B:=toy_rsa) (NL:=inmem_locker) demo_env' (Blinded demo_credit) demo_request NewNonceLocker
    = (Ok [x07; x00; x32], demo_s2)) as H by (vm_cast_no_check (eq_refl (A:=result err (list byte) * nonces_map)
      (Ok [x07; x00; x32], demo_s2))).
  split; [exact H|].
  apply (Exchange_once (B:=toy_rsa) (NL:=inmem_locker)) in H as (_ & _ & _ & _ & _ & H).
  apply H. apply rtc_refl.
Defined.
