(* ===== verification/Bank.v ===== *)
(** Package [banking] ([account_token.go]), [internal/secrets] and the in-memory
    blind bank ([banking/inmem/bank.go]): accounts and their mutations, batch
    withdrawals, full withdrawals, deposits and exchanges. *)

From S2P Require Import Prelude Bytes Float64 GoLib AnonErrors Credit BlindSigning NonceLocking Processor.
From S2P Require Currency Nonce.

(** ** Account tokens *)

(** [secrets.String]: the bytes of the secret. *)
Abbreviation secret := (list byte).

Definition AccountTokenLength : nat := 32.
Record AccountToken := MkAccountToken { token_secret : secret }.

Definition AccountTokenFromSecretBytes (b : list byte) : result err AccountToken :=
  if (length b =? AccountTokenLength)%nat then Ok (MkAccountToken b)
  else Err (ErrNew "invalid account token length").

(** [fill] is what [io.ReadFull] read, [None] when it failed. *)
Definition GenerateAccountTokenFrom (fill : option (list byte)) : result err AccountToken :=
  match fill with
  | Some secretB => Ok (MkAccountToken secretB)
  | None => Err (Wrapped "failed to read random bytes" (ErrNew "EOF"))
  end.

Definition SecretBytes (t : AccountToken) : list byte := token_secret t.

(** ** The bank *)

Definition maxReqs : nat := 15.

Record storedAccount := MkStoredAccount { balance : Z; mutations : list Z }.
Definition zero_account : storedAccount := MkStoredAccount 0 [].

(** The SHA-512 digest of the empty message, the state [keyHash] is always in. *)
Definition keyHash_digest : list byte :=
  be_bytes 64 0xcf83e1357eefb8bdf1542850d66d8007d620e4050b5715dc83f4a921d36ce9ce47d0d13c5d85f2b0ff8318d2877eec2f63b931bd47417a81a538327af927da3e.

(** [hash.Sum(b)] appends the digest of what was written so far to [b]. *)
Definition keyForAccount (account : AccountToken) : string :=
  hex_encode (SecretBytes account ++ keyHash_digest).

(** Distinct tokens have distinct keys. *)
Lemma keyForAccount_inj t u : keyForAccount t = keyForAccount u → t = u.
Proof.
  unfold keyForAccount, SecretBytes. intros H%(inj hex_encode)%app_inv_tail.
  destruct t, u. simpl in H. by subst.
Qed.

Record Bank := MkBank {
  accounts : gmap string storedAccount;
  roundingMutations : list Z;
}.
Definition NewBank : Bank := MkBank ∅ [].

Definition put (key : string) (stored : storedAccount) (b : Bank) : Bank :=
  MkBank (<[key := stored]> (accounts b)) (roundingMutations b).

Definition stored_or_zero (b : Bank) (key : string) : storedAccount :=
  default zero_account (accounts b !! key).

Section bank.
Context {B : BlindRSA} {NL : NonceLocker}.

(** The validation loop: the batch must be free of duplicates and of special
    and zero amounts; the sum of the amounts. *)
Fixpoint validate_requests (seen : gset (list byte)) (sum : Z) (reqs : list BlindSignRequest) :
    result err Z :=
  match reqs with
  | [] => Ok sum
  | req :: reqs =>
      if decide (req_BlindedMessage req ∈ seen) then
        Err (InputError (ErrNew "duplicate blind sign request"))
      else
        match Currency.Amount (req_Value req) with
        | Err e => Err (InputError (Wrapped "can't withdraw special credit" (CurrencyError e)))
        | Ok amount =>
            if amount <=? 0 then Err (InputError (ErrNew "can't withdraw zero amount"))
            else validate_requests ({[ req_BlindedMessage req ]} ∪ seen) (sum + amount)%i64 reqs
        end
  end.

Fixpoint sign_requests (reqs : list BlindSignRequest) : result err (list (list byte)) :=
  match reqs with
  | [] => Ok []
  | req :: reqs =>
      sig ← wrap_err (Wrapped "failed to blind sign request") (Issuer_BlindSign req);
      sigs ← sign_requests reqs;
      Ok (sig :: sigs)
  end.

Definition WithdrawBatch (account : AccountToken) (reqs : list BlindSignRequest) (b : Bank) :
    result err (Z * list (list byte)) * Bank :=
  if (length reqs =? 0)%nat then (Err (InputError (ErrNew "can't withdraw zero credits")), b)
  else if (maxReqs <? length reqs)%nat then
    (Err (InputError (ErrNew "can't withdraw more than 15 credits")), b)
  else
    match validate_requests ∅ 0 reqs with
    | Err e => (Err e, b)
    | Ok sum =>
        match sign_requests reqs with
        | Err e => (Err e, b)
        | Ok blindSignatures =>
            let key := keyForAccount account in
            match accounts b !! key with
            | None => (Err (InsufficientBalanceError 0), b)
            | Some stored =>
                if balance stored <? sum then (Err (InsufficientBalanceError (balance stored)), b)
                else
                  let stored := MkStoredAccount (balance stored - sum)%i64
                                  (mutations stored ++ [(-1 * sum)%i64]) in
                  (Ok (balance stored, blindSignatures), put key stored b)
            end
        end
    end.

(** The rounding function [NewBank] installs: a random factor ([i] is the
    number drawn from the random source) and a stochastic rounding. *)
Definition default_roundFunc (undef : float64 → Z) (i : option Z) (signedAmount : float64) :
    result err Currency.Value :=
  roundingFactor ← wrap_err (Wrapped "failed to get rounding factor") (nonce_err (Nonce.RandFloat64 i));
  wrap_err (Wrapped "failed to round currency")
    (currency_err (Currency.Rounded undef signedAmount roundingFactor)).

Definition WithdrawFullUnblinded (roundFunc : float64 → result err Currency.Value)
    (d : Draw) (now : Z) (account : AccountToken) (b : Bank) : result err UnblindedCredit * Bank :=
  let key := keyForAccount account in
  match accounts b !! key with
  | None => (Err (ErrNew "account does not exist"), b)
  | Some stored =>
      if balance stored <=? 0 then (Err (ErrNew "account does not exist"), b)
      else if Currency.MaxAmount <? balance stored then
        (Err (ErrNew "can't withdraw balance over max currency amount"), b)
      else
        match roundFunc (f64_of_Z (balance stored)) with
        | Err e => (Err e, b)
        | Ok creditAmount =>
            match IssueUnblindedCredit d now creditAmount with
            | Err e => (Err (Wrapped "could not create credit" e), b)
            | Ok credit =>
                let roundingMutation := (balance stored - Currency.AmountOrZero creditAmount)%i64 in
                let stored := MkStoredAccount 0
                  (mutations stored ++ [(-1 * Currency.AmountOrZero creditAmount)%i64]) in
                (Ok credit, MkBank (<[key := stored]> (accounts b)) (roundingMutations b ++ [roundingMutation]))
            end
        end
  end.

(** The deferred function joins the error of [Rollback]. *)
Definition deferred_rollback (tx : Transaction) (r : result err Z) (s : locker) : result err Z * locker :=
  let '(r2, s) := Rollback tx s in
  (match errors_Join (match r with Err e => Some e | Ok _ => None end)
                     (match r2 with Err e => Some e | Ok _ => None end) with
   | Some e => Err e
   | None => r
   end, s).

Definition Deposit (env : LockEnv) (account : AccountToken) (credit : BlindedCredit)
    (b : Bank) (s : locker) : result err Z * Bank * locker :=
  match Currency.Amount (b_value credit) with
  | Err e => (Err (InputError (Wrapped "can't deposit special credit" (CurrencyError e))), b, s)
  | Ok amount =>
      if amount <=? 0 then (Err (InputError (ErrNew "can't deposit zero amount")), b, s)
      else
        let '(r, s) := BeginTransaction env credit s in
        match r with
        | Err e => (Err (Wrapped "failed to begin transaction" e), b, s)
        | Ok tx =>
            let '(r, tx, s) := Commit tx s in
            match r with
            | Err e => let '(r, s) := deferred_rollback tx (Err e) s in (r, b, s)
            | Ok _ =>
                let key := keyForAccount account in
                let stored := stored_or_zero b key in
                let stored := MkStoredAccount (balance stored + amount)%i64
                  (mutations stored ++ [Currency.AmountOrZero (b_value credit)]) in
                let '(r, s) := deferred_rollback tx (Ok (balance stored)) s in
                (r, put key stored b, s)
            end
        end
  end.

Definition Bank_Exchange (env : LockEnv) (credit : AnyCredit) (request : BlindSignRequest)
    (s : locker) : result err (list byte) * locker :=
  match Currency.Amount (req_Value request) with
  | Err e => (Err (InputError (Wrapped "can't exchange special credit" (CurrencyError e))), s)
  | Ok amount =>
      if amount <=? 0 then (Err (InputError (ErrNew "can't exchange credit with zero amount")), s)
      else Exchange env credit request s
  end.
End bank.

Definition Balance (account : AccountToken) (b : Bank) : Z :=
  balance (stored_or_zero b (keyForAccount account)).
Definition AccountHistory (account : AccountToken) (b : Bank) : list Z :=
  mutations (stored_or_zero b (keyForAccount account)).
(** The range over the map visits the accounts in some order; the sum wraps. *)
Definition TotalBalance (b : Bank) : Z :=
  map_fold (λ _ acc sum, (sum + balance acc)%i64) 0 (accounts b).
Definition RoundingMutations (b : Bank) : list Z := roundingMutations b.

(** ** Batches *)

(** The requests of a batch that can be withdrawn, with their amounts. *)
Definition batch_amounts (reqs : list BlindSignRequest) (amounts : list Z) : Prop :=
  NoDup (req_BlindedMessage <$> reqs) ∧
  Forall2 (λ req a, Currency.Amount (req_Value req) = Ok a ∧ 0 < a) reqs amounts.

Definition requests_wf (reqs : list BlindSignRequest) : Prop :=
  Forall (λ req, Currency.value_wf (req_Value req)) reqs.

Lemma amount_range v a : Currency.value_wf v → Currency.Amount v = Ok a → 0 ≤ a ≤ Currency.MaxAmount.
Proof.
  intros Hwf HA. assert (Currency.shift v = false) as Hs.
  { unfold Currency.Amount in HA. by destruct (Currency.shift v). }
  destruct (Currency.Exact_of_Amount v Hwf Hs) as (z & HA' & _ & ?). rewrite HA in HA'. injection HA' as ->. lia.
Qed.

Lemma AmountOrZero_range v : Currency.value_wf v → 0 ≤ Currency.AmountOrZero v ≤ Currency.MaxAmount.
Proof.
  intros Hwf. unfold Currency.AmountOrZero. destruct (Currency.Amount v) eqn:E; [by eapply amount_range|].
  by rewrite Currency.MaxAmount_eq.
Qed.

Lemma batch_sum_range reqs amounts :
  requests_wf reqs → Forall2 (λ req a, Currency.Amount (req_Value req) = Ok a ∧ 0 < a) reqs amounts →
  0 ≤ sum_Z amounts ≤ Z.of_nat (length reqs) * Currency.MaxAmount.
Proof.
  intros Hwf H. induction H as [|req a reqs amounts [Ha Hpos] H IH]; simpl; [lia|].
  apply Forall_cons in Hwf as [Hr Hwf]. pose proof (amount_range _ _ Hr Ha). specialize (IH Hwf). lia.
Qed.

Lemma validate_ok seen sum reqs amounts :
  requests_wf reqs → NoDup (req_BlindedMessage <$> reqs) →
  (∀ req, req ∈ reqs → req_BlindedMessage req ∉ seen) →
  Forall2 (λ req a, Currency.Amount (req_Value req) = Ok a ∧ 0 < a) reqs amounts →
  0 ≤ sum → sum + Z.of_nat (length reqs) * Currency.MaxAmount < 2 ^ 63 →
  validate_requests seen sum reqs = Ok (sum + sum_Z amounts).
Proof.
  intros Hwf Hnd Hseen H. revert seen sum Hwf Hnd Hseen.
  induction H as [|req a reqs amounts [Ha Hpos] H IH]; intros seen sum Hwf Hnd Hseen H0 Hs.
  { simpl. f_equal. lia. }
  apply Forall_cons in Hwf as [Hr Hwf]. pose proof (amount_range _ _ Hr Ha) as Hm.
  cbn [fmap list_fmap] in Hnd. apply NoDup_cons in Hnd as [Hnin Hnd].
  cbn [validate_requests]. rewrite decide_False by (apply Hseen; left). rewrite Ha.
  rewrite (proj2 (Z.leb_gt a 0)) by lia. cbn [length] in Hs.
  rewrite Currency.MaxAmount_eq in *.
  rewrite wrap_s64_small by (unfold in_int64; lia). rewrite IH; [simpl; f_equal; lia| |done|..|lia].
  - done.
  - intros req' Hin. apply not_elem_of_union. split; [|apply Hseen; by right].
    rewrite elem_of_singleton. intros E. apply Hnin. rewrite <- E. by apply list_elem_of_fmap_2.
  - lia.
Qed.

Lemma validate_inv seen sum reqs sum' :
  validate_requests seen sum reqs = Ok sum' →
  NoDup (req_BlindedMessage <$> reqs) ∧ (∀ req, req ∈ reqs → req_BlindedMessage req ∉ seen) ∧
  ∃ amounts, Forall2 (λ req a, Currency.Amount (req_Value req) = Ok a ∧ 0 < a) reqs amounts.
Proof.
  revert seen sum. induction reqs as [|req reqs IH]; intros seen sum H; cbn [validate_requests] in H.
  { split; [constructor|]. split; [intros ? []%not_elem_of_nil|]. exists []. constructor. }
  destruct (decide _) as [|Hnin]; [done|]. destruct (Currency.Amount _) as [a|] eqn:Ha; [|done].
  destruct (Z.leb_spec a 0); [done|]. apply IH in H as (Hnd & Hseen & amounts & Hf).
  split_and!.
  - cbn [fmap list_fmap]. apply NoDup_cons. split; [|done].
    intros (req' & E & Hin)%list_elem_of_fmap. apply (Hseen req' Hin). set_solver.
  - intros req' [->|Hin]%elem_of_cons; [done|]. specialize (Hseen req' Hin). set_solver.
  - exists (a :: amounts). by constructor.
Qed.

Lemma validate_err seen sum reqs e :
  validate_requests seen sum reqs = Err e → as_InputError e = true.
Proof.
  revert seen sum. induction reqs as [|req reqs IH]; intros seen sum H; cbn [validate_requests] in H; [done|].
  destruct (decide _); [by simplify_eq|]. destruct (Currency.Amount _); [|by simplify_eq].
  destruct (_ <=? 0); [by simplify_eq|]. eauto.
Qed.

Lemma sign_requests_ok {B : BlindRSA} reqs sigs :
  sign_requests reqs = Ok sigs ↔ Forall2 (λ req sig, Issuer_BlindSign req = Ok sig) reqs sigs.
Proof.
  split.
  - revert sigs. induction reqs as [|req reqs IH]; intros sigs H; simpl in H; [by simplify_eq|].
    apply result_bind_ok in H as (sig & Hs%wrap_err_ok & H).
    apply result_bind_ok in H as (sigs' & H & [= <-]). constructor; auto.
  - induction 1 as [|req sig reqs sigs Hs H IH]; simpl; [done|]. by rewrite Hs, IH.
Qed.

Lemma length_batch reqs (amounts : list Z) (P : BlindSignRequest → Z → Prop) :
  Forall2 P reqs amounts → length amounts = length reqs.
Proof. intros H. symmetry. by eapply Forall2_length. Qed.

(** C2. A batch withdrawal is all or nothing.  It succeeds exactly when the
    batch has between 1 and [maxReqs] requests with distinct messages and
    positive ordinary amounts, the issuer signs every request and the account
    covers the exact, overflow-free sum; then precisely that sum is taken, it is
    logged as one mutation, the new balance is returned and stays non-negative,
    and there is one signature per request, in order.  In every other case the
    bank is unchanged. *)
Theorem WithdrawBatch_spec {B : BlindRSA} account reqs b r b' :
  requests_wf reqs → (∀ k st, accounts b !! k = Some st → in_int64 (balance st)) →
  WithdrawBatch account reqs b = (r, b') →
  let withdrawable amounts sigs stored :=
    (0 < length reqs ≤ maxReqs)%nat ∧ batch_amounts reqs amounts ∧
    Forall2 (λ req sig, Issuer_BlindSign req = Ok sig) reqs sigs ∧
    accounts b !! keyForAccount account = Some stored ∧ sum_Z amounts ≤ balance stored in
  match r with
  | Ok (bal, sigs) =>
      ∃ amounts stored, withdrawable amounts sigs stored ∧
        bal = balance stored - sum_Z amounts ∧ 0 ≤ bal < balance stored ∧
        b' = put (keyForAccount account)
               (MkStoredAccount bal (mutations stored ++ [- sum_Z amounts])) b
  | Err e => b' = b ∧ ∀ amounts sigs stored, ¬ withdrawable amounts sigs stored
  end.
Proof.
  intros Hwf Hint H withdrawable. unfold WithdrawBatch in H.
  destruct (Nat.eqb_spec (length reqs) 0) as [E0|E0].
  { simplify_eq. split; [done|]. unfold withdrawable. lia. }
  destruct (Nat.ltb_spec maxReqs (length reqs)).
  { simplify_eq. split; [done|]. unfold withdrawable. lia. }
  assert (Hok : ∀ amounts, batch_amounts reqs amounts → validate_requests ∅ 0 reqs = Ok (sum_Z amounts)
    ∧ 0 < sum_Z amounts < 2 ^ 62).
  { intros amounts [Hnd Hf]. pose proof (batch_sum_range _ _ Hwf Hf). unfold maxReqs in *.
    rewrite Currency.MaxAmount_eq in *. split; [|].
    - apply (validate_ok ∅ 0 reqs amounts); try done. rewrite Currency.MaxAmount_eq. lia.
    - destruct Hf as [|req a reqs' am' [_ Ha] Hf]; [done|].
      apply Forall_cons in Hwf as [_ Hwf']. pose proof (batch_sum_range _ _ Hwf' Hf). simpl in *. lia. }
  destruct (validate_requests ∅ 0 reqs) as [sum|e] eqn:Ev; [|simplify_eq; split; [done|];
    intros am sg st (_ & Hb & _); by destruct (Hok am Hb)].
  destruct (validate_inv _ _ _ _ Ev) as (Hnd & _ & amounts & Hf).
  destruct (Hok amounts (conj Hnd Hf)) as [[= ->] Hsum].
  assert (Huniq : ∀ am, batch_amounts reqs am → sum_Z am = sum_Z amounts).
  { intros am Ham. destruct (Hok am Ham) as [[=] _]. done. }
  destruct (sign_requests reqs) as [sigs|e] eqn:Es.
  2: { simplify_eq. split; [done|]. intros am sg st (_ & _ & Hs%sign_requests_ok & _). congruence. }
  destruct (accounts b !! keyForAccount account) as [stored|] eqn:Ek.
  2: { simplify_eq. split; [done|]. intros am sg st (_ & _ & _ & ? & _). done. }
  destruct (Z.ltb_spec (balance stored) (sum_Z amounts)).
  { simplify_eq. split; [done|]. intros am sg st (_ & Hb & _ & [= <-] & Hle). rewrite (Huniq am Hb) in Hle. lia. }
  pose proof (Hint _ _ Ek) as Hi. unfold in_int64 in Hi.
  rewrite !wrap_s64_small in H by (unfold in_int64; lia).
  simplify_eq/=. exists amounts, stored. split; [|split_and!; try lia; do 2 f_equal; f_equal; lia].
  split; [lia|]. split; [done|]. split; [by apply sign_requests_ok|done].
Qed.

Definition demo_token : AccountToken := MkAccountToken (replicate 32 x01).
Definition demo_bank : Bank := put (keyForAccount demo_token) (MkStoredAccount 100 [100]) NewBank.
Definition demo_reqs : list BlindSignRequest :=
  [MkBlindSignRequest (Currency.MkValue false 10) [x01]; MkBlindSignRequest (Currency.MkValue false 50) [x02]].

Lemma WithdrawBatch_spec_witness :
  (WithdrawBatch (B:=toy_rsa) demo_token demo_reqs demo_bank).1
    = Ok (18, [[x01; x00; x0a]; [x02; x00; x32]]) ∧
  ∃ stored, accounts demo_bank !! keyForAccount demo_token = Some stored ∧ 18 < balance stored.
Proof.
  assert (requests_wf demo_reqs) as Hwf by (repeat constructor; vm_compute; congruence).
  assert (∀ k st, accounts demo_bank !! k = Some st → in_int64 (balance st)) as Hint.
  { intros k st Hk. unfold demo_bank, put in Hk. cbn [accounts] in Hk.
    apply lookup_insert_Some in Hk as [[_ <-]|[_ Hk]]; [by unfold in_int64; simpl; lia|done]. }
  assert ((WithdrawBatch (B:=toy_rsa) demo_token demo_reqs demo_bank).1
    = Ok (18, [[x01; x00; x0a]; [x02; x00; x32]])) as E by (vm_compute; reflexivity).
  split; [exact E|].
  pose proof (WithdrawBatch_spec (B:=toy_rsa) demo_token demo_reqs demo_bank _ _ Hwf Hint
    (surjective_pairing _)) as H.
  rewrite E in H. destruct H as (am & st & Hw & _ & Hb & _). exists st. split; [apply Hw|apply Hb].
Defined.

(** ** Deposits *)

Section deposits.
Context {B : BlindRSA} {NL : NonceLocker}.

(** After a successful commit the deferred rollback changes nothing. *)
Lemma deferred_rollback_committed tx s tx' s' r :
  Commit tx s = (Ok tt, tx', s') → deferred_rollback tx' r s' = (r, s').
Proof.
  intros (_ & _ & ->)%Commit_ok. unfold deferred_rollback. simpl. by destruct r.
Qed.

Lemma deferred_rollback_err tx e s : ∃ e' s', deferred_rollback tx (Err e) s = (Err e', s').
Proof.
  unfold deferred_rollback. destruct (Rollback tx s) as [[[]|e2] s'] eqn:E; simpl; eauto.
Qed.

Definition deposited (account : AccountToken) (credit : BlindedCredit) (amount : Z) (b : Bank) : Bank :=
  let stored := stored_or_zero b (keyForAccount account) in
  put (keyForAccount account)
    (MkStoredAccount (balance stored + amount)%i64 (mutations stored ++ [amount])) b.

Lemma Deposit_ok env account credit b s bal b' s' :
  Deposit env account credit b s = (Ok bal, b', s') →
  ∃ amount tx s1 tx', Currency.Amount (b_value credit) = Ok amount ∧ 0 < amount ∧
    BeginTransaction env credit s = (Ok tx, s1) ∧ Commit tx s1 = (Ok tt, tx', s') ∧
    bal = (Balance account b + amount)%i64 ∧ b' = deposited account credit amount b.
Proof.
  unfold Deposit. destruct (Currency.Amount (b_value credit)) as [amount|] eqn:Ha; [|done].
  destruct (Z.leb_spec amount 0); [done|].
  destruct (BeginTransaction env credit s) as [[tx|e] s1] eqn:Eb; [|done].
  destruct (Commit tx s1) as [[[[]|e] tx'] s2] eqn:Ec.
  - rewrite (deferred_rollback_committed _ _ _ _ _ Ec). intros; simplify_eq.
    exists amount, tx, s1, tx'. split_and!; try done.
    unfold deposited. by rewrite (eq_refl : Currency.AmountOrZero (b_value credit) =
      match Currency.Amount (b_value credit) with Ok a => a | Err _ => 0 end), Ha.
  - destruct (deferred_rollback_err tx' e s2) as (e' & s3 & ->). done.
Qed.

Lemma Deposit_err_bank env account credit b s e b' s' :
  Deposit env account credit b s = (Err e, b', s') → b' = b.
Proof.
  unfold Deposit. destruct (Currency.Amount (b_value credit)) as [amount|] eqn:Ha; [|naive_solver].
  destruct (Z.leb_spec amount 0); [naive_solver|].
  destruct (BeginTransaction env credit s) as [[tx|e'] s1] eqn:Eb; [|naive_solver].
  destruct (Commit tx s1) as [[[[]|e'] tx'] s2] eqn:Ec.
  - rewrite (deferred_rollback_committed _ _ _ _ _ Ec). naive_solver.
  - destruct (deferred_rollback tx' _ s2). naive_solver.
Qed.

Context {NLS : NonceLockerSpec NL}.

Lemma Deposit_spent env account credit b s :
  nonce_status s (Nonce.nonce_bytes (b_nonce credit)) = NonceUsed →
  ∃ e, Deposit env account credit b s = (Err e, b, s).
Proof.
  intros Hu. unfold Deposit. destruct (Currency.Amount _); [|by eauto].
  destruct (_ <=? 0); [by eauto|].
  destruct (BeginTransaction env credit s) as [[tx|e] s1] eqn:E.
  - apply BeginTransaction_ok in E as (_ & _ & _ & (_ & _ & _ & ? & _)%lock_ok). congruence.
  - apply BeginTransaction_err in E as ->. eauto.
Qed.

Lemma Deposit_err_used env account credit b s e b' s' :
  Deposit env account credit b s = (Err e, b', s') →
  ∀ n, nonce_status s' n = NonceUsed → nonce_status s n = NonceUsed.
Proof.
  unfold Deposit. destruct (Currency.Amount _); [|naive_solver].
  destruct (_ <=? 0); [naive_solver|].
  destruct (BeginTransaction env credit s) as [[tx|e'] s1] eqn:Eb.
  2: { apply BeginTransaction_err in Eb as ->. naive_solver. }
  destruct (Commit tx s1) as [[[[]|e'] tx'] s2] eqn:Ec.
  { rewrite (deferred_rollback_committed _ _ _ _ _ Ec). done. }
  apply BeginTransaction_ok in Eb as (_ & _ & _ & Hl).
  unfold deferred_rollback. destruct (Rollback tx' s2) as [r2 s3] eqn:Er. intros H n Hn. simplify_eq.
  pose proof (Commit_used _ _ _ _ _ Ec _ (Rollback_used _ _ _ _ Er _ Hn)) as Hn1.
  destruct (decide (n = Nonce.nonce_bytes (b_nonce credit))) as [->|Hne].
  - apply lock_ok in Hl as (_ & _ & _ & _ & ?). congruence.
  - pose proof (lock_other env _ s n Hne) as Ho. rewrite Hl in Ho. simpl in Ho. congruence.
Qed.
End deposits.

(** C1. A credit is deposited at most once.  A successful deposit verified an
    ordinary, positive credit, spent its nonce and added exactly its amount to
    one account; every later deposit of a credit with the same nonce, into any
    account and after any calls of other clients of the locker, fails without
    touching bank or locker.  A failed deposit leaves the bank as it was and
    spends no nonce, so the credit can be used again. *)
Theorem Deposit_once {B : BlindRSA} {NL : NonceLocker} {NLS : NonceLockerSpec NL}
    env account credit b s r b' s' :
  Deposit env account credit b s = (r, b', s') →
  match r with
  | Ok bal =>
      ∃ amount, Currency.Amount (b_value credit) = Ok amount ∧ 0 < amount ∧
        Issuer_VerifyCredit (Blinded credit) = Ok tt ∧
        bal = Balance account b' ∧ bal = wrap_s 64 (Balance account b + amount) ∧
        AccountHistory account b' = AccountHistory account b ++ [amount] ∧
        (∀ other, other ≠ account → Balance other b' = Balance other b) ∧
        ∀ env' account' credit' b2 s2, rtc locker_step s' s2 →
          Nonce.nonce_bytes (b_nonce credit') = Nonce.nonce_bytes (b_nonce credit) →
          ∃ e, Deposit env' account' credit' b2 s2 = (Err e, b2, s2)
  | Err _ => b' = b ∧ ∀ n, nonce_status s' n = NonceUsed → nonce_status s n = NonceUsed
  end.
Proof.
  intros H. destruct r as [bal|e].
  2: { split; [by eapply Deposit_err_bank|by eapply Deposit_err_used]. }
  apply Deposit_ok in H as (amount & tx & s1 & tx' & Ha & Hpos & Hb & Hc & -> & ->).
  apply BeginTransaction_ok in Hb as (Hv & _ & _ & (_ & _ & Hl & _)%lock_ok).
  apply Commit_ok in Hc as (_ & [_ Hu]%consume_ok & _). rewrite Hl in Hu.
  exists amount. unfold Balance, AccountHistory, deposited, put, stored_or_zero. cbn [accounts].
  rewrite lookup_insert_eq. split_and!; try done.
  - intros other Ho. rewrite lookup_insert_ne by (by intros ?%keyForAccount_inj). done.
  - intros env' account' credit' b2 s2 Hs Hn. apply Deposit_spent. rewrite Hn. by eapply used_steps.
Qed.

Definition demo_deposit : result err Z * Bank * nonces_map :=
  Deposit (B:=toy_rsa) (NL:=inmem_locker) demo_env' demo_token demo_credit NewBank NewNonceLocker.

Lemma Deposit_once_witness :
  demo_deposit.1.1 = Ok 72 ∧ Balance demo_token demo_deposit.1.2 = 72 ∧
  ∃ e, Deposit (B:=toy_rsa) (NL:=inmem_locker) demo_env' demo_token demo_credit demo_deposit.1.2 demo_deposit.2
    = (Err e, demo_deposit.1.2, demo_deposit.2).
Proof.
  assert (demo_deposit.1.1 = Ok 72) as E by (vm_compute; reflexivity).
  assert (demo_deposit = (demo_deposit.1.1, demo_deposit.1.2, demo_deposit.2)) as Eq
    by (by destruct demo_deposit as [[??]?]).
  pose proof (Deposit_once (B:=toy_rsa) (NL:=inmem_locker) demo_env' demo_token demo_credit
    NewBank NewNonceLocker demo_deposit.1.1 demo_deposit.1.2 demo_deposit.2 Eq) as H.
  rewrite E in H. destruct H as (a & _ & _ & _ & Hb & _ & _ & _ & H).
  split; [exact E|]. split; [exact (eq_sym Hb)|]. apply H; [apply rtc_refl|reflexivity].
Defined.

(** ** The ledger *)

Section ledger.
Context {B : BlindRSA} {NL : NonceLocker}.

(** One call on the bank by any client, or one call on the shared locker by
    another user of it.  Credits and requests carry well-formed values. *)
Inductive bank_step : Bank * locker → Bank * locker → Prop :=
| bstep_withdraw account reqs b s : requests_wf reqs →
    bank_step (b, s) ((WithdrawBatch account reqs b).2, s)
| bstep_withdraw_full roundFunc d now account b s :
    bank_step (b, s) ((WithdrawFullUnblinded roundFunc d now account b).2, s)
| bstep_deposit env account credit b s : Currency.value_wf (b_value credit) →
    bank_step (b, s) ((Deposit env account credit b s).1.2, (Deposit env account credit b s).2)
| bstep_exchange env credit request b s : bank_step (b, s) (b, (Bank_Exchange env credit request s).2)
| bstep_other b s s' : locker_step s s' → bank_step (b, s) (b, s').

Definition ledger (b : Bank) : Z :=
  map_sum (λ a, sum_Z (mutations a)) (accounts b) - sum_Z (roundingMutations b).

(** Exchanging the record of one account moves balance and ledger by the
    differences of its fields. *)
Definition balanced (b : Bank) : Prop := map_sum balance (accounts b) ≡₆₄ ledger b.

Lemma balanced_update b key stored bal m rs :
  balanced b → stored = stored_or_zero b key →
  bal - balance stored ≡₆₄ sum_Z m - sum_Z rs →
  balanced (MkBank (<[key := MkStoredAccount bal (mutations stored ++ m)]> (accounts b))
    (roundingMutations b ++ rs)).
Proof.
  unfold balanced, ledger. cbn [accounts roundingMutations]. intros Hb -> Hd.
  rewrite !map_sum_insert, sum_Z_app. cbn [balance mutations]. rewrite sum_Z_app.
  replace (from_option balance 0 (accounts b !! key)) with (balance (stored_or_zero b key))
    by (unfold stored_or_zero; by destruct (accounts b !! key)).
  replace (from_option (λ a, sum_Z (mutations a)) 0 (accounts b !! key))
    with (sum_Z (mutations (stored_or_zero b key)))
    by (unfold stored_or_zero; by destruct (accounts b !! key)).
  set (st := stored_or_zero b key) in *.
  replace (map_sum balance (accounts b) - balance st + bal)
    with (map_sum balance (accounts b) + (bal - balance st)) by lia.
  rewrite Hb, Hd. unfold eqm64. f_equal. lia.
Qed.

Lemma WithdrawBatch_balanced account reqs b : balanced b → balanced (WithdrawBatch account reqs b).2.
Proof.
  intros Hb. unfold WithdrawBatch.
  destruct (_ =? 0)%nat; [done|]. destruct (_ <? _)%nat; [done|].
  destruct (validate_requests ∅ 0 reqs) as [sum|]; [|done]. destruct (sign_requests reqs); [|done].
  destruct (accounts b !! _) as [stored|] eqn:Ek; [|done]. destruct (_ <? sum); [done|].
  unfold put. cbn [snd]. rewrite <- (app_nil_r (roundingMutations b)).
  apply balanced_update; [done|by unfold stored_or_zero; rewrite Ek|].
  cbn [sum_Z foldr]. rewrite !wrap_s64_eqm. unfold eqm64. f_equal. lia.
Qed.

Lemma WithdrawFull_balanced roundFunc d now account b :
  balanced b → balanced (WithdrawFullUnblinded roundFunc d now account b).2.
Proof.
  intros Hb. unfold WithdrawFullUnblinded.
  destruct (accounts b !! _) as [stored|] eqn:Ek; [|done].
  destruct (_ <=? 0); [done|]. destruct (_ <? balance stored); [done|].
  destruct (roundFunc _) as [v|]; [|done]. destruct (IssueUnblindedCredit _ _ _); [|done].
  cbn [snd]. apply balanced_update; [done|by unfold stored_or_zero; rewrite Ek|].
  cbn [sum_Z foldr]. rewrite !wrap_s64_eqm. unfold eqm64. f_equal. lia.
Qed.

Lemma Deposit_balanced env account credit b s : balanced b → balanced (Deposit env account credit b s).1.2.
Proof.
  intros Hb. destruct (Deposit env account credit b s) as [[[bal|e] b'] s'] eqn:E; cbn [fst snd].
  - apply Deposit_ok in E as (amount & tx & s1 & tx' & _ & _ & _ & _ & _ & ->).
    unfold deposited, put. rewrite <- (app_nil_r (roundingMutations b)).
    apply balanced_update; [done..|]. cbn [sum_Z foldr]. rewrite wrap_s64_eqm. unfold eqm64. f_equal. lia.
  - by apply Deposit_err_bank in E as ->.
Qed.

Lemma bank_step_balanced p q : bank_step p q → balanced p.1 → balanced q.1.
Proof.
  destruct 1; cbn [fst]; auto using WithdrawBatch_balanced, WithdrawFull_balanced, Deposit_balanced.
Qed.

Lemma bank_run_balanced p q : rtc bank_step p q → balanced p.1 → balanced q.1.
Proof. induction 1; eauto using bank_step_balanced. Qed.

Lemma TotalBalance_sum b : TotalBalance b = wrap_s 64 (map_sum balance (accounts b)).
Proof.
  unfold TotalBalance, map_sum. generalize (accounts b). clear b. intros m.
  assert (∀ z, z = 0 → map_fold (λ (_ : string) acc sum, wrap_s 64 (sum + balance acc)) z m
    = wrap_s 64 (map_fold (λ (_ : string) acc sum, balance acc + sum) z m)) as H; [|by apply H].
  intros z ->. revert m. apply (map_first_key_ind _).
  - by rewrite !map_fold_empty.
  - intros k x m Hk Hfirst IH.
    rewrite !map_fold_insert_first_key by done. rewrite IH, wrap_s64_add_idemp. f_equal. lia.
Qed.
End ledger.

(** C34. The books balance.  Whatever the clients do, in any order and with any
    rounding function, the bank's total balance is the sum of all account
    mutations minus the sum of the rounding mutations, as a 64-bit number, even
    when balances wrap around. *)
Theorem TotalBalance_ledger {B : BlindRSA} {NL : NonceLocker} s0 b s :
  rtc bank_step (NewBank, s0) (b, s) → TotalBalance b = wrap_s 64 (ledger b).
Proof.
  intros H. rewrite TotalBalance_sum. apply eqm64_wrap.
  apply (bank_run_balanced _ _ H). unfold balanced, ledger. simpl. by rewrite map_sum_empty.
Qed.

Lemma demo_deposit_run :
  nsteps (bank_step (B:=toy_rsa) (NL:=inmem_locker)) 1 (NewBank, NewNonceLocker) (demo_deposit.1.2, demo_deposit.2).
Proof.
  apply nsteps_once.
  refine (bstep_deposit (B:=toy_rsa) (NL:=inmem_locker) demo_env' demo_token demo_credit NewBank NewNonceLocker _).
  vm_compute. split; [congruence|done].
Qed.

Lemma TotalBalance_ledger_witness :
  demo_deposit.1.1 = Ok 72 ∧ TotalBalance demo_deposit.1.2 = wrap_s 64 (ledger demo_deposit.1.2).
Proof.
  split; [vm_compute; reflexivity|].
  apply (TotalBalance_ledger (B:=toy_rsa) (NL:=inmem_locker) NewNonceLocker _ demo_deposit.2).
  exact (rtc_nsteps_2 _ _ _ demo_deposit_run).
Defined.

Definition balances_upto (hi : Z) (b : Bank) : Prop :=
  map_Forall (λ _ st, 0 ≤ balance st ≤ hi) (accounts b).

Section bounds.
Context {B : BlindRSA} {NL : NonceLocker}.

Lemma balances_upto_put hi b key st :
  balances_upto hi b → 0 ≤ balance st ≤ hi → balances_upto hi (put key st b).
Proof. intros Hb Hst. by apply map_Forall_insert_2. Qed.

Lemma balances_upto_zero hi b key : 0 ≤ hi → balances_upto hi b → 0 ≤ balance (stored_or_zero b key) ≤ hi.
Proof.
  intros H0 Hb. unfold stored_or_zero. destruct (accounts b !! key) eqn:E; simpl; [|lia].
  by eapply Hb.
Qed.

(** A batch withdrawal never raises a balance nor takes it below zero. *)
Lemma WithdrawBatch_upto hi account reqs b :
  requests_wf reqs → hi < 2 ^ 63 → balances_upto hi b → balances_upto hi (WithdrawBatch account reqs b).2.
Proof.
  intros Hwf Hhi Hb. unfold WithdrawBatch.
  destruct (_ =? 0)%nat; [done|]. destruct (Nat.ltb_spec maxReqs (length reqs)); [done|].
  destruct (validate_requests ∅ 0 reqs) as [sum|] eqn:Ev; [|done]. destruct (sign_requests reqs); [|done].
  destruct (accounts b !! _) as [stored|] eqn:Ek; [|done]. destruct (Z.ltb_spec (balance stored) sum); [done|].
  destruct (validate_inv _ _ _ _ Ev) as (Hnd & _ & amounts & Hf).
  pose proof (batch_sum_range _ _ Hwf Hf) as Hs. pose proof (Hb _ _ Ek) as Hst. unfold maxReqs in *.
  assert (sum = sum_Z amounts) as ->.
  { rewrite (validate_ok ∅ 0 reqs amounts) in Ev; [by injection Ev as <-|done|done|set_solver|done|lia|].
    rewrite Currency.MaxAmount_eq in *. lia. }
  apply balances_upto_put; [done|]. cbn [balance]. cbv beta in Hst.
  rewrite wrap_s64_small by (unfold in_int64; lia). lia.
Qed.

Lemma WithdrawFull_upto hi roundFunc d now account b :
  0 ≤ hi → balances_upto hi b → balances_upto hi (WithdrawFullUnblinded roundFunc d now account b).2.
Proof.
  intros H0 Hb. unfold WithdrawFullUnblinded.
  destruct (accounts b !! _) as [stored|] eqn:Ek; [|done].
  destruct (_ <=? 0); [done|]. destruct (_ <? balance stored); [done|].
  destruct (roundFunc _) as [v|]; [|done]. destruct (IssueUnblindedCredit _ _ _); [|done].
  apply map_Forall_insert_2; [cbn; lia|done].
Qed.

Lemma Deposit_upto hi env account credit b s :
  0 ≤ hi → hi + Currency.MaxAmount < 2 ^ 63 → Currency.value_wf (b_value credit) → balances_upto hi b →
  balances_upto (hi + Currency.MaxAmount) (Deposit env account credit b s).1.2.
Proof.
  intros H0 Hhi Hwf Hb.
  assert (balances_upto (hi + Currency.MaxAmount) b) as Hb'.
  { intros k st Hk. pose proof (Hb k st Hk) as Hr. cbv beta in Hr |- *. rewrite Currency.MaxAmount_eq. lia. }
  destruct (Deposit env account credit b s) as [[[bal|e] b'] s'] eqn:E; cbn [fst snd].
  - apply Deposit_ok in E as (amount & _ & _ & _ & Ha & _ & _ & _ & _ & ->).
    pose proof (amount_range _ _ Hwf Ha).
    pose proof (balances_upto_zero hi b (keyForAccount account) H0 Hb).
    apply balances_upto_put; [done|]. cbn [balance].
    rewrite wrap_s64_small by (unfold in_int64; lia). lia.
  - by apply Deposit_err_bank in E as ->.
Qed.

Lemma bank_step_upto hi p q :
  bank_step p q → 0 ≤ hi → hi + Currency.MaxAmount < 2 ^ 63 → balances_upto hi p.1 →
  balances_upto (hi + Currency.MaxAmount) q.1.
Proof.
  intros H H0 Hhi Hb. pose proof Currency.MaxAmount_eq.
  assert (∀ b, balances_upto hi b → balances_upto (hi + Currency.MaxAmount) b) as Hmono.
  { intros b Hb' k st Hk. pose proof (Hb' k st Hk) as Hr. cbv beta in Hr |- *. lia. }
  destruct H; cbn [fst] in *; auto using Deposit_upto;
    apply Hmono; auto using WithdrawFull_upto; apply WithdrawBatch_upto; done || lia.
Qed.
End bounds.

(** C33. Accounts never go into the red and never overflow: after up to [2^28]
    calls of any kind by any clients, every balance is between zero and the
    number of calls times the largest credit. *)
Theorem balances_bounded {B : BlindRSA} {NL : NonceLocker} n s0 b s account :
  nsteps bank_step n (NewBank, s0) (b, s) → Z.of_nat n ≤ 2 ^ 28 →
  0 ≤ Balance account b ≤ Z.of_nat n * Currency.MaxAmount.
Proof.
  intros H Hn. unfold Balance. pose proof Currency.MaxAmount_eq as HM.
  apply balances_upto_zero; [lia|].
  assert (Hgen : ∀ n m p q, nsteps bank_step n p q → Z.of_nat (m + n) ≤ 2 ^ 28 →
    balances_upto (Z.of_nat m * Currency.MaxAmount) p.1 →
    balances_upto (Z.of_nat (m + n) * Currency.MaxAmount) q.1).
  { clear. pose proof Currency.MaxAmount_eq as HM. intros n m p q H. revert m.
    induction H as [p|n p q r Hstep H IH]; intros m Hm Hb; [by rewrite Nat.add_0_r|].
    replace (m + S n)%nat with (S m + n)%nat in * by lia. apply IH; [lia|].
    replace (Z.of_nat (S m) * Currency.MaxAmount) with (Z.of_nat m * Currency.MaxAmount + Currency.MaxAmount) by lia.
    eapply bank_step_upto; [done|lia|lia|done]. }
  apply (Hgen n O _ _ H); [lia|]. by intros k st ?.
Qed.

Lemma balances_bounded_witness :
  0 ≤ Balance demo_token demo_deposit.1.2 ≤ Z.of_nat 1 * Currency.MaxAmount.
Proof.
  apply (balances_bounded (B:=toy_rsa) (NL:=inmem_locker) 1 NewNonceLocker _ demo_deposit.2);
    [exact demo_deposit_run|lia].
Defined.

(** Withdrawing everything with the production rounding function: an account
    with a balance a credit can hold is emptied, and the credit issued verifies
    and is worth the balance, or, if that amount has no representation, one of
    its two neighbours; the difference is logged as a rounding mutation and a
    second withdrawal finds no account.  The only possible failure is the
    creation of the credit, and it leaves the bank unchanged. *)
Theorem WithdrawFullUnblinded_spec {B : BlindRSA} {BL : BlindRSALaws B} undef i d now account b stored :
  accounts b !! keyForAccount account = Some stored → 0 < balance stored ≤ Currency.MaxAmount →
  let '(r, b') := WithdrawFullUnblinded (default_roundFunc undef (Some i)) d now account b in
  match r with
  | Ok credit =>
      ∃ a, Currency.Amount (u_value credit) = Ok a ∧
        Currency.neighbour (balance stored) (balance stored) a ∧
        Issuer_VerifyCredit (Unblinded credit) = Ok tt ∧
        b' = MkBank (<[keyForAccount account := MkStoredAccount 0 (mutations stored ++ [- a])]> (accounts b))
               (roundingMutations b ++ [balance stored - a]) ∧
        ∀ rf d' now', WithdrawFullUnblinded rf d' now' account b' = (Err (ErrNew "account does not exist"), b')
  | Err _ => b' = b ∧ ∃ v e, IssueUnblindedCredit d now v = Err e
  end.
Proof.
  intros Hk Hbal. unfold WithdrawFullUnblinded. rewrite Hk. pose proof Currency.MaxAmount_eq as HM.
  destruct (Z.leb_spec (balance stored) 0); [lia|].
  destruct (Z.ltb_spec Currency.MaxAmount (balance stored)); [lia|].
  destruct (f64_floor_of_Z (balance stored)) as [Hlo Hhi]; [lia|].
  unfold default_roundFunc. cbn [nonce_err wrap_err Nonce.RandFloat64 mbind result_bind].
  destruct (Currency.rounded_neighbour undef (f64_of_Z (balance stored))
    (f64_div (f64_of_Z i) (f64_of_Z (2 ^ 53))) (balance stored) (balance stored) (f64_nonneg_of_Z (balance stored) ltac:(lia)) Hlo Hhi (proj2 Hbal))
    as (v & a & -> & Hwf & Ha & Hn).
  cbn [currency_err wrap_err].
  destruct (IssueUnblindedCredit d now v) as [credit|e] eqn:Ei; [|by eauto].
  destruct (issued_verifies d now v credit Ei) as [Hver Hval].
  exists a. rewrite Hval. unfold Currency.AmountOrZero. rewrite Ha.
  pose proof (amount_range _ _ Hwf Ha) as Hr.
  rewrite !wrap_s64_small by (unfold in_int64; lia).
  split_and!; try done.
  intros rf d' now'. cbn [accounts]. by rewrite lookup_insert_eq.
Qed.

Lemma WithdrawFullUnblinded_spec_witness :
  let '(r, b') := WithdrawFullUnblinded (B:=toy_rsa) (default_roundFunc (λ _, 0) (Some 0)) (toy_draw 0) 0
    demo_token demo_bank in
  match r with
  | Ok credit =>
      ∃ a, Currency.Amount (u_value credit) = Ok a ∧ Currency.neighbour 100 100 a ∧
        Issuer_VerifyCredit (B:=toy_rsa) (Unblinded credit) = Ok tt ∧
        b' = MkBank (<[keyForAccount demo_token := MkStoredAccount 0 ([100] ++ [- a])]> (accounts demo_bank))
               (roundingMutations demo_bank ++ [100 - a]) ∧
        ∀ rf d' now', WithdrawFullUnblinded (B:=toy_rsa) rf d' now' demo_token b'
          = (Err (ErrNew "account does not exist"), b')
  | Err _ => b' = demo_bank ∧ ∃ v e, IssueUnblindedCredit (B:=toy_rsa) (toy_draw 0) 0 v = Err e
  end.
Proof.
  apply (@WithdrawFullUnblinded_spec toy_rsa toy_rsa_laws (λ _, 0) 0 (toy_draw 0) 0 demo_token demo_bank
    (MkStoredAccount 100 [100])).
  - unfold demo_bank, put. cbn [accounts]. apply lookup_insert_eq.
  - simpl. rewrite Currency.MaxAmount_eq. lia.
Defined.
