(* ===== verification/WalletStats.v ===== *)
(** The statistics of the wallet: the transfer counters
    ([wallet/internal/stats/counter.go]), the status computed from them
    ([wallet/internal/pipeline/wallet.go]) and what the wallet reports
    ([wallet/wallet.go]). *)

From S2P Require Import Prelude.
From S2P Require Currency.

(** ** [counter.go] *)

Record TransferCount := MkTransferCount {
  tc_Count : Z;
  tc_Amount : Z;
  tc_Credits : Z;
  tc_RoundingGain : Z;
}.
Definition zero_count : TransferCount := MkTransferCount 0 0 0 0.

Definition AmountNoRounding (c : TransferCount) : Z := (tc_Amount c - tc_RoundingGain c)%i64.

Record CreditCount := MkCreditCount { cc_Amount : Z; cc_Credits : Z }.

Definition CreditCountBetween (produced : TransferCount) (consumed : list TransferCount) : CreditCount :=
  foldl (λ ac c, MkCreditCount (cc_Amount ac - AmountNoRounding c)%i64 (cc_Credits ac - tc_Credits c)%i64)
    (MkCreditCount (tc_Amount produced) (tc_Credits produced)) consumed.

Definition SumTransferCounts (ccs : list TransferCount) : TransferCount :=
  foldl (λ out cc, MkTransferCount (tc_Count out + tc_Count cc)%i64 (tc_Amount out + tc_Amount cc)%i64
                     (tc_Credits out + tc_Credits cc)%i64 (tc_RoundingGain out + tc_RoundingGain cc)%i64)
    zero_count ccs.

Definition SubTransferCounts (c1 c2 : TransferCount) : TransferCount :=
  MkTransferCount (tc_Count c1 - tc_Count c2)%i64 (tc_Amount c1 - tc_Amount c2)%i64
    (tc_Credits c1 - tc_Credits c2)%i64 (tc_RoundingGain c1 - tc_RoundingGain c2)%i64.

Definition sumAmounts (amounts : list Currency.Value) : Z :=
  foldl (λ sum amount, (sum + Currency.AmountOrZero amount)%i64) 0 amounts.

(** A call of [TransferCounter.Count]. *)
Definition count_transfer (roundingGain : Z) (amounts : list Currency.Value) (c : TransferCount) : TransferCount :=
  MkTransferCount (tc_Count c + 1)%i64 (tc_Amount c + sumAmounts amounts)%i64
    (tc_Credits c + wrap_s 64 (Z.of_nat (length amounts)))%i64 (tc_RoundingGain c + roundingGain)%i64.

(** ** [pipeline/wallet.go] *)

Record WalletStats := MkWalletStats {
  ProvideAccount_SourceTransfers : TransferCount;
  PrefetchWithdraw_SplitAccounts : TransferCount;
  PrefetchWithdraw_PaymentRequests : TransferCount;
  Consolidate_FromAccounts : TransferCount;
  Consolidate_FromBankBatches : TransferCount;
  Consolidate_FromPaymentResults : TransferCount;
  ReturnToSource_FromAccounts : TransferCount;
  ReturnToSource_FromBankBatches : TransferCount;
  PaymentResults : TransferCount;
}.

Definition NewWalletStats : WalletStats :=
  MkWalletStats zero_count zero_count zero_count zero_count zero_count zero_count zero_count zero_count zero_count.

Record PipelineStatus := MkPipelineStatus {
  BankBatchCreditCount : CreditCount;
  SpendCreditCount : CreditCount;
  AmountInAccounts : Z;
}.

Definition CalcWalletStatus (s : WalletStats) : PipelineStatus :=
  let sourceToAccounts := ProvideAccount_SourceTransfers s in
  let accountsToSource := ReturnToSource_FromAccounts s in
  let batchesToSource := ReturnToSource_FromBankBatches s in
  let accountsToBatches := PrefetchWithdraw_SplitAccounts s in
  let batchesToConsolidate := Consolidate_FromBankBatches s in
  let accountsToConsolidate := Consolidate_FromAccounts s in
  let paymentResultsToConsolidate := Consolidate_FromPaymentResults s in
  let batchesToPaymentReqs := PrefetchWithdraw_PaymentRequests s in
  let paymentResults := PaymentResults s in
  let consolidatablesToAccounts :=
    SumTransferCounts [batchesToConsolidate; accountsToConsolidate; paymentResultsToConsolidate] in
  let allAccounts := SumTransferCounts [sourceToAccounts; consolidatablesToAccounts] in
  MkPipelineStatus
    (CreditCountBetween accountsToBatches [batchesToPaymentReqs; batchesToSource; batchesToConsolidate])
    (CreditCountBetween batchesToPaymentReqs [paymentResults])
    (cc_Amount (CreditCountBetween allAccounts [accountsToBatches; accountsToConsolidate; accountsToSource])).

(** ** [wallet.go] *)

Record Status := MkStatus { CreditsSpent : Z; CreditsHeld : Z; CreditsAvailable : Z }.

Definition Wallet_Status (stats : WalletStats) : Status :=
  let s := CalcWalletStatus stats in
  MkStatus (cc_Amount (SpendCreditCount s)) (AmountInAccounts s + cc_Amount (BankBatchCreditCount s))%i64
    (cc_Amount (BankBatchCreditCount s)).

(** ** Where the money is

    Every transfer the wallet counts moves money from one place to another: it
    takes its amount less the rounding gain from where it comes and brings the
    amount to where it goes. *)

Inductive flow :=
| SourceToAccount | AccountToBatch | BatchToPaymentRequest
| AccountToAccount | BatchToAccount | PaymentResultToAccount
| AccountToSource | BatchToSource | UserToPaymentResult.

Record movement := MkMovement { mv_flow : flow; mv_gain : Z; mv_amounts : list Currency.Value }.

(** The counter each section of the pipeline counts its transfers with. *)
Definition count_movement (m : movement) (s : WalletStats) : WalletStats :=
  let '(MkWalletStats c1 c2 c3 c4 c5 c6 c7 c8 c9) := s in
  let count := count_transfer (mv_gain m) (mv_amounts m) in
  match mv_flow m with
  | SourceToAccount => MkWalletStats (count c1) c2 c3 c4 c5 c6 c7 c8 c9
  | AccountToBatch => MkWalletStats c1 (count c2) c3 c4 c5 c6 c7 c8 c9
  | BatchToPaymentRequest => MkWalletStats c1 c2 (count c3) c4 c5 c6 c7 c8 c9
  | AccountToAccount => MkWalletStats c1 c2 c3 (count c4) c5 c6 c7 c8 c9
  | BatchToAccount => MkWalletStats c1 c2 c3 c4 (count c5) c6 c7 c8 c9
  | PaymentResultToAccount => MkWalletStats c1 c2 c3 c4 c5 (count c6) c7 c8 c9
  | AccountToSource => MkWalletStats c1 c2 c3 c4 c5 c6 (count c7) c8 c9
  | BatchToSource => MkWalletStats c1 c2 c3 c4 c5 c6 c7 (count c8) c9
  | UserToPaymentResult => MkWalletStats c1 c2 c3 c4 c5 c6 c7 c8 (count c9)
  end.
Definition count_movements (ms : list movement) : WalletStats :=
  foldl (λ s m, count_movement m s) NewWalletStats ms.

(** The exact holdings: in bank accounts, in local batches (and their number of
    credits), and given to the user less what came back unspent. *)
Record holdings := MkHoldings { in_accounts : Z; in_batches : Z; batch_credits : Z; spent : Z }.

Definition moved (m : movement) : Z := sum_Z (Currency.AmountOrZero <$> mv_amounts m).
Definition taken (m : movement) : Z := moved m - mv_gain m.
Definition credits_of (m : movement) : Z := Z.of_nat (length (mv_amounts m)).

Definition move (h : holdings) (m : movement) : holdings :=
  let '(MkHoldings a b n s) := h in
  match mv_flow m with
  | SourceToAccount | PaymentResultToAccount => MkHoldings (a + moved m) b n s
  | AccountToBatch => MkHoldings (a - taken m) (b + moved m) (n + credits_of m) s
  | BatchToPaymentRequest => MkHoldings a (b - taken m) (n - credits_of m) (s + moved m)
  | AccountToAccount => MkHoldings (a - taken m + moved m) b n s
  | BatchToAccount => MkHoldings (a + moved m) (b - taken m) (n - credits_of m) s
  | AccountToSource => MkHoldings (a - taken m) b n s
  | BatchToSource => MkHoldings a (b - taken m) (n - credits_of m) s
  | UserToPaymentResult => MkHoldings a b n (s - taken m)
  end.
Definition hold (ms : list movement) : holdings := foldl move (MkHoldings 0 0 0 0) ms.

Lemma sumAmounts_eqm amounts : sumAmounts amounts ≡₆₄ sum_Z (Currency.AmountOrZero <$> amounts).
Proof.
  unfold sumAmounts.
  assert (∀ z, foldl (λ sum amount, (sum + Currency.AmountOrZero amount)%i64) z amounts
    ≡₆₄ z + sum_Z (Currency.AmountOrZero <$> amounts)) as H; [|by rewrite H].
  induction amounts as [|v amounts IH]; intros z; cbn [foldl fmap list_fmap sum_Z foldr].
  { by replace (z + 0) with z by lia. }
  rewrite IH, wrap_s64_eqm. fold (sum_Z (Currency.AmountOrZero <$> amounts)).
  unfold eqm64. f_equal. lia.
Qed.

Lemma count_transfer_eqm g amounts c :
  tc_Amount (count_transfer g amounts c) ≡₆₄ tc_Amount c + sum_Z (Currency.AmountOrZero <$> amounts) ∧
  tc_RoundingGain (count_transfer g amounts c) ≡₆₄ tc_RoundingGain c + g ∧
  tc_Credits (count_transfer g amounts c) ≡₆₄ tc_Credits c + Z.of_nat (length amounts).
Proof.
  cbn [count_transfer tc_Amount tc_RoundingGain tc_Credits].
  by rewrite !wrap_s64_eqm, sumAmounts_eqm.
Qed.

(** The numbers behind the status, as exact combinations of the counters. *)
Definition net (c : TransferCount) : Z := tc_Amount c - tc_RoundingGain c.

Definition exact_holdings (s : WalletStats) : holdings :=
  MkHoldings
    (tc_Amount (ProvideAccount_SourceTransfers s) + tc_Amount (Consolidate_FromBankBatches s)
     + tc_Amount (Consolidate_FromAccounts s) + tc_Amount (Consolidate_FromPaymentResults s)
     - net (PrefetchWithdraw_SplitAccounts s) - net (Consolidate_FromAccounts s)
     - net (ReturnToSource_FromAccounts s))
    (tc_Amount (PrefetchWithdraw_SplitAccounts s) - net (PrefetchWithdraw_PaymentRequests s)
     - net (ReturnToSource_FromBankBatches s) - net (Consolidate_FromBankBatches s))
    (tc_Credits (PrefetchWithdraw_SplitAccounts s) - tc_Credits (PrefetchWithdraw_PaymentRequests s)
     - tc_Credits (ReturnToSource_FromBankBatches s) - tc_Credits (Consolidate_FromBankBatches s))
    (tc_Amount (PrefetchWithdraw_PaymentRequests s) - net (PaymentResults s)).

(** Holdings that agree modulo the word size. *)
Definition holdings_eqm (h k : holdings) : Prop :=
  in_accounts h ≡₆₄ in_accounts k ∧ in_batches h ≡₆₄ in_batches k ∧
  batch_credits h ≡₆₄ batch_credits k ∧ spent h ≡₆₄ spent k.

(** Closes [X ≡₆₄ Y] from [H : C ≡₆₄ a] when [X = C + (Y - a)]. *)
Ltac eqm_shift H :=
  match type of H with
  | ?C ≡₆₄ ?a =>
      match goal with
      | |- _ ≡₆₄ ?Y =>
          transitivity (C + (Y - a)); [unfold eqm64; f_equal; lia | rewrite H; unfold eqm64; f_equal; lia]
      end
  end.

Lemma count_movement_holdings m s h :
  holdings_eqm (exact_holdings s) h → holdings_eqm (exact_holdings (count_movement m s)) (move h m).
Proof.
  destruct s as [c1 c2 c3 c4 c5 c6 c7 c8 c9], h as [a b n sp]. destruct m as [k g amounts].
  unfold holdings_eqm, exact_holdings, net, count_movement, move, taken, moved, credits_of.
  cbn [mv_flow mv_gain mv_amounts]. intros (Ha & Hb & Hn & Hs).
  assert (∀ c, let '(x, y, z) := (tc_Amount (count_transfer g amounts c),
      tc_RoundingGain (count_transfer g amounts c), tc_Credits (count_transfer g amounts c)) in
    x ≡₆₄ tc_Amount c + sum_Z (Currency.AmountOrZero <$> amounts) ∧
    y ≡₆₄ tc_RoundingGain c + g ∧ z ≡₆₄ tc_Credits c + Z.of_nat (length amounts)) as Hc
    by (intros c; apply count_transfer_eqm).
  destruct k;
    match goal with |- context [count_transfer g amounts ?c] => destruct (Hc c) as (H1 & H2 & H3) end;
    cbn [ProvideAccount_SourceTransfers PrefetchWithdraw_SplitAccounts PrefetchWithdraw_PaymentRequests
      Consolidate_FromAccounts Consolidate_FromBankBatches Consolidate_FromPaymentResults
      ReturnToSource_FromAccounts ReturnToSource_FromBankBatches PaymentResults
      in_accounts in_batches batch_credits spent] in *;
    rewrite ?H1, ?H2, ?H3; split_and!; first [eqm_shift Ha | eqm_shift Hb | eqm_shift Hn | eqm_shift Hs].
Qed.

Lemma count_movements_holdings ms : holdings_eqm (exact_holdings (count_movements ms)) (hold ms).
Proof.
  unfold count_movements, hold.
  assert (∀ s h, holdings_eqm (exact_holdings s) h →
    holdings_eqm (exact_holdings (foldl (λ s m, count_movement m s) s ms)) (foldl move h ms)) as H;
    [|by apply H].
  induction ms as [|m ms IH]; intros s h Hsh; [done|]. apply IH. by apply count_movement_holdings.
Qed.

Lemma CalcWalletStatus_exact s :
  let h := exact_holdings s in
  CalcWalletStatus s =
    MkPipelineStatus (MkCreditCount (wrap_s 64 (in_batches h)) (wrap_s 64 (batch_credits h)))
      (CreditCountBetween (PrefetchWithdraw_PaymentRequests s) [PaymentResults s])
      (wrap_s 64 (in_accounts h)) ∧
  cc_Amount (SpendCreditCount (CalcWalletStatus s)) = wrap_s 64 (spent h).
Proof.
  unfold CalcWalletStatus, CreditCountBetween, SumTransferCounts, AmountNoRounding, exact_holdings, net.
  cbn [foldl cc_Amount cc_Credits tc_Amount tc_Credits tc_RoundingGain zero_count in_accounts in_batches
    batch_credits spent SpendCreditCount].
  split; [f_equal; [f_equal|]|]; apply eqm64_wrap; rewrite !wrap_s64_eqm; unfold eqm64; f_equal; lia.
Qed.

(** The wallet's status is the truth.  Whatever transfers the pipeline
    counts, in any order and number, the amounts in accounts and in batches,
    the number of prefetched credits and the amount spent are those of the
    transfers' exact movements of money, rounding gains included, as 64-bit
    numbers. *)
Theorem status_tracks_holdings ms :
  let h := hold ms in
  let s := CalcWalletStatus (count_movements ms) in
  AmountInAccounts s = wrap_s 64 (in_accounts h) ∧
  BankBatchCreditCount s = MkCreditCount (wrap_s 64 (in_batches h)) (wrap_s 64 (batch_credits h)) ∧
  Wallet_Status (count_movements ms) =
    MkStatus (wrap_s 64 (spent h)) (wrap_s 64 (in_accounts h + in_batches h)) (wrap_s 64 (in_batches h)).
Proof.
  destruct (count_movements_holdings ms) as (Ha & Hb & Hn & Hs).
  destruct (CalcWalletStatus_exact (count_movements ms)) as [E Hsp].
  cbv zeta. unfold Wallet_Status. rewrite Hsp, E.
  cbn [AmountInAccounts BankBatchCreditCount cc_Amount].
  by rewrite <- Ha, <- Hb, <- Hn, <- Hs, wrap_s64_add_idemp, Z.add_comm, wrap_s64_add_idemp, Z.add_comm.
Qed.
