(* ===== verification/DelayPool.v ===== *)
(** * Delay pool

    [delay/pool.go] and [delay/pool_heap.go]: a pool that hands its items on only
    after a delay of their own.  The heap is an instance of [heap.Interface]; the
    sections under the mutex are functions on the pool, and the background
    processor, callers that add items and the one that closes the pool are steps
    between them. *)

From S2P Require Import Prelude GoHeap GoLib AnonErrors.

Section pool.
Context {T : Type}.

(** ** The heap

    The source keeps pointers to items; [ptr] tells them apart. *)

Record poolItem := MkItem {
  ptr : nat;
  val : T;
  delay : Z;
  availableAfter : Z;
  index : Z;
}.
Abbreviation poolHeap := (list poolItem).

Definition set_index (i : Z) (x : poolItem) : poolItem :=
  MkItem (ptr x) (val x) (delay x) (availableAfter x) i.

Definition poolHeap_Less (h : poolHeap) (i j : nat) : bool :=
  match h !! i, h !! j with
  | Some x, Some y => before (availableAfter x) (availableAfter y)
  | _, _ => false
  end.
Definition poolHeap_Swap (h : poolHeap) (i j : nat) : poolHeap :=
  alter (set_index (Z.of_nat j)) j (alter (set_index (Z.of_nat i)) i (swap i j h)).
Definition poolHeap_Push (x : poolItem) (h : poolHeap) : poolHeap :=
  h ++ [set_index (Z.of_nat (length h)) x].
Definition poolHeap_Pop (h : poolHeap) : option (poolItem * poolHeap) :=
  match last h with
  | None => None
  | Some item => Some (set_index (-1) item, take (length h - 1) h)
  end.

#[global] Instance poolHeap_interface : HeapInterface poolHeap poolItem := {|
  Len := length;
  Less := poolHeap_Less;
  Swap := poolHeap_Swap;
  SlicePush := poolHeap_Push;
  SlicePop := poolHeap_Pop;
|}.

(** ** The sections under the mutex *)

Record Pool := MkPool {
  heap : poolHeap;
  capacity : nat;
  closed : bool;
  (** the two channels of capacity one: whether a notification is waiting *)
  notifyNewItem : bool;
  notifySpaceAvailable : bool;
}.

Definition NewPool (capacity : nat) : Pool := MkPool (Init []) capacity false false false.

Definition isEarliest (item : poolItem) (h : poolHeap) : bool :=
  match h with top :: _ => (ptr top =? ptr item)%nat | [] => false end.

(** Whether the item was added; an error when the pool is closed. *)
Definition tryAdd (item : poolItem) (p : Pool) : result err bool * Pool :=
  if closed p then (Err (ErrNew "cannot add item to closed pool"), p)
  else if (0 <? capacity p)%nat && (capacity p <=? length (heap p))%nat then (Ok false, p)
  else
    let wasEmpty := (length (heap p) =? 0)%nat in
    let h := Push item (heap p) in
    let notify := wasEmpty || isEarliest item h in
    (Ok true, MkPool h (capacity p) (closed p) (notifyNewItem p || notify) (notifySpaceAvailable p)).

Definition firstClose (p : Pool) : bool * Pool :=
  if closed p then (false, p)
  else (true, MkPool (heap p) (capacity p) true (notifyNewItem p) (notifySpaceAvailable p)).

Definition set_heap (h : poolHeap) (p : Pool) : Pool :=
  MkPool h (capacity p) (closed p) (notifyNewItem p) (notifySpaceAvailable p).

Definition popFromHeap (p : Pool) : option (poolItem * Pool) :=
  if (length (heap p) =? 0)%nat then None
  else match Pop (heap p) with None => None | Some (item, h) => Some (item, set_heap h p) end.

(** The processor's look at the earliest item. *)
Definition nextTime (p : Pool) : option Z := availableAfter <$> head (heap p).

(** The locked section of the loop in [processReadyItems]. *)
Definition takeReady (now : Z) (p : Pool) : option (poolItem * Pool) :=
  match head (heap p) with
  | None => None
  | Some topItem => if after (availableAfter topItem) now then None else popFromHeap p
  end.

(** The locked section of the loop in [drainHeap]. *)
Inductive drain_result := DrainDone | DrainWait (waitFor : Z) | DrainItem (item : poolItem) (p : Pool) | DrainAgain.
Definition takeDrain (respectDelays : bool) (now : Z) (p : Pool) : drain_result :=
  match head (heap p) with
  | None => DrainDone
  | Some nextItem =>
      if respectDelays && after (availableAfter nextItem) now then DrainWait (availableAfter nextItem - now)
      else match popFromHeap p with None => DrainAgain | Some (item, p) => DrainItem item p end
  end.

Definition signalSpace (processed : nat) (p : Pool) : Pool :=
  MkPool (heap p) (capacity p) (closed p) (notifyNewItem p)
    (notifySpaceAvailable p || ((0 <? capacity p)%nat && (0 <? processed)%nat)).

(** [randDuration] panics when the maximum is not positive. *)
Definition AddWithDelayUpTo_delay (maxDelay : Z) (draw : result err Z) : option (result err Z) :=
  if maxDelay <=? 0 then None else Some draw.

(** ** The goroutines

    Where the processor is: at the top of its loop, waiting for a first item,
    having seen the time of the earliest item, about to set the timer, waiting
    for it, and in [processReadyItems] about to read the clock, in its loop,
    sending an item and about to signal. *)
Inductive processor_pc :=
| PTop
| PIdle
| PSeen (nextTime : Z)
| PArm (nextTime waitFor : Z)
| PWait (nextTime deadline : Z)
| PProcess
| PLoop (now : Z) (processed : nat)
| PSend (now : Z) (processed : nat) (item : poolItem)
| PSignal (processed : nat)
| PReturned.

(** Where the call that closes the pool is. *)
Inductive close_pc :=
| NotClosed
| CMarked (respectDelays : bool)
| CWait (respectDelays : bool)
| CDrain (respectDelays : bool)
| CSleep (respectDelays : bool) (deadline : Z)
| CSend (respectDelays : bool) (item : poolItem)
| CClosed (respectDelays : bool).

(** [adding] are calls of [Add] about to try, [waiting] those blocked in its
    select; [accepted], [delivered] and [lost] record what was added, received
    (and when) and dropped. *)
Record state := MkState {
  clock : Z;
  pool : Pool;
  proc : processor_pc;
  closer : close_pc;
  adding : list poolItem;
  waiting : list poolItem;
  accepted : list poolItem;
  delivered : list (poolItem * Z);
  lost : list poolItem;
}.

(** The context that stops the processor is cancelled. *)
Definition closeDone (s : state) : bool :=
  match closer s with NotClosed | CMarked _ => false | _ => true end.

Definition with_pool (p : Pool) (pc : processor_pc) (s : state) : state :=
  MkState (clock s) p pc (closer s) (adding s) (waiting s) (accepted s) (delivered s) (lost s).
Definition at_pc (pc : processor_pc) (s : state) : state := with_pool (pool s) pc s.
Definition at_close (p : Pool) (c : close_pc) (s : state) : state :=
  MkState (clock s) p (proc s) c (adding s) (waiting s) (accepted s) (delivered s) (lost s).
Definition received (item : poolItem) (s : state) : state :=
  MkState (clock s) (pool s) (proc s) (closer s) (adding s) (waiting s) (accepted s)
    (delivered s ++ [(item, clock s)]) (lost s).
Definition dropped (item : poolItem) (s : state) : state :=
  MkState (clock s) (pool s) (proc s) (closer s) (adding s) (waiting s) (accepted s) (delivered s) (lost s ++ [item]).
Definition take_notification (p : Pool) : Pool :=
  MkPool (heap p) (capacity p) (closed p) false (notifySpaceAvailable p).
Definition take_space (p : Pool) : Pool :=
  MkPool (heap p) (capacity p) (closed p) (notifyNewItem p) false.

(** A call of [Add] after its attempt. *)
Definition after_try (item : poolItem) (rest : list poolItem) (s : state) : state :=
  match tryAdd item (pool s) with
  | (Err _, p) => MkState (clock s) p (proc s) (closer s) rest (waiting s) (accepted s) (delivered s) (lost s)
  | (Ok true, p) => MkState (clock s) p (proc s) (closer s) rest (waiting s) (accepted s ++ [item]) (delivered s) (lost s)
  | (Ok false, p) => MkState (clock s) p (proc s) (closer s) rest (item :: waiting s) (accepted s) (delivered s) (lost s)
  end.

(** Steps of the processor and of the call that closes the pool.  An item is sent
    when a receiver takes it. *)
Inductive work_step : state → state → Prop :=
| p_none s : proc s = PTop → nextTime (pool s) = None → work_step s (at_pc PIdle s)
| p_seen s t : proc s = PTop → nextTime (pool s) = Some t → work_step s (at_pc (PSeen t) s)
| p_idle_closed s : proc s = PIdle → closeDone s = true → work_step s (at_pc PReturned s)
| p_idle_new s : proc s = PIdle → notifyNewItem (pool s) = true →
    work_step s (with_pool (take_notification (pool s)) PTop s)
| p_ready s t : proc s = PSeen t → t ≤ clock s → work_step s (at_pc PProcess s)
| p_not_ready s t : proc s = PSeen t → clock s < t → work_step s (at_pc (PArm t (t - clock s)) s)
| p_arm s t w : proc s = PArm t w → work_step s (at_pc (PWait t (clock s + w)) s)
| p_wait_closed s t d : proc s = PWait t d → closeDone s = true → work_step s (at_pc PReturned s)
| p_wait_timer s t d : proc s = PWait t d → d ≤ clock s → work_step s (at_pc PProcess s)
| p_wait_new s t d : proc s = PWait t d → notifyNewItem (pool s) = true →
    work_step s (with_pool (take_notification (pool s)) PTop s)
| p_process s : proc s = PProcess → work_step s (at_pc (PLoop (clock s) 0) s)
| p_take s now n item p : proc s = PLoop now n → takeReady now (pool s) = Some (item, p) →
    work_step s (with_pool p (PSend now (S n) item) s)
| p_stop s now n : proc s = PLoop now n → takeReady now (pool s) = None → work_step s (at_pc (PSignal n) s)
| p_sent s now n item : proc s = PSend now n item → work_step s (at_pc (PLoop now n) (received item s))
| p_send_closed s now n item : proc s = PSend now n item → closeDone s = true →
    work_step s (at_pc PTop (dropped item s))
| p_signal s n : proc s = PSignal n → work_step s (with_pool (signalSpace n (pool s)) PTop s)
| c_cancel s r : closer s = CMarked r → work_step s (at_close (pool s) (CWait r) s)
| c_joined s r : closer s = CWait r → proc s = PReturned → work_step s (at_close (pool s) (CDrain r) s)
| c_done s r : closer s = CDrain r → takeDrain r (clock s) (pool s) = DrainDone →
    work_step s (at_close (pool s) (CClosed r) s)
| c_sleep s r w : closer s = CDrain r → takeDrain r (clock s) (pool s) = DrainWait w →
    work_step s (at_close (pool s) (CSleep r (clock s + w)) s)
| c_woken s r d : closer s = CSleep r d → d ≤ clock s → work_step s (at_close (pool s) (CDrain r) s)
| c_take s r item p : closer s = CDrain r → takeDrain r (clock s) (pool s) = DrainItem item p →
    work_step s (at_close p (CSend r item) s)
| c_again s r : closer s = CDrain r → takeDrain r (clock s) (pool s) = DrainAgain → work_step s s
| c_sent s r item : closer s = CSend r item →
    work_step s (at_close (pool s) (CDrain r) (received item s)).

(** Steps of the clock and of the callers. *)
Inductive env_step : state → state → Prop :=
| e_tick s t : clock s ≤ t →
    env_step s (MkState t (pool s) (proc s) (closer s) (adding s) (waiting s) (accepted s) (delivered s) (lost s))
| e_add s id v d :
    id ∉ ptr <$> (heap (pool s) ++ adding s ++ waiting s) →
    env_step s (MkState (clock s) (pool s) (proc s) (closer s) (MkItem id v d (clock s + d) 0 :: adding s) (waiting s)
      (accepted s) (delivered s) (lost s))
| e_try s l1 item l2 : adding s = l1 ++ item :: l2 → env_step s (after_try item (l1 ++ l2) s)
| e_space s l1 item l2 : waiting s = l1 ++ item :: l2 → notifySpaceAvailable (pool s) = true →
    env_step s (MkState (clock s) (take_space (pool s)) (proc s) (closer s) (item :: adding s) (l1 ++ l2)
      (accepted s) (delivered s) (lost s))
| e_give_up s l1 item l2 : waiting s = l1 ++ item :: l2 →
    env_step s (MkState (clock s) (pool s) (proc s) (closer s) (adding s) (l1 ++ l2) (accepted s) (delivered s) (lost s))
| e_close s r p : firstClose (pool s) = (true, p) → env_step s (at_close p (CMarked r) s)
| e_close_again s p : firstClose (pool s) = (false, p) → env_step s s.

Definition step (s s' : state) : Prop := work_step s s' ∨ env_step s s'.
Definition initial (now : Z) (capacity : nat) : state := MkState now (NewPool capacity) PTop NotClosed [] [] [] [] [].
Definition reachable (capacity : nat) (s : state) : Prop := ∃ now, rtc step (initial now capacity) s.

(** ** The heap is one

    Up to the index field the slice stands for a list of items ordered by time. *)

Definition erase (x : poolItem) : poolItem := set_index 0 x.
Definition items (h : poolHeap) : list poolItem := erase <$> h.

Lemma items_app h1 h2 : items (h1 ++ h2) = items h1 ++ items h2.
Proof. apply fmap_app. Qed.

Lemma fmap_erase_alter k i h : items (alter (set_index k) i h) = items h.
Proof.
  unfold items. apply list_eq. intros j. rewrite !list_lookup_fmap. destruct (decide (i = j)) as [->|Hne].
  - rewrite list_lookup_alter_eq. by destruct (h !! j).
  - by rewrite list_lookup_alter_ne.
Qed.

Lemma fmap_swap {A B} (f : A → B) i j (l : list A) : f <$> swap i j l = swap i j (f <$> l).
Proof.
  unfold swap. rewrite !list_lookup_fmap. destruct (l !! i); [|done]. destruct (l !! j); [|done]. simpl.
  by rewrite !list_fmap_insert.
Qed.

#[global] Instance poolHeap_laws : HeapLaws items erase availableAfter.
Proof.
  constructor.
  - intros h. unfold items. by rewrite length_fmap.
  - intros h i j x y. unfold items. rewrite !list_lookup_fmap. cbn [Less poolHeap_interface]. unfold poolHeap_Less.
    destruct (h !! i) as [x'|]; [|done]. destruct (h !! j) as [y'|]; [|done]. by intros [= <-] [= <-].
  - intros h i j _ _. cbn [Swap poolHeap_interface]. unfold poolHeap_Swap. rewrite !fmap_erase_alter. apply fmap_swap.
  - intros x h. cbn [SlicePush poolHeap_interface]. unfold poolHeap_Push, items. by rewrite fmap_app.
  - intros h l k Hh. cbn [SlicePop poolHeap_interface]. unfold poolHeap_Pop.
    apply fmap_app_inv in Hh as (h1 & h2 & -> & H2 & ->).
    destruct h2 as [|x [|]]; try discriminate H2. injection H2 as ->. rewrite last_snoc. exists (set_index (-1) x), h1.
    split; [|done]. by rewrite length_app, Nat.add_sub, take_app_length.
Qed.

(** The index of an item is its position. *)
Definition index_ok (h : poolHeap) : Prop := ∀ k x, h !! k = Some x → index x = Z.of_nat k.

Lemma Swap_index h i j : index_ok h → index_ok (Swap h i j).
Proof.
  intros Hh k x. cbn [Swap poolHeap_interface]. unfold poolHeap_Swap.
  destruct (decide (k = j)) as [->|Hj].
  - rewrite list_lookup_alter_eq. by destruct (alter _ _ _ !! j); intros [= <-].
  - rewrite list_lookup_alter_ne by done. destruct (decide (k = i)) as [->|Hi].
    + rewrite list_lookup_alter_eq. by destruct (swap _ _ _ !! i); intros [= <-].
    + rewrite list_lookup_alter_ne by done. rewrite swap_lookup_other by done. apply Hh.
Qed.

Lemma Push_index x h : index_ok h → index_ok (Push x h).
Proof.
  intros Hh. apply Push_inv; [apply Swap_index|]. intros k y [Hk|[Hk Hy]]%lookup_app_Some; [by apply Hh|].
  apply list_lookup_singleton_Some in Hy as [Hk0 <-]. cbn [index set_index]. f_equal. lia.
Qed.

Lemma Pop_index h x h' : index_ok h → Pop h = Some (x, h') → index_ok h' ∧ index x = -1.
Proof.
  intros Hh Hp. split.
  - eapply Pop_inv; [apply Swap_index| |exact Hh|exact Hp]. clear. intros h x h' Hh.
    cbn [SlicePop poolHeap_interface]. unfold poolHeap_Pop. destruct (last h); [|done]. intros [= <- <-] k y Hk.
    apply lookup_take_Some in Hk as [Hk _]. by apply Hh.
  - unfold Pop in Hp. case_match; [done|]. cbn [SlicePop poolHeap_interface] in Hp. unfold poolHeap_Pop in Hp.
    destruct (last _); [|done]. by injection Hp as <- _.
Qed.

(** A queue in which the earliest item is next, as a specification: [m] are the
    items in it. *)
Inductive heap_op := OpPush (x : poolItem) | OpPop.

Inductive queue_run : list heap_op → list poolItem → list (option poolItem) → list poolItem → Prop :=
| qr_nil m m' : m ≡ₚ m' → queue_run [] m [] m'
| qr_push x ops m outs m' : queue_run ops (erase x :: m) outs m' → queue_run (OpPush x :: ops) m outs m'
| qr_empty ops outs m' : queue_run ops [] outs m' → queue_run (OpPop :: ops) [] (None :: outs) m'
| qr_pop x ops m m1 outs m' :
    m ≡ₚ erase x :: m1 → (∀ y, y ∈ m1 → availableAfter x ≤ availableAfter y) → index x = -1 →
    queue_run ops m1 outs m' → queue_run (OpPop :: ops) m (Some x :: outs) m'.

Fixpoint heap_run (ops : list heap_op) (h : poolHeap) : list (option poolItem) * poolHeap :=
  match ops with
  | [] => ([], h)
  | OpPush x :: ops => heap_run ops (Push x h)
  | OpPop :: ops =>
      match Pop h with
      | None => let '(outs, h) := heap_run ops h in (None :: outs, h)
      | Some (x, h) => let '(outs, h) := heap_run ops h in (Some x :: outs, h)
      end
  end.

Lemma queue_run_perm ops m1 m2 outs m' : m1 ≡ₚ m2 → queue_run ops m1 outs m' → queue_run ops m2 outs m'.
Proof.
  intros Hp Hr. revert m2 Hp. induction Hr as [m m' Hm|x ops m outs m' Hr IH|ops outs m' Hr IH|x ops m m1 outs m' Hm Hmin Hi Hr IH];
    intros m2 Hp.
  - constructor. by rewrite <- Hp.
  - constructor. apply IH. by rewrite Hp.
  - apply Permutation_nil_l in Hp. subst m2. by constructor.
  - econstructor; [by rewrite <- Hp|done..].
Qed.

Lemma heap_run_queue ops h outs h' :
  heap_ordered availableAfter (items h) → index_ok h → heap_run ops h = (outs, h') →
  index_ok h' ∧ queue_run ops (items h) outs (items h').
Proof.
  revert h outs. induction ops as [|[x|] ops IH]; intros h outs Ho Hi; cbn [heap_run].
  - intros [= <- <-]. split; [done|by constructor].
  - intros H. destruct (Push_spec items erase availableAfter x h Ho) as [Hp Ho'].
    destruct (IH _ _ Ho' (Push_index x h Hi) H) as [Hi' Hr]. split; [done|]. constructor. by eapply queue_run_perm.
  - pose proof (Pop_spec items erase availableAfter h Ho) as Hs. destruct (Pop h) as [[x h1]|] eqn:Ep.
    + destruct Hs as (_ & Hp & Ho' & Hmin). destruct (Pop_index _ _ _ Hi Ep) as [Hi1 Hx].
      destruct (heap_run ops h1) as [outs1 h2] eqn:Er. intros [= <- <-].
      destruct (IH _ _ Ho' Hi1 Er) as [Hi' Hr]. split; [done|]. by econstructor.
    + destruct (heap_run ops h) as [outs1 h2] eqn:Er. intros [= <- <-]. destruct (IH _ _ Ho Hi Er) as [Hi' Hr].
      split; [done|]. rewrite Hs in Hr |- *. by constructor.
Qed.

(** The heap is a priority queue.  Whatever items are pushed and popped in
    whatever order, starting from an empty heap, every pop returns an item no
    later than all the others then in the heap and takes out exactly that one,
    or nothing when there is none; and the index of an item is its position in
    the slice, -1 once it has been popped. *)
Theorem heap_is_queue ops outs h :
  heap_run ops (Init []) = (outs, h) → index_ok h ∧ queue_run ops [] outs (items h).
Proof.
  intros H. change (Init []) with (@nil poolItem) in H. apply (heap_run_queue _ [] _ _); [apply heap_ordered_nil|done|done].
Qed.

(** ** Lemmas on the sections under the mutex *)

Definition pool_ok (cap : nat) (p : Pool) : Prop :=
  heap_ordered availableAfter (items (heap p)) ∧ index_ok (heap p) ∧ capacity p = cap ∧
  (0 < cap → length (heap p) ≤ cap)%nat.

Lemma items_length h : length (items h) = length h.
Proof. apply length_fmap. Qed.

Lemma nextTime_min p t : heap_ordered availableAfter (items (heap p)) → nextTime p = Some t →
  ∀ x, x ∈ items (heap p) → t ≤ availableAfter x.
Proof.
  intros Ho Ht x [k Hk]%list_elem_of_lookup_1. unfold nextTime in Ht. destruct (heap p) as [|y h] eqn:E; [done|].
  injection Ht as <-. rewrite <- (key_at_lookup availableAfter _ _ _ Hk).
  change (availableAfter y) with (key_at availableAfter (items (y :: h)) 0).
  eapply heap_root; [exact Ho|]. by eapply lookup_lt_Some.
Qed.

Lemma nextTime_elem p t : nextTime p = Some t → ∃ x, x ∈ items (heap p) ∧ availableAfter x = t.
Proof.
  unfold nextTime. destruct (heap p) as [|y h]; [done|]. intros [= <-]. exists (erase y). split; [by left|done].
Qed.

Lemma nextTime_none p : nextTime p = None ↔ heap p = [].
Proof. unfold nextTime. by destruct (heap p). Qed.

Lemma popFromHeap_spec cap p :
  pool_ok cap p →
  match popFromHeap p with
  | None => heap p = []
  | Some (x, p') => nextTime p = Some (availableAfter x) ∧ items (heap p) ≡ₚ erase x :: items (heap p') ∧ pool_ok cap p' ∧
      closed p' = closed p ∧ notifyNewItem p' = notifyNewItem p
  end.
Proof.
  intros (Ho & Hi & Hc & Hl). unfold popFromHeap. destruct (Nat.eqb_spec (length (heap p)) 0) as [H0|H0]; [by apply nil_length_inv|].
  pose proof (Pop_spec items erase availableAfter (heap p) Ho) as Hs. destruct (Pop (heap p)) as [[x h]|] eqn:Ep.
  - destruct Hs as (Hh & Hp & Ho' & _). destruct (Pop_index _ _ _ Hi Ep) as [Hi' _]. split.
    + unfold nextTime. unfold items in Hh. destruct (heap p) as [|y h']; [done|]. cbn in Hh |- *. injection Hh as Hv Ha _.
      by destruct x, y; simplify_eq/=.
    + split; [done|]. split; [|done]. split_and!; [done..|]. intros H. cbn [heap set_heap].
      apply Permutation_length in Hp. cbn [length] in Hp. rewrite !items_length in Hp. specialize (Hl H). lia.
  - apply Permutation_length in Hs || apply (f_equal length) in Hs. rewrite items_length in Hs. by destruct (heap p).
Qed.

Lemma tryAdd_spec cap p item :
  pool_ok cap p →
  match tryAdd item p with
  | (Err _, p') => p' = p ∧ closed p = true
  | (Ok false, p') => p' = p ∧ closed p = false
  | (Ok true, p') =>
      closed p = false ∧ pool_ok cap p' ∧ closed p' = false ∧ items (heap p') ≡ₚ erase item :: items (heap p) ∧
      (∀ t, nextTime p = Some t → ∃ t', nextTime p' = Some t' ∧ t' ≤ t) ∧
      (notifyNewItem p' = true ∨ notifyNewItem p' = notifyNewItem p ∧ nextTime p' = nextTime p ∧ heap p ≠ [])
  end.
Proof.
  intros (Ho & Hi & Hc & Hl). unfold tryAdd. destruct (closed p) eqn:Ecl; [done|].
  destruct ((0 <? capacity p)%nat && (capacity p <=? length (heap p))%nat) eqn:Efull; [done|].
  destruct (Push_spec items erase availableAfter item (heap p) Ho) as [Hp Ho'].
  set (p' := MkPool _ _ _ _ _). assert (pool_ok cap p') as Hok'.
  { split_and!; [done|by apply Push_index|done|]. intros H. cbn [heap p'].
    apply Permutation_length in Hp. cbn [length] in Hp. rewrite !items_length in Hp. rewrite Hp.
    apply andb_false_iff in Efull as [E|E]; [apply Nat.ltb_ge in E|apply Nat.leb_gt in E]; lia. }
  split; [done|]. split; [done|]. split; [done|]. split; [done|].
  assert (∀ t, nextTime p = Some t → ∃ t', nextTime p' = Some t' ∧ t' ≤ t) as Hle.
  { intros t Ht. destruct (nextTime p') as [t'|] eqn:Et'.
    - exists t'. split; [done|]. destruct (nextTime_elem _ _ Ht) as (x & Hx & <-).
      apply (nextTime_min p' t'); [apply Hok'|done|]. cbn [heap p']. rewrite Hp. by right.
    - apply nextTime_none in Et'. cbn [heap p'] in Et'. rewrite Et' in Hp. by apply Permutation_nil_l in Hp. }
  split; [done|]. cbn [notifyNewItem p']. destruct (notifyNewItem p); [by left|]. cbn [orb].
  destruct (Nat.eqb_spec (length (heap p)) 0) as [H0|H0]; [by left|]. cbn [orb].
  destruct (isEarliest item (Push item (heap p))) eqn:Ee; [by left|right]. split; [done|].
  split; [|by intros E; rewrite E in H0].
  destruct (nextTime p) as [t|] eqn:Et; [|apply nextTime_none in Et; by rewrite Et in H0].
  destruct (Hle t eq_refl) as (t' & Ht' & Hlt). rewrite Ht'. f_equal.
  unfold nextTime in Ht'. cbn [heap p'] in Ht'. destruct (Push item (heap p)) as [|y h] eqn:Eh; [done|]. injection Ht' as <-.
  cbn [isEarliest] in Ee. apply Nat.eqb_neq in Ee.
  assert (erase y ∈ erase item :: items (heap p)) as Hin by (rewrite <- Hp; by left).
  apply elem_of_cons in Hin as [E|Hin]; [by injection E|].
  apply (nextTime_min p t Ho Et) in Hin. cbn in Hin. lia.
Qed.

Lemma takeReady_spec cap p now :
  pool_ok cap p →
  match takeReady now p with
  | None => ∀ t, nextTime p = Some t → now < t
  | Some (x, p') => nextTime p = Some (availableAfter x) ∧ availableAfter x ≤ now ∧
      items (heap p) ≡ₚ erase x :: items (heap p') ∧ pool_ok cap p' ∧
      closed p' = closed p ∧ notifyNewItem p' = notifyNewItem p
  end.
Proof.
  intros Hok. pose proof (popFromHeap_spec cap p Hok) as Hs. unfold takeReady, nextTime.
  destruct (head (heap p)) as [top|] eqn:Eh; [|done]. cbn [fmap option_fmap option_map]. unfold after.
  destruct (Z.ltb_spec now (availableAfter top)) as [Hlt|Hle]; [by intros t [= <-]|].
  destruct (popFromHeap p) as [[x p']|]; [|by rewrite Hs in Eh].
  destruct Hs as (Hn & ?). unfold nextTime in Hn. rewrite Eh in Hn. injection Hn as Hn. rewrite Hn. split; [done|].
  split; [lia|done].
Qed.

Lemma takeDrain_spec cap p respect now :
  pool_ok cap p →
  match takeDrain respect now p with
  | DrainDone => heap p = []
  | DrainWait w => ∃ t, nextTime p = Some t ∧ w = t - now ∧ now < t
  | DrainItem x p' => nextTime p = Some (availableAfter x) ∧ (respect = true → availableAfter x ≤ now) ∧
      items (heap p) ≡ₚ erase x :: items (heap p') ∧ pool_ok cap p' ∧
      closed p' = closed p ∧ notifyNewItem p' = notifyNewItem p
  | DrainAgain => False
  end.
Proof.
  intros Hok. pose proof (popFromHeap_spec cap p Hok) as Hs. unfold takeDrain, nextTime.
  destruct (head (heap p)) as [top|] eqn:Eh; [|by destruct (heap p)]. cbn [fmap option_fmap option_map]. unfold after.
  destruct (respect && (now <? availableAfter top)) eqn:Ew.
  { apply andb_true_iff in Ew as [_ Ew%Z.ltb_lt]. by exists (availableAfter top). }
  destruct (popFromHeap p) as [[x p']|]; [|by rewrite Hs in Eh].
  destruct Hs as (Hn & ?). unfold nextTime in Hn. rewrite Eh in Hn. injection Hn as Hn. rewrite Hn. split; [done|].
  split; [|done]. intros ->. cbn [andb] in Ew. apply Z.ltb_ge in Ew. lia.
Qed.

(** ** Invariant of the goroutines *)

Definition flight (s : state) : list poolItem :=
  match proc s with PSend _ _ x => [x] | _ => [] end ++ match closer s with CSend _ x => [x] | _ => [] end.
Definition draining (c : close_pc) : bool :=
  match c with CDrain _ | CSleep _ _ | CSend _ _ | CClosed _ => true | _ => false end.

(** [CloseImmediate] was called. *)
Definition immediate (s : state) : bool :=
  match closer s with
  | NotClosed => false
  | CMarked r | CWait r | CDrain r | CSleep r _ | CSend r _ | CClosed r => negb r
  end.

Definition due (s : state) (t : Z) : Prop := ∃ t', nextTime (pool s) = Some t' ∧ t' ≤ t.
(** The processor knows the earliest time or will be notified. *)
Definition awake (s : state) (t : Z) : Prop :=
  due s t ∧ (notifyNewItem (pool s) = true ∨ nextTime (pool s) = Some t).

Definition proc_ok (s : state) : Prop :=
  match proc s with
  | PTop | PSignal _ => True
  | PIdle => notifyNewItem (pool s) = true ∨ heap (pool s) = []
  | PSeen t => awake s t
  | PArm t w => awake s t ∧ t ≤ clock s + w
  | PWait t d => awake s t ∧ t ≤ d
  | PProcess => due s (clock s)
  | PLoop now n => now ≤ clock s ∧ (n = O → due s now)
  | PSend now n x => now ≤ clock s ∧ availableAfter x ≤ now ∧ (0 < n)%nat
  | PReturned => closeDone s = true
  end.
Definition close_ok (s : state) : Prop :=
  match closer s with
  | CSleep _ d => due s d
  | CSend r x => r = true → availableAfter x ≤ clock s
  | CClosed _ => heap (pool s) = []
  | _ => True
  end.

Record pool_inv (cap : nat) (s : state) : Prop := {
  pi_pool : pool_ok cap (pool s);
  pi_count : items (accepted s) ≡ₚ
    items (heap (pool s)) ++ items (flight s) ++ items ((delivered s).*1) ++ items (lost s);
  pi_closed : closed (pool s) = match closer s with NotClosed => false | _ => true end;
  pi_drain : draining (closer s) = true → proc s = PReturned;
  pi_delivered : Forall (λ xt, availableAfter xt.1 ≤ xt.2 ∨ immediate s = true) (delivered s);
  pi_lost : Forall (λ x, availableAfter x ≤ clock s) (lost s);
  pi_lost_open : closeDone s = false → lost s = [];
  pi_proc : proc_ok s;
  pi_close : close_ok s;
}.

Lemma initial_inv now cap : pool_inv cap (initial now cap).
Proof.
  constructor; try done.
  - split_and!; [apply heap_ordered_nil|by intros k x Hk|done|simpl; lia].
Qed.

Lemma due_le s t t' : due s t → t ≤ t' → due s t'.
Proof. intros (u & ? & ?) ?. exists u. split; [done|lia]. Qed.

(** The clock and the calls. *)
Lemma env_step_inv cap s s' : pool_inv cap s → env_step s s' → pool_inv cap s'.
Proof.
  intros [Hp Hc Hcl Hdr Hdel Hlost Hlo Hpr Hco] Hs.
  destruct Hs as [s t Ht|s id v d Hid|s l1 item l2 Ha|s l1 item l2 Hw Hn|s l1 item l2 Hw|s r p Hf|s p Hf].
  - constructor; try done.
    + cbn [lost clock]. eapply Forall_impl; [exact Hlost|]. intros x Hx. cbn in Hx. lia.
    + unfold proc_ok in *. cbn [proc clock pool] in *. destruct (proc s); try done; try (destruct Hpr; split; [done|lia]); try (by destruct Hpr; split; [lia|]).
      by eapply due_le.
    + unfold close_ok in *. cbn [closer clock pool] in *. destruct (closer s); try done. intros E. specialize (Hco E). lia.
  - by constructor.
  - pose proof (tryAdd_spec cap (pool s) item Hp) as Hs. unfold after_try.
    destruct (tryAdd item (pool s)) as [[[]|e] p'].
    + destruct Hs as (Ho & Hok & Hcl' & Hperm & Hle & Hwake).
      assert (closer s = NotClosed) as En by (rewrite Ho in Hcl; by destruct (closer s)).
      assert (∀ t, due s t → ∃ t', nextTime p' = Some t' ∧ t' ≤ t) as Hdue.
      { intros t (u & Hu & Hut). destruct (Hle _ Hu) as (u' & Hu' & ?). exists u'. split; [done|lia]. }
      assert (∀ t, awake s t → (∃ t', nextTime p' = Some t' ∧ t' ≤ t) ∧ (notifyNewItem p' = true ∨ nextTime p' = Some t)) as Hawake.
      { intros t [Hd Hk]. split; [by apply Hdue|]. destruct Hwake as [?|(Hn1 & Hn2 & _)]; [by left|]. rewrite Hn1, Hn2. done. }
      constructor; cbn [pool accepted delivered lost closer]; try done.
      * rewrite items_app, Hc, Hperm. unfold flight. cbn [proc closer]. cbn. solve_Permutation.
      * by rewrite Hcl', En.
      * unfold proc_ok in *. cbn [proc pool clock] in *. destruct (proc s); try done.
        -- destruct Hwake as [?|(Hn1 & Hn2 & Hne)]; [by left|]. destruct Hpr as [Hpr|Hpr]; [|done]. left. congruence.
        -- by apply Hawake.
        -- destruct Hpr as [Hpr ?]. split; [by apply Hawake|done].
        -- destruct Hpr as [Hpr ?]. split; [by apply Hawake|done].
        -- by apply Hdue.
        -- destruct Hpr as [? Hpr]. split; [done|]. intros E. by apply Hdue, Hpr.
      * unfold close_ok in *. cbn [closer]. by rewrite En.
    + destruct Hs as [-> _]. by constructor.
    + destruct Hs as [-> _]. by constructor.
  - by constructor.
  - by constructor.
  - unfold firstClose in Hf. destruct (closed (pool s)) eqn:Ec; [done|]. injection Hf as <-.
    assert (closer s = NotClosed) as En by (by destruct (closer s)).
    constructor; cbn [pool accepted delivered lost closer at_close]; try done.
    + rewrite Hc. unfold flight. cbn [proc closer]. by rewrite En.
    + eapply Forall_impl; [exact Hdel|]. intros x [?|Hi]; [by left|]. unfold immediate in Hi. by rewrite En in Hi.
    + intros _. apply Hlo. unfold closeDone. by rewrite En.
    + unfold proc_ok in *. cbn [proc clock pool at_close] in *. destruct (proc s); try done. unfold closeDone in Hpr. by rewrite En in Hpr.
  - by constructor.
Qed.

Ltac perm_items := unfold items; rewrite ?fmap_app; csimpl; solve_Permutation.

(** While the processor runs the closer holds no item, and conversely. *)
Lemma flight_proc cap s : pool_inv cap s → proc s ≠ PReturned →
  draining (closer s) = false ∧ flight s = match proc s with PSend _ _ x => [x] | _ => [] end.
Proof.
  intros Hi Hp. assert (draining (closer s) = false) as Hd.
  { destruct (draining (closer s)) eqn:E; [|done]. by apply (pi_drain _ _ Hi) in E. }
  split; [done|]. unfold flight. destruct (closer s); try done; by rewrite app_nil_r.
Qed.
Lemma flight_close cap s : pool_inv cap s → draining (closer s) = true →
  proc s = PReturned ∧ flight s = match closer s with CSend _ x => [x] | _ => [] end.
Proof. intros Hi Hp. pose proof (pi_drain _ _ Hi Hp) as E. split; [done|]. unfold flight. by rewrite E. Qed.

Lemma not_draining c : draining c = false → match c with CSend _ x => [x] | _ => [] end = @nil poolItem.
Proof. by destruct c. Qed.

(** A step of the processor that changes no item. *)
Lemma proc_step_inv cap s p pc :
  pool_inv cap s → proc s ≠ PReturned → (∀ n m x, proc s ≠ PSend n m x) → (∀ n m x, pc ≠ PSend n m x) →
  heap p = heap (pool s) → capacity p = capacity (pool s) → closed p = closed (pool s) →
  proc_ok (with_pool p pc s) → pool_inv cap (with_pool p pc s).
Proof.
  intros Hi Hp Hs Hs' Hh Hc Hcl Hok. destruct (flight_proc _ _ Hi Hp) as [Hd Hf].
  destruct Hi as [(Hi1 & Hi2 & Hi3 & Hi4) Hcount Hclo Hdr Hdel Hlost Hlo Hpr Hco].
  constructor; cbn [pool accepted delivered lost closer with_pool clock]; try done.
  - unfold pool_ok. by rewrite Hh, Hc.
  - rewrite Hcount, Hh, Hf. unfold flight. cbn [proc closer with_pool].
    assert (∀ pc0 : processor_pc, (∀ n m x, pc0 ≠ PSend n m x) → match pc0 with PSend _ _ x => [x] | _ => [] end = @nil poolItem) as E.
    { intros [] H; try done. by destruct (H now processed item). }
    rewrite !E by done. by destruct (closer s).
  - by rewrite Hcl.
  - intros E. congruence.
  - unfold close_ok in *. cbn [closer with_pool pool]. destruct (closer s); try done.
Qed.

(** The processor takes an item out of the heap. *)
Lemma take_inv cap s now n x p :
  pool_inv cap s → proc s = PLoop now n → takeReady now (pool s) = Some (x, p) →
  pool_inv cap (with_pool p (PSend now (S n) x) s).
Proof.
  intros Hi E Ht. pose proof (takeReady_spec cap (pool s) now (pi_pool _ _ Hi)) as Hs. rewrite Ht in Hs.
  destruct Hs as (Hn & Hle & Hperm & Hok & Hcl & Hnot).
  destruct (flight_proc _ _ Hi ltac:(by rewrite E)) as [Hd Hf]. rewrite E in Hf.
  destruct Hi as [_ Hcount Hclo Hdr Hdel Hlost Hlo Hpr Hco].
  constructor; cbn [pool accepted delivered lost closer with_pool clock]; try done.
  - rewrite Hcount, Hf, Hperm. unfold flight. cbn [proc closer with_pool].
    rewrite (not_draining _ Hd).
    perm_items.
  - by rewrite Hcl.
  - congruence.
  - unfold proc_ok in *. rewrite E in Hpr. cbn. destruct Hpr. split_and!; [done|done|lia].
  - unfold close_ok in *. cbn [closer with_pool pool]. by destruct (closer s).
Qed.

(** It is received, or dropped because the pool is being closed. *)
Lemma sent_inv cap s now n x :
  pool_inv cap s → proc s = PSend now n x → pool_inv cap (at_pc (PLoop now n) (received x s)).
Proof.
  intros Hi E. destruct (flight_proc _ _ Hi ltac:(by rewrite E)) as [Hd Hf]. rewrite E in Hf.
  destruct Hi as [Hp Hcount Hclo Hdr Hdel Hlost Hlo Hpr Hco].
  unfold proc_ok in Hpr. rewrite E in Hpr. destruct Hpr as (H1 & H2 & H3).
  constructor; cbn [pool accepted delivered lost closer with_pool clock at_pc received]; try done.
  - rewrite Hcount, Hf. unfold flight. cbn [proc closer with_pool at_pc received].
    rewrite (not_draining _ Hd).
    perm_items.
  - congruence.
  - apply Forall_app. split; [done|]. constructor; [|done]. left. cbn. lia.
  - cbn. split; [done|lia].
Qed.

Lemma dropped_inv cap s now n x :
  pool_inv cap s → proc s = PSend now n x → closeDone s = true → pool_inv cap (at_pc PTop (dropped x s)).
Proof.
  intros Hi E Hcd. destruct (flight_proc _ _ Hi ltac:(by rewrite E)) as [Hd Hf]. rewrite E in Hf.
  destruct Hi as [Hp Hcount Hclo Hdr Hdel Hlost Hlo Hpr Hco].
  unfold proc_ok in Hpr. rewrite E in Hpr. destruct Hpr as (H1 & H2 & H3).
  constructor; cbn [pool accepted delivered lost closer with_pool clock at_pc dropped]; try done.
  - rewrite Hcount, Hf. unfold flight. cbn [proc closer with_pool at_pc dropped].
    rewrite (not_draining _ Hd).
    perm_items.
  - congruence.
  - apply Forall_app. split; [done|]. constructor; [lia|done].
  - unfold closeDone in *. cbn. by rewrite Hcd.
Qed.

(** Steps of the closer. *)
Lemma close_take_inv cap s r x p :
  pool_inv cap s → closer s = CDrain r → takeDrain r (clock s) (pool s) = DrainItem x p →
  pool_inv cap (at_close p (CSend r x) s).
Proof.
  intros Hi E Ht. pose proof (takeDrain_spec cap (pool s) r (clock s) (pi_pool _ _ Hi)) as Hs. rewrite Ht in Hs.
  destruct Hs as (Hn & Hle & Hperm & Hok & Hcl & Hnot).
  destruct (flight_close _ _ Hi ltac:(by rewrite E)) as [Hd Hf]. rewrite E in Hf.
  destruct Hi as [_ Hcount Hclo Hdr Hdel Hlost Hlo Hpr Hco].
  constructor; cbn [pool accepted delivered lost closer at_close clock]; try done.
  - rewrite Hcount, Hf, Hperm. unfold flight. cbn [proc closer at_close]. rewrite Hd. perm_items.
  - by rewrite Hcl, Hclo, E.
  - unfold immediate in *. rewrite E in Hdel. done.
  - unfold proc_ok in *. cbn. by rewrite Hd.
Qed.

Lemma close_sent_inv cap s r x :
  pool_inv cap s → closer s = CSend r x → pool_inv cap (at_close (pool s) (CDrain r) (received x s)).
Proof.
  intros Hi E. destruct (flight_close _ _ Hi ltac:(by rewrite E)) as [Hd Hf]. rewrite E in Hf.
  destruct Hi as [Hp Hcount Hclo Hdr Hdel Hlost Hlo Hpr Hco].
  unfold close_ok in Hco. rewrite E in Hco.
  constructor; cbn [pool accepted delivered lost closer at_close clock received]; try done.
  - rewrite Hcount, Hf. unfold flight. cbn [proc closer at_close received]. rewrite Hd. perm_items.
  - by rewrite Hclo, E.
  - unfold immediate in *. rewrite E in Hdel. apply Forall_app. split; [done|]. constructor; [|done]. cbn.
    destruct r; [left; by apply Hco|by right].
  - unfold proc_ok. cbn. by rewrite Hd.
Qed.

Lemma close_step_inv cap s c :
  pool_inv cap s → closer s ≠ NotClosed → c ≠ NotClosed → (∀ r x, closer s ≠ CSend r x) → (∀ r x, c ≠ CSend r x) →
  (closeDone s = true → closeDone (at_close (pool s) c s) = true) →
  (draining c = true → proc s = PReturned) → immediate (at_close (pool s) c s) = immediate s →
  close_ok (at_close (pool s) c s) → pool_inv cap (at_close (pool s) c s).
Proof.
  intros [Hp Hcount Hclo Hdr Hdel Hlost Hlo Hpr Hco] Hn Hn' Hs Hs' Hcd Hd Him Hok.
  constructor; cbn [pool accepted delivered lost closer at_close clock]; try done.
  - rewrite Hcount. unfold flight. cbn [proc closer at_close].
    assert (∀ c0 : close_pc, (∀ r x, c0 ≠ CSend r x) → match c0 with CSend _ x => [x] | _ => [] end = @nil poolItem) as E.
    { intros [] H; try done. by destruct (H respectDelays item). }
    by rewrite !E.
  - rewrite Hclo. by destruct (closer s), c.
  - by rewrite Him.
  - intros E. apply Hlo. destruct (closeDone s); [|done]. by rewrite Hcd in E.
  - unfold proc_ok in *. cbn [proc at_close pool clock]. destruct (proc s); try done. by apply Hcd.
Qed.

Lemma due_nextTime s t : nextTime (pool s) = Some t → due s t.
Proof. intros H. by exists t. Qed.

Ltac proc_step Hi E :=
  eapply proc_step_inv; [exact Hi|by rewrite E|by intros *; rewrite E|done|done|done|done|].

Lemma work_step_inv cap s s' : pool_inv cap s → work_step s s' → pool_inv cap s'.
Proof.
  intros Hi Hs. pose proof (pi_proc _ _ Hi) as Hok. pose proof (pi_close _ _ Hi) as Hco. unfold proc_ok in Hok. unfold close_ok in Hco.
  destruct Hs as [s E Ht|s t E Ht|s E Hc|s E Hn|s t E Ht|s t E Ht|s t w E|s t d E Hc|s t d E Ht|s t d E Hn|s E
    |s now n x p E Ht|s now n E Ht|s now n x E|s now n x E Hc|s n E|s r E|s r E Hp|s r E Ht|s r w E Ht|s r d E Ht|s r x p E Ht|s r E Ht|s r x E];
    rewrite E in Hok || rewrite E in Hco.
  - proc_step Hi E. right. by apply nextTime_none.
  - proc_step Hi E. split; [by apply due_nextTime|by right].
  - by proc_step Hi E.
  - by proc_step Hi E.
  - proc_step Hi E. cbn. destruct Hok as [Hd _]. by eapply due_le.
  - proc_step Hi E. cbn. split; [done|lia].
  - proc_step Hi E. cbn. destruct Hok as [Ha Hle]. split; [done|lia].
  - by proc_step Hi E.
  - proc_step Hi E. cbn. destruct Hok as [[Hd _] Hle]. eapply due_le; [done|lia].
  - by proc_step Hi E.
  - proc_step Hi E. cbn. split; [lia|done].
  - by eapply take_inv.
  - by proc_step Hi E.
  - by apply sent_inv.
  - by eapply dropped_inv.
  - by proc_step Hi E.
  - apply close_step_inv; try done; try (by rewrite E); unfold immediate; cbn; by rewrite ?E.
  - apply close_step_inv; try done; try (by rewrite E); unfold immediate; cbn; by rewrite ?E.
  - pose proof (takeDrain_spec cap (pool s) r (clock s) (pi_pool _ _ Hi)) as Hs. rewrite Ht in Hs.
    apply close_step_inv; try done; try (by rewrite E); try (intros _; by apply (pi_drain _ _ Hi); rewrite E); unfold immediate; cbn; by rewrite ?E.
  - pose proof (takeDrain_spec cap (pool s) r (clock s) (pi_pool _ _ Hi)) as Hs. rewrite Ht in Hs. destruct Hs as (t & Hn & -> & Hlt).
    apply close_step_inv; try done; try (by rewrite E); try (intros _; by apply (pi_drain _ _ Hi); rewrite E); try (unfold immediate; cbn; by rewrite ?E).
    cbn. exists t. split; [done|lia].
  - apply close_step_inv; try done; try (by rewrite E); try (intros _; by apply (pi_drain _ _ Hi); rewrite E); unfold immediate; cbn; by rewrite ?E.
  - by eapply close_take_inv.
  - done.
  - by apply close_sent_inv.
Qed.

Lemma reachable_inv cap s : reachable cap s → pool_inv cap s.
Proof.
  intros [now Hr]. pose proof (initial_inv now cap) as Hi. induction Hr as [|s s1 s2 Hs _ IH]; [done|]. apply IH.
  destruct Hs; [by eapply work_step_inv|by eapply env_step_inv].
Qed.

(** C19. What goes in comes out once, late enough.  In every state that callers,
    the clock, the processor and a closing call can bring about, the accepted
    items are those in the heap, under way, received and lost, each once; the
    heap never exceeds the capacity; nothing was received before its time unless
    the pool is being closed immediately; an item is lost only once the pool is
    being closed, and only if its time had come; and when closing has finished
    every accepted item was received or lost. *)
Theorem pool_conserves cap s :
  reachable cap s →
  items (accepted s) ≡ₚ items (heap (pool s)) ++ items (flight s) ++ items ((delivered s).*1) ++ items (lost s) ∧
  (0 < cap → length (heap (pool s)) ≤ cap)%nat ∧
  (∀ x t, (x, t) ∈ delivered s → availableAfter x ≤ t ∨ immediate s = true) ∧
  (∀ x, x ∈ lost s → closeDone s = true ∧ availableAfter x ≤ clock s) ∧
  (∀ r, closer s = CClosed r → items (accepted s) ≡ₚ items ((delivered s).*1) ++ items (lost s)).
Proof.
  intros Hi%reachable_inv. pose proof (pi_count _ _ Hi) as Hc. split; [done|]. split; [apply Hi|]. split.
  { intros x t Hx. pose proof (pi_delivered _ _ Hi) as Hd. rewrite Forall_forall in Hd. by apply (Hd (x, t)). }
  split.
  { intros x Hx. pose proof (pi_lost _ _ Hi) as Hl. rewrite Forall_forall in Hl. split; [|by apply Hl].
    destruct (closeDone s) eqn:E; [done|]. rewrite (pi_lost_open _ _ Hi E) in Hx. by apply elem_of_nil in Hx. }
  intros r E. destruct (flight_close _ _ Hi ltac:(by rewrite E)) as [_ Hf]. rewrite E in Hf.
  pose proof (pi_close _ _ Hi) as Hco. unfold close_ok in Hco. rewrite E in Hco. by rewrite Hco, Hf in Hc.
Qed.

(** C27. No wake-up is lost.  A processor that waits for a first item while nobody
    has notified it has an empty heap before it, and one that waits for a timer
    waits for exactly the earliest item in the heap; so an item added with an
    earlier time never has to wait for a later one. *)
Theorem no_lost_wakeup cap s :
  reachable cap s → notifyNewItem (pool s) = false →
  (proc s = PIdle → heap (pool s) = []) ∧
  (∀ t d, proc s = PWait t d → t ≤ d ∧ (∃ x, x ∈ items (heap (pool s)) ∧ availableAfter x = t) ∧
    ∀ x, x ∈ items (heap (pool s)) → t ≤ availableAfter x).
Proof.
  intros Hi%reachable_inv Hn. pose proof (pi_proc _ _ Hi) as Hok. unfold proc_ok in Hok. split.
  - intros E. rewrite E, Hn in Hok. by destruct Hok.
  - intros t d E. rewrite E in Hok. destruct Hok as [[_ [Ha|Ha]] Hle]; [congruence|]. split; [done|].
    split; [by apply nextTime_elem|]. apply nextTime_min; [apply Hi|done].
Qed.

(** ** Closing loses items

    After closing the processor may at every ready item choose the closed context
    over the receiver. *)

Lemma lose_all n s r :
  length (heap (pool s)) = n → pool_inv (capacity (pool s)) s → closer s = CWait r → proc s = PTop →
  (∀ x, x ∈ items (heap (pool s)) → availableAfter x ≤ clock s) →
  ∃ s', rtc work_step s s' ∧ proc s' = PReturned ∧ heap (pool s') = [] ∧ delivered s' = delivered s ∧
    items (lost s') ≡ₚ items (lost s) ++ items (heap (pool s)).
Proof.
  revert s. induction n as [|n IH]; intros s Hn Hi Ec Ep Hready.
  - apply nil_length_inv in Hn. exists (at_pc PReturned (at_pc PIdle s)). split; [|split_and!; try done; by rewrite Hn, app_nil_r].
    eapply rtc_l; [apply p_none; [done|by apply nextTime_none]|]. eapply rtc_once, p_idle_closed; [done|].
    unfold closeDone. cbn. by rewrite Ec.
  - destruct (nextTime (pool s)) as [t|] eqn:Et; [|apply nextTime_none in Et; by rewrite Et in Hn].
    assert (t ≤ clock s) as Hle by (destruct (nextTime_elem _ _ Et) as (x & Hx & <-); by apply Hready).
    pose proof (takeReady_spec _ (pool s) (clock s) (pi_pool _ _ Hi)) as Ht.
    destruct (takeReady (clock s) (pool s)) as [[x p]|] eqn:Etake; [|specialize (Ht _ Et); lia].
    destruct Ht as (_ & _ & Hperm & Hok & _ & _).
    set (s1 := at_pc (PLoop (clock s) 0) (at_pc PProcess (at_pc (PSeen t) s))).
    assert (rtc work_step s s1) as Hr1.
    { eapply rtc_l; [by apply p_seen|]. eapply rtc_l; [by apply (p_ready _ t)|]. eapply rtc_once. by apply (p_process (at_pc PProcess (at_pc (PSeen t) s))). }
    set (s2 := at_pc PTop (dropped x (with_pool p (PSend (clock s) 1 x) s1))).
    assert (rtc work_step s s2) as Hr2.
    { transitivity s1; [exact Hr1|]. eapply rtc_l; [by eapply (p_take s1 (clock s) 0)|].
      eapply rtc_once, (p_send_closed _ (clock s) 1 x); [done|]. unfold closeDone. cbn. by rewrite Ec. }
    assert (capacity p = capacity (pool s)) as Hcap by apply Hok.
    destruct (IH s2) as (s' & Hr & H1 & H2 & H3 & H4).
    + cbn. apply Permutation_length in Hperm. cbn [length] in Hperm. rewrite !items_length in Hperm. lia.
    + cbn [pool s2 at_pc with_pool dropped]. rewrite Hcap. clear IH. revert Hi Hr2. generalize s2. clear. intros s2 Hi Hr.
      remember (capacity (pool s)) as cap. clear Heqcap. induction Hr as [|a b c Hs _ IH]; [done|]. apply IH. by eapply work_step_inv.
    + done.
    + done.
    + intros y Hy. apply Hready. cbn in Hy. rewrite Hperm. by right.
    + exists s'. split; [by transitivity s2|]. split_and!; [done..|]. rewrite H4. cbn [lost heap pool s2 at_pc with_pool dropped s1].
      rewrite Hperm. perm_items.
Qed.

(** Close can lose every ready item.  When the pool is closed while items
    whose time has come are waiting for a receiver, the processor may pop them
    one after the other and drop each, as it does not look at the closed context
    before it pops: all are lost and none is received. *)
Theorem close_loses_ready_items cap s r :
  reachable cap s → closer s = CWait r → proc s = PTop →
  (∀ x, x ∈ items (heap (pool s)) → availableAfter x ≤ clock s) →
  ∃ s', rtc work_step s s' ∧ proc s' = PReturned ∧ heap (pool s') = [] ∧ delivered s' = delivered s ∧
    items (lost s') ≡ₚ items (lost s) ++ items (heap (pool s)).
Proof.
  intros Hi%reachable_inv. assert (capacity (pool s) = cap) as Hc by apply Hi. rewrite <- Hc in Hi. by eapply lose_all.
Qed.

(** ** Closing ends *)

Definition proc_weight (pc : processor_pc) : nat :=
  match pc with
  | PReturned => 0
  | PLoop _ O => 1
  | PProcess => 2
  | PIdle | PWait _ _ => 3
  | PArm _ _ => 4
  | PSeen _ => 5
  | PTop => 6
  | PSignal _ => 7
  | PLoop _ _ => 8
  | PSend _ _ _ => 9
  end.
Definition is_due (s : state) : bool :=
  match nextTime (pool s) with Some t => t <=? clock s | None => false end.
Definition close_weight (s : state) : nat :=
  match closer s with
  | NotClosed | CClosed _ => 0
  | CDrain _ => if is_due s then 1 else 3
  | CSleep _ _ => 2
  | CSend _ _ => 4
  | CWait _ => 7
  | CMarked _ => 8
  end.
Definition work_left (s : state) : nat :=
  (10 * length (heap (pool s)) + (if notifyNewItem (pool s) then 10 else 0) + proc_weight (proc s) + close_weight s)%nat.

Lemma close_weight_running s s' :
  draining (closer s) = false → closer s' = closer s → close_weight s' = close_weight s.
Proof. unfold close_weight. intros Hd ->. by destruct (closer s). Qed.

Lemma close_weight_le s : (close_weight s ≤ 8)%nat.
Proof. unfold close_weight. repeat case_match; lia. Qed.
Lemma proc_weight_le pc : (proc_weight pc ≤ 9)%nat.
Proof. destruct pc; simpl; try lia. case_match; lia. Qed.

Lemma due_is_due s t : due s t → t ≤ clock s → is_due s = true.
Proof. intros (t' & Ht & ?) ?. unfold is_due. rewrite Ht. apply Z.leb_le. lia. Qed.

Ltac work_goal E := unfold work_left; cbn [pool proc at_pc with_pool at_close received dropped take_notification signalSpace heap notifyNewItem]; rewrite ?E; cbn [proc_weight].

Lemma proc_step_less cap s s' :
  pool_inv cap s → work_step s s' → closer s' = closer s → proc s ≠ PReturned → (work_left s' < work_left s)%nat.
Proof.
  intros Hi Hs Hc Hp. destruct (flight_proc _ _ Hi Hp) as [Hd _]. pose proof (close_weight_running _ _ Hd Hc) as Hw.
  pose proof (pi_proc _ _ Hi) as Hok. unfold proc_ok in Hok.
  destruct Hs as [s E Ht|s t E Ht|s E Hcd|s E Hn|s t E Ht|s t E Ht|s t w E|s t d E Hcd|s t d E Ht|s t d E Hn|s E
    |s now n x p E Ht|s now n E Ht|s now n x E|s now n x E Hcd|s n E|s r E|s r E Hr|s r E Ht|s r w E Ht|s r d E Ht|s r x p E Ht|s r E Ht|s r x E];
    try (by rewrite E in Hd); rewrite E in Hok || (cbn in Hc; congruence) || idtac; revert Hw; work_goal E; intros Hw; rewrite ?Hw; try lia.
  - rewrite Hn. lia.
  - rewrite Hn. lia.
  - pose proof (takeReady_spec cap (pool s) now (pi_pool _ _ Hi)) as Hs. rewrite Ht in Hs. destruct Hs as (_ & _ & Hperm & _ & _ & ->).
    apply Permutation_length in Hperm. cbn [length] in Hperm. rewrite !items_length in Hperm. destruct n; lia.
  - destruct n; [|lia]. destruct Hok as [_ Hok]. destruct (Hok eq_refl) as (t & Hn & Hle).
    pose proof (takeReady_spec cap (pool s) now (pi_pool _ _ Hi)) as Hs. rewrite Ht in Hs. specialize (Hs _ Hn). lia.
  - destruct n; lia.
Qed.

Lemma close_step_less cap s s' :
  pool_inv cap s → work_step s s' → proc s' = proc s → (work_left s' < work_left s)%nat.
Proof.
  intros Hi Hs Hc. pose proof (pi_close _ _ Hi) as Hok. unfold close_ok in Hok.
  destruct Hs as [s E Ht|s t E Ht|s E Hcd|s E Hn|s t E Ht|s t E Ht|s t w E|s t d E Hcd|s t d E Ht|s t d E Hn|s E
    |s now n x p E Ht|s now n E Ht|s now n x E|s now n x E Hcd|s n E|s r E|s r E Hr|s r E Ht|s r w E Ht|s r d E Ht|s r x p E Ht|s r E Ht|s r x E];
    try (cbn in Hc; congruence); rewrite E in Hok; work_goal E;
    try pose proof (takeDrain_spec cap (pool s) r (clock s) (pi_pool _ _ Hi)) as Hs; try rewrite Ht in Hs.
  - unfold close_weight. rewrite E. cbn. lia.
  - unfold close_weight. rewrite E. cbn. repeat case_match; lia.
  - unfold close_weight. rewrite E. cbn. repeat case_match; lia.
  - destruct Hs as (t & Hn & -> & Hlt). unfold close_weight. rewrite E. cbn. unfold is_due. rewrite Hn.
    destruct (Z.leb_spec t (clock s)); lia.
  - pose proof (due_is_due (at_close (pool s) (CDrain r) s) d Hok Ht) as Hd. unfold close_weight. rewrite E. cbn [closer at_close].
    rewrite Hd. lia.
  - destruct Hs as (_ & _ & Hperm & _ & _ & ->).
    apply Permutation_length in Hperm. cbn [length] in Hperm. rewrite !items_length in Hperm.
    unfold close_weight. rewrite E. cbn. repeat case_match; lia.
  - done.
  - unfold close_weight. rewrite E. cbn. repeat case_match; lia.
Qed.

Lemma work_step_less cap s s' : pool_inv cap s → work_step s s' → (work_left s' < work_left s)%nat.
Proof.
  intros Hi Hs. assert ((closer s' = closer s ∧ proc s ≠ PReturned) ∨ proc s' = proc s) as [[Hc Hp]|Hp].
  - destruct Hs; first [by right|left; split; [done|congruence]].
  - by eapply proc_step_less.
  - by eapply close_step_less.
Qed.

(** Once the pool is closed, callers add nothing. *)
Lemma env_step_work cap s s' :
  pool_inv cap s → closed (pool s) = true → env_step s s' → closed (pool s') = true ∧ (work_left s' ≤ work_left s)%nat.
Proof.
  intros Hi Hc Hs. pose proof (pi_closed _ _ Hi) as Hcl. rewrite Hc in Hcl.
  destruct Hs as [s t Ht|s id v d Hid|s l1 item l2 Ha|s l1 item l2 Hw Hn|s l1 item l2 Hw|s r p Hf|s p Hf]; try (split; [done|]);
    unfold work_left; cbn [pool proc]; try (unfold close_weight, is_due, nextTime; cbn; lia).
  - unfold close_weight, is_due. cbn. destruct (closer s); try lia. destruct (nextTime (pool s)) as [u|]; [|lia].
    destruct (Z.leb_spec u t), (Z.leb_spec u (clock s)); lia.
  - unfold after_try. unfold tryAdd. rewrite Hc. split; [done|]. unfold close_weight, is_due. cbn. lia.
  - unfold firstClose in Hf. by rewrite Hc in Hf.
Qed.

(** A run with its number of steps of processor and closer. *)
Inductive run : nat → state → state → Prop :=
| run_nil s : run 0 s s
| run_work n s s1 s2 : work_step s s1 → run n s1 s2 → run (S n) s s2
| run_env n s s1 s2 : env_step s s1 → run n s1 s2 → run n s s2.

Lemma run_bound cap n s s' :
  pool_inv cap s → closed (pool s) = true → run n s s' → (n + work_left s' ≤ work_left s)%nat.
Proof.
  intros Hi Hc Hr. induction Hr as [s|n s s1 s2 Hs _ IH|n s s1 s2 Hs _ IH]; [lia| |].
  - pose proof (work_step_less _ _ _ Hi Hs). pose proof (work_step_inv _ _ _ Hi Hs) as Hi1.
    assert (closed (pool s1) = true) as Hc1.
    { rewrite (pi_closed _ _ Hi) in Hc. rewrite (pi_closed _ _ Hi1). destruct Hs; try done; cbn [closer at_pc with_pool received dropped]; done. }
    specialize (IH Hi1 Hc1). lia.
  - destruct (env_step_work _ _ _ Hi Hc Hs) as [Hc1 Hle]. specialize (IH (env_step_inv _ _ _ Hi Hs) Hc1). lia.
Qed.

Definition tick (t : Z) (s : state) : state :=
  MkState t (pool s) (proc s) (closer s) (adding s) (waiting s) (accepted s) (delivered s) (lost s).

Lemma close_progress cap s :
  pool_inv cap s → closed (pool s) = true → (∀ r, closer s ≠ CClosed r) → ∃ t s', clock s ≤ t ∧ work_step (tick t s) s'.
Proof.
  intros Hi Hc Hn. rewrite (pi_closed _ _ Hi) in Hc. destruct (closer s) as [|r|r|r|r d|r x|r] eqn:Ec; [done| | | | | |by destruct (Hn r)].
  - exists (clock s). eexists. split; [lia|]. by apply c_cancel.
  - assert (closeDone (tick (clock s) s) = true) as Hd by (unfold closeDone; cbn; by rewrite Ec).
    exists (clock s). destruct (proc s) as [| |t|t w|t d| |now n|now n x|n|] eqn:Ep.
    + destruct (nextTime (pool s)) as [t|] eqn:Et; eexists; (split; [lia|]); [by eapply p_seen|by eapply p_none].
    + eexists. split; [lia|]. by apply p_idle_closed.
    + destruct (Z.le_gt_cases t (clock s)); eexists; (split; [lia|]); [by eapply p_ready|by eapply p_not_ready].
    + eexists. split; [lia|]. by eapply p_arm.
    + eexists. split; [lia|]. by eapply p_wait_closed.
    + eexists. split; [lia|]. by eapply p_process.
    + destruct (takeReady now (pool s)) as [[x p]|] eqn:Et; eexists; (split; [lia|]); [by eapply p_take|by eapply p_stop].
    + eexists. split; [lia|]. by eapply p_sent.
    + eexists. split; [lia|]. by eapply p_signal.
    + eexists. split; [lia|]. by eapply c_joined.
  - exists (clock s). destruct (takeDrain r (clock s) (pool s)) as [|w|x p|] eqn:Et; eexists; (split; [lia|]).
    + by eapply c_done.
    + by eapply c_sleep.
    + by eapply c_take.
    + by eapply c_again.
  - exists (Z.max d (clock s)). eexists. split; [lia|]. eapply c_woken; [done|cbn; lia].
  - exists (clock s). eexists. split; [lia|]. by eapply c_sent.
Qed.

(** Closing ends.  From the moment the pool is closed, however the clock, the
    callers and receivers go on, processor and closer together take at most ten
    steps for every item in the heap and 27 more; and as long as the output is
    not closed one of them can go on as soon as its time has come, if receivers
    take what is sent. *)
Theorem Close_terminates cap s :
  reachable cap s → closed (pool s) = true →
  (∀ n s', run n s s' → n ≤ 10 * length (heap (pool s)) + 27)%nat ∧
  ((∀ r, closer s ≠ CClosed r) → ∃ t s', clock s ≤ t ∧ work_step (tick t s) s').
Proof.
  intros Hi%reachable_inv Hc. split; [|by eapply close_progress]. intros n s' Hr.
  pose proof (run_bound _ _ _ _ Hi Hc Hr) as Hb. unfold work_left at 2 in Hb.
  pose proof (close_weight_le s). pose proof (proc_weight_le (proc s)). destruct (notifyNewItem (pool s)); lia.
Qed.
End pool.
Arguments poolItem : clear implicits.
Arguments state : clear implicits.

(** ** A run, for the witnesses: two calls add items without delay, then the pool
    is closed. *)

Definition demo_item (id v : nat) : poolItem nat := MkItem id v 0 5 0.
Definition demo_adding (item : poolItem nat) (s : state nat) : state nat :=
  MkState (clock s) (pool s) (proc s) (closer s) (item :: adding s) (waiting s) (accepted s) (delivered s) (lost s).
Definition demo_add (item : poolItem nat) (s : state nat) : state nat := after_try item [] (demo_adding item s).
Definition demo_open : state nat := demo_add (demo_item 2 70) (demo_add (demo_item 1 50) (initial 5 2)).
Definition demo_closing : state nat :=
  at_close (snd (firstClose (pool demo_open))) (CWait true) demo_open.

Lemma demo_add_steps item s :
  adding s = [] → ptr item ∉ ptr <$> (heap (pool s) ++ waiting s) → delay item = 0 → availableAfter item = clock s → index item = 0 →
  rtc step s (demo_add item s).
Proof.
  intros Ha Hid Hd Ht Hix. eapply rtc_l.
  - right. apply (e_add s (ptr item) (val item) 0). by rewrite Ha.
  - eapply rtc_l; [|apply rtc_refl]. right. unfold demo_add.
    assert (MkItem (ptr item) (val item) 0 (clock s + 0) 0 = item) as E by (destruct item; cbn in *; f_equal; lia || congruence).
    rewrite E. apply (e_try _ [] item []). cbn. by rewrite Ha.
Qed.

Lemma demo_open_reachable : reachable 2 demo_open.
Proof.
  exists 5. transitivity (demo_add (demo_item 1 50) (initial 5 2)).
  - apply demo_add_steps; try done. cbn. apply not_elem_of_nil.
  - apply demo_add_steps; try done. vm_compute. by intros [=]%list_elem_of_singleton.
Qed.

Lemma demo_closing_reachable : reachable 2 demo_closing.
Proof.
  destruct demo_open_reachable as [now Hr]. exists now. transitivity demo_open; [exact Hr|].
  eapply rtc_l; [right; by apply (e_close _ true)|]. eapply rtc_l; [left; by apply c_cancel|]. apply rtc_refl.
Qed.

Lemma heap_is_queue_witness :
  ∃ outs h, heap_run [OpPush (MkItem 1 50 9 9 0); OpPush (MkItem 2 70 3 3 0); OpPop; OpPop; OpPop] (Init []) = (outs, h) ∧
    map (option_map val) outs = [Some 70; Some 50; None] ∧ index_ok h.
Proof.
  destruct (heap_run [OpPush (MkItem 1 50 9 9 0); OpPush (MkItem 2 70 3 3 0); OpPop; OpPop; OpPop] (Init [])) as [outs h] eqn:E.
  exists outs, h. split; [reflexivity|]. destruct (heap_is_queue _ _ _ E) as [Hi _]. split; [|exact Hi].
  vm_compute in E. injection E as <- _. reflexivity.
Defined.

Lemma pool_conserves_witness : length (items (accepted demo_closing)) = length (items (heap (pool demo_closing))).
Proof.
  destruct (pool_conserves 2 demo_closing demo_closing_reachable) as [Hp _]. rewrite Hp. reflexivity.
Defined.

Definition demo_idle : state nat := at_pc PIdle (initial 5 2).
Lemma no_lost_wakeup_witness : heap (pool demo_idle) = [].
Proof.
  apply (no_lost_wakeup 2 demo_idle); [|reflexivity..]. exists 5. apply rtc_once. left. by apply p_none.
Defined.

Lemma close_loses_ready_items_witness : ∃ s', rtc work_step demo_closing s' ∧ delivered s' = [] ∧ length (lost s') = 2%nat.
Proof.
  destruct (close_loses_ready_items 2 demo_closing true) as (s' & Hr & _ & _ & Hd & Hl);
    [exact demo_closing_reachable|reflexivity..| |].
  - intros x Hx. vm_compute in Hx.
    repeat (apply elem_of_cons in Hx as [->|Hx]; [vm_compute; discriminate|]). by apply elem_of_nil in Hx.
  - exists s'. split; [exact Hr|]. split; [rewrite Hd; reflexivity|]. apply Permutation_length in Hl. rewrite items_length in Hl.
    rewrite Hl. reflexivity.
Defined.

Lemma Close_terminates_witness : ∃ t s', clock demo_closing ≤ t ∧ work_step (tick t demo_closing) s'.
Proof.
  destruct (Close_terminates 2 demo_closing demo_closing_reachable eq_refl) as [_ H]. apply H. intros r. discriminate.
Defined.
