(* ===== verification/Transfer.v ===== *)
(** Transfers of credits: package [wallet/internal/transfer].  The blind bank is
    used through its contract ([banking/blind_bank_contract.go]); the in-memory
    bank is an instance.  Accounts, batches, payment requests and payment results
    are shared objects of the wallet: they live in a store and are referred to by
    pointers, so that several intents can be about the same object. *)

From S2P Require Import Prelude Bytes GoLib Float64 AnonErrors Credit BlindSigning NonceLocking Bank.
From S2P Require Currency Nonce.

(** ** The contract of a blind bank

    [bank_env] is what a call sees of the outside world.  A refused call
    moves no funds; the laws are stated up to 64-bit wrap-around. *)

Definition MaxBatchLen : nat := 15.

Class BlindBankContract := {
  bank : Type;
  bank_env : Type;
  bc_WithdrawBatch : AccountToken → list BlindSignRequest → bank → result err (Z * list (list byte)) * bank;
  bc_WithdrawFullUnblinded : bank_env → AccountToken → bank → result err UnblindedCredit * bank;
  bc_Deposit : bank_env → AccountToken → BlindedCredit → bank → result err Z * bank;
  bc_Exchange : bank_env → AnyCredit → BlindSignRequest → bank → result err (list byte) * bank;
  bc_Balance : AccountToken → bank → Z;
}.

Definition worth (c : BlindedCredit) : Z := Currency.AmountOrZero (b_value c).
Definition total_worth (cs : list BlindedCredit) : Z := sum_Z (worth <$> cs).
Definition requested (reqs : list BlindSignRequest) : Z :=
  sum_Z ((λ r, Currency.AmountOrZero (req_Value r)) <$> reqs).

Class BlindBankSpec (BC : BlindBankContract) := {
  bank_total : bank → Z;

  withdraw_batch_ok acc reqs b bal sigs b' : bc_WithdrawBatch acc reqs b = (Ok (bal, sigs), b') →
    bal = bc_Balance acc b' ∧ bc_Balance acc b' ≡₆₄ bc_Balance acc b - requested reqs ∧
    bank_total b' ≡₆₄ bank_total b - requested reqs ∧
    ∀ other, other ≠ acc → bc_Balance other b' = bc_Balance other b;
  withdraw_batch_max acc reqs b : (MaxBatchLen < length reqs)%nat →
    ∃ e, (bc_WithdrawBatch acc reqs b).1 = Err e ∧ as_InputError e = true;
  withdraw_full_ok env acc b c b' : bc_WithdrawFullUnblinded env acc b = (Ok c, b') →
    bc_Balance acc b' = 0 ∧ bank_total b' ≡₆₄ bank_total b - bc_Balance acc b ∧
    ∀ other, other ≠ acc → bc_Balance other b' = bc_Balance other b;
  deposit_ok env acc c b bal b' : bc_Deposit env acc c b = (Ok bal, b') →
    bal = bc_Balance acc b' ∧ bc_Balance acc b' ≡₆₄ bc_Balance acc b + worth c ∧
    bank_total b' ≡₆₄ bank_total b + worth c ∧
    ∀ other, other ≠ acc → bc_Balance other b' = bc_Balance other b;
  exchange_funds env c req b acc : let b' := (bc_Exchange env c req b).2 in
    bc_Balance acc b' = bc_Balance acc b ∧ bank_total b' = bank_total b;
}.

(** ** The service the credits come from ([source.go]) *)

Class SourceService := {
  source : Type;
  source_env : Type;
  svc_Withdraw : source_env → list byte → Currency.Value → source → result err BlindedCredit * source;
  svc_Deposit : source_env → list byte → list BlindedCredit → source → result err unit * source;
}.

Inductive creditOrigin := sourceOrigin | blindbankOrigin | userOrigin.
#[global] Instance creditOrigin_eq_dec : EqDecision creditOrigin.
Proof. solve_decision. Defined.

Record Withdrawal := MkWithdrawal {
  full : bool;
  Credits : Z;
  Amount : Currency.Value;
  Optimistic : bool;
}.
#[global] Instance Withdrawal_eq_dec : EqDecision Withdrawal.
Proof. solve_decision. Defined.

Definition FullWithdrawal : Withdrawal := MkWithdrawal true 0 Currency.Zero false.

(** [WithdrawalError] unwraps to its cause. *)
Definition WithdrawalError (w : Withdrawal) (e : err) : err := Wrapped "withdrawal failed" e.

Section transfer.
Context {B : BlindRSA} {BC : BlindBankContract} {SS : SourceService}.

(** What an operation sees of the outside world: the draws and clocks for the
    credits it makes, what the services see and whether a delay is interrupted. *)
Record OpEnv := MkOpEnv {
  oe_draw : nat → Draw;
  oe_now : nat → Z;
  oe_bank : nat → bank_env;
  oe_source : source_env;
  oe_delay : option err;
}.

(** ** [blindbank.go] *)

(** The loops that begin the credits and that finalise them; [i] counts. *)
Fixpoint begin_credits (env : OpEnv) (n i : nat) (amount : Currency.Value) : result err (list BlindSignState) :=
  match n with
  | 0%nat => Ok []
  | S n =>
      s ← wrap_err (Wrapped "failed to prepare new credit") (BeginBlindedCredit amount (oe_draw env i));
      ss ← begin_credits env n (S i) amount;
      Ok (s :: ss)
  end.

Fixpoint finalize_credits (env : OpEnv) (i : nat) (state : list BlindSignState) (blindSignatures : list (list byte)) :
    result err (list BlindedCredit) :=
  match state, blindSignatures with
  | s :: state, sig :: blindSignatures =>
      c ← wrap_err (Wrapped "failed to finalize credit") (Finalize (oe_now env i) s sig).1.1;
      cs ← finalize_credits env (S i) state blindSignatures;
      Ok (c :: cs)
  | _, _ => Ok []
  end.

Definition BlindBank_WithdrawBatch (env : OpEnv) (account : AccountToken) (credits : Z)
    (amount : Currency.Value) (b : bank) : result err (Z * list BlindedCredit) * bank :=
  if credits <=? 0 then (Err (ErrNew "cant' withdraw < 1 credits"), b)
  else
    match begin_credits env (Z.to_nat credits) 0 amount with
    | Err e => (Err e, b)
    | Ok state =>
        let '(r, b) := bc_WithdrawBatch account (Request <$> state) b in
        match r with
        | Err e => (Err (Wrapped "failed to withdraw batch" e), b)
        | Ok (newBalance, blindSignatures) =>
            if negb (length blindSignatures =? length state)%nat then
              (Err (ErrNew "bank returned an invalid amount of blind signatures"), b)
            else (cs ← finalize_credits env 0 state blindSignatures; Ok (newBalance, cs), b)
        end
    end.

(** The loop of [Deposit]: the balance after the last credit, or the error of the
    first that fails.  Credits deposited before it stay deposited. *)
Fixpoint deposit_loop (env : OpEnv) (i : nat) (account : AccountToken) (credits : list BlindedCredit)
    (lastBalance : Z) (b : bank) : result err Z * bank :=
  match credits with
  | [] => (Ok lastBalance, b)
  | cred :: credits =>
      let '(r, b) := bc_Deposit (oe_bank env i) account cred b in
      match r with
      | Err e => (Err e, b)
      | Ok lastBalance => deposit_loop env (S i) account credits lastBalance b
      end
  end.

Definition BlindBank_Deposit (env : OpEnv) (account : AccountToken) (credits : list BlindedCredit) (b : bank) :
    result err Z * bank :=
  match credits with
  | [] => (Err (ErrNew "can't deposit 0 credits"), b)
  | _ => deposit_loop env 0 account credits 0 b
  end.

Definition BlindBank_Exchange (env : OpEnv) (i : nat) (credit : AnyCredit) (b : bank) :
    result err BlindedCredit * bank :=
  match wrap_err (Wrapped "failed to prepare new credit") (BeginBlindedCredit (credit_Value credit) (oe_draw env i)) with
  | Err e => (Err e, b)
  | Ok s =>
      let '(r, b) := bc_Exchange (oe_bank env i) credit (Request s) b in
      (blindSignature ← wrap_err (Wrapped "failed to exchange credit") r;
       wrap_err (Wrapped "failed to finalize credit") (Finalize (oe_now env i) s blindSignature).1.1, b)
  end.

Record Account := MkAccount { acc_token : AccountToken; acc_balance : Z; acc_delay : Z }.

Definition EmptyBankAccount (fill : option (list byte)) (maxDelay : Z) : result err Account :=
  token ← wrap_err (Wrapped "failed to generate account token") (GenerateAccountTokenFrom fill);
  Ok (MkAccount token 0 maxDelay).

Definition RestoreBankAccount (account : AccountToken) (balance maxDelay : Z) : result err Account :=
  if balance <? 0 then Err (ErrNew "negative balance") else Ok (MkAccount account balance maxDelay).

(** [delay.UpTo]: no delay returns at once, otherwise the context may be
    cancelled while it waits; drawing from an empty range panics ([None]). *)
Definition UpTo (maxDelay : Z) (outcome : option err) : option (option err) :=
  if maxDelay =? 0 then Some None else if maxDelay <? 0 then None else Some outcome.

Definition Account_withdraw (env : OpEnv) (w : Withdrawal) (a : Account) (b : bank) :
    option (result err (list BlindedCredit * Z) * Account * bank) :=
  if decide (w = FullWithdrawal) then
    let '(r, b) := bc_WithdrawFullUnblinded (oe_bank env 0) (acc_token a) b in
    match r with
    | Err e => Some (Err (Wrapped "failed to withdraw full account" e), a, b)
    | Ok unblindedCredit =>
        delayed ← UpTo (acc_delay a) (oe_delay env);
        match delayed with
        | Some e => Some (Err (Wrapped "failed to delay exchange operation" e), a, b)
        | None =>
            let '(r, b) := BlindBank_Exchange env 1 (Unblinded unblindedCredit) b in
            match r with
            | Err e => Some (Err (Wrapped "failed to exchange unblinded withdrawal" e), a, b)
            | Ok credit =>
                let roundingGain := (Currency.AmountOrZero (b_value credit) - acc_balance a)%i64 in
                Some (Ok ([credit], roundingGain), MkAccount (acc_token a) 0 (acc_delay a), b)
            end
        end
    end
  else
    let expectNewBalance := wrap_s 64 (acc_balance a - wrap_s 64 (Credits w * Currency.AmountOrZero (Amount w))) in
    if expectNewBalance <? 0 then
      Some (Err (WithdrawalError w (InsufficientBalanceError (acc_balance a))), a, b)
    else
      let '(r, b) := BlindBank_WithdrawBatch env (acc_token a) (Credits w) (Amount w) b in
      match r with
      | Err e => Some (Err e, a, b)
      | Ok (newBalance, credits) =>
          Some (Ok (credits, 0), MkAccount (acc_token a) newBalance (acc_delay a), b)
      end.

Definition Account_deposit (env : OpEnv) (credits : list BlindedCredit) (a : Account) (b : bank) :
    result err unit * Account * bank :=
  let '(r, b) := BlindBank_Deposit env (acc_token a) credits b in
  match r with
  | Err e => (Err e, a, b)
  | Ok newBalance => (Ok tt, MkAccount (acc_token a) newBalance (acc_delay a), b)
  end.

(** ** [local.go] *)

Record creditStack := MkStack {
  depositTransferID : list byte;
  maxCredits : Z;
  credits : list BlindedCredit;
  creditAmount : Currency.Value;
}.
Definition newCreditStack (maxCredits : Z) : creditStack := MkStack [] maxCredits [] (Currency.MkValue false 0).
Definition EmptyBankBatch : creditStack := newCreditStack 0.
Definition NumCredits (s : creditStack) : Z := Z.of_nat (length (credits s)).
Definition stack_Balance (s : creditStack) : Z :=
  (NumCredits s * Currency.AmountOrZero (creditAmount s))%i64.

(** The time until the oldest credit expires, at time [now]. *)
Definition ExpiresIn (now : Z) (s : creditStack) : Z :=
  let lowestTimestamp :=
    match credits s with
    | [] => 0
    | c :: cs => foldl (λ lo c, Z.min lo (Nonce.Timestamp (b_nonce c))) (Nonce.Timestamp (b_nonce c)) cs
    end in
  lowestTimestamp * second - now + second * Nonce.NonceLifespanSeconds.

Definition canWithdrawNoLock (w : Withdrawal) (s : creditStack) : bool :=
  if NumCredits s =? 0 then false
  else if decide (w = FullWithdrawal) then true
  else if negb (bool_decide (creditAmount s = Amount w)) then false
  else negb (NumCredits s <? Credits w).

Definition stack_deposit (transferID : list byte) (cs : list BlindedCredit) (s : creditStack) :
    result err unit * creditStack :=
  if negb (length (depositTransferID s) =? 0)%nat then (Err (ErrNew "credit stack can't receive a second deposit"), s)
  else
    match cs with
    | [] => (Err (ErrNew "credit stack can't receive empty deposits"), s)
    | c :: _ =>
        if negb (maxCredits s =? 0) && (maxCredits s <? Z.of_nat (length cs)) then
          (Err (ErrNew "received deposit of too many credits"), s)
        else (Ok tt, MkStack transferID (maxCredits s) cs (b_value c))
    end.

(** Slicing with a negative number of credits panics. *)
Definition stack_withdraw (w : Withdrawal) (s : creditStack) :
    option (result err (list BlindedCredit * Z) * creditStack) :=
  if negb (canWithdrawNoLock w s) then
    Some (Err (WithdrawalError w (CreditsNotAvailableError (NumCredits s) (creditAmount s))), s)
  else
    let i := if decide (w = FullWithdrawal) then NumCredits s else Credits w in
    if i <? 0 then None
    else
      Some (Ok (take (Z.to_nat i) (credits s), 0),
            MkStack (depositTransferID s) (maxCredits s) (drop (Z.to_nat i) (credits s)) (creditAmount s)).

(** ** [wallet.go] *)

(** The response channel is the list of responses sent on it. *)
Record PaymentResponse := MkResponse { resp_Credit : option BlindedCredit; resp_Err : option err }.
Record PaymentRequest := MkPaymentRequest {
  desiredAmount : Currency.Value;
  pr_stack : creditStack;
  pr_responses : list PaymentResponse;
}.
Definition NewPaymentRequest (desired : Currency.Value) : PaymentRequest :=
  MkPaymentRequest desired (newCreditStack 1) [].

Definition request_deposit (transferID : list byte) (creds : list BlindedCredit) (r : PaymentRequest) :
    result err unit * PaymentRequest :=
  let '(res, st) := stack_deposit transferID creds (pr_stack r) in
  let resp := MkResponse (head creds) (match res with Err e => Some e | Ok _ => None end) in
  (res, MkPaymentRequest (desiredAmount r) st (pr_responses r ++ [resp])).

(** [PaymentRequestError] unwraps to its cause; [Fail] sends without blocking,
    [listening] says whether someone receives. *)
Definition Fail (listening : bool) (e : err) (r : PaymentRequest) : PaymentRequest :=
  if listening then
    MkPaymentRequest (desiredAmount r) (pr_stack r)
      (pr_responses r ++ [MkResponse None (Some (Wrapped "payment request failed" e))])
  else r.

Record PaymentResult := MkPaymentResult {
  unspend : AnyCredit;
  exchanged : option BlindedCredit;
  res_delay : Z;
}.
Definition NewPaymentResult (credit : option AnyCredit) (maxDelay : Z) : result err PaymentResult :=
  match credit with
  | None => Err (ErrNew "can't create payment result with a nil credit")
  | Some credit =>
      _ ← wrap_err (Wrapped "not a regular credit") (currency_err (Currency.Amount (credit_Value credit)));
      Ok (MkPaymentResult credit None maxDelay)
  end.
Definition result_Balance (d : PaymentResult) : Z := Currency.AmountOrZero (credit_Value (unspend d)).

Definition result_withdraw (env : OpEnv) (w : Withdrawal) (d : PaymentResult) (b : bank) :
    result err (list BlindedCredit * Z) * PaymentResult * bank :=
  if negb (bool_decide (w = FullWithdrawal)) &&
     (negb (Credits w =? 1) || negb (Currency.AmountOrZero (Amount w) =? result_Balance d))
  then (Err (WithdrawalError w (CreditsNotAvailableError 0 (credit_Value (unspend d)))), d, b)
  else
    match exchanged d with
    | Some _ => (Err (WithdrawalError w (ErrNew "payment result already withdrawn")), d, b)
    | None =>
        let '(r, b) := BlindBank_Exchange env 0 (unspend d) b in
        match r with
        | Err e => (Err (Wrapped "failed to exchange credit" e), d, b)
        | Ok exchanged => (Ok ([exchanged], 0), MkPaymentResult (unspend d) (Some exchanged) (res_delay d), b)
        end
    end.

(** ** [source.go] *)

Definition Source_withdraw (env : OpEnv) (id : list byte) (w : Withdrawal) (s : source) :
    result err (list BlindedCredit * Z) * source :=
  if decide (w = FullWithdrawal) then (Err (ErrNew "can't do a full withdrawal from source"), s)
  else if negb (Credits w =? 1) then (Err (ErrNew "can only withdraw a single credit from source"), s)
  else
    let '(r, s) := svc_Withdraw (oe_source env) id (Amount w) s in
    (credit ← wrap_err (Wrapped "failed to withdraw from source service") r; Ok ([credit], 0), s).

(** ** [transfer.go] *)

(** The objects of the wallet and the services behind them. *)
Record World := MkWorld {
  w_bank : bank;
  w_source : source;
  w_accounts : gmap nat Account;
  w_batches : gmap nat creditStack;
  w_requests : gmap nat PaymentRequest;
  w_results : gmap nat PaymentResult;
}.

Inductive Withdrawable := FromAccount (p : nat) | FromBatch (p : nat) | FromResult (p : nat) | FromSource (delay : Z).
Inductive Depositable := ToAccount (p : nat) | ToBatch (p : nat) | ToRequest (p : nat) | ToSource (delay : Z).

Definition origin (f : Withdrawable) : creditOrigin :=
  match f with FromSource _ => sourceOrigin | _ => blindbankOrigin end.
Definition allowedOrigins (t : Depositable) : list creditOrigin :=
  match t with
  | ToAccount _ => [sourceOrigin; blindbankOrigin; userOrigin]
  | ToBatch _ | ToRequest _ => [blindbankOrigin]
  | ToSource _ => [sourceOrigin; blindbankOrigin]
  end.

(** Following a pointer that is not in the store is a nil dereference. *)
Definition from_maxDelay (f : Withdrawable) (W : World) : option Z :=
  match f with
  | FromAccount p => acc_delay <$> w_accounts W !! p
  | FromBatch _ => Some 0
  | FromResult p => res_delay <$> w_results W !! p
  | FromSource delay => Some delay
  end.
Definition to_maxDelay (t : Depositable) (W : World) : option Z :=
  match t with
  | ToAccount p => acc_delay <$> w_accounts W !! p
  | ToBatch _ | ToRequest _ => Some 0
  | ToSource delay => Some delay
  end.

Definition withdraw (env : OpEnv) (id : list byte) (w : Withdrawal) (f : Withdrawable) (W : World) :
    option (result err (list BlindedCredit * Z) * World) :=
  let '(MkWorld b s accs batches reqs ress) := W in
  match f with
  | FromAccount p =>
      a ← accs !! p;
      '(r, a, b) ← Account_withdraw env w a b;
      Some (r, MkWorld b s (<[p := a]> accs) batches reqs ress)
  | FromBatch p =>
      st ← batches !! p;
      '(r, st) ← stack_withdraw w st;
      Some (r, MkWorld b s accs (<[p := st]> batches) reqs ress)
  | FromResult p =>
      d ← ress !! p;
      let '(r, d, b) := result_withdraw env w d b in
      Some (r, MkWorld b s accs batches reqs (<[p := d]> ress))
  | FromSource _ =>
      let '(r, s) := Source_withdraw env id w s in
      Some (r, MkWorld b s accs batches reqs ress)
  end.

Definition deposit (env : OpEnv) (id : list byte) (creds : list BlindedCredit) (t : Depositable) (W : World) :
    option (result err unit * World) :=
  let '(MkWorld b s accs batches reqs ress) := W in
  match t with
  | ToAccount p =>
      a ← accs !! p;
      let '(r, a, b) := Account_deposit env creds a b in
      Some (r, MkWorld b s (<[p := a]> accs) batches reqs ress)
  | ToBatch p =>
      st ← batches !! p;
      let '(r, st) := stack_deposit id creds st in
      Some (r, MkWorld b s accs (<[p := st]> batches) reqs ress)
  | ToRequest p =>
      q ← reqs !! p;
      let '(r, q) := request_deposit id creds q in
      Some (r, MkWorld b s accs batches (<[p := q]> reqs) ress)
  | ToSource _ =>
      let '(r, s) := svc_Deposit (oe_source env) id creds s in
      Some (r, MkWorld b s accs batches reqs ress)
  end.

Record Intent := MkIntent { i_Withdrawal : Withdrawal; From : Withdrawable; To : Depositable }.

Definition IsExpectedError (i : Intent) (e : err) : bool :=
  Optimistic (i_Withdrawal i) && (as_CreditsNotAvailableError e || as_InsufficientBalanceError e).

Record Transfer := MkTransfer {
  t_id : list byte;
  t_intent : Intent;
  roundingGain : Z;
  t_amounts : list Currency.Value;
}.

(** An intent logger, by the errors its calls return. *)
Record IntentLogger := MkLogger {
  LogIntent : list byte → Intent → option err;
  LogWithdrawOK : Z → list BlindedCredit → option err;
  LogFinishErrorOK : err → option err;
  LogFinishDepositOK : option err;
  LogFinishUnexpectedError : err → option err;
}.
Definition NoopLogger : IntentLogger :=
  MkLogger (λ _ _, None) (λ _ _, None) (λ _, None) None (λ _, None).

Definition GenerateID (fill : option (list byte)) : result err (list byte) :=
  match fill with
  | Some b => if (length b =? 32)%nat then Ok b else Err (ErrNew "failed to generate id")
  | None => Err (ErrNew "failed to generate id")
  end.

(** The loop over the withdrawn credits: two neighbours of different amounts. *)
Fixpoint mixed_amounts (withdrew : list BlindedCredit) : bool :=
  match withdrew with
  | c :: ((d :: _) as rest) => negb (worth c =? worth d) || mixed_amounts rest
  | _ => false
  end.

Record ProcessEnv := MkProcessEnv {
  pe_id : option (list byte);
  pe_delay1 : option err;
  pe_delay2 : option err;
  pe_withdraw : OpEnv;
  pe_deposit : OpEnv;
}.

Definition unexpected {A} (logger : IntentLogger) (e : err) : result err A :=
  Err (match LogFinishUnexpectedError logger e with Some le => Joined e le | None => e end).

(** The second half of [Process], once the credits are withdrawn. *)
Definition process_deposit (env : ProcessEnv) (logger : IntentLogger) (intent : Intent) (id : list byte)
    (withdrew : list BlindedCredit) (gain : Z) (W : World) : option (result err Transfer * World) :=
  if mixed_amounts withdrew then
    Some (unexpected logger (ErrNew "multiple withdrawn credits are expected to have the same value"), W)
  else
    match LogWithdrawOK logger gain withdrew with
    | Some e => Some (Err (Wrapped "failed to log withdrawal" e), W)
    | None =>
        d1 ← from_maxDelay (From intent) W;
        d2 ← to_maxDelay (To intent) W;
        delayed ← UpTo (Z.max d1 d2) (pe_delay2 env);
        match delayed with
        | Some e => Some (wrap_err (Wrapped "failed to delay after withdraw") (unexpected logger e), W)
        | None =>
            '(r, W) ← deposit (pe_deposit env) id withdrew (To intent) W;
            match r with
            | Err e => Some (wrap_err (Wrapped "failed to withdraw") (unexpected logger e), W)
            | Ok _ =>
                match LogFinishDepositOK logger with
                | Some e => Some (Err (Wrapped "failed to log deposit" e), W)
                | None => Some (Ok (MkTransfer id intent gain (b_value <$> withdrew)), W)
                end
            end
        end
    end.

Definition Process (env : ProcessEnv) (logger : IntentLogger) (intent : Intent) (W : World) :
    option (result err Transfer * World) :=
  if negb (bool_decide (origin (From intent) ∈ allowedOrigins (To intent))) then
    Some (Err (ErrNew "not an allowed origin for deposit target"), W)
  else
    match GenerateID (pe_id env) with
    | Err e => Some (Err e, W)
    | Ok id =>
        d ← from_maxDelay (From intent) W;
        delayed ← UpTo d (pe_delay1 env);
        match delayed with
        | Some e => Some (Err (Wrapped "failed to delay before withdraw" e), W)
        | None =>
            match LogIntent logger id intent with
            | Some e => Some (Err (Wrapped "failed to log intent" e), W)
            | None =>
                '(r, W) ← withdraw (pe_withdraw env) id (i_Withdrawal intent) (From intent) W;
                match r with
                | Err e =>
                    if IsExpectedError intent e then
                      Some (match LogFinishErrorOK logger e with Some le => Err le | None => Err e end, W)
                    else Some (unexpected logger (Wrapped "failed to withdraw" e), W)
                | Ok (withdrew, gain) => process_deposit env logger intent id withdrew gain W
                end
            end
        end
    end.
End transfer.

(** ** Funds *)

Section funds.
Context {B : BlindRSA} {BC : BlindBankContract} {BS : BlindBankSpec BC} {SS : SourceService}.

Lemma total_worth_cons c cs : total_worth (c :: cs) = worth c + total_worth cs.
Proof. done. Qed.

Lemma total_worth_replicate cs v :
  Forall (λ c, b_value c = v) cs → total_worth cs = Z.of_nat (length cs) * Currency.AmountOrZero v.
Proof.
  induction 1 as [|c cs Hc Hcs IH]; [done|].
  rewrite total_worth_cons, IH. unfold worth. rewrite Hc. simpl length. lia.
Qed.

Lemma begin_credits_ok env n i amount ss :
  begin_credits env n i amount = Ok ss → length ss = n ∧ Forall (λ s, bss_value s = amount) ss.
Proof.
  revert i ss. induction n as [|n IH]; intros i ss H; cbn [begin_credits] in H.
  { simplify_eq. auto. }
  apply result_bind_ok in H as (s & Hs%wrap_err_ok & H).
  apply result_bind_ok in H as (ss' & [Hl Hf]%IH & [= <-]).
  unfold BeginBlindedCredit in Hs. apply result_bind_ok in Hs as ([bm st] & _ & [= <-]).
  simpl. split; [by rewrite Hl|by constructor].
Qed.

Lemma Finalize_value now s sig c : (Finalize now s sig).1.1 = Ok c → b_value c = bss_value s.
Proof.
  unfold Finalize. destruct (finalize now (bss_state s) sig) as [[r st] t]. cbn [fst].
  by intros ([n sg] & _ & [= <-])%result_bind_ok.
Qed.

Lemma finalize_credits_ok env i state sigs cs amount :
  finalize_credits env i state sigs = Ok cs → length sigs = length state →
  Forall (λ s, bss_value s = amount) state →
  length cs = length state ∧ Forall (λ c, b_value c = amount) cs.
Proof.
  intros H Hl Hv. revert i sigs cs H Hl.
  induction Hv as [|s state Hs Hv IH]; intros i [|sig sigs] cs H Hl; cbn [finalize_credits] in H;
    try discriminate Hl; [by simplify_eq|].
  apply result_bind_ok in H as (c & Hc%wrap_err_ok%Finalize_value & H).
  apply result_bind_ok in H as (cs' & Hcs & [= <-]).
  apply IH in Hcs as [Hlen Hall]; [|by injection Hl]. simpl. rewrite Hlen.
  split; [done|constructor; congruence].
Qed.

Lemma requested_replicate ss amount :
  Forall (λ s, bss_value s = amount) ss →
  requested (Request <$> ss) = Z.of_nat (length ss) * Currency.AmountOrZero amount.
Proof.
  induction 1 as [|s ss Hs Hss IH]; [done|].
  change (requested (Request <$> s :: ss)) with
    (Currency.AmountOrZero (bss_value s) + requested (Request <$> ss)).
  rewrite IH, Hs. simpl length. lia.
Qed.

(** Withdrawing a batch: the credits are worth what leaves the account. *)
Lemma BlindBank_WithdrawBatch_ok env acc n amount b bal cs b' :
  BlindBank_WithdrawBatch env acc n amount b = (Ok (bal, cs), b') →
  bal = bc_Balance acc b' ∧ bank_total b' ≡₆₄ bank_total b - total_worth cs ∧
  bc_Balance acc b' ≡₆₄ bc_Balance acc b - total_worth cs ∧
  (∀ other, other ≠ acc → bc_Balance other b' = bc_Balance other b) ∧
  Z.of_nat (length cs) = n ∧ Forall (λ c, b_value c = amount) cs.
Proof.
  unfold BlindBank_WithdrawBatch. destruct (Z.leb_spec n 0); [done|].
  destruct (begin_credits _ _ _ _) as [state|] eqn:Es; [|done].
  destruct (bc_WithdrawBatch _ _ _) as [[[nb sigs]|] b1] eqn:Ew; [|done].
  destruct (length sigs =? length state)%nat eqn:El; [|done]. apply Nat.eqb_eq in El. cbn [negb].
  intros [= Hf <-]. apply result_bind_ok in Hf as (cs' & Hf & [= <- <-]).
  apply begin_credits_ok in Es as [Hl Hv].
  apply (finalize_credits_ok _ _ _ _ _ amount) in Hf as [Hlen Hall]; [|done..].
  apply withdraw_batch_ok in Ew as (Hb & Hacc & Htot & Hother).
  rewrite (requested_replicate _ amount) in Hacc, Htot by done.
  rewrite (total_worth_replicate _ amount), Hlen by done. split_and!; try done. rewrite Hl. lia.
Qed.

Lemma BlindBank_Exchange_funds env i c b acc :
  let b' := (BlindBank_Exchange env i c b).2 in
  bc_Balance acc b' = bc_Balance acc b ∧ bank_total b' = bank_total b.
Proof.
  unfold BlindBank_Exchange. destruct (wrap_err _ _) as [s|]; [|done].
  pose proof (exchange_funds (oe_bank env i) c (Request s) b acc) as H.
  by destruct (bc_Exchange _ _ _ _) as [r b1].
Qed.

Lemma BlindBank_Exchange_ok env i c b c' b' :
  BlindBank_Exchange env i c b = (Ok c', b') → b_value c' = credit_Value c.
Proof.
  unfold BlindBank_Exchange. destruct (wrap_err _ _) as [s|] eqn:Es; [|done].
  apply wrap_err_ok in Es. unfold BeginBlindedCredit in Es.
  apply result_bind_ok in Es as ([bm st] & _ & [= <-]).
  destruct (bc_Exchange _ _ _ _) as [r b1].
  intros [= H _]. apply result_bind_ok in H as (sig & _ & H%wrap_err_ok). by apply Finalize_value in H.
Qed.

Lemma deposit_loop_ok env i acc cs last b bal b' :
  deposit_loop env i acc cs last b = (Ok bal, b') →
  (cs ≠ [] → bal = bc_Balance acc b') ∧
  bank_total b' ≡₆₄ bank_total b + total_worth cs ∧
  ∀ other, other ≠ acc → bc_Balance other b' = bc_Balance other b.
Proof.
  revert i last b. induction cs as [|c cs IH]; intros i last b H; cbn [deposit_loop] in H.
  { simplify_eq. split_and!; [done| |done]. unfold total_worth. simpl. by rewrite Z.add_0_r. }
  destruct (bc_Deposit _ _ _ _) as [[l|] b1] eqn:E; [|done].
  apply deposit_ok in E as (Hl & _ & Ht & Ho). pose proof H as H'. apply IH in H' as (Hb & Ht' & Ho').
  split_and!.
  - intros _. destruct cs as [|c' cs]; [cbn [deposit_loop] in H; congruence|by apply Hb].
  - rewrite Ht', Ht, total_worth_cons. unfold eqm64. f_equal. lia.
  - intros o Hne. by rewrite Ho', Ho.
Qed.

(** What the wallet and its bank hold together: the balances, the credits in
    batches and requests, and the unspent credits not exchanged yet. *)
Definition stack_worth (s : creditStack) : Z := total_worth (credits s).
Definition result_worth (d : PaymentResult) : Z :=
  match exchanged d with None => result_Balance d | Some _ => 0 end.
Definition held (W : World) : Z :=
  bank_total (w_bank W) + map_sum stack_worth (w_batches W)
  + map_sum (λ q, stack_worth (pr_stack q)) (w_requests W) + map_sum result_worth (w_results W).

(** The local balance of an account is the bank's, accounts have tokens of their
    own, and a stack without a deposit is empty. *)
Definition stack_ok (s : creditStack) : Prop := depositTransferID s = [] → credits s = [].
Record world_ok (W : World) : Prop := {
  ok_mirror p a : w_accounts W !! p = Some a → acc_balance a = bc_Balance (acc_token a) (w_bank W);
  ok_tokens p q a a' : w_accounts W !! p = Some a → w_accounts W !! q = Some a' →
    acc_token a = acc_token a' → p = q;
  ok_batches p s : w_batches W !! p = Some s → stack_ok s;
  ok_requests p q : w_requests W !! p = Some q → stack_ok (pr_stack q);
}.

Lemma account_changed b b' s accs batches reqs ress p a a' :
  world_ok (MkWorld b s accs batches reqs ress) → accs !! p = Some a →
  acc_token a' = acc_token a → acc_balance a' = bc_Balance (acc_token a) b' →
  (∀ other, other ≠ acc_token a → bc_Balance other b' = bc_Balance other b) →
  world_ok (MkWorld b' s (<[p := a']> accs) batches reqs ress).
Proof.
  intros [Hm Ht Hb Hr] Ha Htok Hbal Ho. simpl in *.
  assert (∀ q x, <[p := a']> accs !! q = Some x →
    ∃ y, accs !! q = Some y ∧ acc_token x = acc_token y) as Hold.
  { intros q x [[-> <-]|[? Hq]]%lookup_insert_Some; [by exists a|by exists x]. }
  split; simpl; [| |exact Hb|exact Hr].
  - intros q x Hq. destruct (decide (p = q)) as [->|Hne].
    + rewrite lookup_insert_eq in Hq. simplify_eq. by rewrite Htok.
    + rewrite lookup_insert_ne in Hq by done. rewrite Ho; [by eapply Hm|].
      intros E. by apply Hne, (Ht p q a x).
  - intros q r x y Hq Hr' E. apply Hold in Hq as (x' & Hx & Ex). apply Hold in Hr' as (y' & Hy & Ey).
    eapply Ht; [done..|congruence].
Qed.

Lemma bank_changed b b' s accs batches reqs ress batches' reqs' ress' s' :
  world_ok (MkWorld b s accs batches reqs ress) →
  (∀ acc, bc_Balance acc b' = bc_Balance acc b) →
  map_Forall (λ _, stack_ok) batches' → map_Forall (λ _ q, stack_ok (pr_stack q)) reqs' →
  world_ok (MkWorld b' s' accs batches' reqs' ress').
Proof.
  intros [Hm Ht Hb Hr] Ho Hb' Hr'. split; simpl in *; [|done|done|done].
  intros p a Ha. rewrite Ho. eauto.
Qed.

Lemma Account_withdraw_ok env w a b cs gain a' b' :
  acc_balance a = bc_Balance (acc_token a) b →
  Account_withdraw env w a b = Some (Ok (cs, gain), a', b') →
  acc_token a' = acc_token a ∧ acc_balance a' = bc_Balance (acc_token a) b' ∧
  (∀ other, other ≠ acc_token a → bc_Balance other b' = bc_Balance other b) ∧
  bank_total b' ≡₆₄ bank_total b + gain - total_worth cs.
Proof.
  unfold Account_withdraw. intros Hm. destruct (decide (w = FullWithdrawal)) as [_|_].
  - destruct (bc_WithdrawFullUnblinded _ _ _) as [[u|] b1] eqn:Ew; [|done].
    destruct (UpTo _ _) as [[|]|]; [done| |done]. cbn [mbind option_bind].
    pose proof (BlindBank_Exchange_funds env 1 (Unblinded u) b1) as Hf.
    destruct (BlindBank_Exchange _ _ _ _) as [[c|] b2] eqn:Ex; [|done]. intros [= <- <- <- <-].
    apply withdraw_full_ok in Ew as (H0 & Ht & Ho). simpl in Hf |- *. split_and!; [done| | |].
    + by rewrite (proj1 (Hf _)).
    + intros other Hne. by rewrite (proj1 (Hf _)), Ho.
    + rewrite (proj2 (Hf (acc_token a))), Ht, wrap_s64_eqm, Hm.
      unfold total_worth, worth. cbn. unfold eqm64. f_equal. lia.
  - destruct (_ <? 0); [done|].
    destruct (BlindBank_WithdrawBatch _ _ _ _ _) as [[[nb cs']|] b1] eqn:Ew; [|done]. intros [= <- <- <- <-].
    apply BlindBank_WithdrawBatch_ok in Ew as (Hb & Ht & _ & Ho & _). split_and!; try done.
    rewrite Ht. unfold eqm64. f_equal. lia.
Qed.

Lemma stack_withdraw_ok w st cs gain st' :
  stack_ok st → stack_withdraw w st = Some (Ok (cs, gain), st') →
  stack_ok st' ∧ gain = 0 ∧ stack_worth st = total_worth cs + stack_worth st'.
Proof.
  unfold stack_withdraw. intros Hok. destruct (canWithdrawNoLock w st); [|done]. cbn [negb].
  destruct (_ <? 0); [done|]. intros [= <- <- <-]. split_and!; [|done|].
  - intros H. simpl. by rewrite (Hok H), drop_nil.
  - unfold stack_worth, total_worth. cbn [credits]. rewrite <- sum_Z_app, <- fmap_app. by rewrite take_drop.
Qed.

Lemma stack_deposit_ok id cs st st' :
  id ≠ [] → stack_ok st → stack_deposit id cs st = (Ok tt, st') →
  stack_ok st' ∧ stack_worth st = 0 ∧ stack_worth st' = total_worth cs.
Proof.
  unfold stack_deposit. intros Hid Hok. destruct (depositTransferID st) eqn:E; [|done]. cbn.
  destruct cs as [|c cs]; [done|]. destruct (_ && _); [done|]. intros [= <-].
  split_and!; [by intros ?| |done]. unfold stack_worth. by rewrite Hok.
Qed.

Lemma result_withdraw_ok env w d b cs gain d' b' :
  result_withdraw env w d b = (Ok (cs, gain), d', b') →
  gain = 0 ∧ result_worth d = total_worth cs + result_worth d' ∧
  ∀ acc, bc_Balance acc b' = bc_Balance acc b ∧ bank_total b' = bank_total b.
Proof.
  unfold result_withdraw. destruct (_ && _); [done|]. destruct (exchanged d) eqn:Ed; [done|].
  pose proof (BlindBank_Exchange_funds env 0 (unspend d) b) as Hf.
  destruct (BlindBank_Exchange _ _ _ _) as [[c|] b1] eqn:Ex; [|done]. intros [= <- <- <- <-].
  apply BlindBank_Exchange_ok in Ex. split_and!; [done| |exact Hf].
  unfold result_worth, total_worth, worth. rewrite Ed. cbn [exchanged fmap list_fmap sum_Z foldr].
  rewrite Ex. unfold result_Balance. lia.
Qed.

Lemma map_sum_replace {A} (f : A → Z) (m : gmap nat A) p x y :
  m !! p = Some x → map_sum f (<[p := y]> m) = map_sum f m - f x + f y.
Proof. intros H. rewrite map_sum_insert, H. simpl. lia. Qed.

(** Credits that come from, or go to, the source. *)
Definition inflow (f : Withdrawable) (cs : list BlindedCredit) : Z :=
  match f with FromSource _ => total_worth cs | _ => 0 end.
Definition outflow (t : Depositable) (cs : list BlindedCredit) : Z :=
  match t with ToSource _ => total_worth cs | _ => 0 end.

Lemma withdraw_ok env id w f W cs gain W' :
  world_ok W → withdraw env id w f W = Some (Ok (cs, gain), W') →
  world_ok W' ∧ held W' ≡₆₄ held W + inflow f cs + gain - total_worth cs.
Proof.
  intros HW. destruct W as [b s accs batches reqs ress]. unfold withdraw.
  destruct f as [p|p|p|d]; unfold inflow.
  - destruct (accs !! p) as [a|] eqn:Ha; [|done]. cbn [mbind option_bind].
    destruct (Account_withdraw env w a b) as [[[r a'] b']|] eqn:E; [|done]. intros [= -> <-].
    apply Account_withdraw_ok in E as (Ht & Hm & Ho & Htot); [|by apply (ok_mirror _ HW p)].
    split; [by eapply account_changed|]. unfold held. simpl. rewrite Htot. unfold eqm64. f_equal. lia.
  - destruct (batches !! p) as [st|] eqn:Hst; [|done]. cbn [mbind option_bind].
    destruct (stack_withdraw w st) as [[r st']|] eqn:E; [|done]. intros [= -> <-].
    apply stack_withdraw_ok in E as (Hok & -> & Hw); [|by apply (ok_batches _ HW p)].
    split; [eapply bank_changed; [done..| |intros q x; apply (ok_requests _ HW)]|].
    { apply map_Forall_insert_2; [done|]. intros q x. apply (ok_batches _ HW). }
    unfold held. simpl. rewrite (map_sum_replace _ _ _ st) by done. unfold eqm64. f_equal. lia.
  - destruct (ress !! p) as [d|] eqn:Hd; [|done]. cbn [mbind option_bind].
    destruct (result_withdraw env w d b) as [[r d'] b'] eqn:E. intros [= -> <-].
    apply result_withdraw_ok in E as (-> & Hw & Hf). split.
    { eapply bank_changed; [done|intros; apply Hf|intros q x; apply (ok_batches _ HW)
        |intros q x; apply (ok_requests _ HW)]. }
    assert (bank_total b' = bank_total b) as Hb by apply (Hf (MkAccountToken [])).
    unfold held. simpl. rewrite (map_sum_replace _ _ _ d), Hb by done. unfold eqm64. f_equal. lia.
  - destruct (Source_withdraw env id w s) as [r s'] eqn:E. intros [= -> <-].
    unfold Source_withdraw in E. destruct (decide _); [done|]. destruct (negb _); [done|].
    destruct (svc_Withdraw _ _ _ _) as [r' s'']. injection E as E _.
    apply result_bind_ok in E as (c & _ & [= <- <-]).
    split; [eapply bank_changed; [done|done|intros q x; apply (ok_batches _ HW)
        |intros q x; apply (ok_requests _ HW)]|].
    unfold held. simpl. unfold eqm64. f_equal. lia.
Qed.

Lemma deposit_world_ok env id cs t W W' :
  world_ok W → id ≠ [] → deposit env id cs t W = Some (Ok tt, W') →
  world_ok W' ∧ held W' ≡₆₄ held W + total_worth cs - outflow t cs.
Proof.
  intros HW Hid. destruct W as [b s accs batches reqs ress]. unfold deposit.
  destruct t as [p|p|p|d]; unfold outflow.
  - destruct (accs !! p) as [a|] eqn:Ha; [|done]. cbn [mbind option_bind].
    unfold Account_deposit, BlindBank_Deposit. destruct cs as [|c cs]; [done|].
    destruct (deposit_loop _ _ _ _ _ _) as [[bal|] b'] eqn:E; [|done]. intros [= <-].
    apply deposit_loop_ok in E as (Hb & Ht & Ho).
    split; [eapply account_changed; [done|done|done|by apply Hb|done]|].
    unfold held. simpl. rewrite Ht. unfold eqm64. f_equal. lia.
  - destruct (batches !! p) as [st|] eqn:Hst; [|done]. cbn [mbind option_bind].
    destruct (stack_deposit id cs st) as [r st'] eqn:E. intros [= -> <-].
    apply stack_deposit_ok in E as (Hok & H0 & Hw); [|done|by apply (ok_batches _ HW p)].
    split; [eapply bank_changed; [done..| |intros q x; apply (ok_requests _ HW)]|].
    { apply map_Forall_insert_2; [done|]. intros q x. apply (ok_batches _ HW). }
    unfold held. simpl. rewrite (map_sum_replace _ _ _ st) by done. unfold eqm64. f_equal. lia.
  - destruct (reqs !! p) as [q|] eqn:Hq; [|done]. cbn [mbind option_bind]. unfold request_deposit.
    destruct (stack_deposit id cs (pr_stack q)) as [r st'] eqn:E. intros [= -> <-].
    apply stack_deposit_ok in E as (Hok & H0 & Hw); [|done|by apply (ok_requests _ HW p)].
    split; [eapply bank_changed; [done|done|intros k x; apply (ok_batches _ HW)|]|].
    { apply map_Forall_insert_2; [done|]. intros k x. apply (ok_requests _ HW). }
    unfold held. simpl. rewrite (map_sum_replace _ _ _ q) by done. simpl. unfold eqm64. f_equal. lia.
  - destruct (svc_Deposit _ _ _ _) as [r s']. intros [= -> <-].
    split; [eapply bank_changed; [done|done|intros q x; apply (ok_batches _ HW)
        |intros q x; apply (ok_requests _ HW)]|].
    unfold held. simpl. unfold eqm64. f_equal. lia.
Qed.

(** The branches of [Process] that end in a transfer. *)
Lemma Process_ok env logger intent W t W' :
  Process env logger intent W = Some (Ok t, W') →
  ∃ cs W1, pe_id env = Some (t_id t) ∧ length (t_id t) = 32%nat ∧
    withdraw (pe_withdraw env) (t_id t) (i_Withdrawal intent) (From intent) W = Some (Ok (cs, roundingGain t), W1) ∧
    mixed_amounts cs = false ∧
    deposit (pe_deposit env) (t_id t) cs (To intent) W1 = Some (Ok tt, W') ∧
    t_amounts t = b_value <$> cs ∧ t_intent t = intent.
Proof.
  unfold Process. destruct (negb _); [done|].
  destruct (GenerateID (pe_id env)) as [id|] eqn:Eid; [|done].
  destruct (from_maxDelay _ W); [|done]. cbn [mbind option_bind].
  destruct (UpTo _ _) as [[|]|]; [done| |done]. cbn [mbind option_bind].
  destruct (LogIntent logger id intent); [done|].
  destruct (withdraw _ _ _ _ W) as [[[[cs gain]|e] W1]|] eqn:Ew; cbn [mbind option_bind]; [| |done].
  2: { destruct (IsExpectedError intent e); [by destruct (LogFinishErrorOK logger e)|done]. }
  unfold process_deposit. destruct (mixed_amounts cs) eqn:Em; [done|].
  destruct (LogWithdrawOK logger gain cs); [done|].
  destruct (from_maxDelay _ W1); [|done]. destruct (to_maxDelay _ W1); [|done]. cbn [mbind option_bind].
  destruct (UpTo _ _) as [[|]|]; [done| |done]. cbn [mbind option_bind].
  destruct (deposit _ id cs _ W1) as [[[[]|] W2]|] eqn:Ed; cbn [mbind option_bind]; [|done|done].
  destruct (LogFinishDepositOK logger); [done|]. intros [= <- <-].
  unfold GenerateID in Eid. destruct (pe_id env) as [i|]; [|done].
  destruct (length i =? 32)%nat eqn:El; [|done]. simplify_eq. apply Nat.eqb_eq in El.
  by exists cs, W1.
Qed.
End funds.

Lemma total_worth_amounts cs : total_worth cs = sum_Z (Currency.AmountOrZero <$> (b_value <$> cs)).
Proof. unfold total_worth. by rewrite <- list_fmap_compose. Qed.

(** C13. Transfers neither make nor lose money.  For any bank that keeps its
    contract, a successful transfer between accounts, batches, payment requests
    and payment results changes what wallet and bank hold together by exactly
    the rounding gain it reports, plus the credits that came from the source,
    less the credits returned to it; the local balance of every account stays
    that of the bank. *)
Theorem Process_conserves {B : BlindRSA} {BC : BlindBankContract} {BS : BlindBankSpec BC} {SS : SourceService}
    env logger intent W t W' :
  world_ok W → Process env logger intent W = Some (Ok t, W') →
  let amount := sum_Z (Currency.AmountOrZero <$> t_amounts t) in
  world_ok W' ∧
  held W' ≡₆₄ held W + roundingGain t
    + (if bool_decide (origin (From intent) = sourceOrigin) then amount else 0)
    - (match To intent with ToSource _ => amount | _ => 0 end).
Proof.
  intros HW (cs & W1 & _ & Hl & Hw & _ & Hd & Ha & _)%Process_ok.
  apply withdraw_ok in Hw as [HW1 H1]; [|done].
  apply deposit_world_ok in Hd as [HW2 H2]; [|done|by intros E; rewrite E in Hl].
  split; [done|]. rewrite Ha, <- total_worth_amounts. rewrite H2, H1. unfold inflow, outflow.
  destruct (From intent), (To intent); simpl; unfold eqm64; f_equal; lia.
Qed.

(** ** The in-memory bank keeps the contract *)

Record InmemEnv := MkInmemEnv {
  be_lock : LockEnv;
  be_draw : Draw;
  be_now : Z;
  be_round : option Z;
}.

Section inmem.
Context {B : BlindRSA} {NL : NonceLocker} (undef : float64 → Z).

Definition inmem_bank : BlindBankContract := {|
  bank := Bank.Bank * locker;
  bank_env := InmemEnv;
  bc_WithdrawBatch acc reqs '(b, s) := let '(r, b) := WithdrawBatch acc reqs b in (r, (b, s));
  bc_WithdrawFullUnblinded env acc '(b, s) :=
    let '(r, b) := WithdrawFullUnblinded (default_roundFunc undef (be_round env)) (be_draw env) (be_now env) acc b in
    (r, (b, s));
  bc_Deposit env acc c '(b, s) := let '(r, b, s) := Deposit (be_lock env) acc c b s in (r, (b, s));
  bc_Exchange env c req '(b, s) := let '(r, s) := Bank_Exchange (be_lock env) c req s in (r, (b, s));
  bc_Balance acc '(b, s) := Balance acc b;
|}.

Lemma validate_requested seen sum reqs sum' :
  validate_requests seen sum reqs = Ok sum' → sum' ≡₆₄ sum + requested reqs.
Proof.
  revert seen sum. induction reqs as [|req reqs IH]; intros seen sum H; cbn [validate_requests] in H.
  { simplify_eq. unfold requested. simpl. by rewrite Z.add_0_r. }
  destruct (decide _); [done|]. destruct (Currency.Amount _) as [a|] eqn:Ha; [|done].
  destruct (a <=? 0); [done|]. apply IH in H as ->. rewrite wrap_s64_eqm.
  change (requested (req :: reqs)) with (Currency.AmountOrZero (req_Value req) + requested reqs).
  unfold Currency.AmountOrZero. rewrite Ha. unfold eqm64. f_equal. lia.
Qed.

Lemma Balance_insert acc st accs rs :
  Balance acc (MkBank (<[keyForAccount acc := st]> accs) rs) = balance st.
Proof. unfold Balance, stored_or_zero. cbn. by rewrite lookup_insert_eq. Qed.
Lemma Balance_insert_ne acc other st b rs :
  other ≠ acc → Balance other (MkBank (<[keyForAccount acc := st]> (accounts b)) rs) = Balance other b.
Proof.
  intros Hne. unfold Balance, stored_or_zero. cbn.
  by rewrite lookup_insert_ne by (by intros ?%keyForAccount_inj).
Qed.
Lemma total_insert acc st b :
  map_sum balance (<[keyForAccount acc := st]> (accounts b)) =
    map_sum balance (accounts b) - Balance acc b + balance st.
Proof.
  unfold Balance, stored_or_zero. rewrite map_sum_insert.
  by destruct (accounts b !! keyForAccount acc).
Qed.
Lemma Balance_lookup acc st b : accounts b !! keyForAccount acc = Some st → Balance acc b = balance st.
Proof. intros H. unfold Balance, stored_or_zero. by rewrite H. Qed.

#[export] Program Instance inmem_bank_spec : BlindBankSpec inmem_bank := {|
  bank_total := λ '(b, s), map_sum balance (accounts b);
|}.
Next Obligation.
  intros acc reqs [b s] bal sigs b' H. cbn [bc_WithdrawBatch bc_Balance inmem_bank] in H |- *.
  unfold WithdrawBatch in H.
  destruct (_ =? 0)%nat; [done|]. destruct (_ <? _)%nat; [done|].
  destruct (validate_requests ∅ 0 reqs) as [sum|] eqn:Ev; [|done]. apply validate_requested in Ev.
  destruct (sign_requests reqs); [|done]. destruct (accounts b !! _) as [st|] eqn:Ek; [|done].
  destruct (balance st <? sum); [done|]. injection H as <- <- <-. unfold put. cbn [accounts].
  rewrite Balance_insert, total_insert, (Balance_lookup _ _ _ Ek). cbn [balance].
  split_and!; [done|rewrite wrap_s64_eqm, Ev; unfold eqm64; f_equal; lia..|].
  intros. by apply Balance_insert_ne.
Qed.
Next Obligation.
  intros acc reqs [b s] Hl. cbn [bc_WithdrawBatch inmem_bank]. unfold WithdrawBatch.
  destruct (length reqs =? 0)%nat; [by eexists|].
  assert ((maxReqs <? length reqs)%nat = true) as -> by (by apply Nat.ltb_lt). by eexists.
Qed.
Next Obligation.
  intros env acc [b s] c b' H. cbn [bc_WithdrawFullUnblinded bc_Balance inmem_bank] in H |- *.
  unfold WithdrawFullUnblinded in H. destruct (accounts b !! _) as [st|] eqn:Ek; [|done].
  destruct (_ <=? 0); [done|]. destruct (_ <? _); [done|]. destruct (default_roundFunc _ _ _); [|done].
  destruct (IssueUnblindedCredit _ _ _); [|done]. injection H as <- <-. cbn [accounts].
  rewrite Balance_insert, total_insert. cbn [balance]. split_and!; [done|unfold eqm64; f_equal; lia|].
  intros. by apply Balance_insert_ne.
Qed.
Next Obligation.
  intros env acc c [b s] bal b' H. cbn [bc_Deposit bc_Balance inmem_bank] in H |- *.
  destruct (Deposit _ _ _ _ _) as [[r b1] s1] eqn:E. injection H as -> <-.
  apply Deposit_ok in E as (amount & tx & s2 & tx' & Ha & _ & _ & _ & -> & ->).
  assert (worth c = amount) as -> by (unfold worth, Currency.AmountOrZero; by rewrite Ha).
  unfold deposited, put. cbn [accounts]. rewrite Balance_insert, total_insert. cbn [balance].
  fold (Balance acc b).
  split_and!; [done|rewrite wrap_s64_eqm; unfold eqm64; f_equal; lia..|].
  intros. by apply Balance_insert_ne.
Qed.
Next Obligation.
  intros env c req [b s] acc. cbn [bc_Exchange bc_Balance inmem_bank].
  by destruct (Bank_Exchange _ _ _ _).
Qed.
End inmem.

(** A source that has unlimited credits and takes everything back. *)
Definition free_source : SourceService := {|
  source := unit;
  source_env := unit;
  svc_Withdraw _ _ v _ := (Ok (MkBlinded v demo_nonce []), tt);
  svc_Deposit _ _ _ _ := (Ok tt, tt);
|}.

(** A run: two credits of 32 from an account of 100 into a batch. *)
#[local] Instance demo_contract : BlindBankContract := inmem_bank (B:=toy_rsa) (NL:=inmem_locker) (λ _, 0).
#[local] Instance demo_spec : BlindBankSpec demo_contract := inmem_bank_spec (B:=toy_rsa) (NL:=inmem_locker) (λ _, 0).
#[local] Existing Instance free_source.
#[local] Existing Instance toy_rsa.

Definition demo_draw (i : nat) : Draw :=
  MkDraw (Some 7) (Some 0) (7300 * second) (Some (byte_of (Z.of_nat i) :: replicate 15 x2a)).
Definition demo_op : OpEnv :=
  MkOpEnv demo_draw (λ _, 7300 * second)
    (λ i, MkInmemEnv demo_env (demo_draw i) (7300 * second) (Some 0)) tt None.
Definition demo_process_env : ProcessEnv := MkProcessEnv (Some (replicate 32 x05)) None None demo_op demo_op.
Definition demo_amount : Currency.Value := Currency.MkValue false 32.
Definition demo_world : World :=
  MkWorld (demo_bank, NewNonceLocker) tt {[ 0%nat := MkAccount demo_token 100 5 ]}
    {[ 0%nat := EmptyBankBatch ]} ∅ ∅.
Definition demo_intent : Intent := MkIntent (MkWithdrawal false 2 demo_amount false) (FromAccount 0) (ToBatch 0).

Lemma demo_world_ok : world_ok demo_world.
Proof.
  split; simpl.
  - intros p a [_ <-]%lookup_singleton_Some. vm_compute. reflexivity.
  - by intros p q a a' [<- _]%lookup_singleton_Some [<- _]%lookup_singleton_Some.
  - by intros p s [_ <-]%lookup_singleton_Some.
  - done.
Qed.

Lemma Process_conserves_witness :
  ∃ t W', Process demo_process_env NoopLogger demo_intent demo_world = Some (Ok t, W') ∧
    t_amounts t = [demo_amount; demo_amount] ∧ roundingGain t = 0 ∧
    held W' ≡₆₄ held demo_world.
Proof.
  destruct (Process demo_process_env NoopLogger demo_intent demo_world) as [[[t|e] W']|] eqn:E.
  2, 3: exfalso; apply (f_equal (λ o, match o with Some (r, _) => is_ok r | None => false end)) in E;
    vm_compute in E; discriminate E.
  assert (t_amounts t = [demo_amount; demo_amount] ∧ roundingGain t = 0) as [Ha Hg].
  { apply (f_equal (λ o, match o with Some (Ok t, _) => Some (t_amounts t, roundingGain t) | _ => None end)) in E.
    vm_compute in E. injection E as E1 E2. split; [exact (eq_sym E1)|exact (eq_sym E2)]. }
  exists t, W'. split; [done|]. split; [done|]. split; [done|].
  destruct (Process_conserves _ _ _ _ _ _ demo_world_ok E) as [_ H].
  rewrite H, Hg. cbn [bool_decide decide From To demo_intent origin]. unfold eqm64; f_equal; simpl; lia.
Defined.
