(* ===== verification/BankHttp.v ===== *)
(** The bank over HTTP: package [banking/httpapi], the server's handlers around a
    blind bank and the client, which offers the operations of a blind bank. *)

From S2P Require Import Prelude GoLib Http AnonErrors Credit BlindSigning NonceLocking Bank Transfer HttpRetry HttpApi.
From S2P Require Currency Nonce.

(** ** Messages *)

Record PbBlindSignRequest := MkPbBlindSign { bs_value : option Currency.PbCurrency; bs_message : option (list byte) }.
Record PbBatchWithdrawRequest := MkBatchRequest { bw_requests : list PbBlindSignRequest; bw_token : option (list byte) }.
Record PbBatchWithdrawResponse := MkBatchResponse { bw_balance : option Z; bw_signatures : list (list byte) }.
(** The messages with nothing but an account token. *)
Record PbWithdrawFullRequest := MkFullRequest { wf_token : option (list byte) }.
Record PbBalanceRequest := MkBalanceRequest { ba_token : option (list byte) }.
Record PbBalanceResponse := MkBalanceResponse { ba_balance : option Z }.
Record PbDepositResponse := MkDepositResponse { dp_balance : option Z }.
Record PbExchangeResponse := MkExchangeResponse { ex_signature : option (list byte) }.
Record PbDepositRequest (T : TimestampLib) := MkDepositRequest { dp_token : option (list byte); dp_credit : option PbCredit }.
Record PbExchangeRequest (T : TimestampLib) := MkExchangeRequest { ex_credit : option PbCredit; ex_message : option (list byte) }.
Record PbWithdrawFullResponse (T : TimestampLib) := MkFullResponse { wf_credit : option PbCredit }.
Arguments MkDepositRequest {T}. Arguments dp_token {T}. Arguments dp_credit {T}.
Arguments MkExchangeRequest {T}. Arguments ex_credit {T}. Arguments ex_message {T}.
Arguments MkFullResponse {T}. Arguments wf_credit {T}.

Class BankWire (T : TimestampLib) := {
  #[global] wire_error :: ProtoWire PbError;
  #[global] wire_batch_request :: ProtoWire PbBatchWithdrawRequest;
  #[global] wire_batch_response :: ProtoWire PbBatchWithdrawResponse;
  #[global] wire_full_request :: ProtoWire PbWithdrawFullRequest;
  #[global] wire_full_response :: ProtoWire (PbWithdrawFullResponse T);
  #[global] wire_deposit_request :: ProtoWire (PbDepositRequest T);
  #[global] wire_deposit_response :: ProtoWire PbDepositResponse;
  #[global] wire_exchange_request :: ProtoWire (PbExchangeRequest T);
  #[global] wire_exchange_response :: ProtoWire PbExchangeResponse;
  #[global] wire_balance_request :: ProtoWire PbBalanceRequest;
  #[global] wire_balance_response :: ProtoWire PbBalanceResponse;
}.

(** The routes, with what their handlers see of the outside world. *)
Inductive endpoint {BC : BlindBankContract} :=
| withdraw
| withdraw_full (env : bank_env)
| deposit (env : bank_env)
| exchange (env : bank_env)
| get_balance.
Arguments endpoint : clear implicits.

Section bank.
Context {T : TimestampLib} {BC : BlindBankContract} {WB : BankWire T}.

Definition endpoint_path (e : endpoint BC) : string :=
  match e with
  | withdraw => "/withdraw" | withdraw_full _ => "/withdraw-full" | deposit _ => "/deposit"
  | exchange _ => "/exchange" | get_balance => "/balance"
  end.

(** ** The server *)

Definition writeErrorResponse (e : err) (w : ResponseWriter) : ResponseWriter :=
  if as_InputError e then BinaryBadRequest "invalid input" w else BinaryServerError w.

Definition DepositHandler (env : bank_env) (r : Http.Request) (w : ResponseWriter) (s : bank) : ResponseWriter * bank :=
  match Decode (M:=PbDepositRequest T) (r_Body r) with
  | Err _ => (BinaryServerError w, s)
  | Ok message =>
      match AccountTokenFromSecretBytes (default [] (dp_token message)) with
      | Err _ => (BinaryBadRequest "invalid account" w, s)
      | Ok account =>
          match BlindedCredit_UnmarshalProto (dp_credit message) with
          | Err _ => (BinaryBadRequest "failed to unmarshal credit" w, s)
          | Ok credit =>
              let '(r, s) := bc_Deposit env account credit s in
              match r with
              | Err e => (writeErrorResponse e w, s)
              | Ok bal => (WriteBinaryProto (MkDepositResponse (Some bal)) w, s)
              end
          end
      end
  end.

(** The loop over the requests of a batch; the first bad value ends it. *)
Fixpoint batch_requests (requests : list PbBlindSignRequest) : option (list BlindSignRequest) :=
  match requests with
  | [] => Some []
  | request :: requests =>
      match Currency.UnmarshalProto (bs_value request) with
      | Err _ => None
      | Ok value =>
          reqs ← batch_requests requests;
          Some (MkBlindSignRequest value (default [] (bs_message request)) :: reqs)
      end
  end.

Definition WithdrawBatchHandler (r : Http.Request) (w : ResponseWriter) (s : bank) : ResponseWriter * bank :=
  match Decode (M:=PbBatchWithdrawRequest) (r_Body r) with
  | Err _ => (BinaryServerError w, s)
  | Ok batch =>
      match bw_token batch with
      | None => (BinaryBadRequest "missing account token" w, s)
      | Some token =>
          match AccountTokenFromSecretBytes token with
          | Err _ => (BinaryBadRequest "invalid account" w, s)
          | Ok account =>
              match batch_requests (bw_requests batch) with
              | None => (BinaryBadRequest "failed to unmarshal value" w, s)
              | Some batchRequests =>
                  let '(r, s) := bc_WithdrawBatch account batchRequests s in
                  match r with
                  | Err e => (writeErrorResponse e w, s)
                  | Ok (bal, signatures) => (WriteBinaryProto (MkBatchResponse (Some bal) signatures) w, s)
                  end
              end
          end
      end
  end.

Definition WithdrawFullHandler (env : bank_env) (r : Http.Request) (w : ResponseWriter) (s : bank) : ResponseWriter * bank :=
  match Decode (M:=PbWithdrawFullRequest) (r_Body r) with
  | Err _ => (BinaryServerError w, s)
  | Ok req =>
      match wf_token req with
      | None => (BinaryBadRequest "missing account token" w, s)
      | Some token =>
          match AccountTokenFromSecretBytes token with
          | Err _ => (BinaryBadRequest "invalid account" w, s)
          | Ok account =>
              let '(r, s) := bc_WithdrawFullUnblinded env account s in
              match r with
              | Err e => (writeErrorResponse e w, s)
              | Ok credit =>
                  match UnblindedCredit_MarshalProto credit with
                  | Err _ => (BinaryServerError w, s)
                  | Ok creditPB => (WriteBinaryProto (MkFullResponse (T:=T) (Some creditPB)) w, s)
                  end
              end
          end
      end
  end.

Definition ExchangeHandler (env : bank_env) (r : Http.Request) (w : ResponseWriter) (s : bank) : ResponseWriter * bank :=
  match Decode (M:=PbExchangeRequest T) (r_Body r) with
  | Err _ => (BinaryServerError w, s)
  | Ok message =>
      match BlindedCredit_UnmarshalProto (ex_credit message) with
      | Err _ => (BinaryBadRequest "failed to unmarshal value" w, s)
      | Ok credit =>
          let request := MkBlindSignRequest (b_value credit) (default [] (ex_message message)) in
          let '(r, s) := bc_Exchange env (Blinded credit) request s in
          match r with
          | Err e => (writeErrorResponse e w, s)
          | Ok signature => (WriteBinaryProto (MkExchangeResponse (Some signature)) w, s)
          end
      end
  end.

Definition BalanceHandler (r : Http.Request) (w : ResponseWriter) (s : bank) : ResponseWriter * bank :=
  match Decode (M:=PbBalanceRequest) (r_Body r) with
  | Err _ => (BinaryServerError w, s)
  | Ok req =>
      match ba_token req with
      | None => (BinaryBadRequest "missing account token" w, s)
      | Some token =>
          match AccountTokenFromSecretBytes token with
          | Err _ => (BinaryBadRequest "invalid account" w, s)
          | Ok account => (WriteBinaryProto (MkBalanceResponse (Some (bc_Balance account s))) w, s)
          end
      end
  end.

Definition ServeHTTP (e : endpoint BC) : Http.Request → ResponseWriter → bank → ResponseWriter * bank :=
  match e with
  | withdraw => WithdrawBatchHandler
  | withdraw_full env => WithdrawFullHandler env
  | deposit env => DepositHandler env
  | exchange env => ExchangeHandler env
  | get_balance => BalanceHandler
  end.

(** ** The client *)

(** [HTTPClient.Do] for a request to an endpoint; [net] is the other end. *)
Class HTTPClient := {
  net : Type;
  http_Do : endpoint BC → Header → net → HttpRetry.exchange (result transport_error Response * net);
}.

Context {BL : BackoffLib} {HC : HTTPClient}.

Definition refusal (e : endpoint BC) (code : Z) : err :=
  if code =? StatusBadRequest then InputError (unexpected_status code (endpoint_path e))
  else unexpected_status code (endpoint_path e).

Definition doRequest {M R} {WM : ProtoWire M} {WR : ProtoWire R} (requestBackoff : BackOff) (e : endpoint BC) (reqPB : M) (s : net) :
    option (result err R * net) :=
  post_message (http_Do e request_header) requestBackoff reqPB (refusal e) (Decode (M:=R)) s.

Definition marshal_request (req : BlindSignRequest) : result err PbBlindSignRequest :=
  pv ← wrap_err (Wrapped "failed to marshal amount to protobuf") (currency_err (Currency.MarshalProto (req_Value req)));
  Ok (MkPbBlindSign (Some pv) (Some (req_BlindedMessage req))).
Fixpoint marshal_requests (reqs : list BlindSignRequest) : result err (list PbBlindSignRequest) :=
  match reqs with
  | [] => Ok []
  | req :: reqs => p ← marshal_request req; ps ← marshal_requests reqs; Ok (p :: ps)
  end.

(** [k] reads the response of a call that succeeded. *)
Definition then_read {R A} (msg : string) (k : R → result err A) (r : option (result err R * net)) : option (result err A * net) :=
  '(r, s) ← r; Some (resp ← wrap_err (Wrapped msg) r; k resp, s).

Definition Client_WithdrawBatch (b : BackOff) (account : AccountToken) (reqs : list BlindSignRequest) (s : net) :
    option (result err (Z * list (list byte)) * net) :=
  match marshal_requests reqs with
  | Err e => Some (Err e, s)
  | Ok reqPBs =>
      then_read "failed to withdraw batch"
        (λ resp,
          let blindSigs := bw_signatures resp in
          if negb (length blindSigs =? length reqs)%nat then Err (ErrNew "blind signatures missing in response")
          else Ok (default 0 (bw_balance resp), blindSigs))
        (doRequest (R:=PbBatchWithdrawResponse) b withdraw (MkBatchRequest reqPBs (Some (SecretBytes account))) s)
  end.

Definition Client_WithdrawFullUnblinded (b : BackOff) (env : bank_env) (account : AccountToken) (s : net) :
    option (result err UnblindedCredit * net) :=
  then_read "failed to withdraw all"
    (λ resp, wrap_err (Wrapped "error unmarshalling withdraw all credit") (UnblindedCredit_UnmarshalProto (wf_credit resp)))
    (doRequest (R:=PbWithdrawFullResponse T) b (withdraw_full env) (MkFullRequest (Some (SecretBytes account))) s).

Definition Client_Deposit (b : BackOff) (env : bank_env) (account : AccountToken) (credit : BlindedCredit) (s : net) :
    option (result err Z * net) :=
  match BlindedCredit_MarshalProto credit with
  | Err e => Some (Err (Wrapped "error marshalling credit" e), s)
  | Ok pc =>
      then_read "failed to deposit" (λ resp, Ok (default 0 (dp_balance resp)))
        (doRequest (R:=PbDepositResponse) b (deposit env) (MkDepositRequest (T:=T) (Some (SecretBytes account)) (Some pc)) s)
  end.

Definition AnyCredit_MarshalProto (c : AnyCredit) : result err PbCredit :=
  match c with Blinded c => BlindedCredit_MarshalProto c | Unblinded c => UnblindedCredit_MarshalProto c end.

Definition Client_Exchange (b : BackOff) (env : bank_env) (credit : AnyCredit) (request : BlindSignRequest) (s : net) :
    option (result err (list byte) * net) :=
  match AnyCredit_MarshalProto credit with
  | Err e => Some (Err (Wrapped "failed to marshal credit to protobuf" e), s)
  | Ok pc =>
      then_read "failed to exchange" (λ resp, Ok (default [] (ex_signature resp)))
        (doRequest (R:=PbExchangeResponse) b (exchange env) (MkExchangeRequest (T:=T) (Some pc) (Some (req_BlindedMessage request))) s)
  end.

Definition Client_Balance (b : BackOff) (account : AccountToken) (s : net) : option (result err Z * net) :=
  then_read "failed to exchange" (λ resp, Ok (default 0 (ba_balance resp)))
    (doRequest (R:=PbBalanceResponse) b get_balance (MkBalanceRequest (Some (SecretBytes account))) s).

End bank.

Section networks.
Context {T : TimestampLib} {BC : BlindBankContract} {WB : BankWire T}.
Definition reliable_client : HTTPClient := {|
  net := bank;
  http_Do e header := reliable header (ServeHTTP e);
|}.
Definition lossy_client : HTTPClient := {|
  net := list fault * bank;
  http_Do e header := lossy header (ServeHTTP e);
|}.
End networks.

(** ** Lemmas *)

(** Messages of bytes and numbers can always be encoded. *)
Class BankWireLaws (T : TimestampLib) (WB : BankWire T) := {
  #[global] laws_batch_request :: ProtoWireLaws PbBatchWithdrawRequest;
  #[global] laws_batch_response :: ProtoWireLaws PbBatchWithdrawResponse;
  #[global] laws_full_request :: ProtoWireLaws PbWithdrawFullRequest;
  #[global] laws_full_response :: ProtoWireLaws (PbWithdrawFullResponse T);
  #[global] laws_deposit_request :: ProtoWireLaws (PbDepositRequest T);
  #[global] laws_deposit_response :: ProtoWireLaws PbDepositResponse;
  #[global] laws_exchange_request :: ProtoWireLaws (PbExchangeRequest T);
  #[global] laws_exchange_response :: ProtoWireLaws PbExchangeResponse;
  #[global] laws_balance_request :: ProtoWireLaws PbBalanceRequest;
  #[global] laws_balance_response :: ProtoWireLaws PbBalanceResponse;
  total_batch_request (m : PbBatchWithdrawRequest) : is_Some (proto_marshal m);
  total_batch_response (m : PbBatchWithdrawResponse) : is_Some (proto_marshal m);
  total_full_request (m : PbWithdrawFullRequest) : is_Some (proto_marshal m);
  total_full_response (m : PbWithdrawFullResponse T) : is_Some (proto_marshal m);
  total_deposit_request (m : PbDepositRequest T) : is_Some (proto_marshal m);
  total_deposit_response (m : PbDepositResponse) : is_Some (proto_marshal m);
  total_exchange_request (m : PbExchangeRequest T) : is_Some (proto_marshal m);
  total_exchange_response (m : PbExchangeResponse) : is_Some (proto_marshal m);
  total_balance_request (m : PbBalanceRequest) : is_Some (proto_marshal m);
  total_balance_response (m : PbBalanceResponse) : is_Some (proto_marshal m);
  total_invalid_input : is_Some (proto_marshal (MkPbError "invalid input"));
}.

(** The same result, or errors that are both input errors or both not. *)
Definition same_kind {A} (r r' : result err A) : Prop :=
  match r, r' with
  | Ok a, Ok a' => a = a'
  | Err e, Err e' => as_InputError e = as_InputError e'
  | _, _ => False
  end.
(** A refusal the client would retry changes nothing. *)
Definition refusal_keeps {A S} (d : result err A * S) (s : S) : Prop :=
  ∀ e, d.1 = Err e → as_InputError e = false → d.2 = s.
(** A call over the wire does what the direct call [d] does. *)
Definition http_same {A S} (h : option (result err A * S)) (d : result err A * S) : Prop :=
  ∃ r, h = Some (r, d.2) ∧ same_kind d.1 r.

Section lemmas.
Context {T : TimestampLib} {TL : TimestampLaws T} {BC : BlindBankContract} {WB : BankWire T} {WBL : BankWireLaws T WB}
  {BL : BackoffLib} {BLL : BackoffLaws BL}.

(** What the handlers write for the outcome of a call. *)
Definition respond {R} {WR : ProtoWire R} (r : result err R) (w : ResponseWriter) : ResponseWriter :=
  match r with Ok m => WriteBinaryProto m w | Err e => writeErrorResponse e w end.
Definition response_code {R} (r : result err R) : Z :=
  match r with Ok _ => StatusOK | Err e => if as_InputError e then StatusBadRequest else StatusInternalServerError end.

Lemma respond_answers {R} {WR : ProtoWire R} e reqBytes (r : result err R) s s' :
  ServeHTTP e (MkRequest request_header (Ok reqBytes)) new_writer s = (respond r new_writer, s') →
  (∀ m, r = Ok m → is_Some (proto_marshal m)) →
  ∃ resp body, answers (ServeHTTP e) reqBytes s resp body s' ∧ StatusCode resp = response_code r ∧
    (∀ m, r = Ok m → marshal_message m = Ok body).
Proof.
  intros Hs Hm. exists (response_of (respond r new_writer)), (w_body (respond r new_writer)).
  split; [unfold answers, serve_bytes; by rewrite Hs|]. destruct r as [m|er]; cbn [respond response_code].
  - destruct (marshals m (Hm m eq_refl)) as [o Ho]. unfold WriteBinaryProto. rewrite Ho. split; [done|]. by intros m' [= <-].
  - split; [|done]. unfold writeErrorResponse. destruct (as_InputError er).
    + destruct (marshals _ total_invalid_input) as [o Ho]. unfold BinaryBadRequest, BinaryError. by rewrite Ho.
    + unfold BinaryServerError, BinaryError. by destruct (marshal_message _).
Qed.

Lemma refusal_input e code : as_InputError (refusal e code) = (code =? StatusBadRequest).
Proof. unfold refusal. by destruct (code =? StatusBadRequest). Qed.

(** A call whose request the handler takes to [r] and [s']. *)
Lemma bank_call_served {M R} {WM : ProtoWire M} {WR : ProtoWire R} {WRL : ProtoWireLaws R} b e (m : M) reqBytes (r : result err R) s s' :
  marshal_message m = Ok reqBytes →
  ServeHTTP e (MkRequest request_header (Ok reqBytes)) new_writer s = (respond r new_writer, s') →
  (∀ m, r = Ok m → is_Some (proto_marshal m)) → refusal_keeps (r, s') s →
  http_same (doRequest (HC:=reliable_client) (R:=R) b e m s) (r, s').
Proof.
  intros Hm Hs Hok Herr. destruct (respond_answers e reqBytes r s s' Hs Hok) as (resp & body & Ha & Hcode & Hbody).
  destruct (post_served (ServeHTTP e) m (refusal e) (Decode (M:=R)) reqBytes Hm b s resp body s' Ha) as (r' & Hr & Hlt & Hge).
  { rewrite Hcode. intros Hc. destruct r as [?|er]; cbn in Hc; [done|]. destruct (as_InputError er) eqn:E; [done|]. by apply (Herr er). }
  exists r'. split; [exact Hr|]. rewrite Hcode in Hlt, Hge. destruct r as [rm|er]; cbn [response_code fst same_kind] in *.
  - rewrite Hlt by done. unfold read_response. cbn. unfold Decode. cbn [wrap_err mbind result_bind].
    by rewrite (unmarshal_marshalled _ _ (Hbody rm eq_refl)).
  - destruct (as_InputError er) eqn:E.
    + rewrite Hlt by done. unfold read_response. cbn -[refusal]. by rewrite refusal_input.
    + destruct Hge as (e' & -> & [->|[->| ->]]); [done|by rewrite refusal_input|done..].
Qed.

Lemma then_read_same {R A} msg (k : R → result err A) h (d : result err R * bank) (d' : result err A * bank) :
  http_same h d → d.2 = d'.2 → same_kind (r ← d.1; k r) d'.1 → (∀ r, d.1 = Ok r → is_ok (k r) = true) →
  http_same (then_read (HC:=reliable_client) msg k h) d'.
Proof.
  intros (r & -> & Hk) Hs Hd Hok. eexists. split; [cbn; by rewrite Hs|]. destruct d as [[x|e] s], r as [y|e'], d' as [[z|e2] s2]; cbn in *; try done.
  - subst y. specialize (Hok x eq_refl). destruct (k x); [by subst|done].
  - subst y. specialize (Hok x eq_refl). by destruct (k x).
  - rewrite <- Hd. exact Hk.
Qed.

Lemma token_read acc : length (token_secret acc) = AccountTokenLength → AccountTokenFromSecretBytes (SecretBytes acc) = Ok acc.
Proof. intros Hl. unfold AccountTokenFromSecretBytes, SecretBytes. rewrite Hl. by destruct acc. Qed.

(** Values that survive the wire. *)
Definition value_ok (v : Currency.Value) : Prop := Currency.value_wf v ∧ (Currency.shift v = false ∨ Currency.value v < 256).

Lemma requests_read reqs : Forall (λ r, value_ok (req_Value r)) reqs →
  ∃ ps, marshal_requests reqs = Ok ps ∧ batch_requests ps = Some reqs.
Proof.
  induction 1 as [|req reqs [Hwf Hs] _ (ps & IH1 & IH2)]; [by exists []|]. destruct (currency_wire _ Hwf Hs) as (pv & Hp & Hu).
  exists (MkPbBlindSign (Some pv) (Some (req_BlindedMessage req)) :: ps). cbn [marshal_requests batch_requests].
  unfold marshal_request, currency_err. rewrite Hp, IH1. cbn. rewrite Hu, IH2. by destruct req.
Qed.

Lemma unblinded_wire c : wire_ok (u_value c) (u_nonce c) (u_signature c) →
  ∃ pc, UnblindedCredit_MarshalProto c = Ok pc ∧ UnblindedCredit_UnmarshalProto (Some pc) = Ok c.
Proof.
  destruct c as [v n sig]. intros [_ Hu]%credit_proto_roundtrip.
  destruct (UnblindedCredit_MarshalProto _) as [pc|]; [by exists pc|done].
Qed.
Lemma blinded_wire c : wire_ok (b_value c) (b_nonce c) (b_signature c) →
  ∃ pc, BlindedCredit_MarshalProto c = Ok pc ∧ BlindedCredit_UnmarshalProto (Some pc) = Ok c.
Proof.
  destruct c as [v n sig]. intros [Hu _]%credit_proto_roundtrip.
  destruct (BlindedCredit_MarshalProto _) as [pc|]; [by exists pc|done].
Qed.

Section ops.
Context (b : BackOff) (acc : AccountToken) (s : bank) (Hacc : length (token_secret acc) = AccountTokenLength).

(** Symbolic execution of a handler on a message that was just encoded. *)
Ltac run_handler Hm :=
  cbn [ServeHTTP]; unfold WithdrawBatchHandler, WithdrawFullHandler, DepositHandler, ExchangeHandler, BalanceHandler, Decode;
  cbn [r_Body wrap_err mbind result_bind]; rewrite (unmarshal_marshalled _ _ Hm);
  cbn [wrap_err bw_token bw_requests wf_token ba_token dp_token dp_credit ex_credit ex_message default from_option id];
  rewrite ?(token_read acc Hacc).

Lemma withdraw_batch_http reqs : Forall (λ r, value_ok (req_Value r)) reqs →
  let d := bc_WithdrawBatch acc reqs s in
  refusal_keeps d s → (∀ bal sigs, d.1 = Ok (bal, sigs) → length sigs = length reqs) →
  http_same (Client_WithdrawBatch (HC:=reliable_client) b acc reqs s) d.
Proof.
  intros Hv d Hkeep Hlen. destruct (requests_read reqs Hv) as (ps & Hps & Hread).
  destruct (marshals _ (total_batch_request (MkBatchRequest ps (Some (SecretBytes acc))))) as [data Hm].
  unfold Client_WithdrawBatch. rewrite Hps.
  apply (then_read_same _ _ _ ('(bal, sigs) ← d.1; Ok (MkBatchResponse (Some bal) sigs), d.2)); [|done|..].
  - apply (bank_call_served b withdraw _ data _ s d.2 Hm); [|intros; apply total_batch_response|].
    + run_handler Hm. rewrite Hread. unfold d. by destruct (bc_WithdrawBatch acc reqs s) as [[[bal sigs]|e] s'].
    + intros e He Hi. apply (Hkeep e); [|done]. destruct d as [[[]|] ?]; cbn in *; congruence.
  - destruct d as [[[bal sigs]|e] s']; cbn in *; [|done]. by rewrite (Hlen bal sigs eq_refl), Nat.eqb_refl.
  - intros m. destruct d as [[[bal sigs]|e] s']; cbn in *; [|done]. intros [= <-]. cbn. by rewrite (Hlen bal sigs eq_refl), Nat.eqb_refl.
Qed.

Lemma withdraw_full_http env : let d := bc_WithdrawFullUnblinded env acc s in
  refusal_keeps d s → (∀ c, d.1 = Ok c → wire_ok (u_value c) (u_nonce c) (u_signature c)) →
  http_same (Client_WithdrawFullUnblinded (HC:=reliable_client) b env acc s) d.
Proof.
  intros d Hkeep Hc. destruct (marshals _ (total_full_request (MkFullRequest (Some (SecretBytes acc))))) as [data Hm].
  unfold Client_WithdrawFullUnblinded.
  apply (then_read_same _ _ _ (c ← d.1; p ← UnblindedCredit_MarshalProto c; Ok (MkFullResponse (Some p)), d.2)); [|done|..].
  - apply (bank_call_served b (withdraw_full env) _ data _ s d.2 Hm); [|intros; apply total_full_response|].
    + run_handler Hm. unfold d in *. destruct (bc_WithdrawFullUnblinded env acc s) as [[c|e] s']; [|done].
      destruct (unblinded_wire c (Hc _ eq_refl)) as (pc & Hp & _). cbn [fst snd mbind result_bind]. by rewrite Hp.
    + intros e He Hi. apply (Hkeep e); [|done]. destruct d as [[c|] ?]; cbn [fst mbind result_bind] in *; [|congruence].
      destruct (unblinded_wire c (Hc _ eq_refl)) as (pc & Hp & _). by rewrite Hp in He.
  - destruct d as [[c|e] s']; cbn [fst mbind result_bind same_kind]; [|done].
    destruct (unblinded_wire c (Hc _ eq_refl)) as (pc & Hp & Hu). rewrite Hp. cbn [mbind result_bind wf_credit]. by rewrite Hu.
  - intros m. destruct d as [[c|e] s']; cbn [fst mbind result_bind]; [|done].
    destruct (unblinded_wire c (Hc _ eq_refl)) as (pc & Hp & Hu). rewrite Hp. intros [= <-]. cbn [wf_credit]. by rewrite Hu.
Qed.

Lemma deposit_http env c : wire_ok (b_value c) (b_nonce c) (b_signature c) →
  let d := bc_Deposit env acc c s in
  refusal_keeps d s → http_same (Client_Deposit (HC:=reliable_client) b env acc c s) d.
Proof.
  intros Hw d Hkeep. destruct (blinded_wire c Hw) as (pc & Hp & Hu). unfold Client_Deposit. rewrite Hp.
  destruct (marshals _ (total_deposit_request (MkDepositRequest (Some (SecretBytes acc)) (Some pc)))) as [data Hm].
  apply (then_read_same _ _ _ (bal ← d.1; Ok (MkDepositResponse (Some bal)), d.2)); [|done|by destruct d as [[]]|done].
  apply (bank_call_served b (deposit env) _ data _ s d.2 Hm); [|intros; apply total_deposit_response|].
  - run_handler Hm. rewrite Hu. unfold d. by destruct (bc_Deposit _ _ _ _) as [[] ?].
  - intros e He Hi. apply (Hkeep e); [|done]. destruct d as [[] ?]; cbn in *; congruence.
Qed.

Lemma exchange_http env c req : wire_ok (credit_Value c) (credit_Nonce c) (credit_Signature c) → req_Value req = credit_Value c →
  let d := bc_Exchange env (Blinded (MkBlinded (credit_Value c) (credit_Nonce c) (credit_Signature c))) req s in
  refusal_keeps d s → http_same (Client_Exchange (HC:=reliable_client) b env c req s) d.
Proof.
  intros Hw Hv d Hkeep. destruct (blinded_wire (MkBlinded _ _ _) Hw) as (pc & Hp & Hu). unfold Client_Exchange.
  assert (AnyCredit_MarshalProto c = BlindedCredit_MarshalProto (MkBlinded (credit_Value c) (credit_Nonce c) (credit_Signature c))) as ->
    by (by destruct c as [[]|[]]). rewrite Hp.
  destruct (marshals _ (total_exchange_request (MkExchangeRequest (Some pc) (Some (req_BlindedMessage req))))) as [data Hm].
  apply (then_read_same _ _ _ (sig ← d.1; Ok (MkExchangeResponse (Some sig)), d.2)); [|done|by destruct d as [[]]|done].
  apply (bank_call_served b (exchange env) _ data _ s d.2 Hm); [|intros; apply total_exchange_response|].
  - run_handler Hm. rewrite Hu. destruct req as [v msg]. cbn in Hv. subst v. unfold d. cbn [b_value req_BlindedMessage].
    by destruct (bc_Exchange _ _ _ _) as [[] ?].
  - intros e He Hi. apply (Hkeep e); [|done]. destruct d as [[] ?]; cbn in *; congruence.
Qed.

Lemma balance_http : http_same (Client_Balance (HC:=reliable_client) b acc s) (Ok (bc_Balance acc s), s).
Proof.
  unfold Client_Balance. destruct (marshals _ (total_balance_request (MkBalanceRequest (Some (SecretBytes acc))))) as [data Hm].
  apply (then_read_same _ _ _ (Ok (MkBalanceResponse (Some (bc_Balance acc s))), s)); [|done..].
  apply (bank_call_served b get_balance _ data _ s s Hm); [by run_handler Hm|intros; apply total_balance_response|done].
Qed.
End ops.
End lemmas.

(** ** Theorems *)

(** C28. A remote bank is the bank.  Over a network without faults, for any blind
    bank, backoff and account: each operation through the client returns, leaves
    the bank where the direct call leaves it, and gives its result, or an error
    that is an input error exactly if that of the direct call is.  It takes that
    values and credits survive the wire, that a bank that fails for other
    reasons than the input has changed nothing, that it signs every request of a
    batch, and that the value of an exchange is that of its credit. *)
Theorem http_bank_transparent {T : TimestampLib} {TL : TimestampLaws T} {BC : BlindBankContract} {WB : BankWire T}
    {WBL : BankWireLaws T WB} {BL : BackoffLib} {BLL : BackoffLaws BL} b acc s :
  length (token_secret acc) = AccountTokenLength →
  (∀ reqs, Forall (λ r, value_ok (req_Value r)) reqs →
    let d := bc_WithdrawBatch acc reqs s in
    refusal_keeps d s → (∀ bal sigs, d.1 = Ok (bal, sigs) → length sigs = length reqs) →
    http_same (Client_WithdrawBatch (HC:=reliable_client) b acc reqs s) d) ∧
  (∀ env, let d := bc_WithdrawFullUnblinded env acc s in
    refusal_keeps d s → (∀ c, d.1 = Ok c → wire_ok (u_value c) (u_nonce c) (u_signature c)) →
    http_same (Client_WithdrawFullUnblinded (HC:=reliable_client) b env acc s) d) ∧
  (∀ env c, wire_ok (b_value c) (b_nonce c) (b_signature c) →
    let d := bc_Deposit env acc c s in
    refusal_keeps d s → http_same (Client_Deposit (HC:=reliable_client) b env acc c s) d) ∧
  (∀ env c req, wire_ok (credit_Value c) (credit_Nonce c) (credit_Signature c) → req_Value req = credit_Value c →
    let d := bc_Exchange env (Blinded (MkBlinded (credit_Value c) (credit_Nonce c) (credit_Signature c))) req s in
    refusal_keeps d s → http_same (Client_Exchange (HC:=reliable_client) b env c req s) d) ∧
  http_same (Client_Balance (HC:=reliable_client) b acc s) (Ok (bc_Balance acc s), s).
Proof.
  intros Hacc. split; [intros; by apply withdraw_batch_http|]. split; [intros; by apply withdraw_full_http|].
  split; [intros; by apply deposit_http|]. split; [intros; by apply exchange_http|by apply balance_http].
Qed.

Lemma withdraw_handled {T : TimestampLib} {BC : BlindBankContract} {WB : BankWire T} {WBL : BankWireLaws T WB}
    acc reqs ps data bal sigs (s s' : bank) :
  length (token_secret acc) = AccountTokenLength → batch_requests ps = Some reqs →
  marshal_message (MkBatchRequest ps (Some (SecretBytes acc))) = Ok data →
  bc_WithdrawBatch acc reqs s = (Ok (bal, sigs), s') →
  ∃ resp body, answers (ServeHTTP withdraw) data s resp body s' ∧ StatusCode resp = StatusOK ∧
    marshal_message (MkBatchResponse (Some bal) sigs) = Ok body.
Proof.
  intros Hacc%token_read Hread Hm Hd.
  destruct (respond_answers withdraw data (Ok (MkBatchResponse (Some bal) sigs)) s s') as (resp & body & Ha & Hc & Hb);
    [|intros; apply total_batch_response|exists resp, body; eauto].
  cbn [ServeHTTP]. unfold WithdrawBatchHandler, Decode. cbn [r_Body wrap_err mbind result_bind].
  rewrite (unmarshal_marshalled _ _ Hm). cbn [wrap_err bw_token bw_requests]. by rewrite Hacc, Hread, Hd.
Qed.

(** C29. A lost answer is paid for.  When the bank has executed a withdrawal but its
    answer does not reach the client, the client sends the withdrawal again, and
    the bank, which does not see the transfer identifier, executes it again: the
    account pays for two batches and the client gets one. *)
Theorem lost_withdrawal_paid_twice {T : TimestampLib} {BC : BlindBankContract} {BS : BlindBankSpec BC} {WB : BankWire T}
    {WBL : BankWireLaws T WB} {BL : BackoffLib} {BLL : BackoffLaws BL} b b' te acc reqs s s1 s2 bal1 sigs1 bal2 sigs2 :
  length (token_secret acc) = AccountTokenLength → Forall (λ r, value_ok (req_Value r)) reqs →
  bc_WithdrawBatch acc reqs s = (Ok (bal1, sigs1), s1) → bc_WithdrawBatch acc reqs s1 = (Ok (bal2, sigs2), s2) →
  length sigs2 = length reqs → retryable te = true → NextBackOff b = Again b' →
  Client_WithdrawBatch (HC:=lossy_client) b acc reqs ([LostResponse te], s) = Some (Ok (bal2, sigs2), ([], s2)) ∧
  bc_Balance acc s2 ≡₆₄ bc_Balance acc s - 2 * requested reqs.
Proof.
  intros Hacc Hv H1 H2 Hlen Hte Hb. split.
  - destruct (requests_read reqs Hv) as (ps & Hps & Hread).
    destruct (marshals _ (total_batch_request (MkBatchRequest ps (Some (SecretBytes acc))))) as [data Hm].
    destruct (withdraw_handled acc reqs ps data bal1 sigs1 s s1 Hacc Hread Hm H1) as (resp1 & body1 & Ha1 & _ & _).
    destruct (withdraw_handled acc reqs ps data bal2 sigs2 s1 s2 Hacc Hread Hm H2) as (resp2 & body2 & Ha2 & Hc2 & Hb2).
    unfold Client_WithdrawBatch, doRequest. rewrite Hps. cbn [http_Do lossy_client net].
    rewrite (post_lost (ServeHTTP withdraw) _ _ _ data Hm b b' te s resp1 body1 s1 resp2 body2 s2 Hte Hb Ha1 Ha2) by (by rewrite Hc2).
    unfold read_response. rewrite Hc2. cbn. unfold Decode. cbn [wrap_err mbind result_bind].
    rewrite (unmarshal_marshalled _ _ Hb2). cbn. by rewrite Hlen, Nat.eqb_refl.
  - apply withdraw_batch_ok in H1 as (_ & H1 & _), H2 as (_ & H2 & _). unfold eqm64 in *. rewrite H2.
    rewrite Zminus_mod, H1, <- Zminus_mod. f_equal. lia.
Qed.

(** ** Examples, with the in-memory bank behind the server *)

Section demo.
#[local] Existing Instances unix_timestamp unix_timestamp_laws counted_backoff counted_backoff_laws toy_rsa.

(** The fields of the messages, for a wire format. *)
Definition nonce_fields (m : Nonce.PbNonce) : option Z * option (list byte) := (Nonce.pb_timestamp m, Nonce.pb_nonce m).
Definition of_nonce_fields (x : option Z * option (list byte)) : Nonce.PbNonce := Nonce.MkPbNonce (x.1 : option timestamp) x.2.
Definition credit_fields (m : PbCredit) : option (option (list byte)) * option (option Z * option (list byte)) * option (list byte) :=
  (Currency.pb_currency <$> pb_value m, nonce_fields <$> pb_nonce m, pb_signature m).
Definition of_credit_fields (x : option (option (list byte)) * option (option Z * option (list byte)) * option (list byte)) : PbCredit :=
  MkPbCredit (Currency.MkPbCurrency <$> x.1.1) (of_nonce_fields <$> x.1.2) x.2.
Lemma credit_fields_of m : of_credit_fields (credit_fields m) = m.
Proof. by destruct m as [[[]|] [[]|] ?]. Qed.
Definition sign_fields (m : PbBlindSignRequest) : option (option (list byte)) * option (list byte) :=
  (Currency.pb_currency <$> bs_value m, bs_message m).
Definition of_sign_fields (x : option (option (list byte)) * option (list byte)) : PbBlindSignRequest :=
  MkPbBlindSign (Currency.MkPbCurrency <$> x.1) x.2.
Lemma sign_fields_of (l : list PbBlindSignRequest) : of_sign_fields <$> (sign_fields <$> l) = l.
Proof. induction l as [|[[[]|] ?] l IH]; [done|..]; cbn; by rewrite IH. Qed.

#[local] Instance record_bank_wire : BankWire unix_timestamp := {|
  wire_error := text_error_wire;
  wire_batch_request := record_wire (λ m, (sign_fields <$> bw_requests m, bw_token m)) (λ x, MkBatchRequest (of_sign_fields <$> x.1) x.2);
  wire_batch_response := record_wire (λ m, (bw_balance m, bw_signatures m)) (λ x, MkBatchResponse x.1 x.2);
  wire_full_request := record_wire wf_token MkFullRequest;
  wire_full_response := record_wire (λ m, credit_fields <$> wf_credit m) (λ x, MkFullResponse (of_credit_fields <$> x));
  wire_deposit_request := record_wire (λ m, (dp_token m, credit_fields <$> dp_credit m)) (λ x, MkDepositRequest x.1 (of_credit_fields <$> x.2));
  wire_deposit_response := record_wire dp_balance MkDepositResponse;
  wire_exchange_request := record_wire (λ m, (credit_fields <$> ex_credit m, ex_message m)) (λ x, MkExchangeRequest (of_credit_fields <$> x.1) x.2);
  wire_exchange_response := record_wire ex_signature MkExchangeResponse;
  wire_balance_request := record_wire ba_token MkBalanceRequest;
  wire_balance_response := record_wire ba_balance MkBalanceResponse;
|}.
#[local] Instance record_bank_wire_laws : BankWireLaws unix_timestamp record_bank_wire.
Proof.
  constructor; try (intros m; by eexists); try (apply record_wire_laws; intros []; done).
  - apply record_wire_laws. intros [l t]. cbn. by rewrite sign_fields_of.
  - apply record_wire_laws. intros [[c|]]; cbn; by rewrite ?credit_fields_of.
  - apply record_wire_laws. intros [t [c|]]; cbn; by rewrite ?credit_fields_of.
  - apply record_wire_laws. intros [[c|] t]; cbn; by rewrite ?credit_fields_of.
  - by eexists.
Qed.

Definition demo_funds : bank (BlindBankContract:=demo_contract) := (demo_bank, NewNonceLocker).
Definition demo_batch : list BlindSignRequest := [MkBlindSignRequest (Currency.MkValue false 20) [x07]].

Lemma http_bank_transparent_witness :
  http_same (Client_WithdrawBatch (HC:=reliable_client) (tries 1) demo_token demo_batch demo_funds)
    (bc_WithdrawBatch (BlindBankContract:=demo_contract) demo_token demo_batch demo_funds).
Proof.
  apply (proj1 (http_bank_transparent (BC:=demo_contract) (tries 1) demo_token demo_funds eq_refl) demo_batch).
  - repeat constructor; unfold Currency.value_wf; cbn; lia.
  - intros e He. vm_compute in He. discriminate He.
  - intros bal sigs H. vm_compute in H. injection H as _ <-. reflexivity.
Defined.

(** Two withdrawals of the batch: the balance after the second and its signatures. *)
Definition demo_twice : option (Z * nat) :=
  let '(r1, s1) := bc_WithdrawBatch (BlindBankContract:=demo_contract) demo_token demo_batch demo_funds in
  let '(r2, s2) := bc_WithdrawBatch (BlindBankContract:=demo_contract) demo_token demo_batch s1 in
  match r1, r2 with Ok _, Ok (bal, sigs) => Some (bal, length sigs) | _, _ => None end.

Lemma lost_withdrawal_paid_twice_witness :
  ∃ sigs s', Client_WithdrawBatch (HC:=lossy_client) (tries 1) demo_token demo_batch
      ([LostResponse (MkTransportError (ErrNew "timeout") (Some (true, "timeout")))], demo_funds) = Some (Ok (60, sigs), ([], s')) ∧
    bc_Balance (BlindBankContract:=demo_contract) demo_token s' ≡₆₄ 100 - 2 * 20.
Proof.
  assert (demo_twice = Some (60, 1%nat)) as Htwice by (vm_compute; reflexivity). unfold demo_twice in Htwice.
  destruct (bc_WithdrawBatch demo_token demo_batch demo_funds) as [[[bal1 sigs1]|e] s1] eqn:E1;
    destruct (bc_WithdrawBatch demo_token demo_batch s1) as [[[bal2 sigs2]|e2] s2] eqn:E2; try discriminate Htwice.
  injection Htwice as -> Hlen.
  assert (Forall (λ r, value_ok (req_Value r)) demo_batch) as Hv by (repeat constructor; unfold Currency.value_wf; cbn; lia).
  destruct (lost_withdrawal_paid_twice (BC:=demo_contract) (BS:=demo_spec) (tries 1) (tries 0)
    (MkTransportError (ErrNew "timeout") (Some (true, "timeout"))) demo_token demo_batch demo_funds s1 s2 bal1 sigs1 60 sigs2
    eq_refl Hv E1 E2 Hlen eq_refl eq_refl) as [H1 H2].
  exists sigs2, s2. split; [exact H1|].
  assert (bc_Balance (BlindBankContract:=demo_contract) demo_token demo_funds = 100) as Hbal by (vm_compute; reflexivity).
  rewrite Hbal in H2. exact H2.
Defined.
End demo.
