(* ===== verification/Pipeline.v ===== *)
(** The wallet pipeline ([wallet/internal/pipeline]): how consolidation groups
    what it collects into accounts ([consolidate.go]), how a batch is handed out
    credit by credit ([prefetch_withdraw.go]), how accounts are routed
    ([provide_accounts.go]) and how repeated results are gathered again
    ([transfer.go], type [RepResults]).  A pipeline step is a function from the
    sequence of its inputs to the sequence of its outputs; what runs in parallel
    between two steps may reorder the sequence arbitrarily. *)

From S2P Require Import Prelude GoLib Transfer.
From S2P Require Currency.

(** ** Repeated results *)

Record RepResults := MkRepResults { seen : gset Z; groupLen : option Z }.
Definition no_results : RepResults := MkRepResults ∅ None.

(** A repetition: its index and whether it is the last one. *)
Abbreviation rep := (Z * bool)%type.

Definition Add (r : rep) (g : RepResults) : RepResults :=
  let '(idx, last) := r in
  MkRepResults ({[ idx ]} ∪ seen g) (if last then Some (idx + 1) else groupLen g).

Definition Complete (g : RepResults) : bool :=
  match groupLen g with
  | None => false
  | Some n => Z.of_nat (size (seen g)) =? n
  end.

(** The gathering loops of [DedupeAccounts] and [DedupeBatches]: what is sent to
    the output while results come in, and what is still open when they end. *)
Fixpoint dedupe (results : gmap nat RepResults) (rs : list (nat * rep)) : list nat * gmap nat RepResults :=
  match rs with
  | [] => ([], results)
  | (k, r) :: rs =>
      let g := Add r (default no_results (results !! k)) in
      if Complete g then
        let '(out, open) := dedupe (delete k results) rs in (k :: out, open)
      else dedupe (<[k := g]> results) rs
  end.

(** [DedupeAccounts] sends every open account when its input is closed. *)
Definition DedupeAccounts {R : RangeOrder} (rs : list (nat * rep)) : list nat :=
  let '(out, open) := dedupe ∅ rs in out ++ range_keys (dom open).

(** [DedupeBatches] only passes batches on that still have credits. *)
Definition DedupeBatches {R : RangeOrder} (numCredits : nat → Z) (rs : list (nat * rep)) : list nat :=
  filter (λ k, 0 < numCredits k) (let '(out, open) := dedupe ∅ rs in out ++ range_keys (dom open)).

(** ** [consolidate.go] *)

Section consolidate.
Context {C : Type} (Balance : C → Z).

(** [FilterFullAccounts]: to be consolidated, or forwarded. *)
Definition FilterFullAccounts (TargetBalance : Z) (accs : list C) : list C * list C :=
  (filter (λ acc, Balance acc < TargetBalance) accs, filter (λ acc, TargetBalance ≤ Balance acc) accs).

Record ConsolidateIntent := MkConsolidateIntent {
  ci_From : C;
  ci_To : nat;
  ci_Index : Z;
  ci_Last : bool;
}.

(** The loop of [CreateIntents].  Fresh accounts are numbered as [AccountFunc]
    makes them; [acc] is the current one. *)
Fixpoint consolidate_intents (TargetBalance : Z) (acc : nat) (virtualBalance lastGroupIndex : Z) (vals : list C) :
    list ConsolidateIntent :=
  match vals with
  | [] => []
  | val :: vals =>
      let virtualBalance := (virtualBalance + Balance val)%i64 in
      let index := lastGroupIndex + 1 in
      let lastDupe := Z.max 1 TargetBalance <=? virtualBalance in
      MkConsolidateIntent val acc index lastDupe ::
        (if lastDupe then consolidate_intents TargetBalance (S acc) 0 0 vals
         else consolidate_intents TargetBalance acc virtualBalance lastGroupIndex vals)
  end.
Definition CreateIntents (TargetBalance : Z) (vals : list C) : list ConsolidateIntent :=
  consolidate_intents TargetBalance 0 0 0 vals.

Definition intent_rep (i : ConsolidateIntent) : nat * rep := (ci_To i, (ci_Index i, ci_Last i)).
End consolidate.

(** ** [prefetch_withdraw.go] *)

(** What the select of [CreateIntents] receives for a credit of the batch. *)
Inductive arrival :=
| GotRequest (req : nat)   (* a payment request *)
| BatchExpired             (* the expiration timer *)
| RequestsClosed.          (* the channel of requests is closed *)

(** The loop over the credits of a batch with [origNumCredits] credits, [index]
    of them used: the intents sent, and the state of [rep] when it is left. *)
Fixpoint batch_loop (origNumCredits index : nat) (todo : nat) (arrivals : list arrival) (current : rep) :
    list (nat * rep) * rep :=
  match todo with
  | 0%nat => ([], current)
  | S todo =>
      let current := (Z.of_nat index, current.2) in
      match arrivals with
      | GotRequest req :: arrivals =>
          let current := (Z.of_nat index, bool_decide (S index = origNumCredits)) in
          let '(intents, final) := batch_loop origNumCredits (S index) todo arrivals current in
          ((req, current) :: intents, final)
      | _ => ([], current)
      end
  end.

(** The intents for a batch, and the repetition sent on [remainingBatchReps]. *)
Definition batch_intents (origNumCredits : nat) (arrivals : list arrival) : list (nat * rep) * option rep :=
  let '(intents, final) := batch_loop origNumCredits 0 origNumCredits arrivals (0, false) in
  (intents, if final.2 then None else Some (final.1, true)).

(** Everything sent for a batch that will come back to [DedupeBatches]. *)
Definition batch_reps (origNumCredits : nat) (arrivals : list arrival) : list rep :=
  let '(intents, remaining) := batch_intents origNumCredits arrivals in
  (snd <$> intents) ++ match remaining with Some r => [r] | None => [] end.

(** [FilterLowAccounts] and the intent that splits an account into a batch. *)
Definition FilterLowAccounts (PrefetchAmount : Currency.Value) (balance : Z) : bool :=
  balance <? Currency.AmountOrZero PrefetchAmount.
Definition split_intent (PrefetchAmount : Currency.Value) (balance : Z) (acc batch : nat) : Intent :=
  MkIntent (MkWithdrawal false (Z.quot balance (Currency.AmountOrZero PrefetchAmount)) PrefetchAmount false)
    (FromAccount acc) (ToBatch batch).

(** The intent that hands a credit of a batch to a payment request. *)
Definition payment_intent (desired : Currency.Value) (batch req : nat) : Intent :=
  MkIntent (MkWithdrawal false 1 desired false) (FromBatch batch) (ToRequest req).

(** ** [provide_accounts.go] and [return_to_source.go] *)

Definition source_intent (SourceAmount : Currency.Value) (delay : Z) (acc : nat) : Intent :=
  MkIntent (MkWithdrawal false 1 SourceAmount true) (FromSource delay) (ToAccount acc).
Definition return_intent (from : Withdrawable) (delay : Z) : Intent := MkIntent FullWithdrawal from (ToSource delay).

(** Where [RouteAccounts] sends an account: back to the source, or onwards. *)
Definition route_to_source (closed : bool) (SourceAmount : Currency.Value) (balance : Z) : bool :=
  closed || (balance <? Currency.AmountOrZero SourceAmount).

(** ** Gathering is per key *)

(** What [dedupe] does with the results of one key: how often it is sent, and
    what is open at the end. *)
Fixpoint gather (o : option RepResults) (rs : list rep) : nat * option RepResults :=
  match rs with
  | [] => (0%nat, o)
  | r :: rs =>
      let g := Add r (default no_results o) in
      if Complete g then let '(n, o) := gather None rs in (S n, o) else gather (Some g) rs
  end.

Definition reps_of (k : nat) (rs : list (nat * rep)) : list rep := snd <$> filter (λ x, x.1 = k) rs.

Lemma reps_of_cons k j r rs :
  reps_of k ((j, r) :: rs) = if decide (j = k) then r :: reps_of k rs else reps_of k rs.
Proof.
  unfold reps_of. destruct (decide (j = k)); [by rewrite filter_cons_True|by rewrite filter_cons_False].
Qed.

Lemma dedupe_gather k results rs :
  gather (results !! k) (reps_of k rs) =
    (length (filter (λ x, x = k) (dedupe results rs).1), (dedupe results rs).2 !! k).
Proof.
  revert results. induction rs as [|[j r] rs IH]; intros results; [done|].
  rewrite reps_of_cons. cbn [dedupe]. destruct (decide (j = k)) as [->|Hne].
  - cbn [gather]. destruct (Complete _).
    + specialize (IH (delete k results)). rewrite lookup_delete_eq in IH. rewrite IH.
      destruct (dedupe (delete k results) rs) as [out open]. cbn [fst snd].
      by rewrite filter_cons_True.
    + rewrite <- IH. by rewrite lookup_insert_eq.
  - destruct (Complete _).
    + specialize (IH (delete j results)). rewrite lookup_delete_ne in IH by done. rewrite IH.
      destruct (dedupe (delete j results) rs) as [out open]. cbn [fst snd].
      by rewrite filter_cons_False.
    + rewrite <- IH. by rewrite lookup_insert_ne.
Qed.

(** The results of a whole group, in the order they were sent. *)
Definition group (n : nat) : list rep := (λ i, (i, bool_decide (i + 1 = Z.of_nat n))) <$> seqZ 0 (Z.of_nat n).

Definition gathered (p : list rep) : RepResults := foldl (λ g r, Add r g) no_results p.

Lemma gathered_app p r : gathered (p ++ [r]) = Add r (gathered p).
Proof. unfold gathered. by rewrite foldl_app. Qed.

Lemma gathered_seen p : seen (gathered p) = list_to_set (fst <$> p).
Proof.
  induction p as [|[i l] p IH] using rev_ind; [done|].
  rewrite gathered_app, fmap_app, list_to_set_app_L. simpl. rewrite IH. set_solver.
Qed.

Lemma gathered_len n p : (∀ i l, (i, l) ∈ p → l = bool_decide (i + 1 = n)) →
  groupLen (gathered p) = if decide ((n - 1) ∈ fst <$> p) then Some n else None.
Proof.
  induction p as [|[i l] p IH] using rev_ind; intros Hp; [done|].
  rewrite gathered_app. cbn [Add groupLen]. rewrite (Hp i l) by (apply elem_of_app; right; by apply list_elem_of_singleton).
  case_bool_decide as Hi.
  - rewrite decide_True; [f_equal; lia|]. rewrite fmap_app, elem_of_app. right.
    apply list_elem_of_fmap. eexists. split; [|by apply list_elem_of_singleton]. simpl. lia.
  - rewrite IH by (intros; apply Hp, elem_of_app; by left). apply decide_ext.
    rewrite fmap_app, elem_of_app. cbn [fmap list_fmap fst]. rewrite list_elem_of_singleton.
    split; [tauto|intros [?|?]; [done|lia]].
Qed.

Lemma group_elem n i l : (i, l) ∈ group n ↔ 0 ≤ i < Z.of_nat n ∧ l = bool_decide (i + 1 = Z.of_nat n).
Proof.
  unfold group. rewrite list_elem_of_fmap. setoid_rewrite elem_of_seqZ. naive_solver lia.
Qed.

Lemma group_fst n : fst <$> group n = seqZ 0 (Z.of_nat n).
Proof. unfold group. rewrite <- list_fmap_compose. by apply list_fmap_id. Qed.

Lemma length_group n : length (group n) = n.
Proof. unfold group. by rewrite length_fmap, length_seqZ, Nat2Z.id. Qed.

(** A part of a group, in any order, is complete exactly when it is all of it. *)
Lemma Complete_part n p rest : p ++ rest ≡ₚ group n → p ≠ [] → Complete (gathered p) = bool_decide (rest = []).
Proof.
  intros Hp Hne. unfold Complete.
  assert (NoDup (fst <$> (p ++ rest))) as Hnd by (rewrite Hp, group_fst; apply NoDup_seqZ).
  assert (length p + length rest = n)%nat as Hlen
    by (by rewrite <- length_app, Hp, length_group).
  rewrite (gathered_len (Z.of_nat n)).
  2: { intros i l Hin. apply (group_elem n). rewrite <- Hp. apply elem_of_app. by left. }
  rewrite fmap_app in Hnd. apply NoDup_app in Hnd as (Hnd & _ & _).
  assert (size (seen (gathered p)) = length p) as Hsize.
  { rewrite gathered_seen, size_list_to_set, length_fmap by done. done. }
  destruct (decide _) as [Hin|Hnin]; case_bool_decide as Hr.
  - subst rest. simpl in Hlen. lia.
  - rewrite Hsize. apply Z.eqb_neq. destruct rest; [done|simpl in Hlen; lia].
  - exfalso. subst rest. rewrite app_nil_r in Hp. apply Hnin. rewrite Hp, group_fst, elem_of_seqZ.
    destruct p; [done|simpl in Hlen; lia].
  - done.
Qed.

Lemma gather_group n rest p : p ++ rest ≡ₚ group n → rest ≠ [] →
  gather (if decide (p = []) then None else Some (gathered p)) rest = (1%nat, None).
Proof.
  revert p. induction rest as [|r rest IH]; intros p Hp Hne; [done|]. cbn [gather].
  assert (default no_results (if decide (p = []) then None else Some (gathered p)) = gathered p) as ->
    by (case_decide; by subst).
  rewrite <- gathered_app.
  rewrite (Complete_part n (p ++ [r]) rest) by (rewrite <- ?app_assoc; done || by destruct p).
  case_bool_decide as Hr; [by subst|].
  rewrite <- (IH (p ++ [r])) by (rewrite <- ?app_assoc; done). by rewrite decide_False by (by destruct p).
Qed.

Lemma batch_loop_spec n index todo arrivals c :
  (index + todo = n)%nat → (todo ≠ 0%nat → c.2 = false) →
  let '(intents, final) := batch_loop n index todo arrivals c in
  ∃ j, (j ≤ todo)%nat ∧
    snd <$> intents = (λ i, (i, bool_decide (i + 1 = Z.of_nat n))) <$> seqZ (Z.of_nat index) (Z.of_nat j) ∧
    (if decide (j = todo) then (if decide (todo = 0%nat) then final = c else final.2 = true)
     else final = (Z.of_nat index + Z.of_nat j, false)).
Proof.
  revert index arrivals c. induction todo as [|todo IH]; intros index arrivals c Hn Hc; cbn [batch_loop].
  { exists 0%nat. done. }
  rewrite Hc by done.
  assert (∃ j, (j ≤ S todo)%nat ∧
    snd <$> ([] : list (nat * rep)) =
      (λ i, (i, bool_decide (i + 1 = Z.of_nat n))) <$> seqZ (Z.of_nat index) (Z.of_nat j) ∧
    (if decide (j = S todo) then (if decide (S todo = 0%nat) then (Z.of_nat index, false) = c
       else (Z.of_nat index, false).2 = true)
     else (Z.of_nat index, false) = (Z.of_nat index + Z.of_nat j, false))) as Hstop.
  { exists 0%nat. split; [lia|]. split; [done|]. simpl. by rewrite Z.add_0_r. }
  destruct arrivals as [|[req| |] arrivals]; [exact Hstop| |exact Hstop|exact Hstop].
  specialize (IH (S index) arrivals (Z.of_nat index, bool_decide (S index = n)) ltac:(lia)).
  destruct (batch_loop n (S index) todo arrivals _) as [intents final].
  destruct IH as (j & Hj & Hi & Hf). { intros. simpl. apply bool_decide_eq_false_2. lia. }
  exists (S j). split; [lia|]. split.
  - rewrite seqZ_cons by lia. rewrite !fmap_cons. cbn [snd]. f_equal.
    + f_equal. apply bool_decide_ext. lia.
    + rewrite Hi. do 2 f_equal; lia.
  - destruct (decide (S j = S todo)) as [E|Hne].
    + rewrite decide_True in Hf by lia. rewrite decide_False by done.
      destruct (decide (todo = 0%nat)); [|done]. subst. simpl. apply bool_decide_eq_true_2. lia.
    + rewrite decide_False in Hf by lia. rewrite Hf. f_equal. lia.
Qed.

(** What is sent for a batch is one group, whatever requests arrive when. *)
Lemma batch_reps_group n arrivals : ∃ m, batch_reps n arrivals = group (S m).
Proof.
  unfold batch_reps, batch_intents.
  pose proof (batch_loop_spec n 0 n arrivals (0, false) ltac:(lia) ltac:(done)) as H.
  destruct (batch_loop n 0 n arrivals (0, false)) as [intents final].
  destruct H as (j & Hj & Hi & Hf). rewrite Hi.
  destruct (decide (j = n)) as [->|Hne]; [destruct (decide (n = 0%nat)) as [->|Hn]|].
  - exists 0%nat. by rewrite Hf.
  - rewrite Hf. destruct n as [|n]; [done|]. exists n. unfold group. by rewrite app_nil_r.
  - rewrite Hf. exists j. unfold group. cbn [snd fst]. rewrite seqZ_S, fmap_app. f_equal.
    + apply list_fmap_ext. intros i x Hx%list_elem_of_lookup_2%elem_of_seqZ. f_equal.
      apply bool_decide_ext. lia.
    + cbn [fmap list_fmap]. do 2 f_equal. symmetry. apply bool_decide_eq_true_2. lia.
Qed.

Lemma NoDup_filter_once {A} `{EqDecision A} (l : list A) :
  (∀ k, (length (filter (λ x, x = k) l) ≤ 1)%nat) → NoDup l.
Proof.
  induction l as [|x l IH]; intros H; constructor.
  - intros Hin. specialize (H x). rewrite filter_cons_True in H by done. simpl in H.
    destruct (filter (λ y, y = x) l) eqn:E; [|simpl in H; lia].
    assert (x ∈ filter (λ y, y = x) l) as Hf by (by apply list_elem_of_filter).
    rewrite E in Hf. by apply not_elem_of_nil in Hf.
  - apply IH. intros k. specialize (H k). rewrite filter_cons in H. case_decide; simpl in H; lia.
Qed.

(** No batch is lost or returned twice.  For any batches, whatever payment
    requests arrive, whenever their timers expire or the requests are closed, and
    however the transfers of all batches interleave, [DedupeBatches] returns
    every batch that has credits left exactly once, and none is still open when
    its inputs close. *)
Theorem batches_returned_once {R : RangeOrder} (batches : gmap nat (nat * list arrival)) numCredits rs :
  (∀ k, reps_of k rs ≡ₚ match batches !! k with Some (n, arrivals) => batch_reps n arrivals | None => [] end) →
  (dedupe ∅ rs).2 = ∅ ∧ NoDup (DedupeBatches numCredits rs) ∧
  ∀ k, k ∈ DedupeBatches numCredits rs ↔ is_Some (batches !! k) ∧ 0 < numCredits k.
Proof.
  intros Hrs.
  assert (∀ k, (dedupe ∅ rs).2 !! k = None ∧
    length (filter (λ x, x = k) (dedupe ∅ rs).1) = if batches !! k then 1%nat else 0%nat) as Hk.
  { intros k. pose proof (dedupe_gather k ∅ rs) as Hg. rewrite lookup_empty in Hg. specialize (Hrs k).
    destruct (batches !! k) as [[n arrivals]|].
    - destruct (batch_reps_group n arrivals) as [m Hm]. rewrite Hm in Hrs.
      pose proof (gather_group (S m) (reps_of k rs) [] Hrs) as H. simpl in H. rewrite H in Hg.
      + by simplify_eq.
      + intros E. rewrite E in Hrs. apply Permutation_length in Hrs. by rewrite length_group in Hrs.
    - apply Permutation_nil_r in Hrs. rewrite Hrs in Hg. simpl in Hg. by simplify_eq. }
  assert ((dedupe ∅ rs).2 = ∅) as Hopen by (apply map_empty; intros k; apply Hk).
  split; [done|]. unfold DedupeBatches. destruct (dedupe ∅ rs) as [out open]. cbn [fst snd] in *. subst open.
  assert (range_keys (dom (∅ : gmap nat RepResults)) = []) as ->.
  { apply Permutation_nil_r. rewrite range_keys_perm, dom_empty_L. by rewrite elements_empty. }
  rewrite app_nil_r. assert (∀ k, k ∈ out ↔ is_Some (batches !! k)) as Hin.
  { intros k. destruct (Hk k) as [_ Hl]. split.
    - intros Hin. destruct (batches !! k); [done|]. apply nil_length_inv in Hl.
      assert (k ∈ filter (λ x, x = k) out) as Hf by (by apply list_elem_of_filter). rewrite Hl in Hf.
      by apply not_elem_of_nil in Hf.
    - intros [x Hx]. rewrite Hx in Hl. destruct (filter (λ x, x = k) out) as [|y l] eqn:E; [done|].
      assert (y ∈ filter (λ x, x = k) out) as [-> ?]%list_elem_of_filter by (rewrite E; left). done. }
  split.
  - apply NoDup_filter, NoDup_filter_once. intros k. destruct (Hk k) as [_ ->]. by case_match; lia.
  - intros k. rewrite list_elem_of_filter, Hin. tauto.
Qed.

Definition demo_batches : gmap nat (nat * list arrival) :=
  {[ 0%nat := (2%nat, [GotRequest 7; BatchExpired]); 1%nat := (1%nat, [GotRequest 8]) ]}.
Definition demo_reps : list (nat * rep) := [(0%nat, (1, true)); (1%nat, (0, true)); (0%nat, (0, false))].

Lemma batches_returned_once_witness :
  DedupeBatches (R:=elements_order) (λ k, if decide (k = 0%nat) then 1 else 0) demo_reps = [0%nat] ∧
  0%nat ∈ DedupeBatches (R:=elements_order) (λ k, if decide (k = 0%nat) then 1 else 0) demo_reps.
Proof.
  split; [vm_compute; reflexivity|].
  apply (batches_returned_once (R:=elements_order) demo_batches); [|by split].
  intros [|[|k]].
  - change (demo_batches !! 0%nat) with (Some (2%nat, [GotRequest 7; BatchExpired])).
    apply Permutation_swap.
  - change (demo_batches !! 1%nat) with (Some (1%nat, [GotRequest 8])). reflexivity.
  - assert (demo_batches !! S (S k) = None) as -> by
      (unfold demo_batches; rewrite lookup_insert_ne by done; by apply lookup_singleton_ne).
    reflexivity.
Defined.

(** ** Consolidation *)

Section groups.
Context {C : Type} (Balance : C → Z).

Lemma consolidate_index T acc vb vals :
  Forall (λ i, ci_Index i = 1) (consolidate_intents Balance T acc vb 0 vals).
Proof.
  revert acc vb. induction vals as [|v vals IH]; intros acc vb; [constructor|].
  cbn [consolidate_intents]. constructor; [done|]. by case_match.
Qed.

(** With every index one, nothing is ever complete. *)
Lemma dedupe_index_one results rs :
  map_Forall (λ _ g, seen g = {[ 1 ]} ∧ (groupLen g = None ∨ groupLen g = Some 2)) results →
  Forall (λ r, r.2.1 = 1) rs →
  ∃ open, dedupe results rs = ([], open) ∧ ∀ k, k ∈ dom open ↔ k ∈ dom results ∨ k ∈ fst <$> rs.
Proof.
  intros Hres Hrs. revert results Hres. induction Hrs as [|[k [i l]] rs Hi Hrs IH]; intros results Hres.
  { exists results. split; [done|]. set_solver. }
  simpl in Hi. subst i. cbn [dedupe].
  set (g := Add (1, l) (default no_results (results !! k))).
  assert (seen g = {[ 1 ]} ∧ (groupLen g = None ∨ groupLen g = Some 2)) as [Hs Hl].
  { unfold g. destruct (results !! k) as [g0|] eqn:E; simpl.
    - apply Hres in E as [Hs Hl]. rewrite Hs.
      split; [set_solver|]. destruct l; [by right|done].
    - split; [set_solver|]. destruct l; [by right|by left]. }
  assert (Complete g = false) as ->.
  { unfold Complete. rewrite Hs, size_singleton. by destruct Hl as [-> | ->]. }
  destruct (IH (<[k := g]> results)) as (open & Hd & Hin); [by apply map_Forall_insert_2|].
  exists open. split; [done|]. intros j. rewrite Hin, dom_insert, fmap_cons, elem_of_cons. set_solver.
Qed.

(** The sum of the balances, and a group that has just reached the target. *)
Definition total (vals : list C) : Z := sum_Z (Balance <$> vals).
Definition full_group (T : Z) (g : list C) : Prop :=
  ∃ init last, g = init ++ [last] ∧ total init < T ≤ total g.

(** The intents that fill the accounts from [acc] on with the given groups. *)
Fixpoint filling (acc : nat) (groups : list (list C)) (rest : list C) : list (C * nat * bool) :=
  match groups with
  | [] => (λ v, (v, acc, false)) <$> rest
  | g :: groups =>
      imap (λ j v, (v, acc, bool_decide (S j = length g))) g ++ filling (S acc) groups rest
  end.

Lemma imap_group (acc : nat) (init : list C) v :
  imap (λ j w, (w, acc, bool_decide (S j = length (init ++ [v])))) (init ++ [v]) =
    ((λ w, (w, acc, false)) <$> init) ++ [(v, acc, true)].
Proof.
  rewrite imap_app. f_equal.
  - rewrite <- imap_const. apply imap_ext. intros i x Hx%lookup_lt_Some. simpl.
    rewrite bool_decide_eq_false_2; [done|]. rewrite length_app. simpl. lia.
  - simpl. do 2 f_equal. apply bool_decide_eq_true_2. rewrite length_app. simpl. lia.
Qed.

Definition intent_parts (i : ConsolidateIntent (C:=C)) : C * nat * bool := (ci_From i, ci_To i, ci_Last i).

Lemma total_app l k : total (l ++ k) = total l + total k.
Proof. unfold total. by rewrite fmap_app, sum_Z_app. Qed.

Lemma total_nonneg l : Forall (λ v, 0 ≤ Balance v) l → 0 ≤ total l.
Proof. unfold total. induction 1; simpl; [done|]. unfold sum_Z, fmap in *. lia. Qed.

Lemma consolidate_groups T acc init vals i0 :
  let T' := Z.max 1 T in
  total init < T' → Forall (λ v, 0 ≤ Balance v) (init ++ vals) → total (init ++ vals) < 2 ^ 63 →
  ∃ groups rest, init ++ vals = concat groups ++ rest ∧ Forall (full_group T') groups ∧ total rest < T' ∧
    ((λ v, (v, acc, false)) <$> init) ++
      (intent_parts <$> consolidate_intents Balance T acc (total init) i0 vals) = filling acc groups rest.
Proof.
  cbv zeta. revert acc init i0. induction vals as [|v vals IH]; intros acc init i0 Hi Hpos Hmax.
  { exists [], init. cbn [consolidate_intents fmap list_fmap filling concat]. by rewrite !app_nil_r. }
  rewrite (cons_middle v init vals), app_assoc in Hpos, Hmax.
  apply Forall_app in Hpos as Hp. destruct Hp as [Hp1 Hp2].
  pose proof (total_nonneg _ Hp1). pose proof (total_nonneg _ Hp2). rewrite total_app in Hmax.
  cbn [consolidate_intents].
  assert (wrap_s 64 (total init + Balance v) = total (init ++ [v])) as ->.
  { rewrite total_app in *. change (total [v]) with (Balance v + 0) in *.
    rewrite wrap_s64_small by (unfold in_int64; lia). lia. }
  rewrite (cons_middle v init vals), app_assoc, fmap_cons.
  destruct (Z.leb_spec (Z.max 1 T) (total (init ++ [v]))) as [Hle|Hlt].
  - destruct (IH (S acc) [] 0) as (groups & rest & Hv & Hg & Hr & Hf); [unfold total; simpl; lia|done|simpl; lia|].
    exists ((init ++ [v]) :: groups), rest. simpl in Hv. split_and!.
    + simpl. rewrite Hv. by rewrite !app_assoc.
    + constructor; [|done]. by exists init, v.
    + done.
    + cbn [filling]. rewrite imap_group, <- Hf. rewrite <- app_assoc. done.
  - destruct (IH acc (init ++ [v]) i0) as (groups & rest & Hv & Hg & Hr & Hf);
      [done|done|by rewrite total_app|].
    exists groups, rest. split_and!; try done. rewrite <- Hf, fmap_app, <- app_assoc. done.
Qed.
End groups.

(** Consolidation fills account after account.  The collected amounts are
    taken in order and each exactly once; they are cut into groups that have
    just reached the target balance (or one, if the target is not positive), one
    group per fresh account, with the last intent of a group and no other marked
    as last; only the final account may stay below the target. *)
Theorem consolidation_groups {C} (Balance : C → Z) T vals :
  let T' := Z.max 1 T in
  Forall (λ v, 0 ≤ Balance v) vals → total Balance vals < 2 ^ 63 →
  ∃ groups rest, vals = concat groups ++ rest ∧ Forall (full_group Balance T') groups ∧ total Balance rest < T' ∧
    intent_parts <$> CreateIntents Balance T vals = filling 0 groups rest.
Proof.
  intros T' Hpos Hmax. apply (consolidate_groups Balance T 0 [] vals 0); [unfold total; simpl; lia|done|done].
Qed.

Lemma consolidation_groups_witness :
  intent_parts <$> CreateIntents (λ z, z) 10 [4; 7; 3] = [(4, 0%nat, false); (7, 0%nat, true); (3, 1%nat, false)] ∧
  ∃ groups rest, [4; 7; 3] = concat groups ++ rest ∧ Forall (full_group (λ z, z) 10) groups.
Proof.
  split; [reflexivity|].
  destruct (consolidation_groups (λ z, z) 10 [4; 7; 3]) as (groups & rest & H & Hf & _);
    [repeat constructor; lia|vm_compute; reflexivity|by exists groups, rest].
Defined.

(** Consolidated accounts are held back until shutdown.  The indices
    [CreateIntents] hands out are all one, so a group never counts as complete:
    whatever is consolidated and in whatever order the transfers finish,
    [DedupeAccounts] sends no account on while its input is open, full accounts
    included, and sends each of them once when the input closes. *)
Theorem consolidated_accounts_held_back {R : RangeOrder} {C} (Balance : C → Z) T vals rs :
  (∀ r, r ∈ rs → r ∈ intent_rep <$> CreateIntents Balance T vals) →
  (dedupe ∅ rs).1 = [] ∧ NoDup (DedupeAccounts rs) ∧ ∀ k, k ∈ DedupeAccounts rs ↔ k ∈ fst <$> rs.
Proof.
  intros Hrs.
  destruct (dedupe_index_one ∅ rs) as (open & Hd & Hin).
  { apply map_Forall_empty. }
  { apply Forall_forall. intros r Hr%Hrs. apply list_elem_of_fmap in Hr as (i & -> & Hi). simpl.
    exact (proj1 (Forall_forall _ _) (consolidate_index Balance T 0 0 vals) i Hi). }
  unfold DedupeAccounts. rewrite Hd. simpl. split_and!; [done|apply range_keys_nodup|].
  intros k. rewrite range_keys_elem, Hin. set_solver.
Qed.

Lemma consolidated_accounts_held_back_witness :
  let rs := intent_rep <$> CreateIntents (λ z, z) 10 [4; 7; 3] in
  (dedupe ∅ rs).1 = [] ∧ 0%nat ∈ DedupeAccounts (R:=elements_order) rs.
Proof.
  cbv zeta. destruct (consolidated_accounts_held_back (R:=elements_order) (λ z, z) 10 [4; 7; 3]
    (intent_rep <$> CreateIntents (λ z, z) 10 [4; 7; 3])) as (H1 & _ & H2); [done|].
  split; [exact H1|]. apply H2. vm_compute. left.
Defined.
