(* ===== verification/Steps.v ===== *)
(** The steps that pipelines are made of: receiving with a priority ([work/io.go]),
    the serial step ([work/pipeline_steps.go]), pairing withdrawals with deposits
    ([wallet/internal/pipeline/transfer.go]), routing accounts
    ([provide_accounts.go]) and the wiring of the wallet's pipeline
    ([wallet.go]).  A channel read by one step is the list of what it receives,
    with how it ends. *)

From S2P Require Import Prelude GoLib Work.
From S2P Require Currency Pipeline.

(** ** [io.go] *)

(** A channel at a moment: [nil], open or closed, with the values it holds. *)
Inductive chan (T : Type) := NilChan | OpenChan (vals : list T) | ClosedChan (vals : list T).
#[global] Arguments NilChan {T}.
#[global] Arguments OpenChan {T}.
#[global] Arguments ClosedChan {T}.

Section io.
Context {T : Type}.

Inductive recv := Val (v : T) | NotOk | Blocked.
Definition receive (c : chan T) : recv * chan T :=
  match c with
  | OpenChan (v :: vals) => (Val v, OpenChan vals)
  | ClosedChan (v :: vals) => (Val v, ClosedChan vals)
  | ClosedChan [] => (NotOk, c)
  | _ => (Blocked, c)
  end.

Record PrioritizedInput := MkPrioritized { Priority : chan T; Fallback : chan T }.
Inductive received := Got (v : T) | ErrInputClosed | Waits.

(** [Receive] while the context is not done; each round that receives no value
    sets one of the two channels to [nil]. *)
Fixpoint Receive (fuel : nat) (p : PrioritizedInput) : option (received * PrioritizedInput) :=
  match fuel with
  | O => None
  | S fuel =>
      let again p :=
        match Priority p, Fallback p with
        | NilChan, NilChan => Some (ErrInputClosed, p)
        | _, _ => Receive fuel p
        end in
      match receive (Priority p) with
      | (Val v, c) => Some (Got v, MkPrioritized c (Fallback p))
      | (NotOk, _) => again (MkPrioritized NilChan (Fallback p))
      | (Blocked, _) =>
          match receive (Fallback p) with
          | (Val v, c) => Some (Got v, MkPrioritized (Priority p) c)
          | (NotOk, _) => again (MkPrioritized (Priority p) NilChan)
          | (Blocked, _) => Some (Waits, p)
          end
      end
  end.

Definition values (c : chan T) : list T := match c with NilChan => [] | OpenChan vals | ClosedChan vals => vals end.
Definition ended (c : chan T) : bool := match c with OpenChan _ => false | _ => true end.

(** [Receive] returns within three rounds: the first value of the priority
    channel if it has one, or else the first of the fallback; with neither it
    reports the inputs closed only when none is open, and waits otherwise; but
    once both are [nil] it waits too, so that a caller that asks again after
    the end blocks until its context is done. *)
Theorem Receive_prioritizes p : ∃ p', Receive 3 p = Some
  (match values (Priority p), values (Fallback p) with
   | v :: _, _ => Got v
   | [], v :: _ => Got v
   | [], [] =>
       if ended (Priority p) && ended (Fallback p) then match p with MkPrioritized NilChan NilChan => Waits | _ => ErrInputClosed end
       else Waits
   end, p') ∧
  values (Priority p') = tail (values (Priority p)) ∧
  values (Fallback p') = (if decide (values (Priority p) = []) then tail (values (Fallback p)) else values (Fallback p)).
Proof.
  destruct p as [[|[|v vs]|[|v vs]] [|[|w ws]|[|w ws]]]; eexists; (split; [reflexivity|split; reflexivity]).
Qed.
End io.

(** ** [pipeline_steps.go]: [NewSyncStep] *)

Section serial.
Context {In Out : Type} (Func : In → result string Out) (send : nat → option string) (has_RemainingInput : bool).

(** What was sent and what was handed to [RemainingInput], given the inputs, the
    error that ends them ([None]: they are closed) and what each [Send] returns. *)
Fixpoint serial_step (ins : list In) (fin : option string) (n : nat) : list Out * list (In * string) * option string :=
  match ins with
  | [] => ([], [], fin)
  | x :: ins =>
      let fail err := ([], if has_RemainingInput then [(x, err)] else [], Some err) in
      match Func x with
      | Err e => fail ("func failed: " +:+ e)
      | Ok o =>
          match send n with
          | Some e => fail ("failed to send output: " +:+ e)
          | None => let '(outs, rest, err) := serial_step ins fin (S n) in (o :: outs, rest, err)
          end
      end
  end.

(** The serial step sends its outputs in the order of its inputs, each the
    function of its input, up to the first failure; it hands back exactly the
    input that failed, whether in the function or in the send, and without a
    failure it returns the error the inputs ended with. *)
Theorem serial_step_in_order ins fin n outs rest err :
  serial_step ins fin n = (outs, rest, err) →
  ∃ done todo, ins = done ++ todo ∧ Forall2 (λ x o, Func x = Ok o) done outs ∧
    match todo with
    | [] => rest = [] ∧ err = fin
    | x :: _ => err ≠ None ∧ (rest = if has_RemainingInput then [(x, default "" err)] else []) ∧
        ((∃ e, Func x = Err e) ∨ send (n + length done) ≠ None)
    end.
Proof.
  induction ins as [|x ins IH] in n, outs |- *; cbn [serial_step].
  - intros [= <- <- <-]. exists [], []. by repeat split.
  - destruct (Func x) as [o|e] eqn:Ef.
    + destruct (send n) as [e|] eqn:Es.
      * intros [= <- <- <-]. exists [], (x :: ins). split; [done|]. split; [constructor|]. split; [done|]. split; [done|]. right.
        cbn. by rewrite Nat.add_0_r, Es.
      * destruct (serial_step ins fin (S n)) as [[outs' rest'] err'] eqn:E. intros [= <- <- <-].
        destruct (IH _ _ E) as (done & todo & -> & Hd & Ht). exists (x :: done), todo. split; [done|]. split; [by constructor|].
        cbn [length]. by rewrite <- Nat.add_succ_comm.
    + intros [= <- <- <-]. exists [], (x :: ins). split; [done|]. split; [constructor|]. split; [done|]. split; [done|]. left. eauto.
Qed.
End serial.

(** ** [transfer.go]: [NewCombinedTransferSteps] *)

Section combined.
Context {W D I : Type} (zeroW : W) (zeroD : D) (NewIntent : W → D → result string I).

(** An input: [None] when the channel is not set; its values and how it ends. *)
Definition input A : Type := option (list A * option string).

(** How the loop of [CreateIntents] ends: an error, or with one of the inputs
    closed; then with what was received of the others. *)
Record loop_end := MkEnd {
  lastFrom : W; fromClosed : bool; receivedFrom : bool; toClosed : bool;
  rest_from : list W; rest_to : list D;
}.

(** The intents that were sent, given what each [Send] returns. *)
Fixpoint create_loop (send : nat → option string) (fuel n : nat) (last : W) (ws : input W) (ds : input D) : option (list I * (loop_end + string)) :=
  match fuel with
  | O => None
  | S fuel =>
      let rest {A} (i : input A) := match i with Some (l, _) => l | None => [] end in
      let stop lf fc rf tc ws ds := Some ([], inl (MkEnd lf fc rf tc (rest ws) (rest ds))) in
      let continue from to ws ds :=
        match NewIntent from to with
        | Err e => Some ([], inr ("failed to create transfer input: " +:+ e))
        | Ok intent =>
            match send n with
            | Some e => Some ([], inr ("failed to send transfer: " +:+ e))
            | None =>
                '(sent, r) ← create_loop send fuel (S n) (if ws is Some _ then from else last) ws ds;
                Some (intent :: sent, r)
            end
        end in
      let receive_to from lf rf ws :=
        match ds with
        | None => continue from zeroD ws ds
        | Some (to :: l, e) => continue from to ws (Some (l, e))
        | Some ([], None) => stop lf false rf true ws ds
        | Some ([], Some e) => Some ([], inr e)
        end in
      match ws with
      | None => receive_to zeroW last false ws
      | Some (from :: l, e) => receive_to from from true (Some (l, e))
      | Some ([], None) => stop last true false false ws ds
      | Some ([], Some e) => Some ([], inr e)
      end
  end.

(** What the drains are sent when the loop ended, when sending succeeds. *)
Definition drain_withdrawables (set : bool) (e : loop_end) : list W :=
  if set && negb (fromClosed e) then (if receivedFrom e then [lastFrom e] else []) ++ rest_from e else [].
Definition drain_depositables (set : bool) (e : loop_end) : list D :=
  if set && negb (toClosed e) then rest_to e else [].

(** [MapTransfersToOutputs] and [FilterNilTransfers], on the transfers received. *)
Definition map_outputs {T} (From : T → W) (To : T → D) (MapFunc : option (T → bool * bool)) (outW outD : bool) (ts : list T) : list W * list D :=
  let keep t := match MapFunc with Some f => f t | None => (true, true) end in
  (omap (λ t, if (keep t).1 && outW then Some (From t) else None) ts, omap (λ t, if (keep t).2 && outD then Some (To t) else None) ts).
Definition filter_nil {T} (out : bool) (results : list (option T)) : list T :=
  if out then omap id results else [].

Lemma create_loop_pairs send n last ws ds fuel : (∀ w d, is_ok (NewIntent w d) = true) → (∀ k, send k = None) → (length ws < fuel)%nat →
  ∃ sent e, create_loop send fuel n last (Some (ws, None)) (Some (ds, None)) = Some (sent, inl e) ∧
    Forall2 (λ wd i, NewIntent wd.1 wd.2 = Ok i) (zip ws ds) sent ∧
    drain_withdrawables true e = drop (length ds) ws ∧ drain_depositables true e = drop (length ws) ds.
Proof.
  intros Hok Hsend. induction fuel as [|fuel IH] in n, last, ws, ds |- *; intros Hf; [lia|]. cbn [create_loop].
  destruct ws as [|w ws]; [eexists; eexists; split; [reflexivity|split; [constructor|by destruct ds]]|].
  destruct ds as [|d ds]; [eexists; eexists; split; [reflexivity|split; [constructor|done]]|].
  pose proof (Hok w d) as H. destruct (NewIntent w d) as [i|] eqn:Ei; [|done]. rewrite Hsend.
  destruct (IH (S n) w ws ds) as (sent & e & -> & Hs & Hw & Hd); [cbn in Hf; lia|].
  eexists; eexists. split; [reflexivity|]. split; [by constructor|]. done.
Qed.

(** Pairing withdrawals with deposits loses none: when nothing fails, the
    loop ends once one of the inputs is closed, having made an intent of each
    pair in order, and the drains receive exactly the rest of the longer input,
    the withdrawable already received when the deposits ran out included. *)
Theorem pairing_loses_none send ws ds :
  (∀ w d, is_ok (NewIntent w d) = true) → (∀ k, send k = None) →
  ∃ sent e, create_loop send (S (length ws)) 0 zeroW (Some (ws, None)) (Some (ds, None)) = Some (sent, inl e) ∧
    Forall2 (λ wd i, NewIntent wd.1 wd.2 = Ok i) (zip ws ds) sent ∧
    (zip ws ds).*1 ++ drain_withdrawables true e = ws ∧ (zip ws ds).*2 ++ drain_depositables true e = ds.
Proof.
  intros Hok Hsend. destruct (create_loop_pairs send 0 zeroW ws ds (S (length ws)) Hok Hsend) as (sent & e & H & Hs & Hw & Hd); [lia|].
  exists sent, e. split; [done|]. split; [done|]. rewrite Hw, Hd. clear. induction ws as [|w ws IH] in ds |- *; [by destruct ds|].
  destruct ds as [|d ds]; [done|]. cbn. destruct (IH ds) as [-> ->]. done.
Qed.
End combined.

(** ** [provide_accounts.go]: [RouteAccounts] *)

Section route.
Context {A : Type} (Balance : A → Z) (SourceAmount : Currency.Value).

(** What the loop's [select] finds. *)
Inductive event :=
| CtxDone (e : string)
| Signal (ok : bool)
| FromInput (acc : option A)     (* [None]: closed *)
| FromSource (acc : option A).

(** The channels that are still set, and what was done with the outputs. *)
Record router := MkRouter {
  closeSignal : bool; priority : bool; fallback : bool;
  to_source : list A; to_withdraw : list A;
  withdraw_closes : nat;
  sent_after_close : bool;
}.
Definition start_router : router := MkRouter true true true [] [] 0 false.
Inductive routing := Routing | Done (err : option string).

(** The deferred function. *)
Definition leave (r : router) : router :=
  MkRouter (closeSignal r) (priority r) (fallback r) (to_source r) (to_withdraw r)
    (if closeSignal r then S (withdraw_closes r) else withdraw_closes r) (sent_after_close r).

(** One round: [sendErr] is what sending the account would return. *)
Definition route_round (ev : event) (sendErr : option string) (r : router) : router * routing :=
  let close_check r := if negb (closeSignal r) && negb (priority r) && negb (fallback r) then (leave r, Done None) else (r, Routing) in
  let send acc :=
    match sendErr with
    | Some e => (leave r, Done (Some ("failed to send output: " +:+ e)))
    | None =>
        if Pipeline.route_to_source (negb (closeSignal r)) SourceAmount (Balance acc)
        then (MkRouter (closeSignal r) (priority r) (fallback r) (to_source r ++ [acc]) (to_withdraw r) (withdraw_closes r) (sent_after_close r), Routing)
        else (MkRouter (closeSignal r) (priority r) (fallback r) (to_source r) (to_withdraw r ++ [acc]) (withdraw_closes r)
                (sent_after_close r || negb (withdraw_closes r =? 0)%nat), Routing)
    end in
  match ev with
  | CtxDone e => (leave r, Done (Some e))
  | Signal true => (r, Routing)
  | Signal false =>
      close_check (MkRouter false (priority r) (fallback r) (to_source r) (to_withdraw r) (S (withdraw_closes r)) (sent_after_close r))
  | FromInput None => close_check (MkRouter (closeSignal r) false (fallback r) (to_source r) (to_withdraw r) (withdraw_closes r) (sent_after_close r))
  | FromSource None => close_check (MkRouter (closeSignal r) (priority r) false (to_source r) (to_withdraw r) (withdraw_closes r) (sent_after_close r))
  | FromInput (Some acc) | FromSource (Some acc) => send acc
  end.

(** A channel that was set to [nil] is not selected again. *)
Definition selectable (ev : event) (r : router) : bool :=
  match ev with CtxDone _ => true | Signal _ => closeSignal r | FromInput _ => priority r | FromSource _ => fallback r end.

Fixpoint route (evs : list (event * option string)) (r : router) : option (router * routing) :=
  match evs with
  | [] => Some (r, Routing)
  | (ev, sendErr) :: evs =>
      if negb (selectable ev r) then None
      else match route_round ev sendErr r with
      | (r, Routing) => route evs r
      | (r, Done e) => Some (r, Done e)
      end
  end.

Definition accounts (evs : list (event * option string)) : list A :=
  omap (λ e, match e.1 with FromInput a | FromSource a => a | _ => None end) evs.

Record router_inv (r : router) : Prop := {
  inv_closes : withdraw_closes r = if closeSignal r then 0%nat else 1%nat;
  inv_sent : sent_after_close r = false;
  inv_withdraw : Forall (λ acc, Currency.AmountOrZero SourceAmount ≤ Balance acc) (to_withdraw r);
}.

(** The rounds that send an account. *)
#[local] Ltac route_sent cs a :=
  match goal with H : (match ?e with Some _ => _ | None => _ end) = _ |- _ => destruct e; [injection H as <- <-; cbn; by destruct cs|] end;
  match goal with H : _ = (_, _) |- _ =>
    destruct cs; cbn in H; [|by injection H as <- <-];
    destruct (Z.ltb_spec (Balance a) (Currency.AmountOrZero SourceAmount)); injection H as <- <-; [done|]
  end;
  cbn [to_withdraw sent_after_close];
  match goal with H : Forall ?P ?tw |- _ => assert (Forall P (tw ++ [a])) by (apply Forall_app; split; [done|by repeat constructor]); split_and!; [done|assumption|by split] end.

Lemma route_round_inv ev sendErr r r' o : selectable ev r = true → router_inv r → route_round ev sendErr r = (r', o) →
  sent_after_close r' = false ∧ Forall (λ acc, Currency.AmountOrZero SourceAmount ≤ Balance acc) (to_withdraw r') ∧
  match o with Routing => router_inv r' | Done _ => withdraw_closes r' = 1%nat end.
Proof.
  intros Hs [Hc Hn Hw] Hr. destruct r as [cs pr fb ts tw wc sac]. cbn in *. subst.
  destruct ev as [e|[]|[a|]|[a|]]; cbn in *; subst; unfold leave, Pipeline.route_to_source in Hr; cbn in Hr.
  - injection Hr as <- <-. cbn. by destruct cs.
  - by injection Hr as <- <-.
  - destruct pr, fb; injection Hr as <- <-; done.
  - route_sent cs a.
  - destruct cs, fb; injection Hr as <- <-; done.
  - route_sent cs a.
  - destruct cs, pr; injection Hr as <- <-; done.
Qed.

Lemma route_round_accounts ev sendErr r r' : route_round ev sendErr r = (r', Routing) →
  to_source r' ++ to_withdraw r' ≡ₚ to_source r ++ to_withdraw r ++ accounts [(ev, sendErr)].
Proof.
  intros Hr. destruct r as [cs pr fb ts tw wc sac]. destruct ev as [e|[]|[a|]|[a|]], sendErr; cbn in *; rewrite ?app_nil_r; try done;
    try (by injection Hr as <-); destruct (Pipeline.route_to_source _ _ _) || destruct cs, pr, fb; cbn in Hr; try done; injection Hr as <-; cbn; try done;
    try (by rewrite (Permutation_app_comm tw)); try (by rewrite app_assoc).
  all: by rewrite <- app_assoc, (Permutation_app_comm [a]).
Qed.

(** [RouteAccounts] loses no account and closes its private channel once,
    before or when it returns, and never sends on it after: an account goes to
    the withdrawals only while the pipeline is open and only with at least the
    amount of the source, any other goes back to the source. *)
Theorem accounts_routed evs r o :
  route evs start_router = Some (r, o) →
  sent_after_close r = false ∧
  Forall (λ acc, Currency.AmountOrZero SourceAmount ≤ Balance acc) (to_withdraw r) ∧
  match o with
  | Routing => to_source r ++ to_withdraw r ≡ₚ accounts evs ∧ withdraw_closes r = if closeSignal r then 0%nat else 1%nat
  | Done _ => withdraw_closes r = 1%nat
  end.
Proof.
  assert (router_inv start_router) as Hi by by split; cbn.
  change (accounts evs) with (to_source start_router ++ to_withdraw start_router ++ accounts evs).
  generalize dependent start_router. induction evs as [|[ev sendErr] evs IH]; cbn [route]; intros r0 Hi.
  - intros [= <- <-]. destruct Hi as [Hc Hn Hw]. split; [done|]. split; [done|]. split; [|done]. cbn. by rewrite app_nil_r.
  - destruct (selectable ev r0) eqn:Es; [|done]. cbn [negb]. destruct (route_round ev sendErr r0) as [r1 o1] eqn:Er.
    destruct (route_round_inv _ _ _ _ _ Es Hi Er) as (Hn & Hw & Ho). destruct o1 as [|e].
    + intros Hr. destruct (IH _ Ho Hr) as (H1 & H2 & H3). split; [done|]. split; [done|]. destruct o; [|done].
      destruct H3 as [H3 H4]. split; [|done]. rewrite H3, app_assoc, (route_round_accounts _ _ _ _ Er).
      rewrite <- !app_assoc. do 2 f_equiv. unfold accounts. cbn. by destruct (match ev with FromInput a | FromSource a => a | _ => None end).
    + intros [= <- <-]. done.
Qed.
End route.

(** ** The wiring of the wallet ([wallet/internal/pipeline], [wallet.go])

    A channel has an id and, as a closer, an address; new ones get fresh
    addresses in the order the code creates them. *)
Record Channel := MkChannel { ch_id : string; ch_addr : closer }.
Definition fresh (A : Type) : Type := Z → A * Z.
#[global] Instance fresh_ret : MRet fresh := λ A x n, (x, n).
#[global] Instance fresh_bind : MBind fresh := λ A B f m n, let '(x, n) := m n in f x n.

Definition NewChannel (id : string) : fresh Channel := λ n, (MkChannel id n, n + 1).
Definition StepOutputs (outs : list (option Channel)) : gmap string closer :=
  foldl (λ combined o, match o with Some c => <[ch_id c := ch_addr c]> combined | None => combined end) ∅ outs.
Definition wired (id : string) (outs : list (option Channel)) : PipelineStep := MkStep id (StepOutputs outs) false true.
Definition NewRootStep (id : string) (out : Channel) : PipelineStep := MkStep id (StepOutputs [Some out]) true true.

Definition NewTransferSteps (id : string) (out : option Channel) : fresh (list PipelineStep) :=
  results ← NewChannel (id +:+ ".Results");
  mret [wired (id +:+ ".ParallelTransfers") [Some results]; wired (id +:+ ".FilterNilTransfers") [out]].

Definition NewCombinedTransferSteps (id : string) (outW outD drainW drainD : option Channel) : fresh (list PipelineStep) :=
  intents ← NewChannel (id +:+ ".Intents");
  let any := bool_decide (is_Some outD) || bool_decide (is_Some outW) in
  transfers ← (if any then c ← NewChannel (id +:+ ".Transfers"); mret (Some c) else mret None);
  steps ← NewTransferSteps (id +:+ ".Transfer") transfers;
  mret ([wired (id +:+ ".CreateIntents") [Some intents; drainW; drainD]] ++ steps ++
    (if any then [wired (id +:+ ".MapTransfersToOutputs") [outW; outD]] else [])).

Definition NewProvideAccountsSteps (id : string) (outWithdraw outSource : Channel) : fresh (list PipelineStep) :=
  empty ← NewChannel (id +:+ ".EmptyAccounts");
  full ← NewChannel (id +:+ ".FullAccountsFromSource");
  steps ← NewCombinedTransferSteps (id +:+ ".SourceTransfers") None (Some full) None None;
  withdrawable ← NewChannel (id +:+ ".WithdrawableAccounts");
  mret ([wired (id +:+ ".ProduceEmptyAccountsUntilClose") [Some empty]] ++ steps ++
    [wired (id +:+ ".RouteAccounts") [Some outSource]; wired (id +:+ ".EarlyExitFullAcountsToWithdraw") [Some outWithdraw]]).

Definition NewPrefetchWithdrawSteps (id : string) (outBatches outAccounts : Channel) : fresh (list PipelineStep) :=
  full ← NewChannel (id +:+ ".FullAccounts");
  batches ← NewChannel (id +:+ ".BankBatches");
  split ← NewCombinedTransferSteps (id +:+ ".SplitAccountTransfer") (Some outAccounts) (Some batches) (Some outAccounts) None;
  intents ← NewChannel (id +:+ ".Intents");
  remaining ← NewChannel (id +:+ ".RemainingBatchReps");
  transfers ← NewChannel (id +:+ ".Transfers");
  steps ← NewTransferSteps (id +:+ ".PaymentRequestTransfer") (Some transfers);
  mret ([wired (id +:+ ".FilterLowAccounts") [Some full; Some outAccounts]] ++ split ++
    [wired (id +:+ ".CreateIntents") [Some intents; Some remaining]] ++ steps ++ [wired (id +:+ ".DedupeBatches") [Some outBatches]]).

Definition NewConsolidateSteps (id : string) (InputAccounts : bool) (out : Channel) : fresh (list PipelineStep) :=
  low ← (if InputAccounts then c ← NewChannel (id +:+ ".LowAccounts"); mret (Some c) else mret None);
  consolidatables ← NewChannel (id +:+ ".Consolidatables");
  intents ← NewChannel (id +:+ ".Intents");
  transfers ← NewChannel (id +:+ ".Transfers");
  steps ← NewTransferSteps (id +:+ ".ConsolidateTransfer") (Some transfers);
  mret ((if low is Some _ then [wired (id +:+ ".FilterFullAccounts") [low]] else []) ++
    [wired (id +:+ ".CombineConsolidatables") [Some consolidatables]; wired (id +:+ ".CreateIntents") [Some intents]] ++ steps ++
    [wired (id +:+ ".DedupeAccounts") [Some out]]).

Definition NewReturnToSourceSteps (id : string) : fresh (list PipelineStep) :=
  withdrawables ← NewChannel (id +:+ ".Combined");
  steps ← NewCombinedTransferSteps (id +:+ ".SourceTransfers") None None None None;
  mret (wired (id +:+ ".CombineInputs") [Some withdrawables] :: steps).

Definition NewWalletSteps (id : string) : fresh (list PipelineStep) :=
  accountsToProvide ← NewChannel (id +:+ ".AccountsToProvide");
  fullAccountsToWithdraw ← NewChannel (id +:+ ".FullAccountsToWithdraw");
  accountsToConsolidate ← NewChannel (id +:+ ".AccountsToConsolidate");
  accountsToSource ← NewChannel (id +:+ ".AccountsToSource");
  bankBatchesToConsolidate ← NewChannel (id +:+ ".BankBatchesToConsolidate");
  provide ← NewProvideAccountsSteps (id +:+ ".ProvideAccounts") fullAccountsToWithdraw accountsToSource;
  prefetch ← NewPrefetchWithdrawSteps (id +:+ ".PrefetchWithdraw") bankBatchesToConsolidate accountsToConsolidate;
  consolidateR ← NewConsolidateSteps (id +:+ ".ConsolidateResults") false accountsToProvide;
  consolidateA ← NewConsolidateSteps (id +:+ ".ConsolidateAccounts") true accountsToProvide;
  return_ ← NewReturnToSourceSteps (id +:+ ".ReturnToSource");
  mret (provide ++ prefetch ++ consolidateR ++ consolidateA ++ return_).

(** The steps that [wallet.New] runs. *)
Definition wallet_pipeline : list PipelineStep :=
  ((signal ← NewChannel "wallet.Signal";
    withdrawals ← NewChannel "wallet.Withdrawals";
    deposits ← NewChannel "wallet.Deposits";
    steps ← NewWalletSteps "wallet";
    mret (NewRootStep "root" signal :: steps)) 0).1.

(** The wallet's pipeline of thirty-two steps is one [RunPipeline] accepts,
    in any order of iteration, and the theorem on shared outputs applies to it:
    however its goroutines interleave, each of its channels is closed once, and
    none before every step that named it is done. *)
Theorem wallet_pipeline_runs {R : RangeOrder} close_error : ∃ p, RunPipeline wallet_pipeline = Ok p ∧
  length (goroutines p) = 32%nat ∧
  ∀ actions p', run_pipeline close_error actions p = Some p' →
    NoDup (closes p') ∧ ∀ id g, id ∈ closes p' → g ∈ goroutines p' → holds id g = 0.
Proof.
  assert (valid_steps wallet_pipeline) as Hv
    by (unfold valid_steps; split_and!; apply (bool_decide_eq_true_1 _); vm_compute; reflexivity).
  apply (RunPipeline_ok close_error), is_ok_true in Hv as [p Hp]. exists p. split; [done|]. destruct (start_outputs close_error _ _ Hp) as [Hg _].
  split; [rewrite Hg, length_fmap; vm_compute; reflexivity|]. intros actions p' Hrun.
  destruct (run_inv _ _ _ _ (start_inv close_error _ _ Hp) Hrun) as ([_ Hc Hn _ _ _ _] & _ & _). split; [done|].
  intros id g [_ Hz]%Hc Hgin. by apply (proj1 (holders_zero id _) Hz).
Qed.

(** *** Instances *)

Lemma serial_step_in_order_witness : ∃ done todo, [1; 2; 3] = done ++ todo ∧
  serial_step (λ x : Z, Ok (x * 10)) (λ n, if (n =? 1)%nat then Some "context canceled" else None) true [1; 2; 3] None 0 =
    ([10], [(2, "failed to send output: context canceled")], Some "failed to send output: context canceled") ∧
  Forall2 (λ x o, Ok (E := string) (x * 10) = Ok o) done [10].
Proof.
  destruct (serial_step_in_order (λ x : Z, Ok (x * 10)) (λ n, if (n =? 1)%nat then Some "context canceled" else None) true [1; 2; 3] None 0 _ _ _ eq_refl)
    as (done & todo & H & Hf & _).
  exists done, todo. split; [exact H|]. split; [reflexivity|exact Hf].
Defined.

Lemma pairing_loses_none_witness : ∃ sent e,
  create_loop 0 0 (λ w d : Z, Ok (w, d)) (λ _, None) 4 0 0 (Some ([1; 2; 3], None)) (Some ([7], None)) = Some (sent, inl e) ∧
  [1] ++ drain_withdrawables true e = [1; 2; 3].
Proof.
  destruct (pairing_loses_none 0 0 (λ w d : Z, Ok (w, d)) (λ _, None) [1; 2; 3] [7]) as (sent & e & H & _ & Hw & _); [done..|].
  exists sent, e. split; [exact H|exact Hw].
Defined.

(** An account below the amount, one above it, the signal, and one after it. *)
Definition route_events : list (event (A := Z) * option string) :=
  [(FromInput (Some 3), None); (FromSource (Some 70), None); (Signal false, None); (FromInput None, None);
   (FromSource (Some 80), None)].
Lemma accounts_routed_witness : ∃ r, route id (Currency.MkValue false 10) route_events start_router = Some (r, Routing) ∧
  to_source r = [3; 80] ∧ to_withdraw r = [70] ∧ withdraw_closes r = 1%nat ∧ to_source r ++ to_withdraw r ≡ₚ accounts route_events.
Proof.
  eexists. split; [vm_compute; reflexivity|]. split; [reflexivity|]. split; [reflexivity|]. split; [reflexivity|].
  eapply (accounts_routed id (Currency.MkValue false 10) route_events _ Routing). vm_compute; reflexivity.
Defined.

Lemma wallet_pipeline_runs_witness : ∃ p, RunPipeline (R := elements_order) wallet_pipeline = Ok p ∧ NoDup (closes p).
Proof.
  destruct (wallet_pipeline_runs (R := elements_order) (λ _, None)) as (p & Hp & _ & H). exists p. split; [exact Hp|].
  apply (H [] p). reflexivity.
Defined.
