(* ===== verification/Wallet.v ===== *)
(** The wallet itself: its configuration and the life of a payment
    ([wallet/wallet.go], [wallet/payment.go]), and how a payment request gets its
    credit from the pipeline. *)

From Stdlib Require Import Floats.SpecFloat.
From S2P Require Import Prelude Bytes GoLib Float64 AnonErrors Credit BlindSigning NonceLocking Bank.
From S2P Require Import WalletStats Transfer Pipeline.
From S2P Require Currency Nonce.

(** ** Configuration *)

Record DebugConfig := MkDebugConfig {
  TotalWorkers : Z;
  MaxParallelSourceAccountTransfers : Z;
  MaxParallelBankBatchTransfers : Z;
  MaxParallelDepositTransfers : Z;
}.
Record Config := MkConfig {
  SourceAmount : Z;
  PrefetchAmount : Z;
  MaxParallel : Z;
  MaxDelay : Z;
  AvgPaymentDuration : Z;
  cfg_Debug : option DebugConfig;
}.

Definition millisecond : Z := 1000000.

(** [transfer.EstimateAvgDuration]; Go division truncates. *)
Definition EstimateAvgDuration (maxDelay avgWithdraw avgDeposit : Z) : Z :=
  (wrap_s 64 (wrap_s 64 (Z.quot maxDelay 2 + avgWithdraw) + Z.quot maxDelay 2) + avgDeposit)%i64.

(** [time.Duration.Seconds] *)
Definition Seconds (d : Z) : float64 :=
  SFadd 53 1024 (f64_of_Z (Z.quot d second)) (f64_div (f64_of_Z (Z.rem d second)) (f64_of_Z 1000000000)).

(** The conversion [int(max(1, math.Ceil(x)))]; [undef] is what converting a
    number out of range gives.  The maximum of a NaN is a NaN. *)
Definition ceil_at_least_one (undef : float64 → Z) (x : float64) : Z :=
  match f64_ceil x with
  | Some z => if z <? 1 then 1 else if z <? 2 ^ 63 then z else undef x
  | None => match x with S754_infinity true => 1 | _ => undef x end
  end.

Definition parellismToSustainConsumption (undef : float64 → Z) (consumedPerSecond : float64) (produceDuration : Z) : Z :=
  let resultsPerSecondPerProduce := f64_div f64_one (Seconds produceDuration) in
  ceil_at_least_one undef (f64_div consumedPerSecond resultsPerSecondPerProduce).

Definition or_default (v d : Z) : Z := if v <=? 0 then d else v.
Definition or_override (v d : Z) : Z := if v =? 0 then d else v.

(** What [New] derives from the configuration. *)
Record WalletParams := MkWalletParams {
  sourceVal : Currency.Value;
  prefetchVal : Currency.Value;
  wp_maxDelay : Z;
  maxBankBatches : Z;
  maxSrcAccounts : Z;
  maxDeposits : Z;
  workers : Z;
}.

Definition New (undef : float64 → Z) (cfg : Config) : result err WalletParams :=
  if (SourceAmount cfg <=? 0) || (PrefetchAmount cfg <=? 0) then Err (ErrNew "invalid amounts")
  else if SourceAmount cfg <? PrefetchAmount cfg then
    Err (ErrNew "prefetch amount must be equal to or greater than source amount")
  else
    sourceVal ← wrap_err (Wrapped "source amount currency error") (currency_err (Currency.Exact (SourceAmount cfg)));
    prefetchVal ← wrap_err (Wrapped "prefetch amount currency error") (currency_err (Currency.Exact (PrefetchAmount cfg)));
    let maxParallel := or_default (MaxParallel cfg) 4 in
    let avgPayment := or_default (AvgPaymentDuration cfg) (150 * millisecond) in
    let maxDelay := or_default (MaxDelay cfg) (5 * second) in
    let creditsPerBatch := Z.quot (SourceAmount cfg) (PrefetchAmount cfg) in
    let consumedCreditsPerSecond := f64_mul (f64_div f64_one (Seconds avgPayment)) (f64_of_Z maxParallel) in
    let consumedBatchesPerSecond := f64_div consumedCreditsPerSecond (f64_of_Z creditsPerBatch) in
    let maxBankBatches := parellismToSustainConsumption undef consumedBatchesPerSecond
                            (EstimateAvgDuration maxDelay second 0) in
    let maxSrcAccounts := parellismToSustainConsumption undef consumedBatchesPerSecond
                            (EstimateAvgDuration maxDelay second second) in
    let maxDeposits := parellismToSustainConsumption undef consumedCreditsPerSecond
                         (EstimateAvgDuration maxDelay 0 second) in
    let debug f d := match cfg_Debug cfg with Some dbg => or_override (f dbg) d | None => d end in
    let maxSrcAccounts := debug MaxParallelSourceAccountTransfers maxSrcAccounts in
    let maxBankBatches := debug MaxParallelBankBatchTransfers maxBankBatches in
    let maxDeposits := debug MaxParallelDepositTransfers maxDeposits in
    let workers := debug TotalWorkers (wrap_s 64 (wrap_s 64 (maxBankBatches + maxSrcAccounts) + maxDeposits)) in
    Ok (MkWalletParams sourceVal prefetchVal maxDelay maxBankBatches maxSrcAccounts maxDeposits workers).

(** ** Payments *)

(** The shared state of a wallet: whether it is closed, the wait group of
    payments, the results handed to the pipeline and their counter. *)
Record Wallet := MkWallet {
  closed : bool;
  paymentsWG : Z;
  results : list PaymentResult;
  resultStats : TransferCount;
  w_prefetchAmount : Z;
  w_maxDelay : Z;
}.
Definition add_payment (n : Z) (w : Wallet) : Wallet :=
  MkWallet (closed w) (paymentsWG w + n) (results w) (resultStats w) (w_prefetchAmount w) (w_maxDelay w).

(** [BeginPayment] up to the enqueueing of the request. *)
Definition begin_amount (undef : float64 → Z) (w : Wallet) (amount : Z) : result err Currency.Value :=
  val ← wrap_err (Wrapped "failed to round amount") (currency_err (Currency.Rounded undef (f64_of_Z amount) f64_one));
  if w_prefetchAmount w <? Currency.AmountOrZero val then
    Err (ErrNew "wallet does not support ad-hoc withdrawals yet")
  else Ok val.

Definition BeginPayment (undef : float64 → Z) (amount : Z) (w : Wallet) : result err PaymentRequest * Wallet :=
  match begin_amount undef w amount with
  | Err e => (Err e, w)
  | Ok val =>
      if closed w then (Err (ErrNew "wallet is closed"), w)
      else (Ok (NewPaymentRequest val), add_payment 1 w)
  end.

(** A payment from the time its request is created. *)
Inductive payment :=
| Enqueueing                           (* waiting to send the request *)
| Waiting                              (* waiting for the response *)
| Dangling                             (* caller gone, a goroutine waits for the response *)
| Begun (credit : BlindedCredit)       (* handed to the caller, not completed *)
| Completed (credit : BlindedCredit)   (* [completed] is set *)
| Abandoned                            (* context cancelled before the request was sent *)
| Failed.                              (* the response was an error *)

(** [payment.complete] as its caller sees it, undisturbed: the deferred [Done]
    runs in every case. *)
Definition complete (unspend : option AnyCredit) (w : Wallet) : result err unit * Wallet :=
  match unspend with
  | None => (Ok tt, add_payment (-1) w)
  | Some c =>
      match wrap_err (Wrapped "failed to create deposit") (NewPaymentResult (Some c) (w_maxDelay w)) with
      | Err e => (Err e, add_payment (-1) w)
      | Ok result =>
          (Ok tt, MkWallet (closed w) (paymentsWG w - 1) (results w ++ [result])
                    (count_transfer 0 [credit_Value c] (resultStats w)) (w_prefetchAmount w) (w_maxDelay w))
      end
  end.

Definition Success (unspend : option UnblindedCredit) (p : payment) (w : Wallet) : result err unit * payment * Wallet :=
  match p with
  | Begun credit =>
      let '(r, w) := complete (Unblinded <$> unspend) w in (r, Completed credit, w)
  | _ => (Ok tt, p, w)
  end.

Definition Cancel (p : payment) (w : Wallet) : result err unit * payment * Wallet :=
  match p with
  | Begun credit => let '(r, w) := complete (Some (Blinded credit)) w in (r, Completed credit, w)
  | _ => (Ok tt, p, w)
  end.

(** *** Completing step by step

    [complete] counts the result, is blocked until the pipeline takes it, and
    then runs the deferred [Done], all of it under the lock of the payment.  Each
    of these is a step of its own for everybody else. *)

Inductive point :=
| Marked (unspend : option AnyCredit)  (* [completed] is set, [complete] is called *)
| Counted (result : PaymentResult)     (* the result is counted and is being sent *)
| Returning.                           (* the deferred [Done] is next *)

Definition count_result (c : AnyCredit) (w : Wallet) : Wallet :=
  MkWallet (closed w) (paymentsWG w) (results w) (count_transfer 0 [credit_Value c] (resultStats w)) (w_prefetchAmount w) (w_maxDelay w).
Definition send_result (r : PaymentResult) (w : Wallet) : Wallet :=
  MkWallet (closed w) (paymentsWG w) (results w ++ [r]) (resultStats w) (w_prefetchAmount w) (w_maxDelay w).

(** The next step of [complete], [None] when it has returned. *)
Definition complete_next (pc : point) (w : Wallet) : option point * Wallet :=
  match pc with
  | Marked None => (Some Returning, w)
  | Marked (Some c) =>
      match NewPaymentResult (Some c) (w_maxDelay w) with
      | Err _ => (Some Returning, w)
      | Ok result => (Some (Counted result), count_result c w)
      end
  | Counted result => (Some Returning, send_result result w)
  | Returning => (None, add_payment (-1) w)
  end.

(** A payment between calls, or with one of [Success] and [Cancel] running, which
    holds its lock, so that another call waits. *)
Inductive live_payment :=
| Resting (p : payment)
| Running (credit : BlindedCredit) (pc : point).

(** The response arrives while the caller waits ([beginPaymentForRequest]), or
    after it has gone ([waitForDanglingResponse]), when the payment is cancelled. *)
Definition receive (resp : result err BlindedCredit) (p : payment) : live_payment :=
  match p, resp with
  | Waiting, Ok c => Resting (Begun c)
  | Dangling, Ok c => Running c (Marked (Some (Blinded c)))
  | Waiting, Err _ | Dangling, Err _ => Resting Failed
  | _, _ => Resting p
  end.

(** The context of [BeginPayment] is cancelled. *)
Definition context_done (p : payment) (w : Wallet) : payment * Wallet :=
  match p with
  | Enqueueing => (Abandoned, add_payment (-1) w)
  | Waiting => (Dangling, w)
  | _ => (p, w)
  end.

(** [Close] marks the wallet as closed, then waits for the wait group. *)
Definition Close (w : Wallet) : Wallet :=
  MkWallet true (paymentsWG w) (results w) (resultStats w) (w_prefetchAmount w) (w_maxDelay w).
Definition close_proceeds (w : Wallet) : bool := paymentsWG w =? 0.

Definition fresh_wallet (prefetch delay : Z) : Wallet := MkWallet false 0 [] zero_count prefetch delay.

(** A wallet at work: its state, its payments, which payment handed in which
    result, and whether the channels to the pipeline are open. *)
Record wallet_run := MkRun {
  run_wallet : Wallet;
  run_payments : gmap nat live_payment;
  run_handed : list (nat * PaymentResult);
  run_open : bool;
}.
Definition fresh_run (prefetch delay : Z) : wallet_run := MkRun (fresh_wallet prefetch delay) ∅ [] true.

(** The payment after a step of its [complete], and the results handed in. *)
Definition moved (c : BlindedCredit) (pc : option point) : live_payment :=
  match pc with Some pc => Running c pc | None => Resting (Completed c) end.
Definition handed_in (k : nat) (pc : point) : list (nat * PaymentResult) :=
  match pc with Counted r => [(k, r)] | _ => [] end.
Definition at_send (pc : point) : bool := match pc with Counted _ => true | _ => false end.

(** Anyone may act on any payment at any time.  The channels have no buffer: a
    request or a result is sent when the pipeline takes it.  [Close] sets
    [closed], waits for the wait group and closes the channels, on which nothing
    can be sent any more. *)
Inductive wallet_step (undef : float64 → Z) : wallet_run → wallet_run → Prop :=
| ws_begin amount w ps hs o k req w' : BeginPayment undef amount w = (Ok req, w') → ps !! k = None →
    wallet_step undef (MkRun w ps hs o) (MkRun w' (<[k := Resting Enqueueing]> ps) hs o)
| ws_enqueued w ps hs k : ps !! k = Some (Resting Enqueueing) →
    wallet_step undef (MkRun w ps hs true) (MkRun w (<[k := Resting Waiting]> ps) hs true)
| ws_response resp w ps hs o k p : ps !! k = Some (Resting p) →
    wallet_step undef (MkRun w ps hs o) (MkRun w (<[k := receive resp p]> ps) hs o)
| ws_context_done w ps hs o k p : ps !! k = Some (Resting p) →
    wallet_step undef (MkRun w ps hs o) (MkRun (context_done p w).2 (<[k := Resting (context_done p w).1]> ps) hs o)
| ws_success unspend w ps hs o k c : ps !! k = Some (Resting (Begun c)) →
    wallet_step undef (MkRun w ps hs o) (MkRun w (<[k := Running c (Marked (Unblinded <$> unspend))]> ps) hs o)
| ws_cancel w ps hs o k c : ps !! k = Some (Resting (Begun c)) →
    wallet_step undef (MkRun w ps hs o) (MkRun w (<[k := Running c (Marked (Some (Blinded c)))]> ps) hs o)
| ws_complete w ps hs o k c pc : ps !! k = Some (Running c pc) → at_send pc = false ∨ o = true →
    wallet_step undef (MkRun w ps hs o)
      (MkRun (complete_next pc w).2 (<[k := moved c (complete_next pc w).1]> ps) (hs ++ handed_in k pc) o)
| ws_close w ps hs o : wallet_step undef (MkRun w ps hs o) (MkRun (Close w) ps hs o)
| ws_shut w ps hs o : closed w = true → close_proceeds w = true →
    wallet_step undef (MkRun w ps hs o) (MkRun w ps hs false).

Definition outstanding (p : live_payment) : Z :=
  match p with Resting (Completed _) | Resting Abandoned => 0 | _ => 1 end.
(** A result that is counted and not yet sent. *)
Definition unsent (p : live_payment) : Z :=
  match p with Running _ (Counted r) => result_Balance r | _ => 0 end.
Definition has_sent (p : live_payment) : Prop := ∃ c, p = Running c Returning ∨ p = Resting (Completed c).

(** The wait group counts the outstanding payments, the results are those handed
    in, each by a payment of its own that is past its send, the counter has what
    was sent and what is being sent, and the channels are only closed when
    nothing is outstanding. *)
Record accounted (x : wallet_run) : Prop := {
  acc_wg : paymentsWG (run_wallet x) = map_sum outstanding (run_payments x);
  acc_results : results (run_wallet x) = (run_handed x).*2;
  acc_once : NoDup (run_handed x).*1;
  acc_sent k : k ∈ (run_handed x).*1 → ∃ p, run_payments x !! k = Some p ∧ has_sent p;
  acc_amount : tc_Amount (resultStats (run_wallet x)) ≡₆₄
    sum_Z (result_Balance <$> results (run_wallet x)) + map_sum unsent (run_payments x);
  acc_range : in_int64 (tc_Amount (resultStats (run_wallet x)));
  acc_shut : run_open x = false → closed (run_wallet x) = true ∧ close_proceeds (run_wallet x) = true;
}.

(** Run without interruption, the steps are the whole. *)
Lemma complete_steps u w :
  ∃ pcs, (complete u w).2 = (complete_next Returning pcs.2).2 ∧
    (pcs = complete_next (Marked u) w ∧ pcs.1 = Some Returning ∨
     ∃ r w1, complete_next (Marked u) w = (Some (Counted r), w1) ∧ pcs = complete_next (Counted r) w1 ∧ pcs.1 = Some Returning).
Proof.
  unfold complete. destruct u as [c|]; [|exists (Some Returning, w); auto].
  destruct (NewPaymentResult (Some c) (w_maxDelay w)) as [r|e] eqn:E; cbn [wrap_err].
  - exists (Some Returning, send_result r (count_result c w)). split; [by destruct w|right].
    exists r, (count_result c w). cbn [complete_next]. by rewrite E.
  - exists (Some Returning, w). split; [done|left]. cbn [complete_next]. by rewrite E.
Qed.

Lemma map_sum_at {A} (f : A → Z) (m : gmap nat A) k x y :
  m !! k = Some x → map_sum f (<[k := y]> m) = map_sum f m - f x + f y.
Proof. intros H. rewrite map_sum_insert, H. simpl. lia. Qed.

Lemma add_payment_0 w : add_payment 0 w = w.
Proof. destruct w. unfold add_payment. simpl. by rewrite Z.add_0_r. Qed.

(** Replacing a payment that sends nothing keeps the books. *)
Lemma accounted_replace w ps hs o k p p' n :
  accounted (MkRun w ps hs o) → ps !! k = Some p → outstanding p' = outstanding p + n → unsent p = 0 → unsent p' = 0 →
  (o = false → n = 0) → (has_sent p → has_sent p') →
  accounted (MkRun (add_payment n w) (<[k := p']> ps) hs o).
Proof.
  intros [H1 H2 H3 H4 H5 H6 H7] Hp Ho Hu Hu' Hn Hs. cbn [run_wallet run_payments run_handed run_open] in *.
  constructor; cbn [run_wallet run_payments run_handed run_open add_payment paymentsWG results resultStats closed]; try done.
  - rewrite (map_sum_at _ _ _ p) by done. lia.
  - intros j Hj. destruct (H4 j Hj) as (q & Hq & Hsq). destruct (decide (j = k)) as [->|Hne].
    + rewrite lookup_insert_eq. simplify_eq. eauto.
    + rewrite lookup_insert_ne by done. eauto.
  - rewrite (map_sum_at _ _ _ p) by done. by replace (_ - unsent p + unsent p') with (map_sum unsent ps) by lia.
  - intros Ho'. rewrite (Hn Ho'), add_payment_0. by apply H7.
Qed.

Lemma accounted_same w ps hs o k p p' :
  accounted (MkRun w ps hs o) → ps !! k = Some p → outstanding p' = outstanding p → unsent p = 0 → unsent p' = 0 →
  (has_sent p → has_sent p') → accounted (MkRun w (<[k := p']> ps) hs o).
Proof. intros. rewrite <- (add_payment_0 w). eapply accounted_replace; [done..|lia| | | |]; auto. Qed.

Lemma map_sum_nonneg {A} (f : A → Z) (m : gmap nat A) : (∀ x, 0 ≤ f x) → 0 ≤ map_sum f m.
Proof.
  intros Hf. induction m as [|k x m Hk IH] using map_ind; [done|].
  rewrite map_sum_insert_new by done. specialize (Hf x). lia.
Qed.

Lemma map_sum_zero {A} (f : A → Z) (m : gmap nat A) :
  (∀ x, 0 ≤ f x) → map_sum f m = 0 ↔ map_Forall (λ _ x, f x = 0) m.
Proof.
  intros Hf. induction m as [|k x m Hk IH] using map_ind; [split; [intros _; apply map_Forall_empty|done]|].
  rewrite map_sum_insert_new, map_Forall_insert, <- IH by done.
  pose proof (map_sum_nonneg f m Hf). specialize (Hf x). lia.
Qed.

(** Once the channels are closed nothing is outstanding. *)
Lemma shut_settled x k p : accounted x → run_open x = false → run_payments x !! k = Some p → outstanding p = 0.
Proof.
  intros [H1 _ _ _ _ _ H7] Ho Hk. destruct (H7 Ho) as [_ Hp%Z.eqb_eq]. rewrite H1 in Hp.
  apply map_sum_zero in Hp; [by apply (Hp k p)|]. intros [[]|]; done.
Qed.

Lemma accounted_count w ps hs o k c u r :
  accounted (MkRun w ps hs o) → ps !! k = Some (Running c (Marked (Some u))) → NewPaymentResult (Some u) (w_maxDelay w) = Ok r →
  accounted (MkRun (count_result u w) (<[k := Running c (Counted r)]> ps) hs o).
Proof.
  intros [H1 H2 H3 H4 H5 H6 H7] Hp Hr. cbn [run_wallet run_payments run_handed run_open] in *.
  unfold NewPaymentResult in Hr. apply result_bind_ok in Hr as (a & _ & [= <-]).
  constructor; cbn [run_wallet run_payments run_handed run_open count_result paymentsWG results resultStats closed]; try done.
  - rewrite (map_sum_at _ _ _ _ _ Hp). cbn [outstanding]. lia.
  - intros j Hj. destruct (H4 j Hj) as (q & Hq & c' & Hsq). destruct (decide (j = k)) as [->|Hne].
    + rewrite Hp in Hq. destruct Hsq; simplify_eq.
    + rewrite lookup_insert_ne by done. exists q. split; [done|by exists c'].
  - destruct (count_transfer_eqm 0 [credit_Value u] (resultStats w)) as (-> & _ & _).
    rewrite H5, (map_sum_at _ _ _ _ _ Hp). cbn [unsent result_Balance unspend fmap list_fmap sum_Z]. unfold result_Balance. simpl.
    unfold eqm64; f_equal; lia.
  - apply wrap_s64_range.
Qed.

Lemma accounted_send w ps hs o k c r :
  accounted (MkRun w ps hs o) → ps !! k = Some (Running c (Counted r)) →
  accounted (MkRun (send_result r w) (<[k := Running c Returning]> ps) (hs ++ [(k, r)]) o).
Proof.
  intros [H1 H2 H3 H4 H5 H6 H7] Hp. cbn [run_wallet run_payments run_handed run_open] in *.
  constructor; cbn [run_wallet run_payments run_handed run_open send_result paymentsWG results resultStats closed]; try done.
  - rewrite (map_sum_at _ _ _ _ _ Hp). cbn [outstanding]. lia.
  - by rewrite H2, fmap_app.
  - rewrite fmap_app. apply NoDup_app. split; [done|]. split; [|apply NoDup_singleton].
    intros j Hj ->%list_elem_of_singleton. destruct (H4 k Hj) as (q & Hq & c' & Hsq). destruct Hsq; simplify_eq.
  - intros j. rewrite fmap_app, elem_of_app. destruct (decide (j = k)) as [->|Hne].
    + intros _. rewrite lookup_insert_eq. eexists. split; [done|]. exists c. by left.
    + rewrite lookup_insert_ne by done. intros [Hj|Hj%list_elem_of_singleton]; [by apply H4|done].
  - rewrite H5, (map_sum_at _ _ _ _ _ Hp), fmap_app, sum_Z_app. cbn [unsent fmap list_fmap]. simpl.
    unfold eqm64; f_equal; lia.
Qed.

Lemma accounted_complete w ps hs o k c pc :
  accounted (MkRun w ps hs o) → ps !! k = Some (Running c pc) →
  accounted (MkRun (complete_next pc w).2 (<[k := moved c (complete_next pc w).1]> ps) (hs ++ handed_in k pc) o).
Proof.
  intros Ha Hp. assert (Returned : has_sent (Running c Returning)) by (exists c; by left).
  destruct pc as [[u|]|r|]; cbn [complete_next handed_in]; rewrite ?app_nil_r; cbn [fst snd moved].
  - destruct (NewPaymentResult _ _) eqn:E; cbn [fst snd moved]; [by eapply accounted_count|by eapply accounted_same].
  - by eapply accounted_same.
  - by apply accounted_send.
  - eapply accounted_replace; [done|done|done|done|done| |].
    + intros ->. pose proof (shut_settled _ k _ Ha eq_refl Hp) as H. done.
    + intros _. exists c. by right.
Qed.

Lemma accounted_begin w ps hs o k :
  accounted (MkRun w ps hs o) → ps !! k = None → closed w = false →
  accounted (MkRun (add_payment 1 w) (<[k := Resting Enqueueing]> ps) hs o).
Proof.
  intros [H1 H2 H3 H4 H5 H6 H7] Hk Hc. cbn [run_wallet run_payments run_handed run_open] in *.
  constructor; cbn [run_wallet run_payments run_handed run_open add_payment paymentsWG results resultStats closed]; try done.
  - rewrite map_sum_insert_new by done. cbn [outstanding]. lia.
  - intros j Hj. destruct (H4 j Hj) as (q & Hq & ?). rewrite lookup_insert_ne by congruence. eauto.
  - rewrite map_sum_insert_new by done. done.
  - intros Ho. destruct (H7 Ho). congruence.
Qed.

Lemma wallet_step_accounted undef x y : wallet_step undef x y → accounted x → accounted y.
Proof.
  assert (Hns : ∀ p, (∀ c, p ≠ Completed c) → ¬ has_sent (Resting p)) by (intros p Hp (c & [?|[= ->]]); [done|by eapply Hp]).
  destruct 1 as [amount w ps hs o k req w' Hb Hk|w ps hs k Hk|resp w ps hs o k p Hk|w ps hs o k p Hk|u w ps hs o k c Hk|
      w ps hs o k c Hk|w ps hs o k c pc Hk _|w ps hs o|w ps hs o Hc Hp]; intros Ha.
  - unfold BeginPayment in Hb. destruct (begin_amount _ _ _); [|done]. destruct (closed w) eqn:E; [done|].
    injection Hb as _ <-. by apply accounted_begin.
  - eapply accounted_same; [done..|]. by intros []%Hns.
  - destruct p, resp as [c|e]; cbn [receive]; (eapply accounted_same; [done..|]); try done; by intros []%Hns.
  - destruct p; cbn [context_done fst snd]; try (by eapply accounted_same);
      [|eapply accounted_same; [done..|]; by intros []%Hns].
    eapply accounted_replace; [done..| |by intros []%Hns]. intros ->.
    pose proof (shut_settled _ k _ Ha eq_refl Hk) as H. done.
  - eapply accounted_same; [done..|]. by intros []%Hns.
  - eapply accounted_same; [done..|]. by intros []%Hns.
  - by apply accounted_complete.
  - destruct Ha as [H1 H2 H3 H4 H5 H6 H7]. constructor; try done. intros Ho. split; [done|]. by apply H7.
  - destruct Ha as [H1 H2 H3 H4 H5 H6 H7]. constructor; try done.
Qed.

Lemma wallet_run_accounted undef x y : rtc (wallet_step undef) x y → accounted x → accounted y.
Proof. induction 1; eauto using wallet_step_accounted. Qed.

Lemma fresh_accounted prefetch delay : accounted (fresh_run prefetch delay).
Proof. constructor; try done; [apply NoDup_nil_2|intros k []%elem_of_nil]. Qed.

Lemma outstanding_nonneg p : 0 ≤ outstanding p.
Proof. by destruct p as [[]|]. Qed.

Lemma close_proceeds_iff x :
  accounted x → close_proceeds (run_wallet x) = true ↔ map_Forall (λ _ p, outstanding p = 0) (run_payments x).
Proof.
  intros [H _ _ _ _ _ _]. unfold close_proceeds. rewrite Z.eqb_eq, H. apply map_sum_zero, outstanding_nonneg.
Qed.

Lemma settled_iff p : outstanding p = 0 ↔ p = Resting Abandoned ∨ ∃ c, p = Resting (Completed c).
Proof. destruct p as [[]|]; cbn; split; try done; try (intros [?|[? ?]]; done); eauto. Qed.

(** C36. The wallet's books on payments, whatever callers and pipeline do and
    however their steps interleave: the count, the send, which may be blocked,
    and the deferred [Done] of a completing payment are steps of their own.  The
    wait group is the number of payments begun and neither abandoned nor
    completed, where one is only completed after its [Done].  Every payment hands
    in at most one result, and is then past its send.  The counted amount is the
    worth of the results handed in and of those being sent, as a 64-bit integer.
    The wait of [Close] is over exactly when every payment is abandoned or
    completed; and once it has closed the channels that stays so, so that nothing
    is ever sent on a closed channel. *)
Theorem payments_accounted undef prefetch delay x :
  rtc (wallet_step undef) (fresh_run prefetch delay) x →
  let w := run_wallet x in let ps := run_payments x in
  let settled := ∀ k p, ps !! k = Some p → p = Resting Abandoned ∨ ∃ c, p = Resting (Completed c) in
  paymentsWG w = map_sum outstanding ps ∧
  results w = (run_handed x).*2 ∧ NoDup (run_handed x).*1 ∧
  (∀ k r, (k, r) ∈ run_handed x → ∃ c, ps !! k = Some (Running c Returning) ∨ ps !! k = Some (Resting (Completed c))) ∧
  tc_Amount (resultStats w) = wrap_s 64 (sum_Z (result_Balance <$> results w) + map_sum unsent ps) ∧
  (close_proceeds w = true ↔ settled) ∧
  (run_open x = false → closed w = true ∧ settled).
Proof.
  intros Hrun w ps settled. pose proof (wallet_run_accounted _ _ _ Hrun (fresh_accounted _ _)) as Ha. pose proof (close_proceeds_iff _ Ha) as Hc.
  assert (close_proceeds w = true ↔ settled) as Hset.
  { unfold w, settled. rewrite Hc. unfold map_Forall. by setoid_rewrite settled_iff. }
  destruct Ha as [H1 H2 H3 H4 H5 H6 H7]. split_and!; try done.
  - intros k r Hk. destruct (H4 k) as (p & Hp & c & Hs); [apply list_elem_of_fmap; by exists (k, r)|].
    exists c. unfold ps. rewrite Hp. destruct Hs as [->| ->]; auto.
  - unfold w, ps. rewrite <- H5. by rewrite wrap_s64_small.
  - intros Ho. destruct (H7 Ho) as [? Hp]. split; [done|]. by apply Hset.
Qed.

Lemma failed_stays undef x y k :
  wallet_step undef x y → run_payments x !! k = Some (Resting Failed) → run_payments y !! k = Some (Resting Failed).
Proof.
  destruct 1 as [amount w ps hs o j req w' Hb Hj|w ps hs j Hj|resp w ps hs o j p Hj|w ps hs o j p Hj|u w ps hs o j c Hj|
      w ps hs o j c Hj|w ps hs o j c pc Hj _|w ps hs o|w ps hs o Hc Hp];
    cbn [run_payments]; intros Hk; try done; (destruct (decide (j = k)) as [->|Hne]; [|by rewrite lookup_insert_ne]);
    rewrite Hk in Hj; simplify_eq; by rewrite lookup_insert_eq.
Qed.

(** A failed payment keeps the wallet from closing.  When the response to a
    payment request is an error, nobody signs the payment off: from then on, in
    every state of the wallet, [Close] waits for it. *)
Theorem failed_payment_blocks_close undef prefetch delay x k y :
  rtc (wallet_step undef) (fresh_run prefetch delay) x → run_payments x !! k = Some (Resting Failed) →
  rtc (wallet_step undef) x y → close_proceeds (run_wallet y) = false.
Proof.
  intros H Hk H'.
  assert (run_payments y !! k = Some (Resting Failed)) as Hstay by (clear H; induction H'; eauto using failed_stays).
  assert (accounted y) as Ha by (apply (wallet_run_accounted undef (fresh_run prefetch delay)); [by etrans|apply fresh_accounted]).
  destruct (close_proceeds (run_wallet y)) eqn:E; [|done].
  apply (close_proceeds_iff _ Ha) in E. specialize (E k _ Hstay). done.
Qed.

Definition demo_failed : wallet_run := MkRun (add_payment 1 (fresh_wallet 10 5)) {[ 0%nat := Resting Failed ]} [] true.
Definition demo_waiting : wallet_run := MkRun (add_payment 1 (fresh_wallet 10 5)) {[ 0%nat := Resting Waiting ]} [] true.

Lemma run_then {undef a x y z} : rtc (wallet_step undef) a x → wallet_step undef x y → y = z → rtc (wallet_step undef) a z.
Proof. intros ? ? <-. by eapply rtc_r. Qed.

Lemma demo_waiting_run : rtc (wallet_step (λ _, 0)) (fresh_run 10 5) demo_waiting.
Proof.
  eapply run_then; [eapply rtc_once, (ws_begin _ 10 _ ∅ _ _ 0 (NewPaymentRequest (Currency.MkValue false 10))); [|done];
    vm_compute; reflexivity| |].
  - apply (ws_enqueued _ _ _ _ 0). reflexivity.
  - vm_compute. reflexivity.
Qed.

Lemma demo_failed_run : rtc (wallet_step (λ _, 0)) (fresh_run 10 5) demo_failed.
Proof.
  eapply run_then; [exact demo_waiting_run|apply (ws_response _ (Err ErrFinished) _ _ _ _ 0 Waiting); reflexivity|].
  vm_compute. reflexivity.
Qed.

(** A payment of ten is cancelled; its result is counted and waits for the
    pipeline; once it is taken and the payment signed off, [Close] gets through. *)
Definition demo_credit_10 : BlindedCredit := MkBlinded (Currency.MkValue false 10) demo_nonce [].
Definition demo_result : PaymentResult := MkPaymentResult (Blinded demo_credit_10) None 5.
Definition demo_sending : wallet_run :=
  MkRun (count_result (Blinded demo_credit_10) (add_payment 1 (fresh_wallet 10 5)))
    {[ 0%nat := Running demo_credit_10 (Counted demo_result) ]} [] true.
Definition demo_shut : wallet_run :=
  MkRun (Close (send_result demo_result (count_result (Blinded demo_credit_10) (fresh_wallet 10 5))))
    {[ 0%nat := Resting (Completed demo_credit_10) ]} [(0%nat, demo_result)] false.

Lemma demo_sending_run : rtc (wallet_step (λ _, 0)) (fresh_run 10 5) demo_sending.
Proof.
  eapply run_then; [eapply rtc_r; [eapply rtc_r; [exact demo_waiting_run|]|]| |].
  - apply (ws_response _ (Ok demo_credit_10) _ _ _ _ 0 Waiting). reflexivity.
  - apply (ws_cancel _ _ _ _ _ 0 demo_credit_10). reflexivity.
  - apply (ws_complete _ _ _ _ _ 0 demo_credit_10 (Marked (Some (Blinded demo_credit_10)))); [reflexivity|by left].
  - vm_compute. reflexivity.
Qed.

Lemma demo_shut_run : rtc (wallet_step (λ _, 0)) (fresh_run 10 5) demo_shut.
Proof.
  eapply run_then; [eapply rtc_r; [eapply rtc_r; [eapply rtc_r; [exact demo_sending_run|]|]|]| |].
  - apply (ws_complete _ _ _ _ _ 0 demo_credit_10 (Counted demo_result)); [reflexivity|by right].
  - apply (ws_complete _ _ _ _ _ 0 demo_credit_10 Returning); [reflexivity|by left].
  - apply ws_close.
  - apply ws_shut; reflexivity.
  - vm_compute. reflexivity.
Qed.

Lemma payments_accounted_witness :
  (paymentsWG (run_wallet demo_sending) = 1 ∧ results (run_wallet demo_sending) = [] ∧
   tc_Amount (resultStats (run_wallet demo_sending)) = wrap_s 64 (0 + map_sum unsent (run_payments demo_sending)) ∧
   map_sum unsent (run_payments demo_sending) = 10) ∧
  results (run_wallet demo_shut) = [demo_result] ∧ tc_Amount (resultStats (run_wallet demo_shut)) = 10 ∧
  close_proceeds (run_wallet demo_shut) = true ∧ closed (run_wallet demo_shut) = true.
Proof.
  destruct (payments_accounted _ _ _ _ demo_sending_run) as (Hwg & _ & _ & _ & Ham & _).
  destruct (payments_accounted _ _ _ _ demo_shut_run) as (_ & Hr & _ & _ & Ham' & Hc & Ho).
  destruct (Ho eq_refl) as [Hcl Hset]. split; [split; [exact Hwg|]; split; [reflexivity|]; split; [exact Ham|reflexivity]|].
  split; [exact Hr|]. split; [exact Ham'|]. split; [exact (proj2 Hc Hset)|exact Hcl].
Defined.

Lemma failed_payment_blocks_close_witness : close_proceeds (Close (run_wallet demo_failed)) = false.
Proof.
  refine (failed_payment_blocks_close _ _ _ _ 0 _ demo_failed_run _ (rtc_once _ _ (ws_close _ _ _ _ _))).
  reflexivity.
Defined.

(** ** From the pipeline to the payment *)

(** A payment request gets the next credit of a batch, provided it asks for
    exactly the amount of the batch's credits: then it holds that credit and has
    been answered with it, and the batch has the rest.  For any other amount,
    although [BeginPayment] admits every amount up to the prefetch amount, the
    transfer fails with an error that is not an expected one, which ends the
    pipeline, and the request is never answered. *)
Theorem payment_handout {B : BlindRSA} {BC : BlindBankContract} {SS : SourceService} env W p q st c cs v id :
  w_batches W !! p = Some st → credits st = c :: cs → w_requests W !! q = Some (NewPaymentRequest v) →
  pe_id env = Some id → length id = 32%nat →
  let intent := payment_intent v p q in
  if decide (v = creditAmount st) then
    ∃ W', Process env NoopLogger intent W = Some (Ok (MkTransfer id intent 0 [b_value c]), W') ∧
      w_batches W' !! p = Some (MkStack (depositTransferID st) (maxCredits st) cs (creditAmount st)) ∧
      w_requests W' !! q =
        Some (MkPaymentRequest v (MkStack id 1 [c] (b_value c)) [MkResponse (Some c) None])
  else ∃ e, Process env NoopLogger intent W = Some (Err e, W) ∧ IsExpectedError intent e = false.
Proof.
  intros Hp Hc Hq Hid Hl. destruct W as [b s accs batches reqs ress]. simpl in Hp, Hq.
  assert (NumCredits st = Z.of_nat (S (length cs))) as Hn by (unfold NumCredits; by rewrite Hc).
  unfold Process, payment_intent, GenerateID. cbn [From To i_Withdrawal origin allowedOrigins from_maxDelay].
  rewrite bool_decide_true by (by left). cbn [negb]. rewrite Hid, Hl. cbn.
  rewrite Hp. cbn. unfold stack_withdraw, canWithdrawNoLock. rewrite Hn.
  replace (Z.of_nat (S (length cs)) =? 0) with false by (symmetry; apply Z.eqb_neq; lia).
  destruct (decide (MkWithdrawal false 1 v false = FullWithdrawal)) as [|_]; [done|]. cbn [Amount Credits].
  destruct (decide (v = creditAmount st)) as [->|Hne].
  - rewrite bool_decide_true by done. cbn [negb].
    replace (Z.of_nat (S (length cs)) <? 1) with false by (symmetry; apply Z.ltb_ge; lia). cbn. rewrite Hc.
    change (Z.to_nat 1) with 1%nat. cbn [take drop]. rewrite take_0, drop_0.
    unfold process_deposit. cbn. rewrite Hq. cbn. eexists. split; [reflexivity|]. simpl.
    by rewrite !lookup_insert_eq.
  - rewrite bool_decide_false by congruence. cbn. eexists. split; [|reflexivity].
    do 3 f_equal. by rewrite insert_id.
Qed.

#[local] Existing Instance toy_rsa.
#[local] Existing Instance free_source.
#[local] Instance demo_bank_contract : BlindBankContract := inmem_bank (NL:=inmem_locker) (λ _, 0).
#[local] Instance demo_bank_spec : BlindBankSpec demo_bank_contract := inmem_bank_spec (NL:=inmem_locker) (λ _, 0).

Definition demo_ten : Currency.Value := Currency.MkValue false 10.
Definition demo_stack : creditStack :=
  MkStack [x01] 0 [MkBlinded demo_ten demo_nonce []] demo_ten.
Definition demo_pipeline (v : Currency.Value) : World :=
  MkWorld (NewBank, NewNonceLocker) tt ∅ {[ 0%nat := demo_stack ]} {[ 0%nat := NewPaymentRequest v ]} ∅.

(** Ten is handed out; five is refused, although the wallet admits it. *)
Lemma payment_handout_witness :
  begin_amount (λ _, 0) (fresh_wallet 10 5) 5 = Ok (Currency.MkValue false 5) ∧
  (∃ e, Process demo_process_env NoopLogger (payment_intent (Currency.MkValue false 5) 0 0)
          (demo_pipeline (Currency.MkValue false 5)) = Some (Err e, demo_pipeline (Currency.MkValue false 5)) ∧
        IsExpectedError (payment_intent (Currency.MkValue false 5) 0 0) e = false) ∧
  ∃ W', Process demo_process_env NoopLogger (payment_intent demo_ten 0 0) (demo_pipeline demo_ten)
          = Some (Ok (MkTransfer (replicate 32 x05) (payment_intent demo_ten 0 0) 0 [demo_ten]), W').
Proof.
  split; [vm_compute; reflexivity|]. split.
  - exact (payment_handout demo_process_env (demo_pipeline (Currency.MkValue false 5)) 0 0 demo_stack
      (MkBlinded demo_ten demo_nonce []) [] (Currency.MkValue false 5) (replicate 32 x05)
      eq_refl eq_refl eq_refl eq_refl eq_refl).
  - destruct (payment_handout demo_process_env (demo_pipeline demo_ten) 0 0 demo_stack
      (MkBlinded demo_ten demo_nonce []) [] demo_ten (replicate 32 x05)
      eq_refl eq_refl eq_refl eq_refl eq_refl) as (W' & H & _). exists W'. exact H.
Defined.

(** Asking the bank for more credits than a batch may have fails. *)
Lemma BlindBank_WithdrawBatch_max {B : BlindRSA} {BC : BlindBankContract} {BS : BlindBankSpec BC}
    {SS : SourceService} env acc n amount b :
  Z.of_nat MaxBatchLen < n → ∃ e, (BlindBank_WithdrawBatch env acc n amount b).1 = Err e.
Proof.
  intros Hn. unfold BlindBank_WithdrawBatch. destruct (Z.leb_spec n 0); [by eexists|].
  destruct (begin_credits _ _ _ _) as [state|] eqn:Es; [|by eexists].
  apply begin_credits_ok in Es as [Hl _].
  destruct (withdraw_batch_max acc (Request <$> state) b) as (e & He & _).
  { rewrite length_fmap, Hl. lia. }
  destruct (bc_WithdrawBatch _ _ _) as [r b']. simpl in He. subst r. by eexists.
Qed.

(** A wallet whose source amount is sixteen or more times the prefetch amount
    is accepted by [New] but never gets a credit out: an account funded from the
    source is split in one batch, and every bank that keeps the contract refuses
    batches of more than fifteen credits, whatever else happens. *)
Theorem split_over_limit_fails {B : BlindRSA} {BC : BlindBankContract} {BS : BlindBankSpec BC}
    {SS : SourceService} undef cfg wp env logger W p q a :
  in_int64 (SourceAmount cfg) → in_int64 (PrefetchAmount cfg) → New undef cfg = Ok wp →
  Z.of_nat MaxBatchLen < Z.quot (SourceAmount cfg) (PrefetchAmount cfg) →
  w_accounts W !! p = Some a → acc_balance a = SourceAmount cfg →
  ∀ t W', Process env logger (split_intent (prefetchVal wp) (acc_balance a) p q) W ≠ Some (Ok t, W').
Proof.
  intros Hs64 Hp64 Hnew Hq Ha Hbal t W' (cs & W1 & _ & _ & Hw & _)%Process_ok.
  unfold New in Hnew. destruct (_ || _); [done|]. destruct (_ <? _); [done|].
  apply result_bind_ok in Hnew as (sv & _ & Hnew).
  apply result_bind_ok in Hnew as (pv & Hpv%wrap_err_ok%wrap_err_ok & Hnew).
  apply Currency.Exact_wf in Hpv as (_ & _ & Hpa); [|apply Hp64].
  assert (prefetchVal wp = pv) as Hwp by (by injection Hnew as <-). rewrite Hwp in Hw. clear Hnew.
  destruct W as [b s accs batches reqs ress]. simpl in Ha.
  cbn [withdraw split_intent From i_Withdrawal] in Hw. rewrite Ha in Hw. cbn [mbind option_bind] in Hw.
  unfold Account_withdraw in Hw.
  destruct (decide (MkWithdrawal _ _ _ _ = FullWithdrawal)) as [E|_]; [by inversion E|].
  destruct (_ <? 0); [done|]. cbn [Credits Amount] in Hw.
  assert (Currency.AmountOrZero pv = PrefetchAmount cfg) as Hpz by (unfold Currency.AmountOrZero; by rewrite Hpa).
  rewrite Hbal, Hpz in Hw.
  destruct (BlindBank_WithdrawBatch_max (pe_withdraw env) (acc_token a)
    (Z.quot (SourceAmount cfg) (PrefetchAmount cfg)) pv b Hq) as [e He].
  destruct (BlindBank_WithdrawBatch _ _ _ _ _) as [r b']. simpl in He. subst r. done.
Qed.

Definition demo_config : Config := MkConfig 1024 16 0 0 0 None.
Definition demo_account : Account := MkAccount demo_token 1024 5.
Definition demo_split_world : World :=
  MkWorld (NewBank, NewNonceLocker) tt {[ 0%nat := demo_account ]} {[ 0%nat := EmptyBankBatch ]} ∅ ∅.

Lemma split_over_limit_fails_witness :
  ∃ wp, New (λ _, 0) demo_config = Ok wp ∧
    ∀ t W', Process demo_process_env NoopLogger (split_intent (prefetchVal wp) 1024 0 0) demo_split_world
      ≠ Some (Ok t, W').
Proof.
  destruct (New (λ _, 0) demo_config) as [wp|e] eqn:E.
  2: { apply (f_equal is_ok) in E. vm_compute in E. discriminate E. }
  exists wp. split; [reflexivity|].
  exact (split_over_limit_fails (λ _, 0) demo_config wp demo_process_env NoopLogger demo_split_world 0 0
    demo_account ltac:(unfold in_int64; simpl; lia) ltac:(unfold in_int64; simpl; lia) E
    ltac:(vm_compute; reflexivity) eq_refl eq_refl).
Defined.
