(* ===== verification/Health.v ===== *)
(** Package [router/health] ([check.go], [history.go], [grader.go],
    [status.go]): health checks, the per-node history ordered by time, its
    merge and window, and the grade derived from it. *)

From S2P Require Import Prelude GoLib Float64.
From S2P Require Uuidv7.

Section health.
Context {U : UrlLib} {I : UuidLib} {T : TimestampLib}.

(** ** [check.go] *)

Record Check := MkCheck {
  NodeID : uuid;
  URL : url;
  Retries : Z;
  Timestamp : Z;
  Latency : Z;
  HTTPStatusCode : Z;
  ErrorMessage : string;
}.

Definition Equal (c other : Check) : bool :=
  bool_decide (NodeID c = NodeID other) &&
  bool_decide (url_string (URL c) = url_string (URL other)) &&
  (Retries c =? Retries other) &&
  (Timestamp c =? Timestamp other) &&
  (Latency c =? Latency other) &&
  (HTTPStatusCode c =? HTTPStatusCode other) &&
  bool_decide (ErrorMessage c = ErrorMessage other).

Definition IsSuccessful (c : Check) : bool :=
  (200 <=? HTTPStatusCode c) && (HTTPStatusCode c <=? 299).

Definition safeInt32 (v : Z) : Z * bool :=
  if (v <? - 2 ^ 31) || (2 ^ 31 - 1 <? v) then (0, false) else (v, true).

(** The [health.Check] message; reading an unset field gives its zero. *)
Record PbCheck := MkPbCheck {
  pb_node_id : string;
  pb_url : string;
  pb_retries : Z;
  pb_timestamp : option timestamp;
  pb_latency_ns : Z;
  pb_http_status_code : Z;
  pb_error_message : string;
}.

(** [AsTime] of a missing timestamp is the Unix epoch. *)
Definition as_time (ts : option timestamp) : Z := from_option ts_as_time 0 ts.

Definition Check_UnmarshalProto (pbc : PbCheck) : result goerror Check :=
  id ← wrap_err (ErrorWrap "failed to parse node id") (Uuidv7.Parse (pb_node_id pbc));
  match url_parse (pb_url pbc) with
  | None => Err (ErrorNew "failed to parse URL")
  | Some requestURL =>
      if bool_decide (url_scheme requestURL = "") then Err (ErrorNew "requires absolute URL")
      else Ok (MkCheck id requestURL (pb_retries pbc) (as_time (pb_timestamp pbc))
                 (pb_latency_ns pbc) (pb_http_status_code pbc) (pb_error_message pbc))
  end.

Definition int32_or_max (v : Z) : Z := let '(x, ok) := safeInt32 v in if ok then x else 2 ^ 31 - 1.

Definition Check_MarshalProto (c : Check) : PbCheck :=
  MkPbCheck (uuid_string (NodeID c)) (url_string (URL c)) (int32_or_max (Retries c))
    (Some (ts_new (Timestamp c))) (Latency c) (int32_or_max (HTTPStatusCode c)) (ErrorMessage c).

(** ** [history.go] *)

Abbreviation History := (list Check).

Definition History_MarshalProto (h : History) : list PbCheck := Check_MarshalProto <$> h.

(** The loop over the messages; [prev] is [newH[i-1]]. *)
Fixpoint unmarshal_checks (prev : option Check) (checks : list PbCheck) : result goerror History :=
  match checks with
  | [] => Ok []
  | check :: checks =>
      c ← wrap_err (ErrorWrap "failed to unmarshal healthcheck") (Check_UnmarshalProto check);
      _ ← match prev with
          | None => Ok tt
          | Some p =>
              if negb (bool_decide (NodeID c = NodeID p)) then
                Err (ErrorNew "expected all healthchecks to be for the same node")
              else if before (Timestamp c) (Timestamp p) then
                Err (ErrorNew "expected history to be ordered from old to new")
              else Ok tt
          end;
      rest ← unmarshal_checks (Some c) checks;
      Ok (c :: rest)
  end.
Definition History_UnmarshalProto (checks : list PbCheck) : result goerror History :=
  unmarshal_checks None checks.

Definition mismatch (h : History) (id : uuid) : bool :=
  match h with [] => false | c :: _ => negb (bool_decide (NodeID c = id)) end.

Definition Insert {S : SliceSort} (h : History) (hc : Check) : result goerror History :=
  if mismatch h (NodeID hc) then Err (ErrorNew "mismatched node ID")
  else if existsb (λ existing, Equal existing hc) h then Ok h
  else Ok (slice_sort (λ x y, before (Timestamp x) (Timestamp y)) (h ++ [hc])).

(** The merge loop: the two slices not consumed yet.  Each round consumes a
    check, so their joint length is enough fuel. *)
Fixpoint merge_loop (fuel : nat) (h other : History) : History :=
  match fuel, h, other with
  | S fuel, x :: h', y :: other' =>
      if before (Timestamp x) (Timestamp y) then x :: merge_loop fuel h' other
      else if before (Timestamp y) (Timestamp x) then y :: merge_loop fuel h other'
      else if Equal x y then x :: merge_loop fuel h' other'
      else x :: y :: merge_loop fuel h' other'
  | _, _, _ => h ++ other
  end.

Definition Merge (h other : History) : result goerror History :=
  match h, other with
  | _, [] => Ok h
  | [], _ => Ok other
  | x :: _, y :: _ =>
      if negb (bool_decide (NodeID x = NodeID y)) then Err (ErrorNew "histories are for different nodes")
      else Ok (merge_loop (length h + length other) h other)
  end.

Definition After (h : list Check) (cutoff : Z) : History :=
  match h with
  | [] => h
  | _ =>
      let index := sort_search (length h)
        (λ i, match h !! i with Some c => negb (before (Timestamp c) cutoff) | None => false end) in
      if (length h <=? index)%nat then [] else drop index h
  end.

Record HistoryStats := MkStats { Total : Z; Successes : Z; CurrentFailureStreak : Z }.

Definition SuccessRate (s : HistoryStats) : float64 * bool :=
  if Total s =? 0 then (f64_zero, false)
  else (f64_div (f64_of_Z (Successes s)) (f64_of_Z (Total s)), true).

(** The loop from the newest check to the oldest. *)
Fixpoint stats_loop (newest_first : History) (failStreak : bool) (stats : HistoryStats) : HistoryStats :=
  match newest_first with
  | [] => stats
  | c :: cs =>
      if IsSuccessful c then
        stats_loop cs false (MkStats (Total stats) (Successes stats + 1) (CurrentFailureStreak stats))
      else if failStreak then
        stats_loop cs failStreak (MkStats (Total stats) (Successes stats) (CurrentFailureStreak stats + 1))
      else stats_loop cs failStreak stats
  end.

Definition Stats (h : History) : HistoryStats :=
  match h with
  | [] => MkStats 0 0 0
  | _ => stats_loop (rev h) true (MkStats (Z.of_nat (length h)) 0 0)
  end.

(** ** [grader.go] and [status.go] *)

Inductive Status := StatusOK | StatusUnavailable | StatusUnknown.

Record GraderConfig := MkGraderConfig {
  MinChecks : Z;
  MinSuccessRate : float64;
  MaxRecentFailureStreak : Z;
  MaxAge : Z;
}.

Definition DefaultGraderConfig : GraderConfig :=
  MkGraderConfig 3 (f64_div (f64_of_Z 9) (f64_of_Z 10)) 3 (minute * 15).

Definition NewGrader (cfg : GraderConfig) : result goerror GraderConfig :=
  if MinChecks cfg <=? 0 then Err (ErrorNew "min checks must be at least 1")
  else if f64_ltb (MinSuccessRate cfg) f64_zero || f64_ltb f64_one (MinSuccessRate cfg) then
    Err (ErrorNew "unavailable threshold needs to be between 0 and 1")
  else if MaxRecentFailureStreak cfg <? 0 then Err (ErrorNew "max failure streak needs to be at least 0")
  else if MaxAge cfg <=? 0 then Err (ErrorNew "needs a max age")
  else if (MaxRecentFailureStreak cfg =? 0) && f64_eqb (MinSuccessRate cfg) f64_zero then
    Err (ErrorNew "needs a failure condition")
  else Ok cfg.

Definition Grade (cfg : GraderConfig) (now : Z) (history : History) : Status :=
  let cutoff := now + - MaxAge cfg in
  let window := After history cutoff in
  if Z.of_nat (length window) <? MinChecks cfg then StatusUnknown
  else
    let stats := Stats window in
    if negb (MaxRecentFailureStreak cfg =? 0) &&
       (MaxRecentFailureStreak cfg <=? CurrentFailureStreak stats) then StatusUnavailable
    else if negb (f64_eqb (MinSuccessRate cfg) f64_zero) then
      let '(rate, ok) := SuccessRate stats in
      if negb ok then StatusUnknown
      else if f64_ltb rate (MinSuccessRate cfg) then StatusUnavailable
      else StatusOK
    else StatusOK.
End health.

Abbreviation History := (list Check).

(** ** Histories *)

Section history.
Context {U : UrlLib} {I : UuidLib} {T : TimestampLib} {UL : UrlLaws U}.

Lemma Equal_eq (c d : Check) : Equal c d = true ↔ c = d.
Proof.
  unfold Equal. rewrite !andb_true_iff, !bool_decide_eq_true, !Z.eqb_eq. split; [|by intros ->].
  intros ((((((? & Hu) & ?) & ?) & ?) & ?) & ?). destruct c, d. simpl in *. subst.
  f_equal. apply (f_equal url_parse) in Hu. rewrite !url_parse_string in Hu. by injection Hu.
Qed.

Definition ordered (h : History) : Prop := StronglySorted (λ x y, Timestamp x ≤ Timestamp y) h.
Definition strictly_ordered (h : History) : Prop := StronglySorted (λ x y, Timestamp x < Timestamp y) h.
Definition one_node (id : uuid) (h : History) : Prop := Forall (λ c, NodeID c = id) h.

Lemma existsb_Equal h hc : existsb (λ existing, Equal existing hc) h = true ↔ hc ∈ h.
Proof.
  rewrite existsb_exists. split.
  - intros (c & Hc & ->%Equal_eq). by apply list_elem_of_In.
  - intros Hc. exists hc. rewrite Equal_eq. by rewrite <- list_elem_of_In.
Qed.

Lemma mismatch_one_node id h c : one_node id h → NodeID c = id → mismatch h (NodeID c) = false.
Proof.
  intros Hh Hc. destruct h as [|d h]; [done|]. apply Forall_cons in Hh as [Hd _].
  unfold mismatch. rewrite bool_decide_eq_true_2; [done|congruence].
Qed.

Lemma before_weak_order : weak_order (λ x y, before (Timestamp x) (Timestamp y)).
Proof.
  split; unfold before; intros *; rewrite ?Z.ltb_lt, ?Z.ltb_ge; lia.
Qed.

Lemma slice_sort_ordered {S : SliceSort} h :
  ordered (slice_sort (λ x y, before (Timestamp x) (Timestamp y)) h).
Proof.
  pose proof (slice_sort_sorted _ h before_weak_order) as Hs. unfold ordered.
  eapply StronglySorted_mono; [|exact Hs]. intros x y. unfold before. by rewrite Z.ltb_ge.
Qed.

(** *** The merge loop *)

(** One round, with the fuel the loop starts with. *)
Lemma merge_loop_nil_r fuel h : merge_loop fuel h [] = h.
Proof. destruct fuel, h; simpl; by rewrite ?app_nil_r. Qed.

Lemma merge_loop_elem fuel h other c : c ∈ merge_loop fuel h other ↔ c ∈ h ∨ c ∈ other.
Proof.
  revert h other. induction fuel as [|fuel IH]; intros [|x h] [|y other]; simpl;
    rewrite ?elem_of_cons, ?elem_of_app, ?elem_of_cons, ?elem_of_nil, ?app_nil_r; try tauto.
  destruct (before (Timestamp x) (Timestamp y)), (before (Timestamp y) (Timestamp x)),
    (Equal x y) eqn:E; rewrite ?elem_of_cons, ?IH, ?elem_of_cons; try tauto.
  apply Equal_eq in E as ->. tauto.
Qed.

Lemma merge_loop_ordered fuel h other :
  (length h + length other ≤ fuel)%nat → ordered h → ordered other → ordered (merge_loop fuel h other).
Proof.
  revert h other. induction fuel as [|fuel IH]; intros [|x h] [|y other] Hf Hh Ho; simpl in *;
    rewrite ?app_nil_r; try done; try lia.
  apply StronglySorted_inv in Hh as [Hh Hx], Ho as [Ho Hy]. rewrite Forall_forall in Hx, Hy.
  assert (ordered (x :: h) ∧ ordered (y :: other)) as [Hxh Hyo]
    by (split; constructor; rewrite ?Forall_forall; done).
  unfold before. destruct (Z.ltb_spec (Timestamp x) (Timestamp y)).
  { constructor; [apply IH; simpl; [lia|done..]|]. apply Forall_forall.
    intros c [Hc|[->|Hc]%elem_of_cons]%merge_loop_elem; [by apply Hx|lia|]. specialize (Hy _ Hc). lia. }
  destruct (Z.ltb_spec (Timestamp y) (Timestamp x)).
  { constructor; [apply IH; simpl; [lia|done..]|]. apply Forall_forall.
    intros c [[->|Hc]%elem_of_cons|Hc]%merge_loop_elem; [lia| |by apply Hy]. specialize (Hx _ Hc). lia. }
  assert (∀ c, c ∈ merge_loop fuel h other → Timestamp y ≤ Timestamp c) as Hc.
  { intros c [Hc|Hc]%merge_loop_elem; [specialize (Hx _ Hc); lia|by apply Hy]. }
  destruct (Equal x y); repeat constructor; try (apply IH; [lia|done..]); try lia;
    apply Forall_forall; intros c Hin; specialize (Hc c Hin); lia.
Qed.

(** Two histories agree when checks taken at the same instant are the same. *)
Definition agree (h other : History) : Prop :=
  ∀ x y, x ∈ h → y ∈ other → Timestamp x = Timestamp y → x = y.

Lemma merge_loop_strict fuel h other :
  (length h + length other ≤ fuel)%nat → agree h other → strictly_ordered h → strictly_ordered other →
  strictly_ordered (merge_loop fuel h other).
Proof.
  revert h other. induction fuel as [|fuel IH]; intros [|x h] [|y other] Hf Ha Hh Ho; simpl in *;
    rewrite ?app_nil_r; try done; try lia.
  apply StronglySorted_inv in Hh as [Hh Hx], Ho as [Ho Hy]. rewrite Forall_forall in Hx, Hy.
  assert (strictly_ordered (x :: h) ∧ strictly_ordered (y :: other)) as [Hxh Hyo]
    by (split; constructor; rewrite ?Forall_forall; done).
  assert (∀ h' other', h' ⊆ x :: h → other' ⊆ y :: other → agree h' other') as Hsub
    by (intros ????; unfold agree in *; set_solver).
  unfold before. destruct (Z.ltb_spec (Timestamp x) (Timestamp y)).
  { constructor; [apply IH; simpl; [lia|apply Hsub; set_solver|done..]|]. apply Forall_forall.
    intros c [Hc|[->|Hc]%elem_of_cons]%merge_loop_elem; [by apply Hx|lia|]. specialize (Hy _ Hc). lia. }
  destruct (Z.ltb_spec (Timestamp y) (Timestamp x)).
  { constructor; [apply IH; simpl; [lia|apply Hsub; set_solver|done..]|]. apply Forall_forall.
    intros c [[->|Hc]%elem_of_cons|Hc]%merge_loop_elem; [lia| |by apply Hy]. specialize (Hx _ Hc). lia. }
  assert (x = y) as <- by (apply Ha; [left|left|lia]). rewrite (proj2 (Equal_eq x x) eq_refl).
  constructor; [apply IH; [lia|apply Hsub; set_solver|done..]|].
  apply Forall_forall. intros c [Hc|Hc]%merge_loop_elem; [by apply Hx|by apply Hy].
Qed.

(** A strictly ordered history is determined by its checks. *)
Lemma strict_unique_instant h x y :
  strictly_ordered h → x ∈ h → y ∈ h → Timestamp x = Timestamp y → x = y.
Proof.
  intros Hh. induction Hh as [|z h Hh IH Hz]; [by intros []%not_elem_of_nil|].
  rewrite Forall_forall in Hz. intros [->|Hx]%elem_of_cons [->|Hy]%elem_of_cons E; auto.
  - specialize (Hz _ Hy). simpl in Hz. lia.
  - specialize (Hz _ Hx). simpl in Hz. lia.
Qed.

Lemma strictly_ordered_unique h k :
  strictly_ordered h → strictly_ordered k → (∀ c, c ∈ h ↔ c ∈ k) → h = k.
Proof.
  intros Hh. revert k. induction Hh as [|x h Hh IH Hx]; intros k Hk Hel.
  { destruct k as [|y k]; [done|]. exfalso. apply (not_elem_of_nil y), Hel. left. }
  destruct k as [|y k]; [exfalso; apply (not_elem_of_nil x), Hel; left|].
  apply StronglySorted_inv in Hk as [Hk Hy]. rewrite Forall_forall in Hx, Hy.
  assert (x = y) as <-.
  { assert (x ∈ y :: k) as [->|Hxk]%elem_of_cons by (apply Hel; left); [done|].
    assert (y ∈ x :: h) as [->|Hyh]%elem_of_cons by (apply Hel; left); [done|].
    specialize (Hx _ Hyh). specialize (Hy _ Hxk). simpl in *. lia. }
  f_equal. apply IH; [done|]. intros c. specialize (Hel c). rewrite !elem_of_cons in Hel.
  split; intros Hc.
  - destruct Hel as [[->|?] _]; [by right| |done]. specialize (Hx _ Hc). simpl in Hx. lia.
  - destruct Hel as [_ [->|?]]; [by right| |done]. specialize (Hy _ Hc). simpl in Hy. lia.
Qed.

Lemma Merge_nodes id h other :
  one_node id h → one_node id other →
  Merge h other = Ok (merge_loop (length h + length other) h other).
Proof.
  intros Hh Ho. destruct h as [|x h], other as [|y other]; simpl; rewrite ?app_nil_r; try done.
  apply Forall_cons in Hh as [Hx _], Ho as [Hy _].
  rewrite bool_decide_eq_true_2 by congruence. done.
Qed.
End history.

(** Inserting a check into an ordered history of its node gives an ordered
    history with exactly that check added, once: a check already present leaves
    the history unchanged, a check of another node is refused. *)
Theorem Insert_spec {U : UrlLib} {UL : UrlLaws U} {S : SliceSort} id h hc :
  ordered h → one_node id h → h ≠ [] →
  match Insert h hc with
  | Ok h' =>
      NodeID hc = id ∧ ordered h' ∧ one_node id h' ∧ (∀ c, c ∈ h' ↔ c ∈ h ∨ c = hc) ∧
      (hc ∈ h → h' = h) ∧ (hc ∉ h → h' ≡ₚ hc :: h)
  | Err _ => NodeID hc ≠ id
  end.
Proof.
  intros Hord Hid Hne. unfold Insert. destruct (mismatch h (NodeID hc)) eqn:Em.
  { intros E. by rewrite (mismatch_one_node id) in Em. }
  assert (NodeID hc = id) as Hhc.
  { destruct h as [|c h]; [done|]. apply Forall_cons in Hid as [<- _]. simpl in Em.
    by apply negb_false_iff, bool_decide_eq_true in Em. }
  destruct (existsb _ h) eqn:Ee.
  - apply existsb_Equal in Ee. split_and!; try done. intros c. split; [auto|]. by intros [?| ->].
  - assert (hc ∉ h) as Hnin by (intros Hin%existsb_Equal; congruence).
    pose proof (slice_sort_perm (λ x y, before (Timestamp x) (Timestamp y)) (h ++ [hc])) as Hp.
    split_and!; try done; [apply slice_sort_ordered|unfold one_node; rewrite Hp| |intros _; rewrite Hp].
    + apply Forall_app. split; [done|]. by constructor.
    + intros c. rewrite Hp, elem_of_app, list_elem_of_singleton. done.
    + apply Permutation_app_comm.
Qed.

(** Merging the histories two routers keep of one node.  The result is
    ordered and has exactly the checks of both.  When every history has one
    check per instant and the two agree on shared instants, the result is their
    strictly ordered union: merging is commutative and absorbs either side, so
    routers that exchange histories in any order and any number of times end up
    with the same one. *)
Theorem Merge_converges {U : UrlLib} {UL : UrlLaws U} id h other :
  one_node id h → one_node id other → ordered h → ordered other →
  ∃ m, Merge h other = Ok m ∧ ordered m ∧ one_node id m ∧ (∀ c, c ∈ m ↔ c ∈ h ∨ c ∈ other) ∧
    (strictly_ordered h → strictly_ordered other → agree h other →
     strictly_ordered m ∧ Merge other h = Ok m ∧ Merge m other = Ok m ∧ Merge m h = Ok m).
Proof.
  intros Hh Ho Oh Oo. rewrite (Merge_nodes id) by done.
  set (m := merge_loop (length h + length other) h other).
  assert (Hm : ∀ c, c ∈ m ↔ c ∈ h ∨ c ∈ other) by (intros c; apply merge_loop_elem).
  assert (one_node id m) as Hid.
  { apply Forall_forall. intros c [Hc|Hc]%Hm; [by eapply Forall_forall in Hh|by eapply Forall_forall in Ho]. }
  exists m. split_and!; try done; [by apply merge_loop_ordered|].
  intros Sh So Ha. assert (strictly_ordered m) as Sm by by apply merge_loop_strict.
  assert (Hag : ∀ a b, (∀ c, c ∈ a → c ∈ m) → (∀ c, c ∈ b → c ∈ m) → agree a b).
  { intros a b Hsa Hsb x y Hx Hy. by apply (strict_unique_instant m); auto. }
  split; [done|]. split_and!; rewrite (Merge_nodes id) by done; f_equal;
    (apply strictly_ordered_unique; [apply merge_loop_strict; [done|apply Hag; naive_solver|done..]|done|]);
    intros c; rewrite merge_loop_elem; naive_solver.
Qed.

(** Checks of one node taken at the same instant that differ make merging
    diverge: every further merge with the same remote history appends another
    copy of the remote check, so the history grows without bound. *)
Theorem Merge_conflict_grows {U : UrlLib} {UL : UrlLaws U} x y n :
  NodeID x = NodeID y → Timestamp x = Timestamp y → x ≠ y →
  Merge (x :: replicate n y) [y] = Ok (x :: replicate (S n) y).
Proof.
  intros Hid Ht Hne. unfold Merge. rewrite bool_decide_eq_true_2 by done. cbn [negb].
  cbn [length Nat.add merge_loop]. unfold before. rewrite Ht, Z.ltb_irrefl.
  destruct (Equal x y) eqn:E; [by apply Equal_eq in E|].
  rewrite merge_loop_nil_r. done.
Qed.

Definition demo_check (ts status : Z) : @Check text_url :=
  @MkCheck text_url 7%N "http://node/" 0 ts 5 status "".

Lemma Insert_spec_witness :
  match @Insert text_url insertion_slice_sort [demo_check 5 200] (demo_check 3 500) with
  | Ok h' => NodeID (demo_check 3 500) = 7%N ∧ ordered h' ∧ one_node 7%N h' ∧
      (∀ c, c ∈ h' ↔ c ∈ [demo_check 5 200] ∨ c = demo_check 3 500) ∧
      (demo_check 3 500 ∈ [demo_check 5 200] → h' = [demo_check 5 200]) ∧
      (demo_check 3 500 ∉ [demo_check 5 200] → h' ≡ₚ [demo_check 3 500; demo_check 5 200])
  | Err _ => NodeID (demo_check 3 500) ≠ 7%N
  end.
Proof. apply (@Insert_spec text_url text_url_laws); [repeat constructor..|done]. Defined.

Lemma Merge_converges_witness :
  ∃ m, Merge [demo_check 1 200; demo_check 3 500] [demo_check 2 200; demo_check 3 500] = Ok m ∧
    Merge [demo_check 2 200; demo_check 3 500] [demo_check 1 200; demo_check 3 500] = Ok m.
Proof.
  destruct (@Merge_converges text_url text_url_laws 7%N
    [demo_check 1 200; demo_check 3 500] [demo_check 2 200; demo_check 3 500])
    as (m & H1 & _ & _ & _ & H); [repeat constructor; simpl; lia..|].
  destruct H as (_ & H2 & _); [repeat constructor; simpl; lia..| |by exists m].
  intros x y Hx%list_elem_of_In Hy%list_elem_of_In. simpl in Hx, Hy.
  destruct Hx as [<-|[<-|[]]], Hy as [<-|[<-|[]]]; simpl; intros; done || lia.
Defined.

Lemma Merge_conflict_grows_witness :
  Merge (demo_check 3 500 :: replicate 1 (demo_check 3 200)) [demo_check 3 200]
    = Ok (demo_check 3 500 :: replicate 2 (demo_check 3 200)).
Proof. by apply (@Merge_conflict_grows text_url text_url_laws). Defined.

(** ** Windows, statistics and grades *)

Section grades.
Context {U : UrlLib}.

Definition recent (cutoff : Z) (h : History) : History := filter (λ c, cutoff ≤ Timestamp c) h.

Lemma ordered_lookup (h : list Check) i j c d :
  ordered h → h !! i = Some c → h !! j = Some d → (i ≤ j)%nat → Timestamp c ≤ Timestamp d.
Proof.
  intros Hh. revert i j. induction Hh as [|x h Hh IH Hx]; intros i j Hi Hj Hij; [done|].
  destruct i as [|i], j as [|j]; simpl in *; [|..|eauto with lia]; simplify_eq; try lia.
  rewrite Forall_forall in Hx. apply Hx. by eapply list_elem_of_lookup_2.
Qed.

(** Binary search finds the window. *)
Lemma After_recent (h : list Check) cutoff : ordered h → After h cutoff = recent cutoff h.
Proof.
  intros Hh. unfold After. destruct h as [|c0 h0] eqn:Eh; [done|]. rewrite <- Eh in *.
  set (f := λ i, match h !! i with Some c => negb (before (Timestamp c) cutoff) | None => false end).
  assert (Hf : ∀ i c, h !! i = Some c → f i = true ↔ cutoff ≤ Timestamp c).
  { intros i c Hi. unfold f, before. rewrite Hi, negb_true_iff, Z.ltb_ge. done. }
  destruct (sort_search_spec (length h) f) as (Hle & Hlo & Hhi).
  { intros i j Hij Hj Hi. unfold f in *. cbv beta in *. destruct (h !! i) as [c|] eqn:Ei; [|done].
    destruct (lookup_lt_is_Some_2 h j Hj) as [d Ed]. rewrite Ed.
    pose proof (ordered_lookup h i j c d Hh Ei Ed Hij). unfold before in *.
    rewrite negb_true_iff, Z.ltb_ge in *. lia. }
  set (index := sort_search (length h) f) in *.
  assert (Hsplit : recent cutoff h = drop index h).
  { rewrite <- (take_drop index h) at 1. unfold recent. rewrite filter_app.
    rewrite (filter_none _ (take index h)).
    - simpl. apply filter_all. apply Forall_forall. intros c [i Hi]%list_elem_of_lookup_1.
      rewrite lookup_drop in Hi. pose proof (lookup_lt_Some _ _ _ Hi).
      apply (Hf _ _ Hi), Hhi. lia.
    - apply Forall_forall. intros c [i Hi]%list_elem_of_lookup_1.
      apply lookup_take_Some in Hi as [Hi Hlt]. rewrite <- (Hf _ _ Hi).
      by rewrite (Hlo i Hlt). }
  rewrite Hsplit. destruct (Nat.leb_spec (length h) index); [|done]. by rewrite drop_ge.
Qed.

Definition successes (h : History) : Z := Z.of_nat (length (filter (λ c, IsSuccessful c = true) h)).

Lemma stats_loop_false l t s f :
  stats_loop l false (MkStats t s f) = MkStats t (s + successes l) f.
Proof.
  revert s. induction l as [|c l IH]; intros s; cbn [stats_loop]; [unfold successes; simpl; f_equal; lia|].
  unfold successes in *. rewrite filter_cons. destruct (IsSuccessful c); simpl; rewrite IH; f_equal; lia.
Qed.

Lemma stats_loop_true failing l t s f :
  Forall (λ c, IsSuccessful c = false) failing →
  (∀ c, head l = Some c → IsSuccessful c = true) →
  stats_loop (failing ++ l) true (MkStats t s f)
    = MkStats t (s + successes l) (f + Z.of_nat (length failing)).
Proof.
  intros Hf Hl. revert f. induction Hf as [|c failing Hc Hf IH]; intros f; cbn [app stats_loop].
  - destruct l as [|c l]; cbn [stats_loop]; [unfold successes; simpl; f_equal; lia|].
    rewrite (Hl c eq_refl). simpl. rewrite stats_loop_false. unfold successes. rewrite filter_cons.
    rewrite decide_True by auto. simpl. f_equal; lia.
  - rewrite Hc, IH. simpl. f_equal. lia.
Qed.

Lemma successes_rev l : successes (rev l) = successes l.
Proof.
  unfold successes. rewrite rev_alt. change (rev_append l []) with (reverse l).
  by rewrite filter_reverse, length_reverse.
Qed.

(** [older ++ failing] splits a window at the end of its failing suffix. *)
Definition failing_suffix (older failing : History) : Prop :=
  Forall (λ c, IsSuccessful c = false) failing ∧ ∀ c, last older = Some c → IsSuccessful c = true.

Lemma Stats_eq older failing :
  failing_suffix older failing →
  Stats (older ++ failing) = MkStats (Z.of_nat (length (older ++ failing))) (successes older)
    (Z.of_nat (length failing)).
Proof.
  intros [Hf Hl]. unfold Stats. destruct (older ++ failing) as [|c h] eqn:E.
  { by apply app_eq_nil in E as [-> ->]. }
  rewrite <- E. rewrite rev_app_distr, stats_loop_true.
  - rewrite successes_rev, !Z.add_0_l. f_equal. rewrite length_rev. done.
  - apply Forall_rev. done.
  - intros d Hd. apply Hl. rewrite <- head_reverse. unfold reverse. by rewrite <- rev_alt.
Qed.

Lemma successes_app h k : successes (h ++ k) = successes h + successes k.
Proof. unfold successes. rewrite filter_app, length_app. lia. Qed.

Lemma successes_failing f : Forall (λ c, IsSuccessful c = false) f → successes f = 0.
Proof.
  intros Hf. unfold successes. rewrite filter_none; [done|].
  eapply Forall_impl; [exact Hf|]. intros c Hc. simpl in *. by rewrite Hc.
Qed.
End grades.

(** C40. The grade of a node.  For a valid configuration and an ordered history,
    only the checks of the last [MaxAge] count; too few of them give an unknown
    status; otherwise the node is unavailable exactly when its most recent
    failures, counted back from the newest check to the last success, reach the
    configured streak or its success rate is below the configured minimum. *)
Theorem Grade_spec {U : UrlLib} cfg now history older failing :
  NewGrader cfg = Ok cfg → ordered history →
  recent (now - MaxAge cfg) history = older ++ failing → failing_suffix older failing →
  Grade cfg now history =
    (let n := Z.of_nat (length (older ++ failing)) in
     if n <? MinChecks cfg then StatusUnknown
     else if (0 <? MaxRecentFailureStreak cfg) && (MaxRecentFailureStreak cfg <=? Z.of_nat (length failing))
     then StatusUnavailable
     else if negb (f64_eqb (MinSuccessRate cfg) f64_zero) &&
             f64_ltb (f64_div (f64_of_Z (successes (older ++ failing))) (f64_of_Z n)) (MinSuccessRate cfg)
     then StatusUnavailable
     else StatusOK).
Proof.
  intros Hcfg Hord Hw Hsuf. unfold Grade. replace (now + - MaxAge cfg) with (now - MaxAge cfg) by lia.
  rewrite After_recent, Hw by done. cbv zeta. rewrite (Stats_eq older failing Hsuf).
  rewrite successes_app, (successes_failing failing), Z.add_0_r by apply Hsuf.
  unfold NewGrader in Hcfg. destruct (Z.leb_spec (MinChecks cfg) 0) as [|Hmin]; [done|].
  destruct (_ || _); [done|]. destruct (Z.ltb_spec (MaxRecentFailureStreak cfg) 0) as [|Hs]; [done|]. clear Hcfg.
  destruct (Z.ltb_spec (Z.of_nat (length (older ++ failing))) (MinChecks cfg)); [done|].
  cbn [CurrentFailureStreak]. unfold SuccessRate. cbn [Total Successes].
  destruct (Z.eqb_spec (Z.of_nat (length (older ++ failing))) 0); [lia|]. cbn [negb].
  replace (negb (MaxRecentFailureStreak cfg =? 0)) with (0 <? MaxRecentFailureStreak cfg)
    by (destruct (Z.eqb_spec (MaxRecentFailureStreak cfg) 0), (Z.ltb_spec 0 (MaxRecentFailureStreak cfg)); simpl; lia).
  destruct ((0 <? MaxRecentFailureStreak cfg) && _); [done|].
  by destruct (f64_eqb (MinSuccessRate cfg) f64_zero).
Qed.

Lemma Grade_spec_witness :
  Grade DefaultGraderConfig 0 [demo_check (-1) 200; demo_check 1 200; demo_check 2 500] = StatusUnavailable.
Proof.
  etransitivity.
  - apply (Grade_spec DefaultGraderConfig 0 _ [demo_check (-1) 200; demo_check 1 200] [demo_check 2 500]).
    + vm_compute. reflexivity.
    + repeat constructor; simpl; lia.
    + vm_compute. reflexivity.
    + split; [repeat constructor|]. intros c [= <-]. reflexivity.
  - vm_compute. reflexivity.
Defined.

(** ** The protobuf form *)

Section proto.
Context {U : UrlLib} {I : UuidLib} {T : TimestampLib} {UL : UrlLaws U} {IL : UuidLaws I} {TL : TimestampLaws T}.

Definition int32 (z : Z) : Prop := - 2 ^ 31 ≤ z < 2 ^ 31.

(** A check the router can have received or made itself. *)
Definition check_wf (c : Check) : Prop :=
  Uuidv7.uuid7 (NodeID c) ∧ url_scheme (URL c) ≠ "" ∧ int32 (Retries c) ∧ int32 (HTTPStatusCode c).

Lemma int32_or_max_id v : int32 v → int32_or_max v = v.
Proof.
  unfold int32, int32_or_max, safeInt32. intros Hv.
  destruct (Z.ltb_spec v (- 2 ^ 31)), (Z.ltb_spec (2 ^ 31 - 1) v); simpl; lia.
Qed.

Lemma int32_or_max_range v : int32 (int32_or_max v).
Proof.
  unfold int32, int32_or_max, safeInt32.
  destruct (Z.ltb_spec v (- 2 ^ 31)), (Z.ltb_spec (2 ^ 31 - 1) v); simpl; lia.
Qed.

Lemma Check_roundtrip c : check_wf c → Check_UnmarshalProto (Check_MarshalProto c) = Ok c.
Proof.
  intros (Hid & Hurl & Hr & Hs). unfold Check_UnmarshalProto, Check_MarshalProto.
  cbn [pb_node_id pb_url pb_retries pb_timestamp pb_latency_ns pb_http_status_code pb_error_message].
  rewrite Uuidv7.Parse_string by done. cbn [wrap_err mbind result_bind].
  rewrite url_parse_string, bool_decide_eq_false_2 by done. cbn [as_time from_option].
  rewrite ts_as_time_new, !int32_or_max_id by done. by destruct c.
Qed.

(** What the unmarshalling loop accepts, seen from the previous check. *)
Definition follows (prev : option Check) (c : Check) : Prop :=
  match prev with None => True | Some p => NodeID c = NodeID p ∧ Timestamp p ≤ Timestamp c end.

Lemma follows_trans prev c d : follows prev c → follows (Some c) d → follows prev d.
Proof. destruct prev; simpl; [|done]. intros [-> ?] [-> ?]. split; [done|lia]. Qed.

Lemma unmarshal_checks_ok prev checks h :
  unmarshal_checks prev checks = Ok h ↔
  Forall2 (λ pbc c, Check_UnmarshalProto pbc = Ok c) checks h ∧ ordered h ∧
  Forall (follows prev) h ∧ ∀ c, head h = Some c → one_node (NodeID c) h.
Proof.
  revert prev h. induction checks as [|pbc checks IH]; intros prev h; cbn [unmarshal_checks].
  { split.
    - intros [= <-]. split_and!; [constructor|constructor|constructor|done].
    - intros (H & _). by inversion H. }
  rewrite result_bind_ok. split.
  - intros (c & Hc%wrap_err_ok & H). apply result_bind_ok in H as ([] & Hg & H).
    apply result_bind_ok in H as (rest & Hrest & [= <-]).
    apply IH in Hrest as (Hf & Ho & Hfol & _).
    assert (follows prev c) as Hpc.
    { unfold follows. destruct prev as [p|]; [|done].
      destruct (bool_decide_reflect (NodeID c = NodeID p)); [|done]. simpl in Hg.
      unfold before in Hg. destruct (Z.ltb_spec (Timestamp c) (Timestamp p)); [done|]. split; [done|lia]. }
    split_and!.
    + by constructor.
    + constructor; [done|]. eapply Forall_impl; [exact Hfol|]. intros d [_ ?]. done.
    + constructor; [done|]. eapply Forall_impl; [exact Hfol|]. intros d Hd. by eapply follows_trans.
    + intros ? [= <-]. constructor; [done|]. eapply Forall_impl; [exact Hfol|]. by intros d [? _].
  - intros (Hf & Ho & Hfol & Hone). inversion Hf as [|? c ? rest Hc Hrest]; subst.
    exists c. rewrite Hc. split; [done|].
    apply StronglySorted_inv in Ho as [Ho Hle]. apply Forall_cons in Hfol as [Hpc Hfol].
    specialize (Hone c eq_refl). apply Forall_cons in Hone as [_ Hone].
    assert (Hg : match prev with
      | None => Ok tt
      | Some p => if negb (bool_decide (NodeID c = NodeID p)) then Err (ErrorNew "expected all healthchecks to be for the same node")
          else if before (Timestamp c) (Timestamp p) then Err (ErrorNew "expected history to be ordered from old to new") else Ok tt
      end = Ok tt).
    { destruct prev as [p|]; [|done]. destruct Hpc as [Hid ?]. rewrite bool_decide_eq_true_2 by done. simpl.
      unfold before. by destruct (Z.ltb_spec (Timestamp c) (Timestamp p)); [lia|]. }
    rewrite Hg. cbn [mbind result_bind]. rewrite (proj2 (IH (Some c) rest)); [done|].
    split_and!; [done..| |].
    + rewrite Forall_forall in *. intros d Hd. split; [by apply Hone|by apply Hle].
    + intros d Hd. destruct rest as [|e rest]; [done|]. injection Hd as ->.
      pose proof Hone as [He _]%Forall_cons. unfold one_node. by rewrite He.
Qed.
End proto.

(** The wire form of a history.  Every history a router accepts is ordered
    and of one node; conversely such a history of well-formed checks survives
    marshalling and unmarshalling unchanged. *)
Theorem History_wire {U : UrlLib} {I : UuidLib} {T : TimestampLib}
    {UL : UrlLaws U} {IL : UuidLaws I} {TL : TimestampLaws T} :
  (∀ checks h, History_UnmarshalProto checks = Ok h →
     ordered h ∧ length h = length checks ∧ ∀ c d, c ∈ h → d ∈ h → NodeID c = NodeID d) ∧
  (∀ h id, ordered h → one_node id h → Forall check_wf h →
     History_UnmarshalProto (History_MarshalProto h) = Ok h).
Proof.
  split.
  - intros checks h (Hf & Ho & _ & Hone)%unmarshal_checks_ok. split_and!; [done|by apply Forall2_length in Hf|].
    intros c d Hc Hd. destruct h as [|e h]; [by apply not_elem_of_nil in Hc|].
    specialize (Hone e eq_refl). unfold one_node in Hone. rewrite Forall_forall in Hone.
    by rewrite (Hone c Hc), (Hone d Hd).
  - intros h id Ho Hone Hwf. apply unmarshal_checks_ok. split_and!; [|done|by apply Forall_forall|].
    + unfold History_MarshalProto. induction Hwf; constructor; auto using Check_roundtrip.
      * apply IHHwf; [by apply StronglySorted_inv in Ho as [? _]|by apply Forall_cons in Hone as [_ ?]].
    + intros c Hc. destruct h as [|e h]; [done|]. injection Hc as ->.
      pose proof Hone as [He _]%Forall_cons. by rewrite He.
Qed.

(** Version 7 UUIDs of the reference instance. *)
Definition demo_id (n : N) : uuid := (7 * 2 ^ 76 + n)%N.
Definition demo_check7 (ts status : Z) : @Check text_url :=
  @MkCheck text_url (demo_id 1) "http://node/" 0 ts 5 status "".

Lemma History_wire_witness :
  @History_UnmarshalProto text_url binary_uuid unix_timestamp
    (@History_MarshalProto text_url binary_uuid unix_timestamp [demo_check7 1 200; demo_check7 4 500])
  = Ok [demo_check7 1 200; demo_check7 4 500].
Proof.
  apply (@History_wire text_url binary_uuid unix_timestamp text_url_laws binary_uuid_laws unix_timestamp_laws)
    with (id := demo_id 1); repeat constructor; simpl; done || lia.
Defined.
