(* ===== verification/Checker.v ===== *)
(** [router/health/checker.go]: the application that checks the health of the
    nodes a router is responsible for, and the error body of a failed check
    ([httpfmt/json.go], [httpfmt/binary.go]). *)

From S2P Require Import Prelude Bytes GoLib Http Health.

(** ** Bodies

    What reading a body to its end gives: the bytes, then [io.EOF] or an error. *)
Record body_reader := MkReader { rd_bytes : list byte; rd_fail : option goerror }.
Definition LimitReader (r : body_reader) (n : nat) : body_reader :=
  if decide (n ≤ length (rd_bytes r))%nat then MkReader (take n (rd_bytes r)) None else r.
Definition ReadAll (r : body_reader) : result goerror (list byte) :=
  match rd_fail r with None => Ok (rd_bytes r) | Some e => Err e end.

Record Response := MkResponse { rs_StatusCode : Z; rs_Header : Header; rs_Body : body_reader }.

(** What one attempt sees of the world: the wall clock, the time the request
    took, and how [http.Client.Do] ended. *)
Record attempt := MkAttempt { at_now : Z; at_elapsed : Z; at_do : result goerror Response }.

Definition maxErrorBodyLength : nat := Z.to_nat 1024.

Record CheckerConfig := MkCheckerConfig { Interval : Z; RequestTimeout : Z; cfg_Retries : Z; MaxAge : Z }.
Definition DefaultCheckerConfig : CheckerConfig := MkCheckerConfig (30 * second) (5 * second) 3 (15 * minute).

(** The fields of the checker that its operations use. *)
Record Checker := MkChecker { timeBetween : Z; ck_retries : Z; ck_timeout : Z; maxAge : Z }.
Definition NewChecker (cfg : CheckerConfig) : Checker :=
  let retries := if 0 <? cfg_Retries cfg then cfg_Retries cfg else 1 in
  MkChecker (Interval cfg) retries (RequestTimeout cfg) (MaxAge cfg).

Section checker.
Context {U : UrlLib} {WE : ProtoWire PbError}.
(** The JSON decoder: the [error] field of the first value of the body. *)
Context (decode_error_field : body_reader → result goerror string).

Definition DecodeJSONErrorAsError (r : body_reader) : result goerror goerror :=
  text ← decode_error_field r; Ok (ErrorNew text).

Definition responseToErrorMessage (resp : Response) : string :=
  let input := LimitReader (rs_Body resp) maxErrorBodyLength in
  let text r := match r with Ok v => Error_text v | Err _ => "" end in
  if bool_decide (Get (rs_Header resp) "Content-Type" = "application/json") then
    text (DecodeJSONErrorAsError input)
  else if bool_decide (Get (rs_Header resp) "Content-Type" = "application/octet-stream") then
    text (DecodeBinaryErrorAsError (ReadAll input))
  else "".

(** [http.NewRequestWithContext] parses the URL it is given. *)
Definition NewRequest (target : string) : option url := url_parse target.

(** One attempt: the fields it sets. *)
Definition run_attempt (a : attempt) (hc : Check) : Check :=
  let hc := MkCheck (NodeID hc) (URL hc) (Retries hc) (at_now a) 0 0 (ErrorMessage hc) in
  let hc := match at_do a with
            | Err err => MkCheck (NodeID hc) (URL hc) (Retries hc) (Timestamp hc) 0 0 (Error_text err)
            | Ok resp => MkCheck (NodeID hc) (URL hc) (Retries hc) (Timestamp hc) 0 (rs_StatusCode resp)
                           (responseToErrorMessage resp)
            end in
  MkCheck (NodeID hc) (URL hc) (Retries hc) (Timestamp hc) (at_elapsed a) (HTTPStatusCode hc) (ErrorMessage hc).

(** The loop, with [todo] attempts left, the next one being attempt [i]; the
    second component counts the requests that were sent. *)
Fixpoint check_loop (w : nat → attempt) (tgtURL : url) (todo i : nat) (hc : Check) : result goerror Check * nat :=
  match todo with
  | O => (Ok hc, i)
  | S todo =>
      match NewRequest (url_string tgtURL) with
      | None => (Err (ErrorWrap "failed to create request" (ErrorNew "parse")), i)
      | Some _ =>
          let hc := run_attempt (w i) hc in
          if IsSuccessful hc then (Ok hc, S i) else check_loop w tgtURL todo (S i) hc
      end
  end.

Definition new_check (nodeID : uuid) (tgtURL : url) : Check := MkCheck nodeID tgtURL 0 zero_time 0 0 "".
Definition CheckHealth (c : Checker) (w : nat → attempt) (nodeID : uuid) (tgtURL : url) : result goerror Check * nat :=
  check_loop w tgtURL (Z.to_nat (ck_retries c)) 0 (new_check nodeID tgtURL).

(** ** Rounds

    The store is the router; every target has a goroutine of its own, and the
    goroutines add their checks in any order. *)
Class Store (DB : Type) := {
  QueryHealthcheckTargets : DB → gmap uuid url * Z;
  AddHealthcheck : Check → DB → DB;
}.

Context {DB : Type} {St : Store DB}.

Inductive goroutines (c : Checker) : gmap uuid url → DB → DB → list Check → Prop :=
| g_done s : goroutines c ∅ s s []
| g_add targets nodeID tgtURL w hc n s s' log :
    targets !! nodeID = Some tgtURL → CheckHealth c w nodeID tgtURL = (Ok hc, n) →
    goroutines c (delete nodeID targets) (AddHealthcheck hc s) s' log →
    goroutines c targets s s' (hc :: log)
| g_fail targets nodeID tgtURL w err n s s' log :
    targets !! nodeID = Some tgtURL → CheckHealth c w nodeID tgtURL = (Err err, n) →
    goroutines c (delete nodeID targets) s s' log →
    goroutines c targets s s' log.

Definition runHealthChecks (c : Checker) (s s' : DB) (log : list Check) : Prop :=
  goroutines c (QueryHealthcheckTargets s).1 s s' log.

(** [Run]: rounds at the ticks until the context is done; other writers may
    change the store between two rounds. *)
Inductive Run (c : Checker) : DB → DB → list (list Check) → Prop :=
| run_done s : Run c s s []
| run_tick s s' s'' log logs : runHealthChecks c s s' log → Run c s' s'' logs → Run c s s'' (log :: logs)
| run_other s s' s'' logs : Run c s' s'' logs → Run c s s'' logs.

(** ** One target *)

Lemma NewChecker_retries cfg : 1 ≤ ck_retries (NewChecker cfg).
Proof. unfold NewChecker. cbn. destruct (Z.ltb_spec 0 (cfg_Retries cfg)); lia. Qed.

Lemma run_attempt_spec a hc :
  let hc' := run_attempt a hc in
  NodeID hc' = NodeID hc ∧ URL hc' = URL hc ∧ Retries hc' = Retries hc ∧
  Timestamp hc' = at_now a ∧ Latency hc' = at_elapsed a ∧
  HTTPStatusCode hc' = match at_do a with Ok resp => rs_StatusCode resp | Err _ => 0 end ∧
  ErrorMessage hc' = match at_do a with Ok resp => responseToErrorMessage resp | Err err => Error_text err end.
Proof. unfold run_attempt. destruct (at_do a); by split_and!. Qed.

(** An attempt is a success when it was answered with a 2xx status. *)
Definition answered_2xx (a : attempt) : bool :=
  match at_do a with Ok resp => (200 <=? rs_StatusCode resp) && (rs_StatusCode resp <=? 299) | Err _ => false end.
Lemma run_attempt_success a hc : IsSuccessful (run_attempt a hc) = answered_2xx a.
Proof. unfold IsSuccessful, answered_2xx, run_attempt. by destruct (at_do a). Qed.

(** What an attempt leaves does not depend on the attempts before it. *)
Lemma run_attempt_forgets a b hc : run_attempt a (run_attempt b hc) = run_attempt a hc.
Proof. unfold run_attempt. by destruct (at_do a), (at_do b). Qed.

Lemma check_loop_step w tgtURL todo i hc :
  NewRequest (url_string tgtURL) ≠ None →
  check_loop w tgtURL (S todo) i hc =
    if answered_2xx (w i) then (Ok (run_attempt (w i) hc), S i)
    else check_loop w tgtURL todo (S i) (run_attempt (w i) hc).
Proof.
  intros Hu. cbn [check_loop]. destruct (NewRequest (url_string tgtURL)); [|done]. by rewrite run_attempt_success.
Qed.

Lemma check_loop_spec w tgtURL todo i hc hc' n :
  NewRequest (url_string tgtURL) ≠ None →
  (check_loop w tgtURL (S todo) i hc) = (hc', n) →
  (i < n ≤ i + S todo)%nat ∧
  hc' = Ok (run_attempt (w (pred n)) hc) ∧
  (∀ k, (i ≤ k < pred n)%nat → answered_2xx (w k) = false) ∧
  (n ≠ (i + S todo)%nat → answered_2xx (w (pred n)) = true).
Proof.
  intros Hu. induction todo as [|todo IH] in i, hc |- *; intros H; rewrite check_loop_step in H by done;
    destruct (answered_2xx (w i)) eqn:Ea.
  - injection H as <- <-. cbn. split_and!; (done || lia).
  - injection H as <- <-. cbn. split_and!; (done || lia).
  - injection H as <- <-. cbn. split_and!; (done || lia).
  - destruct (IH (S i) (run_attempt (w i) hc) H) as (Hn & -> & Hf & Hl).
    rewrite run_attempt_forgets. split_and!; [lia..|done| |].
    + intros k Hk. destruct (decide (k = i)) as [-> |]; [done|apply Hf; lia].
    + intros Hne. apply Hl. lia.
Qed.

(** C26. For a target whose URL is valid, [CheckHealth] always returns a check:
    it sends at least one and at most [Retries] requests (one, when [Retries]
    is not positive), stops at the first 2xx answer, and the check it returns
    has the clock, the latency, the status and the error message of exactly the
    last request sent, with nothing left of the failed ones.  The check is
    successful exactly when some attempt within the limit was answered with
    2xx; its [Retries] field stays 0. *)
Theorem CheckHealth_spec cfg w nodeID tgtURL :
  url_parse (url_string tgtURL) ≠ None →
  let limit := Z.to_nat (ck_retries (NewChecker cfg)) in
  let '(r, n) := CheckHealth (NewChecker cfg) w nodeID tgtURL in
  ∃ hc, r = Ok hc ∧ (1 ≤ n ≤ limit)%nat ∧ Z.of_nat limit = Z.max 1 (cfg_Retries cfg) ∧
    NodeID hc = nodeID ∧ URL hc = tgtURL ∧ Retries hc = 0 ∧
    hc = run_attempt (w (pred n)) (new_check nodeID tgtURL) ∧
    (∀ k, (k < pred n)%nat → answered_2xx (w k) = false) ∧
    (IsSuccessful hc = true ↔ ∃ k, (k < limit)%nat ∧ answered_2xx (w k) = true).
Proof.
  intros Hu limit. pose proof (NewChecker_retries cfg) as Hpos.
  destruct (CheckHealth (NewChecker cfg) w nodeID tgtURL) as [r n] eqn:E. unfold CheckHealth in E. fold limit in E.
  assert (∃ todo, limit = S todo) as [todo Ht] by (exists (pred limit); unfold limit; lia). rewrite Ht in E.
  apply check_loop_spec in E as (Hn & -> & Hf & Hl); [|done]. eexists. split; [done|].
  destruct (run_attempt_spec (w (pred n)) (new_check nodeID tgtURL)) as (H1 & H2 & H3 & _).
  split_and!; [lia..| |done|done|done|done| |].
  - unfold limit, NewChecker. cbn. destruct (Z.ltb_spec 0 (cfg_Retries cfg)); lia.
  - intros k Hk. apply Hf. lia.
  - rewrite run_attempt_success. split; [intros Hs; exists (pred n); split; [lia|done]|].
    intros (k & Hk & Hs). destruct (decide (n = limit)) as [Heq|]; [|apply Hl; lia].
    destruct (decide (k = pred n)) as [<-|]; [done|]. rewrite Hf in Hs; [done|lia].
Qed.

(** The message of an error body that the nodes' own helper wrote. *)
Lemma BinaryError_message {WL : ProtoWireLaws PbError} msg code data h :
  marshal_message (MkPbError msg) = Ok data → (length data ≤ maxErrorBodyLength)%nat →
  Get h "Content-Type" = "application/octet-stream" →
  responseToErrorMessage (MkResponse code h (MkReader data None)) = msg.
Proof.
  intros Hd Hl Hh. unfold responseToErrorMessage. cbn [rs_Header rs_Body].
  rewrite bool_decide_eq_false_2, bool_decide_eq_true_2 by (rewrite ?Hh; done).
  assert (ReadAll (LimitReader (MkReader data None) maxErrorBodyLength) = Ok data) as ->.
  { unfold LimitReader, ReadAll. cbn [rd_bytes rd_fail]. case_decide; [|done]. cbn. by rewrite take_ge. }
  unfold DecodeBinaryErrorAsError, DecodeBinaryError, Decode. cbn [wrap_err mbind result_bind].
  by rewrite (unmarshal_marshalled _ _ Hd).
Qed.

(** ** One round *)

Definition checkable (targets : gmap uuid url) : gmap uuid url :=
  filter (λ '(_, u), url_parse (url_string u) ≠ None) targets.

Lemma CheckHealth_err cfg w id u err n :
  CheckHealth (NewChecker cfg) w id u = (Err err, n) → url_parse (url_string u) = None.
Proof.
  intros H. destruct (url_parse (url_string u)) eqn:E; [|done]. unfold CheckHealth in H.
  pose proof (NewChecker_retries cfg). destruct (Z.to_nat (ck_retries (NewChecker cfg))) as [|todo] eqn:Et; [lia|].
  apply check_loop_spec in H as (_ & ? & _); [done|]. unfold NewRequest. by rewrite E.
Qed.
Lemma CheckHealth_ok cfg w id u hc n :
  CheckHealth (NewChecker cfg) w id u = (Ok hc, n) →
  url_parse (url_string u) ≠ None ∧ NodeID hc = id ∧ URL hc = u.
Proof.
  unfold CheckHealth. pose proof (NewChecker_retries cfg).
  destruct (Z.to_nat (ck_retries (NewChecker cfg))) as [|todo] eqn:Et; [lia|]. intros H'.
  destruct (url_parse (url_string u)) eqn:E; [|cbn [check_loop] in H'; unfold NewRequest in H'; by rewrite E in H'].
  apply check_loop_spec in H' as (_ & [= ->] & _); [|unfold NewRequest; by rewrite E].
  destruct (run_attempt_spec (w (pred n)) (new_check id u)) as (-> & -> & _). done.
Qed.

Lemma goroutines_log cfg targets s s' log :
  goroutines (NewChecker cfg) targets s s' log →
  (λ hc, (NodeID hc, URL hc)) <$> log ≡ₚ map_to_list (checkable targets) ∧
  s' = foldl (λ s hc, AddHealthcheck hc s) s log ∧
  Forall (λ hc, ∃ w n, CheckHealth (NewChecker cfg) w (NodeID hc) (URL hc) = (Ok hc, n)) log.
Proof.
  induction 1 as [s|targets id u w hc n s s' log Hl Hc _ (IHp & IHs & IHf)|targets id u w err n s s' log Hl Hc _ (IHp & IHs & IHf)].
  - unfold checkable. rewrite map_filter_empty, map_to_list_empty. split_and!; [done..|constructor].
  - pose proof (CheckHealth_ok _ _ _ _ _ _ Hc) as (Hu & <- & <-). split_and!; [|done|constructor; [eauto|done]].
    cbn [fmap list_fmap]. rewrite IHp. unfold checkable. rewrite map_filter_delete, map_to_list_delete; [done|].
    by apply map_lookup_filter_Some_2.
  - split_and!; [|done|done]. rewrite IHp. unfold checkable. rewrite map_filter_delete, delete_id; [done|].
    apply map_lookup_filter_None_2. right. intros x Hx Hne. apply Hne. rewrite Hl in Hx. injection Hx as <-.
    by eapply CheckHealth_err.
Qed.

(** A round can always be finished, whatever the answers are. *)
Lemma goroutines_total cfg (w : uuid → nat → attempt) targets s :
  ∃ s' log, goroutines (NewChecker cfg) targets s s' log.
Proof.
  revert s. induction targets as [|id u targets Hid IH] using map_ind; intros s; [do 2 eexists; constructor|].
  destruct (CheckHealth (NewChecker cfg) (w id) id u) as [[hc|err] n] eqn:E.
  - destruct (IH (AddHealthcheck hc s)) as (s' & log & Hg). exists s', (hc :: log).
    eapply g_add; [by rewrite lookup_insert_eq|done|by rewrite delete_insert_id].
  - destruct (IH s) as (s' & log & Hg). exists s', log.
    eapply g_fail; [by rewrite lookup_insert_eq|done|by rewrite delete_insert_id].
Qed.

(** A round of health checks ends, and in whatever order its goroutines
    finish it adds to the store exactly one check for every target whose URL is
    valid and none for any other node, each check made by [CheckHealth] of that
    very target; the store after the round is the one before with those checks
    added one by one, so a store whose [AddHealthcheck] commutes ends in the
    same state for every order. *)
Theorem runHealthChecks_spec cfg s :
  let targets := (QueryHealthcheckTargets s).1 in
  (∀ w : uuid → nat → attempt, ∃ s' log, runHealthChecks (NewChecker cfg) s s' log) ∧
  ∀ s' log, runHealthChecks (NewChecker cfg) s s' log →
    NoDup (NodeID <$> log) ∧
    (∀ id u, (∃ hc, hc ∈ log ∧ NodeID hc = id ∧ URL hc = u) ↔
             targets !! id = Some u ∧ url_parse (url_string u) ≠ None) ∧
    Forall (λ hc, ∃ w n, CheckHealth (NewChecker cfg) w (NodeID hc) (URL hc) = (Ok hc, n)) log ∧
    s' = foldl (λ s hc, AddHealthcheck hc s) s log.
Proof.
  intros targets. split; [intros w; by apply goroutines_total|].
  intros s' log [Hp [-> Hf]]%goroutines_log. split_and!; [| |done|done].
  - assert (NodeID <$> log = ((λ hc, (NodeID hc, URL hc)) <$> log).*1) as ->.
    { rewrite <- list_fmap_compose. by apply list_fmap_ext. }
    rewrite Hp. apply NoDup_fst_map_to_list.
  - intros id u. transitivity ((id, u) ∈ (λ hc, (NodeID hc, URL hc)) <$> log).
    + rewrite list_elem_of_fmap. split; [intros (hc & ? & <- & <-); eauto|]. intros (hc & [= -> ->] & ?). eauto.
    + rewrite Hp, elem_of_map_to_list. unfold checkable. by rewrite map_lookup_filter_Some.
Qed.

(** Every round of a run is such a round. *)
Lemma Run_rounds cfg s s' logs :
  Run (NewChecker cfg) s s' logs → Forall (λ log, NoDup (NodeID <$> log)) logs.
Proof.
  induction 1 as [|s s1 s2 log logs Hr _ IH|]; [constructor| |done]. constructor; [|done].
  apply goroutines_log in Hr as (Hp & _).
  assert (NodeID <$> log = ((λ hc, (NodeID hc, URL hc)) <$> log).*1) as ->.
  { rewrite <- list_fmap_compose. by apply list_fmap_ext. }
  rewrite Hp. apply NoDup_fst_map_to_list.
Qed.
End checker.

(** ** A concrete checker *)

Definition demo_world (i : nat) : attempt :=
  match i with
  | O => MkAttempt 100 7 (Err (ErrorNew "connection refused"))
  | S O => MkAttempt 110 8 (Ok (MkResponse 503 (SetHeader "Content-Type" "application/octet-stream" ∅)
                                 (MkReader (string_bytes "busy") None)))
  | _ => MkAttempt 120 9 (Ok (MkResponse 200 ∅ (MkReader [] None)))
  end.
Definition no_json (_ : body_reader) : result goerror string := Err (ErrorNew "json").
Definition demo_CheckHealth (retries : Z) : result goerror (@Check text_url) * nat :=
  CheckHealth (U:=text_url) (WE:=text_error_wire) no_json
    (NewChecker (MkCheckerConfig (30 * second) (5 * second) retries (15 * minute))) demo_world 7%N "http://node/".
Example third_attempt : demo_CheckHealth 3 = (Ok (@MkCheck text_url 7%N "http://node/" 0 120 9 200 ""), 3%nat).
Proof. vm_compute. reflexivity. Qed.
Example two_attempts : demo_CheckHealth 2 = (Ok (@MkCheck text_url 7%N "http://node/" 0 110 8 503 "busy"), 2%nat).
Proof. vm_compute. reflexivity. Qed.

Lemma CheckHealth_spec_witness :
  match demo_CheckHealth 2 with (Ok hc, n) => n = 2%nat ∧ NodeID hc = 7%N | _ => False end.
Proof.
  pose proof (CheckHealth_spec (U:=text_url) (WE:=text_error_wire) no_json
    (MkCheckerConfig (30 * second) (5 * second) 2 (15 * minute)) demo_world 7%N "http://node/" ltac:(discriminate)) as H.
  pose proof two_attempts as E. unfold demo_CheckHealth in E |- *. rewrite E in H |- *. destruct H as (hc & [= <-] & _ & _ & Hid & _). split; [done|exact Hid].
Defined.

(** A store that keeps the checks it is given. *)
Definition log_store : @Store text_url (list (@Check text_url)) := {|
  QueryHealthcheckTargets := λ _, ({[ 7%N := "http://node/" : @url text_url ]}, 1);
  AddHealthcheck := λ hc s, s ++ [hc] |}.
Lemma runHealthChecks_spec_witness :
  ∃ s' log, runHealthChecks (U:=text_url) (WE:=text_error_wire) no_json (St:=log_store)
              (NewChecker DefaultCheckerConfig) [] s' log ∧ s' = log ∧ NodeID <$> log ≡ₚ [7%N].
Proof.
  destruct (runHealthChecks_spec (U:=text_url) (WE:=text_error_wire) no_json (St:=log_store) DefaultCheckerConfig []) as [Hex Hall].
  destruct (Hex (λ _, demo_world)) as (s' & log & Hr). exists s', log. split; [done|].
  destruct (Hall s' log Hr) as (Hnd & Hids & _ & ->). split.
  - assert (∀ l acc : list (@Check text_url), foldl (λ s hc, s ++ [hc]) acc l = acc ++ l) as Hf.
    { induction l as [|x l IH]; intros acc; cbn; [by rewrite app_nil_r|]. by rewrite IH, <- app_assoc. }
    apply (Hf log []).
  - apply NoDup_Permutation; [done|apply NoDup_singleton|]. intros id. rewrite list_elem_of_fmap, list_elem_of_singleton. split.
    + intros (hc & -> & Hin). destruct (proj1 (Hids (NodeID hc) (URL hc))) as [H _]; [eauto|].
      cbn in H. by apply lookup_singleton_Some in H as [<- _].
    + intros ->. destruct (proj2 (Hids 7%N "http://node/")) as (hc & Hin & <- & _); [by vm_compute|eauto].
Defined.
