(* ===== verification/Tags.v ===== *)
(** Package [tags]: sets of tags, optionally of the form [key=value]. *)

From Stdlib Require Import Strings.Ascii.
From S2P Require Import Prelude GoLib.

#[local] Arguments String.append !_ _ / : simpl nomatch.

Definition MaxTagLength : nat := 512.

Abbreviation Tags := (gset string).

(** *** What the package uses of [strings] *)

(** [strings.CutPrefix] *)
Fixpoint CutPrefix (s prefix : string) {struct prefix} : option string :=
  match prefix, s with
  | EmptyString, _ => Some s
  | String c prefix, String d s => if bool_decide (c = d) then CutPrefix s prefix else None
  | String _ _, EmptyString => None
  end.
Definition HasPrefix (s prefix : string) : bool :=
  match CutPrefix s prefix with Some _ => true | None => false end.

(** [strings.Contains(s, string(c))] *)
Fixpoint has_char (c : ascii) (s : string) : bool :=
  match s with
  | EmptyString => false
  | String d s => bool_decide (c = d) || has_char c s
  end.

(** [strings.SplitN(s, string(c), 2)], as the pair of parts when there are two *)
Fixpoint split2 (c : ascii) (s : string) : option (string * string) :=
  match s with
  | EmptyString => None
  | String d s =>
      if bool_decide (c = d) then Some (EmptyString, s)
      else '(a, b) ← split2 c s; Some (String d a, b)
  end.

Definition eq_char : ascii := "="%char.

(** *** The package *)

Definition tag_len (tag : string) : nat := String.length tag.

Fixpoint from_slice (rawTags : list string) (out : Tags) : result goerror Tags :=
  match rawTags with
  | [] => Ok out
  | tag :: rawTags =>
      if (MaxTagLength <? tag_len tag)%nat then Err (ErrorNew "tag over max length")
      else from_slice rawTags ({[ tag ]} ∪ out)
  end.
Definition FromSlice (rawTags : list string) : result goerror Tags := from_slice rawTags ∅.

Fixpoint StripTagKey (rawTags : list string) (tagKey : string) : result goerror (list string) :=
  match rawTags with
  | [] => Ok []
  | tag :: rawTags =>
      match split2 eq_char tag with
      | Some (key, value) =>
          if bool_decide (key = tagKey) then (value ::.) <$> StripTagKey rawTags tagKey
          else Err (ErrorNew "invalid raw tag")
      | None => Err (ErrorNew "invalid raw tag")
      end
  end.

Definition AddTag (t : Tags) (tag : string) : result goerror Tags :=
  if (MaxTagLength <? tag_len tag)%nat then Err (ErrorNew "tag over max length") else Ok ({[ tag ]} ∪ t).

Definition pair_tag (keyName valueName : string) : string :=
  String.append keyName (String eq_char valueName).

Definition AddTagPair (t : Tags) (keyName valueName : string) : result goerror Tags :=
  let tag := pair_tag keyName valueName in
  if (MaxTagLength <? tag_len tag)%nat then Err (ErrorNew "tag over max length")
  else if has_char eq_char keyName then Err (ErrorNew "invalid tag pair. Key name must not contain '='")
  else if has_char eq_char valueName then Err (ErrorNew "invalid tag pair. Value must not contain '='")
  else Ok ({[ tag ]} ∪ t).

Definition key_prefix (keyName : string) : string := String.append keyName (String eq_char EmptyString).

Section ranges.
Context {R : RangeOrder}.

Definition Slice (t : Tags) : list string := range_keys t.

(** The loop deletes from the map it ranges over. *)
Fixpoint remove_key_loop (keys : list string) (keyName : string) (t : Tags) (numDeleted : Z) : Tags * Z :=
  match keys with
  | [] => (t, numDeleted)
  | tag :: keys =>
      if HasPrefix tag (key_prefix keyName) then remove_key_loop keys keyName (t ∖ {[ tag ]}) (numDeleted + 1)
      else remove_key_loop keys keyName t numDeleted
  end.
Definition RemoveKey (t : Tags) (keyName : string) : Tags * Z :=
  remove_key_loop (range_keys t) keyName t 0.

Definition Contains (t : Tags) (tagName : string) : bool := bool_decide (tagName ∈ t).
Definition ContainsKey (t : Tags) (keyName : string) : bool :=
  existsb (λ tag, HasPrefix tag (key_prefix keyName)) (range_keys t).
Definition ContainsPair (t : Tags) (keyName valueName : string) : bool :=
  bool_decide (pair_tag keyName valueName ∈ t).
Definition ContainsAll (t m : Tags) : bool :=
  forallb (λ mTag, bool_decide (mTag ∈ t)) (range_keys m).
Definition GetValues (t : Tags) (keyName : string) : list string :=
  omap (λ tag, CutPrefix tag (key_prefix keyName)) (range_keys t).
End ranges.

(** *** Lemmas *)

Lemma CutPrefix_spec s prefix r : CutPrefix s prefix = Some r ↔ s = String.append prefix r.
Proof.
  revert s. induction prefix as [|c prefix IH]; intros s; simpl.
  { split; [by intros [= ->]|by intros ->]. }
  destruct s as [|d s]; [by split|]. case_bool_decide as Hc.
  - subst. rewrite IH. split; [by intros ->|by intros [= ->]].
  - split; [done|]. intros [= -> _]. by destruct Hc.
Qed.

Lemma append_assoc a b c : String.append a (String.append b c) = String.append (String.append a b) c.
Proof. induction a; simpl; congruence. Qed.

Lemma append_inj a b c : String.append a b = String.append a c → b = c.
Proof. induction a; simpl; [done|]. naive_solver. Qed.

Lemma pair_tag_prefix k v : pair_tag k v = String.append (key_prefix k) v.
Proof. unfold pair_tag, key_prefix. by rewrite <- append_assoc. Qed.

Lemma CutPrefix_pair_tag tag k v : CutPrefix tag (key_prefix k) = Some v ↔ tag = pair_tag k v.
Proof. by rewrite CutPrefix_spec, pair_tag_prefix. Qed.

Lemma HasPrefix_spec tag k : HasPrefix tag (key_prefix k) = true ↔ ∃ v, tag = pair_tag k v.
Proof.
  unfold HasPrefix. destruct (CutPrefix tag (key_prefix k)) as [v|] eqn:E.
  - apply CutPrefix_pair_tag in E. naive_solver.
  - split; [done|]. intros [v Hv]. apply CutPrefix_pair_tag in Hv. congruence.
Qed.

(** Splitting at the first separator recovers a key without one. *)
Lemma split2_pair_tag k v : has_char eq_char k = false → split2 eq_char (pair_tag k v) = Some (k, v).
Proof.
  unfold pair_tag. induction k as [|c k IH]; simpl; [done|].
  intros [Hc Hk]%orb_false_iff. rewrite Hc. by rewrite IH.
Qed.

Lemma from_slice_spec rawTags out :
  from_slice rawTags out =
    if decide (Forall (λ tag, tag_len tag ≤ MaxTagLength)%nat rawTags)
    then Ok (list_to_set rawTags ∪ out) else Err (ErrorNew "tag over max length").
Proof.
  revert out. induction rawTags as [|tag rawTags IH]; intros out; cbn [from_slice].
  { rewrite decide_True by done. f_equal. set_solver. }
  destruct (Nat.ltb_spec MaxTagLength (tag_len tag)).
  - rewrite decide_False; [done|]. intros [? _]%Forall_cons. lia.
  - rewrite IH. destruct (decide (Forall _ rawTags)) as [Hf|Hf].
    + rewrite decide_True by (by constructor). f_equal. set_solver.
    + rewrite decide_False; [done|]. by intros [_ ?]%Forall_cons.
Qed.

(** Tags that went through [FromSlice] or [AddTag]. *)
Definition tags_wf (t : Tags) : Prop := ∀ tag, tag ∈ t → (tag_len tag ≤ MaxTagLength)%nat.

(** Printing the set and reading it back gives the set. *)
Lemma FromSlice_Slice {R : RangeOrder} t : tags_wf t → FromSlice (Slice t) = Ok t.
Proof.
  intros Hwf. unfold FromSlice, Slice. rewrite from_slice_spec, decide_True.
  - f_equal. apply set_eq. intros x. rewrite elem_of_union, elem_of_list_to_set, range_keys_elem. set_solver.
  - apply Forall_forall. intros tag Htag%range_keys_elem. by apply Hwf.
Qed.

Lemma FromSlice_wf rawTags t : FromSlice rawTags = Ok t → tags_wf t ∧ t = list_to_set rawTags.
Proof.
  unfold FromSlice. rewrite from_slice_spec. destruct (decide _) as [Hf|]; [|done].
  intros [= <-]. rewrite Forall_forall in Hf. split; [|set_solver]. intros tag Htag. apply Hf. set_solver.
Qed.

Lemma ContainsAll_spec {R : RangeOrder} t m : ContainsAll t m = true ↔ m ⊆ t.
Proof.
  unfold ContainsAll. rewrite forallb_forall. split.
  - intros H tag Htag. apply (bool_decide_eq_true_1 (tag ∈ t)), H, list_elem_of_In. by apply range_keys_elem.
  - intros H tag Htag%list_elem_of_In. apply bool_decide_eq_true_2, H. by apply range_keys_elem in Htag.
Qed.

Lemma GetValues_spec {R : RangeOrder} t k v : v ∈ GetValues t k ↔ pair_tag k v ∈ t.
Proof.
  unfold GetValues. rewrite list_elem_of_omap. split.
  - intros (tag & Htag%range_keys_elem & ->%CutPrefix_pair_tag). done.
  - intros H. exists (pair_tag k v). by rewrite range_keys_elem, CutPrefix_pair_tag.
Qed.

Lemma ContainsKey_spec {R : RangeOrder} t k : ContainsKey t k = true ↔ ∃ v, pair_tag k v ∈ t.
Proof.
  unfold ContainsKey. rewrite existsb_exists. split.
  - intros (tag & Htag%list_elem_of_In%range_keys_elem & [v ->]%HasPrefix_spec). eauto.
  - intros [v Hv]. exists (pair_tag k v). rewrite <- list_elem_of_In, range_keys_elem, HasPrefix_spec. eauto.
Qed.

Lemma remove_key_loop_spec {R : RangeOrder} keys k t n :
  let '(t', n') := remove_key_loop keys k t n in
  (∀ tag, tag ∈ t' ↔ tag ∈ t ∧ (tag ∈ keys → HasPrefix tag (key_prefix k) = false)) ∧
  n' = n + Z.of_nat (length (filter (λ tag, HasPrefix tag (key_prefix k) = true) keys)).
Proof.
  revert t n. induction keys as [|tag keys IH]; intros t n; cbn [remove_key_loop].
  { split; [set_solver|simpl; lia]. }
  destruct (HasPrefix tag (key_prefix k)) eqn:E.
  - specialize (IH (t ∖ {[ tag ]}) (n + 1)). destruct (remove_key_loop _ _ _ _) as [t' n'].
    destruct IH as [IHt ->]. split.
    + intros x. rewrite IHt, elem_of_difference, elem_of_singleton, elem_of_cons. split.
      * intros [[? Hne] Hk]. split; [done|]. intros [->|?]; [done|auto].
      * intros [Hx Hk]. split; [split; [done|]|auto]. intros ->. rewrite Hk in E; [done|by left].
    + rewrite filter_cons_True by done. simpl. lia.
  - specialize (IH t n). destruct (remove_key_loop _ _ _ _) as [t' n']. destruct IH as [IHt ->]. split.
    + intros x. rewrite IHt, elem_of_cons. split.
      * intros [? Hk]. split; [done|]. intros [->|?]; auto.
      * intros [? Hk]. auto.
    + rewrite filter_cons_False by congruence. done.
Qed.

(** Key/value tags.  An accepted pair is stored under its key: the value is
    among [GetValues] and splitting the stored tag gives the pair back, so two
    accepted pairs collide only when they are equal; removing a key deletes
    exactly the tags of that key, counts them and leaves every other tag. *)
Theorem tag_pairs {R : RangeOrder} t k v t' :
  AddTagPair t k v = Ok t' →
  v ∈ GetValues t' k ∧ ContainsPair t' k v = true ∧ ContainsKey t' k = true ∧
  StripTagKey [pair_tag k v] k = Ok [v] ∧
  (∀ k' v' t2, AddTagPair t k' v' = Ok t2 → pair_tag k' v' = pair_tag k v → k' = k ∧ v' = v) ∧
  let '(t'', n) := RemoveKey t' k in
  (∀ tag, tag ∈ t'' ↔ tag ∈ t' ∧ ∀ w, tag ≠ pair_tag k w) ∧ ContainsKey t'' k = false ∧
  n = Z.of_nat (length (GetValues t' k)) ∧ 1 ≤ n.
Proof.
  intros H. unfold AddTagPair in H. destruct (_ <? _)%nat; [done|].
  destruct (has_char eq_char k) eqn:Hk; [done|]. destruct (has_char eq_char v) eqn:Hv; [done|].
  injection H as <-. set (t' := {[ pair_tag k v ]} ∪ t).
  assert (Hin : pair_tag k v ∈ t') by set_solver.
  split; [by apply GetValues_spec|]. split; [by apply bool_decide_eq_true_2|].
  split; [apply ContainsKey_spec; eauto|].
  split; [cbn [StripTagKey]; rewrite split2_pair_tag by done; by rewrite bool_decide_eq_true_2|].
  split.
  { intros k' v' t2 H2 E. unfold AddTagPair in H2. destruct (_ <? _)%nat; [done|].
    destruct (has_char eq_char k') eqn:Hk'; [done|]. apply (f_equal (split2 eq_char)) in E.
    rewrite !split2_pair_tag in E by done. naive_solver. }
  unfold RemoveKey. pose proof (remove_key_loop_spec (range_keys t') k t' 0) as Hr.
  destruct (remove_key_loop _ _ _ _) as [t'' n]. destruct Hr as [Ht ->].
  assert (Ht' : ∀ tag, tag ∈ t'' ↔ tag ∈ t' ∧ ∀ w, tag ≠ pair_tag k w).
  { intros tag. rewrite Ht. split; intros [Htag Hno]; (split; [done|]).
    - intros w ->. rewrite (proj2 (HasPrefix_spec (pair_tag k w) k)) in Hno by eauto.
      discriminate Hno. by apply range_keys_elem.
    - intros _. destruct (HasPrefix tag (key_prefix k)) eqn:E; [|done].
      apply HasPrefix_spec in E as [w ->]. by destruct (Hno w). }
  assert (Hlen : length (filter (λ tag, HasPrefix tag (key_prefix k) = true) (range_keys t'))
    = length (GetValues t' k)).
  { unfold GetValues. generalize (range_keys t'). intros l. induction l as [|tag l IH]; [done|].
    cbn [omap list_omap].
    destruct (CutPrefix tag (key_prefix k)) as [w|] eqn:E; [rewrite filter_cons_True|rewrite filter_cons_False];
      [cbn [length]; by rewrite IH| |exact IH|]; unfold HasPrefix; by rewrite E. }
  split_and!; [done| |by rewrite Hlen|].
  - destruct (ContainsKey t'' k) eqn:E; [|done]. apply ContainsKey_spec in E as [w [_ Hw]%Ht'].
    by destruct (Hw w).
  - assert (length (GetValues t' k) ≠ 0)%nat; [|lia]. intros E%length_zero_iff_nil.
    assert (v ∈ GetValues t' k) as Hvk by by apply GetValues_spec. rewrite E in Hvk. by apply not_elem_of_nil in Hvk.
Qed.

Lemma tag_pairs_witness :
  ∃ t', AddTagPair ∅ "model" "llama" = Ok t' ∧ "llama" ∈ @GetValues elements_order t' "model" ∧
    @StripTagKey [pair_tag "model" "llama"] "model" = Ok ["llama"].
Proof.
  eexists. split; [reflexivity|].
  edestruct (@tag_pairs elements_order ∅ "model" "llama") as (H1 & _ & _ & H2 & _); [reflexivity|].
  split; [exact H1|exact H2].
Defined.
