(* ===== verification/TpmKeys.v ===== *)
(** Packages [tpm] and [tpm/hpke], the parts that compute without a TPM: public keys
    of TPM objects ([crypto.go], [Pub] of [hpke.go]), PCR selections, digests and
    policy digests ([tpm.go]).  The [go-tpm], [elliptic]
    and [circl] libraries are classes. *)

From S2P Require Import Prelude Bytes GoLib.

(** ** Failures: an error returned, or a panic *)

Inductive failure := Failed (e : goerror) | Panicked.
#[global] Instance failure_eq_dec : EqDecision failure.
Proof. solve_decision. Defined.
Definition fail {A} (msg : string) : result failure A := Err (Failed (ErrorNew msg)).
(** [fmt.Errorf("...: %w", err)]; a panic is not wrapped. *)
Definition fwrap {A} (msg : string) : result failure A → result failure A :=
  wrap_err (λ e, match e with Failed e => Failed (ErrorWrap msg e) | Panicked => Panicked end).
(** A library call that returns an error or a value. *)
Definition lib {A} (msg : string) (o : option A) : result failure A :=
  match o with Some a => Ok a | None => fail msg end.

Lemma fwrap_ok {A} msg (r : result failure A) a : fwrap msg r = Ok a ↔ r = Ok a.
Proof. apply wrap_err_ok. Qed.
Lemma lib_ok {A} msg (o : option A) a : lib msg o = Ok a ↔ o = Some a.
Proof. destruct o; cbn; naive_solver. Qed.

Lemma fail_ok {A} msg (a : A) : ¬ fail msg = Ok a.
Proof. done. Qed.

(** Takes apart the steps of an execution that succeeds. *)
Ltac ok_step :=
  match goal with
  | H : (_ ≫= _) = Ok _ |- _ => apply result_bind_ok in H as (? & ? & H)
  | H : fwrap _ _ = Ok _ |- _ => apply fwrap_ok in H
  | H : lib _ _ = Ok _ |- _ => apply lib_ok in H
  | H : wrap_err _ _ = Ok _ |- _ => apply wrap_err_ok in H
  | H : Ok _ = Ok _ |- _ => injection H as H
  | H : Some _ = Some _ |- _ => injection H as H
  | H : fail _ = Ok _ |- _ => destruct (fail_ok _ _ H)
  | H : Err _ = Ok _ |- _ => discriminate H
  | H : negb (bool_decide ?P) = _ |- _ => apply negb_false_iff, bool_decide_eq_true in H
  | H : (if ?b then _ else _) = Ok _ |- _ => let E := fresh "E" in destruct b eqn:E; try (destruct (fail_ok _ _ H)); try discriminate H
  | H : (let '(_, _) := ?x in _) = Ok _ |- _ => destruct x as [??]
  end.
Ltac ok_steps := repeat (ok_step; simplify_eq).
Ltac destruct_units := repeat match goal with u : unit |- _ => destruct u end.

(** ** Public keys *)

Inductive curve := P256 | P384 | P521.
#[global] Instance curve_eq_dec : EqDecision curve.
Proof. solve_decision. Defined.

Inductive public_key :=
| RSAPublicKey (N E : Z)
| ECDSAPublicKey (c : curve) (X Y : Z)
| OtherPublicKey.

(** [go-tpm]: structures and their encodings, names, policies. *)
Class Tpm2 := {
  TPMTPublic : Type;
  Unmarshal_TPMTPublic : list byte → option TPMTPublic;
  pub_Type : TPMTPublic → Z;
  RSADetail : TPMTPublic → option Z;                   (* the exponent *)
  Unique_RSA : TPMTPublic → option (list byte);
  ECCDetail : TPMTPublic → option Z;                   (* the curve *)
  Unique_ECC : TPMTPublic → option (list byte * list byte);
  ObjectName : TPMTPublic → option (list byte);
  AuthPolicy : TPMTPublic → list byte;

  TPMSAttest : Type;
  Unmarshal_TPMSAttest : list byte → option TPMSAttest;
  Marshal_TPMSAttest : TPMSAttest → list byte;
  Attested_Quote : TPMSAttest → option (list byte);    (* the PCR digest *)
  Attested_Creation : TPMSAttest → option (list byte); (* the object's name *)

  TPM2BAttest : Type;
  Unmarshal_TPM2BAttest : list byte → option TPM2BAttest;
  Contents : TPM2BAttest → option TPMSAttest;

  TPMTSignature : Type;
  Unmarshal_TPMTSignature : list byte → option TPMTSignature;
  RSASSA : TPMTSignature → option (list byte);

  PCClientCompatible_PCRs : list Z → list byte;
  (** a new policy calculator for SHA-256 after [PolicyPCR] *)
  PolicyPCR_Update : list byte → list byte → option (list byte);
}.

(** [rsa.VerifyPKCS1v15] with SHA-256, given the key, the digest and the signature. *)
Class RsaLib := { VerifyPKCS1v15 : Z * Z → list byte → list byte → bool }.

(** Public keys of the KEM, as the suite of the package marshals them. *)
Class KemLib := {
  kem_key : Type;
  Kem_UnmarshalBinaryPublicKey : list byte → option kem_key;
  Kem_MarshalBinary : kem_key → option (list byte);
}.

Definition TPMAlgRSA : Z := 1.
Definition TPMAlgECC : Z := 35.
Definition TPMECCNistP256 : Z := 3.
Definition TPMECCNistP384 : Z := 4.
Definition TPMECCNistP521 : Z := 5.

Section keys.
Context {H : Sha256Lib} {T : Tpm2} {K : KemLib}.

Definition RSAPub (exponent : Z) (n : list byte) : public_key :=
  let E := exponent in
  RSAPublicKey (be_val n) (if E =? 0 then 65537 else E).

Definition ECDSAPub (curveID : Z) (pub : list byte * list byte) : result failure public_key :=
  c ← (if curveID =? TPMECCNistP256 then Ok P256
       else if curveID =? TPMECCNistP384 then Ok P384
       else if curveID =? TPMECCNistP521 then Ok P521
       else fail "unknown curve");
  Ok (ECDSAPublicKey c (be_val pub.1) (be_val pub.2)).

Definition TpmPub (public : TPMTPublic) : result failure public_key :=
  if pub_Type public =? TPMAlgRSA then
    parameters ← lib "failed to retrieve the RSA parameters" (RSADetail public);
    n ← lib "failed to parse and retrieve the RSA modulus" (Unique_RSA public);
    Ok (RSAPub parameters n)
  else if pub_Type public =? TPMAlgECC then
    parameters ← lib "failed to retrieve the ECC parameters" (ECCDetail public);
    pub ← lib "failed to parse and retrieve the ECC point" (Unique_ECC public);
    match ECDSAPub parameters pub with
    | Ok k => Ok k
    | Err _ => fail "failed to retrieve the ECC public key"
    end
  else fail "unsupported public key type".

(** [copy(b[end-len(src):end], src)]; [None]: the slice starts before [b]. *)
Definition copy_right (b : list byte) (end_ : nat) (src : list byte) : option (list byte) :=
  if (end_ <? length src)%nat then None
  else Some (take (end_ - length src) b ++ src ++ drop end_ b).

Definition uncompressed_point (X Y : Z) : option (list byte) :=
  let uncompressed := x04 :: replicate 64 x00 in
  uncompressed ← copy_right uncompressed 33 (big_bytes X);
  copy_right uncompressed 65 (big_bytes Y).

Definition HpkePub (tpmpt : TPMTPublic) : result failure kem_key :=
  pubKey ← fwrap "failed to convert tpmpt to crypto public key" (TpmPub tpmpt);
  match pubKey with
  | ECDSAPublicKey c X Y =>
      if negb (bool_decide (c = P256)) then fail "requires ECC key with curve P256 and hash algorithm SHA256"
      else match uncompressed_point X Y with
      | None => Err Panicked
      | Some uncompressed => lib "failed to unmarshal tpm key to kem.PublicKey" (Kem_UnmarshalBinaryPublicKey uncompressed)
      end
  | _ => fail "expected ECDSA public key"
  end.

(** ** PCRs *)

Context {S : SliceSort} {R : RangeOrder}.

(** The keys of the map, in increasing order. *)
Definition specifiedPcrs (pcrValues : gmap Z (list byte)) : list Z := slice_sort Z.ltb (range_map pcrValues).*1.

Definition pcrSelectionFromDesiredPcrValuesMap (pcrValues : gmap Z (list byte)) : list byte :=
  PCClientCompatible_PCRs (specifiedPcrs pcrValues).

Definition concatenatedPCRs (pcrValues : gmap Z (list byte)) (ks : list Z) : list byte :=
  ks ≫= λ k, default [] (pcrValues !! k).

Definition pcrDigestFromDesiredPcrValuesMap (pcrValues : gmap Z (list byte)) : list byte :=
  sha256 (concatenatedPCRs pcrValues (specifiedPcrs pcrValues)).

Definition GetSoftwarePCRPolicyDigest (pcrValues : gmap Z (list byte)) : result failure (list byte) :=
  let pcrSelection := pcrSelectionFromDesiredPcrValuesMap pcrValues in
  let pcrHash := pcrDigestFromDesiredPcrValuesMap pcrValues in
  lib "tpm2" (PolicyPCR_Update pcrSelection pcrHash).

(** The indices of the bits that are set; a byte's index is truncated to 8 bits
    before it is used. *)
Fixpoint nonzero_bits (byteIndex : nat) (data : list byte) : list Z :=
  match data with
  | [] => []
  | b :: data =>
      ((λ bitIndex, wrap_u 8 (Z.of_nat byteIndex) * 8 + bitIndex) <$>
        filter (λ bitIndex, Z.testbit (byte_val b) bitIndex = true) (seqZ 0 8)) ++ nonzero_bits (Datatypes.S byteIndex) data
  end.
Definition getNonzeroBitIndices (data : list byte) : list Z := nonzero_bits 0 data.

(** The loop of [PCRRead] over the registers of one selection and the digests the
    TPM answered; [None]: there are too few of them. *)
Fixpoint record_digests (pcrValues : gmap Z (list byte)) (indices : list Z) (digests : list (list byte)) :
    option (gmap Z (list byte)) :=
  match indices, digests with
  | [], _ => Some pcrValues
  | i :: indices, d :: digests => record_digests (<[i := d]> pcrValues) indices digests
  | _ :: _, [] => None
  end.

(** ** The encoding of a point *)

Lemma copy_right_ok b e src b' : copy_right b e src = Some b' → (e ≤ length b)%nat → length b' = length b.
Proof.
  unfold copy_right. destruct (Nat.ltb_spec e (length src)); [done|]. intros [= <-] He.
  rewrite !length_app, length_take, length_drop. lia.
Qed.

(** Coordinates of the curve are encoded in 32 bytes each. *)
Lemma uncompressed_point_spec X Y : 0 ≤ X < 2 ^ 256 → 0 ≤ Y < 2 ^ 256 →
  uncompressed_point X Y = Some (x04 :: be_bytes 32 X ++ be_bytes 32 Y).
Proof.
  intros HX HY. change (2 ^ 256) with (256 ^ Z.of_nat 32) in *.
  pose proof (length_big_bytes X 32 HX) as LX. pose proof (length_big_bytes Y 32 HY) as LY.
  unfold uncompressed_point, copy_right. rewrite (proj2 (Nat.ltb_ge _ _)) by lia. cbn [mbind option_bind].
  rewrite (proj2 (Nat.ltb_ge _ _)) by lia. rewrite <- (pad_big_bytes X 32 HX), <- (pad_big_bytes Y 32 HY).
  set (lx := length (big_bytes X)) in *. set (ly := length (big_bytes Y)) in *.
  assert (take (33 - lx) (x04 :: replicate 64 x00) = x04 :: replicate (32 - lx) x00) as ->.
  { replace (33 - lx)%nat with (Datatypes.S (32 - lx)) by lia. cbn [take]. by rewrite take_replicate, Nat.min_l by lia. }
  assert (drop 33 (x04 :: replicate 64 x00) = replicate 32 x00) as -> by reflexivity.
  pose (front := (x04 :: replicate (32 - lx) x00) ++ big_bytes X).
  assert (length front = 33%nat) as Lf by (unfold front; cbn; rewrite length_app, length_replicate; lia).
  change (x04 :: (replicate (32 - lx) x00 ++ big_bytes X) ++ replicate (32 - ly) x00 ++ big_bytes Y) with
    (front ++ replicate (32 - ly) x00 ++ big_bytes Y).
  replace ((x04 :: replicate (32 - lx) x00) ++ big_bytes X ++ replicate 32 x00) with (front ++ replicate 32 x00)
    by (unfold front; by rewrite <- app_assoc).
  cbn [mbind option_bind]. f_equal. rewrite take_app, Lf, take_ge by lia. replace (65 - ly - 33)%nat with (32 - ly)%nat by lia.
  rewrite take_replicate, Nat.min_l by lia. rewrite drop_ge by (rewrite length_app, length_replicate, Lf; lia).
  by rewrite app_nil_r, <- app_assoc.
Qed.

(** A coordinate of more than 33 or 65 bytes makes the conversion panic. *)
Lemma uncompressed_point_panics X Y :
  uncompressed_point X Y = None ↔ (33 < length (big_bytes X))%nat ∨ (65 < length (big_bytes Y))%nat.
Proof.
  unfold uncompressed_point, copy_right. destruct (Nat.ltb_spec 33 (length (big_bytes X))); cbn [mbind option_bind]; [naive_solver|].
  destruct (Nat.ltb_spec 65 (length (big_bytes Y))); naive_solver lia.
Qed.
End keys.

(** Two ways to sort distinct numbers. *)
Lemma sorted_keys {S : SliceSort} (l : list Z) : slice_sort Z.ltb l = slices_sort l.
Proof.
  apply (StronglySorted_unique Z.le).
  - eapply StronglySorted_mono; [|apply slice_sort_sorted]; [|split]; intros; cbn in *; lia.
  - apply slices_sort_sorted.
  - by rewrite slice_sort_perm, slices_sort_perm.
Qed.
