(* ===== verification/Properties.v ===== *)
(** The properties of a TPM ([tpm/properties.go] and the handle queries of
    [tpm/tpm.go]): one [TPM2_GetCapability] command per property, and the texts
    made of the numbers it answers. *)

From Stdlib Require Import Strings.Ascii.
From stdpp Require Import pretty.
From S2P Require Import Prelude Bytes GoLib GoStrings TpmKeys.

(** ** The TPM

    [go-tpm]: the constants the queries name, and the execution of
    [tpm2.GetCapability] for a capability, a property and a count. *)

Inductive capability_data :=
| TPMProperties (l : list (Z * Z))  (* property and value *)
| Handles (l : list Z)
| OtherData.

Class TpmDevice := {
  TPMCapTPMProperties : Z;
  TPMCapHandles : Z;
  TPMPTModes : Z;
  TPMPTMemory : Z;
  TPMPTHRPersistent : Z;
  TPMPTHRPersistentAvail : Z;
  TPMPTHRPersistentMin : Z;
  TPMPTHRTransientMin : Z;
  TPMPTHRTransientAvail : Z;
  TPMPTActiveSessionsMax : Z;
  TPMPTHRActive : Z;
  TPMPTHRActiveAvail : Z;
  TPMPTHRLoaded : Z;
  TPMPTHRLoadedAvail : Z;
  TPMPTFamilyIndicator : Z;
  TPMPTLockoutCounter : Z;
  TPMPTVendorTPMType : Z;
  TPMPTMaxAuthFail : Z;
  TPMPTHRNVIndex : Z;
  TPMPTNVIndexMax : Z;
  TPMPTNVWriteRecovery : Z;
  TPMPTRevision : Z;
  TPMPTVendorStrings : list Z;        (* TPMPTVendorString1 to 4 *)
  GetCapability : Z → Z → Z → result goerror capability_data;
}.

(** The accessors of the response fail for data of another kind. *)
Definition as_properties (d : capability_data) : result goerror (list (Z * Z)) :=
  match d with TPMProperties l => Ok l | _ => Err (ErrorNew "did not contain properties") end.
Definition as_handles (d : capability_data) : result goerror (list Z) :=
  match d with Handles l => Ok l | _ => Err (ErrorNew "did not contain handles") end.

Definition tpmPtManufacturer : Z := 0x100 + 5.
Definition tpmPtFwVersion1 : Z := 0x100 + 11.

Definition vendors : gmap Z string := list_to_map
  [(1095582720, "AMD"); (1096043852, "Atmel"); (1112687437, "Broadcom"); (1229081856, "IBM"); (1213220096, "HPE");
   (1297303124, "Microsoft"); (1229346816, "Infineon"); (1229870147, "Intel"); (1279610368, "Lenovo");
   (1314082080, "National Semiconductor"); (1314150912, "Nationz"); (1314145024, "Nuvoton Technology");
   (1363365709, "Qualcomm"); (1397576515, "SMSC"); (1398033696, "ST Microelectronics"); (1397576526, "Samsung");
   (1397641984, "Sinosun"); (1415073280, "Texas Instruments"); (1464156928, "Winbond"); (1380926275, "Fuzhou Rockchip");
   (1196379975, "Google")].
Definition TCGVendorID_String (id : Z) : string := default "" (vendors !! id).

Section queries.
Context {D : TpmDevice}.

Definition go_err {A} (r : result goerror A) : result failure A := wrap_err Failed r.
(** [.TPMProperty[0].Value]. *)
Definition first_value (l : list (Z * Z)) : result failure Z :=
  match l with (_, v) :: _ => Ok v | [] => Err Panicked end.
Definition query (property : Z) : result failure Z :=
  resp ← go_err (GetCapability TPMCapTPMProperties property 1);
  props ← go_err (as_properties resp);
  first_value props.
(** The queries that ignore a failed command. *)
Definition query_or {A} (unknown : A) (property : Z) (f : Z → A) : result failure A :=
  match GetCapability TPMCapTPMProperties property 1 with
  | Err _ => Ok unknown
  | Ok resp => props ← go_err (as_properties resp); v ← first_value props; Ok (f v)
  end.

(** Four bytes of a 32-bit value as text. *)
Definition text4 (v : Z) : string := bytes_string (be_bytes 4 v).

Definition IsFIPS140_2 : result failure bool := v ← query TPMPTModes; Ok (v =? 1).
Definition memory : result failure Z := query TPMPTMemory.
Definition persistentLoaded : result failure Z := query TPMPTHRPersistent.
Definition persistentAvail : result failure Z := query TPMPTHRPersistentAvail.
Definition persistentMin : result failure Z := query TPMPTHRPersistentMin.
Definition transientMin : result failure Z := query TPMPTHRTransientMin.
Definition transientAvail : result failure Z := query TPMPTHRTransientAvail.
Definition activeSessionsMax : result failure Z := query TPMPTActiveSessionsMax.
Definition authSessionsActive : result failure Z := query TPMPTHRActive.
Definition authSessionsActiveAvail : result failure Z := query TPMPTHRActiveAvail.
Definition authSessionsLoaded : result failure Z := query TPMPTHRLoaded.
Definition authSessionsLoadedAvail : result failure Z := query TPMPTHRLoadedAvail.
Definition family : result failure string := v ← query TPMPTFamilyIndicator; Ok (text4 v).
Definition firmware : result failure (Z * Z) :=
  fw ← query tpmPtFwVersion1;
  Ok (Z.shiftr (Z.land fw 0xffff0000) 16, Z.land fw 0x0000ffff).
Definition lockoutCounter : result failure Z := query TPMPTLockoutCounter.
Definition manufacturer : result failure string := query_or "" tpmPtManufacturer TCGVendorID_String.
Definition model : result failure string := query_or "" TPMPTVendorTPMType text4.
Definition maxAuthFail : result failure Z := query TPMPTMaxAuthFail.
Definition nvIndexesDefined : result failure Z := query TPMPTHRNVIndex.
Definition nvIndexesMax : result failure Z := query TPMPTNVIndexMax.
Definition nvWriteRecovery : result failure Z := query TPMPTNVWriteRecovery.

(** [%04d]. *)
Definition pad4 (s : list ascii) : list ascii := replicate (4 - length s) "0"%char ++ s.
Fixpoint trim_zeros (l : list ascii) : list ascii :=
  match l with c :: rest => if bool_decide (c = "0"%char) then trim_zeros rest else l | [] => [] end.
Definition revision_text (v : Z) : string :=
  let rev := pad4 (chars (pretty v)) in
  let major := of_chars (trim_zeros (take 2 rev)) in
  let minor := of_chars (drop 2 rev) in
  major +:+ "." +:+ minor.
Definition revision : result failure string := v ← query TPMPTRevision; Ok (revision_text v).

Fixpoint vendor_loop (props : list Z) (vendorString : string) : result failure string :=
  match props with
  | [] => Ok vendorString
  | prop :: props => v ← query prop; vendor_loop props (vendorString +:+ text4 v)
  end.
Definition vendorID : result failure string := vendor_loop TPMPTVendorStrings "".

(** ** [FixedProperties]

    [LoadedCurves], [LockoutInterval] and [LockoutRecovery] stay 0. *)

Record Properties := MkProperties {
  ActiveSessionsMax : Z; AuthSessionsActive : Z; AuthSessionsActiveAvail : Z; AuthSessionsLoaded : Z;
  AuthSessionsLoadedAvail : Z; Family : string; Fips1402 : bool; FwMajor : Z; FwMinor : Z; LoadedCurves : Z;
  LockoutCounter : Z; LockoutInterval : Z; LockoutRecovery : Z; Manufacturer : string; Model : string; MaxAuthFail : Z;
  Memory : Z; NVIndexesDefined : Z; NVIndexesMax : Z; NVWriteRecovery : Z; PersistentAvail : Z; PersistentLoaded : Z;
  PersistentMin : Z; Revision : string; TransientAvail : Z; TransientMin : Z; VendorID : string;
}.

Definition FixedProperties : result failure Properties :=
  activeSessionsMax ← activeSessionsMax;
  persistentLoaded ← persistentLoaded;
  persistentAvail ← persistentAvail;
  persistentMin ← persistentMin;
  transientMin ← transientMin;
  transientAvail ← transientAvail;
  authSessionsLoaded ← authSessionsLoaded;
  authSessionsLoadedAvail ← authSessionsLoadedAvail;
  authSessionsActive ← authSessionsActive;
  authSessionsActiveAvail ← authSessionsActiveAvail;
  family ← family;
  fips1402 ← IsFIPS140_2;
  '(fwMajor, fwMinor) ← firmware;
  lockoutCounter ← lockoutCounter;
  manufacturer ← manufacturer;
  maxAuthFail ← maxAuthFail;
  model ← model;
  nvIndexesDefined ← nvIndexesDefined;
  nvWriteRecovery ← nvWriteRecovery;
  nvIndexesMax ← nvIndexesMax;
  memory ← memory;
  revision ← revision;
  vendorID ← vendorID;
  Ok (MkProperties activeSessionsMax authSessionsActive authSessionsActiveAvail authSessionsLoaded
        authSessionsLoadedAvail family fips1402 fwMajor fwMinor 0 lockoutCounter 0 0 manufacturer model maxAuthFail
        memory nvIndexesDefined nvIndexesMax nvWriteRecovery persistentAvail persistentLoaded persistentMin revision
        transientAvail transientMin vendorID).

(** ** Handles in use, and the log entry *)

Definition get_handles (first : Z) : result failure (list Z) :=
  resp ← go_err (GetCapability TPMCapHandles first 32); go_err (as_handles resp).
Definition GetInUsePersistentHandles : result failure (list Z) := get_handles 0x81000000.
Definition GetInUseNVIndices : result failure (list Z) := get_handles 0x01000000.

Inductive log_value := LogString (s : string) | LogInt (z : Z) | LogBool (b : bool) | LogHex (l : list Z).
Definition LogTPMInfo : result failure (list (string * log_value)) :=
  caps ← FixedProperties;
  nvHandles ← GetInUseNVIndices;
  persistentHandles ← GetInUsePersistentHandles;
  Ok [("Manufacturer", LogString (Manufacturer caps)); ("VendorID", LogString (VendorID caps));
      ("Family", LogString (Family caps)); ("Revision", LogString (Revision caps));
      ("Firmware", LogString (pretty (FwMajor caps) +:+ "." +:+ pretty (FwMinor caps)));
      ("Memory", LogInt (PersistentLoaded caps)); ("Model", LogString (Model caps)); ("FIPS140-2", LogBool (Fips1402 caps));
      ("MaxAuthFail", LogInt (MaxAuthFail caps)); ("LoadedCurves", LogInt (LockoutCounter caps));
      ("AuthSessionsActive", LogInt (AuthSessionsActive caps));
      ("AuthSessionsActiveAvail", LogInt (AuthSessionsActiveAvail caps));
      ("AuthSessionsLoaded", LogInt (AuthSessionsLoaded caps));
      ("AuthSessionsLoadedAvail", LogInt (AuthSessionsLoadedAvail caps)); ("LockoutCounter", LogInt (LockoutCounter caps));
      ("LockoutInterval", LogInt (LockoutInterval caps)); ("LockoutRecovery", LogInt (LockoutRecovery caps));
      ("NVIndexesDefined", LogInt (NVIndexesDefined caps)); ("NVIndexesMax", LogInt (NVIndexesMax caps));
      ("NVWriteRecovery", LogInt (NVIndexesMax caps)); ("PersistentLoaded", LogInt (PersistentLoaded caps));
      ("PersistentAvail", LogInt (PersistentAvail caps)); ("TransientMin", LogInt (TransientMin caps));
      ("TransientAvail", LogInt (TransientAvail caps)); ("InUsePersistentHandles", LogHex persistentHandles);
      ("InUseNVIndices", LogHex nvHandles)].

(** ** What the queries read

    [answers m]: the device reports the properties of [m] with their values; as
    [TPM2_GetCapability] is documented, its answer starts at the property asked for. *)
Definition answers (m : gmap Z Z) : Prop :=
  ∀ p v, m !! p = Some v → 0 ≤ v < 2 ^ 32 ∧ ∃ rest, GetCapability TPMCapTPMProperties p 1 = Ok (TPMProperties ((p, v) :: rest)).

Lemma chars_inj s t : chars s = chars t → s = t.
Proof. intros H. by rewrite <- (String.string_of_list_ascii_of_string s), H, String.string_of_list_ascii_of_string. Qed.
Lemma query_answers m p v : answers m → m !! p = Some v → query p = Ok v.
Proof. intros Ha Hp. destruct (Ha p v Hp) as (_ & rest & Hg). unfold query. by rewrite Hg. Qed.
Lemma query_or_answers {A} m (u : A) p v f : answers m → m !! p = Some v → query_or u p f = Ok (f v).
Proof. intros Ha Hp. destruct (Ha p v Hp) as (_ & rest & Hg). unfold query_or. by rewrite Hg. Qed.
Lemma vendor_loop_answers m ps vs acc :
  answers m → Forall2 (λ p v, m !! p = Some v) ps vs →
  vendor_loop ps acc = Ok (acc +:+ of_chars (concat (chars ∘ text4 <$> vs))).
Proof.
  intros Ha H. induction H as [|p v ps vs Hp _ IH] in acc |- *; cbn [vendor_loop].
  - f_equal. apply chars_inj. rewrite chars_app. cbn. by rewrite app_nil_r.
  - rewrite (query_answers m p v) by done. cbn [mbind result_bind]. rewrite IH. f_equal. cbn [fmap list_fmap concat compose].
    apply chars_inj. by rewrite !chars_app, !String.list_ascii_of_string_of_list_ascii, app_assoc.
Qed.

(** The text of a revision, for the values of two to four digits. *)
Definition digits2 (z : Z) : string := of_chars (drop 1 (chars (pretty (100 + z)))).
Lemma revision_text_spec v : 100 ≤ v < 10000 → revision_text v = pretty (v / 100) +:+ "." +:+ digits2 (v mod 100).
Proof.
  intros Hv. revert v Hv.
  apply (Z_range_decide (λ v, revision_text v = pretty (v / 100) +:+ "." +:+ digits2 (v mod 100)) 100 9900).
  vm_compute. reflexivity.
Qed.
Lemma firmware_split fw : 0 ≤ fw < 2 ^ 32 →
  let '(major, minor) := (Z.shiftr (Z.land fw 0xffff0000) 16, Z.land fw 0x0000ffff) in
  fw = major * 65536 + minor ∧ 0 ≤ minor < 65536 ∧ 0 ≤ major < 65536.
Proof.
  intros Hf. assert (Z.land fw 0x0000ffff = fw mod 65536) as Hm by (change 0x0000ffff with (Z.ones 16); by rewrite Z.land_ones).
  assert (Z.shiftr (Z.land fw 0xffff0000) 16 = fw / 65536) as Hd.
  { rewrite Z.shiftr_land. change (Z.shiftr 0xffff0000 16) with (Z.ones 16). rewrite Z.land_ones, Z.shiftr_div_pow2 by lia.
    apply Z.mod_small. split; [apply Z.div_pos; lia|apply Z.div_lt_upper_bound; lia]. }
  rewrite Hm, Hd. pose proof (Z.div_mod fw 65536). pose proof (Z.mod_pos_bound fw 65536).
  split_and!; lia.
Qed.

(** Every property [FixedProperties] asks for. *)
Definition asked : list Z :=
  [TPMPTActiveSessionsMax; TPMPTHRPersistent; TPMPTHRPersistentAvail; TPMPTHRPersistentMin; TPMPTHRTransientMin;
   TPMPTHRTransientAvail; TPMPTHRLoaded; TPMPTHRLoadedAvail; TPMPTHRActive; TPMPTHRActiveAvail; TPMPTFamilyIndicator;
   TPMPTModes; tpmPtFwVersion1; TPMPTLockoutCounter; tpmPtManufacturer; TPMPTMaxAuthFail; TPMPTVendorTPMType;
   TPMPTHRNVIndex; TPMPTNVWriteRecovery; TPMPTNVIndexMax; TPMPTMemory; TPMPTRevision] ++ TPMPTVendorStrings.

Lemma query_val m p : answers m → is_Some (m !! p) → query p = Ok (default 0 (m !! p)).
Proof. intros Ha [v Hv]. rewrite Hv. by apply (query_answers m). Qed.
Lemma query_or_val {A} m (u : A) p f : answers m → is_Some (m !! p) → query_or u p f = Ok (f (default 0 (m !! p))).
Proof. intros Ha [v Hv]. rewrite Hv. by eapply query_or_answers. Qed.

(** When the TPM reports every property that [FixedProperties] asks for,
    the call succeeds and each field holds the value of its property: counters
    and limits as they are, the family, the model and the vendor as the bytes of
    their words, the firmware version split into two 16-bit halves, the
    manufacturer from the vendor table, and a revision of three or four digits
    as text with two digits after the point. *)
Theorem FixedProperties_reads m :
  answers m → (∀ p, p ∈ asked → is_Some (m !! p)) →
  let val p := default 0 (m !! p) in
  ∃ caps, FixedProperties = Ok caps ∧
    (ActiveSessionsMax caps = val TPMPTActiveSessionsMax ∧ PersistentLoaded caps = val TPMPTHRPersistent ∧
     PersistentAvail caps = val TPMPTHRPersistentAvail ∧ PersistentMin caps = val TPMPTHRPersistentMin ∧
     TransientMin caps = val TPMPTHRTransientMin ∧ TransientAvail caps = val TPMPTHRTransientAvail) ∧
    (AuthSessionsLoaded caps = val TPMPTHRLoaded ∧ AuthSessionsLoadedAvail caps = val TPMPTHRLoadedAvail ∧
     AuthSessionsActive caps = val TPMPTHRActive ∧ AuthSessionsActiveAvail caps = val TPMPTHRActiveAvail) ∧
    (LockoutCounter caps = val TPMPTLockoutCounter ∧ MaxAuthFail caps = val TPMPTMaxAuthFail ∧
     NVIndexesDefined caps = val TPMPTHRNVIndex ∧ NVIndexesMax caps = val TPMPTNVIndexMax ∧
     NVWriteRecovery caps = val TPMPTNVWriteRecovery ∧ Memory caps = val TPMPTMemory) ∧
    Family caps = text4 (val TPMPTFamilyIndicator) ∧ Model caps = text4 (val TPMPTVendorTPMType) ∧
    chars (VendorID caps) = concat (chars ∘ text4 ∘ val <$> TPMPTVendorStrings) ∧
    Manufacturer caps = default "" (vendors !! val tpmPtManufacturer) ∧ (Fips1402 caps = true ↔ val TPMPTModes = 1) ∧
    (val tpmPtFwVersion1 = FwMajor caps * 65536 + FwMinor caps ∧ 0 ≤ FwMinor caps < 65536 ∧ 0 ≤ FwMajor caps < 65536) ∧
    (100 ≤ val TPMPTRevision < 10000 →
     Revision caps = pretty (val TPMPTRevision / 100) +:+ "." +:+ digits2 (val TPMPTRevision mod 100)).
Proof.
  intros Ha Hall val.
  assert (Hq : ∀ p, p ∈ asked → query p = Ok (val p)) by (intros p Hp; by apply query_val, Hall).
  assert (Hv : vendorID = Ok (of_chars (concat (chars ∘ text4 <$> (val <$> TPMPTVendorStrings))))).
  { unfold vendorID. rewrite (vendor_loop_answers m _ (val <$> TPMPTVendorStrings)); [done|done|].
    apply Forall2_fmap_r, Forall_Forall2_diag, Forall_forall. intros p Hp. destruct (Hall p) as [v Hpv]; [unfold asked; set_solver|].
    cbn. unfold val. by rewrite Hpv. }
  unfold FixedProperties, activeSessionsMax, persistentLoaded, persistentAvail, persistentMin, transientMin, transientAvail,
    authSessionsLoaded, authSessionsLoadedAvail, authSessionsActive, authSessionsActiveAvail, family, IsFIPS140_2, firmware,
    lockoutCounter, manufacturer, maxAuthFail, model, nvIndexesDefined, nvWriteRecovery, nvIndexesMax, memory, revision.
  rewrite !Hq by (unfold asked; set_solver). rewrite !(query_or_val m) by (done || (apply Hall; unfold asked; set_solver)).
  assert (Hfw : 0 ≤ val tpmPtFwVersion1 < 2 ^ 32).
  { destruct (Hall tpmPtFwVersion1) as [v Hfw]; [unfold asked; set_solver|]. unfold val. rewrite Hfw. by apply (Ha _ _ Hfw). }
  pose proof (firmware_split _ Hfw) as (Hsum & Hmin & Hmaj).
  rewrite Hv. cbn [mbind result_bind]. eexists. split; [reflexivity|]. cbn. rewrite Z.eqb_eq.
  split_and!; try done; try lia; [|apply revision_text_spec].
  by rewrite String.list_ascii_of_string_of_list_ascii, <- list_fmap_compose.
Qed.

(** The command fails for a property: the errors of the manufacturer and the
    model are swallowed, any other one is returned. *)
Lemma swallowed {A} (u : A) p f e : GetCapability TPMCapTPMProperties p 1 = Err e → query_or u p f = Ok u ∧ query p = Err (Failed e).
Proof. intros H. unfold query_or, query. by rewrite H. Qed.
End queries.

(** ** A TPM with the properties of a map *)

Definition demo_props : gmap Z Z := list_to_map
  [(0x100, 0x322e3000); (0x102, 138); (0x105, 1229870147); (0x106, 0x496e7465); (0x107, 0x6c000000); (0x108, 0); (0x109, 0);
   (0x10a, 1); (0x10b, 0x000b0008); (0x10e, 3); (0x10f, 7); (0x111, 64); (0x117, 2048); (0x118, 4); (0x12d, 1);
   (0x202, 5); (0x203, 0); (0x204, 3); (0x205, 0); (0x206, 64); (0x207, 3); (0x208, 2); (0x209, 41); (0x20e, 0); (0x20f, 32);
   (0x212, 1)].
Definition demo_device : TpmDevice := {|
  TPMCapTPMProperties := 6; TPMCapHandles := 1; TPMPTModes := 0x12d; TPMPTMemory := 0x118; TPMPTHRPersistent := 0x208;
  TPMPTHRPersistentAvail := 0x209; TPMPTHRPersistentMin := 0x10f; TPMPTHRTransientMin := 0x10e; TPMPTHRTransientAvail := 0x207;
  TPMPTActiveSessionsMax := 0x111; TPMPTHRActive := 0x205; TPMPTHRActiveAvail := 0x206; TPMPTHRLoaded := 0x203;
  TPMPTHRLoadedAvail := 0x204; TPMPTFamilyIndicator := 0x100; TPMPTLockoutCounter := 0x20e; TPMPTVendorTPMType := 0x10a;
  TPMPTMaxAuthFail := 0x20f; TPMPTHRNVIndex := 0x202; TPMPTNVIndexMax := 0x117; TPMPTNVWriteRecovery := 0x212;
  TPMPTRevision := 0x102; TPMPTVendorStrings := [0x106; 0x107; 0x108; 0x109];
  GetCapability cap p count :=
    if negb (cap =? 6) then Ok (Handles []) else
    match demo_props !! p with Some v => Ok (TPMProperties [(p, v)]) | None => Ok (TPMProperties []) end |}.

(** Revision 138 is 1.38; a revision below 100 has no major number. *)
Example demo_revision : revision_text 138 = "1.38" ∧ revision_text 16 = ".16".
Proof. by vm_compute. Qed.

Lemma FixedProperties_reads_witness :
  ∃ caps, FixedProperties (D:=demo_device) = Ok caps ∧ Manufacturer caps = "Intel" ∧ FwMajor caps * 65536 + FwMinor caps = 0x000b0008 ∧
    Revision caps = "1.38".
Proof.
  destruct (FixedProperties_reads (D:=demo_device) demo_props) as (caps & H & _ & _ & _ & _ & _ & _ & Hman & _ & (Hfw & _) & Hrev).
  - intros p v Hp. split; [|exists []; change (GetCapability _ p 1) with (match demo_props !! p with Some v => Ok (TPMProperties [(p, v)]) | None => Ok (TPMProperties []) end : result goerror capability_data); by rewrite Hp].
    assert (map_Forall (λ _ v, 0 ≤ v < 2 ^ 32) demo_props) as Hall by (apply (bool_decide_eq_true_1 (map_Forall _ _)); vm_compute; reflexivity).
    by apply (Hall p v).
  - apply (proj1 (Forall_forall (λ p, is_Some (demo_props !! p)) (asked (D:=demo_device)))).
    apply (bool_decide_eq_true_1 (Forall _ _)). vm_compute. reflexivity.
  - exists caps. split; [exact H|]. split; [rewrite Hman; vm_compute; reflexivity|]. split; [rewrite <- Hfw; vm_compute; reflexivity|].
    rewrite Hrev by (vm_compute; split; [discriminate|reflexivity]). vm_compute. reflexivity.
Defined.
