(* ===== verification/TpmOps.v ===== *)
(** The commands package [tpm] sends to a TPM ([tpm.go]): capabilities, objects and
    their persistent copies, NV indices, keys, policy sessions and PCRs, as
    functions of the state of the device, and what the TPM specification says of
    the commands. *)

From S2P Require Import Prelude Bytes GoLib GoStrings TpmKeys.
From S2P Require Properties.

(** ** Structures and commands of [go-tpm] *)

Inductive object_attribute :=
| FixedTPM | FixedParent | SensitiveDataOrigin | UserWithAuth | AdminWithPolicy | NoDA | Restricted | Decrypt | SignEncrypt.
Inductive nv_attribute := OwnerWrite | OwnerRead | AuthWrite | AuthRead | NTOrdinary | NVNoDA.

Definition TPMAlgSHA256 : Z := 0x0b.
Definition TPMAlgAES : Z := 0x06.
Definition TPMAlgCFB : Z := 0x43.
Definition TPMAlgRSASSA : Z := 0x14.
Definition TPMAlgECDH : Z := 0x19.
Definition TPMRHOwner : Z := 0x40000001.
Definition TPMPTNVBufferMax : Z := 0x100 + 44.
Definition TPMCapHandles : Z := 1.
Definition TPMCapTPMProperties : Z := 6.

(** A literal [TPMTPublic] without its unique field, as a template. *)
Inductive key_parameters :=
| ECCParms (curve : Z) (symmetric : option (Z * Z * Z)) (scheme : option (Z * Z))  (* algorithm, bits, mode; scheme, hash *)
| RSAParms (scheme : Z * Z) (bits : Z).
Record template := MkTemplate {
  t_NameAlg : Z;
  t_Attributes : list object_attribute;
  t_AuthPolicy : list byte;
  t_Parameters : key_parameters;
}.
Definition t_Type (t : template) : Z := match t_Parameters t with ECCParms _ _ _ => TPMAlgECC | RSAParms _ _ => TPMAlgRSA end.

Class TpmStructs {T : Tpm2} := {
  TPM2BPublic : Type;
  Public_Contents : TPM2BPublic → option TPMTPublic;
  Marshal_TPMTPublic : TPMTPublic → list byte;
  TPM2BPrivate : Type;
  TPM2BNVPublic : Type;
  NVPublic_DataSize : TPM2BNVPublic → option Z;   (* of the contents *)
  NVName : Z → list nv_attribute → Z → option (list byte);
  HandleName : Z → list byte;
  TPMTTKCreation : Type;
  Marshal_Ticket : TPMTTKCreation → list byte;
  Unmarshal_Ticket : list byte → option TPMTTKCreation;
  Marshal_2BDigest : list byte → list byte;
  Unmarshal_2BDigest : list byte → option (list byte);
  Marshal_TPM2BAttest : TPM2BAttest → list byte;
  Marshal_TPMTSignature : TPMTSignature → list byte;
}.

Module tpm2.
Section commands.
Context {T : Tpm2} {TS : TpmStructs}.

(** What the commands the sources send return. *)
Inductive command : Type → Type :=
| GetCapability (capability property count : Z) : command Properties.capability_data
| ReadPublic (handle : Z) : command (TPM2BPublic * list byte)                   (* with its name *)
| EvictControl (auth object : Z) (name : list byte) (persistent : Z) : command unit
| FlushContext (handle : Z) : command unit
| NVReadPublic (index : Z) : command (TPM2BNVPublic * list byte)
| NVRead (auth : Z) (index : Z) (name : list byte) (size offset : Z) : command (list byte)
| NVDefineSpace (auth : Z) (index : Z) (attributes : list nv_attribute) (size : Z) : command unit
| NVWrite (auth : Z) (index : Z) (name data : list byte) (offset : Z) : command unit
| NVUndefineSpace (auth : Z) (index : Z) (name : list byte) : command unit
| CreatePrimary (hierarchy : Z) (public : template) : command Z                  (* the handle of the object *)
| Create (parent : Z) (name : list byte) (public : template)
    : command (TPM2BPrivate * TPM2BPublic * list byte * TPMTTKCreation)          (* with the creation hash and ticket *)
| Load (parent : Z) (name : list byte) (private : TPM2BPrivate) (public : TPM2BPublic) : command (Z * list byte)
| StartPolicySession (trial : bool) : command Z
| PolicyPCR (session : Z) (digest selection : list byte) : command unit
| PolicyGetDigest (session : Z) : command (list byte)
| CertifyCreation (sign : Z) (signName : list byte) (object : Z) (name : list byte) (scheme : Z * Z)
    (ticket : TPMTTKCreation) (hash : list byte) : command (TPM2BAttest * TPMTSignature)
| Quote (sign : Z) (signName selection : list byte) (scheme : Z * Z) : command (TPM2BAttest * TPMTSignature)
| PCRRead (selection : list byte) : command (list (list byte)).
End commands.
End tpm2.

(** [Execute]: a device answers a command or fails it. *)
Class TpmDevice {T : Tpm2} {TS : TpmStructs} := {
  device : Type;
  Execute {A} : tpm2.command A → device → result goerror A * device;
}.

(** ** Programs over a device

    A program returns a value, an error or a panic, and the device; [None]: it did
    not end within its fuel. *)

Section programs.
Context {H : Sha256Lib} {T : Tpm2} {TS : TpmStructs} {TD : TpmDevice} {S : SliceSort} {R : RangeOrder}.

Definition M (A : Type) : Type := device → option (result failure A * device).
#[global] Instance M_ret : MRet M := λ A a d, Some (Ok a, d).
#[global] Instance M_bind : MBind M := λ A B k m d,
  '(r, d) ← m d; match r with Ok a => k a d | Err e => Some (Err e, d) end.

Definition lift {A} (r : result failure A) : M A := λ d, Some (r, d).
Definition error {A} (msg : string) : M A := lift (fail msg).
(** A command, the error of which is returned as it is. *)
Definition exec {A} (c : tpm2.command A) : M A := λ d, let '(r, d) := Execute c d in Some (wrap_err Failed r, d).
(** A command, the error of which the code looks at. *)
Definition try {A} (c : tpm2.command A) : M (result goerror A) := λ d, let '(r, d) := Execute c d in Some (Ok r, d).
(** [fmt.Errorf("...: %w", err)]; handles in the text are left out. *)
Definition wrapf {A} (msg : string) (m : M A) : M A := λ d, '(r, d) ← m d; Some (fwrap msg r, d).
(** [defer] of a command whose error is only logged: it runs after the rest of the
    function, however that ends. *)
Definition deferred {A} (c : tpm2.command unit) (rest : M A) : M A := λ d,
  '(r, d) ← rest d; let '(_, d) := Execute c d in Some (r, d).

Lemma bind_Some_inv {A B} (m : M A) (k : A → M B) d r d' : (m ≫= k) d = Some (r, d') →
  ∃ r1 d1, m d = Some (r1, d1) ∧ match r1 with Ok a => k a d1 = Some (r, d') | Err e => r = Err e ∧ d' = d1 end.
Proof.
  unfold mbind, M_bind. destruct (m d) as [[r1 d1]|] eqn:E; cbn; [|done]. intros Hk. exists r1, d1. split; [done|].
  destruct r1; [done|]. by injection Hk as <- <-.
Qed.
Lemma exec_inv {A} (c : tpm2.command A) d r d' : exec c d = Some (r, d') → ∃ r0, Execute c d = (r0, d') ∧ r = wrap_err Failed r0.
Proof. unfold exec. destruct (Execute c d) as [r0 d0]. intros [= <- <-]. by exists r0. Qed.
Lemma deferred_inv {A} (c : tpm2.command unit) (rest : M A) d r d' : deferred c rest d = Some (r, d') →
  ∃ d1 r1, rest d = Some (r, d1) ∧ Execute c d1 = (r1, d').
Proof.
  unfold deferred. destruct (rest d) as [[r0 d1]|]; cbn; [|done]. destruct (Execute c d1) as [r1 d2] eqn:E. intros [= <- <-]. eauto.
Qed.

(** ** [tpm.go] *)

Definition as_cap {A} (r : result goerror A) : result failure A := wrap_err Failed r.

Definition GetTPMCapability (property : Z) : M (Z * Z) :=
  resp ← exec (tpm2.GetCapability TPMCapTPMProperties property 1);
  props ← lift (as_cap (Properties.as_properties resp));
  match list_find (λ p : Z * Z, p.1 = property) props with
  | Some (_, p) => mret p
  | None => error "Property not found in capability data"
  end.

Definition GetHandles (handleType nHandles : Z) : M (list Z) :=
  resp ← exec (tpm2.GetCapability TPMCapHandles handleType nHandles);
  lift (as_cap (Properties.as_handles resp)).

(** The loop reads until it has as many bytes as the index holds; the fuel is
    enough when every answer has at least one. *)
Fixpoint read_blocks (fuel : nat) (index : Z) (name : list byte) (blockSize dataSize : Z) (outBuff : list byte) : M (list byte) :=
  let len := Z.of_nat (length outBuff) in
  if negb (len <? dataSize) then mret outBuff
  else match fuel with
  | O => λ _, None
  | Datatypes.S fuel =>
      let readSize := if dataSize - len <? blockSize then dataSize - len else blockSize in
      data ← exec (tpm2.NVRead TPMRHOwner index name (wrap_u 16 readSize) (wrap_u 16 len));
      read_blocks fuel index name blockSize dataSize (outBuff ++ data)
  end.

Definition NVReadEXNoAuthorization (index : Z) : M (list byte) :=
  '(nvPublic, nvName) ← exec (tpm2.NVReadPublic index);
  dataSize ← lift (lib "tpm2" (NVPublic_DataSize nvPublic));
  nvBufferMaxProperty ← GetTPMCapability TPMPTNVBufferMax;
  read_blocks (Z.to_nat dataSize) index nvName nvBufferMaxProperty.2 dataSize [].

Definition PersistObject (transientHandle targetHandle : Z) : M unit :=
  '(_, name) ← exec (tpm2.ReadPublic transientHandle);
  exec (tpm2.EvictControl TPMRHOwner transientHandle name targetHandle).

Definition handle_text : string := "the handle is not correct for the use".

Definition MaybeClearPersistentHandle (handle : Z) : M unit :=
  r ← try (tpm2.ReadPublic handle);
  match r with
  | Err err =>
      if str_contains (Error_text err) handle_text then mret tt
      else lift (Err (Failed (ErrorWrap "failed to read handle" err)))
  | Ok _ => wrapf "failed to evict handle" (exec (tpm2.EvictControl TPMRHOwner handle (HandleName handle) handle))
  end.

Definition MaybeClearNVIndex (index : Z) : M unit :=
  r ← try (tpm2.NVReadPublic index);
  match r with
  | Err err =>
      if str_contains (Error_text err) handle_text then mret tt
      else lift (Err (Failed (ErrorWrap "failed to read handle" err)))
  | Ok _ => wrapf "failed to evict handle" (exec (tpm2.NVUndefineSpace TPMRHOwner index (HandleName index)))
  end.

Definition primary_template : template :=
  MkTemplate TPMAlgSHA256 [FixedTPM; FixedParent; SensitiveDataOrigin; UserWithAuth; Restricted; Decrypt] []
    (ECCParms TPMECCNistP256 (Some (TPMAlgAES, 128, TPMAlgCFB)) None).
Definition CreateECCPrimaryKey : M Z := exec (tpm2.CreatePrimary TPMRHOwner primary_template).

Definition encryption_template (authPolicy : list byte) : template :=
  MkTemplate TPMAlgSHA256 [FixedTPM; FixedParent; SensitiveDataOrigin; Decrypt; AdminWithPolicy] authPolicy
    (ECCParms TPMECCNistP256 None (Some (TPMAlgECDH, TPMAlgSHA256))).
(** The creation hash and ticket, and the handle of the loaded key. *)
Definition CreateECCEncryptionKey (primaryKeyHandle : Z) (authPolicy : list byte) : M (list byte * TPMTTKCreation * Z) :=
  '(_, parentName) ← exec (tpm2.ReadPublic primaryKeyHandle);
  '(private, public, creationHash, creationTicket) ← exec (tpm2.Create primaryKeyHandle parentName (encryption_template authPolicy));
  loadResponse ← exec (tpm2.Load primaryKeyHandle parentName private public);
  mret (creationHash, creationTicket, loadResponse.1).

Definition signing_scheme : Z * Z := (TPMAlgRSASSA, TPMAlgSHA256).
Definition CertifyCreationKey (signingKeyHandle : Z) (creationTicket : TPMTTKCreation) (creationHash : list byte)
    (targetKeyHandle : Z) : M (TPM2BAttest * TPMTSignature) :=
  '(_, signName) ← wrapf "failed to read attestation key" (exec (tpm2.ReadPublic signingKeyHandle));
  '(_, targetName) ← wrapf "failed to read target key" (exec (tpm2.ReadPublic targetKeyHandle));
  wrapf "failed to execute CertifyCreation command"
    (exec (tpm2.CertifyCreation signingKeyHandle signName targetKeyHandle targetName signing_scheme creationTicket creationHash)).

Definition nv_attributes : list nv_attribute := [OwnerWrite; OwnerRead; AuthWrite; AuthRead; NTOrdinary; NVNoDA].

Definition WriteToNVRamNoAuth (nvRAMIndex : Z) (data : list byte) : M unit :=
  let len := Z.of_nat (length data) in
  if 2 ^ 16 - 1 <? len then error "failed to cast length of data to uint16"
  else
    r ← try (tpm2.NVDefineSpace TPMRHOwner nvRAMIndex nv_attributes len);
    match r with
    | Err err => if str_contains (Error_text err) "TPM_RC_NV_DEFINED" then mret tt else lift (Err (Failed err))
    | Ok _ => mret tt
    end ≫= λ _,
    nvName ← lift (lib "tpm2" (NVName nvRAMIndex nv_attributes len));
    exec (tpm2.NVWrite nvRAMIndex nvRAMIndex nvName data 0).

(** The session is flushed and then, by the deferred cleanup, once more. *)
Definition GetTPMPCRPolicyDigest (pcrValues : gmap Z (list byte)) : M (list byte) :=
  sess ← exec (tpm2.StartPolicySession true);
  deferred (tpm2.FlushContext sess) (
    let pcrSelection := pcrSelectionFromDesiredPcrValuesMap pcrValues in
    let pcrDigest := pcrDigestFromDesiredPcrValuesMap pcrValues in
    _ ← exec (tpm2.PolicyPCR sess pcrDigest pcrSelection);
    pgd ← exec (tpm2.PolicyGetDigest sess);
    _ ← exec (tpm2.FlushContext sess);
    mret pgd).

(** Registers are read in groups of 8. *)
Fixpoint read_groups (fuel : nat) (pcrValues : gmap Z (list byte)) (pcrs : list Z) : M (gmap Z (list byte)) :=
  match pcrs with
  | [] => mret pcrValues
  | _ =>
      match fuel with
      | O => λ _, None
      | Datatypes.S fuel =>
          let pcrSelectionBytes := PCClientCompatible_PCRs (take 8 pcrs) in
          digests ← exec (tpm2.PCRRead pcrSelectionBytes);
          match record_digests pcrValues (getNonzeroBitIndices pcrSelectionBytes) digests with
          | None => lift (Err Panicked)
          | Some pcrValues => read_groups fuel pcrValues (drop 8 pcrs)
          end
      end
  end.
Definition PCRRead (pcrs : list Z) : M (gmap Z (list byte)) := read_groups (length pcrs) ∅ pcrs.
End programs.
