(* ===== verification/TpmSpec.v ===== *)
(** What the TPM 2.0 specification says of the commands of [TpmOps], as a view of the
    state of a device and the effect of each command on it; and rules to reason about
    programs over any device that keeps it. *)

From S2P Require Import Prelude Bytes GoLib GoStrings TpmKeys TpmOps.
From S2P Require Properties.

(** ** What is visible of a TPM *)

Record nv_index := MkNV { nv_attributes_of : list nv_attribute; nv_size : Z; nv_data : option (list byte) (* once written *) }.

(** An object, with the template it was made from. *)
Record object {T : Tpm2} := MkObject { ob_template : template; ob_public : TPMTPublic }.

Arguments MkObject {T}.

Record session_state := MkSession { ss_trial : bool; ss_digest : option (list byte) (* after [PolicyPCR] *) }.

Section view.
Context {H : Sha256Lib} {T : Tpm2} {TS : TpmStructs}.

Record view := MkView {
  objects : gmap Z object;                                      (* transient and persistent *)
  nvs : gmap Z nv_index;
  sessions : gmap Z session_state;
  pcr : Z → list byte;
  buffer_max : Z;                                               (* the property [TPMPTNVBufferMax] *)
  issued : list (list byte * list byte * TPMTTKCreation);       (* name, creation hash and ticket of created objects *)
  made : list (TPM2BPrivate * TPM2BPublic * template);          (* what [Create] handed out *)
}.

Definition is_transient (h : Z) : Prop := 0x80000000 ≤ h < 0x81000000.
Definition is_persistent (h : Z) : Prop := 0x81000000 ≤ h < 0x82000000.
#[export] Instance is_transient_dec h : Decision (is_transient h) := ltac:(unfold is_transient; apply _).

Definition set_objects (f : gmap Z object → gmap Z object) (v : view) : view :=
  MkView (f (objects v)) (nvs v) (sessions v) (pcr v) (buffer_max v) (issued v) (made v).
Definition set_nvs (f : gmap Z nv_index → gmap Z nv_index) (v : view) : view :=
  MkView (objects v) (f (nvs v)) (sessions v) (pcr v) (buffer_max v) (issued v) (made v).
Definition set_sessions (f : gmap Z session_state → gmap Z session_state) (v : view) : view :=
  MkView (objects v) (nvs v) (f (sessions v)) (pcr v) (buffer_max v) (issued v) (made v).
Definition created (x : list byte * list byte * TPMTTKCreation) (y : TPM2BPrivate * TPM2BPublic * template) (v : view) : view :=
  MkView (objects v) (nvs v) (sessions v) (pcr v) (buffer_max v) (x :: issued v) (y :: made v).

(** The public area of an object made from a template; the point of a key on P-256
    is on the curve. *)
Context (on_P256 : Z → Z → Prop).
Definition created_from (t : template) (pub : TPMTPublic) : Prop :=
  pub_Type pub = t_Type t ∧ AuthPolicy pub = t_AuthPolicy t ∧ (∃ name, ObjectName pub = Some name ∧ name ≠ []) ∧
  match t_Parameters t with
  | ECCParms curve _ _ => ECCDetail pub = Some curve ∧
      ∃ x y, Unique_ECC pub = Some (x, y) ∧ (curve = TPMECCNistP256 → on_P256 (be_val x) (be_val y))
  | RSAParms _ _ => is_Some (RSADetail pub) ∧ is_Some (Unique_RSA pub)
  end.

(** The digest of the registers of a selection, in increasing order. *)
Definition selected (v : view) (selection : list byte) : list (list byte) := pcr v <$> getNonzeroBitIndices selection.

Context {RL : RsaLib}.
(** A signature of the key at a handle. *)
Definition signed_with (pub : TPMTPublic) (a : TPMSAttest) (sig : TPMTSignature) : Prop :=
  ∀ N E, TpmPub pub = Ok (RSAPublicKey N E) → ∃ s, RSASSA sig = Some s ∧ VerifyPKCS1v15 (N, E) (sha256 (Marshal_TPMSAttest a)) s = true.

(** ** The effect of the commands *)

Definition effect {A} (c : tpm2.command A) : view → A → view → Prop :=
  match c in tpm2.command A return view → A → view → Prop with
  | tpm2.GetCapability capability property count => λ v a v', v' = v ∧
      (capability = TPMCapTPMProperties → property = TPMPTNVBufferMax → count = 1 → a = Properties.TPMProperties [(property, buffer_max v)])
  | tpm2.ReadPublic h => λ v a v', v' = v ∧
      ∃ o, objects v !! h = Some o ∧ Public_Contents a.1 = Some (ob_public o) ∧ ObjectName (ob_public o) = Some a.2
  | tpm2.EvictControl _ h _ p => λ v _ v',
      v' = set_objects (λ os, if decide (h = p) then delete p os else partial_alter (λ _, os !! h) p os) v
  | tpm2.FlushContext h => λ v _ v', v' = if decide (is_transient h) then set_objects (delete h) v else set_sessions (delete h) v
  | tpm2.NVReadPublic i => λ v a v', v' = v ∧ ∃ n, nvs v !! i = Some n ∧ NVPublic_DataSize a.1 = Some (nv_size n)
  | tpm2.NVRead _ i _ size off => λ v a v', v' = v ∧
      ∃ n d, nvs v !! i = Some n ∧ nv_data n = Some d ∧ a = take (Z.to_nat size) (drop (Z.to_nat off) d)
  | tpm2.NVDefineSpace _ i attrs size => λ v _ v', v' = set_nvs (<[i := MkNV attrs size None]>) v
  | tpm2.NVWrite _ i _ data off => λ v _ v', ∃ n, nvs v !! i = Some n ∧
      let old := default (replicate (Z.to_nat (nv_size n)) xff) (nv_data n) in
      v' = set_nvs (<[i := MkNV (nv_attributes_of n) (nv_size n)
             (Some (take (Z.to_nat off) old ++ data ++ drop (Z.to_nat off + length data) old))]>) v
  | tpm2.NVUndefineSpace _ i _ => λ v _ v', v' = set_nvs (delete i) v
  | tpm2.CreatePrimary _ t => λ v h v', ∃ pub, created_from t pub ∧ is_transient h ∧ objects v !! h = None ∧
      v' = set_objects (<[h := MkObject t pub]>) v
  | tpm2.Create _ _ t => λ v a v', ∃ pub name, let '(private, public, hash, ticket) := a in
      created_from t pub ∧ Public_Contents public = Some pub ∧ ObjectName pub = Some name ∧ length hash = 32%nat ∧
      (∀ t', (private, public, t') ∉ made v) ∧ v' = created (name, hash, ticket) (private, public, t) v
  | tpm2.Load _ _ private public => λ v a v', ∃ t pub, (private, public, t) ∈ made v ∧ Public_Contents public = Some pub ∧
      is_transient a.1 ∧ objects v !! a.1 = None ∧ v' = set_objects (<[a.1 := MkObject t pub]>) v
  | tpm2.StartPolicySession trial => λ v s v', sessions v !! s = None ∧ ¬ is_transient s ∧ ¬ is_persistent s ∧
      v' = set_sessions (<[s := MkSession trial None]>) v
  | tpm2.PolicyPCR s digest selection => λ v _ v', ∃ st, sessions v !! s = Some st ∧
      v' = set_sessions (<[s := MkSession (ss_trial st) (PolicyPCR_Update selection digest)]>) v
  | tpm2.PolicyGetDigest s => λ v a v', v' = v ∧ ∃ st, sessions v !! s = Some st ∧ ss_digest st = Some a
  | tpm2.CertifyCreation h _ o _ _ ticket hash => λ v a v', v' = v ∧ ∃ ak obj name info,
      objects v !! h = Some ak ∧ objects v !! o = Some obj ∧ ObjectName (ob_public obj) = Some name ∧ (name, hash, ticket) ∈ issued v ∧
      Contents a.1 = Some info ∧ Attested_Creation info = Some name ∧ signed_with (ob_public ak) info a.2
  | tpm2.Quote h _ selection _ => λ v a v', v' = v ∧ ∃ ak info, objects v !! h = Some ak ∧
      Contents a.1 = Some info ∧ Attested_Quote info = Some (sha256 (concat (selected v selection))) ∧ signed_with (ob_public ak) info a.2
  | tpm2.PCRRead selection => λ v a v', v' = v ∧ ((length (getNonzeroBitIndices selection) ≤ 8)%nat → a = selected v selection)
  end.

(** A key that can sign attestations under the scheme, and one that can have children. *)
Definition attestation_key (scheme : Z * Z) (o : object) : Prop :=
  Restricted ∈ t_Attributes (ob_template o) ∧ SignEncrypt ∈ t_Attributes (ob_template o) ∧
  ∃ bits, t_Parameters (ob_template o) = RSAParms scheme bits.
Definition storage_key (o : object) : Prop :=
  Restricted ∈ t_Attributes (ob_template o) ∧ Decrypt ∈ t_Attributes (ob_template o).

(** The transient objects; every TPM has room for three of them and for three
    sessions. *)
Definition transients (v : view) : gset Z := filter is_transient (dom (objects v)).

(** When a device without faults, and with room for persistent objects and NV
    indices, carries a command out. *)
Definition enabled {A} (c : tpm2.command A) (v : view) : Prop :=
  match c with
  | tpm2.GetCapability _ _ _ | tpm2.PCRRead _ => True
  | tpm2.CreatePrimary hierarchy _ => hierarchy = TPMRHOwner ∧ (size (transients v) < 3)%nat
  | tpm2.StartPolicySession _ => (size (sessions v) < 3)%nat
  | tpm2.ReadPublic h => is_Some (objects v !! h)
  | tpm2.EvictControl auth h _ p => auth = TPMRHOwner ∧ is_Some (objects v !! h) ∧ is_persistent p ∧
      (h = p ∨ is_transient h ∧ objects v !! p = None)
  | tpm2.FlushContext h => if decide (is_transient h) then is_Some (objects v !! h) else is_Some (sessions v !! h)
  | tpm2.NVReadPublic i => is_Some (nvs v !! i)
  | tpm2.NVRead auth i _ size off => ∃ n, nvs v !! i = Some n ∧ auth = TPMRHOwner ∧ OwnerRead ∈ nv_attributes_of n ∧ is_Some (nv_data n) ∧
      0 ≤ size ≤ buffer_max v ∧ 0 ≤ off ∧ off + size ≤ nv_size n
  | tpm2.NVDefineSpace auth i _ size => auth = TPMRHOwner ∧ nvs v !! i = None ∧ 0 ≤ size < 2 ^ 16
  | tpm2.NVWrite auth i _ data off => ∃ n, nvs v !! i = Some n ∧ auth = i ∧ AuthWrite ∈ nv_attributes_of n ∧ 0 ≤ off ∧
      off + Z.of_nat (length data) ≤ nv_size n ∧ Z.of_nat (length data) ≤ buffer_max v
  | tpm2.NVUndefineSpace auth i _ => auth = TPMRHOwner ∧ is_Some (nvs v !! i)
  | tpm2.Create p _ _ => ∃ o, objects v !! p = Some o ∧ storage_key o
  | tpm2.Load p _ private public => (∃ o, objects v !! p = Some o ∧ storage_key o) ∧ (∃ t, (private, public, t) ∈ made v) ∧
      (size (transients v) < 3)%nat
  | tpm2.PolicyPCR s digest selection => is_Some (sessions v !! s) ∧ is_Some (PolicyPCR_Update selection digest)
  | tpm2.PolicyGetDigest s => ∃ st, sessions v !! s = Some st ∧ is_Some (ss_digest st)
  | tpm2.CertifyCreation h _ o _ scheme ticket hash => (∃ ak, objects v !! h = Some ak ∧ attestation_key scheme ak) ∧
      ∃ obj name, objects v !! o = Some obj ∧ ObjectName (ob_public obj) = Some name ∧ (name, hash, ticket) ∈ issued v
  | tpm2.Quote h _ _ scheme => ∃ ak, objects v !! h = Some ak ∧ attestation_key scheme ak
  end.

(** The commands that find out whether something is there. *)
Definition absent {A} (c : tpm2.command A) (v : view) : Prop :=
  match c with
  | tpm2.ReadPublic h => objects v !! h = None
  | tpm2.NVReadPublic i => nvs v !! i = None
  | _ => False
  end.

(** A device whose commands have these effects; a command that fails has none. *)
Class TpmEffects {TD : TpmDevice} := {
  view_of : device → view;
  Execute_ok {A} (c : tpm2.command A) d a d' : Execute c d = (Ok a, d') → effect c (view_of d) a (view_of d');
  Execute_err {A} (c : tpm2.command A) d e d' : Execute c d = (Err e, d') → view_of d' = view_of d;
}.
(** A device that carries commands out whenever it can, and says so when it knows
    no such handle. *)
Class ReliableTpm {TD : TpmDevice} {TE : TpmEffects} := {
  Execute_enabled {A} (c : tpm2.command A) d : enabled c (view_of d) → ∃ a d', Execute c d = (Ok a, d');
  Execute_absent {A} (c : tpm2.command A) d : absent c (view_of d) →
    ∃ e d', Execute c d = (Err e, d') ∧ str_contains (Error_text e) handle_text = true;
}.
End view.
Arguments TpmEffects {H T TS} on_P256 {RL TD}.
Arguments ReliableTpm {H T TS} on_P256 {RL TD TE}.
Arguments view {T TS}.
Arguments view_of {H T TS on_P256 RL TD _} _.
Arguments Execute_ok {H T TS on_P256 RL TD _ A}.
Arguments Execute_err {H T TS on_P256 RL TD _ A}.
Arguments Execute_enabled {H T TS on_P256 RL TD TE _ A}.
Arguments Execute_absent {H T TS on_P256 RL TD TE _ A}.

(** Encodings are read back, and fit the buffer every TPM has; selections are the
    bitmap of their registers. *)
Class TpmStructsLaws {T : Tpm2} (TS : TpmStructs) := {
  Unmarshal_Marshal_Ticket t : Unmarshal_Ticket (Marshal_Ticket t) = Some t;
  length_Marshal_Ticket t : (0 < length (Marshal_Ticket t) ≤ 72)%nat;
  Unmarshal_Marshal_2BDigest b : (length b ≤ 64)%nat → Unmarshal_2BDigest (Marshal_2BDigest b) = Some b;
  length_Marshal_2BDigest b : length (Marshal_2BDigest b) = (2 + length b)%nat;
  Unmarshal_Marshal_Public p : Unmarshal_TPMTPublic (Marshal_TPMTPublic p) = Some p;
  Unmarshal_Marshal_TPMS a : Unmarshal_TPMSAttest (Marshal_TPMSAttest a) = Some a;
  Unmarshal_Marshal_TPM2B a : Unmarshal_TPM2BAttest (Marshal_TPM2BAttest a) = Some a;
  Unmarshal_Marshal_Signature s : Unmarshal_TPMTSignature (Marshal_TPMTSignature s) = Some s;
  NVName_total i attrs size : is_Some (NVName i attrs size);
  PolicyPCR_Update_total sel d : is_Some (PolicyPCR_Update sel d);
  PCRs_indices ks : NoDup ks → Forall (λ k, 0 ≤ k < 24) ks → getNonzeroBitIndices (PCClientCompatible_PCRs ks) = slices_sort ks;
}.

(** Coordinates are below 2^256, and the KEM takes every point of the curve and gives
    it back. *)
Class KemCurve {K : KemLib} (on_P256 : Z → Z → Prop) := {
  on_P256_range X Y : on_P256 X Y → 0 ≤ X < 2 ^ 256 ∧ 0 ≤ Y < 2 ^ 256;
  Kem_point X Y : on_P256 X Y → ∃ k b, Kem_UnmarshalBinaryPublicKey (x04 :: be_bytes 32 X ++ be_bytes 32 Y) = Some k ∧
    Kem_MarshalBinary k = Some b ∧ b ≠ [] ∧ Kem_UnmarshalBinaryPublicKey b = Some k;
}.

(** ** Rules *)

Section rules.
Context {H : Sha256Lib} {T : Tpm2} {TS : TpmStructs} {RL : RsaLib} {TD : TpmDevice} {on_P256 : Z → Z → Prop}.
Context {TE : TpmEffects on_P256} {RT : ReliableTpm on_P256}.

(** On every device that looks like [v] the program returns a value, and value and
    device satisfy [Q]. *)
Definition runs {A} (m : M A) (Q : A → view → Prop) (v : view) : Prop :=
  ∀ d, view_of d = v → ∃ a d', m d = Some (Ok a, d') ∧ Q a (view_of d').

Lemma runs_mono {A} (m : M A) (Q Q' : A → view → Prop) v : runs m Q v → (∀ a v', Q a v' → Q' a v') → runs m Q' v.
Proof. intros Hm HQ d Hd. destruct (Hm d Hd) as (a & d' & E & Ha). exists a, d'. auto. Qed.
Lemma runs_ret {A} (a : A) (Q : A → view → Prop) v : Q a v → runs (mret a) Q v.
Proof. intros Ha d <-. by exists a, d. Qed.
Lemma runs_bind {A B} (m : M A) (k : A → M B) Q v : runs m (λ a v', runs (k a) Q v') v → runs (m ≫= k) Q v.
Proof.
  intros Hm d Hd. destruct (Hm d Hd) as (a & d1 & E & Ha). destruct (Ha d1 eq_refl) as (b & d2 & E2 & Hb).
  exists b, d2. split; [|done]. unfold mbind, M_bind. by rewrite E.
Qed.
Lemma runs_lift {A} (r : result failure A) (a : A) (Q : A → view → Prop) v : r = Ok a → Q a v → runs (lift r) Q v.
Proof. intros -> Ha d <-. by exists a, d. Qed.
Lemma runs_wrapf {A} msg (m : M A) Q v : runs m Q v → runs (wrapf msg m) Q v.
Proof.
  intros Hm d Hd. destruct (Hm d Hd) as (a & d1 & E & Ha). exists a, d1. split; [|done]. unfold wrapf. by rewrite E.
Qed.
Lemma runs_exec {A} (c : tpm2.command A) (Q : A → view → Prop) v :
  enabled c v → (∀ a v', effect on_P256 c v a v' → Q a v') → runs (exec c) Q v.
Proof.
  intros He HQ d <-. destruct (Execute_enabled c d He) as (a & d' & E). exists a, d'. unfold exec. rewrite E.
  split; [done|]. apply HQ. by apply (Execute_ok c).
Qed.
Lemma runs_try {A} (c : tpm2.command A) (Q : result goerror A → view → Prop) v :
  enabled c v → (∀ a v', effect on_P256 c v a v' → Q (Ok a) v') → runs (try c) Q v.
Proof.
  intros He HQ d <-. destruct (Execute_enabled c d He) as (a & d' & E). exists (Ok a), d'. unfold try. rewrite E.
  split; [done|]. apply HQ. by apply (Execute_ok c).
Qed.
Lemma runs_try_absent {A} (c : tpm2.command A) (Q : result goerror A → view → Prop) v :
  absent c v → (∀ e, str_contains (Error_text e) handle_text = true → Q (Err e) v) → runs (try c) Q v.
Proof.
  intros He HQ d <-. destruct (Execute_absent c d He) as (e & d' & E & Ht). exists (Err e), d'. unfold try. rewrite E.
  split; [done|]. rewrite (Execute_err c d e d' E). by apply HQ.
Qed.
(** What a deferred command does is only seen when it is carried out. *)
Lemma runs_deferred {A} (c : tpm2.command unit) (rest : M A) (Q : A → view → Prop) v :
  runs rest (λ a v', (enabled c v' ∨ Q a v') ∧ ∀ u v'', effect on_P256 c v' u v'' → Q a v'') v → runs (deferred c rest) Q v.
Proof.
  intros Hm d Hd. destruct (Hm d Hd) as (a & d1 & E & He & HQ). unfold deferred. rewrite E. cbn.
  destruct (Execute c d1) as [[u|e] d2] eqn:Ec; exists a, d2; (split; [done|]).
  - eapply HQ. by apply (Execute_ok c).
  - rewrite (Execute_err c _ _ _ Ec). destruct He as [He|He]; [|done].
    destruct (Execute_enabled c d1 He) as (? & ? & ?). congruence.
Qed.
End rules.
