(* ===== verification/TpmSim.v ===== *)
(** A TPM in software that keeps the specification of [TpmSpec]: it shows that the laws
    can hold, and runs the programs.  Structures are encoded by any code, keys are
    points that are told apart by nothing, and a signature is the digest it signs. *)

From S2P Require Import Prelude Bytes GoLib GoStrings TpmKeys TpmOps TpmSpec.
From S2P Require Properties.

Section sim.
#[local] Instance sim_sha : Sha256Lib := toy_sha256.

(** ** Structures *)

Record sim_public := MkSimPublic { sp_curve : option Z (* or RSA *); sp_policy : list byte }.
Definition sim_marshal_public (p : sim_public) : list byte := pos_bytes (encode (sp_curve p, bytes_string (sp_policy p))).
Definition sim_unmarshal_public (b : list byte) : option sim_public :=
  (λ x : option Z * string, MkSimPublic x.1 (string_bytes x.2)) <$> decode (bytes_pos b).

(** The bitmap of a predicate on registers. *)
Definition bits_byte (f : Z → bool) : byte := byte_of (foldr (λ i acc, 2 * acc + Z.b2z (f i)) 0 (seqZ 0 8)).
Definition bitmap (ks : list Z) : list byte :=
  (λ j, bits_byte (λ i, bool_decide (8 * j + i ∈ ks))) <$> [0; 1; 2].

#[local] Instance sim_tpm2 : Tpm2 := {|
  TPMTPublic := sim_public; Unmarshal_TPMTPublic := sim_unmarshal_public;
  pub_Type p := if sp_curve p is Some _ then TPMAlgECC else TPMAlgRSA;
  RSADetail p := if sp_curve p is Some _ then None else Some 0; Unique_RSA p := Some [x0c; xa1];
  ECCDetail p := sp_curve p; Unique_ECC p := Some ([x07], [x08]);
  ObjectName p := Some (x0b :: sim_marshal_public p); AuthPolicy := sp_policy;
  TPMSAttest := list byte; Unmarshal_TPMSAttest b := Some b; Marshal_TPMSAttest b := b;
  Attested_Quote a := match a with x00 :: d => Some d | _ => None end;
  Attested_Creation a := match a with x01 :: d => Some d | _ => None end;
  TPM2BAttest := list byte; Unmarshal_TPM2BAttest b := Some b; Contents b := Some b;
  TPMTSignature := list byte; Unmarshal_TPMTSignature b := Some b; RSASSA b := Some b;
  PCClientCompatible_PCRs := bitmap; PolicyPCR_Update sel d := Some (sha256 (sel ++ d));
|}.
#[local] Instance sim_structs : TpmStructs := {|
  TPM2BPublic := sim_public; Public_Contents p := Some p; Marshal_TPMTPublic := sim_marshal_public;
  TPM2BPrivate := nat; TPM2BNVPublic := Z; NVPublic_DataSize n := Some n; NVName _ _ _ := Some []; HandleName _ := [];
  TPMTTKCreation := unit; Marshal_Ticket _ := [x80; x21]; Unmarshal_Ticket _ := Some tt;
  Marshal_2BDigest b := x00 :: byte_of (Z.of_nat (length b)) :: b; Unmarshal_2BDigest b := Some (drop 2 b);
  Marshal_TPM2BAttest b := b; Marshal_TPMTSignature b := b;
|}.
#[local] Instance sim_rsa : RsaLib := {| VerifyPKCS1v15 _ d sig := bool_decide (d = sig) |}.
#[local] Instance sim_kem : KemLib := {| kem_key := list byte; Kem_UnmarshalBinaryPublicKey b := Some b; Kem_MarshalBinary b := Some b |}.
Definition sim_P256 (X Y : Z) : Prop := 0 ≤ X < 2 ^ 256 ∧ 0 ≤ Y < 2 ^ 256.

Lemma sim_curve : KemCurve sim_P256.
Proof. constructor; [done|]. intros X Y _. do 2 eexists. split_and!; [done|done|done|done]. Qed.

Lemma filter_ext_Forall {A} (P Q : A → Prop) `{∀ x, Decision (P x), ∀ x, Decision (Q x)} l :
  Forall (λ x, P x ↔ Q x) l → filter P l = filter Q l.
Proof. induction 1 as [|x l Hx _ IH]; [done|]. rewrite !filter_cons, IH. repeat case_decide; tauto. Qed.
Lemma bits_fold_spec (f : Z → bool) (l : list Z) n i : l !! n = Some i → Z.testbit (foldr (λ i acc, 2 * acc + Z.b2z (f i)) 0 l) (Z.of_nat n) = f i.
Proof.
  revert n. induction l as [|j l IH]; intros [|n] Hn; [done..| |]; cbn [foldr].
  - injection Hn as ->. by rewrite Z.testbit_0_r.
  - rewrite Nat2Z.inj_succ, Z.testbit_succ_r by lia. by apply IH.
Qed.
Lemma bits_byte_spec f : filter (λ i, Z.testbit (byte_val (bits_byte f)) i = true) (seqZ 0 8) = filter (λ i, f i = true) (seqZ 0 8).
Proof.
  apply filter_ext_Forall, Forall_forall. intros i Hi%elem_of_seqZ. unfold bits_byte.
  rewrite byte_val_of. change 256 with (2 ^ 8). rewrite Z.mod_pow2_bits_low by lia.
  replace i with (Z.of_nat (Z.to_nat i)) at 1 by lia. rewrite (bits_fold_spec f _ _ i); [done|].
  apply lookup_seqZ. lia.
Qed.

Lemma bitmap_group (ks : list Z) j : (λ i, 8 * j + i) <$> filter (λ i, bool_decide (8 * j + i ∈ ks) = true) (seqZ 0 8) = filter (.∈ ks) (seqZ (8 * j) 8).
Proof.
  assert (seqZ (8 * j) 8 = (λ i, 8 * j + i) <$> seqZ 0 8) as -> by (rewrite fmap_add_seqZ; f_equal; lia).
  generalize (seqZ 0 8). induction l as [|i l IH]; [done|]. cbn [fmap list_fmap]. rewrite !filter_cons.
  case_decide as H1; case_decide as H2; rewrite ?bool_decide_eq_true in H1; try contradiction.
  all: first [exact IH | exact (f_equal (cons (8 * j + i)) IH)].
Qed.
Lemma bitmap_indices (ks : list Z) : getNonzeroBitIndices (bitmap ks) = filter (.∈ ks) (seqZ 0 24).
Proof.
  unfold getNonzeroBitIndices, bitmap. cbn [fmap list_fmap nonzero_bits]. rewrite !bits_byte_spec, app_nil_r.
  change (seqZ 0 24) with (seqZ (8 * 0) 8 ++ seqZ (8 * 1) 8 ++ seqZ (8 * 2) 8). rewrite !filter_app, <- !bitmap_group.
  done.
Qed.
Lemma sim_indices (ks : list Z) : NoDup ks → Forall (λ k, 0 ≤ k < 24) ks → getNonzeroBitIndices (bitmap ks) = slices_sort ks.
Proof.
  intros Hn Hr. rewrite bitmap_indices. apply (StronglySorted_unique Z.le).
  - assert (∀ l, StronglySorted Z.le l → StronglySorted Z.le (filter (.∈ ks) l)) as Hf.
    { induction 1 as [|x l Hl IH Hx]; [constructor|]. rewrite filter_cons. case_decide; [|done]. constructor; [done|].
      apply Forall_forall. intros y [_ Hy]%list_elem_of_filter. by apply (proj1 (Forall_forall _ _) Hx). }
    apply Hf. repeat constructor; lia.
  - apply slices_sort_sorted.
  - rewrite slices_sort_perm. apply NoDup_Permutation; [apply NoDup_filter, NoDup_seqZ|done|]. intros k.
    rewrite list_elem_of_filter, elem_of_seqZ. split; [by intros []|]. intros Hk. split; [done|].
    pose proof (proj1 (Forall_forall _ _) Hr k Hk). cbn in *. lia.
Qed.

Lemma sim_structs_laws : TpmStructsLaws sim_structs.
Proof.
  constructor; [| | | | | | | | | |exact sim_indices]; cbn; intros; try done; eauto; try lia.
  - by destruct t.
  - unfold sim_unmarshal_public, sim_marshal_public. rewrite bytes_pos_bytes, decode_encode.
    cbn -[string_bytes bytes_string]. rewrite string_bytes_string. by destruct p.
Qed.

(** ** The device: its state is its view *)

#[local] Instance sim_public_eq_dec : EqDecision sim_public.
Proof. solve_decision. Defined.

Definition no_handle {A} (v : view) : result goerror A * view :=
  (Err (ErrorNew "TPM_RC_HANDLE (handle 1): the handle is not correct for the use"), v).
Definition refused {A} (v : view) : result goerror A * view := (Err (ErrorNew "TPM_RC_FAILURE"), v).

Definition free_slot {X} (m : gmap Z X) (slots : list Z) : option Z := snd <$> list_find (λ h, m !! h = None) slots.
Definition transient_slots : list Z := [0x80000000; 0x80000001; 0x80000002].
Definition session_slots : list Z := [0x03000000; 0x03000001; 0x03000002].

Definition sim_make (t : template) : sim_public :=
  MkSimPublic (match t_Parameters t with ECCParms curve _ _ => Some curve | RSAParms _ _ => None end) (t_AuthPolicy t).
Definition sim_sign (info : list byte) : list byte * list byte := (info, sha256 info).

Definition sim_Execute {A} (c : tpm2.command A) : view → result goerror A * view :=
  match c in tpm2.command A return view → result goerror A * view with
  | tpm2.GetCapability capability property count => λ v,
      (Ok (if capability =? TPMCapTPMProperties then Properties.TPMProperties [(property, buffer_max v)] else Properties.OtherData), v)
  | tpm2.ReadPublic h => λ v, match objects v !! h with
      | Some o => (Ok (ob_public o, x0b :: sim_marshal_public (ob_public o)), v) | None => no_handle v end
  | tpm2.EvictControl _ h _ p => λ v, match objects v !! h with
      | Some o => (Ok tt, set_objects (λ os, if decide (h = p) then delete p os else partial_alter (λ _, os !! h) p os) v) | None => no_handle v end
  | tpm2.FlushContext h => λ v,
      match (if decide (is_transient h) then (λ _, tt) <$> objects v !! h else (λ _, tt) <$> sessions v !! h) with
      | Some _ => (Ok tt, if decide (is_transient h) then set_objects (delete h) v else set_sessions (delete h) v)
      | None => no_handle v end
  | tpm2.NVReadPublic i => λ v, match nvs v !! i with Some n => (Ok (nv_size n, []), v) | None => no_handle v end
  | tpm2.NVRead _ i _ size off => λ v, match nvs v !! i ≫= nv_data with
      | Some d => (Ok (take (Z.to_nat size) (drop (Z.to_nat off) d)), v) | None => no_handle v end
  | tpm2.NVDefineSpace _ i attrs size => λ v, match nvs v !! i with
      | Some _ => (Err (ErrorNew "TPM_RC_NV_DEFINED"), v) | None => (Ok tt, set_nvs (<[i := MkNV attrs size None]>) v) end
  | tpm2.NVWrite _ i _ data off => λ v, match nvs v !! i with
      | Some n =>
          let old := default (replicate (Z.to_nat (nv_size n)) xff) (nv_data n) in
          (Ok tt, set_nvs (<[i := MkNV (nv_attributes_of n) (nv_size n)
             (Some (take (Z.to_nat off) old ++ data ++ drop (Z.to_nat off + length data) old))]>) v)
      | None => no_handle v end
  | tpm2.NVUndefineSpace _ i _ => λ v, match nvs v !! i with Some _ => (Ok tt, set_nvs (delete i) v) | None => no_handle v end
  | tpm2.CreatePrimary _ t => λ v, match free_slot (objects v) transient_slots with
      | Some h => (Ok h, set_objects (<[h := MkObject t (sim_make t)]>) v) | None => refused v end
  | tpm2.Create p _ t => λ v,
      let private := S (max_list (fst ∘ fst <$> made v)) in
      let hash := sha256 [] in
      (Ok (private, sim_make t, hash, tt), created (x0b :: sim_marshal_public (sim_make t), hash, tt) (private, sim_make t, t) v)
  | tpm2.Load p _ private public => λ v,
      match free_slot (objects v) transient_slots, list_find (λ x : nat * sim_public * template, x.1 = (private, public)) (made v) with
      | Some h, Some (_, (_, _, t)) => (Ok (h, []), set_objects (<[h := MkObject t public]>) v)
      | _, _ => refused v end
  | tpm2.StartPolicySession trial => λ v, match free_slot (sessions v) session_slots with
      | Some s => (Ok s, set_sessions (<[s := MkSession trial None]>) v) | None => refused v end
  | tpm2.PolicyPCR s digest selection => λ v, match sessions v !! s with
      | Some st => (Ok tt, set_sessions (<[s := MkSession (ss_trial st) (PolicyPCR_Update selection digest)]>) v) | None => no_handle v end
  | tpm2.PolicyGetDigest s => λ v, match sessions v !! s ≫= ss_digest with Some d => (Ok d, v) | None => no_handle v end
  | tpm2.CertifyCreation h _ o _ _ ticket hash => λ v,
      match objects v !! h, objects v !! o with
      | Some ak, Some obj =>
          let name := x0b :: sim_marshal_public (ob_public obj) in
          if bool_decide ((name, hash, ticket) ∈ issued v) then (Ok (sim_sign (x01 :: name)), v) else refused v
      | _, _ => no_handle v end
  | tpm2.Quote h _ selection _ => λ v, match objects v !! h with
      | Some ak => (Ok (sim_sign (x00 :: sha256 (concat (selected v selection)))), v) | None => no_handle v end
  | tpm2.PCRRead selection => λ v, (Ok (selected v selection), v)
  end.
#[local] Instance sim_device : TpmDevice := {| device := view; Execute A := sim_Execute |}.

Lemma free_slot_some {X} (m : gmap Z X) slots h : free_slot m slots = Some h → h ∈ slots ∧ m !! h = None.
Proof.
  unfold free_slot. destruct (list_find _ slots) as [[i h']|] eqn:E; cbn; [|done]. intros [= ->].
  apply list_find_Some in E as (Hi & Hn & _). split; [|done]. by eapply list_elem_of_lookup_2.
Qed.
Lemma free_slot_exists {X} (m : gmap Z X) slots (s : gset Z) :
  NoDup slots → (∀ h, h ∈ slots → is_Some (m !! h) → h ∈ s) → (size s < length slots)%nat → is_Some (free_slot m slots).
Proof.
  intros Hnd Hs Hsz. unfold free_slot. destruct (list_find _ slots) as [?|] eqn:E; [by eexists|]. exfalso.
  apply list_find_None in E. assert (list_to_set slots ⊆ s) as Hsub.
  { intros h Hh%elem_of_list_to_set. apply Hs; [done|]. pose proof (proj1 (Forall_forall _ _) E h Hh) as Hne. cbn in Hne.
    destruct (m !! h); [by eexists|done]. }
  apply subseteq_size in Hsub. rewrite size_list_to_set in Hsub by done. lia.
Qed.

Lemma sim_created t : created_from sim_P256 t (sim_make t).
Proof.
  unfold created_from, sim_make. cbn. destruct (t_Parameters t) eqn:E; cbn; unfold t_Type; rewrite E; split_and!; try done; eauto.
  do 2 eexists. split; [done|]. intros _. split; vm_compute; intuition discriminate.
Qed.
Lemma sim_signed pub info : signed_with pub info (sim_sign info).2.
Proof. intros N E _. eexists. split; [done|]. cbn. by apply bool_decide_eq_true. Qed.
Lemma transient_slot h : h ∈ transient_slots → is_transient h.
Proof. unfold transient_slots, is_transient. set_solver by lia. Qed.
Lemma session_slot h : h ∈ session_slots → ¬ is_transient h ∧ ¬ is_persistent h.
Proof. unfold session_slots, is_transient, is_persistent. set_solver by lia. Qed.

(** The answers of the device, case by case. *)
Ltac sim_case H := match type of H with (match ?x with _ => _ end) = _ => destruct x eqn:?; try discriminate H end.
Ltac sim_cases H := cbn [sim_Execute Execute sim_device] in H; unfold no_handle, refused in H; repeat sim_case H; simplify_eq.

Lemma sim_fresh_private (l : list (nat * sim_public * template)) public t : (S (max_list (fst ∘ fst <$> l)), public, t) ∉ l.
Proof.
  intros Hin. apply (list_elem_of_fmap_2 (fst ∘ fst)), max_list_elem_of_le in Hin. cbn in Hin. lia.
Qed.
Lemma sim_loaded (l : list (nat * sim_public * template)) i private public x t :
  list_find (λ x : nat * sim_public * template, x.1 = (private, public)) l = Some (i, (x, t)) → (private, public, t) ∈ l.
Proof. intros (Hi & Hx & _)%list_find_Some. cbn in Hx. subst x. by eapply list_elem_of_lookup_2. Qed.

Lemma sim_ok {A} (c : tpm2.command A) v a v' : sim_Execute c v = (Ok a, v') → effect sim_P256 c v a v'.
Proof.
  destruct c; intros E.
  - injection E as <- <-. split; [done|]. intros -> -> ->. by rewrite Z.eqb_refl.
  - sim_cases E. split; [done|]. by exists o.
  - sim_cases E. done.
  - sim_cases E. done.
  - sim_cases E. split; [done|]. by exists n.
  - sim_cases E. split; [done|]. match goal with H : _ ≫= _ = Some _ |- _ => apply bind_Some in H as (n & Hn & Hd) end. by exists n, l.
  - sim_cases E. done.
  - sim_cases E. by exists n.
  - sim_cases E. done.
  - sim_cases E. match goal with H : free_slot _ _ = Some _ |- _ => apply free_slot_some in H as [?%transient_slot ?] end.
    exists (sim_make public). split; [apply sim_created|done].
  - injection E as <- <-. exists (sim_make public). eexists. split_and!; [apply sim_created|done|done|done| |done]. intros t'. apply sim_fresh_private.
  - sim_cases E. match goal with H : free_slot _ _ = Some _ |- _ => apply free_slot_some in H as [?%transient_slot ?] end.
    eexists _, public. split_and!; [by eapply sim_loaded|done|done|done|done].
  - sim_cases E. match goal with H : free_slot _ _ = Some _ |- _ => apply free_slot_some in H as [[??]%session_slot ?] end. done.
  - sim_cases E. by eexists.
  - sim_cases E. split; [done|]. match goal with H : _ ≫= _ = Some _ |- _ => by apply bind_Some in H end.
  - sim_cases E. match goal with H : bool_decide _ = true |- _ => apply bool_decide_eq_true in H end.
    split; [done|]. eexists _, _, _, _. split_and!; [done|done|done|done|done|done|apply sim_signed].
  - sim_cases E. split; [done|]. eexists _, _. split_and!; [done|done|done|apply sim_signed].
  - injection E as <- <-. done.
Qed.
Lemma sim_err {A} (c : tpm2.command A) v e v' : sim_Execute c v = (Err e, v') → v' = v.
Proof. destruct c; intros E; by sim_cases E. Qed.
#[local] Instance sim_effects : TpmEffects sim_P256 := {| view_of v := v; Execute_ok A := sim_ok; Execute_err A := sim_err |}.

Lemma sim_enabled {A} (c : tpm2.command A) v : enabled c v → ∃ a v', sim_Execute c v = (Ok a, v').
Proof.
  assert (Hslot : (size (transients v) < 3)%nat → is_Some (free_slot (objects v) transient_slots)).
  { intros Hs. apply (free_slot_exists _ _ (transients v)); [|intros h Hh Hm|done].
    - apply (bool_decide_unpack _). by vm_compute.
    - apply elem_of_filter. split; [by apply transient_slot|]. by apply elem_of_dom. }
  destruct c; cbn [enabled sim_Execute]; intros He.
  - eauto.
  - destruct He as [o ->]. eauto.
  - destruct He as (_ & [o ->] & _). eauto.
  - case_decide; destruct He as [o ->]; cbn; eauto.
  - destruct He as [n ->]. eauto.
  - destruct He as (n & -> & _ & _ & [d Hd] & _). cbn. rewrite Hd. eauto.
  - destruct He as (_ & -> & _). eauto.
  - destruct He as (n & -> & _). eauto.
  - destruct He as (_ & [n ->]). eauto.
  - destruct He as [_ Hs]. destruct (Hslot Hs) as [h ->]. eauto.
  - eauto.
  - destruct He as (_ & [t Ht] & Hs). destruct (Hslot Hs) as [h ->].
    destruct (list_find _ _) as [[j [x t']]|] eqn:E; [destruct x; eauto|].
    apply list_find_None in E. by destruct (proj1 (Forall_forall _ _) E _ Ht).
  - destruct (free_slot_exists (sessions v) session_slots (dom (sessions v))) as [s ->]; [|by intros h _ ?%elem_of_dom| |eauto].
    + apply (bool_decide_unpack _). by vm_compute.
    + by rewrite size_dom.
  - destruct He as [[st ->] _]. eauto.
  - destruct He as (st & -> & [d Hd]). cbn. rewrite Hd. eauto.
  - destruct He as ((ak & -> & _) & obj & nm & -> & Hn & Hin). injection Hn as <-. rewrite bool_decide_eq_true_2 by done. eauto.
  - destruct He as (ak & -> & _). eauto.
  - eauto.
Qed.
Lemma sim_absent {A} (c : tpm2.command A) v : absent c v → ∃ e v', sim_Execute c v = (Err e, v') ∧ str_contains (Error_text e) handle_text = true.
Proof. destruct c; cbn [absent sim_Execute]; intros He; try done; rewrite He; eexists _, _; (split; [done|]); vm_compute; reflexivity. Qed.
#[local] Instance sim_reliable : ReliableTpm sim_P256 := {| Execute_enabled A := sim_enabled; Execute_absent A := sim_absent |}.
End sim.

(** A TPM that has just been reset. *)
Definition fresh_tpm : @device sim_tpm2 sim_structs sim_device :=
  MkView ∅ ∅ ∅ (λ k, replicate 32 (byte_of k)) 1024 [] [].
