(* ===== verification/TpmStore.v ===== *)
(** What the operations of [tpm/tpm.go] do on a TPM that keeps its specification: NV
    indices are read back as they were written, persistent handles are replaced, the
    policy digest of the device is the one computed in software. *)

From S2P Require Import Prelude Bytes GoLib GoStrings TpmKeys TpmOps TpmSpec TpmSim.
From S2P Require Properties.

Section store.
Context {H : Sha256Lib} {T : Tpm2} {TS : TpmStructs} {RL : RsaLib} {TD : TpmDevice} {on_P256 : Z → Z → Prop}.
Context {TE : TpmEffects on_P256} {RT : ReliableTpm on_P256} {SL : TpmStructsLaws TS} {SO : SliceSort} {R : RangeOrder}.

(** ** Handles and indices that may be in use *)

Lemma set_nvs_delete_id i v : nvs v !! i = None → set_nvs (delete i) v = v.
Proof. intros Hi. destruct v; unfold set_nvs; cbn in *. by rewrite delete_id. Qed.
Lemma set_objects_delete_id h v : objects v !! h = None → set_objects (delete h) v = v.
Proof. intros Hi. destruct v; unfold set_objects; cbn in *. by rewrite delete_id. Qed.

Lemma runs_MaybeClearNVIndex i Q v : Q tt (set_nvs (delete i) v) → runs (MaybeClearNVIndex i) Q v.
Proof.
  intros HQ. unfold MaybeClearNVIndex. apply runs_bind. destruct (nvs v !! i) as [n|] eqn:E.
  - apply runs_try; [by eexists|]. intros a v' [-> _]. apply runs_wrapf, runs_exec; [split; [done|by eexists]|]. by intros [] v' ->.
  - apply runs_try_absent; [done|]. intros e ->. apply runs_ret. by rewrite <- set_nvs_delete_id with (i := i).
Qed.

Lemma runs_MaybeClearPersistentHandle h Q v :
  is_persistent h → Q tt (set_objects (delete h) v) → runs (MaybeClearPersistentHandle h) Q v.
Proof.
  intros Hh HQ. unfold MaybeClearPersistentHandle. apply runs_bind. destruct (objects v !! h) as [o|] eqn:E.
  - apply runs_try; [by eexists|]. intros a v' [-> _]. apply runs_wrapf, runs_exec; [split_and!; [done|by eexists|done|by left]|].
    intros [] v' ->. unfold set_objects in *. by rewrite decide_True.
  - apply runs_try_absent; [done|]. intros e ->. apply runs_ret. by rewrite <- set_objects_delete_id with (h := h).
Qed.

Lemma runs_PersistObject h p o Q v :
  is_transient h → is_persistent p → objects v !! h = Some o → objects v !! p = None →
  Q tt (set_objects (<[p := o]>) v) → runs (PersistObject h p) Q v.
Proof.
  intros Hh Hp Ho Hn HQ. unfold PersistObject. apply runs_bind, runs_exec; [by eexists|]. intros [pub name] v' [-> _].
  apply runs_exec; [split_and!; [done|by eexists|done|by right]|]. intros [] v' ->.
  unfold set_objects in *. rewrite decide_False by (unfold is_transient, is_persistent in *; lia).
  replace (partial_alter (λ _, objects v !! h) p (objects v)) with (<[p := o]> (objects v)); [done|]. by rewrite Ho.
Qed.

(** ** NV indices *)

Lemma runs_WriteToNVRamNoAuth i data Q v :
  nvs v !! i = None → Z.of_nat (length data) < 2 ^ 16 → Z.of_nat (length data) ≤ buffer_max v →
  Q tt (set_nvs (<[i := MkNV nv_attributes (Z.of_nat (length data)) (Some data)]>) v) →
  runs (WriteToNVRamNoAuth i data) Q v.
Proof.
  intros Hi Hlen Hmax HQ. unfold WriteToNVRamNoAuth. rewrite (proj2 (Z.ltb_ge _ _)) by lia.
  apply runs_bind, runs_try; [split_and!; [done|done|lia|lia]|]. intros [] v' ->. apply runs_bind, runs_ret, runs_bind.
  destruct (NVName_total i nv_attributes (Z.of_nat (length data))) as [name Hn].
  eapply runs_lift; [by rewrite Hn|]. apply runs_exec.
  { exists (MkNV nv_attributes (Z.of_nat (length data)) None). cbn. rewrite lookup_insert_eq. split_and!; [done|done| |lia|lia|done].
    unfold nv_attributes. set_solver. }
  intros [] v' (n & Hn' & ->). cbn in Hn'. rewrite lookup_insert_eq in Hn'. injection Hn' as <-. unfold set_nvs in *. cbn in *.
  rewrite insert_insert_eq, Nat2Z.id, drop_ge, app_nil_r; [done|]. rewrite length_replicate. lia.
Qed.

Lemma runs_read_blocks fuel i name bs ds d n out Q v :
  nvs v !! i = Some n → nv_data n = Some d → OwnerRead ∈ nv_attributes_of n → nv_size n = ds → ds = Z.of_nat (length d) →
  ds < 2 ^ 16 → 0 < bs ≤ buffer_max v → out `prefix_of` d → (length d - length out ≤ fuel)%nat →
  Q d v → runs (read_blocks fuel i name bs ds out) Q v.
Proof.
  intros Hn Hd Ha Hs Hds H16 Hbs. revert out. induction fuel as [|fuel IH]; intros out [rest Hr] Hf HQ; cbn [read_blocks];
    assert (length d = length out + length rest)%nat as Hl by (by rewrite Hr, length_app).
  1: { rewrite (proj2 (Z.ltb_ge _ _)) by lia. assert (out = d) as -> by (rewrite Hr; destruct rest; [by rewrite app_nil_r|cbn in *; lia]).
       by apply runs_ret. }
  destruct (Z.ltb_spec (Z.of_nat (length out)) ds) as [Hlt|Hge]; cbn [negb].
  2: { assert (out = d) as -> by (rewrite Hr; destruct rest; [by rewrite app_nil_r|cbn in *; lia]). by apply runs_ret. }
  set (sz := if _ <? bs then _ else _).
  assert (0 < sz ≤ bs ∧ sz ≤ Z.of_nat (length rest)) as [Hsz1 Hsz2] by (unfold sz; destruct (Z.ltb_spec (ds - Z.of_nat (length out)) bs); lia).
  apply runs_bind. rewrite !wrap_u_small by lia. apply runs_exec; [exists n; split_and!; [done|done|done|by rewrite Hd; eexists|lia..]|].
  intros a v' (-> & n' & d' & Hn' & Hd' & ->). assert (n' = n) as -> by congruence. assert (d' = d) as -> by congruence.
  assert (drop (Z.to_nat (Z.of_nat (length out))) d = rest) as -> by (by rewrite Nat2Z.id, Hr, drop_app_length).
  apply IH; [|rewrite length_app, length_take; lia|done].
  exists (drop (Z.to_nat sz) rest). by rewrite <- app_assoc, take_drop.
Qed.

Lemma runs_GetTPMCapability_buffer Q v : Q (TPMPTNVBufferMax, buffer_max v) v → runs (GetTPMCapability TPMPTNVBufferMax) Q v.
Proof.
  intros HQ. unfold GetTPMCapability. apply runs_bind, runs_exec; [done|]. intros a v' [-> Ha]. rewrite Ha by done.
  apply runs_bind. eapply runs_lift; [done|]. cbn [list_find]. rewrite decide_True by done. by apply runs_ret.
Qed.

Lemma runs_NVReadEX i d n Q v :
  nvs v !! i = Some n → nv_data n = Some d → OwnerRead ∈ nv_attributes_of n → nv_size n = Z.of_nat (length d) →
  nv_size n < 2 ^ 16 → 0 < buffer_max v → Q d v → runs (NVReadEXNoAuthorization i) Q v.
Proof.
  intros Hn Hd Ha Hs H16 Hbs HQ. unfold NVReadEXNoAuthorization. apply runs_bind, runs_exec; [by eexists|].
  intros [pub name] v' (-> & n' & Hn' & Hsize). assert (n' = n) as -> by congruence. cbn in Hsize.
  apply runs_bind. eapply runs_lift; [by rewrite Hsize|]. apply runs_bind, runs_GetTPMCapability_buffer. cbn [snd].
  eapply (runs_read_blocks _ _ _ _ _ d n); try done; [apply prefix_nil|]. cbn [length]. lia.
Qed.

(** C24. What is written to an NV index is what is read back.  On a TPM that keeps its
    specification, for any index, whether it is in use or not, and data that fits
    16 bits and the buffer of the TPM, clearing the index, writing and reading end
    without an error, reading in blocks of the size the TPM reports; the bytes read
    are those written, and nothing else on the device has changed. *)
Theorem NVRAM_roundtrip i data d :
  0 < buffer_max (view_of d) → Z.of_nat (length data) ≤ buffer_max (view_of d) → Z.of_nat (length data) < 2 ^ 16 →
  ∃ d', (_ ← MaybeClearNVIndex i; _ ← WriteToNVRamNoAuth i data; NVReadEXNoAuthorization i) d = Some (Ok data, d') ∧
    view_of d' = set_nvs (<[i := MkNV nv_attributes (Z.of_nat (length data)) (Some data)]>) (view_of d).
Proof.
  intros Hmax Hlen H16. set (v := view_of d).
  assert (runs (_ ← MaybeClearNVIndex i; _ ← WriteToNVRamNoAuth i data; NVReadEXNoAuthorization i)
    (λ a v', a = data ∧ v' = set_nvs (<[i := MkNV nv_attributes (Z.of_nat (length data)) (Some data)]>) v) v) as Hrun.
  { apply runs_bind, runs_MaybeClearNVIndex, runs_bind, runs_WriteToNVRamNoAuth; [apply lookup_delete_eq|done|done|].
    unfold set_nvs. cbn. rewrite insert_delete_eq. eapply runs_NVReadEX; cbn; [apply lookup_insert_eq|done| |done..].
    unfold nv_attributes. set_solver. }
  destruct (Hrun d eq_refl) as (a & d' & E & -> & Hv). by exists d'.
Qed.

(** Without clearing, the bytes of an earlier, longer value stay behind the new ones. *)
Lemma rewritten_index_keeps_tail i name data old n v :
  nvs v !! i = Some n → nv_data n = Some old → AuthWrite ∈ nv_attributes_of n → OwnerRead ∈ nv_attributes_of n →
  nv_size n = Z.of_nat (length old) → nv_size n < 2 ^ 16 → (length data ≤ length old)%nat →
  0 < buffer_max v → Z.of_nat (length data) ≤ buffer_max v →
  runs (_ ← exec (tpm2.NVWrite i i name data 0); NVReadEXNoAuthorization i) (λ a _, a = data ++ drop (length data) old) v.
Proof.
  intros Hn Hd Hw Hr Hs H16 Hlen Hmax Hfit. apply runs_bind, runs_exec; [exists n; split_and!; [done|done|done|lia..]|].
  intros [] v' (n' & Hn' & ->). assert (n' = n) as -> by congruence. rewrite Hd. cbn [default].
  change (Z.to_nat 0) with 0%nat. cbn [take Nat.add app]. unfold set_nvs.
  eapply runs_NVReadEX; cbn; [apply lookup_insert_eq|done|done| |done..]. change (take 0 old) with (@nil byte). rewrite !length_app, length_drop. cbn [nv_size length]. lia.
Qed.

(** ** Registers *)

Lemma record_digests_spec acc indices v : ∃ m, record_digests acc indices (pcr v <$> indices) = Some m ∧
  ∀ k, m !! k = if decide (k ∈ indices) then Some (pcr v k) else acc !! k.
Proof.
  revert acc. induction indices as [|i indices IH]; intros acc; cbn [fmap list_fmap record_digests].
  - exists acc. split; [done|]. intros k. by rewrite decide_False by set_solver.
  - destruct (IH (<[i := pcr v i]> acc)) as (m & E & Hm). exists m. split; [done|]. intros k. rewrite Hm.
    destruct (decide (k ∈ indices)); [by rewrite decide_True by set_solver|]. destruct (decide (k = i)) as [-> |].
    + by rewrite lookup_insert_eq, decide_True by set_solver.
    + by rewrite lookup_insert_ne, decide_False by set_solver.
Qed.

Lemma runs_read_groups fuel acc pcrs (Q : gmap Z (list byte) → view → Prop) v :
  NoDup pcrs → Forall (λ k, 0 ≤ k < 24) pcrs → (length pcrs ≤ fuel)%nat →
  (∀ m, (∀ k, m !! k = if decide (k ∈ pcrs) then Some (pcr v k) else acc !! k) → Q m v) → runs (read_groups fuel acc pcrs) Q v.
Proof.
  revert acc pcrs. induction fuel as [|fuel IH]; intros acc pcrs Hnd Hr Hf HQ.
  1: { destruct pcrs; [|cbn in *; lia]. apply runs_ret, HQ. intros k. by rewrite decide_False by set_solver. }
  destruct pcrs as [|p pcrs'] eqn:Ep; [apply runs_ret, HQ; intros k; by rewrite decide_False by set_solver|]. rewrite <- Ep in *.
  assert (read_groups (Datatypes.S fuel) acc pcrs = (digests ← exec (tpm2.PCRRead (PCClientCompatible_PCRs (take 8 pcrs)));
    match record_digests acc (getNonzeroBitIndices (PCClientCompatible_PCRs (take 8 pcrs))) digests with
    | None => lift (Err Panicked) | Some acc => read_groups fuel acc (drop 8 pcrs) end)) as -> by (by rewrite Ep).
  rewrite <- (take_drop 8 pcrs) in Hnd, Hr. apply NoDup_app in Hnd as (Hn1 & _ & Hn2). apply Forall_app in Hr as [Hr1 Hr2].
  rewrite PCRs_indices by done. apply runs_bind, runs_exec; [done|]. intros a v' [-> Ha].
  rewrite Ha; unfold selected; rewrite PCRs_indices by done; [|rewrite slices_sort_perm, length_take; lia].
  destruct (record_digests_spec acc (slices_sort (take 8 pcrs)) v) as (m & -> & Hm).
  apply IH; [done|done|rewrite length_drop; subst; cbn in *; lia|]. intros m' Hm'. apply HQ. intros k. rewrite Hm', Hm.
  assert (k ∈ slices_sort (take 8 pcrs) ↔ k ∈ take 8 pcrs) as Hs by (by rewrite slices_sort_perm).
  assert (k ∈ pcrs ↔ k ∈ take 8 pcrs ∨ k ∈ drop 8 pcrs) as Hin by (by rewrite <- elem_of_app, take_drop).
  repeat case_decide; tauto || naive_solver.
Qed.

Lemma runs_PCRRead pcrs (Q : gmap Z (list byte) → view → Prop) v : NoDup pcrs → Forall (λ k, 0 ≤ k < 24) pcrs →
  (∀ m, (∀ k, m !! k = if decide (k ∈ pcrs) then Some (pcr v k) else None) → Q m v) → runs (PCRRead pcrs) Q v.
Proof. intros Hn Hr HQ. apply runs_read_groups; [done|done|done|]. intros m Hm. apply HQ. intros k. by rewrite Hm, lookup_empty. Qed.

(** ** Policies *)

Lemma runs_GetTPMPCRPolicyDigest pcrValues (Q : list byte → view → Prop) v : (size (sessions v) < 3)%nat →
  (∀ digest, GetSoftwarePCRPolicyDigest pcrValues = Ok digest → Q digest v) → runs (GetTPMPCRPolicyDigest pcrValues) Q v.
Proof.
  intros Hsz HQ. unfold GetTPMPCRPolicyDigest. apply runs_bind, runs_exec; [done|]. intros s v1 (Hs & Ht & Hp & ->).
  destruct (PolicyPCR_Update_total (pcrSelectionFromDesiredPcrValuesMap pcrValues) (pcrDigestFromDesiredPcrValuesMap pcrValues)) as [digest Hd].
  specialize (HQ digest). unfold GetSoftwarePCRPolicyDigest in HQ. rewrite Hd in HQ. specialize (HQ eq_refl).
  apply runs_deferred, runs_bind, runs_exec.
  { split; [|by rewrite Hd]. cbn. rewrite lookup_insert_eq. by eexists. }
  intros [] v2 (st & Hst & ->). cbn in Hst. rewrite lookup_insert_eq in Hst. injection Hst as <-. rewrite Hd. cbn.
  apply runs_bind, runs_exec; [eexists; cbn; rewrite lookup_insert_eq; split; [done|by eexists]|].
  intros a v3 (-> & st & Hst & Ha). cbn in Hst. rewrite lookup_insert_eq in Hst. injection Hst as <-. injection Ha as <-.
  apply runs_bind, runs_exec; [cbn; rewrite decide_False by done; rewrite lookup_insert_eq; by eexists|].
  intros [] v4 ->. rewrite decide_False by done. apply runs_ret.
  assert (set_sessions (delete s) (set_sessions (<[s:=MkSession true (Some digest)]>) (set_sessions (<[s:=MkSession true None]>) v)) = v) as ->.
  { destruct v; unfold set_sessions; cbn in *. by rewrite insert_insert_eq, delete_insert_id. }
  split; [by right|]. intros [] v' ->. rewrite decide_False by done.
  assert (set_sessions (delete s) v = v) as -> by (destruct v; unfold set_sessions; cbn in *; by rewrite delete_id). done.
Qed.

(** C25. The policy digest the TPM computes in a trial session is the one
    [GetSoftwarePCRPolicyDigest], which clients use, computes without a TPM: for any
    PCR values, on a TPM with room for a session, the program ends without an error,
    both give the same digest, and no session is left on the device. *)
Theorem policy_digest_agrees pcrValues d : (size (sessions (view_of d)) < 3)%nat →
  ∃ digest d', GetTPMPCRPolicyDigest pcrValues d = Some (Ok digest, d') ∧ GetSoftwarePCRPolicyDigest pcrValues = Ok digest ∧
    view_of d' = view_of d.
Proof.
  intros Hs. destruct (runs_GetTPMPCRPolicyDigest pcrValues
    (λ digest v', GetSoftwarePCRPolicyDigest pcrValues = Ok digest ∧ v' = view_of d) (view_of d) Hs (λ _ Hd, conj Hd eq_refl) d eq_refl)
    as (digest & d' & E & Hd & Hv). by exists digest, d'.
Qed.
End store.

(** ** Nothing is left in the TPM

    Transient objects and sessions are scarce: whatever fails on the way, a program
    gives back those it took, as long as flushing them works. *)

Section balance.
Context {H : Sha256Lib} {T : Tpm2} {TS : TpmStructs} {RL : RsaLib} {TD : TpmDevice} {on_P256 : Z → Z → Prop}.
Context {TE : TpmEffects on_P256} {SO : SliceSort} {R : RangeOrder}.
Context (flush_works : ∀ h d, enabled (tpm2.FlushContext h) (view_of d) → ∃ d', Execute (tpm2.FlushContext h) d = (Ok tt, d')).

Definition same_live (v v' : view) : Prop :=
  (∀ h, is_transient h → objects v' !! h = objects v !! h) ∧ sessions v' = sessions v.
#[export] Instance same_live_preorder : PreOrder same_live.
Proof. split; [done|]. intros v1 v2 v3 [H1 H2] [H3 H4]. split; [intros h Hh; by rewrite H3, H1|congruence]. Qed.

(** The same but for one session. *)
Definition same_but (s : Z) (v v' : view) : Prop :=
  (∀ h, is_transient h → objects v' !! h = objects v !! h) ∧ delete s (sessions v') = delete s (sessions v).
#[export] Instance same_but_preorder s : PreOrder (same_but s).
Proof. split; [done|]. intros v1 v2 v3 [H1 H2] [H3 H4]. split; [intros h Hh; by rewrite H3, H1|congruence]. Qed.

Section keeps.
Context (P : relation view) {HP : PreOrder P}.
Definition keeps {A} (m : M A) : Prop := ∀ d r d', m d = Some (r, d') → P (view_of d) (view_of d').
Definition within {A} (c : tpm2.command A) : Prop := ∀ v a v', effect on_P256 c v a v' → P v v'.

Lemma keeps_ret {A} (a : A) : keeps (mret a).
Proof. by intros d r d' [= <- <-]. Qed.
Lemma keeps_lift {A} (r : result failure A) : keeps (lift r).
Proof. by intros d r' d' [= <- <-]. Qed.
Lemma keeps_bind {A B} (m : M A) (k : A → M B) : keeps m → (∀ a, keeps (k a)) → keeps (m ≫= k).
Proof.
  intros Hm Hk d r d'. unfold mbind, M_bind. destruct (m d) as [[[a|e] d1]|] eqn:E; cbn; [|intros [= <- <-]; by eapply Hm|done].
  intros Hd. etrans; [by eapply Hm|by eapply Hk].
Qed.
Lemma keeps_wrapf {A} msg (m : M A) : keeps m → keeps (wrapf msg m).
Proof. intros Hm d r d'. unfold wrapf. destruct (m d) as [[r1 d1]|] eqn:E; cbn; [|done]. intros [= <- <-]. by eapply Hm. Qed.
Lemma within_Execute {A} (c : tpm2.command A) d r d' : within c → Execute c d = (r, d') → P (view_of d) (view_of d').
Proof.
  intros Hc. destruct r as [a|e]; intros E; [eapply Hc; by apply (Execute_ok c)|by rewrite (Execute_err c d e d' E)].
Qed.
Lemma keeps_exec {A} (c : tpm2.command A) : within c → keeps (exec c).
Proof. intros Hc d r d'. unfold exec. destruct (Execute c d) eqn:E; intros [= <- <-]. by eapply within_Execute. Qed.
Lemma keeps_try {A} (c : tpm2.command A) : within c → keeps (try c).
Proof. intros Hc d r d'. unfold try. destruct (Execute c d) eqn:E; intros [= <- <-]. by eapply within_Execute. Qed.
End keeps.

(** A program that, when it succeeds, has taken the transient object [f] names. *)
Definition takes {A} (f : A → Z) (m : M A) : Prop := ∀ d r d', m d = Some (r, d') →
  match r with
  | Err _ => same_live (view_of d) (view_of d')
  | Ok a => is_transient (f a) ∧ objects (view_of d) !! f a = None ∧ is_Some (objects (view_of d') !! f a) ∧
      same_live (view_of d) (set_objects (delete (f a)) (view_of d'))
  end.

Lemma takes_flushed {A B} f (m : M A) (k : A → M B) :
  takes f m → (∀ a, keeps same_live (k a)) → keeps same_live (a ← m; deferred (tpm2.FlushContext (f a)) (k a)).
Proof.
  intros Hm Hk d r d'. unfold mbind, M_bind. destruct (m d) as [[[a|e] d1]|] eqn:E; cbn; [|intros [= <- <-]; by apply (Hm _ _ _ E)|done].
  destruct (Hm _ _ _ E) as (Ht & _ & [o Ho] & Hl). unfold deferred. destruct (k a d1) as [[r2 d2]|] eqn:E2; cbn; [|done].
  destruct (Hk a _ _ _ E2) as [Hobj Hses]. destruct (flush_works (f a) d2) as [d3 E3].
  { cbn. rewrite decide_True by done. rewrite Hobj by done. by eexists. }
  rewrite E3. intros [= <- <-]. apply (Execute_ok (tpm2.FlushContext (f a))) in E3. cbn in E3.
  rewrite decide_True in E3 by done. rewrite E3. destruct Hl as [Hl1 Hl2]. split; [|cbn in *; congruence].
  intros h Hh. rewrite <- Hl1 by done. cbn. destruct (decide (f a = h)) as [<-|]; [by rewrite !lookup_delete_eq|].
  rewrite !lookup_delete_ne by done. by apply Hobj.
Qed.

Lemma takes_bind {A B} (f : B → Z) (m : M A) (k : A → M B) : keeps same_live m → (∀ a, takes f (k a)) → takes f (m ≫= k).
Proof.
  intros Hm Hk d r d'. unfold mbind, M_bind. destruct (m d) as [[[a|e] d1]|] eqn:E; cbn; [|intros [= <- <-]; by eapply Hm|done].
  intros E2. specialize (Hk a _ _ _ E2). destruct (Hm _ _ _ E) as [H1 H2]. destruct r as [b|e].
  - destruct Hk as (Ht & Hn & Ho & Hl). split_and!; [done|by rewrite <- H1|done|]. etrans; [by split|done].
  - etrans; [by split|done].
Qed.
Lemma takes_then {A B} (f : A → Z) (g : B → Z) (m : M A) (k : A → B) : (∀ a, g (k a) = f a) → takes f m → takes g (a ← m; mret (k a)).
Proof.
  intros Hg Hm d r d'. unfold mbind, M_bind. destruct (m d) as [[[a|e] d1]|] eqn:E; cbn; intros [= <- <-]; specialize (Hm _ _ _ E); [|done].
  by rewrite Hg.
Qed.
Lemma takes_exec {A} f (c : tpm2.command A) :
  (∀ v a v', effect on_P256 c v a v' → is_transient (f a) ∧ objects v !! f a = None ∧ ∃ o, v' = set_objects (<[f a := o]>) v) →
  takes f (exec c).
Proof.
  intros Hc d r d'. unfold exec. destruct (Execute c d) as [[a|e] d1] eqn:E; intros [= <- <-]; cbn.
  - apply (Execute_ok c), Hc in E as (Ht & Hn & o & ->). cbn. split_and!; [done|done|by rewrite lookup_insert_eq; eexists|].
    split; [|done]. intros h Hh. cbn. by rewrite delete_insert_id.
  - by rewrite (Execute_err c d e d1 E).
Qed.

End balance.
#[global] Abbreviation balanced := (keeps same_live).

Create HintDb tpm.
Ltac keeps_step := first
  [ solve [auto with tpm nocore] | apply keeps_bind; [apply _| |intros ?] | apply keeps_ret, _ | apply keeps_lift, _ | apply keeps_wrapf
  | apply keeps_exec; [apply _|]; try by (intros ? ? ? [-> ?]) | apply keeps_try; [apply _|]; try by (intros ? ? ? [-> ?]) | case_match ].
Ltac balance := repeat keeps_step.

(** *** The operations *)

Section operations.
Context {H : Sha256Lib} {T : Tpm2} {TS : TpmStructs} {RL : RsaLib} {TD : TpmDevice} {on_P256 : Z → Z → Prop}.
Context {TE : TpmEffects on_P256} {SO : SliceSort} {R : RangeOrder}.
Context (flush_works : ∀ h d, enabled (tpm2.FlushContext h) (view_of d) → ∃ d', Execute (tpm2.FlushContext h) d = (Ok tt, d')).

#[local] Abbreviation quiet := (within (on_P256:=on_P256) same_live).

Lemma quiet_EvictControl a h name p : ¬ is_transient p → quiet (tpm2.EvictControl a h name p).
Proof.
  intros Hp v u v' ->. split; [|done]. intros h' Hh'. cbn. assert (h' ≠ p) by congruence.
  case_decide; [by rewrite lookup_delete_ne|by rewrite lookup_partial_alter_ne].
Qed.
Lemma quiet_set_nvs {A} (c : tpm2.command A) : (∀ v a v', effect on_P256 c v a v' → ∃ f, v' = set_nvs f v) → quiet c.
Proof. intros Hc v a v' (f & ->)%Hc. done. Qed.

Lemma persistent_not_transient h : is_persistent h → ¬ is_transient h.
Proof. unfold is_persistent, is_transient. lia. Qed.
#[local] Hint Resolve quiet_EvictControl persistent_not_transient : core.

Lemma balanced_MaybeClearPersistentHandle h : is_persistent h → balanced (MaybeClearPersistentHandle h).
Proof. intros Hh. unfold MaybeClearPersistentHandle. balance; auto. Qed.
Lemma balanced_PersistObject h p : is_persistent p → balanced (PersistObject h p).
Proof. intros Hp. unfold PersistObject. balance; auto. Qed.
Lemma balanced_MaybeClearNVIndex i : balanced (MaybeClearNVIndex i).
Proof. unfold MaybeClearNVIndex. balance. apply quiet_set_nvs. intros ??? ->. by eexists. Qed.
Lemma balanced_WriteToNVRamNoAuth i data : balanced (WriteToNVRamNoAuth i data).
Proof.
  unfold WriteToNVRamNoAuth. balance; apply quiet_set_nvs; intros ???; first [intros ->|intros (n & _ & ->)]; by eexists.
Qed.
Lemma balanced_PCRRead pcrs : balanced (PCRRead pcrs).
Proof.
  unfold PCRRead. generalize (length pcrs), (∅ : gmap Z (list byte)). intros fuel. revert pcrs.
  induction fuel as [|fuel IH]; intros [|p pcrs] acc; cbn [read_groups]; balance; first [by intros ???|apply IH].
Qed.
Lemma balanced_GetTPMPCRPolicyDigest pcrValues : balanced (GetTPMPCRPolicyDigest pcrValues).
Proof.
  intros d r d' Hrun. apply bind_Some_inv in Hrun as (r1 & d1 & (r0 & E & ->)%exec_inv & Hrun). destruct r0 as [s|e]; cbn [wrap_err] in Hrun.
  2: { destruct Hrun as [_ ->]. by rewrite (Execute_err _ _ _ _ E). }
  apply (Execute_ok (tpm2.StartPolicySession true)) in E as (Hs & Ht & _ & Hv1). apply deferred_inv in Hrun as (d2 & r3 & E2 & E3).
  match type of E2 with ?rest _ = _ => assert (keeps (same_but s) rest) as Hrest end.
  { balance.
    - intros v [] v' (st & _ & ->). split; [done|]. cbn. by rewrite delete_insert_eq.
    - intros v [] v' ->. rewrite decide_False by done. split; [done|]. cbn. by rewrite delete_delete_eq. }
  destruct (Hrest _ _ _ E2) as [Ho Hss].
  rewrite Hv1 in Ho, Hss. cbn in Ho, Hss. rewrite delete_insert_id in Hss by done.
  destruct r3 as [u|e].
  - apply (Execute_ok (tpm2.FlushContext s)) in E3. cbn in E3. rewrite decide_False in E3 by done. by rewrite E3.
  - rewrite (Execute_err _ _ _ _ E3). split; [done|]. destruct (sessions (view_of d2) !! s) as [st|] eqn:E4; [|by rewrite <- Hss, delete_id].
    destruct (flush_works s d2) as [d4 E5]; [cbn; rewrite decide_False by done; by eexists|congruence].
Qed.
Lemma takes_CreateECCPrimaryKey : takes id CreateECCPrimaryKey.
Proof. apply takes_exec. intros v a v' (pub & _ & Ht & Hn & ->). eauto. Qed.
Lemma takes_CreateECCEncryptionKey p policy : takes snd (CreateECCEncryptionKey p policy).
Proof.
  unfold CreateECCEncryptionKey. apply takes_bind; [balance|]. intros [pub name].
  apply takes_bind; [balance; intros v [[[private public] hash] ticket] v' (o & n & _ & _ & _ & _ & _ & ->); done|].
  intros [[[private public] hash] ticket]. apply (takes_then fst); [done|].
  apply takes_exec. intros v a v' (t & o & _ & _ & Ht & Hn & ->). eauto.
Qed.
End operations.

(** ** The TPM in software *)

Section demo.
#[local] Existing Instances sim_sha sim_tpm2 sim_structs sim_rsa sim_device sim_effects sim_reliable sim_structs_laws.
#[local] Instance demo_sort : SliceSort := insertion_slice_sort.
#[local] Instance demo_order : RangeOrder := elements_order.

Lemma NVRAM_roundtrip_witness : ∃ d' : view,
  (_ ← MaybeClearNVIndex 7; _ ← WriteToNVRamNoAuth 7 [x01; x02; x03]; NVReadEXNoAuthorization 7) fresh_tpm = Some (Ok [x01; x02; x03], d') ∧
  nv_size <$> nvs d' !! 7 = Some 3.
Proof.
  destruct (NVRAM_roundtrip (on_P256:=sim_P256) 7 [x01; x02; x03] fresh_tpm) as (d' & E & Hv); [cbn; lia..|].
  exists d'. split; [exact E|]. change (view_of d') with d' in Hv. rewrite Hv. vm_compute. reflexivity.
Defined.

Lemma policy_digest_agrees_witness : ∃ digest d', GetTPMPCRPolicyDigest {[ 8 := [x01] ]} fresh_tpm = Some (Ok digest, d') ∧
  GetSoftwarePCRPolicyDigest {[ 8 := [x01] ]} = Ok digest.
Proof.
  destruct (policy_digest_agrees (on_P256:=sim_P256) {[ 8 := [x01] ]} fresh_tpm) as (digest & d' & E & Es & _); [vm_compute; lia|].
  by exists digest, d'.
Defined.
End demo.
