(* ===== verification/TpmHpke.v ===== *)
(** Package [tpm/hpke] ([hpke.go], [kem.go], [aead.go], [ecdhzgen_tpm.go]): the
    receiving side of HPKE with the Diffie-Hellman step on a TPM.  HKDF, the AEAD
    and the TPM are classes; the sending side is the reference. *)

From S2P Require Import Prelude Bytes GoLib TpmKeys.

(** ** Libraries *)

(** HKDF with SHA-256: [hkdf.Extract] of secret and salt and [hkdf.Expand] of key, info and length; without
    salt it is as if it were empty. *)
Class HkdfLib := {
  hkdf_Extract : list byte → list byte → list byte;
  hkdf_Expand : list byte → list byte → nat → list byte;
}.
Class HkdfLaws (K : HkdfLib) := {
  length_Expand prk info l : (l ≤ 255 * 32)%nat → length (hkdf_Expand prk info l) = l;
}.

(** AES-128 in Galois counter mode: nonce, text and associated data. *)
Class AeadLib := {
  aead : Type;
  aead_New : list byte → option aead;
  aead_Open : aead → list byte → list byte → list byte → option (list byte);
  aead_Seal : aead → list byte → list byte → list byte → list byte;
}.
Class AeadLaws (A : AeadLib) := {
  aead_New_key key : length key = 16%nat → is_Some (aead_New key);
  aead_Open_Seal a nonce pt aad : length nonce = 12%nat → aead_Open a nonce (aead_Seal a nonce pt aad) aad = Some pt;
}.

(** The suite of the package: KEM_P256_HKDF_SHA256, KDF_HKDF_SHA256, AEAD_AES128GCM. *)
Definition tpmSuite : Z * Z * Z := (16, 1, 1).
Definition KeySize : nat := 16.
Definition NonceSize : nat := 12.
Definition ExtractSize : nat := 32.
Definition modeID : byte := x00.
Definition versionLabel : string := "HPKE-v1".

Section hpke.
Context {KD : HkdfLib} {A : AeadLib} {K : KemLib}.

(** ** [ecdhzgen_tpm.go] *)

(** A point as its two coordinates. *)
Abbreviation TPMSECCPoint := (list byte * list byte)%type.
Definition ErrInvalidKEMSharedSecret {T} : result failure T := fail "hpke: invalid KEM shared secret".

(** Given the execution of the command by the TPM, and what is in its answer. *)
Definition ECDHZGen (Execute : TPMSECCPoint → option (option TPMSECCPoint)) (pubPoint : TPMSECCPoint) : result failure (list byte) :=
  OutPoint ← lib "failed to compute shared point" (Execute pubPoint);
  zPoint ← lib "failed to umarshal shared point" OutPoint;
  if be_val zPoint.1 =? 0 then ErrInvalidKEMSharedSecret else Ok zPoint.1.

(** ** [kem.go] *)

Definition ECDHZGenFunc : Type := TPMSECCPoint → result failure (list byte).

Definition sizeDH : nat := (256 + 7) / 8.
Definition hash_Size : nat := 32.

Definition kem_getSuiteID : list byte := string_bytes "KEM" ++ be_bytes 2 tpmSuite.1.1.

Definition kem_labeledExtract (salt label info : list byte) : list byte :=
  hkdf_Extract (string_bytes versionLabel ++ kem_getSuiteID ++ label ++ info) salt.
Definition kem_labeledExpand (prk label info : list byte) (l : nat) : list byte :=
  hkdf_Expand prk (be_bytes 2 (Z.of_nat l) ++ string_bytes versionLabel ++ kem_getSuiteID ++ label ++ info) l.

Definition extractExpand (dh kemCtx : list byte) : list byte :=
  let eaePkr := kem_labeledExtract [] (string_bytes "eae_prk") dh in
  kem_labeledExpand eaePkr (string_bytes "shared_secret") kemCtx hash_Size.

Definition calcDH (ecdhZGen : ECDHZGenFunc) (dh : list byte) (pubPoint : TPMSECCPoint) : result failure (list byte) :=
  b ← fwrap "failed calculate dh using ecdhzgen" (ecdhZGen pubPoint);
  match copy_right dh (length dh) b with Some dh => Ok dh | None => Err Panicked end.

(** [dh] and the context. *)
Definition coreDecap (ecdhZGen : ECDHZGenFunc) (dh : list byte) (pubKey : kem_key) (ct : list byte) :
    result failure (list byte * list byte) :=
  if (length ct <? 65)%nat || negb (bool_decide (head ct = Some x04)) then fail "expected ct in uncompressed SEC1 format"
  else
    let pubPoint := (take 32 (drop 1 ct), drop 33 ct) in
    dh ← calcDH ecdhZGen dh pubPoint;
    pkRm ← lib "kem" (Kem_MarshalBinary pubKey);
    Ok (dh, ct ++ pkRm).

Definition decapsulate (ecdhZGen : ECDHZGenFunc) (pubKey : kem_key) (ct : list byte) : result failure (list byte) :=
  '(dh, kemCtx) ← coreDecap ecdhZGen (replicate sizeDH x00) pubKey ct;
  Ok (extractExpand dh kemCtx).

(** ** [aead.go] *)

Record openContext := MkOpenContext {
  sharedSecret : list byte;
  secret : list byte;
  keyScheduleContext : list byte;
  exporterSecret : list byte;
  key : list byte;
  baseNonce : list byte;
  sequenceNumber : list byte;
  AEAD : aead;
  nonce : list byte;
}.
Definition with_nonce (c : openContext) (n : list byte) : openContext :=
  MkOpenContext (sharedSecret c) (secret c) (keyScheduleContext c) (exporterSecret c) (key c) (baseNonce c) (sequenceNumber c) (AEAD c) n.
Definition with_sequence (c : openContext) (s : list byte) : openContext :=
  MkOpenContext (sharedSecret c) (secret c) (keyScheduleContext c) (exporterSecret c) (key c) (baseNonce c) s (AEAD c) (nonce c).

Definition getSuiteID : list byte :=
  string_bytes "HPKE" ++ be_bytes 2 tpmSuite.1.1 ++ be_bytes 2 tpmSuite.1.2 ++ be_bytes 2 tpmSuite.2.

(** The same for the receiver and the context. *)
Definition labeledExpand (prk label info : list byte) (l : nat) : list byte :=
  hkdf_Expand prk (be_bytes 2 (Z.of_nat l) ++ string_bytes versionLabel ++ getSuiteID ++ label ++ info) l.

(** [None]: a panic. *)
Definition Export (c : openContext) (exporterContext : list byte) (l : nat) : option (list byte) :=
  let maxLength := (255 * ExtractSize)%nat in
  if (maxLength <? l)%nat then None
  else Some (labeledExpand (exporterSecret c) (string_bytes "sec") exporterContext l).

Definition xor_byte (a b : byte) : byte := byte_of (Z.lxor (byte_val a) (byte_val b)).

(** Into the buffer of the context; [None]: an index out of range. *)
Definition calcNonce (c : openContext) : option openContext :=
  let n := length (baseNonce c) in
  if (length (sequenceNumber c) <? n)%nat || (length (nonce c) <? n)%nat then None
  else Some (with_nonce c (zip_with xor_byte (baseNonce c) (sequenceNumber c) ++ drop n (nonce c))).

Definition ErrAEADSeqOverflows {T} : result failure T := fail "hpke: AEAD sequence number overflows".

(** From the last byte to the first, with the carry. *)
Fixpoint add_carry (l : list byte) (carry : Z) : list byte * Z :=
  match l with
  | [] => ([], carry)
  | b :: l =>
      let '(l, carry) := add_carry l carry in
      let sum := byte_val b + carry in
      (byte_of (Z.land sum 255) :: l, Z.shiftr sum 8)
  end.

Definition increment (c : openContext) : result failure unit * openContext :=
  let allOnes := foldl (λ a b, Z.land a (byte_val b)) 255 (sequenceNumber c) in
  if allOnes =? 255 then (ErrAEADSeqOverflows, c)
  else
    let '(s, carry) := add_carry (sequenceNumber c) 1 in
    let c := with_sequence c s in
    if negb (carry =? 0) then (ErrAEADSeqOverflows, c) else (Ok tt, c).

Definition Open (c : openContext) (ct aad : list byte) : result failure (list byte) * openContext :=
  match calcNonce c with
  | None => (Err Panicked, c)
  | Some c =>
      match aead_Open (AEAD c) (nonce c) ct aad with
      | None => (fail "cipher: message authentication failed", c)
      | Some pt => match increment c with (Err e, c) => (Err e, c) | (Ok _, c) => (Ok pt, c) end
      end
  end.

(** ** [hpke.go] *)

Record Receiver := MkReceiver { publicKey : kem_key; tpmKEM : ECDHZGenFunc; info : list byte }.
Definition NewReceiver (pubKey : kem_key) (info : list byte) (ecdhZGen : ECDHZGenFunc) : Receiver :=
  MkReceiver pubKey ecdhZGen info.

Definition labeledExtract (salt label ikm : list byte) : list byte :=
  hkdf_Extract (string_bytes versionLabel ++ getSuiteID ++ label ++ ikm) salt.

Definition keySchedule (ss info : list byte) : result failure openContext :=
  let pskIDHash := labeledExtract [] (string_bytes "psk_id_hash") [] in
  let infoHash := labeledExtract [] (string_bytes "info_hash") info in
  let keySchCtx := [modeID] ++ pskIDHash ++ infoHash in
  let secret := labeledExtract ss (string_bytes "secret") [] in
  let key := labeledExpand secret (string_bytes "key") keySchCtx KeySize in
  aead ← lib "aead" (aead_New key);
  let baseNonce := labeledExpand secret (string_bytes "base_nonce") keySchCtx NonceSize in
  let exporterSecret := labeledExpand secret (string_bytes "exp") keySchCtx ExtractSize in
  Ok (MkOpenContext ss secret keySchCtx exporterSecret key baseNonce (replicate NonceSize x00) aead (replicate NonceSize x00)).

Definition Setup (r : Receiver) (enc : list byte) : result failure openContext :=
  ss ← decapsulate (tpmKEM r) (publicKey r) enc;
  keySchedule ss (info r).

(** Messages opened one after the other, until one fails. *)
Fixpoint open_all (c : openContext) (ms : list (list byte * list byte)) : result failure (list (list byte)) * openContext :=
  match ms with
  | [] => (Ok [], c)
  | (ct, aad) :: ms =>
      match Open c ct aad with
      | (Err e, c) => (Err e, c)
      | (Ok pt, c) => match open_all c ms with (Err e, c) => (Err e, c) | (Ok pts, c) => (Ok (pt :: pts), c) end
      end
  end.
End hpke.

(** ** The sequence number and the nonces *)

Section counter.
Context {KD : HkdfLib} {A : AeadLib} {K : KemLib}.

Lemma add_carry_spec l carry l' carry' : 0 ≤ carry ≤ 1 → add_carry l carry = (l', carry') →
  length l' = length l ∧ 0 ≤ carry' ≤ 1 ∧ be_val l' + carry' * 256 ^ Z.of_nat (length l) = be_val l + carry.
Proof.
  intros Hc. induction l as [|b l IH] in l', carry' |- *; cbn [add_carry]; [intros [= <- <-]; change (256 ^ Z.of_nat (length (@nil byte))) with 1; lia|].
  destruct (add_carry l carry) as [l1 c1] eqn:E. intros [= <- <-]. destruct (IH _ _ eq_refl) as (Hlen & Hr & Hv).
  cbn [length]. split; [by rewrite Hlen|]. pose proof (byte_val_range b) as Hb. rewrite Z.shiftr_div_pow2 by lia. change (2 ^ 8) with 256.
  split; [split; [apply Z.div_pos; lia|]; enough ((byte_val b + c1) / 256 < 2) by lia; apply Z.div_lt_upper_bound; lia|].
  rewrite !be_val_cons, byte_val_of, Hlen. change 255 with (Z.ones 8). rewrite Z.land_ones by lia. change (2 ^ 8) with 256. rewrite Z.mod_mod by lia.
  rewrite Nat2Z.inj_succ, Z.pow_succ_r by lia. pose proof (Z.div_mod (byte_val b + c1) 256 ltac:(lia)). nia.
Qed.

Lemma land_ones_all l a : 0 ≤ a < 256 → foldl (λ a b, Z.land a (byte_val b)) a l = 255 ↔ a = 255 ∧ Forall (λ b, byte_val b = 255) l.
Proof.
  assert (∀ x y, 0 ≤ x < 256 → Z.land x y = 255 → x = 255) as Hl.
  { intros x y Hx Hxy. rewrite <- (Z.mod_small x (2 ^ 8)) by (change (2 ^ 8) with 256; lia). rewrite <- Z.land_ones by lia.
    change (Z.ones 8) with 255. by rewrite <- Hxy, Z.land_assoc, Z.land_diag. }
  assert (∀ x y, 0 ≤ x < 256 → 0 ≤ y < 256 → Z.land x y = 255 ↔ x = 255 ∧ y = 255) as Hand.
  { intros x y Hx Hy. split; [|by intros [-> ->]]. intros Hxy. split; [by eapply Hl|]. apply (Hl y x); [done|]. by rewrite Z.land_comm. }
  induction l as [|b l IH] in a |- *; intros Ha; cbn [foldl]; [split; [by split|by intros []]|].
  pose proof (byte_val_range b) as Hb. rewrite IH.
  - rewrite (Hand a (byte_val b)) by done. rewrite Forall_cons. tauto.
  - split; [apply Z.land_nonneg; lia|]. change 256 with (2 ^ 8). destruct (Z.eq_dec (Z.land a (byte_val b)) 0) as [->|]; [lia|].
    apply Z.log2_lt_pow2; [pose proof (proj2 (Z.land_nonneg a (byte_val b)) (or_introl (proj1 Ha))); lia|].
    eapply Z.le_lt_trans; [apply Z.log2_land; lia|]. apply Z.min_lt_iff. destruct (Z.eq_dec a 0) as [->|]; [left; cbn; lia|].
    left. apply Z.log2_lt_pow2; lia.
Qed.

Lemma all_ones l : Forall (λ b, byte_val b = 255) l ↔ be_val l = 256 ^ Z.of_nat (length l) - 1.
Proof.
  induction l as [|b l IH]; [by split|]. rewrite Forall_cons, IH, be_val_cons. cbn [length]. rewrite Nat2Z.inj_succ, Z.pow_succ_r by lia.
  pose proof (be_val_range l). pose proof (byte_val_range b). split; [intros [-> ->]; lia|]. intros Hv. nia.
Qed.

(** One step of the counter, up to its largest value. *)
Lemma increment_spec c : let n := 256 ^ Z.of_nat (length (sequenceNumber c)) in
  if be_val (sequenceNumber c) =? n - 1 then increment c = (ErrAEADSeqOverflows, c)
  else ∃ s, increment c = (Ok tt, with_sequence c s) ∧ length s = length (sequenceNumber c) ∧ be_val s = be_val (sequenceNumber c) + 1.
Proof.
  cbn zeta. unfold increment. pose proof (land_ones_all (sequenceNumber c) 255 ltac:(lia)) as Hall. rewrite all_ones in Hall.
  destruct (Z.eqb_spec (be_val (sequenceNumber c)) (256 ^ Z.of_nat (length (sequenceNumber c)) - 1)) as [He|He].
  - by rewrite (proj2 Hall (conj eq_refl He)).
  - rewrite (proj2 (Z.eqb_neq _ 255)) by naive_solver. destruct (add_carry _ 1) as [s carry] eqn:E.
    apply add_carry_spec in E as (Hlen & Hr & Hv); [|lia]. pose proof (be_val_range (sequenceNumber c)). pose proof (be_val_range s). rewrite Hlen in *.
    assert (carry = 0) as -> by nia. cbn [Z.eqb negb]. exists s. split_and!; [done..|lia].
Qed.

Lemma xor_byte_cancel a b : xor_byte a (xor_byte a b) = b.
Proof.
  apply byte_val_inj. unfold xor_byte. rewrite !byte_val_of. pose proof (byte_val_range b). change 256 with (2 ^ 8) in *.
  rewrite <- !Z.land_ones by lia. apply Z.bits_inj'. intros i Hi. rewrite !Z.land_spec, !Z.lxor_spec, !Z.land_spec, !Z.lxor_spec.
  rewrite Z.testbit_ones_nonneg by lia. destruct (Z.ltb_spec i 8).
  - by destruct (Z.testbit (byte_val a) i), (Z.testbit (byte_val b) i).
  - rewrite !andb_false_r. destruct (Z.eq_dec (byte_val b) 0) as [->|]; [by rewrite Z.bits_0|].
    rewrite Z.bits_above_log2; [done|lia|]. apply Z.lt_le_trans with 8; [|done]. apply Z.log2_lt_pow2; lia.
Qed.

Lemma xor_inj base s s' : length s = length base → length s' = length base →
  zip_with xor_byte base s = zip_with xor_byte base s' → s = s'.
Proof.
  induction base as [|b base IH] in s, s' |- *; destruct s as [|x s], s' as [|x' s']; try done; cbn. intros [=] [=] [= Hx Hs].
  f_equal; [|by apply IH]. by rewrite <- (xor_byte_cancel b x), Hx, xor_byte_cancel.
Qed.

(** *** Contexts *)

Definition context_wf (c : openContext) : Prop :=
  length (baseNonce c) = NonceSize ∧ length (sequenceNumber c) = NonceSize ∧ length (nonce c) = NonceSize.
Definition next_nonce (c : openContext) : list byte := zip_with xor_byte (baseNonce c) (sequenceNumber c).

Lemma calcNonce_wf c : context_wf c → calcNonce c = Some (with_nonce c (next_nonce c)).
Proof.
  intros (Hb & Hs & Hn). unfold calcNonce. rewrite Hb, Hs, Hn. cbn [Nat.ltb Nat.leb orb NonceSize].
  by rewrite drop_ge, app_nil_r by (rewrite Hn; done).
Qed.

(** Opening: what failed leaves the sequence number, what succeeds counts it up and
    used the nonce that is then in the buffer. *)
Lemma Open_spec c ct aad r c' : context_wf c → Open c ct aad = (r, c') →
  context_wf c' ∧ baseNonce c' = baseNonce c ∧ AEAD c' = AEAD c ∧ exporterSecret c' = exporterSecret c ∧ nonce c' = next_nonce c ∧
  (if is_ok r then be_val (sequenceNumber c') = be_val (sequenceNumber c) + 1 ∧ be_val (sequenceNumber c) < 256 ^ 12 - 1
   else sequenceNumber c' = sequenceNumber c).
Proof.
  intros Hwf. pose proof Hwf as (Hb & Hs & Hn). unfold Open. rewrite (calcNonce_wf _ Hwf). cbn [nonce AEAD with_nonce].
  assert (length (next_nonce c) = NonceSize) as Hl by (unfold next_nonce; rewrite length_zip_with, Hb, Hs; done).
  assert (context_wf (with_nonce c (next_nonce c))) as Hwf' by done.
  destruct (aead_Open _ _ _ _) as [pt|]; [|intros [= <- <-]; by split_and!].
  pose proof (increment_spec (with_nonce c (next_nonce c))) as Hi. cbn zeta in Hi. cbn [sequenceNumber with_nonce] in Hi. rewrite Hs in Hi.
  change (256 ^ Z.of_nat NonceSize) with (256 ^ 12) in Hi.
  destruct (Z.eqb_spec (be_val (sequenceNumber c)) (256 ^ 12 - 1)) as [He|He].
  - rewrite Hi. intros [= <- <-]. by split_and!.
  - destruct Hi as (s & -> & Hls & Hv). intros [= <- <-]. pose proof (be_val_range (sequenceNumber c)) as Hr. rewrite Hs in Hr.
    change (256 ^ Z.of_nat NonceSize) with (256 ^ 12) in Hr. cbn [is_ok]. split_and!; try done; try lia.
Qed.

Lemma keySchedule_wf {KL : HkdfLaws KD} ss info c : keySchedule ss info = Ok c →
  context_wf c ∧ sequenceNumber c = replicate NonceSize x00.
Proof.
  unfold keySchedule. intros Hk. ok_steps. unfold context_wf. cbn [baseNonce sequenceNumber nonce].
  unfold labeledExpand. rewrite length_Expand by (by apply Nat.leb_le). done.
Qed.

(** Attempts to open, with the nonces of those that succeeded. *)
Fixpoint attempts (c : openContext) (ms : list (list byte * list byte)) : list (list byte) * openContext :=
  match ms with
  | [] => ([], c)
  | (ct, aad) :: ms =>
      let '(r, c') := Open c ct aad in
      let '(ns, c'') := attempts c' ms in
      (if is_ok r then nonce c' :: ns else ns, c'')
  end.

Lemma attempts_spec ms c ns c' : context_wf c → attempts c ms = (ns, c') →
  context_wf c' ∧ be_val (sequenceNumber c') = be_val (sequenceNumber c) + Z.of_nat (length ns) ∧ NoDup ns ∧
  ∀ n, n ∈ ns → ∃ s, length s = NonceSize ∧ be_val (sequenceNumber c) ≤ be_val s ∧ n = zip_with xor_byte (baseNonce c) s.
Proof.
  induction ms as [|[ct aad] ms IH] in c, ns, c' |- *; intros Hwf; cbn [attempts].
  - intros [= <- <-]. split_and!; [done|cbn; lia|constructor|by intros n ?%not_elem_of_nil].
  - destruct (Open c ct aad) as [r c1] eqn:E. destruct (attempts c1 ms) as [ns1 c2] eqn:E2. intros [= <- <-].
    destruct (Open_spec _ _ _ _ _ Hwf E) as (Hwf1 & Hb & _ & _ & Hn & Hs). destruct (IH _ _ _ Hwf1 E2) as (Hwf2 & Hv & Hnd & Hall).
    rewrite Hb in Hall. pose proof Hwf as (Lb & Ls & _). destruct (is_ok r).
    + destruct Hs as [Hs _]. cbn [length]. split_and!; [done|lia| |].
      * constructor; [|done]. intros (s & Hls & Hle & Heq)%Hall. rewrite Hn in Heq. apply xor_inj in Heq; [subst; lia|congruence..].
      * intros n [->|Hin]%elem_of_cons; [exists (sequenceNumber c); by rewrite Hn|]. destruct (Hall n Hin) as (s & ? & ? & ?).
        exists s. split_and!; [done|lia|done].
    + rewrite Hs in *. done.
Qed.
End counter.

(** ** The sender of RFC 9180, in base mode *)

Section sender.
Context {KD : HkdfLib} {A : AeadLib}.

Definition I2OSP (n : Z) (w : nat) : list byte := be_bytes w n.
Definition LabeledExtract (suite_id salt : list byte) (label : string) (ikm : list byte) : list byte :=
  hkdf_Extract (string_bytes "HPKE-v1" ++ suite_id ++ string_bytes label ++ ikm) salt.
Definition LabeledExpand (suite_id prk : list byte) (label : string) (info : list byte) (L : nat) : list byte :=
  hkdf_Expand prk (I2OSP (Z.of_nat L) 2 ++ string_bytes "HPKE-v1" ++ suite_id ++ string_bytes label ++ info) L.

(** DHKEM(P-256, HKDF-SHA256) is 0x0010, HKDF-SHA256 0x0001, AES-128-GCM 0x0001. *)
Definition kem_suite_id : list byte := [x4b; x45; x4d; x00; x10].
Definition suite_id : list byte := [x48; x50; x4b; x45; x00; x10; x00; x01; x00; x01].

Definition ExtractAndExpand (dh kem_context : list byte) : list byte :=
  LabeledExpand kem_suite_id (LabeledExtract kem_suite_id [] "eae_prk" dh) "shared_secret" kem_context 32.

Record sender := MkSender { s_key : list byte; s_base_nonce : list byte; s_exporter_secret : list byte }.
Definition KeyScheduleS (shared_secret info : list byte) : sender :=
  let context := x00 :: LabeledExtract suite_id [] "psk_id_hash" [] ++ LabeledExtract suite_id [] "info_hash" info in
  let secret := LabeledExtract suite_id shared_secret "secret" [] in
  MkSender (LabeledExpand suite_id secret "key" context 16) (LabeledExpand suite_id secret "base_nonce" context 12)
    (LabeledExpand suite_id secret "exp" context 32).

(** The shared value of both sides as 32 bytes, the encapsulated key, and the
    receiver's public key, serialised. *)
Definition SetupBaseS (dh enc pkRm info : list byte) : sender := KeyScheduleS (ExtractAndExpand dh (enc ++ pkRm)) info.

Definition ComputeNonce (s : sender) (seq : Z) : list byte := zip_with xor_byte (s_base_nonce s) (I2OSP seq 12).
Fixpoint seal_all (s : sender) (a : aead) (seq : Z) (ms : list (list byte * list byte)) : list (list byte * list byte) :=
  match ms with
  | [] => []
  | (pt, aad) :: ms => (aead_Seal a (ComputeNonce s seq) pt aad, aad) :: seal_all s a (seq + 1) ms
  end.
Definition ExportS (s : sender) (exporter_context : list byte) (L : nat) : list byte :=
  LabeledExpand suite_id (s_exporter_secret s) "sec" exporter_context L.

(** The receiver's context belongs to the sender's. *)
Definition agrees (c : openContext) (s : sender) (seq : Z) : Prop :=
  context_wf c ∧ aead_New (s_key s) = Some (AEAD c) ∧ baseNonce c = s_base_nonce s ∧ exporterSecret c = s_exporter_secret s ∧
  be_val (sequenceNumber c) = seq.

Lemma next_nonce_agrees c s seq : agrees c s seq → next_nonce c = ComputeNonce s seq.
Proof.
  intros ((_ & Hs & _) & _ & Hb & _ & <-). unfold next_nonce, ComputeNonce, I2OSP. rewrite Hb. f_equal.
  change 12%nat with NonceSize. by rewrite <- Hs, be_bytes_val.
Qed.

Lemma open_sealed {AL : AeadLaws A} c s seq ms : agrees c s seq → seq + Z.of_nat (length ms) < 256 ^ 12 →
  ∃ c', open_all c (seal_all s (AEAD c) seq ms) = (Ok ms.*1, c') ∧ agrees c' s (seq + Z.of_nat (length ms)).
Proof.
  induction ms as [|[pt aad] ms IH] in c, seq |- *; intros Ha Hlt; cbn [seal_all open_all].
  - exists c. cbn [length fmap list_fmap]. by rewrite Z.add_0_r.
  - pose proof Ha as (Hwf & Hk & Hb & He & Hv). cbn [length] in Hlt. pose proof (next_nonce_agrees _ _ _ Ha) as Hn.
    destruct (Open c _ aad) as [r c1] eqn:E. pose proof (Open_spec _ _ _ _ _ Hwf E) as (Hwf1 & Hb1 & Ha1 & He1 & _ & Hs1).
    assert (r = Ok pt) as ->.
    { unfold Open in E. rewrite (calcNonce_wf _ Hwf) in E. cbn [nonce AEAD with_nonce] in E. rewrite Hn, aead_Open_Seal in E.
      2:{ rewrite <- Hn. unfold next_nonce. rewrite length_zip_with. destruct Hwf as (-> & -> & _). done. }
      pose proof (increment_spec (with_nonce c (ComputeNonce s seq))) as Hi. cbn zeta in Hi. cbn [sequenceNumber with_nonce] in Hi.
      destruct Hwf as (_ & Hls & _). rewrite Hls in Hi. change (256 ^ Z.of_nat NonceSize) with (256 ^ 12) in Hi.
      rewrite (proj2 (Z.eqb_neq _ _)) in Hi by lia. destruct Hi as (? & Hi & _). rewrite Hi in E. by injection E as <- _. }
    cbn [is_ok] in Hs1. destruct (IH c1 (seq + 1)) as (c' & Ho & Ha'); [|lia|].
    { split; [exact Hwf1|]. split_and!; try congruence. destruct Hs1. lia. }
    rewrite Ha1 in Ho. rewrite Ho. exists c'. split; [done|]. cbn [length]. by replace (seq + Z.of_nat (Datatypes.S (length ms))) with (seq + 1 + Z.of_nat (length ms)) by lia.
Qed.

Lemma keySchedule_agrees {KL : HkdfLaws KD} {AL : AeadLaws A} ss info :
  ∃ c, keySchedule ss info = Ok c ∧ agrees c (KeyScheduleS ss info) 0.
Proof.
  destruct (aead_New_key (s_key (KeyScheduleS ss info))) as [a Ha]; [apply length_Expand; by apply Nat.leb_le|].
  unfold keySchedule. change (labeledExpand _ (string_bytes "key") _ KeySize) with (s_key (KeyScheduleS ss info)). rewrite Ha.
  eexists. split; [done|]. split_and!; try done. split_and!; [apply length_Expand; by apply Nat.leb_le|done..].
Qed.
End sender.

Lemma point_of (X Y : list byte) : length X = 32%nat →
  (take 32 (drop 1 (x04 :: X ++ Y)), drop 33 (x04 :: X ++ Y)) = (X, Y).
Proof.
  intros HX. change (drop 33 (x04 :: X ++ Y)) with (drop 32 (X ++ Y)). change (drop 1 (x04 :: X ++ Y)) with (X ++ Y).
  f_equal; [by apply take_app_length'|by apply drop_app_length'].
Qed.

Lemma decapsulate_shared {KD : HkdfLib} {A : AeadLib} {K : KemLib} ecdhZGen pubKey b pk X Y :
  length X = 32%nat → length Y = 32%nat → ecdhZGen (X, Y) = Ok b → (length b ≤ 32)%nat → Kem_MarshalBinary pubKey = Some pk →
  decapsulate ecdhZGen pubKey (x04 :: X ++ Y) = Ok (ExtractAndExpand (replicate (32 - length b) x00 ++ b) ((x04 :: X ++ Y) ++ pk)).
Proof.
  intros HX HY Hz Hb Hpk. unfold decapsulate, coreDecap. rewrite (point_of X Y HX). cbn [length head]. rewrite length_app, HX, HY. rewrite bool_decide_true by done.
  cbn [negb orb Nat.ltb Nat.leb plus]. unfold calcDH. rewrite Hz.
  cbn [fwrap wrap_err mbind result_bind]. unfold copy_right. change (length (replicate sizeDH x00)) with 32%nat.
  rewrite (proj2 (Nat.ltb_ge _ _) Hb). cbn [mbind result_bind]. rewrite Hpk. cbn [lib mbind result_bind]. change sizeDH with 32%nat.
  rewrite take_replicate, Nat.min_l by lia. rewrite drop_ge by done. by rewrite app_nil_r.
Qed.

(** C6. The receiver with its TPM speaks HPKE.  For the encapsulated key of a sender
    whose Diffie-Hellman value the TPM computes, with leading zeros or without, the
    receiver sets up, opens in order whatever messages a sender that follows RFC
    9180 sealed for its public key and information, up to 2^96 - 1 of them, and
    exports the same secrets. *)
Theorem hpke_receiver_opens {KD : HkdfLib} {KL : HkdfLaws KD} {A : AeadLib} {AL : AeadLaws A} {K : KemLib} r b pk X Y ms :
  length X = 32%nat → length Y = 32%nat → tpmKEM r (X, Y) = Ok b → (length b ≤ 32)%nat →
  Kem_MarshalBinary (publicKey r) = Some pk → Z.of_nat (length ms) < 256 ^ 12 →
  let enc := x04 :: X ++ Y in
  let s := SetupBaseS (replicate (32 - length b) x00 ++ b) enc pk (info r) in
  ∃ a c c', aead_New (s_key s) = Some a ∧ Setup r enc = Ok c ∧ open_all c (seal_all s a 0 ms) = (Ok ms.*1, c') ∧
    ∀ context l, (l ≤ 255 * 32)%nat → Export c' context l = Some (ExportS s context l).
Proof.
  intros HX HY Hz Hb Hpk Hms enc s. unfold Setup. rewrite (decapsulate_shared _ _ _ _ _ _ HX HY Hz Hb Hpk). cbn [mbind result_bind].
  destruct (keySchedule_agrees (ExtractAndExpand (replicate (32 - length b) x00 ++ b) (enc ++ pk)) (info r)) as (c & Hc & Ha).
  fold (SetupBaseS (replicate (32 - length b) x00 ++ b) enc pk (info r)) in Ha. fold s in Ha.
  destruct (open_sealed c s 0 ms Ha Hms) as (c' & Ho & (_ & _ & _ & He & _)). exists (AEAD c), c, c'. pose proof Ha as (_ & Hk & _).
  split_and!; [done..|]. intros context l Hl. unfold Export. change (255 * ExtractSize)%nat with (255 * 32)%nat.
  by rewrite (proj2 (Nat.ltb_ge _ _) Hl), He.
Qed.

(** No nonce is used twice.  Whatever an established receiver is given to open,
    in whatever order and whether it opens or not, the messages it opened had
    different nonces, the counter has gone up by their number and by nothing else,
    and there are fewer than 2^96 of them. *)
Theorem opened_nonces_distinct {KD : HkdfLib} {KL : HkdfLaws KD} {A : AeadLib} {K : KemLib} r enc c ms ns c' :
  Setup r enc = Ok c → attempts c ms = (ns, c') →
  NoDup ns ∧ be_val (sequenceNumber c') = Z.of_nat (length ns) ∧ Z.of_nat (length ns) < 2 ^ 96.
Proof.
  unfold Setup. intros Hs Ha. apply result_bind_ok in Hs as (ss & _ & [Hwf Hz]%keySchedule_wf).
  destruct (attempts_spec _ _ _ _ Hwf Ha) as ((_ & Hl & _) & Hv & Hnd & _). rewrite Hz in Hv. change (be_val (replicate NonceSize x00)) with 0 in Hv.
  pose proof (be_val_range (sequenceNumber c')) as Hr. rewrite Hl in Hr. change (256 ^ Z.of_nat NonceSize) with (2 ^ 96) in Hr. split_and!; [done|lia..].
Qed.

(** A TPM that answers with more than 32 bytes makes the receiver panic; a key of
    more than 65 bytes passes the check and reaches the TPM. *)
Lemma long_answer_panics {KD : HkdfLib} {A : AeadLib} {K : KemLib} r X Y b :
  length X = 32%nat → (32 ≤ length Y)%nat → tpmKEM r (X, Y) = Ok b → (32 < length b)%nat → Setup r (x04 :: X ++ Y) = Err Panicked.
Proof.
  intros HX HY Hz Hb. unfold Setup, decapsulate, coreDecap. rewrite (point_of X Y HX). cbn [length head]. rewrite length_app, HX. rewrite bool_decide_true by done.
  rewrite (proj2 (Nat.ltb_ge _ _)) by lia. cbn [negb orb]. unfold calcDH. rewrite Hz.
  cbn [fwrap wrap_err mbind result_bind]. unfold copy_right. change (length (replicate sizeDH x00)) with 32%nat.
  by rewrite (proj2 (Nat.ltb_lt _ _) Hb).
Qed.

(** ** A receiver at work *)

(** The nonce in clear in front of the text. *)
Definition toy_hkdf : HkdfLib :=
  {| hkdf_Extract ikm salt := be_bytes 32 (be_val (salt ++ ikm)); hkdf_Expand prk info l := be_bytes l (be_val (prk ++ info)) |}.
Lemma toy_hkdf_laws : HkdfLaws toy_hkdf.
Proof. constructor. intros. apply length_be_bytes. Qed.
Definition toy_aead : AeadLib := {|
  aead := list byte;
  aead_New key := if (length key =? 16)%nat then Some key else None;
  aead_Open a nonce ct aad := if bool_decide (take 12 ct = nonce) then Some (drop 12 ct) else None;
  aead_Seal a nonce pt aad := nonce ++ pt;
|}.
Lemma toy_aead_laws : AeadLaws toy_aead.
Proof.
  constructor; cbn.
  - intros key ->. cbn. eauto.
  - intros a nonce pt aad Hn. rewrite take_app_length', drop_app_length' by done. by rewrite bool_decide_true.
Qed.

Section demo.
#[local] Instance demo_hkdf : HkdfLib := toy_hkdf.
#[local] Instance demo_hkdf_laws : HkdfLaws demo_hkdf := toy_hkdf_laws.
#[local] Instance demo_aead : AeadLib := toy_aead.
#[local] Instance demo_aead_laws : AeadLaws demo_aead := toy_aead_laws.
#[local] Instance demo_kem : KemLib := {| kem_key := byte; Kem_UnmarshalBinaryPublicKey b := head b; Kem_MarshalBinary k := Some [k] |}.

Definition demo_X : list byte := be_bytes 32 5.
Definition demo_Y : list byte := be_bytes 32 9.
(** The value without leading zeros. *)
Definition demo_tpm : ECDHZGenFunc := ECDHZGen (λ p, Some (Some (big_bytes (be_val p.1 * 7), []))).
Definition demo_receiver : Receiver := NewReceiver x2a [x01] demo_tpm.
Definition demo_enc : list byte := x04 :: demo_X ++ demo_Y.
Definition demo_sender : sender := SetupBaseS (be_bytes 32 35) demo_enc [x2a] [x01].
Definition demo_messages : list (list byte * list byte) := [([x61; x62], []); ([], [x63]); ([x64], [x65])].

Lemma hpke_receiver_opens_witness : ∃ a c c', aead_New (s_key demo_sender) = Some a ∧ Setup demo_receiver demo_enc = Ok c ∧
  open_all c (seal_all demo_sender a 0 demo_messages) = (Ok demo_messages.*1, c').
Proof.
  destruct (hpke_receiver_opens demo_receiver [x23] [x2a] demo_X demo_Y demo_messages) as (a & c & c' & Ha & Hc & Ho & _);
    [reflexivity..|cbn; lia|reflexivity|reflexivity|]. by exists a, c, c'.
Defined.

(** The second message fails the first time, and is skipped. *)
Definition demo_attempts : list (list byte * list byte) :=
  let sealed := seal_all demo_sender (s_key demo_sender) 0 demo_messages in
  take 1 sealed ++ [([x00], [])] ++ drop 1 sealed ++ take 1 sealed.
Definition demo_context : openContext := match Setup demo_receiver demo_enc with Ok c => c | Err _ =>
  MkOpenContext [] [] [] [] [] [] [] (s_key demo_sender) [] end.

Lemma demo_context_ok : Setup demo_receiver demo_enc = Ok demo_context.
Proof. vm_compute. reflexivity. Qed.
Lemma demo_opened : length (attempts demo_context demo_attempts).1 = 3%nat.
Proof. vm_compute. reflexivity. Qed.

Lemma opened_nonces_distinct_witness : length (attempts demo_context demo_attempts).1 = 3%nat ∧
  NoDup (attempts demo_context demo_attempts).1.
Proof.
  split; [exact demo_opened|]. destruct (attempts demo_context demo_attempts) as [ns c'] eqn:E.
  exact (proj1 (opened_nonces_distinct _ _ _ _ _ _ demo_context_ok E)).
Defined.
End demo.
