(* ===== verification/Evidence.v ===== *)
(** Package [attestation/evidence] ([evidence.go]): typed, signed pieces of
    attestation evidence, their protobuf and JWT forms, PCR values, TPM quotes
    and the TDX collateral. *)

From Stdlib Require Import Strings.Ascii.
From Stdlib Require Strings.String.
From S2P Require Import Prelude Bytes Base64 GoLib.

(** ** Evidence types *)

Inductive EvidenceType :=
| EvidenceTypeUnspecified
| CertifyRekCreation
| GceAkCertificate
| GceAkIntermediateCertificate
| TpmtPublic
| SevSnpReport
| TdxReport
| NvidiaETA
| NvidiaCCIntermediateCertificate
| AzureAkCertificate
| EventLog
| ImageSigstoreBundle
| TpmQuote
| TdxCollateral
| NvidiaSwitchETA
| NvidiaSwitchIntermediateCertificate.

#[global] Instance EvidenceType_eq_dec : EqDecision EvidenceType.
Proof. solve_decision. Defined.

(** The generated enum; [EVIDENCE_TYPE_OTHER] is any number it does not name. *)
Inductive PbEvidenceType :=
| EVIDENCE_TYPE_UNSPECIFIED
| EVIDENCE_TYPE_TPM_CERTIFY_REK_CREATION
| EVIDENCE_TYPE_GCE_AK_CERTIFICATE
| EVIDENCE_TYPE_TPMT_PUBLIC
| EVIDENCE_TYPE_SEVSNP_REPORT
| EVIDENCE_TYPE_TDX_REPORT
| EVIDENCE_TYPE_NVIDIA_ETA
| EVIDENCE_TYPE_GCE_AK_INTERMEDIATE_CERTIFICATE
| EVIDENCE_TYPE_NVIDIA_INTERMEDIATE_CERTIFICATE
| EVIDENCE_TYPE_AZURE_AK_CERTIFICATE
| EVIDENCE_TYPE_EVENT_LOG
| EVIDENCE_TYPE_TPM_QUOTE
| EVIDENCE_TYPE_IMAGE_SIGSTORE_BUNDLE
| EVIDENCE_TYPE_TDX_COLLATERAL
| EVIDENCE_TYPE_NVIDIA_SWITCH_ETA
| EVIDENCE_TYPE_NVIDIA_SWITCH_INTERMEDIATE_CERTIFICATE
| EVIDENCE_TYPE_OTHER (n : Z).

Definition EvidenceType_String (s : EvidenceType) : string :=
  match s with
  | CertifyRekCreation => "CertifyRekCreation"
  | GceAkCertificate => "GceAkCertificate"
  | GceAkIntermediateCertificate => "GceAkIntermediateCertificate"
  | TpmtPublic => "TpmtPublic"
  | SevSnpReport => "SevSnpReport"
  | TdxReport => "TdxReport"
  | NvidiaETA => "NvidiaETA"
  | NvidiaCCIntermediateCertificate => "NvidiaCCIntermediateCertificate"
  | AzureAkCertificate => "AzureAkCertificate"
  | EventLog => "EventLog"
  | ImageSigstoreBundle => "ImageSigstoreBundle"
  | TpmQuote => "TpmQuote"
  | TdxCollateral => "TdxCollateral"
  | NvidiaSwitchETA => "NvidiaSwitchETA"
  | NvidiaSwitchIntermediateCertificate => "NvidiaSwitchIntermediateCertificate"
  | EvidenceTypeUnspecified => "EvidenceTypeUnspecified"
  end.

Definition EvidenceType_MarshalProto (s : EvidenceType) : PbEvidenceType :=
  match s with
  | CertifyRekCreation => EVIDENCE_TYPE_TPM_CERTIFY_REK_CREATION
  | GceAkCertificate => EVIDENCE_TYPE_GCE_AK_CERTIFICATE
  | TpmtPublic => EVIDENCE_TYPE_TPMT_PUBLIC
  | SevSnpReport => EVIDENCE_TYPE_SEVSNP_REPORT
  | TdxReport => EVIDENCE_TYPE_TDX_REPORT
  | NvidiaETA => EVIDENCE_TYPE_NVIDIA_ETA
  | GceAkIntermediateCertificate => EVIDENCE_TYPE_GCE_AK_INTERMEDIATE_CERTIFICATE
  | NvidiaCCIntermediateCertificate => EVIDENCE_TYPE_NVIDIA_INTERMEDIATE_CERTIFICATE
  | AzureAkCertificate => EVIDENCE_TYPE_AZURE_AK_CERTIFICATE
  | EventLog => EVIDENCE_TYPE_EVENT_LOG
  | TpmQuote => EVIDENCE_TYPE_TPM_QUOTE
  | ImageSigstoreBundle => EVIDENCE_TYPE_IMAGE_SIGSTORE_BUNDLE
  | TdxCollateral => EVIDENCE_TYPE_TDX_COLLATERAL
  | NvidiaSwitchETA => EVIDENCE_TYPE_NVIDIA_SWITCH_ETA
  | NvidiaSwitchIntermediateCertificate => EVIDENCE_TYPE_NVIDIA_SWITCH_INTERMEDIATE_CERTIFICATE
  | EvidenceTypeUnspecified => EVIDENCE_TYPE_UNSPECIFIED
  end.

(** The error is always [nil]. *)
Definition EvidenceType_UnmarshalProto (pbt : PbEvidenceType) : EvidenceType :=
  match pbt with
  | EVIDENCE_TYPE_TPM_CERTIFY_REK_CREATION => CertifyRekCreation
  | EVIDENCE_TYPE_GCE_AK_CERTIFICATE => GceAkCertificate
  | EVIDENCE_TYPE_TPMT_PUBLIC => TpmtPublic
  | EVIDENCE_TYPE_SEVSNP_REPORT => SevSnpReport
  | EVIDENCE_TYPE_TDX_REPORT => TdxReport
  | EVIDENCE_TYPE_NVIDIA_ETA => NvidiaETA
  | EVIDENCE_TYPE_GCE_AK_INTERMEDIATE_CERTIFICATE => GceAkIntermediateCertificate
  | EVIDENCE_TYPE_NVIDIA_INTERMEDIATE_CERTIFICATE => NvidiaCCIntermediateCertificate
  | EVIDENCE_TYPE_AZURE_AK_CERTIFICATE => AzureAkCertificate
  | EVIDENCE_TYPE_EVENT_LOG => EventLog
  | EVIDENCE_TYPE_TPM_QUOTE => TpmQuote
  | EVIDENCE_TYPE_IMAGE_SIGSTORE_BUNDLE => ImageSigstoreBundle
  | EVIDENCE_TYPE_TDX_COLLATERAL => TdxCollateral
  | EVIDENCE_TYPE_NVIDIA_SWITCH_ETA => NvidiaSwitchETA
  | EVIDENCE_TYPE_NVIDIA_SWITCH_INTERMEDIATE_CERTIFICATE => NvidiaSwitchIntermediateCertificate
  | EVIDENCE_TYPE_UNSPECIFIED | EVIDENCE_TYPE_OTHER _ => EvidenceTypeUnspecified
  end.

(** ** Signed pieces *)

Record SignedEvidencePiece := MkPiece {
  Type_ : EvidenceType;
  Data : list byte;
  Signature : list byte;
}.
#[global] Instance SignedEvidencePiece_eq_dec : EqDecision SignedEvidencePiece.
Proof. solve_decision. Defined.

Record PbSignedEvidencePiece := MkPbPiece {
  pb_type : PbEvidenceType;
  pb_data : list byte;
  pb_signature : list byte;
}.

Definition Piece_MarshalProto (se : SignedEvidencePiece) : PbSignedEvidencePiece :=
  MkPbPiece (EvidenceType_MarshalProto (Type_ se)) (Data se) (Signature se).

Definition Piece_UnmarshalProto (pbsep : PbSignedEvidencePiece) : result goerror SignedEvidencePiece :=
  let t := EvidenceType_UnmarshalProto (pb_type pbsep) in
  Ok (MkPiece t (pb_data pbsep) (pb_signature pbsep)).

Abbreviation SignedEvidenceList := (list SignedEvidencePiece).
Abbreviation PbSignedEvidenceList := (list PbSignedEvidencePiece).

Definition List_MarshalProto (s : SignedEvidenceList) : PbSignedEvidenceList := Piece_MarshalProto <$> s.

Fixpoint List_UnmarshalProto (items : PbSignedEvidenceList) : result goerror SignedEvidenceList :=
  match items with
  | [] => Ok []
  | item :: items =>
      sep ← wrap_err (ErrorWrap "failed to unmarshal signed evidence piece") (Piece_UnmarshalProto item);
      rest ← List_UnmarshalProto items;
      Ok (sep :: rest)
  end.

Section list_binary.
Context {W : ProtoWire PbSignedEvidenceList}.
Definition List_MarshalBinary (s : SignedEvidenceList) : result goerror (list byte) :=
  marshal_message (List_MarshalProto s).
Definition List_UnmarshalBinary (data : list byte) : result goerror SignedEvidenceList :=
  pbsel ← unmarshal_message data; List_UnmarshalProto pbsel.
End list_binary.

(** ** JSON web tokens *)

(** [strings.Split(s, string(c))] *)
Fixpoint Split (c : ascii) (s : string) : list string :=
  match s with
  | EmptyString => [EmptyString]
  | String d s =>
      if bool_decide (d = c) then EmptyString :: Split c s
      else match Split c s with
           | part :: parts => String d part :: parts
           | [] => [String d EmptyString]
           end
  end.

Definition dot : ascii := "."%char.

Definition SignedEvidencePieceFromJWT (token : option string) (evidenceType : EvidenceType) :
    result goerror SignedEvidencePiece :=
  match token with
  | None => Err (ErrorNew "token is nil")
  | Some raw =>
      match Split dot raw with
      | [part0; part1; part2] =>
          let content := String.list_byte_of_string (String.append part0 (String dot part1)) in
          match DecodeString RawURLEncoding part2 with
          | None => Err (ErrorWrap "invalid signature" (ErrorNew "illegal base64 data"))
          | Some sig => Ok (MkPiece evidenceType content sig)
          end
      | _ => Err (ErrorNew "invalid token format")
      end
  end.

Definition jwtBase64Encode (seg : list byte) : string := EncodeToString RawURLEncoding seg.

Definition ToJWT (se : SignedEvidencePiece) : string :=
  String.append (String.string_of_list_byte (Data se)) (String dot (jwtBase64Encode (Signature se))).

(** ** PCR values and TPM quotes *)

Abbreviation PCRValues := (gmap Z (list byte)).

Definition PCRValues_MarshalProto (p : PCRValues) : gmap Z (list byte) := p.
Definition PCRValues_UnmarshalProto (pbpcr : gmap Z (list byte)) : PCRValues := pbpcr.

Record MeasurementRegister := MkMR { Index : Z; Digest : list byte }.

Definition ToMRs {R : RangeOrder} (p : PCRValues) : list MeasurementRegister :=
  (λ kv, MkMR kv.1 kv.2) <$> range_map p.

Record TPMQuoteAttestation := MkQuote {
  TmpstAttestQuote : list byte;
  quote_PCRValues : option PCRValues;
}.
Record PbTPMQuoteAttestation := MkPbQuote {
  pb_tpmst_attest_quote : list byte;
  pb_pcr_values : option (gmap Z (list byte));
}.

Definition Quote_MarshalProto (tqa : TPMQuoteAttestation) : PbTPMQuoteAttestation :=
  MkPbQuote (TmpstAttestQuote tqa) (PCRValues_MarshalProto <$> quote_PCRValues tqa).

(** The receiver keeps its PCR values when the message has none. *)
Definition Quote_UnmarshalProto (tqa : TPMQuoteAttestation) (pbtqa : PbTPMQuoteAttestation) :
    result goerror TPMQuoteAttestation :=
  match pb_pcr_values pbtqa with
  | Some pbpcr => Ok (MkQuote (pb_tpmst_attest_quote pbtqa) (Some (PCRValues_UnmarshalProto pbpcr)))
  | None => Ok (MkQuote (pb_tpmst_attest_quote pbtqa) (quote_PCRValues tqa))
  end.

(** ** TDX collateral *)

(** [crypto/x509]: parsing certificates, and the bytes a parsed one came from *)
Class X509Lib := {
  certificate : Type;
  Raw : certificate → list byte;
  ParseCertificate : list byte → option certificate;
}.
Class X509Laws (X : X509Lib) := {
  ParseCertificate_Raw c : ParseCertificate (Raw c) = Some c;
  Raw_nonempty c : Raw c ≠ [];
}.

Abbreviation Headers := (gmap string (list string)).

Section collateral.
Context {X : X509Lib} {R : RangeOrder}.

Definition ToResponseHeaders (goMap : Headers) : list (string * list string) := range_map goMap.
Definition FromResponseHeaders (entries : list (string * list string)) : Headers :=
  foldl (λ result entry, <[entry.1 := entry.2]> result) ∅ entries.

Record TDXCollateral := MkCollateral {
  RootCrlBody : list byte;
  RootCrlHeaders : Headers;
  PckCrlBody : list byte;
  PckCrlHeaders : Headers;
  PckCrlRootCertificate : option certificate;
  PckCrlIntermediateCertificate : option certificate;
  QeBody : list byte;
  QeHeaders : Headers;
  QeRootCertificate : option certificate;
  QeIntermediateCertificate : option certificate;
  TcbBody : list byte;
  TcbHeaders : Headers;
  TcbRootCertificate : option certificate;
  TcbIntermediateCertificate : option certificate;
}.

Record PbTDXCollateral := MkPbCollateral {
  pb_root_crl_body : list byte;
  pb_root_crl_headers : list (string * list string);
  pb_pck_crl_body : list byte;
  pb_pck_crl_headers : list (string * list string);
  pb_pck_crl_root_certificate : list byte;
  pb_pck_crl_intermediate_certificate : list byte;
  pb_qe_body : list byte;
  pb_qe_headers : list (string * list string);
  pb_qe_root_certificate : list byte;
  pb_qe_intermediate_certificate : list byte;
  pb_tcb_body : list byte;
  pb_tcb_headers : list (string * list string);
  pb_tcb_root_certificate : list byte;
  pb_tcb_intermediate_certificate : list byte;
}.

(** [None] is the panic on a missing certificate. *)
Definition Collateral_MarshalProto (cb : TDXCollateral) : option PbTDXCollateral :=
  pckRoot ← PckCrlRootCertificate cb;
  pckInter ← PckCrlIntermediateCertificate cb;
  qeRoot ← QeRootCertificate cb;
  qeInter ← QeIntermediateCertificate cb;
  tcbRoot ← TcbRootCertificate cb;
  tcbInter ← TcbIntermediateCertificate cb;
  Some (MkPbCollateral (RootCrlBody cb) (ToResponseHeaders (RootCrlHeaders cb))
    (PckCrlBody cb) (ToResponseHeaders (PckCrlHeaders cb)) (Raw pckRoot) (Raw pckInter)
    (QeBody cb) (ToResponseHeaders (QeHeaders cb)) (Raw qeRoot) (Raw qeInter)
    (TcbBody cb) (ToResponseHeaders (TcbHeaders cb)) (Raw tcbRoot) (Raw tcbInter)).

(** A certificate field: absent bytes keep what the receiver had. *)
Definition parse_field (msg : string) (old : option certificate) (rawCert : list byte) :
    result goerror (option certificate) :=
  if (0 <? length rawCert)%nat then
    match ParseCertificate rawCert with
    | Some c => Ok (Some c)
    | None => Err (ErrorWrap msg (ErrorNew "x509: malformed certificate"))
    end
  else Ok old.

(** On an error the receiver is left half updated, but callers drop it. *)
Definition Collateral_UnmarshalProto (cb : TDXCollateral) (p : PbTDXCollateral) :
    result goerror TDXCollateral :=
  pckRoot ← parse_field "failed to parse PckCrlRootCertificate" (PckCrlRootCertificate cb)
    (pb_pck_crl_root_certificate p);
  pckInter ← parse_field "failed to parse PckCrlIntermediateCertificate" (PckCrlIntermediateCertificate cb)
    (pb_pck_crl_intermediate_certificate p);
  qeRoot ← parse_field "failed to parse QeRootCertificate" (QeRootCertificate cb) (pb_qe_root_certificate p);
  qeInter ← parse_field "failed to parse QeIntermediateCertificate" (QeIntermediateCertificate cb)
    (pb_qe_intermediate_certificate p);
  tcbRoot ← parse_field "failed to parse TcbRootCertificate" (TcbRootCertificate cb) (pb_tcb_root_certificate p);
  tcbInter ← parse_field "failed to parse TcbIntermediateCertificate" (TcbIntermediateCertificate cb)
    (pb_tcb_intermediate_certificate p);
  Ok (MkCollateral (pb_root_crl_body p) (FromResponseHeaders (pb_root_crl_headers p))
    (pb_pck_crl_body p) (FromResponseHeaders (pb_pck_crl_headers p)) pckRoot pckInter
    (pb_qe_body p) (FromResponseHeaders (pb_qe_headers p)) qeRoot qeInter
    (pb_tcb_body p) (FromResponseHeaders (pb_tcb_headers p)) tcbRoot tcbInter).
End collateral.

(** ** Round trips *)

Lemma EvidenceType_roundtrip t : EvidenceType_UnmarshalProto (EvidenceType_MarshalProto t) = t.
Proof. by destruct t. Qed.

Lemma Piece_roundtrip se : Piece_UnmarshalProto (Piece_MarshalProto se) = Ok se.
Proof. destruct se. unfold Piece_UnmarshalProto. simpl. by rewrite EvidenceType_roundtrip. Qed.

Lemma List_roundtrip s : List_UnmarshalProto (List_MarshalProto s) = Ok s.
Proof.
  unfold List_MarshalProto. induction s as [|se s IH]; [done|].
  cbn [fmap list_fmap List_UnmarshalProto]. by rewrite Piece_roundtrip, IH.
Qed.

Lemma foldl_insert_range (l : list (string * list string)) (m : Headers) :
  NoDup l.*1 → ∀ k, foldl (λ result entry, <[entry.1 := entry.2]> result) m l !! k =
    match (list_to_map l : Headers) !! k with Some v => Some v | None => m !! k end.
Proof.
  revert m. induction l as [|[k' v'] l IH]; intros m Hnd k; simpl; [by rewrite lookup_empty|].
  apply NoDup_cons in Hnd as [Hnin Hnd]. rewrite IH by done.
  destruct (decide (k = k')) as [->|Hne].
  - rewrite lookup_insert_eq. rewrite (proj1 (not_elem_of_list_to_map l k')) by done.
    by rewrite lookup_insert_eq.
  - rewrite !lookup_insert_ne by done. done.
Qed.

Lemma headers_roundtrip {R : RangeOrder} (m : Headers) : FromResponseHeaders (ToResponseHeaders m) = m.
Proof.
  apply map_eq. intros k. unfold FromResponseHeaders, ToResponseHeaders.
  rewrite foldl_insert_range by apply range_map_nodup. rewrite lookup_empty.
  pose proof (range_map_nodup m) as Hnd.
  destruct ((list_to_map (range_map m) : Headers) !! k) as [v|] eqn:E.
  - apply elem_of_list_to_map in E; [|done]. by apply range_map_elem in E.
  - apply not_elem_of_list_to_map in E. destruct (m !! k) as [v|] eqn:Em; [|done].
    exfalso. apply E, list_elem_of_fmap. exists (k, v). split; [done|]. by apply range_map_elem.
Qed.

Lemma Quote_roundtrip tqa : Quote_UnmarshalProto (MkQuote [] None) (Quote_MarshalProto tqa) = Ok tqa.
Proof. by destruct tqa as [q [p|]]. Qed.

Lemma parse_field_raw {X : X509Lib} {XL : X509Laws X} msg old c :
  parse_field msg old (Raw c) = Ok (Some c).
Proof.
  unfold parse_field. pose proof (Raw_nonempty c). rewrite ParseCertificate_Raw. by destruct (Raw c).
Qed.

Lemma Collateral_roundtrip {X : X509Lib} {XL : X509Laws X} {R : RangeOrder} old cb p :
  Collateral_MarshalProto cb = Some p → Collateral_UnmarshalProto old p = Ok cb.
Proof.
  unfold Collateral_MarshalProto. destruct cb as [b1 h1 b2 h2 c1 c2 b3 h3 c3 c4 b4 h4 c5 c6]. simpl.
  destruct c1, c2, c3, c4, c5, c6; simpl; try done. intros [= <-].
  unfold Collateral_UnmarshalProto. simpl. rewrite !parse_field_raw. simpl.
  by rewrite !headers_roundtrip.
Qed.

Fixpoint no_char (c : ascii) (s : string) : bool :=
  match s with EmptyString => true | String d s => negb (bool_decide (d = c)) && no_char c s end.

#[local] Arguments String.append !_ _ / : simpl nomatch.

Lemma Split_no_char c s : no_char c s = true → Split c s = [s].
Proof.
  induction s as [|d s IH]; [done|]. simpl. intros [Hd%negb_true_iff Hs]%andb_true_iff.
  by rewrite Hd, IH.
Qed.

Lemma Split_append c s t : no_char c s = true → Split c (String.append s (String c t)) = s :: Split c t.
Proof.
  induction s as [|d s IH]; simpl.
  - by rewrite bool_decide_eq_true_2.
  - intros [Hd%negb_true_iff Hs]%andb_true_iff. by rewrite Hd, IH.
Qed.

Lemma no_char_list c l :
  Forall (λ d, d ≠ c) l → no_char c (String.string_of_list_ascii l) = true.
Proof.
  induction 1 as [|d l Hd Hl IH]; [done|]. simpl. by rewrite bool_decide_eq_false_2, IH.
Qed.

Lemma url_digit_not_dot d : 0 ≤ d < 64 → digit_char RawURLEncoding d ≠ dot.
Proof. intros Hd. by_enum (λ d, digit_char RawURLEncoding d ≠ dot) 0 64 d. Qed.

Lemma jwt_signature_no_dot seg : no_char dot (jwtBase64Encode seg) = true.
Proof.
  unfold jwtBase64Encode, EncodeToString. apply no_char_list.
  induction seg as [|a|a b|a b c l IH] using list_ind3; cbn [encode_chars]; [done|..].
  all: repeat (apply Forall_cons; split; [apply url_digit_not_dot; sextets|]); done.
Qed.

Lemma append_assoc' a b c : String.append (String.append a b) c = String.append a (String.append b c).
Proof. induction a; simpl; congruence. Qed.

(** The signed part of a token: two base64 segments joined by a dot. *)
Definition jwt_content (part0 part1 : string) : list byte :=
  String.list_byte_of_string (String.append part0 (String dot part1)).

Lemma jwt_roundtrip part0 part1 t sig :
  no_char dot part0 = true → no_char dot part1 = true →
  let se := MkPiece t (jwt_content part0 part1) sig in
  SignedEvidencePieceFromJWT (Some (ToJWT se)) t = Ok se.
Proof.
  intros H0 H1 se. unfold SignedEvidencePieceFromJWT, ToJWT. simpl.
  unfold jwt_content. rewrite String.string_of_list_byte_of_string, append_assoc'. simpl.
  rewrite Split_append, Split_append by done. rewrite Split_no_char by apply jwt_signature_no_dot.
  unfold jwtBase64Encode. rewrite Decode_Encode by by right. done.
Qed.

(** Evidence survives its encodings: lists of signed pieces and TPM quotes
    through protobuf, a complete TDX collateral through protobuf whatever the
    order its header maps are ranged over, and a piece built from a signed token
    through its JWT text. *)
Theorem evidence_roundtrips {X : X509Lib} {XL : X509Laws X} {R : RangeOrder} :
  (∀ s, List_UnmarshalProto (List_MarshalProto s) = Ok s) ∧
  (∀ tqa, Quote_UnmarshalProto (MkQuote [] None) (Quote_MarshalProto tqa) = Ok tqa) ∧
  (∀ old cb p, Collateral_MarshalProto cb = Some p → Collateral_UnmarshalProto old p = Ok cb) ∧
  (∀ part0 part1 t sig, no_char dot part0 = true → no_char dot part1 = true →
     SignedEvidencePieceFromJWT (Some (ToJWT (MkPiece t (jwt_content part0 part1) sig))) t
       = Ok (MkPiece t (jwt_content part0 part1) sig)).
Proof.
  split_and!; eauto using List_roundtrip, Quote_roundtrip, Collateral_roundtrip, jwt_roundtrip.
Qed.

(** Certificates that are their own non-empty encoding. *)
Definition demo_x509 : X509Lib := {|
  certificate := byte;
  Raw c := [c];
  ParseCertificate b := match b with [c] => Some c | _ => None end;
|}.
Lemma demo_x509_laws : X509Laws demo_x509.
Proof. by constructor. Qed.

Lemma evidence_roundtrips_witness :
  SignedEvidencePieceFromJWT (Some (ToJWT (MkPiece NvidiaETA (jwt_content "eyJ" "e30") [x01; xff]))) NvidiaETA
    = Ok (MkPiece NvidiaETA (jwt_content "eyJ" "e30") [x01; xff]).
Proof. by apply (@evidence_roundtrips demo_x509 demo_x509_laws elements_order). Defined.
