(* ===== verification/NodeEvent.v ===== *)
(** Package [router/agent] ([node_event.go], [agent.go]): the events compute
    nodes send to the routers, their protobuf form, and the client that numbers
    and sends them. *)

From S2P Require Import Prelude Bytes GoLib Evidence.
From S2P Require Uuidv7 Tags.

Section agent.
Context {U : UrlLib} {I : UuidLib} {T : TimestampLib} {R : RangeOrder}.

(** ** Data *)

Record RoutingInfo := MkRoutingInfo {
  URL : url;
  HealthcheckURL : url;
  Tags : gset string;
  Evidence : SignedEvidenceList;
}.

Record Heartbeat := MkHeartbeat {
  hb_RoutingInfoURL : option url;
  hb_RoutingInfo : option RoutingInfo;
}.

Record NodeEvent := MkNodeEvent {
  EventIndex : Z;
  NodeID : uuid;
  Timestamp : Z;
  ev_Heartbeat : option Heartbeat;
}.

Definition IsShutdownEvent (e : NodeEvent) : bool :=
  match ev_Heartbeat e with None => true | Some _ => false end.

#[global] Instance RoutingInfo_eq_dec : EqDecision RoutingInfo.
Proof. solve_decision. Defined.
#[global] Instance Heartbeat_eq_dec : EqDecision Heartbeat.
Proof. solve_decision. Defined.
#[global] Instance NodeEvent_eq_dec : EqDecision NodeEvent.
Proof. solve_decision. Defined.

(** ** Messages *)

Record PbRoutingInfo := MkPbRoutingInfo {
  pb_url : string;
  pb_healthcheck_url : string;
  pb_tags : list string;
  pb_evidence : PbSignedEvidenceList;
}.
Record PbHeartbeat := MkPbHeartbeat {
  pb_routing_info_url : option string;
  pb_routing_info : option PbRoutingInfo;
}.
Inductive PbEventData := PbHeartbeatData (h : PbHeartbeat) | PbShutdown.
Record PbNodeEvent := MkPbNodeEvent {
  pb_event_index : Z;
  pb_node_id : string;
  pb_timestamp : option timestamp;
  pb_event_data : option PbEventData;
}.

(** [url.Parse] followed by the check for a scheme. *)
Definition parse_absolute (parse_msg scheme_msg : string) (s : string) : result goerror url :=
  match url_parse s with
  | None => Err (ErrorNew parse_msg)
  | Some u => if bool_decide (url_scheme u = "") then Err (ErrorNew scheme_msg) else Ok u
  end.

Definition RoutingInfo_MarshalProto (r : RoutingInfo) : PbRoutingInfo :=
  MkPbRoutingInfo (url_string (URL r)) (url_string (HealthcheckURL r)) (Tags.Slice (Tags r))
    (List_MarshalProto (Evidence r)).

Definition RoutingInfo_UnmarshalProto (pbr : PbRoutingInfo) : result goerror RoutingInfo :=
  nodeURL ← parse_absolute "failed to parse URL" "requires absolute URL" (pb_url pbr);
  healthURL ← parse_absolute "failed to parse healthcheck URL" "requires absolute healthcheck URL"
                (pb_healthcheck_url pbr);
  tagslist ← wrap_err (ErrorWrap "invalid tags") (Tags.FromSlice (pb_tags pbr));
  if (size tagslist =? 0)%nat then Err (ErrorNew "requires at least one tag, got none")
  else
    evidence ← wrap_err (ErrorWrap "failed to unmarshal signed evidence") (List_UnmarshalProto (pb_evidence pbr));
    Ok (MkRoutingInfo nodeURL healthURL tagslist evidence).

(** [None] is the panic of a heartbeat with neither URL nor info. *)
Definition Heartbeat_MarshalProto (h : Heartbeat) : option PbHeartbeat :=
  match hb_RoutingInfoURL h with
  | Some u => Some (MkPbHeartbeat (Some (url_string u)) None)
  | None =>
      r ← hb_RoutingInfo h;
      Some (MkPbHeartbeat None (Some (RoutingInfo_MarshalProto r)))
  end.

Definition unmarshalRoutingInfoURLProto (routing_info_url : string) : result goerror Heartbeat :=
  u ← parse_absolute "failed to parse URL" "requires absolute URL" routing_info_url;
  Ok (MkHeartbeat (Some u) None).

Definition Heartbeat_UnmarshalProto (pbh : PbHeartbeat) : result goerror Heartbeat :=
  match pb_routing_info_url pbh, pb_routing_info pbh with
  | None, None => Err (ErrorNew "heartbeat without url or info")
  | Some u, _ => unmarshalRoutingInfoURLProto u
  | None, Some info =>
      routingInfo ← RoutingInfo_UnmarshalProto info;
      Ok (MkHeartbeat None (Some routingInfo))
  end.

Definition NodeEvent_MarshalProto (e : NodeEvent) : option PbNodeEvent :=
  data ← match ev_Heartbeat e with
         | Some h => PbHeartbeatData <$> Heartbeat_MarshalProto h
         | None => Some PbShutdown
         end;
  Some (MkPbNodeEvent (EventIndex e) (uuid_string (NodeID e)) (Some (ts_new (Timestamp e))) (Some data)).

Definition NodeEvent_UnmarshalProto (pbe : PbNodeEvent) : result goerror NodeEvent :=
  let eventIndex := pb_event_index pbe in
  if eventIndex <? 0 then Err (ErrorNew "event index should be 0 or greater")
  else
    match pb_timestamp pbe with
    | None => Err (ErrorNew "missing timestamp")
    | Some ts =>
        let timestamp := ts_as_time ts in
        id ← wrap_err (ErrorWrap "failed to parse uuid") (Uuidv7.Parse (pb_node_id pbe));
        heartbeat ←
          match pb_event_data pbe with
          | Some (PbHeartbeatData h) =>
              Some <$> wrap_err (ErrorWrap "failed to unmarshal registration event data") (Heartbeat_UnmarshalProto h)
          | Some PbShutdown => Ok None
          | None => Err (ErrorNew "event is missing event data")
          end;
        Ok (MkNodeEvent eventIndex id timestamp heartbeat)
    end.

Definition NodeEvent_MarshalBinary {W : ProtoWire PbNodeEvent} (e : NodeEvent) :
    option (result goerror (list byte)) :=
  marshal_message <$> NodeEvent_MarshalProto e.
Definition NodeEvent_UnmarshalBinary {W : ProtoWire PbNodeEvent} (b : list byte) : result goerror NodeEvent :=
  pbe ← unmarshal_message b; NodeEvent_UnmarshalProto pbe.

(** ** The client on a compute node *)

Record Config := MkConfig {
  cfg_Tags : list string;
  NodeTargetURL : string;
  NodeHealthcheckURL : string;
  RouterBaseURL : string;
  HeartbeatInterval : Z;
}.

Definition DefaultConfig : Config := MkConfig [] "" "" "" (1 * minute).

Record Client := MkClient {
  routerBaseURL : option url;
  id : uuid;
  routingInfo : RoutingInfo;
  heartbeatInterval : Z;
  eventIndex : Z;
}.

Definition parseAbsoluteURL (s : string) : result goerror url :=
  parse_absolute "parse" "wanted absolute url" s.

Definition New (id : uuid) (cfg : Config) (evidence : SignedEvidenceList) : result goerror Client :=
  if (length evidence =? 0)%nat then Err (ErrorNew "missing evidence")
  else
    tags ← wrap_err (ErrorWrap "invalid tags") (Tags.FromSlice (cfg_Tags cfg));
    u ← wrap_err (ErrorWrap "invalid node target url") (parseAbsoluteURL (NodeTargetURL cfg));
    hu ← wrap_err (ErrorWrap "invalid node healthcheck url") (parseAbsoluteURL (NodeHealthcheckURL cfg));
    base ← (if bool_decide (RouterBaseURL cfg = "") then Ok None
            else Some <$> wrap_err (ErrorWrap "invalid router base url") (parseAbsoluteURL (RouterBaseURL cfg)));
    Ok (MkClient base id (MkRoutingInfo u hu tags evidence) (HeartbeatInterval cfg) 0).

(** The event handed to [sendEvent]; the index advances whether or not it
    arrives. *)
Definition next_index (r : Client) : Client :=
  MkClient (routerBaseURL r) (id r) (routingInfo r) (heartbeatInterval r) (eventIndex r + 1)%i64.

Definition sendHeartbeat (now : Z) (r : Client) : NodeEvent * Client :=
  (MkNodeEvent (eventIndex r) (id r) now (Some (MkHeartbeat None (Some (routingInfo r)))), next_index r).
Definition sendShutdown (now : Z) (r : Client) : NodeEvent * Client :=
  (MkNodeEvent (eventIndex r) (id r) now None, next_index r).

(** The life of a client: the heartbeats of [Run], then the [Shutdown]. *)
Fixpoint heartbeats (nows : list Z) (r : Client) : list NodeEvent * Client :=
  match nows with
  | [] => ([], r)
  | now :: nows =>
      let '(e, r) := sendHeartbeat now r in
      let '(es, r) := heartbeats nows r in
      (e :: es, r)
  end.
Definition client_events (nows : list Z) (shutdown : Z) (r : Client) : list NodeEvent :=
  let '(es, r) := heartbeats nows r in es ++ [(sendShutdown shutdown r).1].

(** [addrs] is what the router finder found, [i] the random index. *)
Definition randomRouterURL (r : Client) (addrs : option (result goerror (list string))) (i : nat) :
    result goerror string :=
  let candidates := match routerBaseURL r with
                    | Some u => [String.append (url_string u) "/node-events"]
                    | None => []
                    end in
  found ← match addrs with
          | None => Ok []
          | Some r => wrap_err (ErrorWrap "failed to find router addresses") r
          end;
  let candidates := candidates ++
    ((λ addr, String.append "http://" (String.append addr ":8000/node-events")) <$> found) in
  match candidates !! i with
  | Some endpoint => Ok endpoint
  | None => Err (ErrorNew "no candidate URLs found")
  end.

(** ** Theorems *)

Context {UL : UrlLaws U} {IL : UuidLaws I} {TL : TimestampLaws T}.

(** What a node can be routed to with. *)
Definition routing_info_wf (r : RoutingInfo) : Prop :=
  url_scheme (URL r) ≠ "" ∧ url_scheme (HealthcheckURL r) ≠ "" ∧ Tags.tags_wf (Tags r) ∧ Tags r ≠ ∅.

(** Heartbeats carry the routing info or, in its stead, a URL to it. *)
Definition heartbeat_wf (h : Heartbeat) : Prop :=
  match hb_RoutingInfoURL h, hb_RoutingInfo h with
  | Some u, None => url_scheme u ≠ ""
  | None, Some r => routing_info_wf r
  | _, _ => False
  end.
Definition event_wf (e : NodeEvent) : Prop :=
  0 ≤ EventIndex e ∧ Uuidv7.uuid7 (NodeID e) ∧ (∀ h, ev_Heartbeat e = Some h → heartbeat_wf h).

Lemma parse_absolute_ok m m' u : url_scheme u ≠ "" → parse_absolute m m' (url_string u) = Ok u.
Proof. intros Hs. unfold parse_absolute. by rewrite url_parse_string, bool_decide_eq_false_2. Qed.

Lemma RoutingInfo_roundtrip r :
  routing_info_wf r → RoutingInfo_UnmarshalProto (RoutingInfo_MarshalProto r) = Ok r.
Proof.
  intros (H1 & H2 & Hwf & Hne). unfold RoutingInfo_UnmarshalProto, RoutingInfo_MarshalProto.
  cbn [pb_url pb_healthcheck_url pb_tags pb_evidence]. rewrite !parse_absolute_ok by done.
  cbn [mbind result_bind]. rewrite Tags.FromSlice_Slice by done. cbn [wrap_err mbind result_bind].
  destruct (Nat.eqb_spec (size (Tags r)) 0) as [Hs|_]; [by apply size_empty_inv, leibniz_equiv in Hs|].
  rewrite List_roundtrip. by destruct r.
Qed.

Lemma RoutingInfo_Unmarshal_wf pbr r : RoutingInfo_UnmarshalProto pbr = Ok r → routing_info_wf r.
Proof.
  unfold RoutingInfo_UnmarshalProto, parse_absolute.
  destruct (url_parse (pb_url pbr)) as [u|]; [|done]. case_bool_decide; [done|]. simpl.
  destruct (url_parse (pb_healthcheck_url pbr)) as [hu|]; [|done]. case_bool_decide; [done|]. simpl.
  destruct (Tags.FromSlice _) as [t|] eqn:Et; [|done]. simpl.
  destruct (Nat.eqb_spec (size t) 0) as [|Hsz]; [done|].
  destruct (List_UnmarshalProto _); [|done]. simpl. intros [= <-].
  apply Tags.FromSlice_wf in Et as [Ht _]. split_and!; try done. simpl. intros ->. by rewrite size_empty in Hsz.
Qed.

Lemma Heartbeat_roundtrip h :
  heartbeat_wf h → ∃ p, Heartbeat_MarshalProto h = Some p ∧ Heartbeat_UnmarshalProto p = Ok h.
Proof.
  unfold heartbeat_wf, Heartbeat_MarshalProto. destruct h as [[u|] [r|]]; simpl; try done; intros Hwf.
  - eexists. split; [done|]. unfold Heartbeat_UnmarshalProto, unmarshalRoutingInfoURLProto. simpl.
    by rewrite parse_absolute_ok.
  - eexists. split; [done|]. unfold Heartbeat_UnmarshalProto. simpl. by rewrite RoutingInfo_roundtrip.
Qed.

Lemma NodeEvent_roundtrip e :
  event_wf e → ∃ p, NodeEvent_MarshalProto e = Some p ∧ NodeEvent_UnmarshalProto p = Ok e.
Proof.
  intros (Hi & Hid & Hh). destruct e as [i n t [h|]]; simpl in *.
  - destruct (Heartbeat_roundtrip h) as (p & Hm & Hu); [by apply Hh|].
    unfold NodeEvent_MarshalProto. simpl. rewrite Hm. eexists. split; [done|].
    unfold NodeEvent_UnmarshalProto. simpl. destruct (Z.ltb_spec i 0); [lia|].
    rewrite Uuidv7.Parse_string by done. simpl. by rewrite Hu, ts_as_time_new.
  - eexists. split; [done|]. unfold NodeEvent_UnmarshalProto. simpl. destruct (Z.ltb_spec i 0); [lia|].
    rewrite Uuidv7.Parse_string by done. simpl. by rewrite ts_as_time_new.
Qed.

Lemma heartbeats_spec nows r :
  0 ≤ eventIndex r → eventIndex r + Z.of_nat (length nows) < 2 ^ 63 →
  EventIndex <$> (heartbeats nows r).1 = seqZ (eventIndex r) (Z.of_nat (length nows)) ∧
  eventIndex (heartbeats nows r).2 = eventIndex r + Z.of_nat (length nows) ∧
  Forall (λ e, NodeID e = id r ∧ ev_Heartbeat e = Some (MkHeartbeat None (Some (routingInfo r)))) (heartbeats nows r).1 ∧
  id (heartbeats nows r).2 = id r.
Proof.
  revert r. induction nows as [|now nows IH]; intros r H0 Hlt.
  { simpl. split_and!; [done|lia|constructor|done]. }
  cbn [heartbeats sendHeartbeat length] in *.
  assert (eventIndex (next_index r) = eventIndex r + 1) as E.
  { unfold next_index. simpl. apply wrap_s64_small. unfold in_int64. lia. }
  destruct (IH (next_index r)) as (IH1 & IH2 & IH3 & IH4); [lia|lia|].
  destruct (heartbeats nows (next_index r)) as [es r']. cbn [fst snd] in *. rewrite E in *. split_and!.
  - rewrite fmap_cons, IH1, (seqZ_cons (eventIndex r)) by lia. f_equal. f_equal; lia.
  - lia.
  - by constructor.
  - done.
Qed.
End agent.

(** The client numbers its events: over a whole run, heartbeats followed by
    the shutdown, the event indices are consecutive from the current one, every
    event carries the node's identity, every heartbeat its full routing info,
    and only the last event is a shutdown.  A well-formed event survives the
    protobuf round trip to the router. *)
Theorem client_event_stream {U : UrlLib} {I : UuidLib} {T : TimestampLib} {R : RangeOrder}
    {UL : UrlLaws U} {IL : UuidLaws I} {TL : TimestampLaws T} (r : Client) nows shutdown :
  0 ≤ eventIndex r → eventIndex r + Z.of_nat (length nows) < 2 ^ 63 →
  Uuidv7.uuid7 (id r) → routing_info_wf (routingInfo r) →
  let events := client_events nows shutdown r in
  EventIndex <$> events = seqZ (eventIndex r) (Z.of_nat (length nows) + 1) ∧
  Forall (λ e, NodeID e = id r) events ∧
  (∀ i e, events !! i = Some e → IsShutdownEvent e = true ↔ i = length nows) ∧
  Forall (λ e, ∃ p, NodeEvent_MarshalProto e = Some p ∧ NodeEvent_UnmarshalProto p = Ok e) events.
Proof.
  intros H0 Hlt Hid Hri. unfold client_events.
  destruct (heartbeats_spec nows r H0 Hlt) as (H1 & H2 & H3 & H4).
  destruct (heartbeats nows r) as [es r']. simpl in *.
  assert (Hlen : length es = length nows).
  { apply (f_equal length) in H1. rewrite length_fmap, length_seqZ in H1. lia. }
  assert (Hidx : ∀ e, e ∈ es → 0 ≤ EventIndex e).
  { intros e He. assert (EventIndex e ∈ EventIndex <$> es) as Hin by (by apply list_elem_of_fmap_2).
    rewrite H1, elem_of_seqZ in Hin. lia. }
  rewrite Forall_forall in H3. split_and!.
  - rewrite fmap_app, H1. cbn [fmap list_fmap EventIndex]. rewrite seqZ_app by lia. f_equal.
    by rewrite <- H2.
  - apply Forall_app. split; [apply Forall_forall; intros e He; by apply H3|by constructor].
  - intros i e Hi. destruct (decide (i < length es)%nat) as [Hi'|Hi'].
    + rewrite lookup_app_l in Hi by done. apply list_elem_of_lookup_2, H3 in Hi as [_ Hi].
      unfold IsShutdownEvent. rewrite Hi. split; [done|lia].
    + rewrite lookup_app_r in Hi by lia. pose proof (lookup_lt_Some _ _ _ Hi) as Hl. simpl in Hl.
      destruct (i - length es)%nat eqn:E; [|lia]. injection Hi as <-. split; [lia|done].
  - apply Forall_app. split.
    + apply Forall_forall. intros e He. destruct (H3 e He) as [HN Hh]. apply NodeEvent_roundtrip.
      split; [by apply Hidx|]. split; [by rewrite HN|]. intros h. rewrite Hh. by intros [= <-].
    + constructor; [|done]. apply NodeEvent_roundtrip. split; [simpl; lia|]. split; [simpl; by rewrite H4|done].
Qed.

Definition demo_routing_info : @RoutingInfo text_url :=
  @MkRoutingInfo text_url "http://node:80/" "http://node:81/health" {[ "model=llama" ]}
    [MkPiece TpmQuote [x01] [x02]].
Definition demo_client : @Client text_url :=
  @MkClient text_url None (7 * 2 ^ 76)%N demo_routing_info minute 4.

Lemma client_event_stream_witness :
  @EventIndex text_url <$> client_events [1; 2] 3 demo_client = [4; 5; 6] ∧
  Forall (λ e, ∃ p, @NodeEvent_MarshalProto text_url binary_uuid unix_timestamp elements_order e = Some p ∧
    @NodeEvent_UnmarshalProto text_url binary_uuid unix_timestamp p = Ok e) (client_events [1; 2] 3 demo_client).
Proof.
  assert (0 ≤ eventIndex demo_client) as H1 by (simpl; lia).
  assert (eventIndex demo_client + Z.of_nat (length [1; 2]) < 2 ^ 63) as H2 by (simpl; lia).
  assert (@Uuidv7.uuid7 binary_uuid (id demo_client)) as H3 by (vm_compute; split; reflexivity).
  assert (routing_info_wf (routingInfo demo_client)) as H4.
  { split_and!; try done. intros tag Htag. change (tag ∈ ({[ "model=llama" ]} : gset string)) in Htag.
    apply elem_of_singleton in Htag as ->. vm_compute. lia. }
  pose proof (@client_event_stream text_url binary_uuid unix_timestamp elements_order text_url_laws
    binary_uuid_laws unix_timestamp_laws demo_client [1; 2] 3 H1 H2 H3 H4) as (E & _ & _ & H).
  split; [exact E|exact H].
Defined.
