(* ===== verification/RouterApi.v ===== *)
(** Package [router/api]: compute manifests, the manifest query and the compute
    request info, with their protobuf, binary, text and header forms. *)

From S2P Require Import Prelude Bytes Base64 GoLib Evidence.
From S2P Require Uuidv7 Tags.

Section api.
Context {I : UuidLib} {R : RangeOrder}.

(** ** [compute_manifest.go] *)

Record ComputeManifest := MkManifest {
  ID : uuid;
  manifest_Tags : gset string;
  manifest_Evidence : SignedEvidenceList;
}.
Record PbComputeManifest := MkPbManifest {
  pb_id : string;
  pb_tags : list string;
  pb_evidence : PbSignedEvidenceList;
}.

Definition Manifest_MarshalProto (m : ComputeManifest) : PbComputeManifest :=
  MkPbManifest (uuid_string (ID m)) (Tags.Slice (manifest_Tags m)) (List_MarshalProto (manifest_Evidence m)).

Definition Manifest_UnmarshalProto (pbm : PbComputeManifest) : result goerror ComputeManifest :=
  id ← wrap_err (ErrorWrap "failed to parse uuid") (Uuidv7.Parse (pb_id pbm));
  tagslist ← wrap_err (ErrorWrap "invalid tags") (Tags.FromSlice (pb_tags pbm));
  if (size tagslist =? 0)%nat then Err (ErrorNew "requires at least one tag, got none")
  else
    evidence ← wrap_err (ErrorWrap "failed to unmarshal signed evidence") (List_UnmarshalProto (pb_evidence pbm));
    Ok (MkManifest id tagslist evidence).

Abbreviation ComputeManifestList := (list ComputeManifest).

Definition ManifestList_MarshalProto (l : ComputeManifestList) : list PbComputeManifest :=
  Manifest_MarshalProto <$> l.
Fixpoint ManifestList_UnmarshalProto (pbl : list PbComputeManifest) : result goerror ComputeManifestList :=
  match pbl with
  | [] => Ok []
  | pbm :: pbl =>
      m ← Manifest_UnmarshalProto pbm;
      rest ← ManifestList_UnmarshalProto pbl;
      Ok (m :: rest)
  end.

Definition ManifestList_MarshalBinary {W : ProtoWire (list PbComputeManifest)} (l : ComputeManifestList) :
    result goerror (list byte) := marshal_message (ManifestList_MarshalProto l).
Definition ManifestList_UnmarshalBinary {W : ProtoWire (list PbComputeManifest)} (b : list byte) :
    result goerror ComputeManifestList := pbl ← unmarshal_message b; ManifestList_UnmarshalProto pbl.

(** ** [compute_manifest_request.go] *)

Definition MaxComputeManifests : Z := 500.

Record ComputeManifestRequest := MkManifestRequest { req_Tags : gset string; Limit : Z }.
Record PbComputeManifestRequest := MkPbManifestRequest { pb_req_tags : list string; pb_limit : Z }.

Definition ManifestRequest_UnmarshalProto (pbr : PbComputeManifestRequest) : result goerror ComputeManifestRequest :=
  tagsList ← Tags.FromSlice (pb_req_tags pbr);
  let limit := pb_limit pbr in
  if (limit <? 0) || (MaxComputeManifests <? limit) then Err (ErrorNew "limit should be between 0-500")
  else Ok (MkManifestRequest tagsList limit).

Definition ManifestRequest_UnmarshalBinary {W : ProtoWire PbComputeManifestRequest} (b : list byte) :
    result goerror ComputeManifestRequest := pbr ← unmarshal_message b; ManifestRequest_UnmarshalProto pbr.

(** ** [compute_request_info.go] *)

Record ComputeCandidate := MkCandidate { cand_ID : uuid; EncapsulatedKey : list byte }.
Record PbComputeCandidate := MkPbCandidate { pb_cand_id : string; pb_encapsulated_key : list byte }.

#[global] Instance ComputeCandidate_eq_dec : EqDecision ComputeCandidate.
Proof. solve_decision. Defined.

Definition Candidate_UnmarshalProto (pbc : PbComputeCandidate) : result goerror ComputeCandidate :=
  id ← wrap_err (ErrorWrap "failed to parse uuid") (Uuidv7.Parse (pb_cand_id pbc));
  let encapKey := pb_encapsulated_key pbc in
  if (length encapKey =? 0)%nat then Err (ErrorNew "missing encapsulated key")
  else Ok (MkCandidate id encapKey).

Definition Candidate_MarshalProto (c : ComputeCandidate) : PbComputeCandidate :=
  MkPbCandidate (uuid_string (cand_ID c)) (EncapsulatedKey c).

Abbreviation ComputeRequestInfo := (list ComputeCandidate).
Abbreviation PbComputeRequestInfo := (list PbComputeCandidate).

Fixpoint unmarshal_candidates (pbs : list PbComputeCandidate) : result goerror (list ComputeCandidate) :=
  match pbs with
  | [] => Ok []
  | pbc :: pbs =>
      candidate ← wrap_err (ErrorWrap "failed to unmarshal candidate protobuf") (Candidate_UnmarshalProto pbc);
      rest ← unmarshal_candidates pbs;
      Ok (candidate :: rest)
  end.

Definition RequestInfo_UnmarshalProto (pbi : PbComputeRequestInfo) : result goerror ComputeRequestInfo :=
  if (length pbi =? 0)%nat then Err (ErrorNew "need at least one candidate, got zero")
  else unmarshal_candidates pbi.
Definition RequestInfo_MarshalProto (i : ComputeRequestInfo) : PbComputeRequestInfo :=
  Candidate_MarshalProto <$> i.

Section binary.
Context {W : ProtoWire PbComputeRequestInfo}.

Definition RequestInfo_MarshalBinary (i : ComputeRequestInfo) : result goerror (list byte) :=
  marshal_message (RequestInfo_MarshalProto i).
Definition RequestInfo_UnmarshalBinary (data : list byte) : result goerror ComputeRequestInfo :=
  pbc ← unmarshal_message data; RequestInfo_UnmarshalProto pbc.

Definition RequestInfo_MarshalText (i : ComputeRequestInfo) : result goerror string :=
  b ← RequestInfo_MarshalBinary i; Ok (EncodeToString StdEncoding b).
Definition RequestInfo_UnmarshalText (p : string) : result goerror ComputeRequestInfo :=
  match DecodeString StdEncoding p with
  | None => Err (ErrorNew "illegal base64 data")
  | Some b => RequestInfo_UnmarshalBinary b
  end.
End binary.

Definition EncapsulatedKeyHeader : string := "X-Encapsulated-Key".

(** [http.Header] with one value per key, as [Set] leaves it. *)
Definition CopyKeysToHeader (c : ComputeCandidate) (h : gmap string (list string)) : gmap string (list string) :=
  <[EncapsulatedKeyHeader := [EncodeToString StdEncoding (EncapsulatedKey c)]]> h.

(** ** Round trips *)

Context {IL : UuidLaws I}.

Definition manifest_wf (m : ComputeManifest) : Prop :=
  Uuidv7.uuid7 (ID m) ∧ Tags.tags_wf (manifest_Tags m) ∧ manifest_Tags m ≠ ∅.
Definition candidate_wf (c : ComputeCandidate) : Prop :=
  Uuidv7.uuid7 (cand_ID c) ∧ EncapsulatedKey c ≠ [].

Lemma Manifest_roundtrip m : manifest_wf m → Manifest_UnmarshalProto (Manifest_MarshalProto m) = Ok m.
Proof.
  intros (Hid & Hwf & Hne). unfold Manifest_UnmarshalProto, Manifest_MarshalProto. simpl.
  rewrite Uuidv7.Parse_string by done. simpl. rewrite Tags.FromSlice_Slice by done. simpl.
  destruct (Nat.eqb_spec (size (manifest_Tags m)) 0) as [Hs|_]; [by apply size_empty_inv, leibniz_equiv in Hs|].
  rewrite List_roundtrip. by destruct m.
Qed.

Lemma ManifestList_roundtrip l :
  Forall manifest_wf l → ManifestList_UnmarshalProto (ManifestList_MarshalProto l) = Ok l.
Proof.
  unfold ManifestList_MarshalProto. induction 1 as [|m l Hm Hl IH]; [done|].
  cbn [fmap list_fmap ManifestList_UnmarshalProto]. by rewrite Manifest_roundtrip, IH.
Qed.

Lemma Candidate_roundtrip c : candidate_wf c → Candidate_UnmarshalProto (Candidate_MarshalProto c) = Ok c.
Proof.
  intros [Hid Hne]. unfold Candidate_UnmarshalProto, Candidate_MarshalProto. simpl.
  rewrite Uuidv7.Parse_string by done. simpl. destruct c as [i [|k ks]]; done.
Qed.

Lemma RequestInfo_roundtrip i :
  i ≠ [] → Forall candidate_wf i → RequestInfo_UnmarshalProto (RequestInfo_MarshalProto i) = Ok i.
Proof.
  intros Hne Hwf. unfold RequestInfo_UnmarshalProto, RequestInfo_MarshalProto. rewrite length_fmap.
  destruct i as [|c i]; [done|]. cbn [length Nat.eqb]. clear Hne.
  induction Hwf as [|d k Hd Hk IH]; [done|]. cbn [fmap list_fmap unmarshal_candidates].
  by rewrite Candidate_roundtrip, IH.
Qed.

Lemma unmarshal_candidates_wf pbs i :
  unmarshal_candidates pbs = Ok i → Forall (λ c, EncapsulatedKey c ≠ []) i ∧ length i = length pbs.
Proof.
  revert i. induction pbs as [|pbc pbs IH]; intros i H; simpl in H; [by simplify_eq|].
  apply result_bind_ok in H as (c & Hc%wrap_err_ok & H). apply result_bind_ok in H as (rest & Hrest & [= <-]).
  apply IH in Hrest as [IH1 IH2]. split; [|simpl; lia]. constructor; [|done].
  unfold Candidate_UnmarshalProto in Hc. apply result_bind_ok in Hc as (id & _ & Hc).
  destruct (Nat.eqb_spec (length (pb_encapsulated_key pbc)) 0); [done|]. injection Hc as <-.
  simpl. by destruct (pb_encapsulated_key pbc).
Qed.
End api.

(** The routing header.  A list of well-formed candidates survives the
    base64 text of the [X-Routing-Info] header; every list the router accepts
    has at least one candidate and every candidate a key, and the key reaches
    the compute node unchanged in its own header. *)
Theorem routing_header {I : UuidLib} {W : ProtoWire (list PbComputeCandidate)}
    {IL : UuidLaws I} {WL : ProtoWireLaws (list PbComputeCandidate)} :
  (∀ i text, i ≠ [] → Forall candidate_wf i → RequestInfo_MarshalText i = Ok text →
     RequestInfo_UnmarshalText text = Ok i) ∧
  (∀ text i, RequestInfo_UnmarshalText text = Ok i → i ≠ [] ∧ Forall (λ c, EncapsulatedKey c ≠ []) i) ∧
  (∀ c h, CopyKeysToHeader c h !! EncapsulatedKeyHeader = Some [EncodeToString StdEncoding (EncapsulatedKey c)] ∧
     DecodeString StdEncoding (EncodeToString StdEncoding (EncapsulatedKey c)) = Some (EncapsulatedKey c)).
Proof.
  split_and!.
  - unfold RequestInfo_MarshalText, RequestInfo_MarshalBinary, RequestInfo_UnmarshalText, RequestInfo_UnmarshalBinary.
    intros i text Hne Hwf (b & Hb & [= <-])%result_bind_ok.
    rewrite Decode_Encode by by left. rewrite (unmarshal_marshalled _ _ Hb). by apply RequestInfo_roundtrip.
  - unfold RequestInfo_UnmarshalText, RequestInfo_UnmarshalBinary. intros text i.
    destruct (DecodeString _ _); [|done]. intros (pbi & _ & H)%result_bind_ok.
    unfold RequestInfo_UnmarshalProto in H. destruct (Nat.eqb_spec (length pbi) 0); [done|].
    apply unmarshal_candidates_wf in H as [Hf Hl]. split; [by intros ->|done].
  - intros c h. unfold CopyKeysToHeader. rewrite lookup_insert_eq. split; [done|]. by rewrite Decode_Encode by by left.
Qed.

(** A wire format for the witness: it carries one candidate of a fixed node. *)
Definition demo_candidate : ComputeCandidate := MkCandidate (7 * 2 ^ 76)%N [x0a; x0b].
Definition demo_pb : list PbComputeCandidate := [@Candidate_MarshalProto binary_uuid demo_candidate].
Definition demo_wire : ProtoWire (list PbComputeCandidate) := {|
  proto_marshal m := match m with
    | [c] => if bool_decide (pb_cand_id c = pb_cand_id (MkPbCandidate (@uuid_string binary_uuid (7 * 2 ^ 76)%N) []))
             then Some (pb_encapsulated_key c) else None
    | _ => None end;
  proto_unmarshal b := Some [MkPbCandidate (@uuid_string binary_uuid (7 * 2 ^ 76)%N) b];
|}.
Lemma demo_wire_laws : @ProtoWireLaws _ demo_wire.
Proof.
  constructor. intros [|[i k] [|]] b; simpl; try done. case_bool_decide as Hc; [|done]. intros [= <-].
  by rewrite <- Hc.
Qed.

Lemma routing_header_witness :
  ∃ text, @RequestInfo_MarshalText binary_uuid demo_wire [demo_candidate] = Ok text ∧
    @RequestInfo_UnmarshalText binary_uuid demo_wire text = Ok [demo_candidate].
Proof.
  exists "Cgs=". assert (@RequestInfo_MarshalText binary_uuid demo_wire [demo_candidate] = Ok "Cgs=") as H
    by (vm_compute; reflexivity).
  split; [exact H|].
  apply (@routing_header binary_uuid demo_wire binary_uuid_laws demo_wire_laws); [done| |exact H].
  repeat constructor; simpl; try done; vm_compute; reflexivity.
Defined.
