(* ===== verification/RouterState.v ===== *)
(** Package [router/state] ([agent.go], [node_health.go], [router.go]): the
    state a router keeps of every node, updated by node events, health checks
    and the states of its peers. *)

From S2P Require Import Prelude GoLib Health NodeEvent.
From S2P Require Uuidv7.

Section state.
Context {U : UrlLib} {I : UuidLib} {T : TimestampLib} {R : RangeOrder} {S : SliceSort}.

(** ** [agent.go] *)

Record Agent := MkAgent {
  LastEventIndex : Z;
  LastEventTimestamp : Z;
  a_RoutingInfo : option RoutingInfo;
  ShutdownAt : option Z;
}.
#[global] Instance Agent_eq_dec : EqDecision Agent.
Proof. solve_decision. Defined.

Definition zero_agent : Agent := MkAgent 0 zero_time None None.

Definition isNewAgent (a : Agent) : bool := is_zero_time (LastEventTimestamp a).

Definition CanHealthcheck (a : Agent) : bool :=
  match a_RoutingInfo a, ShutdownAt a with Some _, None => true | _, _ => false end.

Definition heartbeat_info (e : NodeEvent) : option RoutingInfo := ev_Heartbeat e ≫= hb_RoutingInfo.

(** [a.RoutingInfo == nil && e.Heartbeat != nil && e.Heartbeat.RoutingInfo != nil]:
    the info to adopt. *)
Definition adopt_info (a : Agent) (e : NodeEvent) : option RoutingInfo :=
  match a_RoutingInfo a with None => heartbeat_info e | Some _ => None end.

Definition or_info (new old : option RoutingInfo) : option RoutingInfo :=
  match new with Some i => Some i | None => old end.

(** The agent after the call, and whether it changed. *)
Definition Agent_MergeNodeEvent (a : Agent) (e : NodeEvent) : Agent * bool :=
  if isNewAgent a || (LastEventIndex a <? EventIndex e) then
    (MkAgent (EventIndex e) (NodeEvent.Timestamp e) (or_info (adopt_info a e) (a_RoutingInfo a))
       (if IsShutdownEvent e then Some (NodeEvent.Timestamp e) else ShutdownAt a), true)
  else
    match adopt_info a e with
    | Some info => (MkAgent (LastEventIndex a) (LastEventTimestamp a) (Some info) (ShutdownAt a), true)
    | None => (a, false)
    end.

Definition Agent_MergeState (a other : Agent) : Agent * bool :=
  let '(a, changes) :=
    if LastEventIndex a <? LastEventIndex other then
      (MkAgent (LastEventIndex other) (LastEventTimestamp other) (a_RoutingInfo a)
         (match ShutdownAt other with Some t => Some t | None => ShutdownAt a end), 1)
    else (a, 0) in
  let '(a, changes) :=
    match a_RoutingInfo a, a_RoutingInfo other with
    | None, Some info => (MkAgent (LastEventIndex a) (LastEventTimestamp a) (Some info) (ShutdownAt a), changes + 1)
    | _, _ => (a, changes)
    end in
  (a, 0 <? changes).

Record PbAgentState := MkPbAgent {
  pb_last_event_index : option Z;
  pb_last_event_timestamp : option timestamp;
  pb_routing_info : option PbRoutingInfo;
  pb_shutdown_at : option timestamp;
}.

Definition Agent_MarshalProto (a : Agent) : PbAgentState :=
  MkPbAgent (Some (LastEventIndex a)) (Some (ts_new (LastEventTimestamp a)))
    (RoutingInfo_MarshalProto <$> a_RoutingInfo a) (ts_new <$> ShutdownAt a).

Definition Agent_UnmarshalProto (pba : PbAgentState) : result goerror Agent :=
  match pb_last_event_index pba, pb_last_event_timestamp pba with
  | Some lastEvIndex, Some ts =>
      let lastEvTimestamp := ts_as_time ts in
      if lastEvIndex <? 0 then Err (ErrorNew "last event index must be 0 or greater")
      else
        rInfo ← match pb_routing_info pba with
                | Some p => Some <$> wrap_err (ErrorWrap "failed to unmarshal routing info") (RoutingInfo_UnmarshalProto p)
                | None => Ok None
                end;
        Ok (MkAgent lastEvIndex lastEvTimestamp rInfo (ts_as_time <$> pb_shutdown_at pba))
  | _, _ => Err (ErrorNew "no event data")
  end.

(** ** [node_health.go] *)

(** [NodeHealth] has one field, the history. *)
Record NodeHealth := MkNodeHealth { nh_History : list Check }.
Definition zero_health : NodeHealth := MkNodeHealth [].

Definition NodeHealth_MergeHealthcheck (h : NodeHealth) (hc : Check) : NodeHealth * bool :=
  match Insert (nh_History h) hc with
  | Err _ => (h, false)
  | Ok newHistory =>
      if (length newHistory =? length (nh_History h))%nat then (h, false) else (MkNodeHealth newHistory, true)
  end.

Definition NodeHealth_MergeState (h other : NodeHealth) : NodeHealth * bool :=
  match Merge (nh_History h) (nh_History other) with
  | Err _ => (h, false)
  | Ok newHistory =>
      if (length newHistory =? length (nh_History h))%nat then (h, false) else (MkNodeHealth newHistory, true)
  end.

Definition NodeHealth_MarshalProto (h : NodeHealth) : option (list PbCheck) :=
  Some (History_MarshalProto (nh_History h)).
Definition NodeHealth_UnmarshalProto (pbnh : option (list PbCheck)) : result goerror NodeHealth :=
  match pbnh with
  | None => Err (ErrorNew "missing history")
  | Some checks =>
      his ← wrap_err (ErrorWrap "failed to unmarshal history") (History_UnmarshalProto checks);
      Ok (MkNodeHealth his)
  end.

(** ** [router.go] *)

Record Router := MkRouter {
  Agents : gmap uuid Agent;
  Health : gmap uuid NodeHealth;
}.
Definition zero_router : Router := MkRouter ∅ ∅.

Record RouterChange := MkChange {
  NewAgents : gset uuid;
  UpdatedAgents : gset uuid;
  NewHealth : gset uuid;
  UpdatedHealth : gset uuid;
}.
Definition no_change : RouterChange := MkChange ∅ ∅ ∅ ∅.

Definition Router_MergeNodeEvent (r : Router) (e : NodeEvent) : Router * RouterChange :=
  let '(a, newAgents) :=
    match Agents r !! NodeEvent.NodeID e with
    | Some a => (a, ∅)
    | None => (zero_agent, {[ NodeEvent.NodeID e ]})
    end in
  let '(a, updated) := Agent_MergeNodeEvent a e in
  (MkRouter (<[NodeEvent.NodeID e := a]> (Agents r)) (Health r),
   MkChange newAgents
     (if updated && (size newAgents =? 0)%nat then {[ NodeEvent.NodeID e ]} else ∅) ∅ ∅).

Definition Router_MergeHealthcheck (r : Router) (hc : Check) : Router * RouterChange :=
  let '(nh, newHealth) :=
    match Health r !! Health.NodeID hc with
    | Some nh => (nh, ∅)
    | None => (zero_health, {[ Health.NodeID hc ]})
    end in
  let '(nh, updated) := NodeHealth_MergeHealthcheck nh hc in
  (MkRouter (Agents r) (<[Health.NodeID hc := nh]> (Health r)),
   MkChange ∅ ∅ newHealth
     (if updated && (size newHealth =? 0)%nat then {[ Health.NodeID hc ]} else ∅)).

Definition resultNodeID (m : gset uuid) (key : uuid) : gset uuid := {[ key ]} ∪ m.

(** The two loops of [MergeState], over the entries of one of the other
    router's maps: the map after the loop, the new and the updated keys. *)
Fixpoint merge_entries {A} (mergeState : A → A → A * bool) (others : list (uuid * A)) (m : gmap uuid A)
    (new updated : gset uuid) : gmap uuid A * gset uuid * gset uuid :=
  match others with
  | [] => (m, new, updated)
  | (key, other) :: others =>
      match m !! key with
      | Some a =>
          let '(a, changed) := mergeState a other in
          merge_entries mergeState others (<[key := a]> m) new
            (if changed then resultNodeID updated key else updated)
      | None => merge_entries mergeState others (<[key := other]> m) (resultNodeID new key) updated
      end
  end.

Definition Router_MergeState (r other : Router) : Router * RouterChange :=
  let '(agents, newAgents, updatedAgents) :=
    merge_entries Agent_MergeState (range_map (Agents other)) (Agents r) ∅ ∅ in
  let '(health, newHealth, updatedHealth) :=
    merge_entries NodeHealth_MergeState (range_map (Health other)) (Health r) ∅ ∅ in
  (MkRouter agents health, MkChange newAgents updatedAgents newHealth updatedHealth).

Definition Changes (c : RouterChange) : Z :=
  Z.of_nat (size (NewAgents c) + size (UpdatedAgents c) + size (NewHealth c) + size (UpdatedHealth c)).
Definition ChangedState (c : RouterChange) : bool := 0 <? Changes c.

Definition IsNewNode (c : RouterChange) (id : uuid) : bool :=
  if (0 <? size (NewAgents c))%nat then bool_decide (id ∈ NewAgents c)
  else if (0 <? size (NewHealth c))%nat then bool_decide (id ∈ NewHealth c)
  else false.

Definition mergeNodeIDs (src dst : gset uuid) : gset uuid := src ∪ dst.
Definition NodeIDs (c : RouterChange) : gset uuid :=
  if Changes c =? 0 then ∅
  else
    let out := mergeNodeIDs (NewAgents c) ∅ in
    let out := mergeNodeIDs (UpdatedAgents c) out in
    let out := mergeNodeIDs (NewHealth c) out in
    mergeNodeIDs (UpdatedHealth c) out.

(** The wire form: the maps are keyed by the text of the identifiers. *)
Record PbRouterState := MkPbRouter {
  pb_agents : gmap string (option PbAgentState);
  pb_node_health : gmap string (option (option (list PbCheck)));
}.

Definition Router_MarshalProto (r : Router) : PbRouterState :=
  MkPbRouter
    (list_to_map ((λ '(k, a), (uuid_string k, Some (Agent_MarshalProto a))) <$> range_map (Agents r)))
    (list_to_map ((λ '(k, h), (uuid_string k, Some (NodeHealth_MarshalProto h))) <$> range_map (Health r))).

Fixpoint unmarshal_agents (l : list (string * option PbAgentState)) (agents : gmap uuid Agent) :
    result goerror (gmap uuid Agent) :=
  match l with
  | [] => Ok agents
  | (key, pba) :: l =>
      id ← wrap_err (ErrorWrap "failed to parse uuid v7 for agent") (Uuidv7.Parse key);
      match pba with
      | None => Err (ErrorNew "nil agent")
      | Some pba =>
          a ← wrap_err (ErrorWrap "failed to unmarshal agent protobuf") (Agent_UnmarshalProto pba);
          unmarshal_agents l (<[id := a]> agents)
      end
  end.

Fixpoint unmarshal_health (l : list (string * option (option (list PbCheck)))) (nodeHealth : gmap uuid NodeHealth) :
    result goerror (gmap uuid NodeHealth) :=
  match l with
  | [] => Ok nodeHealth
  | (key, pbh) :: l =>
      id ← wrap_err (ErrorWrap "failed to parse uuid v7 for node health") (Uuidv7.Parse key);
      match pbh with
      | None => Err (ErrorNew "nil node health")
      | Some pbh =>
          nh ← wrap_err (ErrorWrap "failed to unmarshal node health protobuf") (NodeHealth_UnmarshalProto pbh);
          unmarshal_health l (<[id := nh]> nodeHealth)
      end
  end.

Definition Router_UnmarshalProto (pbr : PbRouterState) : result goerror Router :=
  agents ← unmarshal_agents (range_map (pb_agents pbr)) ∅;
  nodeHealth ← unmarshal_health (range_map (pb_node_health pbr)) ∅;
  Ok (MkRouter agents nodeHealth).

Definition Router_MarshalBinary {W : ProtoWire PbRouterState} (r : Router) : result goerror (list byte) :=
  marshal_message (Router_MarshalProto r).
Definition Router_UnmarshalBinary {W : ProtoWire PbRouterState} (b : list byte) : result goerror Router :=
  pbr ← unmarshal_message b; Router_UnmarshalProto pbr.
End state.

(** ** Merging the entries of two maps *)

Section entries.
Context {A : Type} (mergeState : A → A → A * bool).

Definition merged_entry (mine other : option A) : option A :=
  match mine, other with
  | Some a, Some b => Some (mergeState a b).1
  | None, o => o
  | m, None => m
  end.

Lemma merge_entries_spec others m new updated :
  NoDup others.*1 →
  let '(m', new', updated') := merge_entries mergeState others m new updated in
  (∀ k, m' !! k = merged_entry (m !! k) ((list_to_map others : gmap uuid A) !! k)) ∧
  (∀ k, k ∈ new' ↔ k ∈ new ∨ m !! k = None ∧ k ∈ others.*1) ∧
  (∀ k, k ∈ updated' ↔ k ∈ updated ∨ ∃ a b, m !! k = Some a ∧ (k, b) ∈ others ∧ (mergeState a b).2 = true).
Proof.
  revert m new updated. induction others as [|[key b] others IH]; intros m new updated Hnd; cbn [merge_entries].
  { split_and!; intros k; [|set_solver..]. simpl. rewrite lookup_empty. by destruct (m !! k). }
  cbn [fmap list_fmap fst] in Hnd. apply NoDup_cons in Hnd as [Hnin Hnd].
  assert (Hno : ∀ c, (key, c) ∉ others).
  { intros c Hc. apply Hnin, list_elem_of_fmap. by exists (key, c). }
  assert (Hnone : (list_to_map others : gmap uuid A) !! key = None) by by apply not_elem_of_list_to_map.
  assert (Hlook : ∀ m' : gmap uuid A, (∀ k, k ≠ key → m' !! k = m !! k) → (m' !! key = merged_entry (m !! key) (Some b)) →
    ∀ k, merged_entry (m' !! k) ((list_to_map others : gmap uuid A) !! k)
       = merged_entry (m !! k) ((list_to_map ((key, b) :: others) : gmap uuid A) !! k)).
  { intros m' Hne Heq k. simpl. destruct (decide (k = key)) as [->|Hk].
    - rewrite Hnone, lookup_insert_eq, Heq. by destruct (m !! key).
    - rewrite lookup_insert_ne, Hne by done. done. }
  destruct (m !! key) as [a|] eqn:Ek.
  - destruct (mergeState a b) as [a' changed] eqn:Em.
    specialize (IH (<[key := a']> m) new (if changed then resultNodeID updated key else updated) Hnd).
    destruct (merge_entries _ _ _ _ _) as [[m' new'] updated']. destruct IH as (IH1 & IH2 & IH3). split_and!.
    + intros k. rewrite IH1. apply Hlook; [by intros; apply lookup_insert_ne|].
      rewrite lookup_insert_eq, ?Ek. simpl. by rewrite Em.
    + intros k. rewrite IH2, fmap_cons, elem_of_cons. simpl. destruct (decide (k = key)) as [->|Hk].
      * rewrite lookup_insert_eq, Ek. naive_solver.
      * rewrite lookup_insert_ne by done. naive_solver.
    + intros k. rewrite IH3. destruct (decide (k = key)) as [->|Hk].
      * rewrite lookup_insert_eq, Ek. split.
        -- intros [Hin|(a2 & b2 & _ & Hb & _)]; [|by destruct (Hno b2)].
           destruct changed; [|by left]. right. exists a, b. rewrite Em. split_and!; [done|by left|done].
        -- intros [Hin|(a2 & b2 & [= <-] & [E|Hb]%elem_of_cons & Hc)]; [| |by destruct (Hno b2)].
           ++ left. destruct changed; [unfold resultNodeID; set_solver|done].
           ++ injection E as ->. rewrite Em in Hc. simpl in Hc. subst changed. left. unfold resultNodeID. set_solver.
      * rewrite lookup_insert_ne by done. setoid_rewrite elem_of_cons.
        assert (k ∈ (if changed then resultNodeID updated key else updated) ↔ k ∈ updated) as ->
          by (destruct changed; unfold resultNodeID; set_solver).
        naive_solver.
  - specialize (IH (<[key := b]> m) (resultNodeID new key) updated Hnd).
    destruct (merge_entries _ _ _ _ _) as [[m' new'] updated']. destruct IH as (IH1 & IH2 & IH3). split_and!.
    + intros k. rewrite IH1. apply Hlook; [by intros; apply lookup_insert_ne|].
      by rewrite lookup_insert_eq, ?Ek.
    + intros k. rewrite IH2, fmap_cons, elem_of_cons. unfold resultNodeID. simpl.
      destruct (decide (k = key)) as [->|Hk]; [set_solver|]. rewrite lookup_insert_ne by done. set_solver.
    + intros k. rewrite IH3. setoid_rewrite elem_of_cons. destruct (decide (k = key)) as [->|Hk].
      * rewrite lookup_insert_eq, Ek. split; [|naive_solver].
        intros [Hin|(a2 & b2 & _ & Hb & _)]; [by left|by destruct (Hno b2)].
      * rewrite lookup_insert_ne by done. naive_solver.
Qed.

(** Over a whole map: pointwise, whatever the order of the range. *)
Lemma merge_entries_range {R : RangeOrder} (m other : gmap uuid A) :
  let '(m', new, updated) := merge_entries mergeState (range_map other) m ∅ ∅ in
  (∀ k, m' !! k = merged_entry (m !! k) (other !! k)) ∧
  new = dom other ∖ dom m ∧
  (∀ k, k ∈ updated ↔ ∃ a b, m !! k = Some a ∧ other !! k = Some b ∧ (mergeState a b).2 = true).
Proof.
  pose proof (merge_entries_spec (range_map other) m ∅ ∅ (range_map_nodup other)) as H.
  destruct (merge_entries _ _ _ _ _) as [[m' new] updated]. destruct H as (H1 & H2 & H3).
  assert (Hmap : ∀ k, (list_to_map (range_map other) : gmap uuid A) !! k = other !! k).
  { intros k. pose proof (range_map_nodup other) as Hnd.
    destruct (other !! k) as [b|] eqn:E.
    - apply elem_of_list_to_map; [done|]. by apply range_map_elem.
    - apply not_elem_of_list_to_map. rewrite range_map_keys, range_keys_elem. by apply not_elem_of_dom. }
  split_and!.
  - intros k. by rewrite H1, Hmap.
  - apply set_eq. intros k. rewrite H2, range_map_keys, range_keys_elem, elem_of_difference, not_elem_of_dom. set_solver.
  - intros k. rewrite H3. setoid_rewrite range_map_elem. set_solver.
Qed.
End entries.

(** ** Merging is a join *)

Section join.
Context {U : UrlLib} {I : UuidLib} {T : TimestampLib} {UL : UrlLaws U}.

(** [m] joins [a] and [b]: either order of merging gives it, and merging it
    again with either changes nothing and reports no change. *)
Definition joins {A} (merge : A → A → A * bool) (a b m : A) : Prop :=
  (merge a b).1 = m ∧ (merge b a).1 = m ∧ merge m a = (m, false) ∧ merge m b = (m, false) ∧
  ((merge a b).2 = false ↔ m = a).

(** Two views of one agent: events are numbered by the agent, so equal indices
    are the same event; its shutdown is its last event; its routing info never
    changes. *)
Definition same_agent (a b : Agent) : Prop :=
  (LastEventIndex a = LastEventIndex b →
     LastEventTimestamp a = LastEventTimestamp b ∧ ShutdownAt a = ShutdownAt b) ∧
  (LastEventIndex a < LastEventIndex b → ShutdownAt a = None) ∧
  (LastEventIndex b < LastEventIndex a → ShutdownAt b = None) ∧
  (∀ i j, a_RoutingInfo a = Some i → a_RoutingInfo b = Some j → i = j).

Lemma Agent_joins a b : same_agent a b → joins Agent_MergeState a b (Agent_MergeState a b).1.
Proof.
  destruct a as [ia ta ra sa], b as [ib tb rb sb]. unfold same_agent, joins, Agent_MergeState.
  cbn [LastEventIndex LastEventTimestamp a_RoutingInfo ShutdownAt]. intros (Heq & Hlt & Hgt & Hri).
  destruct (Z.lt_total ia ib) as [Hl|[->|Hl]].
  - rewrite (proj2 (Z.ltb_lt ia ib)), (proj2 (Z.ltb_ge ib ia)) by lia. rewrite (Hlt Hl).
    destruct ra as [ra|], rb as [rb|]; simpl;
      rewrite ?Z.ltb_irrefl, ?(proj2 (Z.ltb_ge ib ia)) by lia; simpl; try rewrite (Hri ra rb) by done;
      destruct sb; split_and!; try done; split; intros Hc; try done; injection Hc; intros; lia.
  - destruct (Heq eq_refl) as [-> ->]. rewrite !Z.ltb_irrefl.
    destruct ra as [ra|], rb as [rb|]; simpl; rewrite ?Z.ltb_irrefl; simpl;
      try rewrite (Hri ra rb) by done; done.
  - rewrite (proj2 (Z.ltb_lt ib ia)), (proj2 (Z.ltb_ge ia ib)) by lia. rewrite (Hgt Hl).
    destruct ra as [ra|], rb as [rb|]; simpl;
      rewrite ?Z.ltb_irrefl, ?(proj2 (Z.ltb_ge ia ib)) by lia; simpl; try rewrite (Hri ra rb) by done;
      destruct sa; done.
Qed.

Lemma Agent_self a : Agent_MergeState a a = (a, false).
Proof.
  unfold Agent_MergeState. rewrite Z.ltb_irrefl. destruct a as [i t [r|] s]; done.
Qed.

(** A history of one node with one check per instant. *)
Definition health_wf (id : uuid) (h : NodeHealth) : Prop :=
  one_node id (nh_History h) ∧ strictly_ordered (nh_History h).

Lemma ordered_of_strict h : strictly_ordered h → ordered h.
Proof. apply StronglySorted_mono. lia. Qed.

Lemma strict_NoDup h : strictly_ordered h → NoDup h.
Proof.
  induction 1 as [|x h Hh IH Hx]; constructor; [|done]. intros Hin. rewrite Forall_forall in Hx.
  specialize (Hx x Hin). simpl in Hx. lia.
Qed.

Lemma strict_length_eq h m :
  strictly_ordered h → strictly_ordered m → (∀ c, c ∈ h → c ∈ m) → length m = length h → m = h.
Proof.
  intros Hh Hm Hsub Hlen. apply strictly_ordered_unique; [done..|]. intros c. split; [|apply Hsub].
  assert (m ≡ₚ h) as Hp; [|by rewrite Hp]. symmetry.
  apply submseteq_length_Permutation; [|lia]. apply NoDup_submseteq; [by apply strict_NoDup|done].
Qed.

(** Merging one history into another, length check included. *)
Lemma NodeHealth_merge id h other :
  health_wf id h → health_wf id other → agree (nh_History h) (nh_History other) →
  ∃ m, (∀ c, c ∈ m ↔ c ∈ nh_History h ∨ c ∈ nh_History other) ∧ health_wf id (MkNodeHealth m) ∧
    NodeHealth_MergeState h other = (MkNodeHealth m, negb (length m =? length (nh_History h))%nat).
Proof.
  intros [Hn Hs] [Hn' Hs'] Ha.
  set (m := merge_loop (length (nh_History h) + length (nh_History other)) (nh_History h) (nh_History other)).
  assert (Hm : ∀ c, c ∈ m ↔ c ∈ nh_History h ∨ c ∈ nh_History other) by (intros c; apply merge_loop_elem).
  assert (strictly_ordered m) as Sm by by apply merge_loop_strict.
  exists m. split; [done|]. split.
  { split; [|done]. apply Forall_forall. simpl.
    intros c [Hc|Hc]%Hm; [by eapply Forall_forall in Hn|by eapply Forall_forall in Hn']. }
  unfold NodeHealth_MergeState. rewrite (Merge_nodes id) by done. fold m.
  destruct (Nat.eqb_spec (length m) (length (nh_History h))) as [E|]; [|done].
  rewrite (strict_length_eq (nh_History h) m) by (done || (intros; apply Hm; by left)). by destruct h.
Qed.

Lemma NodeHealth_joins id h other :
  health_wf id h → health_wf id other → agree (nh_History h) (nh_History other) →
  joins NodeHealth_MergeState h other (NodeHealth_MergeState h other).1 ∧
  health_wf id (NodeHealth_MergeState h other).1.
Proof.
  intros Hh Ho Ha.
  destruct (NodeHealth_merge id h other Hh Ho Ha) as (m & Hm & Hwf & E).
  destruct (NodeHealth_merge id other h Ho Hh) as (m' & Hm' & Hwf' & E').
  { intros x y Hx Hy Ht. symmetry. by apply Ha. }
  assert (m' = m) as ->.
  { apply strictly_ordered_unique; [apply Hwf'|apply Hwf|]. intros c. rewrite Hm, Hm'. tauto. }
  assert (Hself : ∀ k, health_wf id k → (∀ c, c ∈ nh_History k → c ∈ m) →
    NodeHealth_MergeState (MkNodeHealth m) k = (MkNodeHealth m, false)).
  { intros k Hk Hsub. destruct (NodeHealth_merge id (MkNodeHealth m) k Hwf Hk) as (m2 & Hm2 & Hwf2 & ->).
    - intros x y Hx Hy Ht. specialize (Hsub y Hy). simpl in Hx.
      destruct Hwf as [_ Hst]. simpl in Hst. clear -Hst Hx Hsub Ht.
      induction Hst as [|z m Hst IH Hz]; [by apply not_elem_of_nil in Hx|]. rewrite Forall_forall in Hz.
      apply elem_of_cons in Hx as [->|Hx], Hsub as [->|Hy]; [done|..|by apply IH].
      + specialize (Hz _ Hy). simpl in Hz. lia.
      + specialize (Hz _ Hx). simpl in Hz. lia.
    - assert (m2 = m) as ->; [|simpl; by rewrite Nat.eqb_refl].
      apply strictly_ordered_unique; [apply Hwf2|apply Hwf|]. intros c. rewrite Hm2. simpl. naive_solver. }
  rewrite E. split; [|done]. unfold joins. rewrite E, E'. split_and!; try done; try (apply Hself; naive_solver).
  simpl. rewrite negb_false_iff, Nat.eqb_eq. split; [|intros <-; done].
  intros Hlen. destruct h as [h]. f_equal. simpl in *.
  apply strict_length_eq; [apply Hh|apply Hwf|naive_solver|done].
Qed.

Lemma merge_loop_self fuel h : merge_loop (fuel + length h) h h = h.
Proof.
  induction h as [|x h IH]; [apply merge_loop_nil_r|]. cbn [length]. rewrite Nat.add_succ_r. cbn [merge_loop].
  unfold before. rewrite Z.ltb_irrefl, (proj2 (Equal_eq x x) eq_refl). by rewrite IH.
Qed.

Lemma NodeHealth_self h : NodeHealth_MergeState h h = (h, false).
Proof.
  unfold NodeHealth_MergeState. destruct h as [[|x h]]; [done|]. cbn [nh_History Merge].
  rewrite bool_decide_eq_true_2 by done. cbn [negb]. rewrite merge_loop_self, Nat.eqb_refl. done.
Qed.

(** Two routers of one cluster: their views of every node are compatible. *)
Definition router_wf (r : Router) : Prop := ∀ k h, Health r !! k = Some h → health_wf k h.
Definition compatible (r s : Router) : Prop :=
  (∀ k a b, Agents r !! k = Some a → Agents s !! k = Some b → same_agent a b) ∧
  (∀ k h g, Health r !! k = Some h → Health s !! k = Some g → agree (nh_History h) (nh_History g)).
End join.

Section pointwise.
Context {A : Type} (mergeState : A → A → A * bool) {R : RangeOrder}.

(** Merging two maps whose common entries join. *)
Lemma merge_entries_joins (x y : gmap uuid A) :
  (∀ k a b, x !! k = Some a → y !! k = Some b → joins mergeState a b (mergeState a b).1) →
  (∀ a, mergeState a a = (a, false)) →
  let '(m, new, updated) := merge_entries mergeState (range_map y) x ∅ ∅ in
  (merge_entries mergeState (range_map x) y ∅ ∅).1.1 = m ∧
  merge_entries mergeState (range_map x) m ∅ ∅ = (m, ∅, ∅) ∧
  merge_entries mergeState (range_map y) m ∅ ∅ = (m, ∅, ∅) ∧
  (∀ k, k ∈ new ∪ updated ↔ m !! k ≠ x !! k) ∧
  (∀ k, m !! k = merged_entry mergeState (x !! k) (y !! k)).
Proof.
  intros Hj Hself. pose proof (merge_entries_range mergeState x y) as Hxy.
  pose proof (merge_entries_range mergeState y x) as Hyx.
  destruct (merge_entries mergeState (range_map y) x ∅ ∅) as [[m new] updated] eqn:Em.
  destruct (merge_entries mergeState (range_map x) y ∅ ∅) as [[m' new'] updated'].
  destruct Hxy as (Hm & Hnew & Hupd), Hyx as (Hm' & _ & _). cbn [fst].
  assert (Habsorb : ∀ z : gmap uuid A,
    (∀ k b, z !! k = Some b → ∃ c, m !! k = Some c ∧ mergeState c b = (c, false)) →
    merge_entries mergeState (range_map z) m ∅ ∅ = (m, ∅, ∅)).
  { intros z Hz. pose proof (merge_entries_range mergeState m z) as H.
    revert H. destruct (merge_entries mergeState (range_map z) m ∅ ∅) as [[m2 n2] u2]. intros (H1 & -> & H3).
    f_equal; [f_equal|].
    - apply map_eq. intros k. rewrite H1. destruct (z !! k) as [b|] eqn:Ez; [|by destruct (m !! k)].
      destruct (Hz k b Ez) as (c & -> & Hc). simpl. by rewrite Hc.
    - apply set_eq. intros k. rewrite elem_of_difference, !elem_of_dom. split; [|set_solver].
      intros [[b Hb] Hno]. destruct (Hz k b Hb) as (c & Hc & _). rewrite Hc in Hno. exfalso. eauto.
    - apply set_eq. intros k. rewrite H3. split; [|set_solver]. intros (c & b & Hc & Hb & Ht).
      destruct (Hz k b Hb) as (c' & Hc' & Hf). simplify_eq. by rewrite Hf in Ht. }
  split; [|split; [|split; [|split; [|done]]]].
  - apply map_eq. intros k. rewrite Hm, Hm'. destruct (x !! k) as [a|] eqn:Ex, (y !! k) as [b|] eqn:Ey; try done.
    simpl. f_equal. by apply (Hj k a b Ex Ey).
  - apply Habsorb. intros k a Ha. rewrite Hm, Ha. destruct (y !! k) as [b|] eqn:Ey; simpl; [|by eauto].
    eexists. split; [done|]. by apply (Hj k a b Ha Ey).
  - apply Habsorb. intros k b Hb. rewrite Hm, Hb. destruct (x !! k) as [a|] eqn:Ex; simpl; [|by eauto].
    eexists. split; [done|]. by apply (Hj k a b Ex Hb).
  - intros k. rewrite elem_of_union, Hnew, Hupd, elem_of_difference, not_elem_of_dom, elem_of_dom, Hm.
    destruct (x !! k) as [a|] eqn:Ex, (y !! k) as [b|] eqn:Ey; simpl.
    + pose proof (Hj k a b Ex Ey) as (_ & _ & _ & _ & Hc).
      destruct (mergeState a b).2 eqn:E2.
      * split; [intros _ Hsm; injection Hsm as Hsm; apply Hc in Hsm; congruence|]. intros _. right. exists a, b. done.
      * split; [intros [[_ ?]|(a' & b' & [= <-] & [= <-] & ?)]; congruence|].
        intros Hne. destruct Hne. f_equal. by apply Hc.
    + split; [intros [[_ ?]|(? & ? & _ & ? & _)]; done|done].
    + split; [intros _; done|]. intros _. left. split; [eauto|done].
    + split; [intros [[[? ?] _]|(? & ? & ? & _)]; done|done].
Qed.
End pointwise.

Lemma NodeIDs_elem (c : RouterChange) k :
  k ∈ NodeIDs c ↔ k ∈ NewAgents c ∪ UpdatedAgents c ∨ k ∈ NewHealth c ∪ UpdatedHealth c.
Proof.
  unfold NodeIDs, mergeNodeIDs. destruct (Z.eqb_spec (Changes c) 0) as [E|E]; [|set_solver].
  unfold Changes in E. assert (∀ X : gset uuid, size X = 0%nat → X = ∅) as Hs
    by (intros X HX; by apply size_empty_inv, leibniz_equiv in HX).
  rewrite (Hs (NewAgents c)), (Hs (UpdatedAgents c)), (Hs (NewHealth c)), (Hs (UpdatedHealth c)) by lia. set_solver.
Qed.

(** Merging compatible views.  For compatible views of the cluster,
    merging a peer's state is symmetric, merging the result again with either
    side changes nothing and reports no change, the nodes reported as changed
    are exactly those whose agent or health entry changed, and histories stay
    ordered and of one node. *)
Theorem Router_MergeState_converges {U : UrlLib} {I : UuidLib} {T : TimestampLib} {UL : UrlLaws U} {R : RangeOrder}
    (r s : Router) :
  router_wf r → router_wf s → compatible r s →
  let '(m, c) := Router_MergeState r s in
  (Router_MergeState s r).1 = m ∧
  Router_MergeState m r = (m, no_change) ∧ Router_MergeState m s = (m, no_change) ∧
  router_wf m ∧ dom (Agents m) = dom (Agents r) ∪ dom (Agents s) ∧
  dom (Health m) = dom (Health r) ∪ dom (Health s) ∧
  (∀ k, k ∈ NodeIDs c ↔ Agents m !! k ≠ Agents r !! k ∨ Health m !! k ≠ Health r !! k).
Proof.
  intros Hr Hs [Ha Hh]. unfold Router_MergeState.
  pose proof (merge_entries_joins Agent_MergeState (Agents r) (Agents s)
    (λ k a b Hk Hk', Agent_joins a b (Ha k a b Hk Hk')) Agent_self) as HA.
  pose proof (merge_entries_joins NodeHealth_MergeState (Health r) (Health s)
    (λ k h g Hk Hk', proj1 (NodeHealth_joins k h g (Hr k h Hk) (Hs k g Hk') (Hh k h g Hk Hk'))) ) as HH.
  destruct (merge_entries Agent_MergeState (range_map (Agents s)) (Agents r) ∅ ∅) as [[ma na] ua].
  destruct (merge_entries NodeHealth_MergeState (range_map (Health s)) (Health r) ∅ ∅) as [[mh nh] uh].
  destruct HA as (A1 & A2 & A3 & A4 & A5). destruct HH as (H1 & H2 & H3 & H4 & H5).
  { apply NodeHealth_self. }
  split; [|split; [|split; [|split_and!]]].
  - destruct (merge_entries Agent_MergeState (range_map (Agents r)) (Agents s) ∅ ∅) as [[x1 x2] x3].
    destruct (merge_entries NodeHealth_MergeState (range_map (Health r)) (Health s) ∅ ∅) as [[y1 y2] y3].
    simpl in *. by subst.
  - cbn [Agents Health]. by rewrite A2, H2.
  - cbn [Agents Health]. by rewrite A3, H3.
  - intros k h Hk. cbn [Health] in Hk. rewrite H5 in Hk.
    destruct (Health r !! k) as [h1|] eqn:E1, (Health s !! k) as [h2|] eqn:E2; simpl in Hk; simplify_eq; eauto.
    eapply NodeHealth_joins; eauto.
  - cbn [Agents]. apply set_eq. intros k. rewrite elem_of_union, !elem_of_dom, A5.
    destruct (Agents r !! k), (Agents s !! k); simpl; unfold is_Some; naive_solver.
  - cbn [Health]. apply set_eq. intros k. rewrite elem_of_union, !elem_of_dom, H5.
    destruct (Health r !! k), (Health s !! k); simpl; unfold is_Some; naive_solver.
  - intros k. rewrite NodeIDs_elem. cbn [NewAgents UpdatedAgents NewHealth UpdatedHealth Agents Health].
    by rewrite A4, H4.
Qed.

Definition demo_agent (i : Z) (shutdown : option Z) : @Agent text_url :=
  @MkAgent text_url i (i * second) None shutdown.
Definition demo_router1 : @Router text_url := @MkRouter text_url {[ demo_id 1 := demo_agent 3 None ]} ∅.
Definition demo_router2 : @Router text_url :=
  @MkRouter text_url {[ demo_id 1 := demo_agent 5 (Some 9) ]} {[ demo_id 1 := MkNodeHealth [demo_check7 1 200] ]}.

Lemma Router_MergeState_converges_witness :
  let '(m, c) := @Router_MergeState text_url elements_order demo_router1 demo_router2 in
  (@Router_MergeState text_url elements_order demo_router2 demo_router1).1 = m ∧
  @Router_MergeState text_url elements_order m demo_router1 = (m, no_change) ∧
  (∀ k, k ∈ NodeIDs c ↔ Agents m !! k ≠ Agents demo_router1 !! k ∨ Health m !! k ≠ Health demo_router1 !! k).
Proof.
  assert (router_wf demo_router1) as H1 by (intros k h Hk; done).
  assert (router_wf demo_router2) as H2.
  { intros k h Hk. cbn [Health demo_router2] in Hk. apply lookup_singleton_Some in Hk as [<- <-].
    split; repeat constructor. }
  assert (compatible demo_router1 demo_router2) as H3.
  { split; [|intros k h g Hk; done]. intros k a b Hk Hk'. cbn [Agents demo_router1 demo_router2] in Hk, Hk'.
    apply lookup_singleton_Some in Hk as [<- <-]. apply lookup_singleton_Some in Hk' as [_ <-].
    split_and!; simpl; try lia; try done. }
  pose proof (@Router_MergeState_converges text_url binary_uuid unix_timestamp text_url_laws elements_order
    demo_router1 demo_router2 H1 H2 H3) as H.
  destruct (Router_MergeState demo_router1 demo_router2) as [m c].
  destruct H as (E1 & E2 & _ & _ & _ & _ & E3). split; [exact E1|]. split; [exact E2|exact E3].
Defined.

(** ** Event streams *)

Section events.
Context {U : UrlLib}.

Definition Agent_events (es : list NodeEvent) : Agent :=
  foldl (λ a e, (Agent_MergeNodeEvent a e).1) zero_agent es.

(** Events of one agent, as its client sends them: an index is given out once,
    nothing follows a shutdown, the routing info never changes. *)
Record event_stream (P : NodeEvent → Prop) : Prop := {
  stream_index e f : P e → P f → EventIndex e = EventIndex f → e = f;
  stream_shutdown e f : P e → P f → IsShutdownEvent e = true → EventIndex f ≤ EventIndex e;
  stream_info e f i j : P e → P f → heartbeat_info e = Some i → heartbeat_info f = Some j → i = j;
  stream_time e : P e → NodeEvent.Timestamp e ≠ zero_time;
}.

(** The agent a set of received events amounts to. *)
Definition summarises (es : list NodeEvent) (a : Agent) : Prop :=
  ∃ last, last ∈ es ∧ (∀ e, e ∈ es → EventIndex e ≤ EventIndex last) ∧
    LastEventIndex a = EventIndex last ∧ LastEventTimestamp a = NodeEvent.Timestamp last ∧
    ShutdownAt a = (if IsShutdownEvent last then Some (NodeEvent.Timestamp last) else None) ∧
    (∀ i, a_RoutingInfo a = Some i → ∃ e, e ∈ es ∧ heartbeat_info e = Some i) ∧
    (a_RoutingInfo a = None → ∀ e, e ∈ es → heartbeat_info e = None).

Lemma or_adopt a e : or_info (adopt_info a e) (a_RoutingInfo a) =
  match a_RoutingInfo a with Some i => Some i | None => heartbeat_info e end.
Proof. unfold or_info, adopt_info. destruct (a_RoutingInfo a); [done|]. by destruct (heartbeat_info e). Qed.

(** The info after an event, in both branches that change the agent. *)
Lemma info_step es e (ri : option RoutingInfo) :
  (∀ i, ri = Some i → ∃ f, f ∈ es ∧ heartbeat_info f = Some i) →
  (ri = None → ∀ f, f ∈ es → heartbeat_info f = None) →
  let ri' := match ri with Some i => Some i | None => heartbeat_info e end in
  (∀ i, ri' = Some i → ∃ f, f ∈ es ++ [e] ∧ heartbeat_info f = Some i) ∧
  (ri' = None → ∀ f, f ∈ es ++ [e] → heartbeat_info f = None).
Proof.
  intros Hs Hn ri'. subst ri'. split.
  - intros i Hi. destruct ri as [j|]; [destruct (Hs j eq_refl) as (f & Hf & ?)|];
      [exists f; set_solver|]. exists e. set_solver.
  - destruct ri; [done|]. intros He f [Hf|Hf]%elem_of_app; [by apply Hn|]. set_solver.
Qed.

Lemma summarises_step P es a e :
  event_stream P → (∀ f, f ∈ es ++ [e] → P f) → summarises es a →
  summarises (es ++ [e]) (Agent_MergeNodeEvent a e).1.
Proof.
  intros [Hi Hsd Hri Hts] HP (last & Hin & Hmax & H1 & H2 & H3 & H4 & H5).
  assert (P last) as HPl by (apply HP; set_solver). assert (P e) as HPe by (apply HP; set_solver).
  destruct (info_step es e (a_RoutingInfo a) H4 H5) as [H4' H5'].
  unfold Agent_MergeNodeEvent, isNewAgent, is_zero_time.
  rewrite H2, bool_decide_eq_false_2 by by apply Hts. rewrite orb_false_l, H1.
  destruct (Z.ltb_spec (EventIndex last) (EventIndex e)) as [Hlt|Hle]; cbn [fst].
  - exists e. cbn. rewrite or_adopt. split_and!; try done; [set_solver| |].
    + intros f [Hf|Hf]%elem_of_app; [specialize (Hmax f Hf); lia|].
      apply list_elem_of_singleton in Hf as ->. lia.
    + destruct (IsShutdownEvent e); [done|]. rewrite H3. destruct (IsShutdownEvent last) eqn:E; [|done].
      specialize (Hsd last e HPl HPe E). lia.
  - assert (Hmax' : ∀ f, f ∈ es ++ [e] → EventIndex f ≤ EventIndex last).
    { intros f [Hf|Hf]%elem_of_app; [by apply Hmax|]. by apply list_elem_of_singleton in Hf as ->. }
    assert (last ∈ es ++ [e]) by set_solver.
    unfold adopt_info. destruct (a_RoutingInfo a) as [i|] eqn:Ea.
    + exists last. cbn. rewrite Ea. split_and!; done.
    + destruct (heartbeat_info e) as [j|] eqn:Ee; exists last; cbn; rewrite ?Ea; split_and!; done.
Qed.

Lemma summarises_events P es e :
  event_stream P → (∀ f, f ∈ es ++ [e] → P f) → summarises (es ++ [e]) (Agent_events (es ++ [e])).
Proof.
  intros HS. revert e. induction es as [|f es IH] using rev_ind; intros e HP.
  - exists e. assert (P e) as HPe by (apply HP; set_solver). unfold Agent_events. cbn [app foldl].
    unfold Agent_MergeNodeEvent. assert (isNewAgent zero_agent = true) as -> by done. cbn [orb fst].
    rewrite or_adopt. simpl. split_and!; try done; try set_solver.
  - unfold Agent_events. rewrite foldl_app. cbn [foldl].
    apply (summarises_step P); [done|done|]. apply IH. intros g Hg. apply HP. set_solver.
Qed.

Lemma summarises_unique P es es' a a' :
  event_stream P → (∀ f, f ∈ es → P f) → (∀ f, f ∈ es ↔ f ∈ es') → summarises es a → summarises es' a' → a = a'.
Proof.
  intros [Hi Hsd Hri Hts] HP Heq (l & L1 & L2 & H1 & H2 & H3 & H4 & H5) (l' & L1' & L2' & H1' & H2' & H3' & H4' & H5').
  assert (l = l') as <-.
  { apply Hi; [by apply HP|by apply HP, Heq|]. specialize (L2 l'). specialize (L2' l). rewrite <- Heq in *.
    specialize (L2 L1'). specialize (L2' L1). lia. }
  destruct a as [i t ri s], a' as [i' t' ri' s']. simpl in *. subst. f_equal.
  destruct ri as [r|], ri' as [r'|]; [|..|done].
  - destruct (H4 r eq_refl) as (e & He & Hr), (H4' r' eq_refl) as (e' & He' & Hr'). f_equal.
    eapply (Hri e e'); eauto. by apply HP, Heq.
  - destruct (H4 r eq_refl) as (e & He & Hr). apply Heq in He. rewrite (H5' eq_refl e He) in Hr. done.
  - destruct (H4' r' eq_refl) as (e & He & Hr). apply Heq in He. rewrite (H5 eq_refl e He) in Hr. done.
Qed.
End events.

(** Merging the states of two routers amounts to receiving the events of both. *)
Section merged.
Context {U : UrlLib} (P : NodeEvent → Prop) (HS : event_stream P).

Lemma summarises_same_agent es es' a b :
  (∀ f, f ∈ es → P f) → (∀ f, f ∈ es' → P f) → summarises es a → summarises es' b → same_agent a b.
Proof.
  destruct HS as [Hi Hsd Hri _]. intros HP HP' (l & L1 & _ & H1 & H2 & H3 & H4 & _) (l' & L1' & _ & H1' & H2' & H3' & H4' & _).
  assert (P l) as Pl by auto. assert (P l') as Pl' by auto. unfold same_agent. rewrite H1, H2, H3, H1', H2', H3'. split_and!.
  - intros E. by rewrite (Hi l l' Pl Pl' E).
  - intros Hlt. destruct (IsShutdownEvent l) eqn:E; [|done]. specialize (Hsd l l' Pl Pl' E). lia.
  - intros Hlt. destruct (IsShutdownEvent l') eqn:E; [|done]. specialize (Hsd l' l Pl' Pl E). lia.
  - intros i j (e & He & Hei)%H4 (f & Hf & Hfj)%H4'. eapply (Hri e f); eauto.
Qed.

Lemma Agent_MergeState_fields a b :
  let m := (Agent_MergeState a b).1 in
  a_RoutingInfo m = or_info (a_RoutingInfo a) (a_RoutingInfo b) ∧
  if LastEventIndex a <? LastEventIndex b then
    LastEventIndex m = LastEventIndex b ∧ LastEventTimestamp m = LastEventTimestamp b ∧
    ShutdownAt m = (match ShutdownAt b with Some t => Some t | None => ShutdownAt a end)
  else LastEventIndex m = LastEventIndex a ∧ LastEventTimestamp m = LastEventTimestamp a ∧ ShutdownAt m = ShutdownAt a.
Proof.
  unfold Agent_MergeState. destruct (LastEventIndex a <? LastEventIndex b), a as [? ? [] ?], b as [? ? [] ?]; done.
Qed.

Lemma summarises_merge es es' a b :
  (∀ f, f ∈ es → P f) → (∀ f, f ∈ es' → P f) → summarises es a → summarises es' b →
  summarises (es ++ es') (Agent_MergeState a b).1.
Proof.
  intros HP HP' Ha Hb. pose proof (summarises_same_agent es es' a b HP HP' Ha Hb) as (Heq & Hlt & Hgt & _).
  destruct Ha as (l & L1 & L2 & H1 & H2 & H3 & H4 & H5), Hb as (l' & L1' & L2' & H1' & H2' & H3' & H4' & H5').
  destruct (Agent_MergeState_fields a b) as [Mri M].
  assert (Hinfo : (∀ i, a_RoutingInfo (Agent_MergeState a b).1 = Some i → ∃ e, e ∈ es ++ es' ∧ heartbeat_info e = Some i) ∧
    (a_RoutingInfo (Agent_MergeState a b).1 = None → ∀ e, e ∈ es ++ es' → heartbeat_info e = None)).
  { rewrite Mri. unfold or_info. setoid_rewrite elem_of_app. destruct (a_RoutingInfo a); [naive_solver|]. naive_solver. }
  destruct (Z.ltb_spec (LastEventIndex a) (LastEventIndex b)) as [Hl|Hl]; destruct M as (M1 & M2 & M3).
  - exists l'. rewrite M1, M2, M3, (Hlt Hl). split_and!; try done; [set_solver| |by rewrite H3'; destruct (IsShutdownEvent l')|apply Hinfo..].
    intros e [He|He]%elem_of_app; [|by apply L2']. specialize (L2 e He). lia.
  - exists l. rewrite M1, M2, M3. split_and!; try done; [set_solver| |apply Hinfo..].
    intros e [He|He]%elem_of_app; [by apply L2|]. specialize (L2' e He). lia.
Qed.
End merged.

(** A strictly ordered history takes a check of its node. *)
Lemma strict_of_ordered {U : UrlLib} h :
  ordered h → NoDup h → (∀ x y, x ∈ h → y ∈ h → Health.Timestamp x = Health.Timestamp y → x = y) → strictly_ordered h.
Proof.
  induction 1 as [|x h Hh IH Hx]; intros Hnd Hone; [constructor|]. apply NoDup_cons in Hnd as [Hnin Hnd].
  rewrite Forall_forall in Hx. constructor; [apply IH; [done|set_solver]|]. apply Forall_forall. intros y Hy.
  specialize (Hx y Hy). simpl in Hx. destruct (decide (Health.Timestamp x = Health.Timestamp y)) as [E|]; [|lia].
  destruct Hnin. by rewrite (Hone x y) by (done || set_solver).
Qed.

Lemma MergeHealthcheck_strict {U : UrlLib} {UL : UrlLaws U} {S : SliceSort} id h hc :
  health_wf id h → Health.NodeID hc = id →
  (∀ x, x ∈ nh_History h → Health.Timestamp x = Health.Timestamp hc → x = hc) →
  health_wf id (NodeHealth_MergeHealthcheck h hc).1 ∧
  ∀ c, c ∈ nh_History (NodeHealth_MergeHealthcheck h hc).1 ↔ c ∈ nh_History h ∨ c = hc.
Proof.
  intros [Hid Hst] Hhc Hone. unfold NodeHealth_MergeHealthcheck, Insert. destruct h as [h]. cbn [nh_History] in *.
  rewrite (mismatch_one_node id) by done. destruct (existsb _ h) eqn:Ee.
  - rewrite Nat.eqb_refl. cbn. apply existsb_Equal in Ee. split; [by split|]. naive_solver.
  - assert (hc ∉ h) as Hnin by (intros Hin%existsb_Equal; congruence).
    pose proof (slice_sort_perm (λ x y, before (Health.Timestamp x) (Health.Timestamp y)) (h ++ [hc])) as Hp.
    set (m := slice_sort _ (h ++ [hc])) in *.
    rewrite (proj2 (Nat.eqb_neq _ _)) by (rewrite Hp, length_app; simpl; lia). cbn [fst nh_History].
    assert (Hel : ∀ c, c ∈ m ↔ c ∈ h ∨ c = hc) by (intros c; by rewrite Hp, elem_of_app, list_elem_of_singleton).
    split; [|done]. split; cbn [nh_History].
    + unfold one_node. rewrite Hp. apply Forall_app. split; [done|by constructor].
    + apply strict_of_ordered; [apply slice_sort_ordered|rewrite Hp; apply NoDup_app|].
      * split; [by apply strict_NoDup|]. split; [set_solver|apply NoDup_singleton].
      * intros x y [Hx| ->]%Hel [Hy| ->]%Hel E; try done; [|by apply Hone|symmetry; by apply Hone].
        by apply (strict_unique_instant h).
Qed.

(** ** Routers that gossip

    A router starts empty, receives events and checks, and merges the states of
    other such routers: [es] and [cs] are the events and checks it has received,
    itself or through its peers. *)

Section gossip.
Context {U : UrlLib} {I : UuidLib} {T : TimestampLib} {R : RangeOrder} {S : SliceSort}.

Inductive gossiped (sent : NodeEvent → Prop) (made : Check → Prop) : Router → list NodeEvent → list Check → Prop :=
| gossiped_new : gossiped sent made zero_router [] []
| gossiped_event r es cs e : sent e → gossiped sent made r es cs →
    gossiped sent made (Router_MergeNodeEvent r e).1 (es ++ [e]) cs
| gossiped_check r es cs c : made c → gossiped sent made r es cs →
    gossiped sent made (Router_MergeHealthcheck r c).1 es (cs ++ [c])
| gossiped_peer r es cs s es' cs' : gossiped sent made r es cs → gossiped sent made s es' cs' →
    gossiped sent made (Router_MergeState r s).1 (es ++ es') (cs ++ cs').

(** The events of a node and its checks. *)
Definition events_of (k : uuid) (es : list NodeEvent) : list NodeEvent := filter (λ e, NodeEvent.NodeID e = k) es.
Definition checks_of (k : uuid) (cs : list Check) : list Check := filter (λ c, Health.NodeID c = k) cs.

(** What a router knows of a node is what it has received. *)
Definition knows_agent (es : list NodeEvent) (a : option Agent) : Prop :=
  match a with Some a => summarises es a | None => es = [] end.
Definition knows_health (k : uuid) (cs : list Check) (h : option NodeHealth) : Prop :=
  match h with
  | Some h => health_wf k h ∧ cs ≠ [] ∧ ∀ c, c ∈ nh_History h ↔ c ∈ cs
  | None => cs = []
  end.
Definition knows (r : Router) (es : list NodeEvent) (cs : list Check) : Prop :=
  ∀ k, knows_agent (events_of k es) (Agents r !! k) ∧ knows_health k (checks_of k cs) (Health r !! k).
(** What the nodes and routers of the cluster ensure: the events of a node are
    numbered once each, none follows its shutdown, its routing info is constant;
    no two different checks of a node are taken at the same instant. *)
Record well_behaved (sent : NodeEvent → Prop) (made : Check → Prop) : Prop := {
  wb_events k : event_stream (λ e, sent e ∧ NodeEvent.NodeID e = k);
  wb_checks c d : made c → made d → Health.NodeID c = Health.NodeID d → Health.Timestamp c = Health.Timestamp d → c = d;
}.
End gossip.

Section gossip_lemmas.
Context {U : UrlLib} {I : UuidLib} {T : TimestampLib} {UL : UrlLaws U} {R : RangeOrder} {S : SliceSort}.
Context (sent : NodeEvent → Prop) (made : Check → Prop) (WB : well_behaved sent made).

Definition received (es : list NodeEvent) (cs : list Check) : Prop :=
  (∀ e, e ∈ es → sent e) ∧ (∀ c, c ∈ cs → made c).

Lemma events_of_elem k es e : e ∈ events_of k es ↔ e ∈ es ∧ NodeEvent.NodeID e = k.
Proof. unfold events_of. rewrite list_elem_of_filter. tauto. Qed.
Lemma checks_of_elem k cs c : c ∈ checks_of k cs ↔ c ∈ cs ∧ Health.NodeID c = k.
Proof. unfold checks_of. rewrite list_elem_of_filter. tauto. Qed.

Lemma gossiped_received r es cs : gossiped sent made r es cs → received es cs.
Proof.
  unfold received. induction 1 as [|r es cs e He H [IH1 IH2]|r es cs c Hc H [IH1 IH2]|r es cs s es' cs' H [IH1 IH2] H' [IH3 IH4]].
  - split; by intros x ?%not_elem_of_nil.
  - split; [|done]. intros x [?|Hx%list_elem_of_singleton]%elem_of_app; [auto|congruence].
  - split; [done|]. intros x [?|Hx%list_elem_of_singleton]%elem_of_app; [auto|congruence].
  - split; intros x [?|?]%elem_of_app; auto.
Qed.

Lemma knows_event r es cs e :
  received es cs → sent e → knows r es cs → knows (Router_MergeNodeEvent r e).1 (es ++ [e]) cs.
Proof.
  intros [Hes _] He HK k. destruct (HK k) as [Ha Hh]. unfold Router_MergeNodeEvent.
  destruct (decide (NodeEvent.NodeID e = k)) as [Hk|Hk].
  - assert (events_of k (es ++ [e]) = events_of k es ++ [e]) as ->
      by (unfold events_of; rewrite filter_app, filter_cons_True, filter_nil; done).
    assert (HP : ∀ f, f ∈ events_of k es ++ [e] → sent f ∧ NodeEvent.NodeID f = k).
    { intros f [Hf|Hf]%elem_of_app; [apply events_of_elem in Hf as [? ?]; auto|].
      by apply list_elem_of_singleton in Hf as ->. }
    rewrite Hk. destruct (Agents r !! k) as [a|]; cbn [knows_agent] in Ha.
    + pose proof (summarises_step _ _ a e (wb_events _ _ WB k) HP Ha) as Hsum.
      destruct (Agent_MergeNodeEvent a e) as [a' u]. cbn [fst Agents]. by rewrite lookup_insert_eq.
    + rewrite Ha in *. pose proof (summarises_events _ [] e (wb_events _ _ WB k) HP) as Hsum.
      unfold Agent_events in Hsum. cbn [app foldl] in Hsum.
      destruct (Agent_MergeNodeEvent zero_agent e) as [a' u]. cbn [fst Agents]. by rewrite lookup_insert_eq.
  - assert (events_of k (es ++ [e]) = events_of k es) as ->
      by (unfold events_of; rewrite filter_app, filter_cons_False, filter_nil, app_nil_r; done).
    repeat case_match; simplify_eq/=; by rewrite lookup_insert_ne.
Qed.

Lemma knows_check r es cs c :
  received es cs → made c → knows r es cs → knows (Router_MergeHealthcheck r c).1 es (cs ++ [c]).
Proof.
  intros [_ Hcs] Hc HK k. destruct (HK k) as [Ha Hh]. unfold Router_MergeHealthcheck.
  destruct (decide (Health.NodeID c = k)) as [Hk|Hk].
  - assert (checks_of k (cs ++ [c]) = checks_of k cs ++ [c]) as ->
      by (unfold checks_of; rewrite filter_app, filter_cons_True, filter_nil; done).
    assert (Hone : ∀ x, x ∈ checks_of k cs → Health.Timestamp x = Health.Timestamp c → x = c).
    { intros x [Hx Hxk]%checks_of_elem E. apply (wb_checks _ _ WB); [auto|done|congruence|done]. }
    rewrite Hk. set (h := match Health r !! k with Some nh => nh | None => zero_health end).
    assert (Hwf : health_wf k h ∧ ∀ x, x ∈ nh_History h ↔ x ∈ checks_of k cs).
    { unfold h. destruct (Health r !! k) as [nh|]; cbn [knows_health] in Hh; [naive_solver|].
      rewrite Hh. split; [|done]. split; constructor. }
    destruct Hwf as [Hwf Hel]. destruct (MergeHealthcheck_strict k h c Hwf Hk) as [Hwf' Hel'].
    { intros x Hx. apply Hone. by apply Hel. }
    assert (knows_health k (checks_of k cs ++ [c]) (Some (NodeHealth_MergeHealthcheck h c).1)) as Hnew.
    { cbn [knows_health]. split; [done|]. split; [by destruct (checks_of k cs)|].
      intros x. rewrite Hel', Hel, elem_of_app, list_elem_of_singleton. done. }
    unfold h in Hnew. destruct (Health r !! k) as [nh|];
      destruct (NodeHealth_MergeHealthcheck _ c) as [nh' u]; cbn [fst Agents Health]; by rewrite lookup_insert_eq.
  - assert (checks_of k (cs ++ [c]) = checks_of k cs) as ->
      by (unfold checks_of; rewrite filter_app, filter_cons_False, filter_nil, app_nil_r; done).
    repeat case_match; simplify_eq/=; by rewrite lookup_insert_ne.
Qed.

Lemma knows_compatible r es cs s es' cs' :
  received es cs → received es' cs' → knows r es cs → knows s es' cs' →
  router_wf r ∧ router_wf s ∧ compatible r s.
Proof.
  intros [Hes Hcs] [Hes' Hcs'] Hr Hs.
  assert (Hwf : ∀ r es cs, knows r es cs → router_wf r).
  { intros r0 es0 cs0 H k h Hk. destruct (H k) as [_ Hh]. rewrite Hk in Hh. apply Hh. }
  split_and!; [by eapply Hwf..|split].
  - intros k a b Ha Hb. destruct (Hr k) as [Hka _], (Hs k) as [Hkb _]. rewrite Ha in Hka. rewrite Hb in Hkb.
    eapply (summarises_same_agent _ (wb_events _ _ WB k)); [| |exact Hka|exact Hkb];
      intros f [Hf ?]%events_of_elem; auto.
  - intros k h g Hh Hg. destruct (Hr k) as [_ Hkh], (Hs k) as [_ Hkg]. rewrite Hh in Hkh. rewrite Hg in Hkg.
    destruct Hkh as (_ & _ & Hel), Hkg as (_ & _ & Hel'). intros x y Hx%Hel Hy%Hel' E.
    apply checks_of_elem in Hx as [Hx Hxk], Hy as [Hy Hyk]. apply (wb_checks _ _ WB); auto. congruence.
Qed.

Lemma knows_peer r es cs s es' cs' :
  received es cs → received es' cs' → knows r es cs → knows s es' cs' →
  knows (Router_MergeState r s).1 (es ++ es') (cs ++ cs').
Proof.
  intros H H' Hr Hs. destruct (knows_compatible r es cs s es' cs' H H' Hr Hs) as (Wr & Ws & _ & Hag).
  destruct H as [Hes _], H' as [Hes' _]. intros k. destruct (Hr k) as [Ha Hh], (Hs k) as [Ha' Hh'].
  unfold Router_MergeState.
  pose proof (merge_entries_range Agent_MergeState (Agents r) (Agents s)) as HA.
  pose proof (merge_entries_range NodeHealth_MergeState (Health r) (Health s)) as HH.
  destruct (merge_entries Agent_MergeState _ _ _ _) as [[ma na] ua], (merge_entries NodeHealth_MergeState _ _ _ _) as [[mh nh] uh].
  destruct HA as (HA & _), HH as (HH & _). cbn [fst Agents Health]. rewrite HA, HH. unfold events_of, checks_of. rewrite !filter_app.
  fold (events_of k es) (events_of k es') (checks_of k cs) (checks_of k cs'). split.
  - destruct (Agents r !! k) as [a|], (Agents s !! k) as [b|]; cbn [merged_entry knows_agent] in *;
      rewrite ?Ha, ?Ha', ?app_nil_r; try done.
    eapply (summarises_merge _ (wb_events _ _ WB k)); try done; intros f [Hf ?]%events_of_elem; auto.
  - destruct (Health r !! k) as [h|] eqn:Eh, (Health s !! k) as [g|] eqn:Eg; cbn [merged_entry knows_health] in *;
      rewrite ?Hh, ?Hh', ?app_nil_r; try done.
    destruct Hh as (Hwf & Hne & Hel), Hh' as (Hwf' & _ & Hel').
    destruct (NodeHealth_merge k h g Hwf Hwf' (Hag k h g Eh Eg)) as (m & Hm & Hwm & ->). cbn [fst nh_History].
    split; [done|]. split; [by destruct (checks_of k cs)|]. intros c. by rewrite Hm, Hel, Hel', elem_of_app.
Qed.

Lemma gossiped_knows r es cs : gossiped sent made r es cs → knows r es cs.
Proof.
  induction 1 as [|r es cs e He H IH|r es cs c Hc H IH|r es cs s es' cs' H IH H' IH'].
  - intros k. by cbn.
  - apply knows_event; [by eapply gossiped_received|done..].
  - apply knows_check; [by eapply gossiped_received|done..].
  - apply knows_peer; [by eapply gossiped_received..|done|done].
Qed.

(** The state of a router depends on what it has received, not on the order,
    the repetitions and the way it came. *)
Lemma knows_unique r es cs s es' cs' :
  received es cs → knows r es cs → knows s es' cs' → (∀ e, e ∈ es ↔ e ∈ es') → (∀ c, c ∈ cs ↔ c ∈ cs') → r = s.
Proof.
  intros [Hes Hcs] Hr Hs He Hc.
  assert (He' : ∀ k e, e ∈ events_of k es ↔ e ∈ events_of k es') by (intros k e; by rewrite !events_of_elem, He).
  assert (Hc' : ∀ k c, c ∈ checks_of k cs ↔ c ∈ checks_of k cs') by (intros k c; by rewrite !checks_of_elem, Hc).
  assert (Hnil : ∀ {A} (l l' : list A), (∀ x, x ∈ l ↔ x ∈ l') → l = [] → l' = []).
  { intros A l l' Hl ->. destruct l' as [|x l']; [done|]. destruct (not_elem_of_nil x). apply Hl. left. }
  assert (Agents r = Agents s ∧ Health r = Health s) as [? ?]; [|destruct r, s; simpl in *; congruence].
  split; apply map_eq; intros k; destruct (Hr k) as [Ha Hh], (Hs k) as [Ha' Hh']; specialize (He' k); specialize (Hc' k).
  - destruct (Agents r !! k) as [a|] eqn:E, (Agents s !! k) as [b|] eqn:E'; cbn [knows_agent] in *; [f_equal|..|done].
    + eapply (summarises_unique _ _ _ a b (wb_events _ _ WB k)); [|exact He'|done|done].
      intros f [Hf ?]%events_of_elem; auto.
    + assert (events_of k es = []) as E2 by (apply (Hnil _ (events_of k es')); [|done]; intros; by rewrite He').
      destruct Ha as (l & Hl & _). rewrite E2 in Hl. by apply not_elem_of_nil in Hl.
    + assert (events_of k es' = []) as E2 by by apply (Hnil _ (events_of k es)).
      destruct Ha' as (l & Hl & _). rewrite E2 in Hl. by apply not_elem_of_nil in Hl.
  - destruct (Health r !! k) as [h|] eqn:E, (Health s !! k) as [g|] eqn:E'; cbn [knows_health] in *; [f_equal|..|done].
    + destruct Hh as (Hwf & _ & Hel), Hh' as (Hwf' & _ & Hel'). destruct h as [h], g as [g]. f_equal.
      apply strictly_ordered_unique; [apply Hwf|apply Hwf'|]. intros c. by rewrite (Hel c), (Hel' c).
    + destruct Hh as (_ & Hne & _). destruct Hne. apply (Hnil _ (checks_of k cs')); [|done]. intros; by rewrite Hc'.
    + destruct Hh' as (_ & Hne & _). destruct Hne. by apply (Hnil _ (checks_of k cs)).
Qed.
End gossip_lemmas.

(** C11. Routers that gossip converge.  Suppose the events of a node are numbered
    once each, none follows its shutdown and its routing info is constant, and no
    two different checks of a node are taken at the same instant.  Take routers
    that start empty, receive any of the events and checks and merge each other's
    states, in any order and any number of times.  Then two routers that have
    received the same events and checks, themselves or through their peers, are
    in the same state.  Merging the states of any two is symmetric, merging the
    result again with either changes nothing and reports no change, and the nodes
    reported as changed are exactly those whose agent or health entry changed. *)
Theorem gossiping_routers_converge {U : UrlLib} {I : UuidLib} {T : TimestampLib} {UL : UrlLaws U} {R : RangeOrder} {S : SliceSort}
    (sent : NodeEvent → Prop) (made : Check → Prop) (r s : Router) es cs es' cs' :
  well_behaved sent made → gossiped sent made r es cs → gossiped sent made s es' cs' →
  ((∀ e, e ∈ es ↔ e ∈ es') → (∀ c, c ∈ cs ↔ c ∈ cs') → r = s) ∧
  let '(m, c) := Router_MergeState r s in
  (Router_MergeState s r).1 = m ∧
  Router_MergeState m r = (m, no_change) ∧ Router_MergeState m s = (m, no_change) ∧
  (∀ k, k ∈ NodeIDs c ↔ Agents m !! k ≠ Agents r !! k ∨ Health m !! k ≠ Health r !! k).
Proof.
  intros WB Hr Hs. pose proof (gossiped_received sent made r es cs Hr) as Rr. pose proof (gossiped_received sent made s es' cs' Hs) as Rs.
  pose proof (gossiped_knows sent made WB r es cs Hr) as Kr. pose proof (gossiped_knows sent made WB s es' cs' Hs) as Ks.
  split; [by eapply knows_unique|].
  destruct (knows_compatible sent made WB r es cs s es' cs' Rr Rs Kr Ks) as (Wr & Ws & Hc).
  pose proof (Router_MergeState_converges r s Wr Ws Hc) as H. destruct (Router_MergeState r s) as [m c].
  destruct H as (H1 & H2 & H3 & _ & _ & _ & H4). by split_and!.
Qed.

(** One router hears of a node's heartbeat and checks it, the other receives the
    event of its shutdown; they exchange their states in either order. *)
Definition demo_beat : @NodeEvent text_url := MkNodeEvent 3 (demo_id 1) 8 (Some (MkHeartbeat None None)).
Definition demo_last : @NodeEvent text_url := MkNodeEvent 4 (demo_id 1) 9 None.
Definition demo_seen : @Check text_url := demo_check7 1 200.
Definition demo_hears : @Router text_url := (Router_MergeHealthcheck (S:=insertion_slice_sort) (Router_MergeNodeEvent zero_router demo_beat).1 demo_seen).1.
Definition demo_told : @Router text_url := (Router_MergeNodeEvent zero_router demo_last).1.

Lemma gossiping_routers_converge_witness :
  (@Router_MergeState text_url elements_order demo_hears demo_told).1 = (@Router_MergeState text_url elements_order demo_told demo_hears).1 ∧
  Agents (@Router_MergeState text_url elements_order demo_hears demo_told).1 !! demo_id 1 = Some (MkAgent 4 9 None (Some 9)).
Proof.
  set (sent e := e = demo_beat ∨ e = demo_last). set (made c := c = demo_seen).
  assert (well_behaved sent made) as WB.
  { constructor; [|by intros c d -> ->]. intros k. constructor; intros *.
    - intros [[-> | ->] _] [[-> | ->] _]; simpl; done || lia.
    - intros [[-> | ->] _] [[-> | ->] _]; simpl; done || lia.
    - intros [[-> | ->] _] [[-> | ->] _]; done.
    - intros [[-> | ->] _]; done. }
  assert (gossiped (R:=elements_order) (S:=insertion_slice_sort) sent made demo_hears [demo_beat] [demo_seen]) as H1
    by (apply (gossiped_check _ _ _ [demo_beat] []), (gossiped_event _ _ _ []), gossiped_new; [done|by left]).
  assert (gossiped (R:=elements_order) (S:=insertion_slice_sort) sent made demo_told [demo_last] []) as H2
    by (apply (gossiped_event _ _ _ []), gossiped_new; by right).
  split; [|vm_compute; reflexivity].
  refine (proj1 (@gossiping_routers_converge text_url binary_uuid unix_timestamp text_url_laws elements_order insertion_slice_sort
    sent made _ _ _ _ _ _ WB (gossiped_peer _ _ _ _ _ _ _ _ H1 H2) (gossiped_peer _ _ _ _ _ _ _ _ H2 H1)) _ _).
  - intros e. simpl. rewrite !elem_of_cons. tauto.
  - intros c. simpl. tauto.
Defined.

(** Without that the merge is not symmetric: an event numbered after the
    shutdown hides it from one of the two orders. *)
Lemma event_after_shutdown_diverges {U : UrlLib} a b t :
  LastEventIndex a < LastEventIndex b → ShutdownAt a = Some t → ShutdownAt b = None →
  ShutdownAt (Agent_MergeState a b).1 = Some t ∧ ShutdownAt (Agent_MergeState b a).1 = None.
Proof.
  intros Hlt Ha Hb. destruct (Agent_MergeState_fields a b) as [_ Hm], (Agent_MergeState_fields b a) as [_ Hm'].
  rewrite (proj2 (Z.ltb_lt _ _)) in Hm by done. rewrite (proj2 (Z.ltb_ge _ _)) in Hm' by lia.
  destruct Hm as (_ & _ & ->), Hm' as (_ & _ & ->). by rewrite Ha, Hb.
Qed.

(** Events may arrive late, twice and in any order.  For events of one
    agent's stream, a router that received the same set of events in another
    order, or some of them repeatedly, keeps the same agent state: that of the
    event with the largest index, shut down exactly when that event is a
    shutdown, with the routing info any of the heartbeats carried. *)
Theorem Agent_events_any_order {U : UrlLib} (P : NodeEvent → Prop) es es' :
  event_stream P → (∀ f, f ∈ es → P f) → es ≠ [] → (∀ f, f ∈ es ↔ f ∈ es') →
  Agent_events es = Agent_events es' ∧ summarises es (Agent_events es).
Proof.
  intros HS HP Hne Heq.
  assert (Hsum : ∀ k, k ≠ [] → (∀ f, f ∈ k → P f) → summarises k (Agent_events k)).
  { intros k Hk Hkp. destruct k as [|e k _] using rev_ind; [done|]. by apply (summarises_events P). }
  assert (es' ≠ []) as Hne'.
  { intros ->. destruct es as [|e es]; [done|]. apply (not_elem_of_nil e), Heq. left. }
  assert (∀ f, f ∈ es' → P f) as HP' by (intros f Hf; by apply HP, Heq).
  split; [|by apply Hsum]. apply (summarises_unique P es es'); auto.
Qed.

Lemma Agent_events_any_order_witness :
  Agent_events (U:=text_url) [MkNodeEvent 4 (demo_id 1) 9 None; MkNodeEvent 3 (demo_id 1) 8 (Some (MkHeartbeat None None))]
  = Agent_events (U:=text_url) [MkNodeEvent 3 (demo_id 1) 8 (Some (MkHeartbeat None None)); MkNodeEvent 4 (demo_id 1) 9 None].
Proof.
  refine (proj1 (Agent_events_any_order (U:=text_url) (λ e, e = MkNodeEvent 4 (demo_id 1) 9 None ∨
    e = MkNodeEvent 3 (demo_id 1) 8 (Some (MkHeartbeat None None))) _ _ _ _ _ _)).
  - constructor; intros *.
    + intros [-> | ->] [-> | ->]; simpl; done || lia.
    + intros [-> | ->] [-> | ->]; simpl; done || lia.
    + intros [-> | ->] [-> | ->]; done.
    + intros [-> | ->]; done.
  - intros f Hf. rewrite !elem_of_cons in Hf. set_solver.
  - done.
  - intros f. rewrite !elem_of_cons. set_solver.
Defined.
