(* ===== verification/Manager.v ===== *)
(** The router: the state manager ([router/state/manager.go]), the graded node
    evaluator ([router/node_evaluation.go]), the routing set
    ([router/routing_set.go]) and the queries on them ([router/router.go]). *)

From S2P Require Import Prelude GoLib Health NodeEvent RouterApi RouterState.
From S2P Require Tags Evidence.

(** ** The evaluator interface of the manager *)

(** The two readings of the clock an evaluation makes. *)
Record EvalClock := MkClock { clock_now : Z; clock_grade : Z }.

Class NodeEvaluator {U : UrlLib} := {
  (** The routing info to route with and the delay until the next evaluation;
      [None] is a panic. *)
  Evaluate : EvalClock → option Agent → option NodeHealth → option (option RoutingInfo * option Z);
}.

(** What the manager relies on: an evicted node is not routed to, and a routed
    node has an agent that sent that info and has not shut down. *)
Class NodeEvaluatorContract {U : UrlLib} (E : NodeEvaluator) := {
  evict_not_routed c a h info : Evaluate c a h = Some (info, None) → info = None;
  routed_has_agent c a h info next : Evaluate c a h = Some (Some info, next) →
    ∃ ag, a = Some ag ∧ a_RoutingInfo ag = Some info ∧ ShutdownAt ag = None;
}.

(** [GradedNodeEvaluator] *)
Definition GradedNodeEvaluator {U : UrlLib} (g : GraderConfig) (interval : Z) : NodeEvaluator := {|
  Evaluate c a nh :=
    match a, nh with
    | None, None => Some (None, None)
    | _, _ =>
        let dropped :=
          match a with
          | None => false
          | Some a =>
              match ShutdownAt a with
              | Some _ => true
              | None => before (LastEventTimestamp a) (clock_now c + - MaxAge g)
              end
          end in
        if dropped then Some (None, None)
        else
          let history := match nh with Some nh => nh_History nh | None => [] end in
          match Grade g (clock_grade c) history with
          | StatusOK => a ← a; Some (a_RoutingInfo a, Some interval)
          | StatusUnknown => Some (None, Some interval)
          | StatusUnavailable => Some (None, None)
          end
    end;
|}.

#[export] Instance graded_contract {U : UrlLib} g interval : NodeEvaluatorContract (GradedNodeEvaluator g interval).
Proof.
  split.
  - intros c a h info. simpl. destruct a as [a|], h as [h|]; simpl; repeat case_match; naive_solver.
  - intros c a h info next. simpl. destruct a as [a|], h as [h|]; simpl; repeat case_match; naive_solver.
Qed.

Section manager.
Context {U : UrlLib} {I : UuidLib} {T : TimestampLib} {R : RangeOrder} {S : SliceSort}.

(** ** [routing_set.go] *)

Abbreviation routingSet := (gmap uuid RoutingInfo).

Definition Update (r : routingSet) (add : gmap uuid RoutingInfo) (deletes : list uuid) : routingSet :=
  foldl (λ r id, delete id r) (add ∪ r) deletes.

Fixpoint query_loop (nodes : list (uuid * RoutingInfo)) (q : ComputeManifestRequest)
    (found : list ComputeManifest) : list ComputeManifest :=
  match nodes with
  | [] => found
  | (id, node) :: nodes =>
      if Z.of_nat (length found) =? Limit q then found
      else if Tags.ContainsAll (NodeEvent.Tags node) (req_Tags q)
      then query_loop nodes q (found ++ [MkManifest id (NodeEvent.Tags node) (NodeEvent.Evidence node)])
      else query_loop nodes q found
  end.

Definition queryComputeManifests (r : routingSet) (q : ComputeManifestRequest) : list ComputeManifest :=
  if Limit q <=? 0 then [] else query_loop (range_map r) q [].

Definition queryRoutingInfoForCandidates (r : routingSet) (candidates : list ComputeCandidate) :
    list (uuid * RoutingInfo) :=
  omap (λ candidate, (cand_ID candidate,.) <$> r !! cand_ID candidate) candidates.

(** ** [manager.go] *)

(** [bgEvaluations] is the delay pool: the nodes that will come out of it, with
    their delays.  The routing set of the manager is part of its state here. *)
Record Manager := MkManager {
  state : Router;
  knownNodeCount : Z;
  bgEvaluations : list (uuid * Z);
  bgClosed : bool;
  routing : routingSet;
}.
Definition NewManager : Manager := MkManager zero_router 0 [] false ∅.

Context {E : NodeEvaluator}.

Definition bg_add (nodeID : uuid) (d : Z) (m : Manager) : Manager :=
  if bgClosed m then m
  else MkManager (state m) (knownNodeCount m) (bgEvaluations m ++ [(nodeID, d)]) (bgClosed m) (routing m).

Definition evaluateNode (c : EvalClock) (nodeID : uuid) (scheduleBgEval : bool) (m : Manager) :
    option (option RoutingInfo * Manager) :=
  let a := Agents (state m) !! nodeID in
  let nh := RouterState.Health (state m) !! nodeID in
  '(info, nextCheck) ← Evaluate c a nh;
  let m :=
    match nextCheck with
    | Some d => if scheduleBgEval then bg_add nodeID d m else m
    | None =>
        MkManager (MkRouter (delete nodeID (Agents (state m))) (delete nodeID (RouterState.Health (state m))))
          (knownNodeCount m - 1) (bgEvaluations m) (bgClosed m) (routing m)
    end in
  Some (info, m).

(** The loop over the changed nodes; [rsAdds] and [rsDels] are the pending
    update of the routing set. *)
Fixpoint evaluate_nodes (c : EvalClock) (nodeIDs : list uuid) (change : RouterChange)
    (rsAdds : gmap uuid RoutingInfo) (rsDels : list uuid) (m : Manager) :
    option (gmap uuid RoutingInfo * list uuid * Manager) :=
  match nodeIDs with
  | [] => Some (rsAdds, rsDels, m)
  | nodeID :: nodeIDs =>
      let isNew := IsNewNode change nodeID in
      '(info, m) ← evaluateNode c nodeID isNew m;
      let '(rsAdds, rsDels) :=
        match info with
        | Some info => (<[nodeID := info]> rsAdds, rsDels)
        | None => (rsAdds, rsDels ++ [nodeID])
        end in
      let m := if isNew
               then MkManager (state m) (knownNodeCount m + 1) (bgEvaluations m) (bgClosed m) (routing m)
               else m in
      evaluate_nodes c nodeIDs change rsAdds rsDels m
  end.

Definition set_routing (m : Manager) (r : routingSet) : Manager :=
  MkManager (state m) (knownNodeCount m) (bgEvaluations m) (bgClosed m) r.
Definition set_state (m : Manager) (s : Router) : Manager :=
  MkManager s (knownNodeCount m) (bgEvaluations m) (bgClosed m) (routing m).

Definition evaluateRouterChange (c : EvalClock) (change : RouterChange) (m : Manager) : option Manager :=
  if negb (ChangedState change) then Some m
  else
    '(rsAdds, rsDels, m) ← evaluate_nodes c (range_keys (NodeIDs change)) change ∅ [] m;
    Some (set_routing m (Update (routing m) rsAdds rsDels)).

Definition MergeRouterState (c : EvalClock) (s : Router) (m : Manager) : option Manager :=
  let '(r, change) := Router_MergeState (state m) s in
  evaluateRouterChange c change (set_state m r).
Definition MergeNodeEvent (c : EvalClock) (ev : NodeEvent) (m : Manager) : option Manager :=
  let '(r, change) := Router_MergeNodeEvent (state m) ev in
  evaluateRouterChange c change (set_state m r).
Definition MergeHealthcheck (c : EvalClock) (hc : Check) (m : Manager) : option Manager :=
  let '(r, change) := Router_MergeHealthcheck (state m) hc in
  evaluateRouterChange c change (set_state m r).

(** One round of the background worker, for the [i]-th scheduled evaluation
    once the pool hands it out. *)
Definition bgEvaluationStep (c : EvalClock) (i : nat) (m : Manager) : option Manager :=
  match bgEvaluations m !! i with
  | None => Some m
  | Some (nodeID, _) =>
      let m := MkManager (state m) (knownNodeCount m) (delete i (bgEvaluations m)) (bgClosed m) (routing m) in
      '(info, m) ← evaluateNode c nodeID true m;
      Some (set_routing m
        (match info with
         | Some info => Update (routing m) {[ nodeID := info ]} []
         | None => Update (routing m) ∅ [nodeID]
         end))
  end.

Definition KnownNodeCount (m : Manager) : Z := knownNodeCount m.

(** Closing the pool immediately drops what it holds. *)
Definition Close (m : Manager) : Manager := MkManager (state m) (knownNodeCount m) [] true (routing m).

(** ** [router.go] *)

Definition QueryComputeManifests (m : Manager) (q : ComputeManifestRequest) : list ComputeManifest :=
  queryComputeManifests (routing m) q.

Definition QueryHealthcheckTargets (m : Manager) : gmap uuid url * Z :=
  let targets := omap (λ a, if CanHealthcheck a then NodeEvent.HealthcheckURL <$> a_RoutingInfo a else None)
                   (Agents (state m)) in
  (targets, Z.of_nat (size targets)).

(** [idx] is the random number below the number of routable candidates. *)
Definition PickNodeFromCandidates (m : Manager) (candidates : list ComputeCandidate) (idx : option nat) :
    result goerror (ComputeCandidate * url) :=
  let infos := queryRoutingInfoForCandidates (routing m) candidates in
  if (length infos =? 0)%nat then Err (ErrorNew "did not find any available nodes")
  else
    match idx with
    | None => Err (ErrorNew "failed to pick random number")
    | Some i =>
        match infos !! i with
        | None => Err (ErrorNew "index out of range")
        | Some (id, info) =>
            match list_find (λ candidate, cand_ID candidate = id) candidates with
            | Some (_, candidate) => Ok (candidate, NodeEvent.URL info)
            | None => Err (ErrorNew "did not find any available nodes")
            end
        end
    end.

(** ** Runs *)

(** What happens to a router: node events and health checks, states of peers,
    scheduled evaluations, closing.  A panic ends the process: there is no
    step. *)
Inductive local_step : Manager → Manager → Prop :=
| mstep_event c ev m m' : MergeNodeEvent c ev m = Some m' → local_step m m'
| mstep_check c hc m m' : MergeHealthcheck c hc m = Some m' → local_step m m'
| mstep_bg c i m m' : bgEvaluationStep c i m = Some m' → local_step m m'.
Inductive manager_step : Manager → Manager → Prop :=
| mstep_local m m' : local_step m m' → manager_step m m'
| mstep_peer c s m m' : MergeRouterState c s m = Some m' → manager_step m m'
| mstep_close m : manager_step m (Close m).
End manager.

(** ** The routing set is sound *)

Section routed.
Context {U : UrlLib} {I : UuidLib} {T : TimestampLib} {R : RangeOrder} {S : SliceSort}.
Context {E : NodeEvaluator} {EC : NodeEvaluatorContract E}.

(** The agent of a routed node sent that routing info and is running. *)
Definition agent_routes (s : Router) (id : uuid) (info : RoutingInfo) : Prop :=
  ∃ ag, Agents s !! id = Some ag ∧ a_RoutingInfo ag = Some info ∧ ShutdownAt ag = None.
Definition routed_ok (m : Manager) : Prop :=
  ∀ id info, routing m !! id = Some info → agent_routes (state m) id info.

Lemma bg_add_routing id d m : routing (bg_add id d m) = routing m ∧ state (bg_add id d m) = state m.
Proof. unfold bg_add. by destruct (bgClosed m). Qed.

Lemma evaluateNode_spec c id sched m info m' :
  evaluateNode c id sched m = Some (info, m') →
  routing m' = routing m ∧ (∀ i, info = Some i → agent_routes (state m') id i) ∧
  (∀ k, k ≠ id → Agents (state m') !! k = Agents (state m) !! k).
Proof.
  unfold evaluateNode. intros H. apply bind_Some in H as ([i next] & Hev & [= <- <-]).
  destruct next as [d|].
  - assert (routing (if sched then bg_add id d m else m) = routing m ∧
      state (if sched then bg_add id d m else m) = state m) as [-> ->]
      by (destruct sched; [apply bg_add_routing|done]).
    split_and!; try done. intros i' ->. apply routed_has_agent in Hev as (ag & ? & ? & ?). by exists ag.
  - apply evict_not_routed in Hev as ->. cbn. split_and!; [done|done|].
    intros k Hk. by rewrite lookup_delete_ne.
Qed.

(** The outcome of the loop for every node. *)
Lemma evaluate_nodes_spec c ids change adds dels m adds' dels' m' :
  NoDup ids → evaluate_nodes c ids change adds dels m = Some (adds', dels', m') →
  routing m' = routing m ∧
  (∀ k, k ∉ ids → Agents (state m') !! k = Agents (state m) !! k ∧ adds' !! k = adds !! k ∧ (k ∈ dels' ↔ k ∈ dels)) ∧
  (∀ k, k ∈ ids → k ∈ dels' ∨ ∃ info, adds' !! k = Some info ∧ agent_routes (state m') k info).
Proof.
  revert adds dels m. induction ids as [|id ids IH]; intros adds dels m Hnd H; cbn [evaluate_nodes] in H.
  { injection H as <- <- <-. split_and!; try done. intros k []%not_elem_of_nil. }
  apply NoDup_cons in Hnd as [Hnin Hnd]. apply bind_Some in H as ([info m1] & Hev & H).
  apply evaluateNode_spec in Hev as (Hr1 & Hi1 & Ha1).
  set (m2 := if IsNewNode change id then _ else _) in H.
  assert (routing m2 = routing m1 ∧ state m2 = state m1) as [Hr2 Hs2] by (subst m2; by destruct (IsNewNode _ _)).
  destruct info as [info|]; apply IH in H as (IH1 & IH2 & IH3); try done; rewrite Hr2, Hr1 in IH1; rewrite Hs2 in IH2.
  - split_and!; [done| |].
    + intros k [Hk Hk']%not_elem_of_cons. destruct (IH2 k Hk') as (-> & -> & ?).
      rewrite lookup_insert_ne by done. rewrite Ha1 by done. done.
    + intros k [->|Hk]%elem_of_cons; [|by apply IH3]. right. exists info.
      destruct (IH2 id Hnin) as (Ha & -> & _). rewrite lookup_insert_eq. split; [done|].
      destruct (Hi1 info eq_refl) as (ag & ? & ? & ?). exists ag. by rewrite Ha.
  - split_and!; [done| |].
    + intros k [Hk Hk']%not_elem_of_cons. destruct (IH2 k Hk') as (-> & -> & Hd).
      rewrite Ha1 by done. split_and!; [done|done|]. rewrite Hd, elem_of_app, list_elem_of_singleton. naive_solver.
    + intros k [->|Hk]%elem_of_cons; [|by apply IH3]. left. apply IH2; [done|].
      apply elem_of_app. right. by apply list_elem_of_singleton.
Qed.

Lemma Update_lookup (r adds : gmap uuid RoutingInfo) dels k :
  Update r adds dels !! k = if decide (k ∈ dels) then None else (adds ∪ r) !! k.
Proof.
  unfold Update. generalize (adds ∪ r). clear r adds. intros r. revert r.
  induction dels as [|d dels IH]; intros r; cbn [foldl]; [by rewrite decide_False by apply not_elem_of_nil|].
  rewrite IH. destruct (decide (k ∈ dels)) as [Hk|Hk].
  - by rewrite decide_True by (by right).
  - destruct (decide (k = d)) as [->|Hne].
    + rewrite decide_True by left. by rewrite lookup_delete_eq.
    + rewrite decide_False by (by intros [?|?]%elem_of_cons). by rewrite lookup_delete_ne.
Qed.

(** A change evaluated: sound again, if only changed nodes lost their agent. *)
Lemma evaluateRouterChange_ok c change m m' :
  (∀ id info, routing m !! id = Some info → id ∈ NodeIDs change ∨ agent_routes (state m) id info) →
  evaluateRouterChange c change m = Some m' → routed_ok m'.
Proof.
  intros Hpre. unfold evaluateRouterChange.
  destruct (ChangedState change) eqn:Ec; cbn [negb].
  2: { intros [= <-] id info Hid. destruct (Hpre id info Hid) as [Hin|]; [|done].
    unfold ChangedState in Ec. apply Z.ltb_ge in Ec. unfold NodeIDs in Hin.
    destruct (Z.eqb_spec (Changes change) 0); [set_solver|]. unfold Changes in *. lia. }
  intros H. apply bind_Some in H as ([[adds dels] m1] & H & [= <-]).
  apply evaluate_nodes_spec in H as (Hr & Hout & Hin); [|apply range_keys_nodup].
  intros id info. cbn [set_routing routing state]. rewrite Update_lookup.
  destruct (decide (id ∈ dels)) as [|Hd]; [done|].
  destruct (decide (id ∈ range_keys (NodeIDs change))) as [Hid|Hid].
  - destruct (Hin id Hid) as [?|(info' & Hadd & Hag)]; [done|].
    intros Hl. apply lookup_union_Some_raw in Hl as [Hl|[Hl _]]; congruence.
  - destruct (Hout id Hid) as (Ha & Hadd & _). rewrite lookup_empty in Hadd.
    intros Hl. apply lookup_union_Some_raw in Hl as [Hl|[_ Hl]]; [congruence|].
    rewrite Hr in Hl. destruct (Hpre id info Hl) as [Hc|(ag & ? & ? & ?)].
    + destruct Hid. by apply range_keys_elem.
    + exists ag. by rewrite Ha.
Qed.

Lemma Agent_MergeNodeEvent_false a e a' : Agent_MergeNodeEvent a e = (a', false) → a' = a.
Proof. unfold Agent_MergeNodeEvent. destruct (_ || _); [done|]. destruct (adopt_info a e); [done|]. by intros [= <-]. Qed.

Lemma Agent_MergeState_false a b : (Agent_MergeState a b).2 = false → (Agent_MergeState a b).1 = a.
Proof.
  unfold Agent_MergeState. destruct (_ <? _); destruct a as [i t [r|] s], b as [i' t' [r'|] s']; simpl; done.
Qed.

(** Only nodes reported as changed have another agent after a merge. *)
Lemma event_changes r e k :
  let '(r', change) := Router_MergeNodeEvent r e in
  k ∈ NodeIDs change ∨ Agents r' !! k = Agents r !! k.
Proof.
  unfold Router_MergeNodeEvent. destruct (Agents r !! NodeEvent.NodeID e) as [a|] eqn:Ea.
  - destruct (Agent_MergeNodeEvent a e) as [a' [|]] eqn:Em; cbn [Agents].
    + destruct (decide (k = NodeEvent.NodeID e)) as [->|Hk]; [left|right; by rewrite lookup_insert_ne].
      apply NodeIDs_elem. left. apply elem_of_union_r. cbn [UpdatedAgents andb]. rewrite size_empty.
      by apply elem_of_singleton.
    + right. apply Agent_MergeNodeEvent_false in Em as ->. by rewrite insert_id.
  - destruct (Agent_MergeNodeEvent zero_agent e) as [a' b].
    destruct (decide (k = NodeEvent.NodeID e)) as [->|Hk]; [left|right; cbn; by rewrite lookup_insert_ne].
    apply NodeIDs_elem. left. apply elem_of_union_l. cbn [NewAgents]. by apply elem_of_singleton.
Qed.

Lemma check_changes r hc : Agents (Router_MergeHealthcheck r hc).1 = Agents r.
Proof.
  unfold Router_MergeHealthcheck. destruct (RouterState.Health r !! Health.NodeID hc);
    by destruct (NodeHealth_MergeHealthcheck _ _).
Qed.

Lemma peer_changes r s k :
  let '(r', change) := Router_MergeState r s in
  k ∈ NodeIDs change ∨ Agents r' !! k = Agents r !! k.
Proof.
  unfold Router_MergeState.
  pose proof (merge_entries_range Agent_MergeState (Agents r) (Agents s)) as HA.
  destruct (merge_entries Agent_MergeState _ _ _ _) as [[ma na] ua]. destruct HA as (A1 & A2 & A3).
  destruct (merge_entries NodeHealth_MergeState _ _ _ _) as [[mh nh] uh]. cbn [Agents].
  rewrite NodeIDs_elem. cbn [NewAgents UpdatedAgents NewHealth UpdatedHealth].
  rewrite elem_of_union, A2, A3, elem_of_difference, elem_of_dom, not_elem_of_dom, A1.
  destruct (Agents r !! k) as [a|] eqn:Ea, (Agents s !! k) as [b|] eqn:Eb; cbn [merged_entry]; eauto.
  destruct (Agent_MergeState a b).2 eqn:E2.
  - left. left. right. eauto.
  - right. by rewrite Agent_MergeState_false.
Qed.

Lemma manager_step_routed m m' : manager_step m m' → routed_ok m → routed_ok m'.
Proof.
  intros Hstep Hok. destruct Hstep as [m m' [c ev m0 m1 H|c hc m0 m1 H|c i m0 m1 H]|c s m0 m1 H|m0].
  - unfold MergeNodeEvent in H. destruct (Router_MergeNodeEvent (state m0) ev) as [r change] eqn:Er.
    eapply evaluateRouterChange_ok; [|exact H]. intros id info Hid. cbn [set_state state routing] in *.
    pose proof (event_changes (state m0) ev id) as Hc. rewrite Er in Hc. destruct Hc as [?|Hc]; [by left|right].
    destruct (Hok id info Hid) as (ag & ? & ? & ?). exists ag. by rewrite Hc.
  - unfold MergeHealthcheck in H. destruct (Router_MergeHealthcheck (state m0) hc) as [r change] eqn:Er.
    eapply evaluateRouterChange_ok; [|exact H]. intros id info Hid. right. cbn [set_state state routing] in *.
    pose proof (check_changes (state m0) hc) as Hc. rewrite Er in Hc. cbn [fst] in Hc.
    destruct (Hok id info Hid) as (ag & ? & ? & ?). exists ag. by rewrite Hc.
  - unfold bgEvaluationStep in H. destruct (bgEvaluations m0 !! i) as [[id d]|]; [|by injection H as <-].
    apply bind_Some in H as ([info m2] & Hev & [= <-]).
    apply evaluateNode_spec in Hev as (Hr & Hi & Ha). cbn [routing state] in *.
    intros k ki. cbn [set_routing routing state]. destruct info as [info|]; rewrite Update_lookup.
    + rewrite decide_False by apply not_elem_of_nil. rewrite lookup_union_Some_raw, lookup_singleton_Some, lookup_singleton_None.
      intros [[<- <-]|[Hne Hl]]; [by apply Hi|]. rewrite Hr in Hl. destruct (Hok k ki Hl) as (ag & ? & ? & ?).
      exists ag. by rewrite Ha.
    + destruct (decide (k ∈ [id])) as [|Hk]; [done|]. rewrite list_elem_of_singleton in Hk.
      rewrite (left_id_L ∅ (∪)). rewrite Hr. intros Hl. destruct (Hok k ki Hl) as (ag & ? & ? & ?).
      exists ag. by rewrite Ha.
  - unfold MergeRouterState in H. destruct (Router_MergeState (state m0) s) as [r change] eqn:Er.
    eapply evaluateRouterChange_ok; [|exact H]. intros id info Hid. cbn [set_state state routing] in *.
    pose proof (peer_changes (state m0) s id) as Hc. rewrite Er in Hc. destruct Hc as [?|Hc]; [by left|right].
    destruct (Hok id info Hid) as (ag & ? & ? & ?). exists ag. by rewrite Hc.
  - done.
Qed.

Lemma manager_run_routed m : rtc manager_step NewManager m → routed_ok m.
Proof.
  intros H. remember NewManager as m0 eqn:E0. assert (routed_ok m0) as H0.
  { rewrite E0. intros id info Hid. cbn in Hid. by rewrite lookup_empty in Hid. }
  clear E0. induction H; eauto using manager_step_routed.
Qed.
End routed.

(** C37. The router only hands out running nodes.  Whatever events, health
    checks, peer states and background evaluations it has processed, a node
    picked for a request is one of the request's candidates, its agent is known
    and has not shut down, and the URL is the one that agent announced; picking
    fails exactly when no candidate is routable. *)
Theorem picked_node_running {U : UrlLib} {R : RangeOrder} {S : SliceSort}
    {E : NodeEvaluator} {EC : NodeEvaluatorContract E} m candidates i :
  rtc manager_step NewManager m →
  let routable c := is_Some (routing m !! cand_ID c) in
  (i < length (queryRoutingInfoForCandidates (routing m) candidates) ∨ ∀ c, c ∈ candidates → ¬ routable c)%nat →
  match PickNodeFromCandidates m candidates (Some i) with
  | Ok (c, u) =>
      c ∈ candidates ∧ ∃ ag info, Agents (state m) !! cand_ID c = Some ag ∧ ShutdownAt ag = None ∧
        a_RoutingInfo ag = Some info ∧ u = NodeEvent.URL info
  | Err _ => ∀ c, c ∈ candidates → ¬ routable c
  end.
Proof.
  intros Hrun routable Hi. pose proof (manager_run_routed m Hrun) as Hok.
  unfold PickNodeFromCandidates. set (infos := queryRoutingInfoForCandidates (routing m) candidates) in *.
  assert (Hinfos : ∀ id info, (id, info) ∈ infos ↔ routing m !! id = Some info ∧ ∃ c, c ∈ candidates ∧ cand_ID c = id).
  { intros id info. unfold infos, queryRoutingInfoForCandidates. rewrite list_elem_of_omap. split.
    - intros (c & Hc & (info' & Hl & [= -> ->])%fmap_Some). eauto.
    - intros (Hl & c & Hc & <-). exists c. by rewrite Hl. }
  destruct (Nat.eqb_spec (length infos) 0) as [E0|E0].
  { intros c Hc [info Hl]. assert ((cand_ID c, info) ∈ infos) as Hin by (apply Hinfos; eauto).
    apply length_zero_iff_nil in E0. rewrite E0 in Hin. by apply not_elem_of_nil in Hin. }
  destruct Hi as [Hi|Hno].
  - destruct (lookup_lt_is_Some_2 infos i Hi) as [[id info] Hx]. rewrite Hx.
    apply list_elem_of_lookup_2, Hinfos in Hx as (Hl & c & Hc & Hid).
    destruct (list_find (λ candidate, cand_ID candidate = id) candidates) as [[j c']|] eqn:Ef.
    + apply list_find_Some in Ef as (Hj & Hid' & _). split; [by eapply list_elem_of_lookup_2|].
      destruct (Hok id info Hl) as (ag & Ha & Hi' & Hs). exists ag, info. by rewrite Hid'.
    + apply list_find_None in Ef. rewrite Forall_forall in Ef. by destruct (Ef c Hc).
  - destruct infos as [|[id info] infos']; [done|]. exfalso.
    destruct (proj1 (Hinfos id info)) as (Hl & c & Hc & <-); [by left|]. apply (Hno c Hc). by exists info.
Qed.

(** *** Manifest queries *)

Section queries.
Context {U : UrlLib} {R : RangeOrder}.

Definition matches (q : ComputeManifestRequest) (info : RoutingInfo) : Prop := req_Tags q ⊆ NodeEvent.Tags info.
#[global] Instance matches_dec q info : Decision (matches q info).
Proof. unfold matches. apply _. Defined.

Lemma query_loop_eq nodes q found :
  Z.of_nat (length found) ≤ Limit q →
  query_loop nodes q found = found ++
    take (Z.to_nat (Limit q) - length found)
      ((λ '(id, node), MkManifest id (NodeEvent.Tags node) (NodeEvent.Evidence node)) <$>
         filter (λ kv, matches q kv.2) nodes).
Proof.
  revert found. induction nodes as [|[id node] nodes IH]; intros found Hf; cbn [query_loop].
  { simpl. by rewrite take_nil, app_nil_r. }
  destruct (Z.eqb_spec (Z.of_nat (length found)) (Limit q)) as [E|E].
  { replace (Z.to_nat (Limit q) - length found)%nat with O by lia. by rewrite take_0, app_nil_r. }
  destruct (Tags.ContainsAll (NodeEvent.Tags node) (req_Tags q)) eqn:Et.
  - apply Tags.ContainsAll_spec in Et. rewrite IH by (rewrite length_app; simpl; lia).
    rewrite filter_cons_True by done. rewrite <- app_assoc. f_equal. rewrite length_app. cbn [length].
    replace (Z.to_nat (Limit q) - length found)%nat with (Datatypes.S (Z.to_nat (Limit q) - (length found + 1))) by lia.
    done.
  - rewrite IH by done. rewrite filter_cons_False; [done|]. intros Hm. by rewrite (proj2 (Tags.ContainsAll_spec _ _) Hm) in Et.
Qed.
End queries.

(** A manifest query returns the tags and evidence of distinct routed nodes
    that carry all requested tags, at most [Limit] of them, and all of them when
    there are no more. *)
Theorem queryComputeManifests_spec {U : UrlLib} {R : RangeOrder} (r : gmap uuid RoutingInfo) q :
  let l := queryComputeManifests r q in
  let n := length (filter (λ kv, matches q kv.2) (map_to_list r)) in
  Z.of_nat (length l) = Z.min (Z.of_nat n) (Z.max 0 (Limit q)) ∧
  NoDup (ID <$> l) ∧
  (∀ x, x ∈ l → ∃ info, r !! ID x = Some info ∧ matches q info ∧
    x = MkManifest (ID x) (NodeEvent.Tags info) (NodeEvent.Evidence info)) ∧
  (Z.of_nat n ≤ Limit q → 0 < Limit q → ∀ id info, r !! id = Some info → matches q info → id ∈ ID <$> l).
Proof.
  unfold queryComputeManifests. set (n := length (filter _ (map_to_list r))).
  assert (Hperm : filter (λ kv : uuid * RoutingInfo, matches q kv.2) (range_map r)
    ≡ₚ filter (λ kv, matches q kv.2) (map_to_list r)).
  { apply filter_Permutation. apply NoDup_Permutation.
    - eapply NoDup_fmap_1, range_map_nodup.
    - apply NoDup_map_to_list.
    - intros [k x]. by rewrite range_map_elem, elem_of_map_to_list. }
  destruct (Z.leb_spec (Limit q) 0).
  { simpl. split_and!; [lia|constructor|intros ? []%not_elem_of_nil|lia]. }
  rewrite query_loop_eq by (simpl; lia). cbn [app length]. rewrite Nat.sub_0_r.
  set (all := filter (λ kv, matches q kv.2) (range_map r)) in *.
  set (f := λ kv : uuid * RoutingInfo, let '(id, node) := kv in MkManifest id (NodeEvent.Tags node) (NodeEvent.Evidence node)).
  assert (Hlen : length all = n) by by rewrite Hperm.
  assert (Hids : ∀ l : list (uuid * RoutingInfo), ID <$> (f <$> l) = l.*1).
  { intros l. rewrite <- list_fmap_compose. apply list_fmap_ext. by intros ? [? ?]. }
  assert (Hall : ∀ kv, kv ∈ all → r !! kv.1 = Some kv.2 ∧ matches q kv.2).
  { intros [k x] [Hm Hkv]%list_elem_of_filter. simpl in *. by apply range_map_elem in Hkv. }
  rewrite <- fmap_take. split_and!.
  - rewrite length_fmap, length_take, Hlen. lia.
  - rewrite Hids. eapply sublist_NoDup; [apply (range_map_nodup r)|]. apply fmap_sublist.
    etrans; [apply sublist_take|apply sublist_filter].
  - intros x ([k info] & -> & Hkv)%list_elem_of_fmap. simpl.
    destruct (Hall (k, info)) as [Hk Hm]; [by eapply elem_of_take in Hkv as (? & ? & ?); eapply list_elem_of_lookup_2|].
    exists info. done.
  - intros Hle _ id info Hid Hm. rewrite Hids. rewrite take_ge by (rewrite Hlen; lia).
    apply list_elem_of_fmap. exists (id, info). split; [done|]. apply list_elem_of_filter. split; [done|].
    by apply range_map_elem.
Qed.

(** ** Background evaluations *)

Section scheduled.
Context {U : UrlLib} {I : UuidLib} {T : TimestampLib} {R : RangeOrder} {S : SliceSort} {E : NodeEvaluator}.

Definition known (m : Manager) (k : uuid) : Prop :=
  is_Some (Agents (state m) !! k) ∨ is_Some (RouterState.Health (state m) !! k).
Definition pending (m : Manager) (k : uuid) : Prop := ∃ d, (k, d) ∈ bgEvaluations m.
(** Every known node will be looked at again. *)
Definition all_scheduled (m : Manager) : Prop := bgClosed m = false ∧ ∀ k, known m k → pending m k.

Lemma evaluateNode_scheduled c id sched m info m' :
  evaluateNode c id sched m = Some (info, m') → bgClosed m = false →
  bgClosed m' = false ∧ (∀ k, known m' k → known m k) ∧ (∀ k, pending m k → pending m' k) ∧
  (sched = true → known m' id → pending m' id).
Proof.
  unfold evaluateNode, bg_add, known, pending. intros H Hc. apply bind_Some in H as ([i next] & _ & [= _ <-]).
  destruct next as [d|]; [destruct sched; rewrite ?Hc|]; cbn.
  - split_and!; [done|done| |].
    + intros k [d' Hd']. exists d'. set_solver.
    + intros _ _. exists d. set_solver.
  - split_and!; done.
  - split_and!; [done| |done|].
    + intros k. rewrite !lookup_delete_is_Some. tauto.
    + intros _. rewrite !lookup_delete_is_Some. tauto.
Qed.

Lemma evaluate_nodes_scheduled c ids change adds dels m adds' dels' m' :
  evaluate_nodes c ids change adds dels m = Some (adds', dels', m') → bgClosed m = false →
  bgClosed m' = false ∧ (∀ k, known m' k → known m k) ∧ (∀ k, pending m k → pending m' k) ∧
  (∀ k, k ∈ ids → IsNewNode change k = true → known m' k → pending m' k).
Proof.
  revert adds dels m. induction ids as [|id ids IH]; intros adds dels m H Hc; cbn [evaluate_nodes] in H.
  { injection H as <- <- <-. split_and!; try done. intros k []%not_elem_of_nil. }
  apply bind_Some in H as ([info m1] & Hev & H).
  apply evaluateNode_scheduled in Hev as (Hc1 & Hk1 & Hp1 & Hs1); [|done].
  set (m2 := if IsNewNode change id then _ else _) in H.
  assert (bgClosed m2 = bgClosed m1 ∧ state m2 = state m1 ∧ bgEvaluations m2 = bgEvaluations m1) as (Hc2 & Hs2 & Hb2)
    by (subst m2; by destruct (IsNewNode _ _)).
  assert (∀ k, known m2 k ↔ known m1 k) as Hk2 by (intros k; unfold known; by rewrite Hs2).
  assert (∀ k, pending m2 k ↔ pending m1 k) as Hp2 by (intros k; unfold pending; by rewrite Hb2).
  destruct info as [info|]; apply IH in H as (IH0 & IH1 & IH2 & IH3); try congruence.
  all: split_and!; [done|intros k Hk; apply Hk1, Hk2, IH1, Hk|intros k Hk; apply IH2, Hp2, Hp1, Hk|].
  all: intros k [->|Hk]%elem_of_cons Hnew Hkn; [|by apply IH3]; apply IH2, Hp2, Hs1; [done|]; apply Hk2, IH1, Hkn.
Qed.

(** Evaluating a change keeps the promise if its new nodes are recognised. *)
Lemma evaluateRouterChange_scheduled c change m m' :
  evaluateRouterChange c change m = Some m' → bgClosed m = false →
  (∀ k, known m k → pending m k ∨ k ∈ NodeIDs change ∧ IsNewNode change k = true) → all_scheduled m'.
Proof.
  unfold evaluateRouterChange. intros H Hc Hpre. destruct (ChangedState change) eqn:Ech; cbn [negb] in H.
  - apply bind_Some in H as ([[adds dels] m1] & H & [= <-]).
    apply evaluate_nodes_scheduled in H as (H0 & H1 & H2 & H3); [|done]. split; [done|].
    intros k Hk. change (known m1 k) in Hk. change (pending m1 k).
    destruct (Hpre k (H1 k Hk)) as [Hp|[Hin Hnew]]; [by apply H2|]. apply H3; [|done..]. by apply range_keys_elem.
  - injection H as <-. split; [done|]. intros k Hk. destruct (Hpre k Hk) as [|[Hin _]]; [done|].
    unfold ChangedState in Ech. apply Z.ltb_ge in Ech. unfold NodeIDs in Hin.
    destruct (Z.eqb_spec (Changes change) 0); [set_solver|]. unfold Changes in *. lia.
Qed.

Lemma local_step_scheduled m m' : local_step m m' → all_scheduled m → all_scheduled m'.
Proof.
  intros Hstep [Hc Hall]. destruct Hstep as [c ev m0 m1 H|c hc m0 m1 H|c i m0 m1 H].
  - unfold MergeNodeEvent, Router_MergeNodeEvent in H.
    destruct (Agents (state m0) !! NodeEvent.NodeID ev) as [a|] eqn:Ea.
    all: destruct (Agent_MergeNodeEvent _ ev) as [a' b]; eapply evaluateRouterChange_scheduled; [exact H|done|].
    all: intros k [Hk|Hk]; [|left; apply Hall; by right]; cbn in Hk.
    all: destruct (decide (k = NodeEvent.NodeID ev)) as [->|Hne];
      [|left; apply Hall; left; by rewrite lookup_insert_ne in Hk].
    + left. apply Hall. left. by rewrite Ea.
    + right. split; [apply NodeIDs_elem; left; apply elem_of_union_l; cbn [NewAgents]; by apply elem_of_singleton|].
      unfold IsNewNode. cbn [NewAgents]. rewrite size_singleton. by apply bool_decide_eq_true_2, elem_of_singleton.
  - unfold MergeHealthcheck, Router_MergeHealthcheck in H.
    destruct (RouterState.Health (state m0) !! Health.NodeID hc) as [h|] eqn:Eh.
    all: destruct (NodeHealth_MergeHealthcheck _ hc) as [h' b]; eapply evaluateRouterChange_scheduled; [exact H|done|].
    all: intros k [Hk|Hk]; [left; apply Hall; by left|]; cbn in Hk.
    all: destruct (decide (k = Health.NodeID hc)) as [->|Hne];
      [|left; apply Hall; right; by rewrite lookup_insert_ne in Hk].
    + left. apply Hall. right. by rewrite Eh.
    + right. split; [apply NodeIDs_elem; right; apply elem_of_union_l; cbn [NewHealth]; by apply elem_of_singleton|].
      unfold IsNewNode. cbn [NewAgents NewHealth]. rewrite size_empty, size_singleton.
      by apply bool_decide_eq_true_2, elem_of_singleton.
  - unfold bgEvaluationStep in H. destruct (bgEvaluations m0 !! i) as [[id d]|] eqn:Ei; [|by injection H as <-].
    apply bind_Some in H as ([info m2] & Hev & [= <-]).
    apply evaluateNode_scheduled in Hev as (H0 & H1 & H2 & H3); [|done].
    split; [done|]. intros k Hk. change (known m2 k) in Hk. change (pending m2 k).
    destruct (decide (k = id)) as [->|Hne]; [by apply H3|].
    apply H2. destruct (Hall k) as [d' Hd']; [apply (H1 k Hk)|]. exists d'. cbn [bgEvaluations].
    apply list_elem_of_lookup_1 in Hd' as [j Hj]. assert (j ≠ i) as Hji by (intros ->; congruence).
    apply list_elem_of_lookup. destruct (decide (j < i)%nat).
    + exists j. by rewrite list_lookup_delete_lt.
    + exists (pred j). rewrite list_lookup_delete_ge by lia. by replace (Datatypes.S (pred j)) with j by lia.
Qed.
End scheduled.

(** No node is forgotten by a router on its own: after any node events,
    health checks and background evaluations, every node it knows as agent or
    by its health is scheduled for another evaluation. *)
Theorem known_nodes_scheduled {U : UrlLib} {R : RangeOrder} {S : SliceSort}
    {E : NodeEvaluator} m :
  rtc local_step NewManager m → all_scheduled m.
Proof.
  intros H. remember NewManager as m0 eqn:E0. assert (all_scheduled m0) as H0.
  { rewrite E0. split; [done|]. intros k [Hk|Hk]; cbn in Hk; rewrite lookup_empty in Hk; by destruct Hk. }
  clear E0. induction H; eauto using local_step_scheduled.
Qed.

(** ** Where the bookkeeping breaks *)

Section concrete.
#[local] Instance demo_url : UrlLib := text_url.
#[local] Instance demo_uuid : UuidLib := binary_uuid.
#[local] Instance demo_order : RangeOrder := elements_order.
#[local] Instance demo_sort : SliceSort := insertion_slice_sort.
#[local] Instance demo_evaluator : NodeEvaluator := GradedNodeEvaluator DefaultGraderConfig minute.

Definition demo_clock : EvalClock := MkClock (2 * minute) (2 * minute).
Definition id1 : uuid := demo_id 1.
Definition id2 : uuid := demo_id 2.
Definition demo_heartbeat (i : Z) : NodeEvent :=
  MkNodeEvent i id1 minute (Some (MkHeartbeat None (Some demo_routing_info))).
Definition demo_shutdown (i : Z) : NodeEvent := MkNodeEvent i id1 minute None.

(** A peer that knows one node by its agent and another one by its health. *)
Definition demo_peer : Router :=
  MkRouter {[ id1 := MkAgent 1 minute (Some demo_routing_info) None ]}
           {[ id2 := MkNodeHealth [MkCheck id2 "http://node/" 0 minute 5 200 ""] ]}.
Definition after_peer : Manager :=
  default NewManager (MergeRouterState demo_clock demo_peer NewManager).

Definition run_event (i : Z) (m : Manager) : option Manager :=
  MergeNodeEvent demo_clock (if i <? 9 then demo_heartbeat i else demo_shutdown i) m.
Definition demo_count_run : option Manager :=
  m ← run_event 1 NewManager;
  m ← MergeHealthcheck demo_clock (MkCheck id1 "http://node/" 0 minute 5 200 "") m;
  m ← run_event 9 m;
  m ← bgEvaluationStep demo_clock 0 m;
  bgEvaluationStep demo_clock 0 m.

Definition good_check (t : Z) : Check := MkCheck id2 "http://node/" 0 (minute + t) 5 200 "".
Definition demo_two_checks : option Manager :=
  m ← MergeHealthcheck demo_clock (good_check 1) NewManager;
  MergeHealthcheck demo_clock (good_check 2) m.

Lemma demo_count_reachable m : demo_count_run = Some m → rtc local_step NewManager m.
Proof.
  unfold demo_count_run. intros (m1 & H1 & H)%bind_Some. apply bind_Some in H as (m2 & H2 & H).
  apply bind_Some in H as (m3 & H3 & H). apply bind_Some in H as (m4 & H4 & H).
  eapply rtc_l; [by eapply mstep_event|]. eapply rtc_l; [by eapply mstep_check|].
  eapply rtc_l; [by eapply mstep_event|]. eapply rtc_l; [by eapply mstep_bg|].
  eapply rtc_l; [by eapply mstep_bg|]. apply rtc_refl.
Qed.

Lemma demo_checks_reachable m : demo_two_checks = Some m → rtc local_step NewManager m.
Proof.
  unfold demo_two_checks. intros (m1 & H1 & H)%bind_Some.
  eapply rtc_l; [by eapply mstep_check|]. eapply rtc_l; [by eapply mstep_check|]. apply rtc_refl.
Qed.

Definition node_check (t : Z) : Check := MkCheck id1 "http://node/" 0 (minute + t) 5 200 "".
Definition demo_routed_run : option Manager :=
  m ← run_event 1 NewManager;
  m ← MergeHealthcheck demo_clock (node_check 1) m;
  m ← MergeHealthcheck demo_clock (node_check 2) m;
  MergeHealthcheck demo_clock (node_check 3) m.
Definition demo_routed : Manager := default NewManager demo_routed_run.

Lemma demo_routed_reachable : rtc local_step NewManager demo_routed.
Proof.
  unfold demo_routed. destruct demo_routed_run as [m|] eqn:E; [|apply rtc_refl].
  unfold demo_routed_run in E. apply bind_Some in E as (m1 & H1 & E). apply bind_Some in E as (m2 & H2 & E).
  apply bind_Some in E as (m3 & H3 & E).
  eapply rtc_l; [by eapply mstep_event|]. eapply rtc_l; [by eapply mstep_check|].
  eapply rtc_l; [by eapply mstep_check|]. eapply rtc_l; [by eapply mstep_check|]. apply rtc_refl.
Qed.

Definition demo_candidates : list ComputeCandidate := [MkCandidate id2 [x01]; MkCandidate id1 [x02]].

Definition summary (m : Manager) : bool * bool * list uuid * Z :=
  (bool_decide (Agents (state m) = ∅), bool_decide (RouterState.Health (state m) = ∅),
   (bgEvaluations m).*1, knownNodeCount m).
End concrete.

(** Gossip can make a router forget a node.  When a peer's state brings an
    agent of one node and the first health data of another, the second node is
    not taken for new: it is known from then on, but neither counted nor
    scheduled for a background evaluation, so nothing will evict it. *)
Theorem peer_node_forgotten :
  ∃ (m : @Manager text_url),
    @MergeRouterState text_url elements_order (GradedNodeEvaluator DefaultGraderConfig minute)
      demo_clock demo_peer NewManager = Some m ∧
    known m id2 ∧ ¬ pending m id2 ∧ bgClosed m = false ∧ KnownNodeCount m = 1.
Proof.
  exists after_peer. split_and!.
  - reflexivity.
  - right. vm_compute. eauto.
  - intros [d Hd]. apply (list_elem_of_fmap_2 fst) in Hd. revert Hd.
    change ((bgEvaluations after_peer).*1) with [id1]. rewrite list_elem_of_singleton. discriminate.
  - reflexivity.
  - reflexivity.
Qed.

(** The count of known nodes drifts: a node announced by its agent and then
    checked is counted twice and scheduled twice, and every leftover evaluation
    of an evicted node counts it out again, so a router that knows no node at
    all reports minus one. *)
Theorem known_count_drifts :
  ∃ (m : @Manager text_url),
    rtc (@local_step text_url elements_order insertion_slice_sort (GradedNodeEvaluator DefaultGraderConfig minute))
      NewManager m ∧
    (∀ k, ¬ known m k) ∧ bgEvaluations m = [] ∧ KnownNodeCount m = -1.
Proof.
  assert (summary <$> demo_count_run = Some (true, true, [], -1)) as Hs by (vm_compute; reflexivity).
  destruct demo_count_run as [m|] eqn:E; [|done]. exists m. injection Hs as H1 H2 H3 H4.
  apply bool_decide_eq_true in H1, H2. split; [by apply demo_count_reachable|]. clear E. split_and!.
  - intros k [[x Hx]|[x Hx]].
    + pose proof (eq_trans (f_equal (lookup k) H1) (lookup_empty k)) as Hn. unfold demo_url in Hn. congruence.
    + pose proof (eq_trans (f_equal (lookup k) H2) (lookup_empty k)) as Hn. unfold demo_url in Hn. congruence.
  - exact (fmap_nil_inv _ _ H3).
  - exact H4.
Qed.

(** A health check can crash the router: once a node without agent state has
    enough successful checks to be graded healthy, evaluating it dereferences
    the missing agent. *)
Theorem agentless_health_panics :
  ∃ (m : @Manager text_url) hc,
    rtc (@local_step text_url elements_order insertion_slice_sort (GradedNodeEvaluator DefaultGraderConfig minute))
      NewManager m ∧
    @MergeHealthcheck text_url elements_order insertion_slice_sort (GradedNodeEvaluator DefaultGraderConfig minute)
      demo_clock hc m = None.
Proof.
  assert ((m ← demo_two_checks; @MergeHealthcheck text_url elements_order insertion_slice_sort
    (GradedNodeEvaluator DefaultGraderConfig minute) demo_clock (good_check 3) m) = None ∧ is_Some demo_two_checks)
    as [Hp [m Hm]] by (vm_compute; eauto).
  exists m, (good_check 3). split; [by apply demo_checks_reachable|]. rewrite Hm in Hp. exact Hp.
Qed.

Lemma known_nodes_scheduled_witness :
  all_scheduled demo_routed ∧ (bgEvaluations demo_routed).*1 = [id1; id1].
Proof.
  split; [|vm_compute; reflexivity].
  exact (@known_nodes_scheduled text_url elements_order insertion_slice_sort
    (GradedNodeEvaluator DefaultGraderConfig minute) demo_routed demo_routed_reachable).
Defined.

Lemma picked_node_running_witness :
  PickNodeFromCandidates demo_routed demo_candidates (Some 0%nat)
    = Ok (MkCandidate id1 [x02], NodeEvent.URL demo_routing_info) ∧
  ∃ ag, Agents (state demo_routed) !! id1 = Some ag ∧ ShutdownAt ag = None.
Proof.
  assert (PickNodeFromCandidates demo_routed demo_candidates (Some 0%nat)
    = Ok (MkCandidate id1 [x02], NodeEvent.URL demo_routing_info)) as E by (vm_compute; reflexivity).
  split; [exact E|].
  assert (rtc (@manager_step text_url elements_order insertion_slice_sort
    (GradedNodeEvaluator DefaultGraderConfig minute)) NewManager demo_routed) as Hrun.
  { eapply rtc_subrel; [|exact demo_routed_reachable]. intros x y Hxy. by apply mstep_local. }
  assert ((0 < length (queryRoutingInfoForCandidates (routing demo_routed) demo_candidates))%nat) as Hl
    by (vm_compute; apply le_n).
  pose proof (@picked_node_running text_url elements_order insertion_slice_sort
    (GradedNodeEvaluator DefaultGraderConfig minute) (graded_contract _ _) demo_routed demo_candidates 0
    Hrun (or_introl Hl)) as H.
  unfold demo_url in E. rewrite E in H. destruct H as (_ & ag & info & Ha & Hs & _).
  exists ag. split; [exact Ha|exact Hs].
Defined.
