(* ===== verification/Ring.v ===== *)
(** The hash ring that divides the health checks among the routers of a cluster
    ([router/ring.go]), with the CRC-32 checksum it hashes with
    ([hash/crc32], IEEE polynomial). *)

From S2P Require Import Prelude Bytes GoLib.

(** ** [crc32.ChecksumIEEE] *)

Definition crc_step (crc : Z) : Z :=
  if Z.testbit crc 0 then Z.lxor (Z.shiftr crc 1) 0xEDB88320 else Z.shiftr crc 1.
Definition crc_byte (crc : Z) (b : byte) : Z := Nat.iter 8 crc_step (Z.lxor crc (byte_val b)).
Definition ChecksumIEEE (data : list byte) : Z := Z.lxor (foldl crc_byte 0xFFFFFFFF data) 0xFFFFFFFF.

Definition virtualNodesPerRouter : nat := 100.

Record ring := MkRing {
  routers : gset uuid;
  posToRouter : gmap Z uuid;
  positions : list Z;
}.
Definition newRing : ring := MkRing ∅ ∅ [].

(** The positions of a router's virtual nodes: checksums of the big-endian index
    followed by the identifier. *)
Definition router_positions (routerID : uuid) : list Z :=
  (λ i, ChecksumIEEE (be_bytes 4 i ++ uuid_bytes routerID)) <$> seqZ 0 (Z.of_nat virtualNodesPerRouter).

Definition addRouter (r : ring) (routerID : uuid) : ring :=
  if decide (routerID ∈ routers r) then r
  else
    let '(pm, ps) := foldl (λ '(pm, ps) pos, (<[pos := routerID]> pm, ps ++ [pos]))
                       (posToRouter r, positions r) (router_positions routerID) in
    MkRing ({[ routerID ]} ∪ routers r) pm (slices_sort ps).

(** A missing position reads as the zero identifier. *)
Definition owner_of (pm : gmap Z uuid) (pos : Z) : uuid := default zero_uuid (pm !! pos).

Fixpoint remove_positions (routerID : uuid) (ps : list Z) (pm : gmap Z uuid) : list Z * gmap Z uuid :=
  match ps with
  | [] => ([], pm)
  | pos :: ps =>
      if negb (bool_decide (owner_of pm pos = routerID)) then
        let '(newPositions, pm) := remove_positions routerID ps pm in (pos :: newPositions, pm)
      else remove_positions routerID ps (delete pos pm)
  end.

Definition removeRouter (r : ring) (routerID : uuid) : ring :=
  if decide (routerID ∈ routers r) then
    let '(newPositions, pm) := remove_positions routerID (positions r) (posToRouter r) in
    MkRing (routers r ∖ {[ routerID ]}) pm newPositions
  else r.

Record nodePosition := MkNodePosition { np_nodeID : uuid; np_position : Z }.

Section query.
Context {V : Type} {R : RangeOrder} {S : SliceSort}.

(** The loop over the nodes in order of position. *)
Fixpoint query_nodes (r : ring) (routerID : uuid) (nodes : gmap uuid V) (nodePositions : list nodePosition)
    (posIndex : nat) (out : gmap uuid V) : gmap uuid V :=
  match nodePositions with
  | [] => out
  | np :: nodePositions =>
      let posIndex :=
        match positions r !! posIndex with
        | Some pos => if pos <? np_position np then Datatypes.S posIndex else posIndex
        | None => posIndex
        end in
      let posIndex := if (posIndex =? length (positions r))%nat then 0%nat else posIndex in
      let out :=
        match positions r !! posIndex with
        | Some pos =>
            if bool_decide (owner_of (posToRouter r) pos = routerID) then
              match nodes !! np_nodeID np with Some u => <[np_nodeID np := u]> out | None => out end
            else out
        | None => out
        end in
      query_nodes r routerID nodes nodePositions posIndex out
  end.

Definition node_positions (nodes : gmap uuid V) : list nodePosition :=
  (λ id, MkNodePosition id (ChecksumIEEE (uuid_bytes id))) <$> range_keys (dom nodes).

Definition queryHealthcheckURLs (r : ring) (routerID : uuid) (nodes : gmap uuid V) : gmap uuid V :=
  if (length (positions r) =? 0)%nat || (size nodes =? 0)%nat then ∅
  else
    let nodePositions := slice_sort (λ a b, np_position a <? np_position b) (node_positions nodes) in
    query_nodes r routerID nodes nodePositions 0 ∅.
End query.

Definition queryRouters (r : ring) : gset uuid := routers r.
Definition ring_Len (r : ring) : nat := size (routers r).

Lemma filter_ext_in {A} (P Q : A → Prop) `{!∀ x, Decision (P x), !∀ x, Decision (Q x)} (l : list A) :
  (∀ x, x ∈ l → P x ↔ Q x) → filter P l = filter Q l.
Proof.
  induction l as [|x l IH]; intros HPQ; [done|]. rewrite !filter_cons.
  rewrite IH by (intros y Hy; apply HPQ; by right). apply decide_ext, HPQ. left.
Qed.

(** ** Well-formed rings *)

(** Positions are sorted and distinct and belong to the routers of the ring. *)
Record ring_wf (r : ring) : Prop := {
  wf_sorted : StronglySorted (≤) (positions r);
  wf_nodup : NoDup (positions r);
  wf_pos p : p ∈ positions r ↔ is_Some (posToRouter r !! p);
  wf_owner p id : posToRouter r !! p = Some id → id ∈ routers r;
  wf_routers id : id ∈ routers r → ∃ p, posToRouter r !! p = Some id;
}.

(** A router whose virtual nodes collide neither with each other nor with the
    positions already on the ring. *)
Definition collision_free (r : ring) (routerID : uuid) : Prop :=
  NoDup (router_positions routerID) ∧ ∀ p, p ∈ router_positions routerID → p ∉ positions r.

Lemma newRing_wf : ring_wf newRing.
Proof.
  split; simpl; [constructor|constructor|..].
  - intros p. rewrite lookup_empty, elem_of_nil. split; [done|by intros []].
  - intros p id. by rewrite lookup_empty.
  - set_solver.
Qed.

Lemma add_positions ps pm0 ps0 (id : uuid) :
  let '(pm, qs) := foldl (λ '(pm, ps) pos, (<[pos := id]> pm, ps ++ [pos])) (pm0, ps0) ps in
  qs = ps0 ++ ps ∧ ∀ p, pm !! p = (if decide (p ∈ ps) then Some id else (pm0 : gmap Z uuid) !! p).
Proof.
  revert pm0 ps0. induction ps as [|q ps IH]; intros pm0 ps0; cbn [foldl].
  { split; [by rewrite app_nil_r|]. intros p. by rewrite decide_False by apply not_elem_of_nil. }
  specialize (IH (<[q := id]> pm0) (ps0 ++ [q])).
  destruct (foldl _ (<[q := id]> pm0, _) ps) as [pm qs]. destruct IH as [-> IH]. split; [by rewrite <- app_assoc|].
  intros p. rewrite IH. destruct (decide (p ∈ ps)).
  - by rewrite decide_True by (by right).
  - destruct (decide (p = q)) as [->|Hne].
    + by rewrite lookup_insert_eq, decide_True by left.
    + rewrite lookup_insert_ne by done. by rewrite decide_False by (by intros [?|?]%elem_of_cons).
Qed.

Lemma router_positions_nonempty id : ∃ p, p ∈ router_positions id.
Proof.
  exists (ChecksumIEEE (be_bytes 4 0 ++ uuid_bytes id)). apply list_elem_of_fmap. exists 0.
  split; [done|]. apply elem_of_seqZ. unfold virtualNodesPerRouter. lia.
Qed.

Lemma addRouter_wf r id : ring_wf r → collision_free r id → ring_wf (addRouter r id).
Proof.
  intros Hr [Hnd Hfree]. unfold addRouter. destruct (decide (id ∈ routers r)) as [|Hnin]; [done|].
  pose proof (add_positions (router_positions id) (posToRouter r) (positions r) id) as H.
  destruct (foldl _ _ (router_positions id)) as [pm qs]. destruct H as [-> Hpm].
  pose proof (slices_sort_perm (positions r ++ router_positions id)) as Hperm.
  destruct Hr as [Hs Hn Hp Ho Hrt]. split; cbn [positions posToRouter routers].
  - apply slices_sort_sorted.
  - rewrite Hperm. apply NoDup_app. split_and!; [done| |done]. intros p H1 H2. by apply (Hfree p).
  - intros p. rewrite Hperm, elem_of_app, Hpm. destruct (decide (p ∈ router_positions id)); [naive_solver|].
    rewrite Hp. naive_solver.
  - intros p id'. rewrite Hpm. destruct (decide _); [set_solver|]. intros Hl. apply elem_of_union_r. by eapply Ho.
  - intros id' [->%elem_of_singleton|Hid]%elem_of_union.
    + destruct (router_positions_nonempty id) as [p Hp']. exists p. by rewrite Hpm, decide_True.
    + destruct (Hrt id' Hid) as [p Hp']. exists p. rewrite Hpm, decide_False; [done|].
      intros Hin. apply (Hfree p Hin), Hp. eauto.
Qed.

Lemma remove_positions_spec id ps pm :
  NoDup ps →
  let '(qs, pm') := remove_positions id ps pm in
  qs = filter (λ p, owner_of pm p ≠ id) ps ∧
  ∀ p, pm' !! p = (if decide (p ∈ ps ∧ owner_of pm p = id) then None else pm !! p).
Proof.
  revert pm. induction ps as [|q ps IH]; intros pm Hnd; cbn [remove_positions].
  { split; [done|]. intros p. rewrite decide_False; [done|]. intros [[]%not_elem_of_nil _]. }
  apply NoDup_cons in Hnd as [Hnin Hnd]. case_bool_decide as Hq; cbn [negb].
  - specialize (IH (delete q pm) Hnd). destruct (remove_positions id ps (delete q pm)) as [qs pm'].
    destruct IH as [-> IH].
    assert (Hown : ∀ p, p ∈ ps → owner_of (delete q pm) p = owner_of pm p).
    { intros p Hp. unfold owner_of. rewrite lookup_delete_ne; [done|]. by intros ->. }
    split.
    + rewrite filter_cons_False by auto. apply filter_ext_in. intros p Hp. by rewrite Hown.
    + intros p. rewrite IH. destruct (decide (p = q)) as [->|Hne].
      * rewrite (decide_True (P := q ∈ q :: ps ∧ owner_of pm q = id)) by (split; [left|done]).
        rewrite decide_False by naive_solver. apply lookup_delete_eq.
      * rewrite lookup_delete_ne by done. apply decide_ext. rewrite elem_of_cons.
        split; [intros [Hp E]; rewrite Hown in E by done; auto|]. intros [[?|Hp] E]; [done|]. by rewrite Hown.
  - specialize (IH pm Hnd). destruct (remove_positions id ps pm) as [qs pm']. destruct IH as [-> IH].
    split; [by rewrite filter_cons_True|]. intros p. rewrite IH. apply decide_ext. rewrite elem_of_cons.
    split; [naive_solver|]. intros [[->|?] ?]; [done|done].
Qed.

Lemma removeRouter_wf r id : ring_wf r → ring_wf (removeRouter r id).
Proof.
  intros [Hs Hn Hp Ho Hrt]. unfold removeRouter. destruct (decide (id ∈ routers r)); [|by split].
  pose proof (remove_positions_spec id (positions r) (posToRouter r) Hn) as H.
  destruct (remove_positions _ _ _) as [qs pm]. destruct H as [-> Hpm].
  assert (Hown : ∀ p id', posToRouter r !! p = Some id' → owner_of (posToRouter r) p = id')
    by (intros p id' E; unfold owner_of; by rewrite E).
  split; cbn [positions posToRouter routers].
  - clear -Hs. induction Hs as [|p ps Hs IH Hle]; [constructor|]. rewrite filter_cons. destruct (decide _); [|done].
    constructor; [done|]. rewrite Forall_forall in *. intros q [_ Hq]%list_elem_of_filter. by apply Hle.
  - by apply NoDup_filter.
  - intros p. rewrite list_elem_of_filter, Hpm. destruct (decide _) as [Hd|Hd].
    + split; [intros [? _]; naive_solver|by intros []].
    + rewrite <- Hp. split; [tauto|]. intros Hin. split; [|done]. intros E. by destruct Hd.
  - intros p id'. rewrite Hpm. destruct (decide _) as [Hd|Hd]; [done|]. intros Hl.
    apply elem_of_difference. split; [by eapply Ho|]. rewrite elem_of_singleton. intros ->.
    apply Hd. split; [apply Hp; eauto|by apply Hown].
  - intros id' [Hid Hne]%elem_of_difference. destruct (Hrt id' Hid) as [p Hl]. exists p. rewrite Hpm, decide_False; [done|].
    intros [_ E]. rewrite (Hown p id' Hl) in E. set_solver.
Qed.

(** Routers joining without collisions and leaving. *)
Inductive ring_step : ring → ring → Prop :=
| rstep_add r id : collision_free r id → ring_step r (addRouter r id)
| rstep_remove r id : ring_step r (removeRouter r id).

Lemma ring_run_wf r r' : rtc ring_step r r' → ring_wf r → ring_wf r'.
Proof. induction 1 as [|x y z [] _ IH]; auto using addRouter_wf, removeRouter_wf. Qed.

(** ** Ownership *)

Definition np_le (a b : nodePosition) : Prop := np_position a ≤ np_position b.
#[global] Instance np_le_dec : RelDecision np_le.
Proof. intros a b. unfold np_le. apply _. Defined.
#[global] Instance np_le_trans : Transitive np_le.
Proof. intros a b c. unfold np_le. lia. Qed.
#[global] Instance np_le_total : Total np_le.
Proof. intros a b. unfold np_le. lia. Qed.

Definition distinct_positions {V} (nodes : gmap uuid V) : Prop :=
  ∀ a b, is_Some (nodes !! a) → is_Some (nodes !! b) →
    ChecksumIEEE (uuid_bytes a) = ChecksumIEEE (uuid_bytes b) → a = b.

#[local] Opaque ChecksumIEEE.

Section ownership.
Context {V : Type}.

(** The index the loop is at when it decides on a node. *)
Definition next_index (ps : list Z) (np : nodePosition) (i : nat) : nat :=
  let i := match ps !! i with Some pos => if pos <? np_position np then Datatypes.S i else i | None => i end in
  if (i =? length ps)%nat then 0%nat else i.

Fixpoint assigned (r : ring) (nps : list nodePosition) (i : nat) (id : uuid) : option uuid :=
  match nps with
  | [] => None
  | np :: nps =>
      let i := next_index (positions r) np i in
      if decide (np_nodeID np = id) then owner_of (posToRouter r) <$> positions r !! i
      else assigned r nps i id
  end.

Lemma next_index_lt ps np i : ps ≠ [] → (i < length ps)%nat → (next_index ps np i < length ps)%nat.
Proof.
  intros Hne Hi. unfold next_index. destruct (lookup_lt_is_Some_2 ps i Hi) as [p ->].
  destruct ps as [|q ps]; [done|]. destruct (p <? np_position np);
    destruct (Nat.eqb_spec (Datatypes.S i) (length (q :: ps))), (Nat.eqb_spec i (length (q :: ps))); simpl in *; lia.
Qed.

Lemma assigned_notin r nps i id : id ∉ np_nodeID <$> nps → assigned r nps i id = None.
Proof.
  revert i. induction nps as [|np nps IH]; intros i Hnin; [done|]. cbn [assigned].
  cbn [fmap list_fmap] in Hnin. apply not_elem_of_cons in Hnin as [Hne Hnin].
  rewrite decide_False by congruence. by apply IH.
Qed.

Lemma assigned_in r nps i id :
  positions r ≠ [] → (i < length (positions r))%nat → id ∈ np_nodeID <$> nps →
  ∃ p, p ∈ positions r ∧ assigned r nps i id = Some (owner_of (posToRouter r) p).
Proof.
  intros Hne. revert i. induction nps as [|np nps IH]; intros i Hi Hin; [by apply not_elem_of_nil in Hin|].
  cbn [assigned]. pose proof (next_index_lt (positions r) np i Hne Hi) as Hlt.
  destruct (decide (np_nodeID np = id)) as [Hid|Hid].
  - destruct (lookup_lt_is_Some_2 (positions r) _ Hlt) as [p Hp]. exists p. rewrite Hp.
    split; [by eapply list_elem_of_lookup_2|done].
  - apply IH; [done|]. cbn [fmap list_fmap] in Hin. apply elem_of_cons in Hin as [E|]; [by destruct Hid|done].
Qed.

Lemma query_nodes_spec r routerID (nodes : gmap uuid V) nps i out id :
  positions r ≠ [] → (i < length (positions r))%nat →
  NoDup (np_nodeID <$> nps) → (∀ np, np ∈ nps → is_Some (nodes !! np_nodeID np)) →
  query_nodes r routerID nodes nps i out !! id =
    match assigned r nps i id with
    | Some owner => if decide (owner = routerID) then nodes !! id else out !! id
    | None => out !! id
    end.
Proof.
  intros Hne. revert i out. induction nps as [|np nps IH]; intros i out Hi Hnd Hin; [done|].
  cbn [query_nodes assigned]. cbn [fmap list_fmap] in Hnd. apply NoDup_cons in Hnd as [Hnin Hnd].
  change (if (_ =? length (positions r))%nat then 0%nat else _) with (next_index (positions r) np i).
  pose proof (next_index_lt (positions r) np i Hne Hi) as Hlt. set (j := next_index (positions r) np i) in *.
  destruct (lookup_lt_is_Some_2 (positions r) j Hlt) as [pos Hpos]. rewrite Hpos. cbn [fmap option_fmap option_map].
  destruct (Hin np) as [u Hu]; [left|]. rewrite Hu.
  rewrite IH; [|done|done|intros np' Hnp'; apply Hin; by right].
  destruct (decide (np_nodeID np = id)) as [<-|Hid].
  - rewrite (assigned_notin r nps) by done.
    case_bool_decide; [rewrite decide_True by done; by rewrite Hu, lookup_insert_eq|by rewrite decide_False].
  - case_bool_decide; [|done]. rewrite lookup_insert_ne by done. done.
Qed.

(** With distinct positions every router sees the nodes in the same order. *)
Definition node_order (nodes : gmap uuid V) : list nodePosition :=
  merge_sort np_le
    ((λ id, MkNodePosition id (ChecksumIEEE (uuid_bytes id))) <$> elements (dom nodes)).

Lemma node_positions_order {R : RangeOrder} {S : SliceSort} (nodes : gmap uuid V) :
  distinct_positions nodes →
  slice_sort (λ a b, np_position a <? np_position b) (node_positions nodes) = node_order nodes.
Proof.
  intros Hd. assert (Hp : slice_sort (λ a b, np_position a <? np_position b) (node_positions nodes) ≡ₚ node_order nodes).
  { unfold node_order. rewrite slice_sort_perm, merge_sort_Permutation. unfold node_positions.
    by rewrite range_keys_perm. }
  assert (Hel : ∀ np, np ∈ node_order nodes →
    is_Some (nodes !! np_nodeID np) ∧ np_position np = ChecksumIEEE (uuid_bytes (np_nodeID np))).
  { intros np Hnp. unfold node_order in Hnp. rewrite merge_sort_Permutation in Hnp.
    apply list_elem_of_fmap in Hnp as (id & -> & Hid%elem_of_elements%elem_of_dom). done. }
  apply (StronglySorted_unique_strong np_le); [| | |done].
  - intros [a pa] [b pb] Ha Hb Hab Hba. rewrite Hp in Ha.
    destruct (Hel _ Ha) as [Ia Ea], (Hel _ Hb) as [Ib Eb]. simpl in *. subst pa pb.
    unfold np_le in *. simpl in *. assert (a = b) as ->; [|done]. apply Hd; [done|done|lia].
  - eapply StronglySorted_mono; [|apply slice_sort_sorted].
    + intros a b. unfold np_le. rewrite Z.ltb_ge. lia.
    + split; intros *; rewrite ?Z.ltb_lt, ?Z.ltb_ge; lia.
  - apply (StronglySorted_merge_sort np_le).
Qed.
End ownership.

(** One router owns a node, on every router's view of the nodes. *)
Lemma ring_owner {V : Type} r (nodes : gmap uuid V) id u :
  rtc ring_step newRing r → routers r ≠ ∅ → distinct_positions nodes → nodes !! id = Some u →
  ∃ owner, owner ∈ routers r ∧
    ∀ (R : RangeOrder) (S : SliceSort) routerID,
      queryHealthcheckURLs r routerID nodes !! id = (if decide (routerID = owner) then Some u else None) ∧
      dom (queryHealthcheckURLs r routerID nodes) ⊆ dom nodes.
Proof.
  intros Hrun Hrt Hd Hid. pose proof (ring_run_wf _ _ Hrun newRing_wf) as [Hs Hn Hp Ho Hex].
  assert (positions r ≠ []) as Hne.
  { apply set_choose_L in Hrt as [rid Hrid]. destruct (Hex rid Hrid) as [p Hl].
    intros E. assert (p ∈ positions r) as Hin by (apply Hp; eauto). rewrite E in Hin. by apply not_elem_of_nil in Hin. }
  assert ((0 < length (positions r))%nat) as Hlen by (destruct (positions r); simpl; [done|lia]).
  assert (Hel : ∀ k, k ∈ np_nodeID <$> node_order nodes ↔ is_Some (nodes !! k)).
  { intros k. unfold node_order. rewrite merge_sort_Permutation, <- list_fmap_compose.
    unfold compose. simpl. rewrite list_fmap_id, elem_of_elements, elem_of_dom. done. }
  assert (Hnd : NoDup (np_nodeID <$> node_order nodes)).
  { unfold node_order. rewrite merge_sort_Permutation, <- list_fmap_compose. unfold compose. simpl.
    rewrite list_fmap_id. apply NoDup_elements. }
  assert (Hsz : (size nodes =? 0)%nat = false).
  { apply Nat.eqb_neq. rewrite map_size_empty_iff. intros ->. by rewrite lookup_empty in Hid. }
  destruct (assigned_in r (node_order nodes) 0 id) as (p & Hpin & Ha); [done|done|apply Hel; eauto|].
  pose proof (proj1 (Hp p) Hpin) as [owner Hown]. unfold owner_of in Ha. rewrite Hown in Ha. simpl in Ha.
  exists owner. split; [by eapply Ho|]. intros R S routerID.
  assert (Hq : ∀ k, queryHealthcheckURLs r routerID nodes !! k = match assigned r (node_order nodes) 0 k with
    | Some owner => if decide (owner = routerID) then nodes !! k else None | None => None end).
  { intros k. unfold queryHealthcheckURLs. rewrite (proj2 (Nat.eqb_neq (length (positions r)) 0)) by lia.
    rewrite Hsz. cbn [orb]. rewrite node_positions_order by done.
    rewrite query_nodes_spec; [by rewrite lookup_empty|done|done|done|].
    intros np Hnp. apply Hel, list_elem_of_fmap. by exists np. }
  split.
  - rewrite Hq, Ha, Hid. by destruct (decide (routerID = owner)), (decide (owner = routerID)).
  - intros k [x Hk]%elem_of_dom. rewrite Hq in Hk. apply elem_of_dom.
    revert Hk. destruct (assigned r (node_order nodes) 0 k) as [o|]; [|done].
    destruct (decide (o = routerID)); [by intros ->; eexists|done].
Qed.

(** The routers of a cluster share the nodes out.  On a ring built by routers
    joining without hash collisions and leaving, every node with a health check
    URL is checked by exactly one router of the ring, the same one whatever
    order the routers range over their maps or sort with, as long as the nodes'
    positions are distinct; and no router checks anything else. *)
Theorem ring_partition {V : Type} r (nodes : gmap uuid V) id u :
  rtc ring_step newRing r → routers r ≠ ∅ → distinct_positions nodes → nodes !! id = Some u →
  ∃ owner, owner ∈ routers r ∧
    ∀ (R : RangeOrder) (S : SliceSort) routerID,
      queryHealthcheckURLs r routerID nodes !! id = (if decide (routerID = owner) then Some u else None) ∧
      dom (queryHealthcheckURLs r routerID nodes) ⊆ dom nodes.
Proof. apply ring_owner. Qed.

(** The ring depends on who is on it only, not on the order of joining and
    leaving. *)
Lemma ring_positions_spec r :
  rtc ring_step newRing r → ∀ p id, posToRouter r !! p = Some id ↔ id ∈ routers r ∧ p ∈ router_positions id.
Proof.
  intros Hr. assert (∀ r0, rtc ring_step r0 r → ring_wf r0 →
    (∀ p id, posToRouter r0 !! p = Some id ↔ id ∈ routers r0 ∧ p ∈ router_positions id) →
    ∀ p id, posToRouter r !! p = Some id ↔ id ∈ routers r ∧ p ∈ router_positions id) as H.
  2: { apply (H newRing Hr newRing_wf). intros p id. simpl. rewrite lookup_empty. set_solver. }
  clear Hr. intros r0 Hr. induction Hr as [|r0 r1 r2 Hs _ IH]; [done|]. intros Hwf Hok.
  assert (ring_wf r1) as Hwf1 by (destruct Hs; auto using addRouter_wf, removeRouter_wf).
  apply IH; [done|]. clear IH. destruct Hs as [r id [Hnd Hfree]|r id].
  - unfold addRouter. destruct (decide (id ∈ routers r)) as [|Hnin]; [done|].
    pose proof (add_positions (router_positions id) (posToRouter r) (positions r) id) as H.
    destruct (foldl _ _ (router_positions id)) as [pm qs]. destruct H as [_ Hpm]. intros p k. cbn [posToRouter routers].
    rewrite Hpm, elem_of_union, elem_of_singleton. destruct (decide (p ∈ router_positions id)) as [Hp|Hp].
    + split; [intros [= <-]; by split; [left|]|]. intros [[->|Hk] Hpk]; [done|].
      destruct (Hfree p Hp). apply Hwf. exists k. by apply Hok.
    + rewrite Hok. split; [intros []; by split; [right|]|]. intros [[->|Hk] Hpk]; [done|by split].
  - unfold removeRouter. destruct (decide (id ∈ routers r)) as [Hin|]; [|done].
    pose proof (remove_positions_spec id (positions r) (posToRouter r) (wf_nodup _ Hwf)) as H.
    destruct (remove_positions _ _ _) as [qs pm]. destruct H as [_ Hpm]. intros p k. cbn [posToRouter routers].
    rewrite Hpm, elem_of_difference, elem_of_singleton. destruct (decide _) as [[Hp Ho]|Hn].
    + split; [done|]. intros [[Hk Hne] Hpk]. destruct Hne. assert (posToRouter r !! p = Some k) as E by (by apply Hok).
      unfold owner_of in Ho. by rewrite E in Ho.
    + rewrite Hok. split; [|by intros [[? _] ?]]. intros [Hk Hpk]. split; [|done]. split; [done|]. intros ->. apply Hn.
      assert (posToRouter r !! p = Some id) as E by (by apply Hok). split; [apply Hwf; eauto|]. unfold owner_of. by rewrite E.
Qed.

Lemma ring_canonical r r' :
  rtc ring_step newRing r → rtc ring_step newRing r' → routers r = routers r' → r = r'.
Proof.
  intros Hr Hr' Heq. pose proof (ring_run_wf _ _ Hr newRing_wf) as Hwf. pose proof (ring_run_wf _ _ Hr' newRing_wf) as Hwf'.
  assert (posToRouter r = posToRouter r') as Hpm.
  { apply map_eq. intros p. apply option_eq. intros id. by rewrite !ring_positions_spec, Heq. }
  assert (positions r = positions r') as Hps.
  { apply (StronglySorted_unique (≤)); [apply Hwf|apply Hwf'|]. apply NoDup_Permutation; [apply Hwf|apply Hwf'|].
    intros p. by rewrite (wf_pos _ Hwf), (wf_pos _ Hwf'), Hpm. }
  destruct r, r'. simpl in *. by subst.
Qed.

Lemma assigned_low r nps i id o :
  (i + length nps < length (positions r))%nat → assigned r nps i id = Some o →
  ∃ j p, (j ≤ i + length nps)%nat ∧ positions r !! j = Some p ∧ owner_of (posToRouter r) p = o.
Proof.
  revert i. induction nps as [|np nps IH]; intros i Hi Ha; [done|]. cbn [assigned length] in *.
  assert (next_index (positions r) np i ≤ i + 1)%nat as Hle.
  { unfold next_index. repeat case_match; lia. }
  destruct (decide (np_nodeID np = id)).
  - apply fmap_Some in Ha as (p & Hp & ->). exists (next_index (positions r) np i), p. split_and!; [lia|done|done].
  - destruct (IH (next_index (positions r) np i)) as (j & p & Hj & ?); [lia|done|]. exists j, p. split; [lia|done].
Qed.

(** The ring does not look nodes up by their hash: the position index moves
    by at most one per node, so [n] nodes are only ever assigned to owners of the
    [n + 1] lowest positions, wherever on the ring the nodes are.  A single node
    always goes to the owner of the first or second position. *)
Theorem ring_low_positions {V : Type} {R : RangeOrder} {S : SliceSort} r (nodes : gmap uuid V) routerID id :
  (size nodes < length (positions r))%nat → is_Some (queryHealthcheckURLs r routerID nodes !! id) →
  ∃ j p, (j ≤ size nodes)%nat ∧ positions r !! j = Some p ∧ owner_of (posToRouter r) p = routerID.
Proof.
  unfold queryHealthcheckURLs. intros Hlt. destruct ((length (positions r) =? 0)%nat || _) eqn:E0.
  { rewrite lookup_empty. by intros []. }
  set (nps := slice_sort _ (node_positions nodes)).
  assert (Hp : nps ≡ₚ node_positions nodes) by apply slice_sort_perm.
  assert (Hlen : length nps = size nodes).
  { rewrite Hp. unfold node_positions. rewrite length_fmap, range_keys_perm. apply size_dom. }
  rewrite query_nodes_spec; [|destruct (positions r); [done|discriminate]|destruct (positions r); simpl in *; lia|..].
  - rewrite lookup_empty. destruct (assigned r nps 0 id) as [o|] eqn:Ea; [|by intros []].
    destruct (decide (o = routerID)) as [<-|]; [|by intros []]. intros _.
    destruct (assigned_low r nps 0 id o) as (j & p & Hj & ?); [lia|done|]. exists j, p. split; [lia|done].
  - rewrite Hp. unfold node_positions. rewrite <- list_fmap_compose. unfold compose. simpl.
    rewrite list_fmap_id. apply range_keys_nodup.
  - intros np. rewrite Hp. intros (k & -> & Hk)%list_elem_of_fmap. apply range_keys_elem, elem_of_dom in Hk. done.
Qed.

#[local] Transparent ChecksumIEEE.

(** A ring of two routers and two nodes. *)
Definition router_a : uuid := (7 * 2 ^ 76 + 1)%N.
Definition router_b : uuid := (7 * 2 ^ 76 + 2)%N.
Definition node_a : uuid := (7 * 2 ^ 76 + 3)%N.
Definition node_b : uuid := (7 * 2 ^ 76 + 4)%N.
Definition demo_ring : ring := addRouter (addRouter newRing router_a) router_b.
Definition demo_nodes : gmap uuid string := {[ node_a := "http://a/"; node_b := "http://b/" ]}.

Definition collision_free_bool (r : ring) (id : uuid) : bool :=
  bool_decide (NoDup (router_positions id)) &&
  forallb (λ p, negb (bool_decide (p ∈ positions r))) (router_positions id).

Lemma collision_free_dec r id : collision_free_bool r id = true → collision_free r id.
Proof.
  unfold collision_free_bool. rewrite andb_true_iff, forallb_forall. intros [Hnd%bool_decide_eq_true Hf].
  split; [done|]. intros p Hp%list_elem_of_In. specialize (Hf p Hp).
  by apply negb_true_iff, bool_decide_eq_false in Hf.
Qed.

Lemma demo_ring_run : rtc ring_step newRing demo_ring.
Proof.
  eapply rtc_l; [apply (rstep_add newRing router_a), collision_free_dec; vm_compute; reflexivity|].
  eapply rtc_l; [apply (rstep_add _ router_b), collision_free_dec; vm_compute; reflexivity|]. apply rtc_refl.
Qed.

Lemma demo_nodes_distinct : distinct_positions demo_nodes.
Proof.
  assert (H : ∀ k, is_Some (demo_nodes !! k) → k = node_a ∨ k = node_b).
  { intros k Hk%elem_of_dom. change (dom demo_nodes) with (dom (<[node_a := "http://a/"]> {[node_b := "http://b/"]} : gmap uuid string)) in Hk.
    rewrite dom_insert_L, dom_singleton_L in Hk. set_solver. }
  intros a b Ha Hb. destruct (H a Ha) as [-> | ->], (H b Hb) as [-> | ->]; [done|..|done]; intros E; exfalso;
    revert E; vm_compute; discriminate.
Qed.

Lemma ring_partition_witness :
  ∃ owner, owner ∈ routers demo_ring ∧
    ∀ (R : RangeOrder) (S : SliceSort) routerID,
      queryHealthcheckURLs demo_ring routerID demo_nodes !! node_a = (if decide (routerID = owner) then Some "http://a/" else None) ∧
      dom (queryHealthcheckURLs demo_ring routerID demo_nodes) ⊆ dom demo_nodes.
Proof.
  apply (ring_partition demo_ring demo_nodes node_a "http://a/").
  - exact demo_ring_run.
  - intros E. assert (router_a ∈ routers demo_ring) as Hin by (vm_compute; reflexivity). set_solver.
  - exact demo_nodes_distinct.
  - reflexivity.
Defined.

Lemma ring_low_positions_witness :
  ∃ j p, (j ≤ 2)%nat ∧ positions demo_ring !! j = Some p ∧ owner_of (posToRouter demo_ring) p = router_a.
Proof.
  apply (@ring_low_positions string elements_order insertion_slice_sort demo_ring demo_nodes
    router_a node_a); [vm_compute; lia|vm_compute; eauto].
Defined.
