(* ===== verification/Cluster.v ===== *)
(** * Cluster member

    [router/cluster_member.go]: a router in a gossip cluster.  It broadcasts the
    events and health checks it gets to the other members, merges theirs and
    their states, and keeps the ring of members by which health checks are
    shared out. *)

From S2P Require Import Prelude GoLib Health NodeEvent RouterState Manager Ring.

(** The messages of [router/cluster]. *)
Inductive RouterNodeMessage {U : UrlLib} {T : TimestampLib} :=
| MsgNodeEvent (ev : PbNodeEvent)
| MsgHealthcheck (hc : PbCheck)
| MsgNothing.
Definition RouterV2 : Z := 1.
Record RouterNodeMeta := MkMeta { meta_type : option Z }.

Record ClusterMember {U : UrlLib} := MkMember {
  cm_ID : uuid;
  router : Manager;
  routerRing : ring;
}.
Arguments ClusterMember : clear implicits.

Section cluster.
Context {U : UrlLib} {I : UuidLib} {T : TimestampLib} {R : RangeOrder} {S : SliceSort} {E : NodeEvaluator}.
Context {WM : ProtoWire RouterNodeMessage} {WT : ProtoWire RouterNodeMeta} {WR : ProtoWire PbRouterState}.

Definition NewClusterMember (id : uuid) : ClusterMember U := MkMember _ id NewManager (addRouter newRing id).

Definition with_router (m : ClusterMember U) (r : Manager) : ClusterMember U := MkMember _ (cm_ID m) r (routerRing m).
Definition with_ring (m : ClusterMember U) (r : ring) : ClusterMember U := MkMember _ (cm_ID m) (router m) r.

(** ** State exchange *)

Definition ReadState (m : ClusterMember U) : list byte :=
  match Router_MarshalBinary (state (router m)) with Ok b => b | Err _ => [] end.

Definition HandleState (c : EvalClock) (data : list byte) (m : ClusterMember U) : option (ClusterMember U) :=
  match Router_UnmarshalBinary data with
  | Err _ => Some m
  | Ok s => with_router m <$> MergeRouterState c s (router m)
  end.

(** ** Messages *)

Definition HandleMessage (c : EvalClock) (b : list byte) (m : ClusterMember U) : option (ClusterMember U) :=
  match unmarshal_message b with
  | Err _ => Some m
  | Ok (MsgNodeEvent pbe) =>
      match NodeEvent_UnmarshalProto pbe with
      | Err _ => Some m
      | Ok ev => with_router m <$> MergeNodeEvent c ev (router m)
      end
  | Ok (MsgHealthcheck pbc) =>
      match Check_UnmarshalProto pbc with
      | Err _ => Some m
      | Ok check => with_router m <$> MergeHealthcheck c check (router m)
      end
  | Ok MsgNothing => Some m
  end.

(** The member and the message it broadcasts; marshalling a malformed event
    panics. *)
Definition AddNodeEvent (c : EvalClock) (ev : NodeEvent) (m : ClusterMember U) : option (ClusterMember U * option (list byte)) :=
  r ← MergeNodeEvent c ev (router m);
  pbe ← NodeEvent_MarshalProto ev;
  Some (with_router m r, match marshal_message (MsgNodeEvent pbe) with Ok msg => Some msg | Err _ => None end).

Definition AddHealthcheck (c : EvalClock) (check : Check) (m : ClusterMember U) : option (ClusterMember U * option (list byte)) :=
  r ← MergeHealthcheck c check (router m);
  Some (with_router m r,
        match marshal_message (MsgHealthcheck (Check_MarshalProto check)) with Ok msg => Some msg | Err _ => None end).

(** ** Members *)

Definition addPeer (id : uuid) (m : ClusterMember U) : ClusterMember U :=
  if decide (cm_ID m = id) then m else with_ring m (addRouter (routerRing m) id).
Definition removePeer (id : uuid) (m : ClusterMember U) : ClusterMember U :=
  if decide (cm_ID m = id) then m else with_ring m (removeRouter (routerRing m) id).

Definition HandleNodeJoin (id : uuid) (b : list byte) (m : ClusterMember U) : ClusterMember U :=
  match unmarshal_message b with
  | Err _ => m
  | Ok meta => if bool_decide (meta_type meta = Some RouterV2) then addPeer id m else m
  end.
Definition HandleNodeLeave (id : uuid) (m : ClusterMember U) : ClusterMember U := removePeer id m.

Definition QueryRouters (m : ClusterMember U) : gset uuid := queryRouters (routerRing m).

Definition QueryHealthcheckTargets (m : ClusterMember U) : gmap uuid url * Z :=
  let '(targets, totalCount) := Manager.QueryHealthcheckTargets (router m) in
  (queryHealthcheckURLs (routerRing m) (cm_ID m) targets, totalCount).

(** ** Runs of one member

    Other members join without hash collisions; a panic is no step. *)
Inductive member_step : ClusterMember U → ClusterMember U → Prop :=
| ms_join id b m :
    (id ≠ cm_ID m → collision_free (routerRing m) id) → member_step m (HandleNodeJoin id b m)
| ms_leave id m : member_step m (HandleNodeLeave id m)
| ms_event c ev m m' msg : AddNodeEvent c ev m = Some (m', msg) → member_step m m'
| ms_check c hc m m' msg : AddHealthcheck c hc m = Some (m', msg) → member_step m m'
| ms_message c b m m' : HandleMessage c b m = Some m' → member_step m m'
| ms_state c b m m' : HandleState c b m = Some m' → member_step m m'
| ms_bg c i m r : bgEvaluationStep c i (router m) = Some r → member_step m (with_router m r).

(** ** The ring of a member *)

Lemma option_fmap_router (m m' : ClusterMember U) o : with_router m <$> o = Some m' → ∃ r, m' = with_router m r.
Proof. destruct o as [r|]; [|done]. intros [= <-]. by exists r. Qed.

Lemma member_step_ring m m' :
  member_step m m' → cm_ID m' = cm_ID m ∧
  (routerRing m' = routerRing m ∨ ∃ id, id ≠ cm_ID m ∧
     (collision_free (routerRing m) id ∧ routerRing m' = addRouter (routerRing m) id ∨ routerRing m' = removeRouter (routerRing m) id)).
Proof.
  destruct 1 as [id b m Hc|id m|c ev m m' msg H|c hc m m' msg H|c b m m' H|c b m m' H|c i m r H].
  - unfold HandleNodeJoin, addPeer. destruct (unmarshal_message b); [|by split; [|left]].
    case_bool_decide; [|by split; [|left]]. destruct (decide (cm_ID m = id)) as [|Hne]; [by split; [|left]|].
    split; [done|]. right. exists id. split; [done|]. left. split; [by apply Hc|done].
  - unfold HandleNodeLeave, removePeer. destruct (decide (cm_ID m = id)) as [|Hne]; [by split; [|left]|].
    split; [done|]. right. exists id. split; [done|]. by right.
  - unfold AddNodeEvent in H. destruct (MergeNodeEvent _ _ _); [|done]. cbn in H.
    destruct (NodeEvent_MarshalProto ev); [|done]. cbn in H. injection H as <- _. by split; [|left].
  - unfold AddHealthcheck in H. destruct (MergeHealthcheck _ _ _); [|done]. cbn in H. injection H as <- _. by split; [|left].
  - unfold HandleMessage in H. repeat case_match; try (by injection H as <-; split; [|left]);
      apply option_fmap_router in H as [r ->]; by split; [|left].
  - unfold HandleState in H. repeat case_match; try (by injection H as <-; split; [|left]);
      apply option_fmap_router in H as [r ->]; by split; [|left].
  - by split; [|left].
Qed.

Lemma addRouter_routers r id : routers (addRouter r id) = {[ id ]} ∪ routers r.
Proof.
  unfold addRouter. destruct (decide _); [set_solver|]. by destruct (foldl _ _ _).
Qed.
Lemma removeRouter_routers r id : routers (removeRouter r id) = routers r ∖ {[ id ]}.
Proof.
  unfold removeRouter. destruct (decide _); [|set_solver]. by destruct (remove_positions _ _ _).
Qed.

(** A member is always on its own ring, and its ring is built by joins and
    leaves. *)
Definition member_ok (m : ClusterMember U) : Prop :=
  rtc ring_step newRing (routerRing m) ∧ cm_ID m ∈ QueryRouters m.

Lemma new_member_ok id : NoDup (router_positions id) → member_ok (NewClusterMember id).
Proof.
  intros Hnd. split.
  - apply rtc_once, rstep_add. split; [done|]. intros p _. apply not_elem_of_nil.
  - unfold QueryRouters, queryRouters. cbn [routerRing NewClusterMember cm_ID]. rewrite addRouter_routers. set_solver.
Qed.

Lemma member_step_ok m m' : member_step m m' → member_ok m → member_ok m'.
Proof.
  intros Hs [Hr Hin]. apply member_step_ring in Hs as [Hid Hs]. unfold member_ok, QueryRouters, queryRouters in *. rewrite Hid.
  destruct Hs as [->|(id & Hne & [[Hc ->]| ->])]; [done|..].
  - split; [eapply rtc_r; [done|by apply rstep_add]|]. rewrite addRouter_routers. set_solver.
  - split; [eapply rtc_r; [done|by apply rstep_remove]|]. rewrite removeRouter_routers. set_solver.
Qed.

Lemma member_run_ok m m' : rtc member_step m m' → member_ok m → member_ok m'.
Proof. induction 1; eauto using member_step_ok. Qed.
(** ** Messages act as local events *)

Context {UL : UrlLaws U} {IL : UuidLaws I} {TL : TimestampLaws T}.
Context {WML : ProtoWireLaws RouterNodeMessage}.

Lemma HandleMessage_event c ev m pbe msg :
  event_wf ev → NodeEvent_MarshalProto ev = Some pbe → marshal_message (MsgNodeEvent pbe) = Ok msg →
  HandleMessage c msg m = with_router m <$> MergeNodeEvent c ev (router m).
Proof.
  intros Hwf Hp Hm. destruct (NodeEvent_roundtrip ev Hwf) as (pbe' & Hp' & Hu). rewrite Hp in Hp'. injection Hp' as <-.
  unfold HandleMessage. by rewrite (unmarshal_marshalled _ _ Hm), Hu.
Qed.

Lemma HandleMessage_check c hc m msg :
  check_wf hc → marshal_message (MsgHealthcheck (Check_MarshalProto hc)) = Ok msg →
  HandleMessage c msg m = with_router m <$> MergeHealthcheck c hc (router m).
Proof.
  intros Hwf Hm. unfold HandleMessage. by rewrite (unmarshal_marshalled _ _ Hm), Check_roundtrip.
Qed.

End cluster.

(** Gossip acts like local news.  When a member takes in a well-formed node
    event or health check it merges it into its router and broadcasts a message;
    any member that receives the message ends as if it had got the event or
    check itself, with nothing further to broadcast. *)
Theorem broadcast_acts_locally {U : UrlLib} {I : UuidLib} {T : TimestampLib} {R : RangeOrder} {S : SliceSort} {E : NodeEvaluator}
    {WM : ProtoWire RouterNodeMessage} {UL : UrlLaws U} {IL : UuidLaws I} {TL : TimestampLaws T}
    {WML : ProtoWireLaws RouterNodeMessage} c m m' msg :
  (∀ ev, event_wf ev → AddNodeEvent c ev m = Some (m', Some msg) →
    MergeNodeEvent c ev (router m) = Some (router m') ∧
    ∀ c' n, HandleMessage c' msg n = fst <$> AddNodeEvent c' ev n) ∧
  (∀ hc, check_wf hc → AddHealthcheck c hc m = Some (m', Some msg) →
    MergeHealthcheck c hc (router m) = Some (router m') ∧
    ∀ c' n, HandleMessage c' msg n = fst <$> AddHealthcheck c' hc n).
Proof.
  split.
  - intros ev Hwf H. destruct (NodeEvent_roundtrip ev Hwf) as (pbe & Hp & _). unfold AddNodeEvent in H.
    destruct (MergeNodeEvent c ev (router m)) as [r|]; [|done]. cbn in H. rewrite Hp in H. cbn in H.
    destruct (marshal_message (MsgNodeEvent pbe)) as [b|] eqn:Hm; [|done]. injection H as <- <-. split; [done|].
    intros c' n. rewrite (HandleMessage_event c' ev n pbe b Hwf Hp Hm). unfold AddNodeEvent.
    destruct (MergeNodeEvent c' ev (router n)); [|done]. cbn. by rewrite Hp.
  - intros hc Hwf H. unfold AddHealthcheck in H.
    destruct (MergeHealthcheck c hc (router m)) as [r|]; [|done]. cbn in H.
    destruct (marshal_message (MsgHealthcheck (Check_MarshalProto hc))) as [b|] eqn:Hm; [|done]. injection H as <- <-. split; [done|].
    intros c' n. rewrite (HandleMessage_check c' hc n b Hwf Hm). unfold AddHealthcheck.
    by destruct (MergeHealthcheck c' hc (router n)).
Qed.


(** ** A cluster of two, for the witnesses *)

Section demo.
#[local] Instance demo_url' : UrlLib := text_url.
#[local] Instance demo_uuid' : UuidLib := binary_uuid.
#[local] Instance demo_ts' : TimestampLib := unix_timestamp.
#[local] Instance demo_order' : RangeOrder := elements_order.
#[local] Instance demo_sort' : SliceSort := insertion_slice_sort.
#[local] Instance demo_evaluator' : NodeEvaluator := GradedNodeEvaluator DefaultGraderConfig minute.

Definition check_tuple (c : PbCheck) : string * string * Z * option Z * Z * Z * string :=
  (Health.pb_node_id c, Health.pb_url c, pb_retries c, Health.pb_timestamp c, pb_latency_ns c, pb_http_status_code c, pb_error_message c).
Definition tuple_check (t : string * string * Z * option Z * Z * Z * string) : PbCheck :=
  let '(a, b, c, d, e, f, g) := t in MkPbCheck a b c d e f g.

(** A wire that carries health checks only. *)
#[local] Instance check_wire : ProtoWire RouterNodeMessage := {|
  proto_marshal m := match m with
    | MsgHealthcheck c => Some (String.list_byte_of_string (pos_text (encode (check_tuple c))))
    | _ => None
    end;
  proto_unmarshal b := MsgHealthcheck <$> (tuple_check <$> (text_pos (String.string_of_list_byte b) ≫= decode));
|}.
Lemma check_wire_laws : ProtoWireLaws RouterNodeMessage.
Proof.
  constructor. intros [ev|c|] b; try done. intros [= <-]. cbn.
  rewrite String.string_of_list_byte_of_string, text_pos_text. cbn. rewrite decode_encode. cbn. by destruct c.
Qed.
#[local] Instance meta_wire : ProtoWire RouterNodeMeta := {|
  proto_marshal m := None;
  proto_unmarshal b := Some (MkMeta (Some RouterV2));
|}.
#[local] Instance no_state_wire : ProtoWire PbRouterState := {|
  proto_marshal m := None;
  proto_unmarshal b := None;
|}.

Lemma broadcast_acts_locally_witness :
  match AddHealthcheck demo_clock (node_check 1) (NewClusterMember router_a) with
  | Some (m', Some msg) => HandleMessage demo_clock msg (NewClusterMember router_b) =
      fst <$> AddHealthcheck demo_clock (node_check 1) (NewClusterMember router_b)
  | _ => False
  end.
Proof.
  assert (match AddHealthcheck demo_clock (node_check 1) (NewClusterMember router_a) with Some (_, Some _) => true | _ => false end = true) as Hsent
    by (vm_cast_no_check (eq_refl true)).
  destruct (AddHealthcheck demo_clock (node_check 1) (NewClusterMember router_a)) as [[m' [msg|]]|] eqn:Ea.
  - apply (proj2 (@broadcast_acts_locally text_url binary_uuid unix_timestamp elements_order insertion_slice_sort _ _
      text_url_laws binary_uuid_laws unix_timestamp_laws check_wire_laws demo_clock (NewClusterMember router_a) m' msg) (node_check 1)); [|exact Ea].
    refine (conj _ (conj _ (conj _ _))); [vm_compute; split; reflexivity|discriminate|unfold int32; cbn; lia..].
  - discriminate Hsent.
  - discriminate Hsent.
Defined.

Definition joined (id peer : uuid) : ClusterMember text_url := HandleNodeJoin peer [] (NewClusterMember id).
Definition informed (m : ClusterMember text_url) : ClusterMember text_url :=
  match AddNodeEvent demo_clock (demo_heartbeat 1) m with Some (m, _) => m | None => m end.
Definition demo_cluster : list (ClusterMember text_url) := [informed (joined router_a router_b); informed (joined router_b router_a)].

Lemma informed_ring m : cm_ID (informed m) = cm_ID m ∧ routerRing (informed m) = routerRing m.
Proof.
  unfold informed, AddNodeEvent. destruct (MergeNodeEvent _ _ _); [|done]. cbn. by destruct (NodeEvent_MarshalProto (demo_heartbeat 1)).
Qed.

Lemma joined_ring id peer : id ≠ peer → routerRing (joined id peer) = addRouter (addRouter newRing id) peer ∧ cm_ID (joined id peer) = id.
Proof. intros Hne. unfold joined, HandleNodeJoin. cbn. unfold addPeer. by rewrite decide_False. Qed.

Lemma joined_run id peer :
  id ≠ peer → collision_free (addRouter newRing id) peer → rtc member_step (NewClusterMember id) (informed (joined id peer)).
Proof.
  intros Hne Hc. eapply rtc_l; [by apply (ms_join peer [])|]. fold (joined id peer). unfold informed.
  destruct (AddNodeEvent _ _ _) as [[m msg]|] eqn:Ea; [|apply rtc_refl]. eapply rtc_once, ms_event, Ea.
Qed.

Lemma two_routers (a b : uuid) : {[ b ]} ∪ ({[ a ]} ∪ routers newRing) = list_to_set [a; b].
Proof. simpl. set_solver. Qed.

End demo.
