(* ===== verification/RouterHttp.v ===== *)
(** The router's HTTP side ([router/http_handler.go], the value of
    [ahttp/ahttp.go]): node events, paid manifest queries, and the reverse proxy
    that forwards a paid request to a node, settles the payment when the response
    has been read to its end, and turns what the node reports as unspent into a
    refund credit. *)

From stdpp Require Import pretty.
From S2P Require Import Prelude Bytes GoLib AnonErrors Credit CreditText BlindSigning NonceLocking Processor Http.
From S2P Require Import RouterApi.
From S2P Require Currency Nonce NodeEvent RouterState Manager.

(** The interface between the handlers and the router.  The random number of a
    pick is an argument; adding an event may panic. *)
Class NodeService {U : UrlLib} {I : UuidLib} := {
  service : Type;
  AddNodeEvent : NodeEvent.NodeEvent → service → option service;
  QueryComputeManifests : service → ComputeManifestRequest → list ComputeManifest;
  PickNodeFromCandidates : service → list ComputeCandidate → option nat → result goerror (ComputeCandidate * url);
}.

(** The router provides it. *)
Definition router_service `{U : UrlLib, I : UuidLib, T : TimestampLib, R : RangeOrder, S : SliceSort}
    {E : Manager.NodeEvaluator} (c : Manager.EvalClock) : NodeService := {|
  service := Manager.Manager;
  AddNodeEvent ev m := Manager.MergeNodeEvent c ev m;
  QueryComputeManifests m q := Manager.QueryComputeManifests m q;
  PickNodeFromCandidates m cs idx := Manager.PickNodeFromCandidates m cs idx;
|}.

Definition RoutingInfoHeader : string := "X-Routing-Info".
Definition NodeIDHeader : string := "X-Node-ID".
Definition CreditHeader : string := "X-Credit".
Definition RefundHeader : string := "X-Refund".
Definition RefundAmountHeader : string := "X-Refund-Amount".
Definition NodeCreditAmountHeader : string := "X-Credit-Amount".

(** [ahttp.AttestationCurrencyValue]; [None] would be a panic at start-up. *)
Definition AttestationCurrencyValue : option Currency.Value := Currency.MustSpecial 0.

Section handlers.
Context {U : UrlLib} {I : UuidLib} {T : TimestampLib} {R : RangeOrder} {SV : NodeService}.
Context {B : BlindRSA} {NL : NonceLocker}.
Context {WE : ProtoWire PbError} {WC : ProtoWire PbCredit} {WV : ProtoWire Currency.PbCurrency}.
Context {WN : ProtoWire NodeEvent.PbNodeEvent} {WI : ProtoWire (list PbComputeCandidate)}.
Context {WQ : ProtoWire PbComputeManifestRequest} {WM : ProtoWire (list PbComputeManifest)}.

(** ** [POST /node-events] *)

(** The service after the request is [None] when adding the event panicked. *)
Definition NodeEventsHandler (r : Request) (w : ResponseWriter) (svc : service) : ResponseWriter * option service :=
  BinaryHandlerInputOnly NodeEvent.NodeEvent_UnmarshalBinary
    (λ ev s, (Ok tt, s ≫= AddNodeEvent ev)) r w (Some svc).

(** ** [POST /compute-manifests] *)

Definition queryHandler (svc : service) (r : Request) (w : ResponseWriter) : ResponseWriter :=
  (BinaryHandler ManifestRequest_UnmarshalBinary ManifestList_MarshalBinary
    (λ q (_ : unit), (Ok (QueryComputeManifests svc q), tt)) r w tt).1.

(** The writer, the outcome of the commit when a transaction was begun, and the
    locker. *)
Definition ComputeManifestsHandler (svc : service) (env : LockEnv) (r : Request) (w : ResponseWriter) (s : locker) :
    ResponseWriter * option (result err unit) * locker :=
  match BlindedCredit_UnmarshalText (Get (r_Header r) CreditHeader) with
  | Err _ => (BinaryBadRequest ("invalid credit in " +:+ CreditHeader +:+ " header") w, None, s)
  | Ok credit =>
      if negb (bool_decide (Some (b_value credit) = AttestationCurrencyValue)) then
        (BinaryBadRequest "invalid credit value" w, None, s)
      else
        let '(begun, s) := BeginTransaction env credit s in
        match begun with
        | Err _ => (BinaryBadRequest "unprocessable credit" w, None, s)
        | Ok tx =>
            let w := queryHandler svc r w in
            let '(committed, _, s) := Commit tx s in
            (w, Some committed, s)
        end
  end.

(** ** [POST /]: the proxy *)

Record modifyResponseInput := MkProxyInput {
  in_tx : Transaction;
  creditAmount : Z;
  nodeURL : url;
  candidate : ComputeCandidate;
}.

(** What happens before the proxy is called: a response, or the input of the
    proxy. *)
Definition RoutingHandler_begin (svc : service) (env : LockEnv) (pick : option nat) (r : Request)
    (w : ResponseWriter) (s : locker) : result ResponseWriter modifyResponseInput * locker :=
  match RequestInfo_UnmarshalText (Get (r_Header r) RoutingInfoHeader) with
  | Err _ => (Err (BinaryBadRequest ("invalid routing info in " +:+ RoutingInfoHeader +:+ " header") w), s)
  | Ok info =>
      match BlindedCredit_UnmarshalText (Get (r_Header r) CreditHeader) with
      | Err _ => (Err (BinaryBadRequest ("invalid credit in " +:+ CreditHeader +:+ " header") w), s)
      | Ok credit =>
          match Currency.Amount (b_value credit) with
          | Err _ => (Err (BinaryBadRequest "invalid credit value" w), s)
          | Ok amount =>
              match PickNodeFromCandidates svc info pick with
              | Err _ => (Err (BinaryError "all candidate nodes unavailable" StatusNotFound w), s)
              | Ok (candidate, nodeURL) =>
                  let '(begun, s) := BeginTransaction env credit s in
                  match begun with
                  | Err _ => (Err (BinaryBadRequest "unprocessable credit" w), s)
                  | Ok tx => (Ok (MkProxyInput tx amount nodeURL candidate), s)
                  end
              end
          end
      end
  end.

(** The headers and URL of the request to the node, from the headers the proxy
    prepared. *)
Definition Rewrite (input : modifyResponseInput) (out : Header) : Header * url :=
  (SetHeader NodeCreditAmountHeader (pretty (creditAmount input))
     (CopyKeysToHeader (candidate input) (Del CreditHeader (Del RoutingInfoHeader out))), nodeURL input).

(** The headers and trailers of the node's response as they are handed on. *)
Definition ModifyResponse (input : modifyResponseInput) (header trailer : Header) : Header * Header :=
  (SetHeader "Trailer" RefundHeader (SetHeader NodeIDHeader (uuid_string (cand_ID (candidate input))) header),
   Del RefundAmountHeader trailer).

(** The callback at the end of the body, with the trailers the node sent. *)
Definition eofCallback (d : Draw) (now : Z) (tx : Transaction) (trailer : Header) (s : locker) :
    result err unit * Transaction * Header * locker :=
  let val := Get trailer RefundAmountHeader in
  let trailer := Del RefundAmountHeader trailer in
  if bool_decide (val = "") then
    let '(r, tx, s) := Commit tx s in
    (wrap_err (Wrapped "failed to commit transaction") r, tx, trailer, s)
  else
    match Value_UnmarshalText val with
    | Err e => (Err (Wrapped "failed to unmarshal currency value from header" e), tx, trailer, s)
    | Ok value =>
        let '(r, tx, s) := CommitWithUnspend d now value tx s in
        match r with
        | Err e => (Err (Wrapped "failed to commit transaction with unspend credits" e), tx, trailer, s)
        | Ok refund =>
            match UnblindedCredit_MarshalText refund with
            | Err e => (Err (Wrapped "failed to marshal refund to text" e), tx, trailer, s)
            | Ok refundTxt => (Ok tt, tx, SetHeader RefundHeader refundTxt trailer, s)
            end
        end
    end.

(** What reading from the node gives: more to come, the end of the body with the
    trailers, or a failure. *)
Inductive read_result := ReadMore | ReadEOF (trailer : Header) | ReadFailed.

(** [readCloserEOFCallback.Read]: the callback's error replaces the end of the
    body. *)
Definition Read (d : Draw) (now : Z) (orig : read_result) (tx : Transaction) (trailer : Header) (s : locker) :
    read_result * Transaction * Header * locker :=
  match orig with
  | ReadEOF tr =>
      let '(r, tx, trailer, s) := eofCallback d now tx tr s in
      (match r with Ok _ => ReadEOF trailer | Err _ => ReadFailed end, tx, trailer, s)
  | _ => (orig, tx, trailer, s)
  end.

(** ** A proxied request

    [httputil.ReverseProxy] sends the request; if that fails it calls the error
    handler, which answers 502, and returns.  Otherwise it modifies the response
    and copies the body; the read that meets the end of the body runs the
    callback, then the bytes it gave are written, the trailers are added, and it
    returns.  When reading or writing fails, before or after the callback, it
    panics with [http.ErrAbortHandler], so that the rest of the handler is not run.  The server cancels the context of
    the request, and with it that of the transaction, when the client goes away.
    Meanwhile other requests use the locker. *)

Inductive abort_reason :=
| BeforeEnd
| CallbackFailed (d : Draw) (now : Z) (trailer : Header)
| WriteFailed.
Inductive phase :=
| RoundTrip | Copying
| LastChunk
| ProxyDone (delivered : bool)
| Aborted (why : abort_reason)
| HandlerDone (delivered : bool).

Record session := MkSession {
  ss_phase : phase;
  ss_tx : Transaction;
  ss_header : Header;
  ss_trailer : Header;
  ss_locker : locker;
}.

Definition client_gone (tx : Transaction) : Transaction :=
  MkTransaction (match tx_ctx tx with CtxLive => CtxCancelled ContextCanceled ContextCanceled | c => c end)
    (tx_lockedNonce tx) (tx_credit tx).

(** The node's read gave [orig], the wrapped one, with these draws, [r]. *)
Definition after_read (d : Draw) (now : Z) (orig r : read_result) : phase :=
  match r with
  | ReadMore => Copying
  | ReadEOF _ => LastChunk
  | ReadFailed => Aborted (match orig with ReadEOF trailer => CallbackFailed d now trailer | _ => BeforeEnd end)
  end.

Context {NLS : NonceLockerSpec NL}.

Inductive proxy_step (input : modifyResponseInput) : session → session → Prop :=
| px_other p tx h t s s' :
    locker_step s s' →
    nonce_status s' (locked_nonce (tx_lockedNonce tx)) = nonce_status s (locked_nonce (tx_lockedNonce tx)) →
    proxy_step input (MkSession p tx h t s) (MkSession p tx h t s')
| px_client_gone p tx h t s :
    proxy_step input (MkSession p tx h t s) (MkSession p (client_gone tx) h t s)
| px_transport_error tx h t s :
    proxy_step input (MkSession RoundTrip tx h t s) (MkSession (ProxyDone false) tx h t s)
| px_response tx h t s header trailer :
    proxy_step input (MkSession RoundTrip tx h t s)
      (MkSession Copying tx (ModifyResponse input header trailer).1 (ModifyResponse input header trailer).2 s)
| px_read d now orig tx h t s r tx' t' s' :
    Read d now orig tx t s = (r, tx', t', s') →
    proxy_step input (MkSession Copying tx h t s) (MkSession (after_read d now orig r) tx' h t' s')
| px_write_failed tx h t s :
    proxy_step input (MkSession Copying tx h t s) (MkSession (Aborted BeforeEnd) tx h t s)
| px_last_written tx h t s :
    proxy_step input (MkSession LastChunk tx h t s) (MkSession (ProxyDone true) tx h t s)
| px_last_failed tx h t s :
    proxy_step input (MkSession LastChunk tx h t s) (MkSession (Aborted WriteFailed) tx h t s)
| px_rollback d tx h t s :
    proxy_step input (MkSession (ProxyDone d) tx h t s) (MkSession (HandlerDone d) tx h t (Rollback tx s).2).

Definition forwarded (input : modifyResponseInput) (s : locker) : session :=
  MkSession RoundTrip (in_tx input) ∅ ∅ s.

(** The trailers of a delivered response: without a report of the node its own,
    with one a refund credit of the reported value that verifies. *)
Definition settled (trailer : Header) : Prop :=
  ∃ tr, let val := Get tr RefundAmountHeader in
    if bool_decide (val = "") then trailer = Del RefundAmountHeader tr
    else ∃ value refund, Value_UnmarshalText val = Ok value ∧ u_value refund = value ∧
      Issuer_VerifyCredit (Unblinded refund) = Ok tt ∧
      UnblindedCredit_MarshalText refund = Ok (Get trailer RefundHeader).

(** The node reported a value that can be read, and no refund could be made of
    it: the credit could not be issued or not be written as text. *)
Definition refund_failed (d : Draw) (now : Z) (tr : Header) : Prop :=
  ∃ value, Get tr RefundAmountHeader ≠ "" ∧ Value_UnmarshalText (Get tr RefundAmountHeader) = Ok value ∧
    match IssueUnblindedCredit d now value with
    | Err _ => True
    | Ok refund => ∃ e, UnblindedCredit_MarshalText refund = Err e
    end.

(** *** Invariant *)

Definition uncommitted (c : ctx_state) : Prop := c = CtxLive ∨ c = CtxCancelled ContextCanceled ContextCanceled.
Definition session_status (ss : session) : nonce_state :=
  nonce_status (ss_locker ss) (locked_nonce (tx_lockedNonce (ss_tx ss))).

Definition session_ok (ss : session) : Prop :=
  match ss_phase ss with
  | RoundTrip | Copying | ProxyDone false => session_status ss = NonceHeld ∧ uncommitted (tx_ctx (ss_tx ss))
  | LastChunk | ProxyDone true => session_status ss = NonceUsed ∧ settled (ss_trailer ss) ∧
      tx_ctx (ss_tx ss) = CtxCancelled ContextCanceled ErrFinished
  | HandlerDone true | Aborted WriteFailed => session_status ss = NonceUsed ∧ settled (ss_trailer ss)
  | HandlerDone false => session_status ss ≠ NonceUsed
  | Aborted BeforeEnd => session_status ss = NonceHeld
  | Aborted (CallbackFailed d now tr) => session_status ss = NonceUsed → refund_failed d now tr
  end.

Context {BL : BlindRSALaws B}.

Lemma Commit_tx tx s r tx' s' : Commit tx s = (r, tx', s') → tx_lockedNonce tx' = tx_lockedNonce tx.
Proof.
  unfold Commit. destruct (tx_ctx tx); [|by intros; simplify_eq].
  destruct (Consume _ _) as [[[]|e] s1]; [by intros; simplify_eq|].
  destruct (Release _ _). by intros; simplify_eq.
Qed.

Lemma eofCallback_tx d now tx tr s r tx' tr' s' :
  eofCallback d now tx tr s = (r, tx', tr', s') → tx_lockedNonce tx' = tx_lockedNonce tx.
Proof.
  unfold eofCallback, CommitWithUnspend. case_bool_decide; [|destruct (Value_UnmarshalText _); [|by intros; simplify_eq]];
    destruct (Commit tx s) as [[r1 tx1] s1] eqn:Ec; apply Commit_tx in Ec; repeat case_match; by intros; simplify_eq/=.
Qed.

Lemma eofCallback_ok d now tx tr s tx' tr' s' :
  eofCallback d now tx tr s = (Ok tt, tx', tr', s') →
  Commit tx s = (Ok tt, tx', s') ∧ settled tr'.
Proof.
  unfold eofCallback, CommitWithUnspend. case_bool_decide as Hv.
  - destruct (Commit tx s) as [[[[]|] tx1] s1] eqn:Ec; simpl; intros; simplify_eq.
    split; [done|]. exists tr. cbn zeta. by rewrite bool_decide_eq_true_2.
  - destruct (Value_UnmarshalText _) as [value|] eqn:Ev; [|done].
    destruct (Commit tx s) as [[[[]|] tx1] s1] eqn:Ec; cbn [mbind result_bind]; [|done].
    destruct (wrap_err _ _) as [refund|] eqn:Er; [|done]. apply wrap_err_ok in Er.
    destruct (UnblindedCredit_MarshalText refund) as [txt|] eqn:Et; intros; simplify_eq.
    split; [done|]. exists tr. cbn zeta. rewrite bool_decide_eq_false_2 by done.
    apply issued_verifies in Er as [Hok Hval]. exists value, refund. split_and!; [done..|]. by rewrite Get_Set_eq.
Qed.

(** A callback that fails has spent the nonce only if the refund failed. *)
Lemma Commit_failed tx s e tx' s' :
  Commit tx s = (Err e, tx', s') → nonce_status s (locked_nonce (tx_lockedNonce tx)) = NonceHeld →
  nonce_status s' (locked_nonce (tx_lockedNonce tx)) ≠ NonceUsed.
Proof.
  intros Hc Hs Hu. by rewrite (Commit_used _ _ _ _ _ Hc _ Hu) in Hs.
Qed.

Lemma eofCallback_failed d now tx tr s e tx' tr' s' :
  eofCallback d now tx tr s = (Err e, tx', tr', s') → nonce_status s (locked_nonce (tx_lockedNonce tx)) = NonceHeld →
  nonce_status s' (locked_nonce (tx_lockedNonce tx)) = NonceUsed → refund_failed d now tr.
Proof.
  unfold eofCallback, CommitWithUnspend. intros Hr Hh Hu. case_bool_decide as Hv.
  - destruct (Commit tx s) as [[[[]|e1] tx1] s1] eqn:Ec; simplify_eq/=. by destruct (Commit_failed _ _ _ _ _ Ec Hh).
  - destruct (Value_UnmarshalText _) as [value|] eqn:Ev; [|simplify_eq; congruence]. exists value. split_and!; [done..|].
    destruct (Commit tx s) as [[[[]|e1] tx1] s1] eqn:Ec; [|simplify_eq/=; by destruct (Commit_failed _ _ _ _ _ Ec Hh)].
    cbn [mbind result_bind] in Hr. destruct (IssueUnblindedCredit d now value) as [refund|] eqn:Ei; [|done].
    cbn [wrap_err] in Hr. destruct (UnblindedCredit_MarshalText refund) as [txt|e1]; simplify_eq. by exists e1.
Qed.

Lemma Rollback_status tx s : uncommitted (tx_ctx tx) →
  nonce_status s (locked_nonce (tx_lockedNonce tx)) = NonceHeld →
  nonce_status (Rollback tx s).2 (locked_nonce (tx_lockedNonce tx)) ≠ NonceUsed ∧
  (tx_ctx tx ≠ CtxLive → (Rollback tx s).2 = s).
Proof.
  unfold Rollback. intros [->| ->] Hs; simpl; [|by rewrite Hs].
  split; [|done]. destruct (Release _ _) as [[[]|e] s'] eqn:E; simpl.
  - apply release_ok in E. by rewrite E, Hs.
  - apply release_err in E as ->. by rewrite Hs.
Qed.

Lemma client_gone_ok tx : uncommitted (tx_ctx tx) → uncommitted (tx_ctx (client_gone tx)).
Proof. unfold uncommitted, client_gone. intros [H|H]; simpl; rewrite H; by right. Qed.

Lemma proxy_step_ok input ss ss' : proxy_step input ss ss' → session_ok ss → session_ok ss'.
Proof.
  unfold session_ok, session_status.
  destruct 1 as [p tx h t s s' Hs He|p tx h t s|tx h t s|tx h t s header trailer|d now orig tx h t s r tx' t' s' Hr|
      tx h t s|tx h t s|tx h t s|d tx h t s];
    cbn [ss_phase ss_tx ss_trailer ss_locker].
  - by rewrite He.
  - destruct p as [| | |[]|[]|[]]; try done; try (intros [? Hc]; split; [done|by apply client_gone_ok]);
      intros (? & ? & Hc); split_and!; try done; cbn; by rewrite Hc.
  - done.
  - done.
  - intros [Hh Hc]. unfold Read in Hr. destruct orig as [|tr|]; simplify_eq; cbn [after_read]; [done| |done].
    destruct (eofCallback d now tx tr s) as [[[[[]|] tx1] t1] s1] eqn:E; simplify_eq; cbn [after_read].
    + apply eofCallback_ok in E as [(_ & Hcons & ->)%Commit_ok Hset]. cbn. apply consume_ok in Hcons as [_ Hu]. done.
    + pose proof (eofCallback_tx _ _ _ _ _ _ _ _ _ E) as ->. by eapply eofCallback_failed.
  - by intros [? _].
  - done.
  - by intros (? & ? & _).
  - destruct d.
    + intros (Hu & Hset & Hc). split; [|done]. unfold Rollback. by rewrite Hc.
    + intros [Hh Hc]. by apply Rollback_status.
Qed.

Lemma proxy_run_ok input ss ss' : rtc (proxy_step input) ss ss' → session_ok ss → session_ok ss'.
Proof. induction 1; eauto using proxy_step_ok. Qed.

Lemma proxy_step_lock input ss ss' :
  proxy_step input ss ss' → tx_lockedNonce (ss_tx ss') = tx_lockedNonce (ss_tx ss).
Proof.
  destruct 1 as [| | | |d now orig tx h t s r tx' t' s' Hr| | | |]; try done. cbn. unfold Read in Hr.
  destruct orig; simplify_eq; try done.
  destruct (eofCallback d now tx trailer s) as [[[r1 tx1] t1] s1] eqn:E. simplify_eq. by eapply eofCallback_tx.
Qed.
Lemma proxy_run_lock input ss ss' :
  rtc (proxy_step input) ss ss' → tx_lockedNonce (ss_tx ss') = tx_lockedNonce (ss_tx ss).
Proof. induction 1 as [|ss ss1 ss2 H _ IH]; [done|]. by rewrite IH, (proxy_step_lock _ _ _ H). Qed.

Lemma RoutingHandler_begin_ok svc env pick r w s input s' :
  RoutingHandler_begin svc env pick r w s = (Ok input, s') →
  ∃ info credit, RequestInfo_UnmarshalText (Get (r_Header r) RoutingInfoHeader) = Ok info ∧
    BlindedCredit_UnmarshalText (Get (r_Header r) CreditHeader) = Ok credit ∧
    Currency.Amount (b_value credit) = Ok (creditAmount input) ∧
    PickNodeFromCandidates svc info pick = Ok (candidate input, nodeURL input) ∧
    BeginTransaction env credit s = (Ok (in_tx input), s').
Proof.
  unfold RoutingHandler_begin. destruct (RequestInfo_UnmarshalText _) as [info|]; [|done].
  destruct (BlindedCredit_UnmarshalText _) as [credit|]; [|done].
  destruct (Currency.Amount _) as [amount|] eqn:Ha; [|done].
  destruct (PickNodeFromCandidates _ _ _) as [[cand u]|] eqn:Hp; [|done].
  destruct (BeginTransaction _ _ _) as [[tx|] s1] eqn:Hb; intros; simplify_eq. eauto 10.
Qed.
End handlers.

(** C14. A response is delivered exactly for a spent credit.  A request is only
    forwarded with a verified credit whose nonce was free and to a node picked
    from the client's candidates.  Until the end of the response the nonce is
    locked.  From the end of the response on, and when it has been delivered,
    the nonce is spent and its trailers are the node's own, or carry a refund
    credit that verifies and has the value the node reported.  When the handler
    returns without having delivered a response the nonce is not spent.  A
    request that is aborted before the end of the response leaves it locked; one
    whose last bytes could not be written has spent it with its trailers
    settled; one that is aborted because the callback failed has spent it only
    if the node reported a value and no refund could be issued for it or written
    as text.  This holds for every interleaving with the client going away,
    failures of node and connection, and other requests. *)
Theorem proxied_request_paid {U : UrlLib} {I : UuidLib} {T : TimestampLib} {SV : NodeService}
    {B : BlindRSA} {BL : BlindRSALaws B} {NL : NonceLocker} {NLS : NonceLockerSpec NL}
    {WE : ProtoWire PbError} {WC : ProtoWire PbCredit} {WV : ProtoWire Currency.PbCurrency}
    {WI : ProtoWire (list PbComputeCandidate)} svc env pick r w s input s1 ss :
  RoutingHandler_begin svc env pick r w s = (Ok input, s1) →
  rtc (proxy_step input) (forwarded input s1) ss →
  (∃ info credit, RequestInfo_UnmarshalText (Get (r_Header r) RoutingInfoHeader) = Ok info ∧
    BlindedCredit_UnmarshalText (Get (r_Header r) CreditHeader) = Ok credit ∧
    PickNodeFromCandidates svc info pick = Ok (candidate input, nodeURL input) ∧
    Issuer_VerifyCredit (Blinded credit) = Ok tt ∧ Currency.Amount (b_value credit) = Ok (creditAmount input) ∧
    nonce_status s (Nonce.nonce_bytes (b_nonce credit)) = NonceFree ∧
    locked_nonce (tx_lockedNonce (ss_tx ss)) = Nonce.nonce_bytes (b_nonce credit)) ∧
  match ss_phase ss with
  | RoundTrip | Copying | ProxyDone false | Aborted BeforeEnd => session_status ss = NonceHeld
  | LastChunk | ProxyDone true | HandlerDone true | Aborted WriteFailed =>
      session_status ss = NonceUsed ∧ settled (ss_trailer ss)
  | HandlerDone false => session_status ss ≠ NonceUsed
  | Aborted (CallbackFailed d now trailer) => session_status ss = NonceUsed → refund_failed d now trailer
  end.
Proof.
  intros (info & credit & Hi & Hc & Ha & Hp & Hb)%RoutingHandler_begin_ok Hrun.
  apply BeginTransaction_ok in Hb as (Hv & Hctx & Hcr & Hl). apply lock_ok in Hl as (_ & _ & Hn & Hf & Hh).
  pose proof (proxy_run_lock _ _ _ Hrun) as Hlock. cbn [forwarded ss_tx] in Hlock. split.
  { exists info, credit. rewrite Hlock. done. }
  apply proxy_run_ok in Hrun.
  - unfold session_ok in Hrun. destruct (ss_phase ss) as [| | |[]|[]|[]]; naive_solver.
  - unfold session_ok, session_status, forwarded. cbn. rewrite Hn. split; [done|by left].
Qed.

(** The session has lost its client, or was aborted, with the nonce still
    locked. *)
Definition stuck {B : BlindRSA} {NL : NonceLocker} {NLS : NonceLockerSpec NL} (ss : session) : Prop :=
  session_status ss = NonceHeld ∧
  match ss_phase ss with
  | Aborted _ => True
  | LastChunk | ProxyDone true | HandlerDone true => False
  | _ => tx_ctx (ss_tx ss) = CtxCancelled ContextCanceled ContextCanceled
  end.

Lemma stuck_step {U : UrlLib} {I : UuidLib} {T : TimestampLib}
    {B : BlindRSA} {NL : NonceLocker} {NLS : NonceLockerSpec NL}
    {WC : ProtoWire PbCredit} {WV : ProtoWire Currency.PbCurrency} input ss ss' :
  proxy_step input ss ss' → stuck ss → stuck ss'.
Proof.
  unfold stuck, session_status.
  destruct 1 as [p tx h t s s' Hs He|p tx h t s|tx h t s|tx h t s header trailer|d now orig tx h t s r tx' t' s' Hr|
      tx h t s|tx h t s|tx h t s|d tx h t s];
    cbn [ss_phase ss_tx ss_locker]; intros [Hh Hc].
  - by rewrite He.
  - split; [done|]. destruct p as [| | |[]| |[]]; try done; unfold client_gone; by rewrite Hc.
  - done.
  - done.
  - unfold Read in Hr. destruct orig as [|tr|]; simplify_eq; cbn [after_read]; [done| |done].
    unfold eofCallback, CommitWithUnspend, Commit in Hr. rewrite Hc in Hr.
    repeat case_match; simplify_eq/=; done.
  - done.
  - done.
  - done.
  - destruct d; [done|]. unfold Rollback. by rewrite Hc.
Qed.

(** C15. A request that breaks off takes its credit with it.  Once the client has
    gone away before the end of the response, or reading or writing the response
    has failed before the payment was settled, nobody releases the nonce: in
    every later state of the request it is locked, and no transaction on it can
    begin. *)
Theorem broken_request_keeps_credit {U : UrlLib} {I : UuidLib} {T : TimestampLib}
    {B : BlindRSA} {NL : NonceLocker} {NLS : NonceLockerSpec NL}
    {WC : ProtoWire PbCredit} {WV : ProtoWire Currency.PbCurrency} input ss ss' :
  stuck ss → rtc (proxy_step input) ss ss' →
  session_status ss' = NonceHeld ∧
  ∀ env credit, Nonce.nonce_bytes (b_nonce credit) = locked_nonce (tx_lockedNonce (ss_tx ss')) →
    ∃ e, BeginTransaction env credit (ss_locker ss') = (Err e, ss_locker ss').
Proof.
  intros Hst Hrun.
  assert (stuck ss') as [Hh _] by (clear -Hst Hrun; induction Hrun; eauto using stuck_step).
  split; [done|]. intros env credit Hn.
  destruct (BeginTransaction env credit (ss_locker ss')) as [[tx|e] s'] eqn:E.
  - apply BeginTransaction_ok in E as (_ & _ & _ & E). apply lock_ok in E as (_ & _ & _ & E & _).
    unfold session_status in Hh. congruence.
  - exists e. by apply BeginTransaction_err in E as ->.
Qed.

(** The node learns neither the credit nor the other candidates: the request
    it gets has no credit and no routing header, carries the key the client
    encapsulated for it and the amount of the credit, and the client's other
    headers; the client learns which node answered, and never sees the raw
    amount the node reports. *)
Theorem node_request_headers {U : UrlLib} {I : UuidLib} {B : BlindRSA} {NL : NonceLocker}
    (input : modifyResponseInput) out header trailer :
  let '(h, u) := Rewrite input out in
  u = nodeURL input ∧ Get h CreditHeader = "" ∧ Get h RoutingInfoHeader = "" ∧
  Base64.DecodeString Base64.StdEncoding (Get h EncapsulatedKeyHeader) = Some (EncapsulatedKey (candidate input)) ∧
  Get h NodeCreditAmountHeader = pretty (creditAmount input) ∧
  (∀ k, CanonicalHeaderKey k ∉ (CanonicalHeaderKey <$> [CreditHeader; RoutingInfoHeader; EncapsulatedKeyHeader; NodeCreditAmountHeader]) →
    Get h k = Get out k) ∧
  let '(h', t') := ModifyResponse input header trailer in
  Get h' NodeIDHeader = uuid_string (cand_ID (candidate input)) ∧ Get t' RefundAmountHeader = "".
Proof.
  unfold Rewrite, ModifyResponse.
  change (CopyKeysToHeader (candidate input)) with
    (SetHeader EncapsulatedKeyHeader (Base64.EncodeToString Base64.StdEncoding (EncapsulatedKey (candidate input)))).
  split_and!; try by header_simpl.
  - header_simpl. by rewrite Base64.Decode_Encode by by left.
  - intros k. cbn [fmap list_fmap]. rewrite !not_elem_of_cons. intros (H1 & H2 & H3 & H4 & _).
    by rewrite !Get_Set_ne, !Get_Del_ne by congruence.
Qed.

(** Manifests cost an attestation credit.  The query is only run for a
    verified credit of exactly the attestation value whose nonce was free; its
    answer is the query's, and the nonce is spent if the commit succeeds and not
    otherwise.  Any other request is answered with status 400 and touches
    nothing. *)
Theorem manifests_cost_credit {U : UrlLib} {I : UuidLib} {T : TimestampLib} {R : RangeOrder} {SV : NodeService}
    {B : BlindRSA} {NL : NonceLocker} {NLS : NonceLockerSpec NL}
    {WE : ProtoWire PbError} {WC : ProtoWire PbCredit} {WQ : ProtoWire PbComputeManifestRequest}
    {WM : ProtoWire (list PbComputeManifest)} svc env r w s w' c s' :
  ComputeManifestsHandler svc env r w s = (w', c, s') →
  match c with
  | None => s' = s ∧ ∃ msg, w' = BinaryBadRequest msg w
  | Some committed =>
      ∃ credit, BlindedCredit_UnmarshalText (Get (r_Header r) CreditHeader) = Ok credit ∧
        b_value credit = Currency.MkValue true 0 ∧ Issuer_VerifyCredit (Blinded credit) = Ok tt ∧
        nonce_status s (Nonce.nonce_bytes (b_nonce credit)) = NonceFree ∧ w' = queryHandler svc r w ∧
        (nonce_status s' (Nonce.nonce_bytes (b_nonce credit)) = NonceUsed ↔ committed = Ok tt)
  end.
Proof.
  unfold ComputeManifestsHandler.
  destruct (BlindedCredit_UnmarshalText _) as [credit|]; [|intros; simplify_eq; eauto].
  case_bool_decide as Hv; cbn [negb]; [|intros; simplify_eq; eauto].
  destruct (BeginTransaction env credit s) as [[tx|] s1] eqn:Eb; [|apply BeginTransaction_err in Eb as ->; intros; simplify_eq; eauto].
  apply BeginTransaction_ok in Eb as (Hver & Hctx & _ & Hl). apply lock_ok in Hl as (_ & _ & Hn & Hf & Hh).
  destruct (Commit tx s1) as [[cm tx'] s2] eqn:Ec. intros; simplify_eq. exists credit.
  split_and!; try done; [vm_compute in Hv; by simplify_eq|].
  unfold Commit in Ec. rewrite Hctx in Ec. destruct (Consume _ s1) as [[[]|e] s3] eqn:Econs.
  - simplify_eq. apply consume_ok in Econs as [_ ?]. naive_solver congruence.
  - apply consume_err in Econs as ->. destruct (Release _ s1) as [[[]|e2] s4] eqn:Er; simplify_eq.
    + apply release_ok in Er. rewrite Hn, Hh in Er. split; [congruence|done].
    + apply release_err in Er as ->. split; [congruence|done].
Qed.

(** ** A concrete router for the witnesses *)

Definition demo_service : @NodeService text_url binary_uuid :=
  @Build_NodeService text_url binary_uuid unit (λ _ s, Some s) (λ _ _, [])
    (λ _ cs _, match cs with c :: _ => Ok (c, "http://node" : @url text_url) | [] => Err (ErrorNew "no nodes") end).

(** The text of a credit signed by the toy issuer. *)
Definition credit_text (v : Currency.Value) : string :=
  match Nonce.BlindBytes demo_nonce, Currency.BlindBytes v with
  | Ok a, Ok b => Base64.EncodeToString Base64.StdEncoding (a ++ b)
  | _, _ => "" end.
Definition demo_http_request (v : Currency.Value) : Request :=
  MkRequest {[ "X-Routing-Info" := ["Cgs="]; "X-Credit" := [credit_text v] ]} (Ok []).

Definition demo_signed : BlindedCredit :=
  MkBlinded demo_value demo_nonce ([x00; x00; x00; x00; x00; x00; x1c; x20] ++ replicate 16 x11 ++ [x02; x2c]).
Definition demo_http_tx : Transaction (NL:=inmem_locker) :=
  MkTransaction (NL:=inmem_locker) CtxLive (MkTicketLock demo_nonce "ff") demo_signed.
Definition demo_input : modifyResponseInput (U:=text_url) (NL:=inmem_locker) :=
  MkProxyInput (U:=text_url) (NL:=inmem_locker) demo_http_tx 3670016 ("http://node" : @url text_url) RouterApi.demo_candidate.
Definition demo_locked : nonces_map := {[ nonce_key demo_nonce := MkStored statusLocked "ff" ]}.
Definition demo_spent : nonces_map := {[ nonce_key demo_nonce := MkStored statusConsumed "ff" ]}.
Definition demo_committed : Transaction (NL:=inmem_locker) :=
  MkTransaction (NL:=inmem_locker) (CtxCancelled ContextCanceled ErrFinished) (MkTicketLock demo_nonce "ff") demo_signed.

Lemma demo_read :
  Read (T:=unix_timestamp) (B:=toy_rsa) (NL:=inmem_locker) (WC:=fixed_credit_wire demo_value demo_nonce) (WV:=demo_value_wire)
    (toy_draw 0) 0 (ReadEOF ∅) demo_http_tx ∅ demo_locked = (ReadEOF ∅, demo_committed, ∅, demo_spent).
Proof.
  vm_cast_no_check (eq_refl (A:=read_result * Transaction (NL:=inmem_locker) * Header * nonces_map)
    (ReadEOF ∅, demo_committed, ∅, demo_spent)).
Qed.

(** A node that reports a refund, and a router without randomness to make it. *)
Definition demo_reported : Header :=
  SetHeader RefundAmountHeader (match @Value_MarshalText demo_value_wire demo_value with Ok t => t | Err _ => "" end) ∅.
Definition demo_no_draw : Draw := MkDraw None None 0 None.

Lemma demo_read_failing :
  Read (T:=unix_timestamp) (B:=toy_rsa) (NL:=inmem_locker) (WC:=fixed_credit_wire demo_value demo_nonce) (WV:=demo_value_wire)
    demo_no_draw 0 (ReadEOF demo_reported) demo_http_tx ∅ demo_locked =
  (ReadFailed, demo_committed, Del RefundAmountHeader demo_reported, demo_spent).
Proof.
  vm_cast_no_check (eq_refl (A:=read_result * Transaction (NL:=inmem_locker) * Header * nonces_map)
    (ReadFailed, demo_committed, Del RefundAmountHeader demo_reported, demo_spent)).
Qed.

Lemma proxied_request_paid_witness :
  ∃ ss, rtc (@proxy_step text_url binary_uuid unix_timestamp toy_rsa inmem_locker
      (fixed_credit_wire demo_value demo_nonce) demo_value_wire inmem_locker_spec demo_input)
      (forwarded (U:=text_url) (NL:=inmem_locker) demo_input demo_locked) ss ∧
    ((ss_phase ss = HandlerDone true ∧ session_status (NL:=inmem_locker) ss = NonceUsed) ∧
     ∃ ss', rtc (@proxy_step text_url binary_uuid unix_timestamp toy_rsa inmem_locker
        (fixed_credit_wire demo_value demo_nonce) demo_value_wire inmem_locker_spec demo_input)
        (forwarded (U:=text_url) (NL:=inmem_locker) demo_input demo_locked) ss' ∧
       ss_phase ss' = Aborted (CallbackFailed demo_no_draw 0 demo_reported) ∧
       session_status (NL:=inmem_locker) ss' = NonceUsed ∧
       refund_failed (B:=toy_rsa) (WC:=fixed_credit_wire demo_value demo_nonce) (WV:=demo_value_wire) demo_no_draw 0 demo_reported).
Proof.
  assert (RoutingHandler_begin (U:=text_url) (I:=binary_uuid) (T:=unix_timestamp) (SV:=demo_service) (B:=toy_rsa)
      (NL:=inmem_locker) (WE:=text_error_wire) (WC:=fixed_credit_wire demo_value demo_nonce) (WI:=RouterApi.demo_wire)
      tt demo_env' None (demo_http_request demo_value) new_writer NewNonceLocker = (Ok demo_input, demo_locked)) as Hb
    by (vm_cast_no_check (eq_refl (A:=result ResponseWriter (modifyResponseInput (U:=text_url) (NL:=inmem_locker)) * nonces_map)
      (Ok demo_input, demo_locked))).
  eexists. assert (rtc (@proxy_step text_url binary_uuid unix_timestamp toy_rsa inmem_locker
      (fixed_credit_wire demo_value demo_nonce) demo_value_wire inmem_locker_spec demo_input)
      (forwarded (U:=text_url) (NL:=inmem_locker) demo_input demo_locked)
      (MkSession (NL:=inmem_locker) (HandlerDone true) demo_committed
        (ModifyResponse (U:=text_url) (I:=binary_uuid) (NL:=inmem_locker) demo_input ∅ ∅).1 ∅ demo_spent)) as Hr.
  { eapply rtc_l; [exact (px_response (NL:=inmem_locker) demo_input demo_http_tx ∅ ∅ demo_locked ∅ ∅)|].
    eapply rtc_l; [exact (px_read (NL:=inmem_locker) demo_input (toy_draw 0) 0 (ReadEOF ∅) _ _ _ _ _ _ _ _ demo_read)|].
    eapply rtc_l; [apply px_last_written|]. eapply rtc_l; [apply px_rollback|]. apply rtc_refl. }
  split; [exact Hr|].
  destruct (@proxied_request_paid text_url binary_uuid unix_timestamp demo_service toy_rsa toy_rsa_laws inmem_locker
    inmem_locker_spec text_error_wire (fixed_credit_wire demo_value demo_nonce) demo_value_wire RouterApi.demo_wire
    tt demo_env' None (demo_http_request demo_value) new_writer NewNonceLocker demo_input demo_locked _ Hb Hr) as [_ [Hu _]].
  split; [split; [reflexivity|exact Hu]|]. clear Hu.
  eexists. assert (rtc (@proxy_step text_url binary_uuid unix_timestamp toy_rsa inmem_locker
      (fixed_credit_wire demo_value demo_nonce) demo_value_wire inmem_locker_spec demo_input)
      (forwarded (U:=text_url) (NL:=inmem_locker) demo_input demo_locked)
      (MkSession (NL:=inmem_locker) (Aborted (CallbackFailed demo_no_draw 0 demo_reported)) demo_committed
        (ModifyResponse (U:=text_url) (I:=binary_uuid) (NL:=inmem_locker) demo_input ∅ ∅).1
        (Del RefundAmountHeader demo_reported) demo_spent)) as Hr'.
  { eapply rtc_l; [exact (px_response (NL:=inmem_locker) demo_input demo_http_tx ∅ ∅ demo_locked ∅ ∅)|].
    apply rtc_once.
    exact (px_read (NL:=inmem_locker) demo_input demo_no_draw 0 (ReadEOF demo_reported) _ _ _ _ _ _ _ _ demo_read_failing). }
  split; [exact Hr'|].
  destruct (@proxied_request_paid text_url binary_uuid unix_timestamp demo_service toy_rsa toy_rsa_laws inmem_locker
    inmem_locker_spec text_error_wire (fixed_credit_wire demo_value demo_nonce) demo_value_wire RouterApi.demo_wire
    tt demo_env' None (demo_http_request demo_value) new_writer NewNonceLocker demo_input demo_locked _ Hb Hr') as [_ Hf].
  assert (session_status (NL:=inmem_locker) (MkSession (NL:=inmem_locker) (Aborted (CallbackFailed demo_no_draw 0 demo_reported)) demo_committed
        (ModifyResponse (U:=text_url) (I:=binary_uuid) (NL:=inmem_locker) demo_input ∅ ∅).1
        (Del RefundAmountHeader demo_reported) demo_spent) = NonceUsed) as Hu by (vm_compute; reflexivity).
  split; [reflexivity|]. split; [exact Hu|exact (Hf Hu)].
Defined.

Lemma broken_request_keeps_credit_witness :
  ∃ e, BeginTransaction (B:=toy_rsa) (NL:=inmem_locker) demo_env' demo_signed demo_locked = (Err e, demo_locked).
Proof.
  set (gone := MkSession (NL:=inmem_locker) RoundTrip (client_gone (NL:=inmem_locker) demo_http_tx) ∅ ∅ demo_locked).
  apply (@broken_request_keeps_credit text_url binary_uuid unix_timestamp toy_rsa inmem_locker inmem_locker_spec
    (fixed_credit_wire demo_value demo_nonce) demo_value_wire demo_input gone gone); [|apply rtc_refl|reflexivity].
  split; [vm_compute; reflexivity|reflexivity].
Defined.

Lemma manifests_cost_credit_witness :
  ∃ w s', ComputeManifestsHandler (U:=text_url) (I:=binary_uuid) (T:=unix_timestamp) (R:=elements_order) (SV:=demo_service)
      (B:=toy_rsa) (NL:=inmem_locker) (WE:=text_error_wire) (WC:=fixed_credit_wire (Currency.MkValue true 0) demo_nonce)
      (WQ:=@Build_ProtoWire _ (λ _, None) (λ _, None)) (WM:=@Build_ProtoWire _ (λ _, None) (λ _, None))
      tt demo_env' (demo_http_request (Currency.MkValue true 0)) new_writer NewNonceLocker = (w, Some (Ok tt), s') ∧
    nonce_status (NL:=inmem_locker) s' (Nonce.nonce_bytes demo_nonce) = NonceUsed.
Proof.
  eexists _, demo_spent.
  match goal with |- ?h = _ ∧ _ => assert (h = (h.1.1, Some (Ok tt), demo_spent)) as H by (vm_compute; reflexivity) end.
  split; [exact H|].
  apply (@manifests_cost_credit text_url binary_uuid unix_timestamp elements_order demo_service toy_rsa inmem_locker inmem_locker_spec) in H
    as (credit & Hc & _ & _ & _ & _ & Hu).
  assert (Nonce.nonce_bytes (b_nonce credit) = Nonce.nonce_bytes demo_nonce) as Hn
    by (vm_compute in Hc; injection Hc as <-; reflexivity).
  rewrite Hn in Hu. by apply Hu.
Defined.
