(* ===== verification/Gateway.v ===== *)
(** Key rotation and the OHTTP gateway ([keyrotation/period.go],
    [gateway/keypairs.go], [gateway/gateway.go]) and the choice of a key by the
    client (in [NewFromConfig] of [client.go]).  The readings of the clock within
    one call are taken at one instant. *)

From Stdlib Require Import Strings.Ascii.
From S2P Require Import Prelude Bytes GoLib.

(** ** Calendar arithmetic of [time.Time.AddDate], in UTC *)

Definition day : Z := 86400 * second.

(** Days from 1970-01-01 of a date of the proleptic Gregorian calendar; the month
    counts from 1 and may lie beyond 12, the day may lie beyond the month. *)
Definition days_from_civil (y m d : Z) : Z :=
  let y := y + (m - 1) / 12 in
  let m := (m - 1) mod 12 + 1 in
  let y := if m <=? 2 then y - 1 else y in
  let mp := (m + 9) mod 12 in
  365 * y + y / 4 - y / 100 + y / 400 + (153 * mp + 2) / 5 + d - 1 - 719468.

(** The date of a day number. *)
Definition civil_from_days (z : Z) : Z * Z * Z :=
  let z := z + 719468 in
  let era := z / 146097 in
  let doe := z mod 146097 in
  let yoe := (doe - doe / 1460 + doe / 36524 - doe / 146096) / 365 in
  let doy := doe - (365 * yoe + yoe / 4 - yoe / 100) in
  let mp := (5 * doy + 2) / 153 in
  let d := doy - (153 * mp + 2) / 5 + 1 in
  let m := if mp <? 10 then mp + 3 else mp - 9 in
  (yoe + era * 400 + (if m <=? 2 then 1 else 0), m, d).

Definition AddDate (t years months days : Z) : Z :=
  let '(y, m, d) := civil_from_days (t / day) in
  days_from_civil (y + years) (m + months) (d + days) * day + t mod day.

(** ** [keyrotation/period.go] *)

Definition DefaultKeyExpirationMonths : Z := 6.
Definition DefaultKeyActivationDays : Z := 7.

Inductive key_error := ErrorKeyNotYetActive | ErrorKeyExpired.

Record Period := MkPeriod { ActiveFrom : Z; ActiveUntil : Z }.

Definition NewPeriodStartingAt (activeFrom : Z) : Period :=
  MkPeriod activeFrom (AddDate activeFrom 0 DefaultKeyExpirationMonths 0).
Definition NewPeriodFromSecretCreation (creationTime : Z) : Period :=
  NewPeriodStartingAt (AddDate creationTime 0 0 DefaultKeyActivationDays).

Definition IsExpired (now : Z) (p : Period) : bool := ActiveUntil p <? now.
Definition IsActive (now : Z) (p : Period) : bool := (ActiveFrom p <? now) && negb (IsExpired now p).
Definition CheckIfActive (now : Z) (p : Period) : result key_error unit :=
  if IsExpired now p then Err ErrorKeyExpired
  else if negb (IsActive now p) then Err ErrorKeyNotYetActive
  else Ok tt.

(** ** [gateway/keypairs.go] *)

(** What the package uses of [circl] and [ohttp]: keys of the suite, and the
    check of a request header against a key pair. *)
Class OhttpLib := {
  secret_key : Type;
  kem_public : Type;
  request_header : Type;
  header_key_id : request_header → Z;
  UnmarshalBinaryPublicKey : list byte → option kem_public;
  DeriveKeyPair : list byte → kem_public * secret_key;
}.

Section gateway.
Context {O : OhttpLib}.

Record KeyConfig := MkKeyConfig { KeyID : Z; PublicKey : kem_public }.
Record KeyPair := MkKeyPair { SecretKey : secret_key; kp_KeyConfig : KeyConfig }.
Record ExpiringKeyPair := MkExpiring { ekp_KeyPair : KeyPair; ekp_Period : Period }.
Record KeyRotationPeriodWithID := MkPeriodWithID { krp_Period : Period; krp_KeyID : Z }.

Inductive gw_error := KeyNotFound | KeyError (e : key_error) | GwError (msg : string).

Fixpoint key_configs (i : Z) (pubKeys : list (list byte)) : result gw_error (list KeyConfig) :=
  match pubKeys with
  | [] => Ok []
  | b :: pubKeys =>
      match UnmarshalBinaryPublicKey b with
      | None => Err (GwError "failed to unmarshal binary public key")
      | Some pubKey => rest ← key_configs (i + 1) pubKeys; Ok (MkKeyConfig (wrap_u 8 i) pubKey :: rest)
      end
  end.
Definition KeyConfigsForPublicKeys (pubKeys : list (list byte)) : result gw_error (list KeyConfig) :=
  if (255 <? length pubKeys)%nat then Err (GwError "can only assign id's to 255 public keys")
  else key_configs 0 pubKeys.

Definition generateKeyPair (id : Z) (seed : list byte) (activeFrom activeUntil : Z) : ExpiringKeyPair :=
  let '(pubKey, secretKey) := DeriveKeyPair seed in
  MkExpiring (MkKeyPair secretKey (MkKeyConfig id pubKey)) (MkPeriod activeFrom activeUntil).

(** The loop reads [seeds[0]] in every round. *)
Definition generateKeyPairs (now : Z) (seeds : list (list byte)) : result gw_error (list ExpiringKeyPair) :=
  if (255 <? length seeds)%nat then Err (GwError "too many seeds")
  else Ok ((λ i, generateKeyPair (Z.of_nat i) (default [] (seeds !! 0%nat)) now (AddDate now 1 0 0)) <$> seq 0 (length seeds)).

Definition GenerateKeyConfigs (now : Z) (seeds : list (list byte)) : result gw_error (list KeyConfig) :=
  kps ← generateKeyPairs now seeds; Ok (map (λ kp, kp_KeyConfig (ekp_KeyPair kp)) kps).

(** [ohttp.KeyPair.FindSecretKey]: the pair's key when the header names its id. *)
Definition KeyPair_FindSecretKey (k : KeyPair) (header : request_header) : result gw_error KeyPair :=
  if header_key_id header =? KeyID (kp_KeyConfig k) then Ok k else Err KeyNotFound.

Definition Expiring_FindSecretKey (now : Z) (header : request_header) (k : ExpiringKeyPair) : result gw_error KeyPair :=
  keyInfo ← KeyPair_FindSecretKey (ekp_KeyPair k) header;
  _ ← wrap_err KeyError (CheckIfActive now (ekp_Period k));
  Ok keyInfo.

(** [None] is the zero value with a nil error, the answer of an empty list. *)
Fixpoint find_secret_key (now : Z) (header : request_header) (kps : list ExpiringKeyPair) (lastErr : option gw_error) :
    result gw_error (option KeyPair) :=
  match kps with
  | [] => match lastErr with Some e => Err e | None => Ok None end
  | kp :: kps =>
      match Expiring_FindSecretKey now header kp with
      | Err e => find_secret_key now header kps (Some e)
      | Ok info => Ok (Some info)
      end
  end.
Definition FindSecretKey (now : Z) (kps : list ExpiringKeyPair) (header : request_header) : result gw_error (option KeyPair) :=
  find_secret_key now header kps None.

(** ** [client.go]: the choice of a key *)

(** [slices.MaxFunc]: the first of the latest. *)
Definition latest (first : KeyRotationPeriodWithID) (l : list KeyRotationPeriodWithID) : KeyRotationPeriodWithID :=
  foldl (λ m a, if ActiveFrom (krp_Period m) <? ActiveFrom (krp_Period a) then a else m) first l.

Definition desiredKeyConfig (now : Z) (periods : list KeyRotationPeriodWithID) (keyConfigs : list KeyConfig) :
    result gw_error KeyConfig :=
  match filter (λ m, IsActive now (krp_Period m) = true) periods with
  | [] => Err (GwError "no active OHTTP keys available")
  | first :: validKeys =>
      let desiredKey := latest first validKeys in
      match list_find (λ kc, KeyID kc = krp_KeyID desiredKey) keyConfigs with
      | None => Err (GwError "no key config found for key ID")
      | Some (_, kc) => Ok kc
      end
  end.

(** ** [gateway/gateway.go] *)

Definition ExternalBankHost : string := "confsec-bank.invalid".
Definition ExternalRouterHost : string := "confsec-router.invalid".

Record Key := MkKey { key_ID : Z; Seed : string; key_ActiveFrom : Z; key_ActiveUntil : Z }.

(** The key pairs of [NewGateway]; the hex decoding of a seed is an argument. *)
Fixpoint gateway_keys (DecodeString : string → option (list byte)) (keys : list Key) : result gw_error (list ExpiringKeyPair) :=
  match keys with
  | [] => Ok []
  | key :: keys =>
      match DecodeString (Seed key) with
      | None => Err (GwError "failed to decode key seed from hex")
      | Some seed =>
          rest ← gateway_keys DecodeString keys;
          Ok (generateKeyPair (key_ID key) seed (key_ActiveFrom key) (key_ActiveUntil key) :: rest)
      end
  end.

Definition ValidRequest (host : string) : result gw_error unit :=
  if negb (bool_decide (host = ExternalBankHost)) && negb (bool_decide (host = ExternalRouterHost))
  then Err (GwError "request is not for bank or router") else Ok tt.

Definition endpoints : list (string * string * string) :=
  [("POST", ExternalBankHost, "/deposit"); ("POST", ExternalBankHost, "/exchange");
   ("POST", ExternalBankHost, "/withdraw"); ("POST", ExternalBankHost, "/withdraw-full");
   ("POST", ExternalBankHost, "/balance");
   ("GET", ExternalRouterHost, "/ping"); ("POST", ExternalRouterHost, "/compute-manifests");
   ("POST", ExternalRouterHost, "/")].

(** The mux passes a request on when its method, host and path are those of an
    endpoint; a GET pattern also matches HEAD. *)
Definition limitEndpoints (method host path : string) : bool :=
  existsb (λ '(m, h, p), (bool_decide (method = m) || (bool_decide (m = "GET") && bool_decide (method = "HEAD"))) &&
    bool_decide (host = h) && bool_decide (path = p)) endpoints.

Inductive target := BankTarget | RouterTarget | NoTarget.
Definition proxy_target (host : string) : target :=
  if bool_decide (host = ExternalBankHost) then BankTarget
  else if bool_decide (host = ExternalRouterHost) then RouterTarget
  else NoTarget.

(** What happens to a decapsulated request. *)
Inductive gateway_outcome := Invalid | PingAnswer | NotFound | Forward (t : target).
Definition gateway_handle (ping method host path : string) : gateway_outcome :=
  match ValidRequest host with
  | Err _ => Invalid
  | Ok _ =>
      if bool_decide (ping = "gateway") then PingAnswer
      else if limitEndpoints method host path then Forward (proxy_target host) else NotFound
  end.
End gateway.

(** ** Calendar facts *)

(** The day of the year of a day of the 400-year cycle lies in one year, counted
    from March. *)
Lemma day_of_year doe :
  0 ≤ doe < 146097 →
  let yoe := (doe - doe / 1460 + doe / 36524 - doe / 146096) / 365 in
  0 ≤ yoe ≤ 399 ∧ 0 ≤ doe - (365 * yoe + yoe / 4 - yoe / 100) ≤ 365.
Proof.
  intros Hd yoe.
  assert (doe / 36524 = 0 ∨ doe / 36524 = 1 ∨ doe / 36524 = 2 ∨ doe / 36524 = 3 ∨ doe / 36524 = 4) as Hb
    by (Z.to_euclidean_division_equations; lia).
  assert (doe / 146096 = 0 ∨ doe / 146096 = 1) as Hc by (Z.to_euclidean_division_equations; lia).
  unfold yoe. destruct Hb as [Hb|[Hb|[Hb|[Hb|Hb]]]], Hc as [Hc|Hc]; rewrite Hb, Hc;
    Z.to_euclidean_division_equations; lia.
Qed.

(** The months of a year counted from March. *)
Lemma days_from_civil_march y mp d :
  0 ≤ mp ≤ 11 →
  days_from_civil (y + (if (if mp <? 10 then mp + 3 else mp - 9) <=? 2 then 1 else 0)) (if mp <? 10 then mp + 3 else mp - 9) d
    = 365 * y + y / 4 - y / 100 + y / 400 + (153 * mp + 2) / 5 + d - 1 - 719468.
Proof.
  intros Hmp. unfold days_from_civil.
  destruct (Z.ltb_spec mp 10).
  - destruct (Z.leb_spec (mp + 3) 2); [lia|].
    rewrite (Z.div_small (mp + 3 - 1)), (Z.mod_small (mp + 3 - 1)) by lia.
    destruct (Z.leb_spec (mp + 3 - 1 + 1) 2); [lia|].
    replace (mp + 3 - 1 + 1 + 9) with (mp + 1 * 12 + 1 - 1) by lia.
    replace ((mp + 1 * 12 + 1 - 1) mod 12) with mp by (Z.to_euclidean_division_equations; lia).
    by rewrite !Z.add_0_r.
  - destruct (Z.leb_spec (mp - 9) 2); [|lia].
    rewrite (Z.div_small (mp - 9 - 1)), (Z.mod_small (mp - 9 - 1)) by lia.
    destruct (Z.leb_spec (mp - 9 - 1 + 1) 2); [|lia].
    replace ((mp - 9 - 1 + 1 + 9) mod 12) with mp by (Z.to_euclidean_division_equations; lia).
    by replace (y + 1 + 0 - 1) with y by lia.
Qed.

(** Days and dates are inverse, and the months of dates run from 1 to 12. *)
Lemma civil_roundtrip z :
  let '(y, m, d) := civil_from_days z in days_from_civil y m d = z ∧ 1 ≤ m ≤ 12.
Proof.
  unfold civil_from_days. cbv zeta.
  pose proof (Z.mod_pos_bound (z + 719468) 146097 eq_refl) as Hb.
  pose proof (Z.div_mod (z + 719468) 146097 ltac:(done)) as Hd.
  revert Hb Hd. generalize ((z + 719468) mod 146097) as doe, ((z + 719468) / 146097) as era. intros doe era Hb Hd.
  pose proof (day_of_year doe Hb) as Hy. cbv zeta in Hy.
  set (yoe := (doe - doe / 1460 + doe / 36524 - doe / 146096) / 365) in *.
  clearbody yoe. set (doy := doe - (365 * yoe + yoe / 4 - yoe / 100)) in *.
  assert (0 ≤ (5 * doy + 2) / 153 ≤ 11) as Hmp by (Z.to_euclidean_division_equations; lia).
  set (mp := (5 * doy + 2) / 153) in *. clearbody mp. split.
  - rewrite (days_from_civil_march (yoe + era * 400)) by done. subst doy.
    replace ((yoe + era * 400) / 4) with (yoe / 4 + era * 100) by (Z.to_euclidean_division_equations; lia).
    replace ((yoe + era * 400) / 100) with (yoe / 100 + era * 4) by (Z.to_euclidean_division_equations; lia).
    replace ((yoe + era * 400) / 400) with era by (Z.to_euclidean_division_equations; lia). lia.
  - destruct (Z.ltb_spec mp 10); lia.
Qed.

(** The day number split into what depends on the year and on the month. *)
Definition year_days (y : Z) : Z := 365 * y + y / 4 - y / 100 + y / 400.
Definition month_shift (m : Z) : Z := (m - 1) / 12 - (if (m - 1) mod 12 + 1 <=? 2 then 1 else 0).
Definition month_days (m : Z) : Z := (153 * (((m - 1) mod 12 + 1 + 9) mod 12) + 2) / 5.
Lemma days_from_civil_split y m d :
  days_from_civil y m d = year_days (y + month_shift m) + month_days m + d - 719469.
Proof.
  unfold days_from_civil, year_days, month_shift, month_days. cbv zeta. destruct (_ <=? 2).
  - replace (y + ((m - 1) / 12 - 1)) with (y + (m - 1) / 12 - 1) by lia. lia.
  - rewrite Z.sub_0_r. lia.
Qed.

Lemma half_year y m d :
  1 ≤ m ≤ 12 → 181 ≤ days_from_civil y (m + 6) d - days_from_civil y m d ≤ 184.
Proof.
  intros Hm. rewrite !days_from_civil_split. unfold year_days.
  assert (m = 1 ∨ m = 2 ∨ m = 3 ∨ m = 4 ∨ m = 5 ∨ m = 6 ∨ m = 7 ∨ m = 8 ∨ m = 9 ∨ m = 10 ∨ m = 11 ∨ m = 12) as Hc by lia.
  destruct Hc as [->|[->|[->|[->|[->|[->|[->|[->|[->|[->|[->| ->]]]]]]]]]]];
    repeat match goal with
    | |- context [month_shift ?x] => let v := eval vm_compute in (month_shift x) in change (month_shift x) with v
    | |- context [month_days ?x] => let v := eval vm_compute in (month_days x) in change (month_days x) with v
    end; Z.to_euclidean_division_equations; lia.
Qed.

Lemma calendar z :
  let '(y, m, d) := civil_from_days z in
  days_from_civil y m d = z ∧ 181 ≤ days_from_civil y (m + 6) d - z ≤ 184.
Proof.
  pose proof (civil_roundtrip z) as H. destruct (civil_from_days z) as [[y m] d]. destruct H as [<- Hm].
  split; [done|]. by apply half_year.
Qed.

Lemma AddDate_days t n : AddDate t 0 0 n = t + n * day.
Proof.
  unfold AddDate. pose proof (calendar (t / day)) as H. destruct (civil_from_days _) as [[y m] d].
  destruct H as (H & _). rewrite Z.add_0_r, Z.add_0_r.
  assert (days_from_civil y m (d + n) = days_from_civil y m d + n) as -> by (unfold days_from_civil; lia).
  rewrite H. pose proof (Z.div_mod t day ltac:(done)). lia.
Qed.

(** Keys live half a year.  A period starting at some time lasts between 181
    and 184 days; that of a fresh secret starts exactly seven days after the
    creation of the secret; and a key is accepted exactly from after its start
    until its end, refused as not yet active before and as expired after it. *)
Theorem key_lifetime t now :
  let p := NewPeriodStartingAt t in
  ActiveFrom p = t ∧ 181 * day ≤ ActiveUntil p - t ≤ 184 * day ∧
  ActiveFrom (NewPeriodFromSecretCreation t) = t + 7 * day ∧
  ActiveUntil (NewPeriodFromSecretCreation t) - ActiveFrom (NewPeriodFromSecretCreation t) ≤ 184 * day ∧
  CheckIfActive now p =
    (if bool_decide (now ≤ t) then Err ErrorKeyNotYetActive
     else if bool_decide (now ≤ ActiveUntil p) then Ok tt else Err ErrorKeyExpired) ∧
  IsActive now p = is_ok (CheckIfActive now p).
Proof.
  assert (∀ t, 181 * day ≤ AddDate t 0 6 0 - t ≤ 184 * day) as Hlen.
  { clear. intros t. unfold AddDate. pose proof (calendar (t / day)) as H. destruct (civil_from_days _) as [[y m] d].
    destruct H as (H & H6). rewrite !Z.add_0_r. pose proof (Z.div_mod t day ltac:(done)) as Hd.
    change day with 86400000000000 in *. change DefaultKeyExpirationMonths with 6 in *. lia. }
  pose proof (Hlen t) as Ht. intros p. refine (conj eq_refl (conj Ht (conj (AddDate_days t 7) (conj _ (conj _ _))))).
  - unfold NewPeriodFromSecretCreation, NewPeriodStartingAt. cbn [ActiveUntil ActiveFrom]. apply Hlen.
  - unfold CheckIfActive, IsActive, IsExpired. unfold p. cbn [ActiveFrom ActiveUntil NewPeriodStartingAt].
    unfold DefaultKeyExpirationMonths. assert (0 < day) by done.
    destruct (Z.ltb_spec (AddDate t 0 6 0) now), (Z.ltb_spec t now); cbn [andb negb];
      repeat case_bool_decide; try done; lia.
  - unfold CheckIfActive, IsActive. destruct (IsExpired now p), (ActiveFrom p <? now); done.
Qed.

(** ** Choosing and finding keys *)

Section keys.
Context {O : OhttpLib}.

Lemma latest_spec first l :
  latest first l ∈ first :: l ∧ ∀ m, m ∈ first :: l → ActiveFrom (krp_Period m) ≤ ActiveFrom (krp_Period (latest first l)).
Proof.
  unfold latest. revert first. induction l as [|a l IH]; intros first; cbn [foldl].
  - split; [by left|]. intros m ->%list_elem_of_singleton. lia.
  - destruct (Z.ltb_spec (ActiveFrom (krp_Period first)) (ActiveFrom (krp_Period a))) as [Hlt|Hge].
    + destruct (IH a) as [Hin Hmax]. split; [by right|]. intros m [->|Hm]%elem_of_cons; [|by apply Hmax].
      pose proof (Hmax a ltac:(by left)). lia.
    + destruct (IH first) as [Hin Hmax]. split; [set_solver|]. intros m [->|[->|Hm]%elem_of_cons]%elem_of_cons.
      * apply Hmax. by left.
      * pose proof (Hmax first ltac:(by left)). lia.
      * apply Hmax. by right.
Qed.

(** The remote configuration of a gateway: the period and the public part of
    every key pair. *)
Definition remote_periods (kps : list ExpiringKeyPair) : list KeyRotationPeriodWithID :=
  (λ kp, MkPeriodWithID (ekp_Period kp) (KeyID (kp_KeyConfig (ekp_KeyPair kp)))) <$> kps.
Definition remote_configs (kps : list ExpiringKeyPair) : list KeyConfig :=
  (λ kp, kp_KeyConfig (ekp_KeyPair kp)) <$> kps.
Definition pair_id (kp : ExpiringKeyPair) : Z := KeyID (kp_KeyConfig (ekp_KeyPair kp)).

Lemma pair_id_inj kps kp kp' :
  NoDup (pair_id <$> kps) → kp ∈ kps → kp' ∈ kps → pair_id kp = pair_id kp' → kp = kp'.
Proof.
  induction kps as [|k kps IH]; [by intros _ ?%elem_of_nil|]. rewrite fmap_cons, NoDup_cons. intros [Hk Hnd].
  rewrite !elem_of_cons. intros [->|H1] [->|H2] Heq; [done| | |by apply IH].
  - destruct Hk. rewrite Heq. by apply list_elem_of_fmap_2.
  - destruct Hk. rewrite <- Heq. by apply list_elem_of_fmap_2.
Qed.

Lemma find_secret_key_ok now header kps kp le :
  NoDup (pair_id <$> kps) → kp ∈ kps → header_key_id header = pair_id kp → CheckIfActive now (ekp_Period kp) = Ok tt →
  find_secret_key now header kps le = Ok (Some (ekp_KeyPair kp)).
Proof.
  intros Hnd Hin Hid Hact. revert le. induction kps as [|k kps IH]; intros le; [by apply elem_of_nil in Hin|].
  cbn [find_secret_key]. unfold Expiring_FindSecretKey, KeyPair_FindSecretKey.
  rewrite fmap_cons, NoDup_cons in Hnd. destruct Hnd as [Hk Hnd].
  destruct (Z.eqb_spec (header_key_id header) (KeyID (kp_KeyConfig (ekp_KeyPair k)))) as [Heq|Hne].
  - apply elem_of_cons in Hin as [<-|Hin].
    + cbn [mbind result_bind]. by rewrite Hact.
    + destruct Hk. unfold pair_id at 1. rewrite <- Heq, Hid. by apply list_elem_of_fmap_2.
  - apply elem_of_cons in Hin as [->|Hin]; [done|]. cbn [mbind result_bind]. by apply IH.
Qed.
End keys.

(** The key a client chooses is one the gateway accepts.  For a gateway whose
    key pairs have different ids, a client that got their public parts chooses a
    key whenever one is active, and only then: an active one that no active key
    is younger than.  Any request sealed for it is answered with exactly that
    key pair until the key expires. *)
Theorem chosen_key_accepted {O : OhttpLib} kps now :
  NoDup (pair_id <$> kps) →
  match desiredKeyConfig now (remote_periods kps) (remote_configs kps) with
  | Ok kc => ∃ kp, kp ∈ kps ∧ kp_KeyConfig (ekp_KeyPair kp) = kc ∧ IsActive now (ekp_Period kp) = true ∧
      (∀ kp', kp' ∈ kps → IsActive now (ekp_Period kp') = true → ActiveFrom (ekp_Period kp') ≤ ActiveFrom (ekp_Period kp)) ∧
      ∀ header later, header_key_id header = KeyID kc → now ≤ later ≤ ActiveUntil (ekp_Period kp) →
        FindSecretKey later kps header = Ok (Some (ekp_KeyPair kp))
  | Err _ => ∀ kp, kp ∈ kps → IsActive now (ekp_Period kp) = false
  end.
Proof.
  intros Hnd. unfold desiredKeyConfig.
  destruct (filter _ (remote_periods kps)) as [|first valid] eqn:Ef.
  { intros kp Hkp. destruct (IsActive now (ekp_Period kp)) eqn:Ea; [|done].
    assert (MkPeriodWithID (ekp_Period kp) (pair_id kp) ∈ filter (λ m, IsActive now (krp_Period m) = true) (remote_periods kps)) as Hin.
    { apply list_elem_of_filter. split; [done|]. unfold remote_periods. apply list_elem_of_fmap. by exists kp. }
    rewrite Ef in Hin. by apply elem_of_nil in Hin. }
  destruct (latest_spec first valid) as [Hin Hmax]. rewrite <- Ef in Hin, Hmax.
  apply list_elem_of_filter in Hin as [Hact Hin]. unfold remote_periods in Hin.
  apply list_elem_of_fmap in Hin as (kp & Hkp & Hin).
  destruct (list_find _ (remote_configs kps)) as [[i kc]|] eqn:Efind.
  - apply list_find_Some in Efind as (Hi & Hid & _). apply list_elem_of_lookup_2 in Hi.
    apply list_elem_of_fmap in Hi as (kp' & -> & Hin').
    assert (kp' = kp) as -> by (apply (pair_id_inj kps); [done..|]; unfold pair_id; by rewrite Hid, Hkp).
    rewrite Hkp in Hact. cbn [krp_Period] in Hact. exists kp. split_and!; [done|done|done| |].
    + intros kp' Hin'' Ha'. specialize (Hmax (MkPeriodWithID (ekp_Period kp') (pair_id kp'))).
      rewrite Hkp in Hmax. apply Hmax. apply list_elem_of_filter. split; [done|]. apply list_elem_of_fmap. by exists kp'.
    + intros header later Hh Hlater. apply find_secret_key_ok; [done..|].
      unfold IsActive, IsExpired in Hact. apply andb_true_iff in Hact as [Hfrom%Z.ltb_lt _].
      unfold CheckIfActive, IsActive, IsExpired.
      destruct (Z.ltb_spec (ActiveUntil (ekp_Period kp)) later); [lia|].
      by destruct (Z.ltb_spec (ActiveFrom (ekp_Period kp)) later); [|lia].
  - exfalso. apply list_find_None in Efind.
    eapply Forall_forall in Efind; [|by apply list_elem_of_fmap_2]. apply Efind. by rewrite Hkp.
Qed.

(** Keys that are their own seeds, for the witnesses. *)
Definition seed_keys : OhttpLib := {|
  secret_key := list byte; kem_public := list byte; request_header := Z; header_key_id h := h;
  UnmarshalBinaryPublicKey b := Some b; DeriveKeyPair s := (s, s) |}.
Definition demo_pairs : list (ExpiringKeyPair (O:=seed_keys)) :=
  [generateKeyPair (O:=seed_keys) 0 [x01] 0 100; generateKeyPair (O:=seed_keys) 1 [x02] 50 200;
   generateKeyPair (O:=seed_keys) 2 [x03] 90 300].
Lemma chosen_key_accepted_witness :
  FindSecretKey (O:=seed_keys) 150 demo_pairs 1 = Ok (Some (MkKeyPair (O:=seed_keys) [x02] (MkKeyConfig (O:=seed_keys) 1 [x02]))).
Proof.
  assert (NoDup (pair_id (O:=seed_keys) <$> demo_pairs)) as Hnd by (apply (bool_decide_unpack _); vm_compute; exact Logic.I).
  destruct (@chosen_key_accepted seed_keys demo_pairs 80 Hnd) as (kp & Hin & Hc & Ha & Hm & H).
  specialize (Hm (generateKeyPair (O:=seed_keys) 1 [x02] 50 200) ltac:(right; left) eq_refl).
  apply elem_of_cons in Hin as [->|[->|[->|[]%elem_of_nil]%elem_of_cons]%elem_of_cons].
  - vm_compute in Hm. destruct Hm. reflexivity.
  - rewrite (H 1 150 eq_refl); [reflexivity|]. vm_compute. split; discriminate.
  - discriminate Ha.
Defined.

(** All generated keys are one.  Whatever seeds it is given, the generator of
    test key pairs uses the first for every pair: all configurations carry the
    same public key, under different ids. *)
Theorem generated_keys_equal {O : OhttpLib} now seeds configs :
  GenerateKeyConfigs now seeds = Ok configs →
  length configs = length seeds ∧
  ∀ i kc, configs !! i = Some kc → KeyID kc = Z.of_nat i ∧ ∃ seed, seeds !! 0%nat = Some seed ∧ PublicKey kc = (DeriveKeyPair seed).1.
Proof.
  unfold GenerateKeyConfigs, generateKeyPairs. destruct (Nat.ltb_spec 255 (length seeds)); [done|].
  cbn [mbind result_bind]. intros [= <-]. match goal with |- context [map ?g ?l] => change (map g l) with (g <$> l) end.
  split; [by rewrite !length_fmap, length_seq|]. intros i kc Hi.
  apply list_lookup_fmap_Some in Hi as (kp & -> & Hi). apply list_lookup_fmap_Some in Hi as (j & -> & Hj).
  apply lookup_seq in Hj as [-> Hlt]. unfold generateKeyPair. destruct (DeriveKeyPair _) as [pub sec] eqn:E. split; [done|].
  destruct seeds as [|seed seeds]; [simpl in Hlt; lia|]. exists seed. split; [done|]. simpl in E. by rewrite E.
Qed.

Lemma generated_keys_equal_witness :
  ∃ configs, GenerateKeyConfigs (O:=seed_keys) 0 [[x01]; [x02]] = Ok configs ∧ ∃ kc, configs !! 1%nat = Some kc ∧ PublicKey kc = [x01].
Proof.
  eexists. assert (GenerateKeyConfigs (O:=seed_keys) 0 [[x01]; [x02]] =
    Ok [MkKeyConfig (O:=seed_keys) 0 [x01]; MkKeyConfig (O:=seed_keys) 1 [x01]]) as H by (vm_compute; reflexivity).
  split; [exact H|]. eexists. split; [reflexivity|].
  destruct (@generated_keys_equal seed_keys _ _ _ H) as [_ Hk]. destruct (Hk 1%nat _ eq_refl) as (_ & seed & [= <-] & Hp). exact Hp.
Defined.
