(* ===== verification/Statements.v ===== *)
(** Package [transparency/statements]: image manifests, public keys and OHTTP key
    configurations as statements ([image_manifest.go], [jwk_public_key.go],
    [ohttp_key_configs.go]).  JSON, JWK and OHTTP libraries are classes. *)

From Stdlib Require Strings.String.
From S2P Require Import Prelude Bytes Base64 GoLib GoStrings Statement Transparency.
From S2P Require Gateway.

(** ** Image manifests *)

Record KernelCmdline := MkKernelCmdline {
  RO : option string;
  Recovery : option string;
  NoModeSet : option string;
  DisUcodeLdr : option string;
  RdDm : string;
  SystemdVerity : string;
  LSM : string;
  AppArmor : string;
  SELinux : string;
  Root : string;
  ConfsecRoot : string;
  ConfsecEFI : string;
  ConfsecCryptGit : string;
  ConfsecCryptBuildID : string;
  ConfsecCryptHardeningScope : string;
  ConfsecCryptDebugScope : string;
  ConfsecCryptOptimizeDisk : string;
  ConfsecOpt : string;
  ConfsecComputeGit : string;
  ConfsecComputeBuildID : string;
  ConfsecComputeHardeningScope : string;
  ConfsecComputeDebugScope : string;
  ConfsecComputeOptimizeDisk : string;
  Console : string;
}.

Record BuildCustomData := MkCustomData {
  BuildEnv : gmap string string;
  KernelCmdlines : list KernelCmdline;
  GPTLayout : string;
}.

(** [Files] has no type of its own. *)
Record ImageManifest {J : JsonLib} := MkManifest {
  m_Name : string;
  BuilderType : string;
  BuildTime : Z;
  Files : option any;
  ArtifactID : string;
  PackerRunUUID : string;
  CustomData : option BuildCustomData;
}.
Arguments MkManifest {J}.

Class ManifestJson {J : JsonLib} := {
  manifest_Marshal : ImageManifest → option (list byte);
  manifest_Unmarshal : list byte → option ImageManifest;
}.

Section image_manifest.
Context {U : UrlLib} {H : Sha256Lib} {J : JsonLib} {M : ManifestJson}.

Definition ImageManifestPredicateType : string := "https://confident.security/v2/image-manifest".

(** A predicate entry that is a string in base64. *)
Definition predicate_base64 (missing not_string not_base64 : string) (predicate : gmap string any) (k : string) :
    result terr (list byte) :=
  match predicate !! k with
  | None => Err (TErr missing)
  | Some predicateVal =>
      match any_string predicateVal with
      | None => Err (TErr not_string)
      | Some text =>
          match DecodeString StdEncoding text with
          | None => Err (TWrap not_base64 (TErr "base64"))
          | Some data => Ok data
          end
      end
  end.

Definition parseImageManifestFromPredicate (predicate : gmap string any) : result terr ImageManifest :=
  jsonBytes ← predicate_base64 "missing image manifest predicate entry" "image manifest should be a string"
    "failed to base64 decode image manifest" predicate "imageManifest";
  match manifest_Unmarshal jsonBytes with
  | None => Err (TWrap "failed to unmarshal image manifest" (TErr "json"))
  | Some imageManifest => Ok imageManifest
  end.

Definition ToImageManifest (statement : Statement) : result terr ImageManifest :=
  _ ← twrap "invalid statement" (Validate (Some statement));
  if negb (bool_decide (PredicateType statement = ImageManifestPredicateType)) then Err (TErr "invalid predicate type")
  else parseImageManifestFromPredicate (Predicate statement).

Definition FromImageManifest {R : RangeOrder} (m : ImageManifest) : result terr Statement :=
  match CustomData m with
  | None => Err (TErr "no custom data in image manifest")
  | Some _ =>
      match manifest_Marshal m with
      | None => Err (TWrap "failed to marshal image manifest to json" (TErr "json"))
      | Some msg =>
          Ok (NewStatement {[ "image-manifest" := string_bytes (ArtifactID m) ]} ImageManifestPredicateType
                {[ "imageManifest" := any_of_string (EncodeToString StdEncoding msg) ]})
      end
  end.

Definition manifest_processor (s : Statement) : result terr (list byte) :=
  imageManifest ← twrap "failed to parse image manifest" (ToImageManifest s);
  match CustomData imageManifest with
  | None => Err (TErr "no custom data in image manifest")
  | Some _ => Ok (string_bytes (ArtifactID imageManifest))
  end.

Definition VerifyImageManifestBundle {L : StructLib} {G : Sigstore} (b : list byte) (v : sigstore_verifier)
    (idPolicy : IdentityPolicy) : result terr (Statement * BundleMetadata) :=
  VerifyStatementWithProcessor v b manifest_processor idPolicy.
End image_manifest.

(** ** JSON web keys *)

Class JwkLib := {
  jwk : Type;
  rsa_public : Type;
  jwk_Marshal : jwk → option (list byte);
  NewJWKFromRawJSON : list byte → option jwk;
  jwk_USE : jwk → string;
  jwk_KID : jwk → string;
  jwk_rsa_key : jwk → option rsa_public;
  NewJWKFromKey : rsa_public → string → string → option jwk;
}.

Record RSAPublicKeyClaims := MkClaims { claim_KeyID : string; claim_Use : string }.

Section jwk_public_key.
Context {U : UrlLib} {H : Sha256Lib} {J : JsonLib} {K : JwkLib}.

Definition PublicKeyPredicateType : string := "https://confident.security/v1/public-key".

Definition VerifyPublicKeyBundle {L : StructLib} {G : Sigstore} (b : list byte) (v : sigstore_verifier)
    (idPolicy : IdentityPolicy) : result terr (Statement * BundleMetadata) :=
  VerifyStatementPredicate v b "jwkRaw" idPolicy.

Definition FromJWK {R : RangeOrder} (k : jwk) : result terr Statement :=
  match jwk_Marshal k with
  | None => Err (TWrap "failed to marshal jwk to json" (TErr "json"))
  | Some msg =>
      Ok (NewStatement {[ "jwk" := msg ]} PublicKeyPredicateType
            {[ "jwkRaw" := any_of_string (EncodeToString StdEncoding msg) ]})
  end.

Definition check_digest (mismatch : string) (subject : StatementSubject) (data : list byte) : result terr (list byte) :=
  ok ← twrap "error matching hashes" (Sha256Match subject data);
  if ok : bool then Ok data else Err (TErr mismatch).

Definition signedJWKRaw (statement : Statement) : result terr (list byte) :=
  match Subject statement with
  | [subject] =>
      if negb (bool_decide (Name subject = "jwk")) then Err (TErr "expected subject to be jwk")
      else
        jwkRaw ← predicate_base64 "missing raw jwk predicate entry" "raw jwk should be a string"
          "failed to base64 decode raw jwk" (Predicate statement) "jwkRaw";
        check_digest "raw jwk and statement digest don't match" subject jwkRaw
  | _ => Err (TErr "expected a single jwk subject")
  end.

Definition ToJWK (statement : Statement) : result terr jwk :=
  _ ← twrap "invalid statement" (Validate (Some statement));
  if negb (bool_decide (PredicateType statement = PublicKeyPredicateType)) then Err (TErr "invalid predicate type")
  else
    jwkRaw ← signedJWKRaw statement;
    match NewJWKFromRawJSON jwkRaw with
    | None => Err (TWrap "failed to unmarshal jwk from raw jwk" (TErr "jwkset"))
    | Some k => Ok k
    end.

Definition FromRSAPublicKey {R : RangeOrder} (key : rsa_public) (claims : RSAPublicKeyClaims) : result terr Statement :=
  match NewJWKFromKey key (claim_Use claims) (claim_KeyID claims) with
  | None => Err (TWrap "failed to create jwk for key" (TErr "jwkset"))
  | Some k => FromJWK k
  end.

Definition ToRSAPublicKey (statement : Statement) (verifierFunc : option (RSAPublicKeyClaims → result terr unit)) :
    result terr rsa_public :=
  match verifierFunc with
  | None => Err (TErr "missing claims verifier")
  | Some verify =>
      k ← ToJWK statement;
      _ ← twrap "failed to verify claims" (verify (MkClaims (jwk_KID k) (jwk_USE k)));
      match jwk_rsa_key k with None => Err (TErr "jwk is not a RSA Public Key") | Some pubKey => Ok pubKey end
  end.
End jwk_public_key.

(** ** OHTTP key configurations *)

Section ohttp_key_configs.
Context {O : Gateway.OhttpLib}.
(** [ohttp.KeyConfigs] in binary, and the rotation periods as JSON. *)
Class KeyConfigCodec := {
  configs_Marshal : list Gateway.KeyConfig → option (list byte);
  configs_Unmarshal : list byte → option (list Gateway.KeyConfig);
  periods_Marshal : list Gateway.KeyRotationPeriodWithID → option (list byte);
  periods_Unmarshal : list byte → option (list Gateway.KeyRotationPeriodWithID);
}.
Class KeyConfigCodecLaws (C : KeyConfigCodec) := {
  configs_Unmarshal_Marshal l b : configs_Marshal l = Some b → configs_Unmarshal b = Some l;
  periods_Unmarshal_Marshal l b : periods_Marshal l = Some b → periods_Unmarshal b = Some l;
}.
Context {U : UrlLib} {H : Sha256Lib} {J : JsonLib} {C : KeyConfigCodec}.

Definition OHTTPKeyConfigsPredicateType : string := "https://confident.security/v2/ohttp-keys".

Definition VerifyOHTTPKeyConfigsBundle {L : StructLib} {G : Sigstore} (b : list byte) (v : sigstore_verifier)
    (idPolicy : IdentityPolicy) : result terr (Statement * BundleMetadata) :=
  VerifyStatementPredicate v b "ohttpKeys" idPolicy.

Definition FromOHTTPKeyConfigs {R : RangeOrder} (keyConfigs : list Gateway.KeyConfig)
    (keyRotationPeriods : list Gateway.KeyRotationPeriodWithID) : result terr Statement :=
  match configs_Marshal keyConfigs with
  | None => Err (TWrap "failed to marshal key config to binary" (TErr "ohttp"))
  | Some msg =>
      match periods_Marshal keyRotationPeriods with
      | None => Err (TWrap "failed to marshal key rotation periods to json" (TErr "json"))
      | Some keyRotationPeriodsMsg =>
          Ok (NewStatement {[ "ohttp-keys" := msg; "key-rotation-periods" := keyRotationPeriodsMsg ]}
                OHTTPKeyConfigsPredicateType
                {[ "ohttpKeys" := any_of_string (EncodeToString StdEncoding msg);
                   "keyRotationPeriods" := any_of_string (EncodeToString StdEncoding keyRotationPeriodsMsg) ]})
      end
  end.

(** The last subject of each name. *)
Fixpoint key_subjects (keysSubject periodsSubject : option StatementSubject) (l : list StatementSubject) :
    result terr (option StatementSubject * option StatementSubject) :=
  match l with
  | [] => Ok (keysSubject, periodsSubject)
  | subject :: l =>
      if bool_decide (Name subject = "ohttp-keys") then key_subjects (Some subject) periodsSubject l
      else if bool_decide (Name subject = "key-rotation-periods") then key_subjects keysSubject (Some subject) l
      else Err (TErr ("unexpected subject name " +:+ Name subject))
  end.

Definition signedOHTTPKeysRaw (statement : Statement) : result terr (list byte * list byte) :=
  if negb (length (Subject statement) =? 2)%nat then Err (TErr "expected 2 subjects")
  else
    subjects ← key_subjects None None (Subject statement);
    match subjects with
    | (Some keysSubject, Some keyRotationPeriodsSubject) =>
        keysRaw ← predicate_base64 "missing ohttpKeys in predicate" "expected a string"
          "failed to base64 decode raw ohttp keys" (Predicate statement) "ohttpKeys";
        _ ← check_digest "raw ohttp key configs and statement digest don't match" keysSubject keysRaw;
        keyRotationPeriodsRaw ← predicate_base64 "missing keyRotationPeriods in predicate" "expected a string"
          "failed to base64 decode raw ohttp key rotation periods" (Predicate statement) "keyRotationPeriods";
        _ ← check_digest "raw ohttp key rotation periods and statement digest don't match" keyRotationPeriodsSubject
          keyRotationPeriodsRaw;
        Ok (keysRaw, keyRotationPeriodsRaw)
    | _ => Err (TErr "missing required subjects")
    end.

Definition ToOHTTPKeyConfigs (statement : Statement) :
    result terr (list Gateway.KeyConfig * list Gateway.KeyRotationPeriodWithID) :=
  if negb (bool_decide (PredicateType statement = OHTTPKeyConfigsPredicateType)) then Err (TErr "invalid predicate type")
  else
    '(keysRaw, keyRotationPeriodsRaw) ← signedOHTTPKeysRaw statement;
    match configs_Unmarshal keysRaw with
    | None => Err (TWrap "failed to marshal ohttp key configs from binary" (TErr "ohttp"))
    | Some keys =>
        match periods_Unmarshal keyRotationPeriodsRaw with
        | None => Err (TWrap "failed to unmarshal key rotation periods from json" (TErr "json"))
        | Some keyRotationPeriods => Ok (keys, keyRotationPeriods)
        end
    end.
End ohttp_key_configs.

(** ** Round trips *)

Section roundtrip.
Context {U : UrlLib} {H : Sha256Lib} {J : JsonLib} {JL : JsonLaws J} {R : RangeOrder}.

Lemma predicate_base64_encoded m1 m2 m3 predicate k data :
  predicate !! k = Some (any_of_string (EncodeToString StdEncoding data)) → predicate_base64 m1 m2 m3 predicate k = Ok data.
Proof. intros Hk. unfold predicate_base64. rewrite Hk, any_string_of, Decode_Encode by (by left). done. Qed.

Lemma check_digest_hash mismatch name data :
  check_digest mismatch (MkSubject name {[ "sha256" := hex_encode (sha256 data) ]}) data = Ok data.
Proof.
  unfold check_digest, Sha256Match. cbn. rewrite lookup_singleton_eq, hex_decode_encode. cbn. by rewrite bool_decide_eq_true_2.
Qed.

Lemma check_digest_ok mismatch x data d : check_digest mismatch x data = Ok d →
  d = data ∧ ∃ h, Digest x !! "sha256" = Some h ∧ hex_decode h = Some (sha256 data).
Proof.
  unfold check_digest, Sha256Match. destruct (Digest x !! "sha256") as [h|]; [|done]. destruct (hex_decode h) as [raw|] eqn:Er; [|done].
  cbn. case_bool_decide as Heq; [|done]. intros [= <-]. split; [done|]. exists h. by rewrite Er, Heq.
Qed.

Lemma range_singleton {A} (k : string) (x : A) : range_map {[ k := x ]} = [(k, x)].
Proof. apply Permutation_singleton_r. by rewrite range_map_perm, map_to_list_singleton. Qed.

Lemma range_pair {A} (k l : string) (x y : A) : k ≠ l →
  range_map {[ k := x; l := y ]} = [(k, x); (l, y)] ∨ range_map {[ k := x; l := y ]} = [(l, y); (k, x)].
Proof.
  intros Hne. assert (range_map {[ k := x; l := y ]} ≡ₚ [(k, x); (l, y)]) as Hp.
  { rewrite range_map_perm, map_to_list_insert, map_to_list_singleton; [done|]. by apply lookup_singleton_ne. }
  symmetry in Hp. by apply Permutation_length_2_inv in Hp as [-> | ->]; [left|right].
Qed.

(** A new statement with a subject is valid if its type is. *)
Lemma NewStatement_valid subject pt predicate :
  subject ≠ ∅ → validatePredicateType pt = Ok tt → Validate (Some (NewStatement subject pt predicate)) = Ok tt.
Proof.
  intros Hne Hpt. unfold NewStatement. cbn [Validate Subject PredicateType]. rewrite bool_decide_eq_false_2.
  - rewrite validate_subjects_complete; [done| |].
    + rewrite <- list_fmap_compose. change (Name ∘ _) with (fst (A:=string) (B:=list byte)). apply range_map_nodup.
    + intros x ([n d] & -> & Hx)%list_elem_of_fmap. split; [set_solver|]. exists (sha256 d). cbn.
      unfold hexSha256Digest. cbn. rewrite lookup_singleton_eq. cbn. split; [apply hex_decode_encode|apply length_sha256].
  - intros Hnil%fmap_nil_inv. apply Hne. apply map_eq. intros k. rewrite lookup_empty. destruct (subject !! k) as [d|] eqn:Ek; [|done].
    apply range_map_elem in Ek. rewrite Hnil in Ek. by apply elem_of_nil in Ek.
Qed.

Lemma signed_raw_pair s k p msg pmsg :
  Name k = "ohttp-keys" → Name p = "key-rotation-periods" → (Subject s = [k; p] ∨ Subject s = [p; k]) →
  (∀ m, check_digest m k msg = Ok msg) → (∀ m, check_digest m p pmsg = Ok pmsg) →
  Predicate s !! "ohttpKeys" = Some (any_of_string (EncodeToString StdEncoding msg)) →
  Predicate s !! "keyRotationPeriods" = Some (any_of_string (EncodeToString StdEncoding pmsg)) →
  signedOHTTPKeysRaw s = Ok (msg, pmsg).
Proof.
  intros Hnk Hnp Hs Hck Hcp Hk Hp. unfold signedOHTTPKeysRaw.
  assert (key_subjects None None (Subject s) = Ok (Some k, Some p)) as Hsub.
  { destruct Hs as [-> | ->]; cbn [key_subjects]; by rewrite Hnk, Hnp. }
  assert (length (Subject s) = 2%nat) as -> by (by destruct Hs as [-> | ->]). cbn [Nat.eqb negb]. rewrite Hsub. cbn [mbind result_bind].
  rewrite (predicate_base64_encoded _ _ _ _ _ _ Hk). cbn [mbind result_bind]. rewrite Hck. cbn [mbind result_bind].
  rewrite (predicate_base64_encoded _ _ _ _ _ _ Hp). cbn [mbind result_bind]. by rewrite Hcp.
Qed.

Lemma ohttp_roundtrip {O : Gateway.OhttpLib} {C : KeyConfigCodec} {CL : KeyConfigCodecLaws C} keyConfigs periods s :
  FromOHTTPKeyConfigs keyConfigs periods = Ok s → ToOHTTPKeyConfigs s = Ok (keyConfigs, periods).
Proof.
  unfold FromOHTTPKeyConfigs. destruct (configs_Marshal keyConfigs) as [msg|] eqn:Em; [|done].
  destruct (periods_Marshal periods) as [pmsg|] eqn:Ep; [|done]. intros [= <-].
  assert (signedOHTTPKeysRaw (NewStatement {[ "ohttp-keys" := msg; "key-rotation-periods" := pmsg ]} OHTTPKeyConfigsPredicateType
    {[ "ohttpKeys" := any_of_string (EncodeToString StdEncoding msg);
       "keyRotationPeriods" := any_of_string (EncodeToString StdEncoding pmsg) ]}) = Ok (msg, pmsg)) as Hraw.
  { apply (signed_raw_pair _ (MkSubject "ohttp-keys" {[ "sha256" := hex_encode (sha256 msg) ]})
      (MkSubject "key-rotation-periods" {[ "sha256" := hex_encode (sha256 pmsg) ]})); [done..| | | | |].
    - unfold NewStatement. cbn [Subject].
      destruct (range_pair "ohttp-keys" "key-rotation-periods" msg pmsg ltac:(done)) as [-> | ->]; [by left|by right].
    - intros m. apply check_digest_hash.
    - intros m. apply check_digest_hash.
    - apply lookup_insert_eq.
    - unfold NewStatement. cbn [Predicate]. by rewrite lookup_insert_ne, lookup_singleton_eq. }
  unfold ToOHTTPKeyConfigs. cbn [PredicateType NewStatement]. rewrite bool_decide_eq_true_2 by done. cbn [negb].
  rewrite Hraw. cbn. by rewrite (configs_Unmarshal_Marshal _ _ Em), (periods_Unmarshal_Marshal _ _ Ep).
Qed.

Lemma jwk_roundtrip {K : JwkLib} k s :
  (∀ b, jwk_Marshal k = Some b → NewJWKFromRawJSON b = Some k) → validatePredicateType PublicKeyPredicateType = Ok tt →
  FromJWK k = Ok s → ToJWK s = Ok k.
Proof.
  intros Hk Hpt. unfold FromJWK. destruct (jwk_Marshal k) as [msg|] eqn:Em; [|done]. intros [= <-]. unfold ToJWK.
  rewrite NewStatement_valid by done. cbn [twrap wrap_err mbind result_bind PredicateType NewStatement].
  rewrite bool_decide_eq_true_2 by done. cbn [negb]. unfold signedJWKRaw, NewStatement. cbn [Subject Predicate]. rewrite range_singleton.
  cbn [fmap list_fmap fst snd Name]. rewrite bool_decide_eq_true_2 by done. cbn [negb].
  rewrite (predicate_base64_encoded _ _ _ _ _ msg) by apply lookup_singleton_eq. cbn [mbind result_bind].
  rewrite check_digest_hash. cbn [mbind result_bind]. rewrite (Hk msg); done.
Qed.

Lemma manifest_roundtrip {M : ManifestJson} m s :
  (∀ b, manifest_Marshal m = Some b → manifest_Unmarshal b = Some m) → validatePredicateType ImageManifestPredicateType = Ok tt →
  FromImageManifest m = Ok s → ToImageManifest s = Ok m ∧ manifest_processor s = Ok (string_bytes (ArtifactID m)).
Proof.
  intros Hm Hpt. unfold FromImageManifest. destruct (CustomData m) as [cd|] eqn:Ec; [|done].
  destruct (manifest_Marshal m) as [msg|] eqn:Em; [|done]. intros [= <-].
  assert (ToImageManifest (NewStatement {[ "image-manifest" := string_bytes (ArtifactID m) ]} ImageManifestPredicateType
    {[ "imageManifest" := any_of_string (EncodeToString StdEncoding msg) ]}) = Ok m) as HT.
  { unfold ToImageManifest. rewrite NewStatement_valid by done. cbn [twrap wrap_err mbind result_bind PredicateType NewStatement].
    rewrite bool_decide_eq_true_2 by done. cbn [negb]. unfold parseImageManifestFromPredicate. cbn [Predicate].
    rewrite (predicate_base64_encoded _ _ _ _ _ msg) by apply lookup_singleton_eq. cbn [mbind result_bind].
    rewrite (Hm msg); done. }
  split; [done|]. unfold manifest_processor. rewrite HT. cbn. by rewrite Ec.
Qed.
End roundtrip.
