(* ===== verification/Slsa.v ===== *)
(** [transparency/statements/slsa_provenance.go]: statements about how an artifact was
    built, with what is sensitive taken out.  The predicate of in-toto and its JSON are a
    class. *)

From S2P Require Import Prelude Bytes GoLib GoStrings Statement.

(** ** in-toto and JSON *)

(** Objects among the JSON values, and the typed predicate of SLSA 0.2. *)
Class SlsaLib {J : JsonLib} := {
  any_of_object : gmap string any → any;
  (** the type assertion [v.(map[string]any)] *)
  any_object : any → option (gmap string any);
  json_Unmarshal : list byte → option (gmap string any);
  ProvenancePredicate : Type;
  Predicate_Marshal : ProvenancePredicate → option (list byte);
  Predicate_Unmarshal : list byte → option ProvenancePredicate;
}.
Class SlsaLaws {J : JsonLib} (SL : SlsaLib) := {
  any_object_of m : any_object (any_of_object m) = Some m;
  (** a typed predicate survives its untyped form *)
  predicate_through_any p b m b' : Predicate_Marshal p = Some b → json_Unmarshal b = Some m → json_Marshal m = Some b' →
    Predicate_Unmarshal b' = Some p;
}.

Section slsa.
Context {U : UrlLib} {J : JsonLib} {SL : SlsaLib}.

Record intoto_Subject := MkInTotoSubject { is_Name : string; is_Digest : gmap string string }.
Record ProvenanceStatementSLSA02 := MkProvenance {
  ps_Type : string;
  ps_PredicateType : string;
  ps_Subject : list intoto_Subject;
  ps_Predicate : ProvenancePredicate;
}.
Definition PredicateSLSAProvenance : string := "https://slsa.dev/provenance/v0.2".

(** [copyPredicateViaJSON] from a typed predicate, and to one. *)
Definition copy_via_json {A B} (marshal : A → option (list byte)) (unmarshal : list byte → option B) (from : A) : result terr B :=
  match marshal from with
  | None => Err (TWrap "failed to marshal from" (TErr "json"))
  | Some b => match unmarshal b with Some to => Ok to | None => Err (TWrap "failed to unmarshal intermediate json" (TErr "json")) end
  end.

Definition blank_environment (environment : gmap string any) : gmap string any :=
  <["github_head_ref"%string := any_of_string ""]> (<["github_base_ref"%string := any_of_string ""]>
    (<["github_event_payload"%string := any_of_object ∅]> environment)).

(** The maps are changed in place; they were made by the JSON decoder, so nobody else
    has them. *)
Definition sanitizeSLSA02Predicate (predicate : gmap string any) : gmap string any :=
  match predicate !! "invocation"%string ≫= any_object with
  | None => predicate
  | Some invocation =>
      match invocation !! "environment"%string ≫= any_object with
      | None => predicate
      | Some environment =>
          <["invocation"%string := any_of_object (<["environment"%string := any_of_object (blank_environment environment)]> invocation)]> predicate
      end
  end.

Definition FromSLSA02ProvenanceStatement (p : ProvenanceStatementSLSA02) : result terr Statement :=
  if negb (bool_decide (ps_PredicateType p = PredicateSLSAProvenance)) then Err (TErr "unexpected predicate type")
  else
    predicate ← twrap "failed to copy predicate" (copy_via_json Predicate_Marshal json_Unmarshal (ps_Predicate p));
    let s := MkStatement ((λ subject, MkSubject (is_Name subject) (is_Digest subject)) <$> ps_Subject p)
      (ps_PredicateType p) (sanitizeSLSA02Predicate predicate) in
    _ ← twrap "unexpected invalid statement" (Validate (Some s));
    Ok s.

(** [None]: the nil statement. *)
Definition ToSLSA02ProvenanceStatement (s : option Statement) : result terr ProvenanceStatementSLSA02 :=
  _ ← twrap "invalid statement" (Validate s);
  match s with
  | None => Err (TErr "nil statement")
  | Some s =>
      if negb (bool_decide (PredicateType s = PredicateSLSAProvenance)) then Err (TErr "unexpected predicate type")
      else
        predicate ← twrap "failed to copy predicate" (copy_via_json json_Marshal Predicate_Unmarshal (Predicate s));
        Ok (MkProvenance "" (PredicateType s) ((λ subject, MkInTotoSubject (Name subject) (Digest subject)) <$> Subject s) predicate)
  end.

(** ** What is taken out *)

Context {SLW : SlsaLaws SL}.

Definition sensitive : list string := ["github_event_payload"; "github_base_ref"; "github_head_ref"].
Definition with_environment (environment invocation predicate : gmap string any) : gmap string any :=
  <["invocation"%string := any_of_object (<["environment"%string := any_of_object environment]> invocation)]> predicate.

Lemma sanitize_with environment invocation predicate :
  sanitizeSLSA02Predicate (with_environment environment invocation predicate) = with_environment (blank_environment environment) invocation predicate.
Proof.
  unfold sanitizeSLSA02Predicate, with_environment. rewrite lookup_insert_eq. cbn [mbind option_bind]. rewrite any_object_of, lookup_insert_eq.
  cbn [mbind option_bind]. rewrite any_object_of. by rewrite !insert_insert_eq.
Qed.
Lemma blank_environment_ext e e' : (∀ k, k ∉ sensitive → e !! k = e' !! k) → blank_environment e = blank_environment e'.
Proof.
  intros He. apply map_eq. intros k. unfold blank_environment. destruct (decide (k ∈ sensitive)) as [Hk|Hk].
  - assert (k = "github_event_payload" ∨ k = "github_base_ref" ∨ k = "github_head_ref")%string as [->|[->| ->]] by (unfold sensitive in Hk; set_solver);
      by simplify_map_eq.
  - assert (k ≠ "github_event_payload" ∧ k ≠ "github_base_ref" ∧ k ≠ "github_head_ref")%string as (? & ? & ?) by (unfold sensitive in Hk; set_solver).
    rewrite !lookup_insert_ne by done. by apply He.
Qed.

(** Nothing of the payload of the event and of the names of the branches is left: two
    predicates that differ only there give the same. *)
Theorem sanitize_hides e e' invocation predicate : (∀ k, k ∉ sensitive → e !! k = e' !! k) →
  sanitizeSLSA02Predicate (with_environment e invocation predicate) = sanitizeSLSA02Predicate (with_environment e' invocation predicate).
Proof. intros He. by rewrite !sanitize_with, (blank_environment_ext e e'). Qed.

(** Where a reader of the statement finds the environment of the build. *)
Definition environment_of (predicate : gmap string any) : option (gmap string any) :=
  inv ← predicate !! "invocation"%string ≫= any_object; inv !! "environment"%string ≫= any_object.
Lemma sanitized_environment predicate environment : environment_of predicate = Some environment →
  environment_of (sanitizeSLSA02Predicate predicate) = Some (blank_environment environment).
Proof.
  unfold environment_of, sanitizeSLSA02Predicate. destruct (predicate !! _ ≫= any_object) as [inv|]; [|done]. cbn [mbind option_bind].
  intros ->. rewrite lookup_insert_eq. cbn [mbind option_bind]. rewrite any_object_of. cbn [mbind option_bind]. rewrite lookup_insert_eq.
  cbn [mbind option_bind]. by rewrite any_object_of.
Qed.

(** The rest stays, and sanitising once is enough. *)
Lemma sanitize_keeps predicate k : k ≠ "invocation"%string → sanitizeSLSA02Predicate predicate !! k = predicate !! k.
Proof.
  intros Hk. unfold sanitizeSLSA02Predicate. destruct (_ ≫= any_object) as [inv|]; [|done]. destruct (_ ≫= any_object); [|done].
  by rewrite lookup_insert_ne.
Qed.
Lemma sanitize_idempotent predicate : sanitizeSLSA02Predicate (sanitizeSLSA02Predicate predicate) = sanitizeSLSA02Predicate predicate.
Proof.
  unfold sanitizeSLSA02Predicate at 2 3. destruct (predicate !! "invocation"%string ≫= any_object) as [inv|] eqn:Ei.
  - destruct (inv !! "environment"%string ≫= any_object) as [env|] eqn:Ee.
    + fold (with_environment (blank_environment env) inv predicate). rewrite sanitize_with. f_equal. unfold blank_environment.
      apply map_eq. intros k. destruct (decide (k = "github_head_ref")%string) as [->|]; [by simplify_map_eq|].
      destruct (decide (k = "github_base_ref")%string) as [->|]; [by simplify_map_eq|].
      destruct (decide (k = "github_event_payload")%string) as [->|]; by simplify_map_eq.
    + unfold sanitizeSLSA02Predicate. by rewrite Ei, Ee.
  - unfold sanitizeSLSA02Predicate. by rewrite Ei.
Qed.

(** ** There and back *)

Lemma copy_ok {A B} (marshal : A → option (list byte)) (unmarshal : list byte → option B) a b :
  copy_via_json marshal unmarshal a = Ok b ↔ ∃ t, marshal a = Some t ∧ unmarshal t = Some b.
Proof. unfold copy_via_json. destruct (marshal a) as [t|]; [destruct (unmarshal t) eqn:E|]; naive_solver. Qed.

Lemma From_ok p s : FromSLSA02ProvenanceStatement p = Ok s ↔
  ps_PredicateType p = PredicateSLSAProvenance ∧ ∃ predicate, copy_via_json Predicate_Marshal json_Unmarshal (ps_Predicate p) = Ok predicate ∧
    s = MkStatement ((λ subject, MkSubject (is_Name subject) (is_Digest subject)) <$> ps_Subject p) (ps_PredicateType p) (sanitizeSLSA02Predicate predicate) ∧
    Validate (Some s) = Ok tt.
Proof.
  unfold FromSLSA02ProvenanceStatement. case_bool_decide as Ht; cbn [negb]; [|naive_solver]. rewrite result_bind_ok. unfold twrap. setoid_rewrite wrap_err_ok.
  setoid_rewrite result_bind_ok. setoid_rewrite wrap_err_ok. split.
  - intros (q & Hq & [] & Hv & [= <-]). eauto 10.
  - intros (_ & q & Hq & -> & Hv). eauto 10.
Qed.

(** A statement converted and converted back is the statement, without the type of its
    header, when there was nothing to take out and the predicate can be written. *)
Theorem slsa_roundtrip p s predicate : FromSLSA02ProvenanceStatement p = Ok s →
  copy_via_json Predicate_Marshal json_Unmarshal (ps_Predicate p) = Ok predicate → sanitizeSLSA02Predicate predicate = predicate →
  is_Some (json_Marshal predicate) →
  ToSLSA02ProvenanceStatement (Some s) = Ok (MkProvenance "" (ps_PredicateType p) (ps_Subject p) (ps_Predicate p)).
Proof.
  intros (Ht & q & Hq & -> & Hv)%From_ok Hp Hs [b' Hb']. rewrite Hq in Hp. injection Hp as ->. apply copy_ok in Hq as (b & Hb & Hm).
  unfold ToSLSA02ProvenanceStatement. rewrite Hv. cbn [twrap wrap_err mbind result_bind PredicateType Predicate Subject].
  rewrite Hs, bool_decide_true by done. cbn [negb].
  rewrite (proj2 (copy_ok json_Marshal Predicate_Unmarshal predicate (ps_Predicate p))) by (exists b'; split; [done|by eapply predicate_through_any]).
  cbn. rewrite <- list_fmap_compose. do 2 f_equal. rewrite <- (list_fmap_id (ps_Subject p)) at 2. apply list_fmap_ext. by intros _ [] _.
Qed.
End slsa.

(** ** The laws can hold *)

Section demo.
#[local] Existing Instance text_json.
(** An object is the text of its code. *)
Definition text_slsa : SlsaLib := {|
  any_of_object m := bytes_string (pos_bytes (encode (m : gmap string string)));
  any_object s := (decode (bytes_pos (string_bytes s)) : option (gmap string string));
  json_Unmarshal b := (decode (bytes_pos b) : option (gmap string string));
  ProvenancePredicate := gmap string string;
  Predicate_Marshal m := Some (pos_bytes (encode m));
  Predicate_Unmarshal b := decode (bytes_pos b);
|}.
Lemma text_slsa_laws : SlsaLaws text_slsa.
Proof.
  constructor.
  - intros m. cbn -[string_bytes bytes_string]. by rewrite string_bytes_string, bytes_pos_bytes, decode_encode.
  - intros p b m b' [= <-] Hm [= <-]. cbn in Hm. rewrite bytes_pos_bytes, decode_encode in Hm. injection Hm as <-.
    cbn. by rewrite bytes_pos_bytes, decode_encode.
Qed.
End demo.
