(* ===== verification/GossipApp.v ===== *)
(** Package [app/gossip]: the application that takes part in the gossip ([app.go]), its
    configuration ([config.go]), and what [delegate.go] passes on of the events of
    memberlist.  Memberlist is an interface; the life of the application is a step
    function over the actions of its goroutines, of callers and of memberlist. *)

From S2P Require Import Prelude GoLib GoStrings Uuidv7.

(** ** Configuration *)

(** The settings of a memberlist, or overrides of them. *)
Record settings (F : Type → Type) := MkSettings {
  BindAddr : F string; BindPort : F Z; AdvertiseAddr : F string; AdvertisePort : F Z; ProtocolVersion : F Z; TCPTimeout : F Z;
  IndirectChecks : F Z; RetransmitMult : F Z; SuspicionMult : F Z; SuspicionMaxTimeoutMult : F Z; PushPullInterval : F Z;
  ProbeTimeout : F Z; ProbeInterval : F Z; DisableTCPPings : F bool; AwarenessMaxMultiplier : F Z; GossipNodes : F Z;
  GossipInterval : F Z; EnableCompression : F bool; DNSConfigPath : F string; HandoffQueueDepth : F Z; UDPBufferSize : F Z;
  QueueCheckInterval : F Z;
}.
Arguments MkSettings {F}.
Arguments BindAddr {F}. Arguments BindPort {F}. Arguments AdvertiseAddr {F}. Arguments AdvertisePort {F}. Arguments ProtocolVersion {F}.
Arguments TCPTimeout {F}. Arguments IndirectChecks {F}. Arguments RetransmitMult {F}. Arguments SuspicionMult {F}.
Arguments SuspicionMaxTimeoutMult {F}. Arguments PushPullInterval {F}. Arguments ProbeTimeout {F}. Arguments ProbeInterval {F}.
Arguments DisableTCPPings {F}. Arguments AwarenessMaxMultiplier {F}. Arguments GossipNodes {F}. Arguments GossipInterval {F}.
Arguments EnableCompression {F}. Arguments DNSConfigPath {F}. Arguments HandoffQueueDepth {F}. Arguments UDPBufferSize {F}.
Arguments QueueCheckInterval {F}.
Definition plain_of (A : Type) : Type := A.

(** The defaults of the library for its profiles. *)
Class MemberlistLib := {
  DefaultLocalConfig : settings plain_of;
  DefaultWANConfig : settings plain_of;
  DefaultLANConfig : settings plain_of;
  MetaMaxSize : nat;
}.

Record MemberlistConfig := MkMemberlistConfig { Profile : string; overrides : settings option }.
Record Config := MkConfig {
  MemberlistConfig_ : MemberlistConfig;
  LeaveTimeout : Z;
  JoinAddrs : list string;
  PeerDiscoveryInterval : Z;
  PeerDiscoveryThreshold : Z;
  MaxPeersToJoin : Z;
}.
Definition no_overrides : settings option :=
  MkSettings None None None None None None None None None None None None None None None None None None None None None None.
Definition DefaultConfig : Config := MkConfig (MkMemberlistConfig "wan" no_overrides) (10 * second) [] (30 * second) 1 2.

Definition configOpt {A} (fallback : A) (val : option A) : A := match val with None => fallback | Some v => v end.

Section app.
Context {ML : MemberlistLib} {U : UuidLib}.

Definition override (cfg : settings plain_of) (c : settings option) : settings plain_of :=
  let opt {A} (f : ∀ F, settings F → F A) : plain_of A := configOpt (f plain_of cfg) (f option c) in
  MkSettings (opt (@BindAddr)) (opt (@BindPort)) (opt (@AdvertiseAddr)) (opt (@AdvertisePort)) (opt (@ProtocolVersion)) (opt (@TCPTimeout))
    (opt (@IndirectChecks)) (opt (@RetransmitMult)) (opt (@SuspicionMult)) (opt (@SuspicionMaxTimeoutMult)) (opt (@PushPullInterval))
    (opt (@ProbeTimeout)) (opt (@ProbeInterval)) (opt (@DisableTCPPings)) (opt (@AwarenessMaxMultiplier)) (opt (@GossipNodes))
    (opt (@GossipInterval)) (opt (@EnableCompression)) (opt (@DNSConfigPath)) (opt (@HandoffQueueDepth)) (opt (@UDPBufferSize))
    (opt (@QueueCheckInterval)).

(** The settings and the name of the member. *)
Definition toActualConfig (c : MemberlistConfig) (nodeID : uuid) : result goerror (settings plain_of * string) :=
  cfg ← (if bool_decide (Profile c = "local"%string) then Ok DefaultLocalConfig
         else if bool_decide (Profile c = "wan"%string) then Ok DefaultWANConfig
         else if bool_decide (Profile c = "lan"%string) then Ok DefaultLANConfig
         else Err (ErrorNew ("unknown memberlist profile: " +:+ Profile c)));
  Ok (override cfg (overrides c), uuid_string nodeID).

(** ** The delegate *)

(** Which handlers there are, and what the reader of the state reads. *)
Record delegate := MkDelegate {
  localID : uuid; localMeta : list byte;
  has_messageHandler : bool; has_nodeHandler : bool; has_stateHandler : bool; stateReader : option (list byte);
}.
Definition newDelegate (id : uuid) : delegate := MkDelegate id [] false false false None.
Definition NodeMeta (d : delegate) : list byte := localMeta d.

(** What the node handler is called with; [NotifyLeave] is the same text. *)
Definition NotifyJoin (d : delegate) (name : string) (meta : list byte) : option (uuid * list byte) :=
  if negb (has_nodeHandler d) then None
  else match Parse name with
       | Err _ => None
       | Ok id => if bool_decide (id = localID d) then None else Some (id, meta)
       end.
Definition NotifyLeave (d : delegate) (name : string) (meta : list byte) : option (uuid * list byte) :=
  if negb (has_nodeHandler d) then None
  else match Parse name with
       | Err _ => None
       | Ok id => if bool_decide (id = localID d) then None else Some (id, meta)
       end.
Definition LocalState (d : delegate) : list byte := default [] (stateReader d).
Definition MergeRemoteState (d : delegate) (buf : list byte) : option (list byte) := if has_stateHandler d then Some buf else None.

(** ** Construction *)

Record App := MkApp { config : Config; mlConfig : settings plain_of * string; app_delegate : delegate; has_addrFinder : bool }.
Definition AppOption : Type := App → result goerror App.

Definition on_delegate (f : delegate → delegate) (a : App) : result goerror App :=
  Ok (MkApp (config a) (mlConfig a) (f (app_delegate a)) (has_addrFinder a)).
Definition WithMessageHandler (h : bool) : AppOption :=
  on_delegate (λ d, MkDelegate (localID d) (localMeta d) h (has_nodeHandler d) (has_stateHandler d) (stateReader d)).
Definition WithStateHandler (h : bool) : AppOption :=
  on_delegate (λ d, MkDelegate (localID d) (localMeta d) (has_messageHandler d) (has_nodeHandler d) h (stateReader d)).
Definition WithStateReader (r : option (list byte)) : AppOption :=
  on_delegate (λ d, MkDelegate (localID d) (localMeta d) (has_messageHandler d) (has_nodeHandler d) (has_stateHandler d) r).
Definition WithLocalNodeMeta (b : list byte) : AppOption := λ a,
  if (MetaMaxSize <? length b)%nat then Err (ErrorNew "invalid local node meta")
  else on_delegate (λ d, MkDelegate (localID d) b (has_messageHandler d) (has_nodeHandler d) (has_stateHandler d) (stateReader d)) a.
Definition WithNodeHandler (h : bool) : AppOption :=
  on_delegate (λ d, MkDelegate (localID d) (localMeta d) (has_messageHandler d) h (has_stateHandler d) (stateReader d)).
Definition WithExtraMemberlistConfig (modFunc : option (settings plain_of * string → result goerror (settings plain_of * string))) : AppOption := λ a,
  match modFunc with
  | None => Ok a
  | Some f => cfg ← f (mlConfig a); Ok (MkApp (config a) cfg (app_delegate a) (has_addrFinder a))
  end.
Definition WithAddrFinder (addrFinder : bool) : AppOption := λ a, Ok (MkApp (config a) (mlConfig a) (app_delegate a) addrFinder).

Fixpoint apply_options (opts : list AppOption) (a : App) : result goerror App :=
  match opts with [] => Ok a | opt :: opts => a ← opt a; apply_options opts a end.
Definition NewApp (cfg : Config) (id : uuid) (opts : list AppOption) : result goerror App :=
  if MaxPeersToJoin cfg <? 1 then Err (ErrorNew "invalid max peers to join")
  else if PeerDiscoveryInterval cfg <? 0 then Err (ErrorNew "negative peer discovery interval")
  else if PeerDiscoveryThreshold cfg <? 1 then Err (ErrorNew "invalid peer discovery threshold")
  else
    let delegate := newDelegate id in
    mlCfg ← toActualConfig (MemberlistConfig_ cfg) id;
    apply_options opts (MkApp cfg mlCfg delegate false).
Definition LocalNodeID (a : App) : uuid := localID (app_delegate a).
Definition configuredToJoin (a : App) : bool := (0 <? length (JoinAddrs (config a)))%nat || has_addrFinder a.

(** ** Joining *)

(** The finder, if there is one, and the library's [Join]. *)
Definition joinAttempt (cfg : Config) (FindAddrs : option (result goerror (list string))) (Join : list string → result goerror unit) :
    result goerror (list string) :=
  found ← (match FindAddrs with
           | None => Ok []
           | Some found =>
               found ← wrap_err (ErrorWrap "failed to find addresses") found;
               Ok (take (Z.to_nat (MaxPeersToJoin cfg)) (sort_Strings found))
           end);
  let addrs := JoinAddrs cfg ++ found in
  if bool_decide (addrs = []) then Err (ErrorNew "no addresses to join")
  else
    _ ← wrap_err (ErrorWrap "failed to join cluster") (Join addrs);
    Ok addrs.

(** One round of the loop: nothing when enough members are known. *)
Definition join (cfg : Config) (NumMembers : Z) (FindAddrs : option (result goerror (list string))) (Join : list string → result goerror unit) :
    option (result goerror (list string)) :=
  if PeerDiscoveryThreshold cfg + 1 <=? NumMembers then None else Some (joinAttempt cfg FindAddrs Join).

(** ** The life of the application *)

(** [Run]: before it, in [memberlist.Create], behind it, waiting for the context,
    behind [Leave], behind [list.Shutdown], waiting for the delegate, or through. *)
Inductive phase := NotRun | Creating | Created | Waiting | Left_ | Down | Closing | Returned (e : option string).
(** [joinLoop]: not started, in a round before the ticker is made, in its [select] or a
    later round, through, or panicked. *)
Inductive joiner := NoLoop | First | Selecting | InRound | Gone | Panicked.
(** [up]: memberlist is running and may call the delegate; [handlers]: what the wait
    group of the delegate counts. *)
Record state := MkState { joinable : bool; cancelled : bool; run : phase; loop : joiner; handlers : nat; up : bool;
  callers : nat (* between the halves of [Shutdown] *) }.
Definition start : state := MkState false false NotRun NoLoop 0 false 0.

Inductive action :=
| Start
| CreateReturns (e : option string)
| StoreJoinable                        (* [a.joinable.Store(true)], and the loop is started *)
| Leave (e : option string)            (* [<-a.ctx.Done()], and [list.Leave] returned *)
| ListShutdown (e : option string)
| StoreUnjoinable
| DelegateClosed
| RoundEnds                            (* [join()] returned *)
| Tick
| LoopDone
| ShutdownStores                       (* the two halves of [Shutdown] *)
| ShutdownCancels
| MessageArrives                       (* [NotifyMsg] with a full message *)
| HandlerReturns.

Definition leave_timeout : string := "timeout waiting for leave broadcast".

Definition step (a : App) (act : action) (s : state) : option state :=
  let '(MkState j c r l h u n) := s in
  match act with
  | Start => match r with NotRun => Some (MkState false c Creating l h u n) | _ => None end
  | CreateReturns e =>
      match r with
      | Creating => Some (match e with None => MkState j c Created l h true n | Some e => MkState j c (Returned (Some ("failed to create memberlist: " +:+ e))) l h u n end)
      | _ => None
      end
  | StoreJoinable =>
      match r with Created => Some (MkState true c Waiting (if configuredToJoin a then First else NoLoop) h u n) | _ => None end
  | Leave e =>
      match r with
      | Waiting =>
          if negb c then None
          else Some (match e with
                     | None => MkState j c Left_ l h u n
                     | Some e => if str_contains e leave_timeout then MkState j c Left_ l h u n
                                 else MkState j c (Returned (Some ("failed to leave gossip cluster: " +:+ e))) l h u n
                     end)
      | _ => None
      end
  | ListShutdown e =>
      match r with
      | Left_ => Some (match e with None => MkState j c Down l h false n | Some e => MkState j c (Returned (Some ("failed to shutdown the memberlist: " +:+ e))) l h u n end)
      | _ => None
      end
  | StoreUnjoinable => match r with Down => Some (MkState false c Closing l h u n) | _ => None end
  | DelegateClosed => match r, h with Closing, O => Some (MkState j c (Returned None) l h u n) | _, _ => None end
  | RoundEnds =>
      match l with
      | First => Some (MkState j c r (if PeerDiscoveryInterval (config a) <=? 0 then Panicked else Selecting) h u n)
      | InRound => Some (MkState j c r Selecting h u n)
      | _ => None
      end
  | Tick => match l with Selecting => Some (MkState j c r InRound h u n) | _ => None end
  | LoopDone => match l with Selecting => if c then Some (MkState j c r Gone h u n) else None | _ => None end
  | ShutdownStores => Some (MkState false c r l h u (S n))
  | ShutdownCancels => match n with S n => Some (MkState j true r l h u n) | O => None end
  | MessageArrives => if u then Some (MkState j c r l (S h) u n) else None
  | HandlerReturns => match h with S h => Some (MkState j c r l h u n) | O => None end
  end.

Fixpoint steps (a : App) (acts : list action) (s : state) : option state :=
  match acts with [] => Some s | act :: acts => s ← step a act s; steps a acts s end.
Definition IsJoinable (s : state) : bool := joinable s.
(** Whether a message is handed to the delegate. *)
Definition BroadcastMessage (s : state) (msg : list byte) : option (list byte) := if cancelled s then None else Some msg.

(** ** Joining does not depend on the order in which addresses are found *)

Lemma sort_Strings_ext l l' : l ≡ₚ l' → sort_Strings l = sort_Strings l'.
Proof.
  intros Hp. apply (StronglySorted_unique string_le); [apply StringsAreSorted_spec, sort_Strings_sorted..|].
  by rewrite !sort_Strings_perm.
Qed.
Theorem joinAttempt_order cfg found found' Join : found ≡ₚ found' →
  joinAttempt cfg (Some (Ok found)) Join = joinAttempt cfg (Some (Ok found')) Join.
Proof. intros Hp. unfold joinAttempt. cbn. by rewrite (sort_Strings_ext _ _ Hp). Qed.

(** What is joined: the configured addresses and a bounded number of those found, at
    least one. *)
Lemma joinAttempt_ok cfg finder Join addrs : joinAttempt cfg finder Join = Ok addrs →
  ∃ found, addrs = JoinAddrs cfg ++ found ∧ addrs ≠ [] ∧ Join addrs = Ok tt ∧ Z.of_nat (length found) ≤ Z.max 0 (MaxPeersToJoin cfg) ∧
    match finder with None => found = [] | Some r => ∃ l, r = Ok l ∧ found ⊆ l end.
Proof.
  unfold joinAttempt. intros (found & Hf & Hj)%result_bind_ok. case_bool_decide as Hne; [done|]. apply result_bind_ok in Hj as ([] & Hj & [= <-]).
  apply wrap_err_ok in Hj. exists found. split_and!; [done|done|done|..]; destruct finder as [r|].
  - apply result_bind_ok in Hf as (l & _ & [= <-]). rewrite length_take. lia.
  - injection Hf as <-. cbn. lia.
  - apply result_bind_ok in Hf as (l & Hl & [= <-]). apply wrap_err_ok in Hl. exists l. split; [done|].
    intros x Hx. apply elem_of_take in Hx as (k & Hx & _). apply list_elem_of_lookup_2 in Hx. by rewrite sort_Strings_perm in Hx.
  - by injection Hf as <-.
Qed.

(** The node handler never hears of the node itself. *)
Lemma NotifyJoin_other d name meta id b : NotifyJoin d name meta = Some (id, b) → id ≠ localID d ∧ Parse name = Ok id ∧ b = meta.
Proof.
  unfold NotifyJoin. destruct (has_nodeHandler d); [|done]. cbn [negb]. destruct (Parse name) as [i|]; [|done]. case_bool_decide; [done|]. by intros [= <- <-].
Qed.

(** ** Reachable states *)

Definition reachable (a : App) (s : state) : Prop := ∃ acts, steps a acts start = Some s.

Definition inv (s : state) : Prop :=
  match run s with
  | NotRun | Creating => joinable s = false ∧ up s = false
  | Created => joinable s = false ∧ up s = true
  | Waiting => up s = true
  | Left_ => cancelled s = true ∧ up s = true
  | Down => cancelled s = true ∧ up s = false
  | Closing => cancelled s = true ∧ up s = false ∧ joinable s = false
  | Returned None => cancelled s = true ∧ up s = false ∧ joinable s = false ∧ handlers s = 0%nat
  | Returned (Some _) => joinable s = true → cancelled s = true
  end.

Lemma inv_step a act s s' : step a act s = Some s' → inv s → inv s'.
Proof.
  destruct s as [j [] r l h u n]; unfold inv; destruct act; cbn [step run joinable cancelled up handlers]; intros Hs Hi;
    repeat (case_match; simplify_eq); cbn in *; repeat (case_match; simplify_eq); tauto || intuition congruence.
Qed.
Lemma inv_reachable a s : reachable a s → inv s.
Proof.
  intros [acts Hs]. assert (inv start) as Hi by done. revert Hs Hi. generalize start. induction acts as [|act acts IH]; intros s0; cbn [steps].
  - by intros [= ->].
  - intros (s1 & Hs & Hr)%bind_Some Hi. eapply IH; [exact Hr|]. by eapply inv_step.
Qed.

(** An application that says it can be joined, and is not being shut down, runs; once
    [Run] has returned without an error nothing of it is left. *)
Theorem joinable_runs a s : reachable a s → IsJoinable s = true → cancelled s = false → run s = Waiting ∧ up s = true.
Proof.
  intros Hi%inv_reachable Hj Hc. unfold IsJoinable in Hj. unfold inv in Hi. destruct (run s) as [| | | | | | |[e|]]; intuition congruence.
Qed.
Theorem Run_leaves_nothing a s : reachable a s → run s = Returned None →
  IsJoinable s = false ∧ up s = false ∧ handlers s = 0%nat ∧ ∀ msg, BroadcastMessage s msg = None.
Proof.
  intros Hi%inv_reachable Hr. unfold inv in Hi. rewrite Hr in Hi. destruct Hi as (Hc & Hu & Hj & Hh). unfold BroadcastMessage. by rewrite Hc.
Qed.

(** After [Shutdown], [Run] returns once the handlers of messages have. *)
Lemma Run_can_return a j l h n : steps a ([Leave None; ListShutdown None; StoreUnjoinable] ++ replicate h HandlerReturns ++ [DelegateClosed])
  (MkState j true Waiting l h true n) = Some (MkState false true (Returned None) l 0 false n).
Proof. cbn. induction h as [|h IH]; [done|]. exact IH. Qed.

(** With an error of [Leave] and a [Shutdown] in between, it stays joinable for good. *)
Lemma joinable_after_return a : configuredToJoin a = false →
  steps a [Start; CreateReturns None; ShutdownStores; StoreJoinable; ShutdownCancels; Leave (Some "no peer")] start
    = Some (MkState true true (Returned (Some "failed to leave gossip cluster: no peer")) NoLoop 0 true 0).
Proof. intros Ha. cbn. by rewrite Ha. Qed.

(** An interval of zero is accepted and panics after the first round. *)
Lemma zero_interval_panics cfg id : PeerDiscoveryInterval cfg = 0 → MaxPeersToJoin cfg = 1 → PeerDiscoveryThreshold cfg = 1 →
  Profile (MemberlistConfig_ cfg) = "lan"%string → JoinAddrs cfg ≠ [] →
  ∃ a s, NewApp cfg id [] = Ok a ∧ steps a [Start; CreateReturns None; StoreJoinable; RoundEnds] start = Some s ∧ loop s = Panicked.
Proof.
  intros Hi Hm Ht Hp Hj. eexists. eexists. split.
  - unfold NewApp, toActualConfig. rewrite Hi, Hm, Ht, Hp. cbn. reflexivity.
  - cbn. unfold configuredToJoin. cbn. rewrite Hi. destruct (JoinAddrs cfg); [done|]. cbn. split; reflexivity.
Qed.
End app.
