(* ===== verification/AuthClient.v ===== *)
(** Package [auth/client] ([client.go], [remote_config.go]): the client of the
    authentication server, which fetches the configuration of the services and
    its signed keys, and credits and the badge of the user. *)

From stdpp Require Import pretty.
From S2P Require Import Prelude Bytes GoLib GoStrings AnonErrors Credit Float64.
From S2P Require Base64 Currency Nonce BlindSigning Http HttpRetry HttpApi Statement Transparency Statements Badge Gateway RouterHttp.
Import Transparency (Sigstore, SigstoreLaws, StructLib, IdentityPolicy, BundleMetadata).

Definition APIKeyHeader : string := "cf-authorization".
Definition DefaultRefillMultiple : Z := 40.

Record Config := MkConfig {
  BaseURL : string;
  APIKey : string;
  RefillMultiple : Z;
  TransparencyIdentityPolicy : IdentityPolicy;
  ConfigRequestMaxTimeout : Z;
  CreditRequestMaxTimeout : Z;
}.
Definition DefaultConfig : Config :=
  MkConfig "" "" DefaultRefillMultiple (Transparency.MkIdentityPolicy "" "" "" "") minute (5 * minute).

(** ** Messages *)

Record AuthWithdrawalRequest := MkWithdrawal {
  wd_ApiKey : string; wd_Value : Currency.PbCurrency; wd_BlindedMessage : list byte }.
(** [GetBlindSignature] of a missing field is empty. *)
Record AuthWithdrawalResponse := MkWithdrawalResponse { wr_BlindSignature : list byte; wr_Badge : option Badge.PbBadge }.
Record AuthRefundRequest (T : TimestampLib) := MkRefund { rf_ApiKey : string; rf_Credit : PbCredit }.
Arguments MkRefund {T}.
Record AuthConfigResponse := MkConfigResponse {
  cr_RouterUrl : string; cr_BankUrl : string; cr_Relays : list string;
  cr_CurrencyKeyBundle : list byte; cr_OhttpKeyConfigsBundle : list byte }.

(** The getters of a missing badge. *)
Definition GetBadge_pb (b : option Badge.PbBadge) : Badge.PbBadge := default (Badge.MkPbBadge (Badge.MkPbCredentials []) []) b.

Definition terr_err (e : Statement.terr) : err := ErrNew (Transparency.error_text e).
Fixpoint goerror_err (e : goerror) : err :=
  match e with ErrorNew msg => ErrNew msg | ErrorWrap msg e => Wrapped msg (goerror_err e) end.

Section remote_config.
Context {U : UrlLib} {H : Sha256Lib} {J : Statement.JsonLib} {K : Statements.JwkLib} {O : Gateway.OhttpLib} {C : Statements.KeyConfigCodec}.

Record RemoteConfig := MkRemoteConfig {
  RouterURL : string;
  BankURL : string;
  OHTTPRelayURLs : list string;
  OHTTPKeyConfigs : list Gateway.KeyConfig;
  OHTTPKeyRotationPeriods : list Gateway.KeyRotationPeriodWithID;
}.

Fixpoint parse_relays (relays : list string) : result err (list string) :=
  match relays with
  | [] => Ok []
  | relay :: relays =>
      match url_parse relay with
      | None => Err (Wrapped "invalid relay url" (ErrNew "parse"))
      | Some relayURL => relayURLs ← parse_relays relays; Ok (url_string relayURL :: relayURLs)
      end
  end.

Definition newRemoteConfigFromURLs (resp : AuthConfigResponse) : result err RemoteConfig :=
  match url_parse (cr_RouterUrl resp) with
  | None => Err (Wrapped "invalid router url" (ErrNew "parse"))
  | Some routerURL =>
      match url_parse (cr_BankUrl resp) with
      | None => Err (Wrapped "invalid bank url" (ErrNew "parse"))
      | Some bankURL =>
          if (length (cr_Relays resp) =? 0)%nat then Err (ErrNew "need at least one relay, got 0")
          else
            relayURLs ← parse_relays (cr_Relays resp);
            Ok (MkRemoteConfig (url_string routerURL) (url_string bankURL) relayURLs [] [])
      end
  end.

(** [VerifyStatementPredicate] of the interface. *)
Definition TransparencyVerifier : Type :=
  list byte → string → IdentityPolicy → result Statement.terr (Statement.Statement * BundleMetadata).

Definition UseSig : string := "sig".
Definition signing_key (claims : Statements.RSAPublicKeyClaims) : result Statement.terr unit :=
  if negb (bool_decide (Statements.claim_Use claims = UseSig)) then Err (Statement.TErr "expected a signing key") else Ok tt.

Definition verifyRemoteConfig (cfg : Config) (resp : AuthConfigResponse) (verifier : TransparencyVerifier) :
    result err (RemoteConfig * Statements.rsa_public) :=
  let step {A} msg (r : result Statement.terr A) : result err A := wrap_err (λ e, Wrapped msg (terr_err e)) r in
  remoteCfg ← newRemoteConfigFromURLs resp;
  '(currencyKeyStatement, _) ← step "failed to verify currency key statement"
    (verifier (cr_CurrencyKeyBundle resp) "jwkRaw" (TransparencyIdentityPolicy cfg));
  currencyKey ← step "failed to convert statement to a public key"
    (Statements.ToRSAPublicKey currencyKeyStatement (Some signing_key));
  '(ohttpKeysStatement, _) ← step "failed to verify ohttp keys statement"
    (verifier (cr_OhttpKeyConfigsBundle resp) "ohttpKeys" (TransparencyIdentityPolicy cfg));
  '(ohttpKeys, ohttpKeyRotationPeriods) ← step "failed to convert statement to ohttp key configs"
    (Statements.ToOHTTPKeyConfigs ohttpKeysStatement);
  Ok (MkRemoteConfig (RouterURL remoteCfg) (BankURL remoteCfg) (OHTTPRelayURLs remoteCfg) ohttpKeys ohttpKeyRotationPeriods, currencyKey).
End remote_config.

(** ** The client *)

Section client.
Context {U : UrlLib} {H : Sha256Lib} {J : Statement.JsonLib} {K : Statements.JwkLib} {O : Gateway.OhttpLib} {C : Statements.KeyConfigCodec}.
Context {T : TimestampLib} {BL : HttpRetry.BackoffLib}.
Context {WQ : ProtoWire AuthWithdrawalRequest} {WR : ProtoWire AuthWithdrawalResponse} {WF : ProtoWire (AuthRefundRequest T)}
  {WC : ProtoWire AuthConfigResponse} {WE : ProtoWire Http.PbError}.
(** The blind signature library for a key; the text of an HTTP date; a JSON error
    of a response; the conversion of floats that are out of range. *)
Context (rsa : Statements.rsa_public → BlindSigning.BlindRSA) (http_date : Z → string).
Context (json_error : list byte → result goerror goerror) (undef : float64 → Z).

(** An HTTP request, and the transport that performs attempts of it in a world. *)
Record http_request := MkHttpRequest { method : string; req_url : string; req_header : Http.Header }.
Context {W : Type} (Do : http_request → W → HttpRetry.exchange (result HttpRetry.transport_error HttpRetry.Response * W)).

Record Client := MkClient {
  cfg : Config;
  remoteCfg : RemoteConfig;
  currencyKey : Statements.rsa_public;   (* of the payee *)
  badge : option Badge.Badge;
}.
Definition set_badge (c : Client) (b : option Badge.Badge) : Client := MkClient (cfg c) (remoteCfg c) (currencyKey c) b.

(** The body of a refused response joined to the error. *)
Definition response_error (resp : HttpRetry.Response) (e : goerror) : err :=
  match HttpRetry.resp_Body resp with
  | Err readErr => Joined (goerror_err e) readErr
  | Ok body =>
      match Http.ParseBodyAsError json_error (Http.MkWriter (HttpRetry.resp_Header resp) None body) e with
      | [] => goerror_err e
      | e :: es => foldl (λ acc e, Joined acc (goerror_err e)) (goerror_err e) es
      end
  end.
Definition unexpected_status (code : Z) : goerror := ErrorNew ("unexpected status code " +:+ pretty code).

Definition request_headers (c : Config) : Http.Header :=
  Http.SetHeader APIKeyHeader (APIKey c) (Http.SetHeader "Content-Type" "application/octet-stream" ∅).

(** The header is set before the error of making the request is looked at: a URL
    that does not parse is a panic, [None].  The body is read through a wrapper
    that hides its length. *)
Definition post (c : Config) (endpoint : string) (bytes : list byte) (b : HttpRetry.BackOff) (check : HttpRetry.CheckFunc) (w : W) :
    option (option HttpRetry.Response * option err * W) :=
  match url_parse endpoint with
  | None => None
  | Some _ => HttpRetry.DoWith (Do (MkHttpRequest "POST" endpoint (request_headers c))) (Some (bytes, None)) b check w
  end.

Definition StatusTooManyRequests : Z := 429.
Definition retry_credit : HttpRetry.CheckFunc := λ rawResp,
  match HttpRetry.Retry5xx rawResp with
  | Ok true | Err _ => HttpRetry.Retry5xx rawResp
  | Ok false => Ok (HttpRetry.StatusCode rawResp =? StatusTooManyRequests)
  end.

Fixpoint check_models (modelsSeen : gset string) (models : list string) : result err unit :=
  match models with
  | [] => Ok tt
  | model :: models =>
      if bool_decide (model ∈ modelsSeen) then Err (ErrNew ("found duplicate model in Badge credentials: " +:+ model))
      else check_models ({[ model ]} ∪ modelsSeen) models
  end.
Definition verifyBadge (b : Badge.Badge) : result err unit := check_models ∅ (Badge.Models (Badge.badge_Credentials b)).

Definition empty_badge : Badge.Badge := Badge.MkBadge (Badge.MkCredentials []) [].

(** The part that holds the lock of the badge: a badge that cannot be parsed leaves
    an empty one. *)
Definition take_badge (c : Client) (pb : option Badge.PbBadge) : result err unit * Client :=
  match badge c with
  | Some _ => (Ok tt, c)
  | None =>
      match Badge.Badge_UnmarshalProto (GetBadge_pb pb) with
      | Err e => (Err (Wrapped "failed to parse badge" (goerror_err e)), set_badge c (Some empty_badge))
      | Ok b =>
          match verifyBadge b with
          | Err e => (Err (Wrapped "failed to verify badge" e), set_badge c None)
          | Ok _ => (Ok tt, set_badge c (Some b))
          end
      end
  end.

(** Randomness, the time of finalising, and the backoff; [None]: a panic or a call
    that never returns. *)
Record credit_env := MkEnv { env_draw : BlindSigning.Draw; env_now : Z; env_backoff : HttpRetry.BackOff }.

Definition withdrawal_request (c : Client) (value : Currency.Value) (unsignedCredit : BlindSigning.BlindSignState (B:=rsa (currencyKey c))) :
    result err (list byte) :=
  let blindedRequest := BlindSigning.Request unsignedCredit in
  pbr ← wrap_err (Wrapped "error marshalling blinded request") (currency_err (Currency.MarshalProto (BlindSigning.req_Value blindedRequest)));
  wrap_err (λ e, Wrapped "error marshalling blinded request" (goerror_err e))
    (marshal_message (MkWithdrawal (APIKey (cfg c)) pbr (BlindSigning.req_BlindedMessage blindedRequest))).

(** What is done with the response: a credit, and the client with its badge. *)
Definition receive_credit (env : credit_env) (c : Client) (unsignedCredit : BlindSigning.BlindSignState (B:=rsa (currencyKey c)))
    (resp : HttpRetry.Response) : result err BlindedCredit * Client :=
  if negb (HttpRetry.StatusCode resp =? Http.StatusOK) then
    if HttpRetry.StatusCode resp =? StatusTooManyRequests then (Err (InsufficientBalanceError (-1)), c)
    else (Err (response_error resp (unexpected_status (HttpRetry.StatusCode resp))), c)
  else
    match Http.Decode (M:=AuthWithdrawalResponse) (HttpApi.response_body resp) with
    | Err e => (Err (Wrapped "error reading signed blinded credit" (goerror_err e)), c)
    | Ok withdrawalResponse =>
        match (BlindSigning.Finalize (env_now env) unsignedCredit (wr_BlindSignature withdrawalResponse)).1.1 with
        | Err e => (Err (Wrapped "failed to finalize blinded credit" e), c)
        | Ok credit =>
            match take_badge c (wr_Badge withdrawalResponse) with
            | (Err e, c) => (Err e, c)
            | (Ok _, c) => (Ok credit, c)
            end
        end
    end.

Definition doRetryingCreditRequest (env : credit_env) (value : Currency.Value) (endpoint : string) (c : Client) (w : W) :
    option (result err BlindedCredit * Client * W) :=
  match BlindSigning.BeginBlindedCredit (B:=rsa (currencyKey c)) value (env_draw env) with
  | Err e => Some (Err (Wrapped "error creating blinded credit" e), c, w)
  | Ok unsignedCredit =>
      match withdrawal_request c value unsignedCredit with
      | Err e => Some (Err e, c, w)
      | Ok withdrawalBytes =>
          match post (cfg c) endpoint withdrawalBytes (env_backoff env) retry_credit w with
          | None => None
          | Some (_, Some e, w) => Some (Err (Wrapped "credit signing request failed" e), c, w)
          | Some (None, None, _) => None
          | Some (Some resp, None, w) => Some (receive_credit env c unsignedCredit resp, w)
          end
      end
  end.

Definition GetAttestationToken (env : credit_env) (c : Client) (w : W) : option (result err BlindedCredit * Client * W) :=
  value ← RouterHttp.AttestationCurrencyValue;
  doRetryingCreditRequest env value (BaseURL (cfg c) +:+ "/api/attestationRequest") c w.

(** [None] also when there is no badge in the end. *)
Definition GetBadge (env : credit_env) (c : Client) (w : W) : option (result err Badge.Badge * Client * W) :=
  match badge c with
  | Some b => Some (Ok b, c, w)
  | None =>
      match GetAttestationToken env c w with
      | None => None
      | Some (Err e, c, w) => Some (Err e, c, w)
      | Some (Ok _, c, w) => match badge c with None => None | Some b => Some (Ok b, c, w) end
      end
  end.

(** [None]: division by zero. *)
Definition refillAmount (amountNeeded multiple : Z) : option Z :=
  if multiple =? 0 then None
  else Some (wrap_s 64 (wrap_s 64 (Z.quot (wrap_s 64 (wrap_s 64 (amountNeeded + multiple) - 1)) multiple) * multiple)).

Definition GetCredit (env : credit_env) (amountNeeded : Z) (c : Client) (w : W) : option (result err BlindedCredit * Client * W) :=
  match refillAmount amountNeeded (RefillMultiple (cfg c)) with
  | None => None
  | Some refill =>
      match Currency.Rounded undef (f64_of_Z refill) f64_one with
      | Err e => Some (Err (Wrapped "error creating credit amount" (CurrencyError e)), c, w)
      | Ok amountRoundedUp => doRetryingCreditRequest env amountRoundedUp (BaseURL (cfg c) +:+ "/api/auth") c w
      end
  end.

Definition PutCredit (b : HttpRetry.BackOff) (credit : BlindedCredit) (c : Client) (w : W) : option (result err unit * W) :=
  match wrap_err (Wrapped "error marshalling credit") (BlindedCredit_MarshalProto credit) with
  | Err e => Some (Err e, w)
  | Ok creditProto =>
      match marshal_message (MkRefund (APIKey (cfg c)) creditProto) with
      | Err e => Some (Err (Wrapped "error marshalling refund request" (goerror_err e)), w)
      | Ok refundBytes =>
          match post (cfg c) (BaseURL (cfg c) +:+ "/api/refund") refundBytes b HttpRetry.Retry5xx w with
          | None => None
          | Some (_, Some e, w) => Some (Err (Wrapped "error sending refund" e), w)
          | Some (None, None, _) => None
          | Some (Some resp, None, w) =>
              Some (if HttpRetry.StatusCode resp =? Http.StatusOK then Ok tt
                    else Err (response_error resp (unexpected_status (HttpRetry.StatusCode resp))), w)
          end
      end
  end.

(** ** Construction *)

Definition fetchRemoteConfig (c : Config) (now : Z) (bckoff : HttpRetry.BackOff) (w : W) :
    option (result err AuthConfigResponse * W) :=
  let configURL := BaseURL c +:+ "/api/config" in
  match url_parse configURL with
  | None => Some (Err (Wrapped "failed to create config request" (ErrNew "parse")), w)
  | Some _ =>
      let header := Http.SetHeader "X-Currency-Date" (http_date (Nonce.RoundDownNonceTimestamp (unix now)))
        (Http.SetHeader APIKeyHeader (APIKey c) ∅) in
      match HttpRetry.DoWith (Do (MkHttpRequest "GET" configURL header)) None bckoff HttpRetry.Retry5xx w with
      | None => None
      | Some (_, Some e, w) => Some (Err (Wrapped "failed to do config request" e), w)
      | Some (None, None, _) => None
      | Some (Some resp, None, w) =>
          Some (body ← wrap_err (Wrapped "error reading config from body") (HttpRetry.resp_Body resp);
                if negb (HttpRetry.StatusCode resp =? Http.StatusOK) then
                  Err (ErrNew ("error getting config, got status " +:+ pretty (HttpRetry.StatusCode resp)))
                else wrap_err (λ e, Wrapped "failed to unmarshal config" (goerror_err e)) (unmarshal_message body), w)
      end
  end.

Definition New (c : Config) (verifier : TransparencyVerifier) (now : Z) (bckoff : HttpRetry.BackOff) (w : W) :
    option (result err Client * W) :=
  if bool_decide (APIKey c = "") then Some (Err (ErrNew "missing API Key"), w)
  else
    '(pbRemoteCfg, w) ← fetchRemoteConfig c now bckoff w;
    Some (pbRemoteCfg ← wrap_err (Wrapped "failed to fetch remote config") pbRemoteCfg;
          '(remoteCfg, currencyKey) ← wrap_err (Wrapped "failed to verify remote config") (verifyRemoteConfig c pbRemoteCfg verifier);
          Ok (MkClient c remoteCfg currencyKey None), w).
End client.

(** ** What the client relies on *)

(** [Finalize] of the blind signature library verifies the signature it returns. *)
Class FinalizeVerifies (B : BlindSigning.BlindRSA) := {
  finalize_verifies message metadata salt r rInv blinded st blindSig sig :
    length salt = BlindSigning.hash_size → BlindSigning.mod_inverse r BlindSigning.modulus = Some rInv →
    BlindSigning.rsa_fixed_blind message metadata salt (big_bytes r) (big_bytes rInv) = Ok (blinded, st) →
    BlindSigning.rsa_finalize st blindSig = Ok sig → BlindSigning.rsa_verify message metadata sig = Ok tt;
}.

(** Data whose SHA-256 is the digest of a named subject of the statement. *)
Definition signed_data {H : Sha256Lib} {J : Statement.JsonLib} (s : Statement.Statement) (name : string) (data : list byte) : Prop :=
  ∃ x h, x ∈ Statement.Subject s ∧ Statement.Name x = name ∧ Statement.Digest x !! "sha256" = Some h ∧ hex_decode h = Some (sha256 data).

Section lemmas.
Context {U : UrlLib} {H : Sha256Lib} {J : Statement.JsonLib} {K : Statements.JwkLib} {O : Gateway.OhttpLib} {C : Statements.KeyConfigCodec}.

Lemma rsa_key_signed s key : Statements.ToRSAPublicKey s (Some signing_key) = Ok key →
  ∃ data k, signed_data s "jwk" data ∧ Statements.NewJWKFromRawJSON data = Some k ∧ Statements.jwk_USE k = UseSig ∧ Statements.jwk_rsa_key k = Some key.
Proof.
  unfold Statements.ToRSAPublicKey. intros Hk. apply result_bind_ok in Hk as (k & Hk & Hr). apply result_bind_ok in Hr as ([] & Hu%wrap_err_ok & Hr).
  unfold signing_key in Hu. destruct (bool_decide_reflect (Statements.claim_Use (Statements.MkClaims (Statements.jwk_KID k) (Statements.jwk_USE k)) = UseSig)) as [Hu'|]; [|done].
  destruct (Statements.jwk_rsa_key k) as [key'|] eqn:Ek; [|done]. injection Hr as ->.
  unfold Statements.ToJWK in Hk. apply result_bind_ok in Hk as ([] & _ & Hk). destruct (bool_decide _); [|done]. cbn [negb] in Hk.
  apply result_bind_ok in Hk as (data & Hd & Hk). destruct (Statements.NewJWKFromRawJSON data) as [k'|] eqn:Ed; [|done]. injection Hk as ->.
  exists data, k. split_and!; try done. unfold Statements.signedJWKRaw in Hd. destruct (Statement.Subject s) as [|x [|]] eqn:Es; try done.
  destruct (bool_decide_reflect (Statement.Name x = "jwk")) as [Hn|]; [|done]. cbn [negb] in Hd. apply result_bind_ok in Hd as (raw & _ & Hd).
  apply Statements.check_digest_ok in Hd as (-> & h & Hh & Hs). exists x, h. rewrite Es. split_and!; try done. by left.
Qed.

Lemma key_subjects_ok ks ps l ks' ps' : Statements.key_subjects ks ps l = Ok (ks', ps') →
  (ks' = ks ∨ ∃ x, ks' = Some x ∧ x ∈ l ∧ Statement.Name x = "ohttp-keys") ∧
  (ps' = ps ∨ ∃ x, ps' = Some x ∧ x ∈ l ∧ Statement.Name x = "key-rotation-periods").
Proof.
  induction l as [|x l IH] in ks, ps |- *; cbn [Statements.key_subjects]; [intros [= <- <-]; eauto|].
  case_bool_decide as Hx; [|case_bool_decide as Hy; [|done]]; intros [Hk Hp]%IH; (split; [destruct Hk as [->|(y & -> & Hin & Hn)]|destruct Hp as [->|(y & -> & Hin & Hn)]]).
  all: first [by left | right; exists x; split_and!; [done|by left|done] | right; exists y; split_and!; [done|by right|done]].
Qed.

Lemma ohttp_configs_signed s configs periods : Statements.ToOHTTPKeyConfigs s = Ok (configs, periods) →
  ∃ data pdata, signed_data s "ohttp-keys" data ∧ signed_data s "key-rotation-periods" pdata ∧
    Statements.configs_Unmarshal data = Some configs ∧ Statements.periods_Unmarshal pdata = Some periods.
Proof.
  unfold Statements.ToOHTTPKeyConfigs. destruct (bool_decide _); [|done]. cbn [negb]. intros Hk. apply result_bind_ok in Hk as ([raw praw] & Hr & Hk).
  destruct (Statements.configs_Unmarshal raw) as [cs|] eqn:Ec; [|done]. destruct (Statements.periods_Unmarshal praw) as [ps|] eqn:Ep; [|done].
  injection Hk as -> ->. exists raw, praw. unfold Statements.signedOHTTPKeysRaw in Hr. destruct (negb _); [done|].
  apply result_bind_ok in Hr as ([ks pks] & Hs & Hr). destruct ks as [x|]; [|done]. destruct pks as [y|]; [|done].
  apply key_subjects_ok in Hs as [[?|(x' & [= <-] & Hx & Hnx)] [?|(y' & [= <-] & Hy & Hny)]]; try done.
  apply result_bind_ok in Hr as (r1 & _ & Hr). apply result_bind_ok in Hr as (d1 & (_ & h & Hh & Hs)%Statements.check_digest_ok & Hr).
  apply result_bind_ok in Hr as (r2 & _ & Hr). apply result_bind_ok in Hr as (d2 & (_ & h2 & Hh2 & Hs2)%Statements.check_digest_ok & Hr).
  injection Hr as <- <-. split_and!; try done; [exists x, h|exists y, h2]; done.
Qed.

Lemma parse_relays_ok relays us : parse_relays relays = Ok us →
  Forall2 (λ relay u, url_string <$> url_parse relay = Some u) relays us.
Proof.
  induction relays as [|r relays IH] in us |- *; cbn [parse_relays]; [intros [= <-]; constructor|].
  destruct (url_parse r) as [u|] eqn:Eu; [|done]. intros Hp. apply result_bind_ok in Hp as (us' & Hus & [= <-]).
  constructor; [by rewrite Eu|by apply IH].
Qed.

Lemma check_models_ok seen models : check_models seen models = Ok tt → NoDup models ∧ ∀ m, m ∈ models → m ∉ seen.
Proof.
  induction models as [|m models IH] in seen |- *; cbn [check_models]; [intros _; split; [constructor|by intros m ?%not_elem_of_nil]|].
  case_bool_decide as Hm; [done|]. intros [Hnd Hs]%IH. split.
  - constructor; [|done]. intros Hin. apply (Hs m Hin), elem_of_union. left. by apply elem_of_singleton.
  - intros m' [->|Hin]%elem_of_cons; [done|]. intros Hseen. apply (Hs m' Hin), elem_of_union. by right.
Qed.
End lemmas.

(** C9. The configuration of the services is signed.  Whatever the server answers, a
    configuration the client accepts has the key for credits from a key marked for
    signing in a statement signed under the policy of the client, and the OHTTP
    keys and rotation periods from another such statement, the raw keys in both
    having the digests the statements were signed for; the URLs parse and there is
    at least one relay, and nothing else of them is signed. *)
Theorem remote_config_verified {U : UrlLib} {H : Sha256Lib} {J : Statement.JsonLib} {L : StructLib} {G : Sigstore} {GL : SigstoreLaws G}
    {K : Statements.JwkLib} {O : Gateway.OhttpLib} {C : Statements.KeyConfigCodec} (sv : Transparency.sigstore_verifier) cfg resp rc key :
  verifyRemoteConfig cfg resp (Transparency.VerifyStatementPredicate sv) = Ok (rc, key) →
  let policy := TransparencyIdentityPolicy cfg in
  (∃ s data k, Transparency.genuine policy (cr_CurrencyKeyBundle resp) s ∧ signed_data s "jwk" data ∧
     Statements.NewJWKFromRawJSON data = Some k ∧ Statements.jwk_USE k = UseSig ∧ Statements.jwk_rsa_key k = Some key) ∧
  (∃ s data pdata, Transparency.genuine policy (cr_OhttpKeyConfigsBundle resp) s ∧ signed_data s "ohttp-keys" data ∧
     signed_data s "key-rotation-periods" pdata ∧ Statements.configs_Unmarshal data = Some (OHTTPKeyConfigs rc) ∧
     Statements.periods_Unmarshal pdata = Some (OHTTPKeyRotationPeriods rc)) ∧
  url_string <$> url_parse (cr_RouterUrl resp) = Some (RouterURL rc) ∧ url_string <$> url_parse (cr_BankUrl resp) = Some (BankURL rc) ∧
  OHTTPRelayURLs rc ≠ [] ∧ Forall2 (λ relay u, url_string <$> url_parse relay = Some u) (cr_Relays resp) (OHTTPRelayURLs rc).
Proof.
  unfold verifyRemoteConfig. intros Hv. apply result_bind_ok in Hv as (rc0 & Hu & Hv).
  apply result_bind_ok in Hv as ([s1 m1] & [Hg1 _]%wrap_err_ok%Transparency.Predicate_genuine & Hv).
  apply result_bind_ok in Hv as (key' & (data & k & Hk)%wrap_err_ok%rsa_key_signed & Hv).
  apply result_bind_ok in Hv as ([s2 m2] & [Hg2 _]%wrap_err_ok%Transparency.Predicate_genuine & Hv).
  apply result_bind_ok in Hv as ([cs ps] & (d2 & p2 & Hd2)%wrap_err_ok%ohttp_configs_signed & [= <- <-]).
  unfold newRemoteConfigFromURLs in Hu. destruct (url_parse (cr_RouterUrl resp)) as [ru|]; [|done]. destruct (url_parse (cr_BankUrl resp)) as [bu|]; [|done].
  destruct (cr_Relays resp) as [|relay relays] eqn:Er; [done|]. cbn [length Nat.eqb] in Hu. rewrite <- Er in *.
  apply result_bind_ok in Hu as (us & Hus%parse_relays_ok & [= <-]). cbn [RouterURL BankURL OHTTPRelayURLs OHTTPKeyConfigs OHTTPKeyRotationPeriods].
  split_and!; [exists s1, data, k; naive_solver|exists s2, d2, p2; naive_solver|done..| |done].
  intros ->. rewrite Er in Hus. inversion Hus.
Qed.

Section requests.
Context {U : UrlLib} {H : Sha256Lib} {J : Statement.JsonLib} {K : Statements.JwkLib} {O : Gateway.OhttpLib} {C : Statements.KeyConfigCodec}.

Lemma take_badge_cases c pb r c' : take_badge c pb = (r, c') →
  c' = set_badge c (badge c') ∧
  match r with
  | Ok _ => ∃ b, badge c' = Some b ∧ (badge c = Some b ∨ badge c = None ∧
      Badge.Badge_UnmarshalProto (GetBadge_pb pb) = Ok b ∧ NoDup (Badge.Models (Badge.badge_Credentials b)))
  | Err _ => badge c = None ∧ (badge c' = None ∨ badge c' = Some empty_badge ∧ ∃ e, Badge.Badge_UnmarshalProto (GetBadge_pb pb) = Err e)
  end.
Proof.
  unfold take_badge. destruct (badge c) as [b|] eqn:Eb; [intros [= <- <-]; split; [by destruct c; cbn in *; subst|eauto]|].
  destruct (Badge.Badge_UnmarshalProto _) as [b|e] eqn:Ep; [|intros [= <- <-]; eauto 10].
  destruct (verifyBadge b) as [[]|e] eqn:Ev; intros [= <- <-]; (split; [done|]); [|by eauto].
  exists b. split; [done|]. right. split_and!; [done..|]. by apply check_models_ok in Ev as [??].
Qed.
End requests.

Lemma finalized_credit {B : BlindSigning.BlindRSA} {FV : FinalizeVerifies B} value d s now bs credit :
  BlindSigning.BeginBlindedCredit value d = Ok s → (BlindSigning.Finalize now s bs).1.1 = Ok credit →
  BlindSigning.Payee_VerifyCredit (Blinded credit) = Ok tt ∧ b_value credit = value.
Proof.
  unfold BlindSigning.BeginBlindedCredit. intros Hb Hf. apply result_bind_ok in Hb as ([bm st] & Hn & [= <-]).
  apply BlindSigning.newUnsignedCredit_inv in Hn as (msg & md & r & rInv & Hmsg & Hmd & Hinv & Hfb & _).
  unfold BlindSigning.Finalize in Hf. destruct (BlindSigning.finalize now _ bs) as [[res st'] t'] eqn:E. cbn [fst snd] in Hf.
  apply result_bind_ok in Hf as ([n sig] & -> & [= <-]). apply BlindSigning.finalize_ok in E as (_ & _ & -> & Hfin & _).
  cbn [BlindSigning.bss_value BlindSigning.bss_state] in *. split; [|done].
  unfold BlindSigning.Payee_VerifyCredit, BlindSigning.verifyCredit, currency_err, nonce_err.
  cbn [credit_Nonce credit_Value credit_Signature b_value b_nonce b_signature]. rewrite Hmsg, Hmd. cbn [wrap_err mbind result_bind].
  by rewrite (finalize_verifies _ _ BlindSigning.zeroSalt _ _ _ _ _ _ eq_refl Hinv Hfb Hfin).
Qed.

(** A credit from the authentication server.  Over any transport, a request that
    succeeds gives a credit of the requested value that verifies under the key of
    the configuration, and leaves the client with a badge: the one it had, or one
    from the response, without duplicate models.  A request that fails leaves the
    badge, except that when the badge of a response cannot be parsed an empty badge
    stays, and from then on [GetBadge] returns that one without an error and without
    asking the server; the credit of that response is lost. *)
Theorem credit_request {U : UrlLib} {H : Sha256Lib} {J : Statement.JsonLib} {K : Statements.JwkLib} {O : Gateway.OhttpLib}
    {C : Statements.KeyConfigCodec} {BL : HttpRetry.BackoffLib} {WQ : ProtoWire AuthWithdrawalRequest} {WR : ProtoWire AuthWithdrawalResponse}
    {WE : ProtoWire Http.PbError} (rsa : Statements.rsa_public → BlindSigning.BlindRSA) {FV : ∀ k, FinalizeVerifies (rsa k)} json_error
    {W} (Do : http_request → W → HttpRetry.exchange (result HttpRetry.transport_error HttpRetry.Response * W)) env value endpoint c w r c' w' :
  doRetryingCreditRequest rsa json_error Do env value endpoint c w = Some (r, c', w') →
  c' = set_badge c (badge c') ∧
  match r with
  | Ok credit =>
      BlindSigning.Payee_VerifyCredit (B:=rsa (currencyKey c)) (Blinded credit) = Ok tt ∧ b_value credit = value ∧
      ∃ b, badge c' = Some b ∧ (badge c = Some b ∨ badge c = None ∧ NoDup (Badge.Models (Badge.badge_Credentials b)))
  | Err _ =>
      badge c' = badge c ∨
      badge c = None ∧ badge c' = Some empty_badge ∧ ∀ env w, GetBadge rsa json_error Do env c' w = Some (Ok empty_badge, c', w)
  end.
Proof.
  assert (∀ c, c = set_badge c (badge c)) as Hc by (by intros []).
  unfold doRetryingCreditRequest. destruct (BlindSigning.BeginBlindedCredit value (env_draw env)) as [u|e] eqn:Eu; [|intros [= <- <- <-]; auto].
  destruct (withdrawal_request _ _ _ _) as [data|e]; [|intros [= <- <- <-]; auto].
  destruct (post _ _ _ _ _ _ _) as [[[[resp|] [e|]] w1]|]; intros [=]; subst; auto.
  rename select (receive_credit _ _ _ _ _ _ = _) into Hr. revert Hr. unfold receive_credit.
  destruct (negb _); [destruct (_ =? StatusTooManyRequests); intros [= <- <-]; auto|].
  destruct (Http.Decode _) as [wr|e]; [|intros [= <- <-]; auto].
  destruct (BlindSigning.Finalize _ _ _).1.1 as [credit|e] eqn:Ef; [|intros [= <- <-]; auto].
  destruct (take_badge c (wr_Badge wr)) as [[[]|e] c1] eqn:Et; intros [= <- <-]; apply take_badge_cases in Et as [Hs Hb]; (split; [exact Hs|]).
  - destruct (finalized_credit _ _ _ _ _ _ Eu Ef) as [Hv Hval]. destruct Hb as (b & Hb & Hc'). split_and!; [done..|]. exists b. naive_solver.
  - destruct Hb as (Hn & [Hb|(Hb & _)]); [left; congruence|]. right. split_and!; [done..|]. intros env' w''. unfold GetBadge. by rewrite Hb.
Qed.

(** The amount asked for is the least multiple of the refill multiple that is
    enough. *)
Lemma refillAmount_spec amountNeeded multiple : 0 < amountNeeded → 0 < multiple → amountNeeded + multiple < 2 ^ 63 →
  ∃ r, refillAmount amountNeeded multiple = Some r ∧ amountNeeded ≤ r < amountNeeded + multiple ∧ (multiple | r).
Proof.
  intros Ha Hm Hb. unfold refillAmount. rewrite (proj2 (Z.eqb_neq _ _)) by lia. pose proof (Z.div_mod (amountNeeded + multiple - 1) multiple ltac:(lia)).
  pose proof (Z.mod_pos_bound (amountNeeded + multiple - 1) multiple Hm). eexists. split; [done|].
  rewrite (wrap_s64_small (amountNeeded + multiple)), (wrap_s64_small (amountNeeded + multiple - 1)) by (unfold in_int64; lia).
  rewrite Z.quot_div_nonneg by lia. set (q := (amountNeeded + multiple - 1) / multiple) in *.
  assert (0 ≤ q) by (apply Z.div_pos; lia). assert (q ≤ amountNeeded + multiple - 1) by nia.
  rewrite (wrap_s64_small q), (wrap_s64_small (q * multiple)) by (unfold in_int64; nia).
  split; [nia|]. by exists q.
Qed.

(** ** A server *)

(** A scheme that signs by appending the metadata, and whose [Finalize] looks. *)
Definition checked_rsa : BlindSigning.BlindRSA := {|
  BlindSigning.verifier_state := list byte;
  BlindSigning.modulus := 3233;
  BlindSigning.rsa_blind_sign blinded metadata := Ok (blinded ++ metadata);
  BlindSigning.rsa_fixed_blind message metadata salt r rInv := Ok (message, message ++ metadata);
  BlindSigning.rsa_finalize st blindSig := if decide (blindSig = st) then Ok blindSig else Err (ErrNew "invalid signature");
  BlindSigning.rsa_verify message metadata signature :=
    if decide (signature = message ++ metadata) then Ok tt else Err (ErrNew "invalid signature");
|}.
Lemma checked_rsa_verifies : FinalizeVerifies checked_rsa.
Proof. constructor. cbn. intros. simplify_eq. case_decide; [|done]. simplify_eq. by rewrite decide_True. Qed.

Section demo.
#[local] Instance demo_json : Statement.JsonLib := Statement.text_json.
#[local] Instance demo_sha : Sha256Lib := toy_sha256.
#[local] Instance demo_struct : StructLib := Transparency.text_struct.
#[local] Instance demo_sigstore : Sigstore := Transparency.code_sigstore.
#[local] Instance demo_sigstore_laws : SigstoreLaws demo_sigstore := Transparency.code_sigstore_laws.
#[local] Instance demo_url : UrlLib := text_url.
#[local] Instance demo_order : RangeOrder := elements_order.
#[local] Instance demo_ohttp : Gateway.OhttpLib := Gateway.seed_keys.
(** A key is text with its use before a colon; configurations are lost. *)
#[local] Instance demo_jwk : Statements.JwkLib := {|
  Statements.jwk := string; Statements.rsa_public := string; Statements.jwk_Marshal k := Some (string_bytes k);
  Statements.NewJWKFromRawJSON b := Some (bytes_string b); Statements.jwk_USE k := String.substring 0 3 k; Statements.jwk_KID k := "";
  Statements.jwk_rsa_key k := Some k; Statements.NewJWKFromKey k _ _ := Some k |}.
#[local] Instance demo_codec : Statements.KeyConfigCodec := {|
  Statements.configs_Marshal _ := Some [x01]; Statements.configs_Unmarshal b := Some [Gateway.MkKeyConfig (O:=Gateway.seed_keys) 1 b];
  Statements.periods_Marshal _ := Some [x02]; Statements.periods_Unmarshal b := Some [] |}.

#[local] Instance demo_request_wire : ProtoWire AuthWithdrawalRequest := record_wire
  (λ r, (wd_ApiKey r, bytes_string <$> Currency.pb_currency (wd_Value r), bytes_string (wd_BlindedMessage r)))
  (λ c, MkWithdrawal c.1.1 (Currency.MkPbCurrency (string_bytes <$> c.1.2)) (string_bytes c.2)).
#[local] Instance demo_response_wire : ProtoWire AuthWithdrawalResponse := record_wire
  (λ r, (bytes_string (wr_BlindSignature r),
         (λ b, (bytes_string (Badge.pb_models (Badge.pb_credentials b)), bytes_string (Badge.pb_badge_signature b))) <$> wr_Badge r))
  (λ c, MkWithdrawalResponse (string_bytes c.1)
         ((λ b, Badge.MkPbBadge (Badge.MkPbCredentials (string_bytes b.1)) (string_bytes b.2)) <$> c.2)).
#[local] Instance demo_error_wire : ProtoWire Http.PbError := Http.text_error_wire.
#[local] Instance demo_backoff : HttpRetry.BackoffLib := HttpRetry.counted_backoff.

(** The server signs any request and sends a badge with these models. *)
Definition demo_handler (models : list byte) (r : Http.Request) (w : Http.ResponseWriter) (s : unit) : Http.ResponseWriter * unit :=
  match b ← Http.r_Body r; unmarshal_message b with
  | Err _ => (Http.BinaryServerError w, s)
  | Ok req =>
      let metadata := default [] (Currency.pb_currency (wd_Value req)) in
      (Http.WriteBinaryProto (MkWithdrawalResponse (wd_BlindedMessage req ++ metadata)
         (Some (Badge.MkPbBadge (Badge.MkPbCredentials models) [x07]))) w, s)
  end.
Definition demo_Do (models : list byte) (r : http_request) (w : unit) := HttpRetry.reliable (req_header r) (demo_handler models) w.

Definition demo_policy : IdentityPolicy := Transparency.MkIdentityPolicy "issuer" "" "ci" "".
Definition demo_cfg : Config := MkConfig "https://auth" "key" 40 demo_policy minute (5 * minute).
Definition demo_client : Client := MkClient demo_cfg (MkRemoteConfig "" "" [] [] []) "sig" None.
Definition demo_env : credit_env := MkEnv (BlindSigning.toy_draw 0) 0 (HttpRetry.tries 0).
Definition demo_json_error (b : list byte) : result goerror goerror := Err (ErrorNew "json").
Definition demo_request (models : list byte) : option (result err BlindedCredit * Client * unit) :=
  doRetryingCreditRequest (λ _, checked_rsa) demo_json_error (demo_Do models) demo_env (Currency.MkValue false 50) "https://auth/api/auth" demo_client tt.

Definition demo_good : bool := match demo_request [] with Some (Ok c, c', _) => bool_decide (b_value c = Currency.MkValue false 50) | _ => false end.
Lemma demo_good_true : demo_good = true.
Proof. vm_compute. reflexivity. Qed.
(** A badge with a truncated length. *)
Definition demo_bad : bool := match demo_request [x01] with Some (Err _, c', _) => bool_decide (is_Some (badge c')) | _ => false end.
Lemma demo_bad_true : demo_bad = true.
Proof. vm_compute. reflexivity. Qed.

Lemma credit_request_witness : ∃ e c' w', demo_request [x01] = Some (Err e, c', w') ∧
  ∀ env w, GetBadge (λ _, checked_rsa) demo_json_error (demo_Do [x01]) env c' w = Some (Ok empty_badge, c', w).
Proof.
  pose proof demo_bad_true as Hb. unfold demo_bad in Hb. destruct (demo_request [x01]) as [[[[credit|e] c'] w']|] eqn:E; try discriminate.
  exists e, c', w'. split; [reflexivity|].
  destruct (credit_request (FV:=λ _, checked_rsa_verifies) (λ _, checked_rsa) _ _ _ _ _ _ _ _ _ _ E) as [_ [Hs|(_ & _ & Hg)]]; [|exact Hg].
  rewrite Hs in Hb. discriminate Hb.
Defined.

Definition demo_hash (b : list byte) : gmap string string := {[ "sha256" := hex_encode (sha256 b) ]}.
Definition demo_b64 (b : list byte) : string := Base64.EncodeToString Base64.StdEncoding b.
Definition demo_key_bundle : list byte := pos_bytes (encode (
  (Transparency.StatementTypeUri, [("jwk", demo_hash (string_bytes "sig-1"))], Statements.PublicKeyPredicateType,
    Some ({[ "jwkRaw" := demo_b64 (string_bytes "sig-1") ]} : gmap string string)), "ci")).
Definition demo_ohttp_bundle : list byte := pos_bytes (encode (
  (Transparency.StatementTypeUri, [("key-rotation-periods", demo_hash [x02]); ("ohttp-keys", demo_hash [x05])],
    Statements.OHTTPKeyConfigsPredicateType,
    Some ({[ "ohttpKeys" := demo_b64 [x05]; "keyRotationPeriods" := demo_b64 [x02] ]} : gmap string string)), "ci")).
Definition demo_response : AuthConfigResponse :=
  MkConfigResponse "https://router" "https://bank" ["https://relay"] demo_key_bundle demo_ohttp_bundle.
Definition demo_remote : RemoteConfig :=
  MkRemoteConfig "https://router" "https://bank" ["https://relay"] [Gateway.MkKeyConfig (O:=Gateway.seed_keys) 1 [x05]] [].

Lemma demo_config_ok :
  verifyRemoteConfig demo_cfg demo_response (Transparency.VerifyStatementPredicate (G:=Transparency.code_sigstore) tt) = Ok (demo_remote, "sig-1").
Proof. vm_compute. reflexivity. Qed.

Lemma remote_config_verified_witness :
  verifyRemoteConfig demo_cfg demo_response (Transparency.VerifyStatementPredicate (G:=Transparency.code_sigstore) tt) = Ok (demo_remote, "sig-1") ∧
  ∃ s data k, Transparency.genuine demo_policy demo_key_bundle s ∧ signed_data s "jwk" data ∧
     Statements.NewJWKFromRawJSON data = Some k ∧ Statements.jwk_USE k = UseSig ∧ Statements.jwk_rsa_key k = Some "sig-1".
Proof.
  split; [exact demo_config_ok|].
  exact (proj1 (remote_config_verified (G:=Transparency.code_sigstore) _ _ _ _ _ demo_config_ok)).
Defined.
End demo.
