(* ===== verification/Verify.v ===== *)
(** Package [attestation/verify]: what a client checks before it trusts a compute
    node.  The TPM, TEE, X.509, JWT and sigstore libraries are classes; embedded
    certificates are parameters. *)

From Stdlib Require Strings.String.
From S2P Require Import Prelude Bytes Base64 GoLib GoStrings TpmKeys Statement Transparency Statements.
From S2P Require Cmdline Evidence.

(** ** Libraries *)

(** [crypto/x509], [encoding/pem] and [asn1]. *)
Definition oid : Type := list Z.
Definition OidExtensionSubjectAltName : oid := [2; 5; 29; 17].
Definition cloudComputeInstanceIdentifierOID : oid := [1; 3; 6; 1; 4; 1; 11129; 2; 1; 21].

Record gceSecurityProperties := MkSecurityProperties { SecurityVersion : Z; IsProduction : bool }.
Record gceInstanceInfo := MkInstanceInfo {
  Zone : string; ProjectNumber : Z; ProjectID : string; InstanceID : Z; InstanceName : string;
  SecurityProperties : gceSecurityProperties;
}.

(** A certificate is verified with the critical extensions still counted as
    unhandled, the roots and the intermediates, for any extended key usage. *)
Class CertLib {X : Evidence.X509Lib} := {
  cert_PublicKey : Evidence.certificate → public_key;
  cert_Extensions : Evidence.certificate → list (oid * list byte);
  UnhandledCriticalExtensions : Evidence.certificate → list oid;
  x509_Verify : Evidence.certificate → list oid → list Evidence.certificate → list Evidence.certificate → bool;
  pem_Decode : list byte → option (list byte);
  (** a block of type CERTIFICATE *)
  pem_EncodeToMemory : list byte → option (list byte);
  asn1_InstanceInfo : list byte → option gceInstanceInfo;
  RevocationList : Type;
  ParseRevocationList : list byte → option RevocationList;
  Crl_CheckSignatureFrom : RevocationList → Evidence.certificate → bool;
  Cert_CheckSignatureFrom : Evidence.certificate → Evidence.certificate → bool;
}.

(** The embedded PEM files. *)
Class EmbeddedCerts := {
  GCEEKAKRootCert : list byte;
  azureTPMIntermediateCertPEMs : list (list byte);
  azureTPMRootCertPEM : list byte;
  NRASRootCert : list byte;
  TDXRootCertBytes : list byte;
}.

(** [go-sev-guest] and [go-tdx-guest]. *)
Class TeeLib {X : Evidence.X509Lib} := {
  snp_attestation : Type;
  Unmarshal_SnpAttestation : list byte → option snp_attestation;
  (** without fetching certificates; whether revocations are checked *)
  SnpAttestationContext : snp_attestation → bool → bool;
  tdx_quote : Type;
  QuoteToProto : list byte → option tdx_quote;
  tdx_options : Type;
  (** from the PEM text of the root certificate *)
  RootOfTrustToOptions : string → option tdx_options;
  (** with collateral from the getter and revocations checked *)
  TdxQuote : tdx_quote → tdx_options → (string → option (gmap string (list string) * list byte)) → bool;
  url_Path : string → option string;
}.

(** [jwt.Parse] of a token signed with ES384 under an ECDSA key, claims not
    validated; whether the claims are a map. *)
Class JwtLib := { jwt_Parse : string → curve * Z * Z → option bool }.

(** The event log of [go-eventlog]. *)
Record Event := MkEvent { PcrIndex : Z; EventData : list byte; EventDigest : list byte }.
Record FirmwareLogState := MkLog { RawEvents : list Event; SecureBoot : option bool (* Enabled *) }.

Section verify.
Context {X : Evidence.X509Lib} {CL : CertLib} {EC : EmbeddedCerts} {TL : TeeLib} {JW : JwtLib} {H : Sha256Lib} {T : Tpm2} {K : KemLib}
  {RS : RsaLib} {S : SliceSort} {R : RangeOrder} {U : UrlLib} {J : JsonLib} {M : ManifestJson} {WL : ProtoWire FirmwareLogState}
  {WQ : ProtoWire Evidence.PbTPMQuoteAttestation} {WC : ProtoWire Evidence.PbTDXCollateral}.

Abbreviation certificate := Evidence.certificate.
Abbreviation piece := Evidence.SignedEvidencePiece.

(** *** Certificates *)

Definition pem_certificate (pem : list byte) : result failure certificate :=
  block ← lib "failed to decode PEM block" (pem_Decode pem);
  fwrap "failed to parse certificate" (lib "x509" (Evidence.ParseCertificate block)).

Definition GetGCEEKAKRootCert : result failure certificate := pem_certificate GCEEKAKRootCert.
Definition GetTDXRootCert : result failure certificate := pem_certificate TDXRootCertBytes.

Definition GetInstanceInfo (cert : certificate) : result failure gceInstanceInfo :=
  let rawInfo :=
    match list_find (λ ext, ext.1 = cloudComputeInstanceIdentifierOID) (cert_Extensions cert) with
    | Some (_, ext) => ext.2
    | None => []
    end in
  if (length rawInfo =? 0)%nat then fail "GCE Instance Information Extension not found"
  else
    info ← fwrap "failed to parse GCE Instance Information Extension" (lib "asn1" (asn1_InstanceInfo rawInfo));
    if (ProjectNumber info <? 0) || (InstanceID info <? 0) || (SecurityVersion (SecurityProperties info) <? 0)
    then fail "negative integer fields found in GCE Instance Information Extension"
    else if negb (IsProduction (SecurityProperties info)) then fail "GCE Instance Information Extension is not production"
    else Ok info.

Definition VerifyAKCert (akCert : certificate) (trustedRootCerts intermediateCerts : list certificate) : result failure unit :=
  if (length trustedRootCerts =? 0)%nat then fail "failed to validate AK Cert: received no trusted root certs"
  else
    let exts := filter (λ ext, ext ≠ OidExtensionSubjectAltName) (UnhandledCriticalExtensions akCert) in
    if x509_Verify akCert exts trustedRootCerts intermediateCerts then Ok tt
    else fail "certificate did not chain to a trusted root".

Definition verifyIntermediateCert (akIntermediateCert : certificate) (trustedRootCerts : list certificate) : result failure unit :=
  if (length trustedRootCerts =? 0)%nat then fail "failed to validate AK Cert: received no trusted root certs"
  else if x509_Verify akIntermediateCert (UnhandledCriticalExtensions akIntermediateCert) trustedRootCerts [] then Ok tt
  else fail "certificate did not chain to a trusted root".

Definition GceAkIntermediateCertificate (p : piece) : result failure certificate :=
  akIntermediateCert ← lib "failed to parse GCE AK Certificate" (Evidence.ParseCertificate (Evidence.Data p));
  rootCert ← fwrap "failed to get GCE EK AK Root Certificate" GetGCEEKAKRootCert;
  _ ← fwrap "failed to verify GCE AK Certificate" (verifyIntermediateCert akIntermediateCert [rootCert]);
  Ok akIntermediateCert.

(** The certificate, its key and what it says about the instance. *)
Definition GceAkCertificate (intermediateCertificate : certificate) (p : piece) : result failure (certificate * gceInstanceInfo) :=
  akCert ← lib "failed to parse GCE AK Certificate" (Evidence.ParseCertificate (Evidence.Data p));
  rootCert ← fwrap "failed to get GCE AK Root Certificate" GetGCEEKAKRootCert;
  _ ← fwrap "failed to verify GCE AK Certificate" (VerifyAKCert akCert [rootCert] [intermediateCertificate]);
  info ← fwrap "failed to get GCE Instance Info" (GetInstanceInfo akCert);
  match cert_PublicKey akCert with
  | RSAPublicKey _ _ => Ok (akCert, info)
  | _ => fail "failed to get RSA Public Key from GCE AK Certificate"
  end.

Fixpoint parse_intermediates (pems : list (list byte)) : result failure (list certificate) :=
  match pems with
  | [] => Ok []
  | certPEM :: pems =>
      block ← lib "failed to parse PEM block containing intermediate cert" (pem_Decode certPEM);
      intermediateCert ← lib "failed to parse intermediate cert" (Evidence.ParseCertificate block);
      rest ← parse_intermediates pems; Ok (intermediateCert :: rest)
  end.

Definition AzureAkCertificate (p : piece) : result failure certificate :=
  intermediateCerts ← parse_intermediates azureTPMIntermediateCertPEMs;
  block ← lib "failed to parse PEM block containing root cert" (pem_Decode azureTPMRootCertPEM);
  rootCert ← lib "failed to parse root cert" (Evidence.ParseCertificate block);
  akCert ← lib "failed to parse Azure AK Certificate from evidence" (Evidence.ParseCertificate (Evidence.Data p));
  _ ← fwrap "failed to verify Azure AK Certificate" (VerifyAKCert akCert [rootCert] intermediateCerts);
  Ok akCert.

Definition GetIntermediateCert (p : piece) : result failure certificate :=
  intermediateCert ← lib "failed to parse intermediate certificate" (Evidence.ParseCertificate (Evidence.Data p));
  block ← lib "failed to parse PEM block containing the root certificate" (pem_Decode NRASRootCert);
  rootCert ← lib "failed to parse root certificate" (Evidence.ParseCertificate block);
  _ ← fwrap "failed to verify Nvidia Intermediate Certificate" (verifyIntermediateCert intermediateCert [rootCert]);
  Ok intermediateCert.

(** *** TEE reports *)

Definition SEVSNPReport (p : piece) (checkRevocations : bool) : result failure unit :=
  attestation ← lib "failed to parse SEV-SNP report" (Unmarshal_SnpAttestation (Evidence.Data p));
  if SnpAttestationContext attestation checkRevocations then Ok tt else fail "failed to verify SEV-SNP report".

Definition Getter_Get (collateral : Evidence.TDXCollateral) (reqURL : string) : option (gmap string (list string) * list byte) :=
  path ← url_Path reqURL;
  if bool_decide (path = "/sgx/certification/v4/pckcrl") then Some (Evidence.PckCrlHeaders collateral, Evidence.PckCrlBody collateral)
  else if bool_decide (path = "/tdx/certification/v4/tcb") then Some (Evidence.TcbHeaders collateral, Evidence.TcbBody collateral)
  else if bool_decide (path = "/tdx/certification/v4/qe/identity") then Some (Evidence.QeHeaders collateral, Evidence.QeBody collateral)
  else if bool_decide (path = "/IntelSGXRootCA.der") then Some (Evidence.RootCrlHeaders collateral, Evidence.RootCrlBody collateral)
  else None.

(** The empty text for no certificate or when it cannot be encoded. *)
Definition certificateToPEMString (cert : option certificate) : string :=
  match cert with
  | None => ""
  | Some cert => match pem_EncodeToMemory (Evidence.Raw cert) with None => "" | Some pemBytes => bytes_string pemBytes end
  end.

(** The options are written to before their error is checked. *)
Definition TDXReport (rootCert : certificate) (collateral : Evidence.TDXCollateral) (p : piece) : result failure unit :=
  report ← lib "failed to convert quote to proto" (QuoteToProto (Evidence.Data p));
  match RootOfTrustToOptions (certificateToPEMString (Some rootCert)) with
  | None => Err Panicked
  | Some options =>
      if TdxQuote report options (Getter_Get collateral) then Ok tt else fail "failed to verify TDX quote"
  end.

Definition zero_collateral : Evidence.TDXCollateral :=
  Evidence.MkCollateral [] ∅ [] ∅ None None [] ∅ None None [] ∅ None None.

(** [UnmarshalBinary] into a new value. *)
Definition unmarshal_collateral (data : list byte) : result failure Evidence.TDXCollateral :=
  wrap_err Failed (p ← unmarshal_message data; Evidence.Collateral_UnmarshalProto zero_collateral p).

(** The pointer to the intermediate certificate may be nil. *)
Definition TDXCollateral (p : piece) : result failure unit :=
  collateral ← fwrap "failed unmarshal TDX collateral" (unmarshal_collateral (Evidence.Data p));
  tdxRootCert ← fwrap "failed to load TDX root cert" GetTDXRootCert;
  pckCrl ← lib "failed to load PCK CRL" (ParseRevocationList (Evidence.PckCrlBody collateral));
  rootCrl ← lib "failed to load root CRL" (ParseRevocationList (Evidence.RootCrlBody collateral));
  if negb (Crl_CheckSignatureFrom rootCrl tdxRootCert) then fail "failed to verify root crl"
  else match Evidence.PckCrlIntermediateCertificate collateral with
  | None => Err Panicked
  | Some intermediate =>
      if negb (Cert_CheckSignatureFrom intermediate tdxRootCert) then fail "failed to verify intermediate certificate signature"
      else if negb (Crl_CheckSignatureFrom pckCrl intermediate) then fail "failed to verify pck crl"
      else Ok tt
  end.

(** *** TPM statements signed by the attestation key *)

Definition verify_signed_attest (attestationKey : Z * Z) (attest : TPMSAttest) (signature : list byte) : result failure unit :=
  sig ← lib "tpm2" (Unmarshal_TPMTSignature signature);
  let attestHash := sha256 (Marshal_TPMSAttest attest) in
  rsassa ← lib "tpm2" (RSASSA sig);
  if VerifyPKCS1v15 attestationKey attestHash rsassa then Ok tt else fail "crypto/rsa: verification error".

Definition REKCreation (attestationKey : Z * Z) (p : piece) : result failure TPM2BAttest :=
  info ← lib "tpm2" (Unmarshal_TPM2BAttest (Evidence.Data p));
  infoContents ← lib "tpm2" (Contents info);
  _ ← lib "tpm2" (Attested_Creation infoContents);
  _ ← verify_signed_attest attestationKey infoContents (Evidence.Signature p);
  Ok info.

(** The registers of a map in increasing order; every index fits. *)
Definition unmarshal_quote (data : list byte) : result failure Evidence.TPMQuoteAttestation :=
  wrap_err Failed (p ← unmarshal_message data; Evidence.Quote_UnmarshalProto (Evidence.MkQuote [] None) p).

Definition TPMQuote (attestationKey : Z * Z) (p : piece) : result failure Evidence.PCRValues :=
  tpmQuoteProto ← unmarshal_quote (Evidence.Data p);
  tpms ← lib "tpm2" (Unmarshal_TPMSAttest (Evidence.TmpstAttestQuote tpmQuoteProto));
  _ ← verify_signed_attest attestationKey tpms (Evidence.Signature p);
  match Evidence.quote_PCRValues tpmQuoteProto with
  | None => Err Panicked
  | Some values =>
      let orderedPCRIndices := slices_sort (range_map values).*1 in
      let expectedPCRDigest := sha256 (concatenatedPCRs values orderedPCRIndices) in
      digest ← lib "tpm2" (Attested_Quote tpms);
      if (length digest <? 32)%nat then Err Panicked
      else if negb (bool_decide (expectedPCRDigest = take 32 digest)) then
        fail "plaintext TPMQuoteAttestation PCR values don't match the signed data"
      else
        Ok (foldl (λ pcrMap k, <[k := default [] (values !! k)]> pcrMap) ∅ orderedPCRIndices)
  end.

Definition TPMT (certifiedName : list byte) (p : piece) (desiredPcrValues : Evidence.PCRValues) : result failure unit :=
  tpmtPublic ← lib "failed to unmarshal TPMT public" (Unmarshal_TPMTPublic (Evidence.Data p));
  expectedName ← lib "failed to get object name" (ObjectName tpmtPublic);
  if negb (bool_decide (expectedName = certifiedName)) then fail "certified name does not match expected name"
  else
    desiredAuthPolicyDigest ← fwrap "failed to get software PCR policy digest" (GetSoftwarePCRPolicyDigest desiredPcrValues);
    if negb (bool_decide (AuthPolicy tpmtPublic = desiredAuthPolicyDigest)) then
      fail "attested key does not enforce desired PCR values"
    else Ok tt.

(** *** The event log *)

Definition KernelCmdlinePCRIndex : Z := 8.
Definition ModelHashPCRIndex : Z := 12.

Definition getRawEventsAndSecureBootState (evidencePiece : option piece) : result failure (list Event * option bool) :=
  match evidencePiece with
  | None => Err Panicked
  | Some p =>
      firmwareLogState ← lib "failed to unmarshal event log" (proto_unmarshal (Evidence.Data p));
      Ok (RawEvents firmwareLogState, SecureBoot firmwareLogState)
  end.

(** One event: passed over, a command line that is fine, or an error. *)
Definition check_cmdline_event (expectedRoot : string) (event : Event) : result failure bool :=
  if negb (PcrIndex event =? KernelCmdlinePCRIndex) then Ok false
  else
    let cmdlineStr := bytes_string (EventData event) in
    if negb (String.prefix "kernel_cmdline:" cmdlineStr) then Ok false
    else match Cmdline.Parse cmdlineStr with
    | Err _ => fail "failed to parse kernel cmdline"
    | Ok cmdlineMap =>
        match cmdlineMap !! "confsec.root" with
        | None => fail "confsec.root not found in kernel cmdline"
        | Some confsecRoot =>
            if negb (bool_decide (confsecRoot = expectedRoot)) then fail "confsec.root does not match image manifest" else Ok true
        end
    end.

Fixpoint check_cmdlines (expectedRoot : string) (verified : bool) (events : list Event) : result failure bool :=
  match events with
  | [] => Ok verified
  | event :: events => ok ← check_cmdline_event expectedRoot event; check_cmdlines expectedRoot (verified || ok) events
  end.

Definition verifyKernelCmdline (events : list Event) (imageManifest : ImageManifest) : result failure unit :=
  match CustomData imageManifest with
  | None => fail "no custom data in image manifest"
  | Some customData =>
      match KernelCmdlines customData with
      | [] => fail "no kernel cmdlines found in image manifest"
      | kernelCmdline :: _ =>
          verified ← check_cmdlines (ConfsecRoot kernelCmdline) false events;
          if verified : bool then Ok tt else fail "confsec.root not found in kernel cmdline"
      end
  end.

(** The registers name SHA-256, which is always available. *)
Definition extend (checksum : list byte) (event : Event) : list byte :=
  sha256 ((if (length checksum =? 0)%nat then replicate 32 x00 else checksum) ++ EventDigest event).
Definition calculateEventLogChecksum (rawEvents : list Event) (registerIndex : Z) : list byte :=
  foldl extend [] (filter (λ event, PcrIndex event = registerIndex) rawEvents).

Fixpoint check_registers (rawEvents : list Event) (expectedPcr : list Evidence.MeasurementRegister) : result failure unit :=
  match expectedPcr with
  | [] => Ok tt
  | pcr :: expectedPcr =>
      if (Evidence.Index pcr <? 0) || (2 ^ 32 - 1 <? Evidence.Index pcr) then fail "pcr index is out of range for uint32"
      else if Evidence.Index pcr =? ModelHashPCRIndex then check_registers rawEvents expectedPcr
      else if negb (bool_decide (calculateEventLogChecksum rawEvents (Evidence.Index pcr) = Evidence.Digest pcr)) then
        fail "pcr does not match"
      else check_registers rawEvents expectedPcr
  end.

Definition EventLog (expectedPcr : list Evidence.MeasurementRegister) (eventLogEvidence : option piece) (imageManifest : ImageManifest) :
    result failure unit :=
  '(rawEvents, secureBoot) ← fwrap "failed to get raw events" (getRawEventsAndSecureBootState eventLogEvidence);
  match secureBoot with
  | None => Err Panicked
  | Some false => fail "failed to verify event log: secure boot is not enabled"
  | Some true =>
      _ ← fwrap "failed to verify kernel cmdline" (verifyKernelCmdline rawEvents imageManifest);
      check_registers rawEvents expectedPcr
  end.

(** *** GPU evidence *)

Definition VerifyJWT (intermediateCert : certificate) (signedToken : string) : result failure bool :=
  match cert_PublicKey intermediateCert with
  | ECDSAPublicKey c X Y => lib "failed to parse the JWT" (jwt_Parse signedToken (c, X, Y))
  | _ => fail "failed to get public key from intermediate certificate"
  end.

Definition maybeGetEvidencePieceFromList (evidenceType : Evidence.EvidenceType) (evidence : list piece) : option piece :=
  snd <$> list_find (λ p, Evidence.Type_ p = evidenceType) evidence.

(** The same steps for the GPUs and for the switch, if there is such evidence. *)
Definition verify_nvidia (eta certType : Evidence.EvidenceType) (evidence : list piece) : result failure unit :=
  match maybeGetEvidencePieceFromList eta evidence with
  | None => Ok tt
  | Some gpuEvidence =>
      cert ← lib "no evidence for nvidia cc intermediate certificate provided" (maybeGetEvidencePieceFromList certType evidence);
      intermediateCert ← fwrap "failed to get intermediate certificate" (GetIntermediateCert cert);
      let encodedSig := EncodeToString RawURLEncoding (Evidence.Signature gpuEvidence) in
      let jwtTokenString := bytes_string (Evidence.Data gpuEvidence) +:+ "." +:+ encodedSig in
      claims_ok ← fwrap "failed to verify nvidia eta" (VerifyJWT intermediateCert jwtTokenString);
      if claims_ok : bool then Ok tt else fail "failed to get claims from token"
  end.
(** *** The verifier *)

Record ComputeData := MkComputeData { KEM : Z; KDF : Z; AEAD : Z; cd_PublicKey : list byte }.
Definition KEM_P256_HKDF_SHA256 : Z := 16.
Definition KDF_HKDF_SHA256 : Z := 1.
Definition AEAD_AES128GCM : Z := 1.

(** What the verifier uses of its transparency verifier. *)
Definition TransparencyVerifier : Type :=
  list byte → (Statement → result terr (list byte)) → IdentityPolicy → result terr (Statement * BundleMetadata).

Record ConfidentSecurityVerifier := MkVerifier {
  transparencyVerifier : TransparencyVerifier;
  transparencyIdentityPolicy : IdentityPolicy;
}.
Definition NewConfidentSecurityVerifier := MkVerifier.

Definition of_terr {A} (msg : string) (r : result terr A) : result failure A := wrap_err (λ _, Failed (ErrorNew msg)) r.

Definition ImageSigstoreBundle (imageSigstoreBundle : piece) (v : TransparencyVerifier) (identity : IdentityPolicy) :
    result failure ImageManifest :=
  '(statement, _) ← of_terr "failed to verify statement integrity" (v (Evidence.Data imageSigstoreBundle) manifest_processor identity);
  of_terr "image manifest" (ToImageManifest statement).

(** Step 1. *)
Definition verify_tee (evidence : list piece) : result failure unit :=
  let sevSnpTeeEvidence := maybeGetEvidencePieceFromList Evidence.SevSnpReport evidence in
  let tdxTeeEvidence := maybeGetEvidencePieceFromList Evidence.TdxReport evidence in
  match sevSnpTeeEvidence, tdxTeeEvidence with
  | Some p, None => fwrap "failed to verify SEVSNP report" (SEVSNPReport p false)
  | None, Some p =>
      rootCert ← GetTDXRootCert;
      collateralPiece ← lib "insufficient evidence for tdx collateral provided"
        (maybeGetEvidencePieceFromList Evidence.TdxCollateral evidence);
      tdxCollateral ← unmarshal_collateral (Evidence.Data collateralPiece);
      fwrap "failed to verify TDX report" (TDXReport rootCert tdxCollateral p)
  | _, _ => fail "expected exactly one TEE evidence piece"
  end.

Definition rsa_key (msg : string) (k : public_key) : result failure (Z * Z) :=
  match k with RSAPublicKey N E => Ok (N, E) | _ => fail msg end.

(** Step 2. *)
Definition verify_ak (evidence : list piece) : result failure (Z * Z) :=
  let azureAKCertificateEvidence := maybeGetEvidencePieceFromList Evidence.AzureAkCertificate evidence in
  let gceAKIntermediateCertificateEvidence := maybeGetEvidencePieceFromList Evidence.GceAkIntermediateCertificate evidence in
  match gceAKIntermediateCertificateEvidence, azureAKCertificateEvidence with
  | Some p, None =>
      akIntermediateCertificate ← fwrap "failed to verify GCE AK Intermediate Certificate" (GceAkIntermediateCertificate p);
      gceAKCertificateEvidence ← lib "insufficient evidence for TPM attestation key provided"
        (maybeGetEvidencePieceFromList Evidence.GceAkCertificate evidence);
      '(akCertificate, _) ← GceAkCertificate akIntermediateCertificate gceAKCertificateEvidence;
      rsa_key "not able to derive public key from certificate" (cert_PublicKey akCertificate)
  | None, Some p =>
      akCertificate ← fwrap "failed to verify Azure AK Certificate" (AzureAkCertificate p);
      rsa_key "not able to derive public key from Azure AK certificate" (cert_PublicKey akCertificate)
  | _, _ => fail "insufficient evidence for TPM attestation key provided"
  end.

(** Step 3: the name of the object whose creation was certified. *)
Definition verify_rek (akPubKey : Z * Z) (evidence : list piece) : result failure (list byte) :=
  certifyREKSignedEvidence ← lib "no evidence for REK creation provided"
    (maybeGetEvidencePieceFromList Evidence.CertifyRekCreation evidence);
  certifyCreationResponse ← fwrap "failed to verify REK creation" (REKCreation akPubKey certifyREKSignedEvidence);
  tpmuAttest ← fwrap "failed to parse REK creation response" (lib "tpm2" (Contents certifyCreationResponse));
  fwrap "failed to parse REK creation info" (lib "tpm2" (Attested_Creation tpmuAttest)).

(** Step 8, with the key in the form of the KEM. *)
Definition verify_key (objectName : list byte) (validatedPCRValues : Evidence.PCRValues) (evidence : list piece) :
    result failure ComputeData :=
  match maybeGetEvidencePieceFromList Evidence.TpmtPublic evidence with
  | None => Err Panicked
  | Some tpmtPublicEvidence =>
      _ ← fwrap "failed to verify TPMT public key" (TPMT objectName tpmtPublicEvidence validatedPCRValues);
      tpmtPublic ← lib "failed to unmarshal TPMT public key" (Unmarshal_TPMTPublic (Evidence.Data tpmtPublicEvidence));
      rekECCPublicKey ← fwrap "failed to cast rek public key to ECC" (HpkePub tpmtPublic);
      nodePubKeyB ← lib "failed to marshal public key to bytes" (Kem_MarshalBinary rekECCPublicKey);
      Ok (MkComputeData KEM_P256_HKDF_SHA256 KDF_HKDF_SHA256 AEAD_AES128GCM nodePubKeyB)
  end.

Definition VerifyComputeNode (v : ConfidentSecurityVerifier) (evidence : list piece) : result failure ComputeData :=
  if (length evidence =? 0)%nat then fail "no evidence provided"
  else
    _ ← verify_tee evidence;
    akPubKey ← verify_ak evidence;
    objectName ← verify_rek akPubKey evidence;
    _ ← verify_nvidia Evidence.NvidiaETA Evidence.NvidiaCCIntermediateCertificate evidence;
    _ ← verify_nvidia Evidence.NvidiaSwitchETA Evidence.NvidiaSwitchIntermediateCertificate evidence;
    tpmQuote ← lib "no tpm quote provided" (maybeGetEvidencePieceFromList Evidence.TpmQuote evidence);
    validatedPCRValues ← fwrap "failed to validate tpm quote" (TPMQuote akPubKey tpmQuote);
    imageSigstoreBundle ← lib "no image sigstore bundle provided"
      (maybeGetEvidencePieceFromList Evidence.ImageSigstoreBundle evidence);
    imageManifest ← fwrap "failed to validate image sigstore bundle"
      (ImageSigstoreBundle imageSigstoreBundle (transparencyVerifier v) (transparencyIdentityPolicy v));
    let eventLog := maybeGetEvidencePieceFromList Evidence.EventLog evidence in
    _ ← fwrap "failed to validate event log" (EventLog (Evidence.ToMRs validatedPCRValues) eventLog imageManifest);
    verify_key objectName validatedPCRValues evidence.

(** *** The verifier of test deployments

    Five pieces: the attestation key as it is, the creation of the REK, a quote, the
    REK, and data signed with a shared secret. *)

Class HmacLib := { hmac_sha256 : list byte → list byte → list byte }.

Definition Fake_VerifyComputeNode {HM : HmacLib} (sharedSecret : list byte) (evidence : list piece) : result failure ComputeData :=
  match evidence with
  | [akPublicEvidence; rekCreation; quote; tpmt; signed] =>
      akTPMPTPublic ← lib "failed to unmarshal ak" (Unmarshal_TPMTPublic (Evidence.Data akPublicEvidence));
      akPublicKey ← fwrap "failed convert tpmpt to get ak public key" (TpmPub akTPMPTPublic);
      akPublicKeyRSA ← rsa_key "expected ak to be an rsa key" akPublicKey;
      certifyCreationResponse ← fwrap "failed to verify REK creation" (REKCreation akPublicKeyRSA rekCreation);
      tpmuAttest ← fwrap "failed to get rek creation response contents" (lib "tpm2" (Contents certifyCreationResponse));
      objectName ← fwrap "failed to parse REK creation info" (lib "tpm2" (Attested_Creation tpmuAttest));
      validatedPCRValues ← fwrap "failed to validate tpm quote" (TPMQuote akPublicKeyRSA quote);
      _ ← fwrap "failed to verify TPMT public key" (TPMT objectName tpmt validatedPCRValues);
      tpmtPublic ← lib "failed to unmarshal TPMT public key" (Unmarshal_TPMTPublic (Evidence.Data tpmt));
      let calcSig := hmac_sha256 sharedSecret (Evidence.Data signed) in
      if negb (bool_decide (Evidence.Signature signed = calcSig)) then fail "incorrect signature on evidence"
      else
        rekECCPublicKey ← fwrap "failed to cast rek public key to ECC" (HpkePub tpmtPublic);
        nodePubKeyB ← lib "failed to marshal public key to bytes" (Kem_MarshalBinary rekECCPublicKey);
        Ok (MkComputeData KEM_P256_HKDF_SHA256 KDF_HKDF_SHA256 AEAD_AES128GCM nodePubKeyB)
  | _ => fail "expected 5 pieces of evidence"
  end.
End verify.

(** ** What a node has shown when it is accepted *)

Section trusted.
Context {X : Evidence.X509Lib} {CL : CertLib} {EC : EmbeddedCerts} {TL : TeeLib} {JW : JwtLib} {H : Sha256Lib} {T : Tpm2} {K : KemLib}
  {RS : RsaLib} {SS : SliceSort} {R : RangeOrder} {U : UrlLib} {J : JsonLib} {M : ManifestJson} {WL : ProtoWire FirmwareLogState}
  {WQ : ProtoWire Evidence.PbTPMQuoteAttestation} {WC : ProtoWire Evidence.PbTDXCollateral}.

(** A statement of the TPM signed by the attestation key. *)
Definition signed_by (ak : Z * Z) (a : TPMSAttest) : Prop :=
  ∃ sig, VerifyPKCS1v15 ak (sha256 (Marshal_TPMSAttest a)) sig = true.

Definition pem_cert (pem : list byte) : option Evidence.certificate := pem_Decode pem ≫= Evidence.ParseCertificate.

(** An RSA key in a certificate below one of the embedded roots: through an
    intermediate below the same root, for an instance that is in production, or
    through the embedded intermediates. *)
Definition certified_key (ak : Z * Z) : Prop :=
  ∃ cert root inters, cert_PublicKey cert = RSAPublicKey ak.1 ak.2 ∧
    x509_Verify cert (filter (λ ext, ext ≠ OidExtensionSubjectAltName) (UnhandledCriticalExtensions cert)) [root] inters = true ∧
    ((pem_cert GCEEKAKRootCert = Some root ∧ (∃ info, GetInstanceInfo cert = Ok info) ∧
        ∃ i, inters = [i] ∧ x509_Verify i (UnhandledCriticalExtensions i) [root] [] = true) ∨
     (pem_cert azureTPMRootCertPEM = Some root ∧ Forall2 (λ pem i, pem_cert pem = Some i) azureTPMIntermediateCertPEMs inters)).

(** Exactly one report of a trusted execution environment, and it verifies. *)
Definition one_tee (evidence : list Evidence.SignedEvidencePiece) : Prop :=
  (∃ p a, maybeGetEvidencePieceFromList Evidence.SevSnpReport evidence = Some p ∧
     maybeGetEvidencePieceFromList Evidence.TdxReport evidence = None ∧
     Unmarshal_SnpAttestation (Evidence.Data p) = Some a ∧ SnpAttestationContext a false = true) ∨
  (∃ p q root c o, maybeGetEvidencePieceFromList Evidence.TdxReport evidence = Some p ∧
     maybeGetEvidencePieceFromList Evidence.SevSnpReport evidence = None ∧
     QuoteToProto (Evidence.Data p) = Some q ∧ pem_cert TDXRootCertBytes = Some root ∧
     RootOfTrustToOptions (certificateToPEMString (Some root)) = Some o ∧ TdxQuote q o (Getter_Get c) = true).

(** The digests measured into a register, and the value it then has: nothing when
    nothing was measured. *)
Definition measured (log : list Event) (i : Z) : list (list byte) := EventDigest <$> filter (λ e, PcrIndex e = i) log.
Definition register_value (ds : list (list byte)) : list byte :=
  match ds with [] => [] | _ => foldl (λ c d, sha256 (c ++ d)) (replicate 32 x00) ds end.

(** Some command line in the log, and every one of them, names the root. *)
Definition booted_from (root : string) (log : list Event) : Prop :=
  let names e := ∃ m, Cmdline.Parse (bytes_string (EventData e)) = Ok m ∧ m !! "confsec.root" = Some root in
  let cmdline e := PcrIndex e = KernelCmdlinePCRIndex ∧ String.prefix "kernel_cmdline:" (bytes_string (EventData e)) = true in
  (∃ e, e ∈ log ∧ cmdline e ∧ names e) ∧ ∀ e, e ∈ log → cmdline e → names e.

Record trusted (statement_ok : list byte → Statement → Prop) (evidence : list Evidence.SignedEvidencePiece) (d : ComputeData)
    (ak : Z * Z) (pcrs : Evidence.PCRValues) (log : FirmwareLogState) (manifest : ImageManifest) (rek : TPMTPublic) : Prop := {
  trusted_tee : one_tee evidence;
  trusted_ak : certified_key ak;
  trusted_quote : ∃ q digest, signed_by ak q ∧ Attested_Quote q = Some digest ∧
    take 32 digest = pcrDigestFromDesiredPcrValuesMap pcrs;
  trusted_image : ∃ b s c cmdline cmdlines, maybeGetEvidencePieceFromList Evidence.ImageSigstoreBundle evidence = Some b ∧
    statement_ok (Evidence.Data b) s ∧ ToImageManifest s = Ok manifest ∧
    CustomData manifest = Some c ∧ KernelCmdlines c = cmdline :: cmdlines ∧ booted_from (ConfsecRoot cmdline) (RawEvents log);
  trusted_log : ∃ p, maybeGetEvidencePieceFromList Evidence.EventLog evidence = Some p ∧ proto_unmarshal (Evidence.Data p) = Some log;
  trusted_secure_boot : SecureBoot log = Some true;
  trusted_registers : ∀ i digest, pcrs !! i = Some digest → i ≠ ModelHashPCRIndex → digest = register_value (measured (RawEvents log) i);
  trusted_rek : ∃ a, signed_by ak a ∧ Attested_Creation a = ObjectName rek ∧ is_Some (ObjectName rek);
  trusted_policy : GetSoftwarePCRPolicyDigest pcrs = Ok (AuthPolicy rek);
  trusted_key : ∃ k, HpkePub rek = Ok k ∧ Kem_MarshalBinary k = Some (cd_PublicKey d);
}.

Lemma signed_attest_ok ak a sig : verify_signed_attest ak a sig = Ok tt → signed_by ak a.
Proof. unfold verify_signed_attest. intros Hv. ok_steps. eexists; eassumption. Qed.

Lemma pem_certificate_ok pem c : pem_certificate pem = Ok c → pem_cert pem = Some c.
Proof. unfold pem_certificate, pem_cert. intros Hc. ok_steps. apply bind_Some. eauto. Qed.

Lemma parse_intermediates_ok pems cs : parse_intermediates pems = Ok cs → Forall2 (λ pem i, pem_cert pem = Some i) pems cs.
Proof.
  induction pems as [|pem pems IH] in cs |- *; cbn [parse_intermediates]; intros Hp; ok_steps; [constructor|].
  constructor; [|auto]. apply bind_Some. eauto.
Qed.

Lemma verify_ak_ok evidence ak : verify_ak evidence = Ok ak → certified_key ak.
Proof.
  unfold verify_ak. intros Hv.
  destruct (maybeGetEvidencePieceFromList Evidence.GceAkIntermediateCertificate evidence) as [p|],
    (maybeGetEvidencePieceFromList Evidence.AzureAkCertificate evidence) as [q|]; try done.
  - ok_steps. unfold GceAkIntermediateCertificate, verifyIntermediateCert, GceAkCertificate, VerifyAKCert in *. cbn [length Nat.eqb] in *.
    ok_steps. destruct (cert_PublicKey _) as [N E'|?|] eqn:Ek; try done. ok_steps. rewrite Ek in *. cbn [rsa_key] in *. ok_steps.
    do 3 eexists. split; [exact Ek|]. split; [eassumption|]. left. split; [by apply pem_certificate_ok|]. split; [eauto|].
    eexists. split; [done|]. congruence.
  - ok_steps. unfold AzureAkCertificate, VerifyAKCert in *. cbn [length Nat.eqb] in *. ok_steps.
    destruct (cert_PublicKey _) as [N E'|?|] eqn:Ek; try done. cbn [rsa_key] in *. ok_steps.
    do 3 eexists. split; [exact Ek|]. split; [eassumption|]. right. split; [apply bind_Some; eauto|by apply parse_intermediates_ok].
Qed.

Lemma verify_tee_ok evidence : verify_tee evidence = Ok tt → one_tee evidence.
Proof.
  unfold verify_tee. intros Hv.
  destruct (maybeGetEvidencePieceFromList Evidence.SevSnpReport evidence) as [p|] eqn:Ep,
    (maybeGetEvidencePieceFromList Evidence.TdxReport evidence) as [q|] eqn:Eq; try done.
  - left. unfold SEVSNPReport in Hv. ok_steps. eauto 10.
  - right. ok_steps. unfold TDXReport in Hv. ok_steps. destruct (RootOfTrustToOptions _) as [o|] eqn:Eo; ok_steps.
    exists q. do 4 eexists. split_and!; try done; [by apply pem_certificate_ok|eassumption..].
Qed.

(** The digests of the log, extended one by one. *)
Lemma checksum_value (log : list Event) i : calculateEventLogChecksum log i = register_value (measured log i).
Proof.
  unfold calculateEventLogChecksum, measured. destruct (filter _ log) as [|e es]; [done|]. cbn [foldl fmap list_fmap register_value].
  unfold extend at 2. cbn [length Nat.eqb]. generalize (replicate 32 x00 ++ EventDigest e). intros b.
  induction es as [|e' es IH] in b |- *; [done|]. cbn [foldl fmap list_fmap]. unfold extend at 2.
  rewrite length_sha256. cbn [Nat.eqb]. apply IH.
Qed.

Lemma check_registers_ok log mrs : check_registers log mrs = Ok tt → ∀ mr, mr ∈ mrs → Evidence.Index mr ≠ ModelHashPCRIndex →
  Evidence.Digest mr = register_value (measured log (Evidence.Index mr)).
Proof.
  induction mrs as [|m mrs IH]; cbn [check_registers]; intros Hc mr Hmr Hi; [by apply not_elem_of_nil in Hmr|].
  destruct (_ || _); [done|]. apply elem_of_cons in Hmr as [->|Hmr].
  - rewrite (proj2 (Z.eqb_neq _ _) Hi) in Hc. ok_steps. rewrite <- checksum_value. done.
  - destruct (Evidence.Index m =? ModelHashPCRIndex); ok_steps; eauto.
Qed.

Lemma ToMRs_elem (pcrs : Evidence.PCRValues) i digest : Evidence.MkMR i digest ∈ Evidence.ToMRs pcrs ↔ pcrs !! i = Some digest.
Proof.
  unfold Evidence.ToMRs. rewrite <- range_map_elem, list_elem_of_fmap. split.
  - by intros ([j d] & [= -> ->] & Hj).
  - intros Hi. by exists (i, digest).
Qed.

Lemma check_cmdlines_ok root log verified b : check_cmdlines root verified log = Ok b →
  (∀ e, e ∈ log → ∃ ok, check_cmdline_event root e = Ok ok) ∧
  (b = true → verified = true ∨ ∃ e, e ∈ log ∧ check_cmdline_event root e = Ok true).
Proof.
  induction log as [|e log IH] in verified |- *; cbn [check_cmdlines]; intros Hc; ok_steps.
  - split; [by intros e ?%not_elem_of_nil|]. eauto.
  - apply IH in Hc as [Hall Hb]. split.
    + intros e' [->|He']%elem_of_cons; eauto.
    + intros [Hv|(e' & He' & ?)]%Hb; [|right; exists e'; split; [by right|done]].
      apply orb_true_iff in Hv as [?| ->]; [by left|]. right. exists e. split; [by left|done].
Qed.

Lemma cmdline_event_ok root e ok : check_cmdline_event root e = Ok ok →
  (ok = true ↔ PcrIndex e = KernelCmdlinePCRIndex ∧ String.prefix "kernel_cmdline:" (bytes_string (EventData e)) = true) ∧
  (ok = true → ∃ m, Cmdline.Parse (bytes_string (EventData e)) = Ok m ∧ m !! "confsec.root" = Some root).
Proof.
  unfold check_cmdline_event. destruct (Z.eqb_spec (PcrIndex e) KernelCmdlinePCRIndex) as [Hi|Hi]; cbn [negb]; [|intros; ok_steps; naive_solver].
  destruct (String.prefix _ _); cbn [negb]; [|intros; ok_steps; naive_solver].
  destruct (Cmdline.Parse _) as [m|] eqn:Em; [|done]. destruct (m !! _) as [r|] eqn:Er; [|done]. intros Hc. ok_steps. naive_solver.
Qed.

Lemma kernel_cmdline_ok log manifest : verifyKernelCmdline log manifest = Ok tt →
  ∃ c cmdline cmdlines, CustomData manifest = Some c ∧ KernelCmdlines c = cmdline :: cmdlines ∧ booted_from (ConfsecRoot cmdline) log.
Proof.
  unfold verifyKernelCmdline. destruct (CustomData manifest) as [c|] eqn:Ec; [|done].
  destruct (KernelCmdlines c) as [|cmdline cmdlines] eqn:Ek; [done|]. intros Hv. ok_steps. exists c, cmdline, cmdlines. split_and!; [done..|].
  destruct (check_cmdlines_ok _ _ _ _ H0) as [Hall Hb]. destruct (Hb eq_refl) as [?|(e & He & Ee)]; [done|]. split.
  - apply cmdline_event_ok in Ee as [Hc Hn]. exists e. split; [done|]. split; [by apply Hc|by apply Hn].
  - intros e' He' Hc'. destruct (Hall e' He') as [ok [Hc Hn]%cmdline_event_ok]. by apply Hn, Hc.
Qed.

Lemma EventLog_ok mrs q manifest : EventLog mrs q manifest = Ok tt →
  ∃ p log, q = Some p ∧ proto_unmarshal (Evidence.Data p) = Some log ∧ SecureBoot log = Some true ∧
    verifyKernelCmdline (RawEvents log) manifest = Ok tt ∧ check_registers (RawEvents log) mrs = Ok tt.
Proof.
  unfold EventLog, getRawEventsAndSecureBootState. destruct q as [p|]; [|done]. intros Hv. ok_steps.
  destruct (SecureBoot _) as [[|]|] eqn:Eb; try done.
  ok_steps. destruct_units. eauto 10.
Qed.

(** The values the quote covers are all that the verifier goes on with. *)
Lemma collect_values (values : Evidence.PCRValues) ks : ks ≡ₚ (range_map values).*1 →
  foldl (λ pcrMap k, <[k := default [] (values !! k)]> pcrMap) ∅ ks = values.
Proof.
  intros Hks. assert (∀ ks m, (∀ k, k ∈ ks → is_Some (values !! k)) → m ⊆ values → (∀ k, is_Some (values !! k) → k ∈ ks ∨ is_Some (m !! k)) →
    foldl (λ pcrMap k, <[k := default [] (values !! k)]> pcrMap) m ks = values) as Hf.
  { clear ks Hks. induction ks as [|k ks IH]; intros m Hk Hm Hc; cbn [foldl].
    - apply map_eq. intros k. destruct (m !! k) as [x|] eqn:Ek; [symmetry; by eapply lookup_weaken|].
      destruct (values !! k) eqn:Ev; [|done]. destruct (Hc k ltac:(by rewrite Ev; eauto)) as [?%not_elem_of_nil|[??]]; [done|congruence].
    - destruct (Hk k) as [x Hx]; [left|]. apply IH; [set_solver|rewrite Hx; by apply insert_subseteq_l|].
      intros k' Hk'. destruct (decide (k = k')) as [<-|]; [rewrite lookup_insert_eq; eauto|rewrite lookup_insert_ne by done]. set_solver. }
  apply Hf; [|apply map_empty_subseteq|]; intros k; rewrite Hks, range_map_keys, range_keys_elem, elem_of_dom; eauto.
Qed.

Lemma TPMQuote_ok ak p pcrs : TPMQuote ak p = Ok pcrs →
  ∃ q digest, signed_by ak q ∧ Attested_Quote q = Some digest ∧ take 32 digest = pcrDigestFromDesiredPcrValuesMap pcrs.
Proof.
  unfold TPMQuote. intros Hv. ok_steps. destruct (Evidence.quote_PCRValues _) as [values|]; [|done]. ok_steps.
  destruct (_ <? _)%nat; [done|]. ok_steps. rewrite collect_values by apply slices_sort_perm. destruct_units.
  do 2 eexists. split_and!; [by eapply signed_attest_ok|eassumption|]. unfold pcrDigestFromDesiredPcrValuesMap, specifiedPcrs.
  by rewrite sorted_keys.
Qed.
End trusted.

(** C4. An accepted node has shown a whole chain.  When the verifier of the client
    accepts a list of evidence, exactly one TEE report in it verifies; there is an RSA
    key certified below an embedded root that signed a quote over the PCR values and
    the creation of the key that is returned, whose policy is the one for exactly
    those values; the event log was made with secure boot and replays to every
    quoted register other than 12; and its command line names the root of the first
    boot entry of an image manifest that is in a bundle signed by an identity of
    the policy, the artifact it names being a subject of that statement. *)
Theorem accepted_node_trusted
    {X : Evidence.X509Lib} {CL : CertLib} {EC : EmbeddedCerts} {TL : TeeLib} {JW : JwtLib} {H : Sha256Lib} {T : Tpm2} {K : KemLib}
    {RS : RsaLib} {SS : SliceSort} {R : RangeOrder} {U : UrlLib} {J : JsonLib} {M : ManifestJson} {WL : ProtoWire FirmwareLogState}
    {WQ : ProtoWire Evidence.PbTPMQuoteAttestation} {WC : ProtoWire Evidence.PbTDXCollateral}
    {L : StructLib} {G : Sigstore} {GL : SigstoreLaws G} (sv : sigstore_verifier) identity evidence d :
  VerifyComputeNode (NewConfidentSecurityVerifier (VerifyStatementWithProcessor sv) identity) evidence = Ok d →
  ∃ ak pcrs log manifest rek,
    trusted (λ b s, genuine identity b s ∧ ∃ artifact, manifest_processor s = Ok artifact ∧ has_artifact s artifact)
      evidence d ak pcrs log manifest rek ∧
    (KEM d, KDF d, AEAD d) = (KEM_P256_HKDF_SHA256, KDF_HKDF_SHA256, AEAD_AES128GCM).
Proof.
  unfold VerifyComputeNode. intros Hv. ok_steps. destruct_units.
  repeat match goal with H : verify_rek _ _ = Ok _ |- _ => unfold verify_rek, REKCreation in H end.
  repeat match goal with H : ImageSigstoreBundle _ _ _ = Ok _ |- _ => unfold ImageSigstoreBundle, of_terr in H end.
  unfold verify_key, TPMT in Hv. destruct (maybeGetEvidencePieceFromList Evidence.TpmtPublic evidence) as [rekp|]; [|done].
  ok_steps. destruct_units. rename select (EventLog _ _ _ = _) into Hlog. apply EventLog_ok in Hlog as (lp & log & Hlp & Hlog & Hsb & Hk & Hr).
  apply kernel_cmdline_ok in Hk as (c & cmdline & cmdlines & Hc & Hcs & Hb).
  do 5 eexists. split; [constructor|reflexivity].
  - by apply verify_tee_ok.
  - by eapply verify_ak_ok.
  - by eapply TPMQuote_ok.
  - rename select (transparencyVerifier _ _ _ _ = _) into Ht. apply Processor_genuine in Ht. eauto 15.
  - eauto.
  - done.
  - intros i digest Hi Hne. by apply (check_registers_ok _ _ Hr (Evidence.MkMR i digest)); [apply ToMRs_elem|].
  - eexists. split; [by eapply signed_attest_ok|]. split; [by etrans|]. eauto.
  - done.
  - eauto.
Qed.

(** ** What binds the event log *)

Section forging.
Context {X : Evidence.X509Lib} {H : Sha256Lib} {J : JsonLib} {WL : ProtoWire FirmwareLogState}.

Definition is_cmdline (e : Event) : bool :=
  (PcrIndex e =? KernelCmdlinePCRIndex) && String.prefix "kernel_cmdline:" (bytes_string (EventData e)).
(** The command line of an event replaced by one that names a root, the digest
    that was measured kept. *)
Definition forged_cmdline (root : string) : string := Cmdline.render [("kernel_cmdline:", None); ("confsec.root", Some root)].
Definition forge (root : string) (e : Event) : Event :=
  if is_cmdline e then MkEvent (PcrIndex e) (string_bytes (forged_cmdline root)) (EventDigest e) else e.

Lemma measured_forge root log i : measured (forge root <$> log) i = measured log i.
Proof.
  unfold measured. induction log as [|e log IH]; [done|]. cbn [fmap list_fmap]. rewrite !filter_cons.
  assert (PcrIndex (forge root e) = PcrIndex e ∧ EventDigest (forge root e) = EventDigest e) as [-> Hd] by (unfold forge; by destruct (is_cmdline e)).
  case_decide; cbn [fmap list_fmap]; [by rewrite Hd, IH|done].
Qed.

Lemma check_registers_ext log log' mrs : (∀ i, measured log i = measured log' i) → check_registers log mrs = check_registers log' mrs.
Proof.
  intros Hm. induction mrs as [|mr mrs IH]; [done|]. cbn [check_registers]. by rewrite !checksum_value, Hm, IH.
Qed.

Lemma check_registers_model log mrs : Forall (λ mr, Evidence.Index mr = ModelHashPCRIndex) mrs → check_registers log mrs = Ok tt.
Proof. induction 1 as [|mr mrs Hm _ IH]; [done|]. cbn [check_registers]. rewrite Hm. exact IH. Qed.

Lemma forged_parse root : forallb Cmdline.is_ascii (chars root) = true →
  ∃ m, Cmdline.Parse (forged_cmdline root) = Ok m ∧ m !! "confsec.root" = Some root.
Proof.
  intros Hr. eexists. split; [apply Cmdline.Parse_render|].
  - repeat constructor; cbn [fst snd]; try done; by vm_compute.
  - unfold foldl, Cmdline.assign. cbn [fst snd default]. apply lookup_insert_eq.
Qed.

Lemma forged_event root e : forallb Cmdline.is_ascii (chars root) = true →
  check_cmdline_event root (forge root e) = Ok (is_cmdline e).
Proof.
  intros Hr. unfold forge. destruct (is_cmdline e) eqn:Ec.
  - unfold check_cmdline_event. apply andb_true_iff in Ec as [Hi _]. cbn [PcrIndex EventData]. rewrite Hi. cbn [negb].
    rewrite bytes_string_bytes. destruct (forged_parse root Hr) as (m & -> & ->). by rewrite bool_decide_true.
  - unfold check_cmdline_event. unfold is_cmdline in Ec. destruct (_ =? _); [|done]. cbn [negb andb] in *. by rewrite Ec.
Qed.

Lemma forged_events root log verified : forallb Cmdline.is_ascii (chars root) = true →
  check_cmdlines root verified (forge root <$> log) = Ok (verified || existsb is_cmdline log).
Proof.
  intros Hr. induction log as [|e log IH] in verified |- *; cbn [fmap list_fmap check_cmdlines existsb]; [by rewrite orb_false_r|].
  rewrite (forged_event _ _ Hr). cbn [mbind result_bind]. by rewrite IH, orb_assoc.
Qed.
End forging.

(** C39. The command line that is checked is not the one that was measured.  Take any
    log made with secure boot that replays to the quoted registers, whatever command
    line it has, or any log at all when only register 12 is quoted, and write the
    root of the image manifest into its command lines without changing the digests:
    the log that results is accepted. *)
Theorem event_log_unbound {X : Evidence.X509Lib} {H : Sha256Lib} {J : JsonLib} {WL : ProtoWire FirmwareLogState} log mrs p manifest c cmdline cmdlines :
  CustomData manifest = Some c → KernelCmdlines c = cmdline :: cmdlines →
  forallb Cmdline.is_ascii (chars (ConfsecRoot cmdline)) = true →
  existsb is_cmdline log = true →
  check_registers log mrs = Ok tt ∨ Forall (λ mr, Evidence.Index mr = ModelHashPCRIndex) mrs →
  proto_unmarshal (Evidence.Data p) = Some (MkLog (forge (ConfsecRoot cmdline) <$> log) (Some true)) →
  EventLog mrs (Some p) manifest = Ok tt.
Proof.
  intros Hc Hcs Hr Hl Hregs Hp. unfold EventLog, getRawEventsAndSecureBootState. rewrite Hp. cbn [lib mbind result_bind fwrap wrap_err SecureBoot RawEvents].
  unfold verifyKernelCmdline. rewrite Hc, Hcs, (forged_events _ _ _ Hr), Hl. cbn [orb mbind result_bind fwrap wrap_err].
  destruct Hregs as [Hregs|Hregs]; [|by apply check_registers_model].
  rewrite <- Hregs. apply check_registers_ext. intros. apply measured_forge.
Qed.

(** ** A node that is accepted, and one that should not be *)

Section demo.
#[local] Instance demo_json : JsonLib := text_json.
#[local] Instance demo_sha : Sha256Lib := toy_sha256.
#[local] Instance demo_struct : StructLib := text_struct.
#[local] Instance demo_sigstore : Sigstore := code_sigstore.
#[local] Instance demo_sigstore_laws : SigstoreLaws demo_sigstore := code_sigstore_laws.
#[local] Instance demo_url : UrlLib := text_url.
#[local] Instance demo_sort : SliceSort := insertion_slice_sort.
#[local] Instance demo_order : RangeOrder := elements_order.
#[local] Instance demo_x509 : Evidence.X509Lib := Evidence.demo_x509.

(** Certificate 1 is the root, the others have one RSA key. *)
#[local] Instance demo_certs : CertLib := {|
  cert_PublicKey _ := RSAPublicKey 3233 17; cert_Extensions _ := []; UnhandledCriticalExtensions _ := [OidExtensionSubjectAltName];
  x509_Verify c exts roots _ := bool_decide (exts = []) && bool_decide (roots = [x01]);
  pem_Decode b := Some b; pem_EncodeToMemory b := Some b; asn1_InstanceInfo _ := None;
  RevocationList := unit; ParseRevocationList _ := None; Crl_CheckSignatureFrom _ _ := false; Cert_CheckSignatureFrom _ _ := false;
|}.
#[local] Instance demo_embedded : EmbeddedCerts := {|
  GCEEKAKRootCert := [x02]; azureTPMIntermediateCertPEMs := [[x03]]; azureTPMRootCertPEM := [x01]; NRASRootCert := [x04];
  TDXRootCertBytes := [x05] |}.
#[local] Instance demo_tee : TeeLib := {|
  snp_attestation := unit; Unmarshal_SnpAttestation _ := Some tt; SnpAttestationContext _ _ := true;
  tdx_quote := unit; QuoteToProto _ := None; tdx_options := unit; RootOfTrustToOptions _ := None; TdxQuote _ _ _ := false;
  url_Path u := Some u |}.
#[local] Instance demo_jwt : JwtLib := {| jwt_Parse _ _ := None |}.

(** A public area is its policy, and its own name; an attestation is a byte for its
    kind and the data; a signature is the digest. *)
#[local] Instance demo_tpm2 : Tpm2 := {|
  TPMTPublic := list byte; Unmarshal_TPMTPublic b := Some b; pub_Type _ := TPMAlgECC;
  RSADetail _ := None; Unique_RSA _ := None; ECCDetail _ := Some TPMECCNistP256; Unique_ECC _ := Some ([x07], [x08]);
  ObjectName p := Some p; AuthPolicy p := p;
  TPMSAttest := list byte; Unmarshal_TPMSAttest b := Some b; Marshal_TPMSAttest b := b;
  Attested_Quote a := match a with x00 :: d => Some d | _ => None end;
  Attested_Creation a := match a with x01 :: d => Some d | _ => None end;
  TPM2BAttest := list byte; Unmarshal_TPM2BAttest b := Some b; Contents b := Some b;
  TPMTSignature := list byte; Unmarshal_TPMTSignature b := Some b; RSASSA b := Some b;
  PCClientCompatible_PCRs ks := byte_of <$> ks; PolicyPCR_Update sel d := Some (sha256 (sel ++ d));
|}.
#[local] Instance demo_rsa : RsaLib := {| VerifyPKCS1v15 _ d sig := bool_decide (d = sig) |}.
#[local] Instance demo_kem : KemLib := {| kem_key := list byte; Kem_UnmarshalBinaryPublicKey b := Some b; Kem_MarshalBinary b := Some b |}.

Definition demo_kernel (root : string) : KernelCmdline :=
  MkKernelCmdline None None None None "" "" "" "" "" "" root "" "" "" "" "" "" "" "" "" "" "" "" "".
Definition demo_manifest (id : list byte) : ImageManifest :=
  MkManifest "" "" 0 None (bytes_string id) "" (Some (MkCustomData ∅ [demo_kernel "abc"] "")).
#[local] Instance demo_manifest_json : ManifestJson := {|
  manifest_Marshal m := Some (string_bytes (ArtifactID m)); manifest_Unmarshal b := Some (demo_manifest b) |}.

#[local] Instance demo_log_wire : ProtoWire FirmwareLogState := record_wire
  (λ l, ((λ e, (PcrIndex e, bytes_string (EventData e), bytes_string (EventDigest e))) <$> RawEvents l, SecureBoot l))
  (λ c, MkLog ((λ e, MkEvent e.1.1 (string_bytes e.1.2) (string_bytes e.2)) <$> c.1) c.2).
#[local] Instance demo_quote_wire : ProtoWire Evidence.PbTPMQuoteAttestation := record_wire
  (λ q, (bytes_string (Evidence.pb_tpmst_attest_quote q), (λ m : gmap Z (list byte), bytes_string <$> m) <$> Evidence.pb_pcr_values q))
  (λ c, Evidence.MkPbQuote (string_bytes c.1) ((λ m : gmap Z string, string_bytes <$> m) <$> c.2)).
#[local] Instance demo_collateral_wire : ProtoWire Evidence.PbTDXCollateral :=
  {| proto_marshal _ := None; proto_unmarshal _ := None |}.
Definition encoded {M} {W : ProtoWire M} (m : M) : list byte := default [] (proto_marshal m).

Definition demo_statement : @bundle _ _ code_sigstore :=
  ((StatementTypeUri, [("image-manifest", {[ "sha256" := hex_encode (sha256 (string_bytes "image 7")) ]} : gmap string string)],
    ImageManifestPredicateType,
    Some ({[ "imageManifest" := EncodeToString StdEncoding (string_bytes "image 7") ]} : gmap string string)), "ci").
Definition demo_event (root : string) : Event := MkEvent 8 (string_bytes ("kernel_cmdline: quiet confsec.root=" +:+ root)) (string_bytes root).
Definition demo_log (root : string) : list Event := [MkEvent 4 [x00] [x09]; demo_event root].
Definition demo_pcrs (root : string) : Evidence.PCRValues :=
  {[ 4 := calculateEventLogChecksum (demo_log root) 4; 8 := calculateEventLogChecksum (demo_log root) 8; 12 := [x01; x02] ]}.

(** The evidence of a node booted from a root, with a log. *)
Definition demo_evidence (root : string) (log : list Event) : list Evidence.SignedEvidencePiece :=
  let quote := x00 :: pcrDigestFromDesiredPcrValuesMap (demo_pcrs root) in
  let policy := default [] (PolicyPCR_Update (pcrSelectionFromDesiredPcrValuesMap (demo_pcrs root)) (pcrDigestFromDesiredPcrValuesMap (demo_pcrs root))) in
  [ Evidence.MkPiece Evidence.SevSnpReport [] [];
    Evidence.MkPiece Evidence.AzureAkCertificate [x06] [];
    Evidence.MkPiece Evidence.CertifyRekCreation (x01 :: policy) (sha256 (x01 :: policy));
    Evidence.MkPiece Evidence.TpmQuote (encoded (Evidence.MkPbQuote quote (Some (demo_pcrs root)))) (sha256 quote);
    Evidence.MkPiece Evidence.ImageSigstoreBundle (pos_bytes (encode demo_statement)) [];
    Evidence.MkPiece Evidence.EventLog (encoded (MkLog log (Some true))) [];
    Evidence.MkPiece Evidence.TpmtPublic policy [] ].

Definition demo_policy : IdentityPolicy := MkIdentityPolicy "issuer" "" "ci" "".
Definition demo_verify (evidence : list Evidence.SignedEvidencePiece) : result failure ComputeData :=
  VerifyComputeNode (NewConfidentSecurityVerifier (VerifyStatementWithProcessor (G:=code_sigstore) tt) demo_policy) evidence.
Definition demo_data : ComputeData :=
  MkComputeData KEM_P256_HKDF_SHA256 KDF_HKDF_SHA256 AEAD_AES128GCM (default [] (uncompressed_point 7 8)).

Lemma demo_accepted : demo_verify (demo_evidence "abc" (demo_log "abc")) = Ok demo_data.
Proof. vm_compute. reflexivity. Qed.

(** A node that booted from another root is refused with its own log, and accepted
    with the forged one. *)
Lemma demo_forged :
  is_ok (demo_verify (demo_evidence "evil" (demo_log "evil"))) = false ∧
  demo_verify (demo_evidence "evil" (forge "abc" <$> demo_log "evil")) = Ok demo_data.
Proof. split; vm_compute; reflexivity. Qed.

Lemma accepted_node_trusted_witness : demo_verify (demo_evidence "abc" (demo_log "abc")) = Ok demo_data ∧
  ∃ ak pcrs log manifest rek, trusted
    (λ b s, genuine demo_policy b s ∧ ∃ artifact, manifest_processor s = Ok artifact ∧ has_artifact s artifact)
    (demo_evidence "abc" (demo_log "abc")) demo_data ak pcrs log manifest rek.
Proof.
  split; [exact demo_accepted|].
  destruct (accepted_node_trusted (G:=code_sigstore) _ _ _ _ demo_accepted) as (ak & pcrs & log & manifest & rek & Ht & _).
  by exists ak, pcrs, log, manifest, rek.
Defined.

Definition demo_forged_piece : Evidence.SignedEvidencePiece :=
  Evidence.MkPiece Evidence.EventLog (encoded (MkLog (forge "abc" <$> demo_log "evil") (Some true))) [].

Lemma event_log_unbound_witness :
  EventLog (Evidence.ToMRs (demo_pcrs "evil")) (Some demo_forged_piece) (demo_manifest []) = Ok tt.
Proof.
  apply (event_log_unbound (demo_log "evil") _ _ _ (MkCustomData ∅ [demo_kernel "abc"] "") (demo_kernel "abc") []).
  - reflexivity.
  - reflexivity.
  - reflexivity.
  - reflexivity.
  - left. vm_compute. reflexivity.
  - vm_compute. reflexivity.
Defined.
End demo.
