(* ===== verification/RouterCom.v ===== *)
(** The compute node's side of a request ([cmd/mem-compute/router_com_lib.go]):
    the service in front of the model takes the headers the router set, opens the
    request with the key in the TPM and seals the answer; what it needs of its own
    evidence; and [PCRPolicySession] of [tpm/tpm.go]. *)

From stdpp Require Import pretty.
From S2P Require Import Prelude Bytes Base64 GoLib GoStrings Http Messages TpmKeys TpmHpke.
From S2P Require RouterApi RouterHttp Evidence Verify.

Definition AttestPCRSelection : list Z := [0; 1; 2; 3; 4; 5; 7; 8; 12].

(** ** The TPM's sessions *)

Class SessionTpm := {
  session : Type;
  tpm2_PolicySession : option session;
  tpm2_PolicyPCR : session → list byte → list byte → option unit;  (* selection and digest *)
  (** [tpm2.ECDHZGen] with a key handle and its name, authorised by a session *)
  tpm2_ECDHZGen : session → Z → list byte → list byte * list byte → option (option (list byte * list byte));
}.

Section node.
Context {H : Sha256Lib} {T : Tpm2} {K : KemLib} {KD : HkdfLib} {A : AeadLib} {SO : SliceSort} {R : RangeOrder}.
Context {X : Evidence.X509Lib} {WQ : ProtoWire Evidence.PbTPMQuoteAttestation} {WE : ProtoWire PbError}.
Context {L : MessageLib} {ST : SessionTpm}.

(** The session, and the sessions left open. *)
Definition PCRPolicySession (desiredPcrValues : gmap Z (list byte)) : result failure session * list session :=
  match tpm2_PolicySession with
  | None => (fail "tpm2", [])
  | Some s =>
      let pcrSelection := pcrSelectionFromDesiredPcrValuesMap desiredPcrValues in
      let pcrHash := pcrDigestFromDesiredPcrValuesMap desiredPcrValues in
      match tpm2_PolicyPCR s pcrSelection pcrHash with
      | None => (fail "tpm2", [s])
      | Some _ => (Ok s, [s])
      end
  end.

(** ** The service *)

Record RouterComService := MkRouterCom {
  pubKey : kem_key;
  pubKeyNameBytes : list byte;
  pcrValues : gmap Z (list byte);
  REKHandle : Z;
  rc_evidence : list Evidence.SignedEvidencePiece;
  shutdowns : list Z;  (* when the goroutines of the certificates end the process *)
}.

Definition tpmptToPubKeyBytes (data : list byte) : result failure (list byte) :=
  tpmtPub ← lib "failed to unmarshal tpmpt public key" (Unmarshal_TPMTPublic data);
  kemPub ← fwrap "failed to convert tpmpt public key to hpke public key" (HpkePub tpmtPub);
  lib "failed to marshal public key to bytes" (Kem_MarshalBinary kemPub).

(** The variables of the loop over the evidence. *)
Record scan_state := MkScan {
  sc_pubKeyBytes : list byte;
  sc_name : list byte;
  sc_pcrs : gmap Z (list byte);
  sc_shutdowns : list Z;
}.

(** [NotAfter] of a certificate. *)
Context (NotAfter : Evidence.certificate → Z).

Definition scan_item (s : scan_state) (item : Evidence.SignedEvidencePiece) : result failure scan_state :=
  match Evidence.Type_ item with
  | Evidence.TpmtPublic =>
      b ← fwrap "failed to extract rek public key from evidence" (tpmptToPubKeyBytes (Evidence.Data item));
      Ok (MkScan b (Evidence.Signature item) (sc_pcrs s) (sc_shutdowns s))
  | Evidence.TpmQuote =>
      quotePB ← fwrap "failed to unmarshal tpm quote to protobuf" (Verify.unmarshal_quote (Evidence.Data item));
      match Evidence.quote_PCRValues quotePB with
      | None => Err Panicked
      | Some values => Ok (MkScan (sc_pubKeyBytes s) (sc_name s) values (sc_shutdowns s))
      end
  | Evidence.NvidiaCCIntermediateCertificate | Evidence.NvidiaSwitchIntermediateCertificate =>
      cert ← lib "failed to parse nvidia intermediate certificate" (Evidence.ParseCertificate (Evidence.Data item));
      Ok (MkScan (sc_pubKeyBytes s) (sc_name s) (sc_pcrs s) (sc_shutdowns s ++ [NotAfter cert - minute]))
  | _ => Ok s
  end.
Fixpoint scan_evidence (s : scan_state) (items : list Evidence.SignedEvidencePiece) : result failure scan_state :=
  match items with [] => Ok s | item :: items => s ← scan_item s item; scan_evidence s items end.

Fixpoint golden_loop (pcrValues : gmap Z (list byte)) (pcrs : list Z) (golden : gmap Z (list byte)) :
    result failure (gmap Z (list byte)) :=
  match pcrs with
  | [] => Ok golden
  | pcr :: pcrs =>
      if 2 ^ 32 - 1 <? pcr then fail "unexpected pcr value, does not fit in uint32"
      else match pcrValues !! pcr with
           | None => fail "config is missing pcr value"
           | Some val => golden_loop pcrValues pcrs (<[pcr := val]> golden)
           end
  end.

Definition NewRouterCom (rekHandle : Z) (evidence : list Evidence.SignedEvidencePiece) : result failure RouterComService :=
  s ← scan_evidence (MkScan [] [] ∅ []) evidence;
  if (length (sc_pubKeyBytes s) =? 0)%nat then fail "failed to find public key in evidence"
  else if (length (sc_name s) =? 0)%nat then fail "failed to find public key name in evidence"
  else if (size (sc_pcrs s) =? 0)%nat then fail "failed to find pcr values in evidence"
  else
    key ← lib "failed to unmarshal public key" (Kem_UnmarshalBinaryPublicKey (sc_pubKeyBytes s));
    golden ← golden_loop (sc_pcrs s) AttestPCRSelection ∅;
    Ok (MkRouterCom key (sc_name s) golden rekHandle evidence (sc_shutdowns s)).

(** [tpmSuiteAdapter.NewReceiver]: each key agreement runs in a session of its
    own; the outcome of closing it is lost. *)
Definition ecdhZGenWithTPM (s : RouterComService) : ECDHZGenFunc := λ pubPoint,
  sess ← fwrap "failed to create tpm session" (PCRPolicySession (pcrValues s)).1;
  ECDHZGen (tpm2_ECDHZGen sess (REKHandle s) (pubKeyNameBytes s)) pubPoint.
Definition NewReceiver (s : RouterComService) (info : list byte) : Receiver :=
  TpmHpke.NewReceiver (pubKey s) info (ecdhZGenWithTPM s).

(** ** Requests *)

Record RequestParams := MkRequestParams { MediaType : string; EncapsulatedKey : list byte; CreditAmount : Z }.

Definition requestParams (h : Header) : result goerror RequestParams :=
  let mediaType := Get h "Content-Type" in
  if negb (IsRequestMediaType mediaType) then Err (ErrorNew "invalid media type")
  else
    let b64EncapKey := Get h RouterApi.EncapsulatedKeyHeader in
    if (String.length b64EncapKey =? 0)%nat || (512 <? String.length b64EncapKey)%nat then Err (ErrorNew "invalid encapsulated key")
    else match DecodeString StdEncoding b64EncapKey with
         | None => Err (ErrorNew "invalid encapsulated key")
         | Some encapKey =>
             match ParseInt (Get h RouterHttp.NodeCreditAmountHeader) with
             | None => Err (ErrorNew "invalid credit amount")
             | Some creditAmount =>
                 if creditAmount <=? 0 then Err (ErrorNew "credit amount must be greater than 0")
                 else Ok (MkRequestParams mediaType encapKey creditAmount)
             end
         end.

(** The message of [requestParams], which is made to be shown. *)
Definition public_message (e : goerror) : string := match e with ErrorNew m | ErrorWrap m _ => m end.

(** A plain response, or one whose body is sealed. *)
Inductive node_response := PlainResponse (w : ResponseWriter) | SealedResponse (h : Header) (status : Z) (body : ciphertext).

(** [twoway] makes a receiver of the adapter, and the answer is the constant one
    of the source. *)
Context (NewMultiRequestReceiver : Receiver → result goerror receiver).
Context (mk_response : Z → Header → list byte → http_response).

Definition hello : http_response :=
  mk_response StatusOK {[ "Content-Type" := ["application/json"] ]} (string_bytes "hello world!").

Definition generateHandler (s : RouterComService) (header : Header) (body : ciphertext) : node_response :=
  match requestParams header with
  | Err err => PlainResponse (BinaryBadRequest (public_message err) new_writer)
  | Ok params =>
      match NewMultiRequestReceiver (NewReceiver s []) with
      | Err err => PlainResponse (BinaryBadRequest (public_message err) new_writer)
      | Ok rcv =>
          match DecapsulateRequest rcv (EncapsulatedKey params) (MediaType params) body with
          | Err _ => PlainResponse (BinaryBadRequest "invalid request" new_writer)
          | Ok (_, opener) =>
              match EncapsulateResponse opener hello with
              | Err _ => PlainResponse (BinaryServerError new_writer)
              | Ok (encapResp, encapRespMediaType) =>
                  SealedResponse (SetHeader "Content-Type" encapRespMediaType ∅) StatusOK encapResp
              end
          end
      end
  end.

(** [httpfmt.JSONHealthCheck]. *)
Definition JSONHealthCheck (w : ResponseWriter) : ResponseWriter :=
  let body := string_bytes "{" ++ [x22] ++ string_bytes "status" ++ [x22; x3a; x22] ++ string_bytes "OK" ++ [x22] ++ string_bytes "}" in
  WriteBody body
    (WriteHeader StatusOK
      (on_header (λ h, SetHeader "Content-Length" (pretty (Z.of_nat (length body)))
         (SetHeader "Content-Type" "application/json" h)) w)).

(** The mux has the patterns [GET /_health], which [HEAD] matches too, and
    [POST /]; paths are clean. *)
Definition mux (s : RouterComService) (method path : string) (header : Header) (body : ciphertext) : node_response :=
  if bool_decide (path = "/_health") && (bool_decide (method = "GET") || bool_decide (method = "HEAD"))
  then PlainResponse (JSONHealthCheck new_writer)
  else if bool_decide (method = "POST") then generateHandler s header body
  else
    let allow := if bool_decide (path = "/_health") then "GET, HEAD, POST" else "POST" in
    PlainResponse (http_Error "Method Not Allowed" 405 (on_header (SetHeader "Allow" allow) new_writer)).

Definition ServeHTTP (s : RouterComService) (method path : string) (header : Header) (body : ciphertext) : node_response :=
  if bool_decide (Get header "X-Confsec-Ping" = "routercom") then PlainResponse (WriteBody (string_bytes "routercom") new_writer)
  else mux s method path header body.

(** ** The evidence of the node *)

Lemma golden_loop_spec pcrs vals acc golden :
  golden_loop vals pcrs acc = Ok golden →
  Forall (λ p, is_Some (vals !! p)) pcrs ∧ ∀ p, golden !! p = if decide (p ∈ pcrs) then vals !! p else acc !! p.
Proof.
  induction pcrs as [|pcr pcrs IH] in acc |- *; cbn [golden_loop]; intros Hg; [injection Hg as ->; split; [constructor|done]|].
  destruct (2 ^ 32 - 1 <? pcr); [done|]. destruct (vals !! pcr) as [val|] eqn:E; [|done].
  apply IH in Hg as (Hf & Hl). split; [constructor; [by eexists|done]|].
  intros p. rewrite Hl. destruct (decide (p ∈ pcrs)) as [Hin|Hin].
  - rewrite decide_True; [done|by right].
  - destruct (decide (p = pcr)) as [->|Hne].
    + rewrite decide_True by left. by rewrite lookup_insert_eq.
    + rewrite decide_False, lookup_insert_ne; [done|done|]. by intros [?|?]%elem_of_cons.
Qed.

(** What a scan of the whole list leaves. *)
Definition from_key (name : list byte) (items : list Evidence.SignedEvidencePiece) : Prop :=
  name = [] ∨ ∃ i, i ∈ items ∧ Evidence.Type_ i = Evidence.TpmtPublic ∧ name = Evidence.Signature i ∧ is_Some (Unmarshal_TPMTPublic (Evidence.Data i)).
Definition from_quote (vals : gmap Z (list byte)) (items : list Evidence.SignedEvidencePiece) : Prop :=
  vals = ∅ ∨ ∃ i q, i ∈ items ∧ Evidence.Type_ i = Evidence.TpmQuote ∧ Verify.unmarshal_quote (Evidence.Data i) = Ok q ∧
    Evidence.quote_PCRValues q = Some vals.
Definition is_cert (i : Evidence.SignedEvidencePiece) : bool :=
  bool_decide (Evidence.Type_ i = Evidence.NvidiaCCIntermediateCertificate) ||
  bool_decide (Evidence.Type_ i = Evidence.NvidiaSwitchIntermediateCertificate).
Definition expiries (items : list Evidence.SignedEvidencePiece) : list Z :=
  omap (λ i, if is_cert i then (λ c, NotAfter c - minute) <$> Evidence.ParseCertificate (Evidence.Data i) else None) items.

Lemma expiries_snoc seen i :
  expiries (seen ++ [i]) = expiries seen ++
    if is_cert i then match Evidence.ParseCertificate (Evidence.Data i) with Some c => [NotAfter c - minute] | None => [] end else [].
Proof. unfold expiries. rewrite omap_app. f_equal. cbn. destruct (is_cert i), (Evidence.ParseCertificate (Evidence.Data i)); done. Qed.
Lemma scan_item_spec seen i s s' :
  from_key (sc_name s) seen → from_quote (sc_pcrs s) seen → sc_shutdowns s = expiries seen →
  scan_item s i = Ok s' →
  from_key (sc_name s') (seen ++ [i]) ∧ from_quote (sc_pcrs s') (seen ++ [i]) ∧ sc_shutdowns s' = expiries (seen ++ [i]).
Proof.
  intros Hk Hq Hs Hi.
  assert (Hk' : from_key (sc_name s) (seen ++ [i])).
  { destruct Hk as [?|(j & ? & ?)]; [by left|right; exists j; split; [apply elem_of_app; by left|done]]. }
  assert (Hq' : from_quote (sc_pcrs s) (seen ++ [i])).
  { destruct Hq as [?|(j & q & ? & ?)]; [by left|right; exists j, q; split; [apply elem_of_app; by left|done]]. }
  pose proof (expiries_snoc seen i) as He. unfold is_cert in He. unfold scan_item in Hi.
  destruct (Evidence.Type_ i) eqn:Et; cbn in He; rewrite ?app_nil_r in He;
    try (injection Hi as <-; split_and!; [done|done|by rewrite He]).
  all: ok_steps.
  all: try (split_and!; [done|done|]; cbn [sc_shutdowns]; rewrite He, Hs; by match goal with E : Evidence.ParseCertificate _ = Some _ |- _ => rewrite E end).
  - split_and!; cbn [sc_name sc_pcrs sc_shutdowns]; [|done|by rewrite He].
    right. exists i. split_and!; [apply elem_of_app; right; left|done|done|]. unfold tpmptToPubKeyBytes in *. ok_steps. eauto.
  - destruct (Evidence.quote_PCRValues _) as [vals|] eqn:Ev; [|done]. injection Hi as <-.
    split_and!; cbn [sc_name sc_pcrs sc_shutdowns]; [done| |by rewrite He]. right. eexists i, _. split_and!; [apply elem_of_app; right; left|done|eassumption|done].
Qed.

Lemma scan_evidence_spec items seen s s' :
  from_key (sc_name s) seen → from_quote (sc_pcrs s) seen → sc_shutdowns s = expiries seen →
  scan_evidence s items = Ok s' →
  from_key (sc_name s') (seen ++ items) ∧ from_quote (sc_pcrs s') (seen ++ items) ∧ sc_shutdowns s' = expiries (seen ++ items).
Proof.
  induction items as [|i items IH] in seen, s |- *; intros Hk Hq Hs Hi; cbn [scan_evidence] in Hi.
  - injection Hi as <-. by rewrite app_nil_r.
  - apply result_bind_ok in Hi as (s1 & H1 & Hi). destruct (scan_item_spec seen i s s1 Hk Hq Hs H1) as (Hk1 & Hq1 & Hs1).
    change (i :: items) with ([i] ++ items). rewrite app_assoc. by apply (IH (seen ++ [i]) s1).
Qed.

(** C18. A node service is only created from complete evidence: the key it
    authorises the TPM with is named by the signature of a TPM public key that
    is a piece of it, the PCR values of its sessions are those a quote in the
    evidence reports, for exactly the nine registers of the attestation and
    none else, and for each Nvidia certificate in the evidence a shutdown is
    due one minute before the certificate expires, in that order. *)
Theorem NewRouterCom_from_evidence rekHandle evidence s :
  NewRouterCom rekHandle evidence = Ok s →
  (∃ i, i ∈ evidence ∧ Evidence.Type_ i = Evidence.TpmtPublic ∧ pubKeyNameBytes s = Evidence.Signature i ∧
    pubKeyNameBytes s ≠ [] ∧ is_Some (Unmarshal_TPMTPublic (Evidence.Data i))) ∧
  (∃ i q vals, i ∈ evidence ∧ Evidence.Type_ i = Evidence.TpmQuote ∧ Verify.unmarshal_quote (Evidence.Data i) = Ok q ∧
    Evidence.quote_PCRValues q = Some vals ∧
    ∀ pcr, pcrValues s !! pcr = if decide (pcr ∈ AttestPCRSelection) then vals !! pcr else None) ∧
  (∀ pcr, pcr ∈ AttestPCRSelection → is_Some (pcrValues s !! pcr)) ∧
  shutdowns s = expiries evidence ∧ REKHandle s = rekHandle ∧ rc_evidence s = evidence.
Proof.
  unfold NewRouterCom. intros (sc & Hsc & Hn)%result_bind_ok.
  apply (scan_evidence_spec evidence []) in Hsc as (Hk & Hq & Hs); [|by left|by left|done].
  destruct (Nat.eqb_spec (length (sc_pubKeyBytes sc)) 0); [done|]. destruct (Nat.eqb_spec (length (sc_name sc)) 0) as [|Hname]; [done|].
  destruct (Nat.eqb_spec (size (sc_pcrs sc)) 0) as [|Hsize]; [done|].
  apply result_bind_ok in Hn as (key & _ & Hn). apply result_bind_ok in Hn as (golden & Hg%golden_loop_spec & [= <-]). cbn.
  destruct Hg as [Hall Hg]. destruct Hk as [Hk|(i & Hi & Ht & Hsig & Hpub)]; [rewrite Hk in Hname; done|].
  destruct Hq as [Hq|(j & q & Hj & Htj & Hu & Hv)]; [rewrite Hq, map_size_empty in Hsize; done|]. split_and!; try done.
  - exists i. split_and!; [done..|by intros Hn; rewrite Hn in Hname|done].
  - exists j, q, (sc_pcrs sc). split_and!; try done.
  - intros pcr Hin. rewrite Hg, decide_True by done. by apply (proj1 (Forall_forall _ _) Hall).
Qed.

(** ** One request through the router *)

(** C17. A request survives the way from the client through the router to the
    node and back.  Let the client encapsulate a request for the key of the
    node's receiver, and let the router forward it, with the media type the
    client set, the encapsulated key of the candidate and a positive amount of
    credit.  Then the node accepts the headers [Rewrite] made and reads exactly
    that media type, key and amount from them, whatever else the client's
    headers held; it opens the client's very request; and its answer is either
    a server error (the response could not be sealed) or a 200 response that the
    client's opener turns into the response the node made. *)
Theorem request_reaches_node {LL : MessageLaws L} {U : UrlLib} {I : UuidLib} {NL : NonceLocking.NonceLocker}
    (s : RouterComService) rcv snd req sealer mt key f out (input : RouterHttp.modifyResponseInput) :
  NewMultiRequestReceiver (NewReceiver s []) = Ok rcv →
  EncapsulateRequest snd req = Ok (sealer, mt) → EncapsulateKey sealer (receiver_key rcv) = Ok (key, f) →
  Get out "Content-Type" = mt →
  RouterApi.EncapsulatedKey (RouterHttp.candidate input) = key → key ≠ [] →
  (String.length (EncodeToString StdEncoding key) ≤ 512)%nat →
  0 < RouterHttp.creditAmount input → in_int64 (RouterHttp.creditAmount input) →
  let h := (RouterHttp.Rewrite input out).1 in
  requestParams h = Ok (MkRequestParams mt key (RouterHttp.creditAmount input)) ∧
  (∃ opener, DecapsulateRequest rcv key mt (sealed_request sealer) = Ok (req, opener)) ∧
  (generateHandler s h (sealed_request sealer) = PlainResponse (BinaryServerError new_writer) ∨
   ∃ rh body, generateHandler s h (sealed_request sealer) = SealedResponse rh StatusOK body ∧
     DecapsulateResponse f (Get rh "Content-Type") body = Ok hello).
Proof.
  intros Hrcv Henc Hkey Hct Hcand Hne Hlen Hpos Hin h.
  destruct (message_understood snd req sealer mt rcv key f Henc Hkey) as (Hmt & opener & Hdec & Hresp & _).
  assert (Hp : requestParams h = Ok (MkRequestParams mt key (RouterHttp.creditAmount input))).
  { unfold requestParams, h, RouterHttp.Rewrite, RouterApi.CopyKeysToHeader. cbn [fst].
    set (base := Del RouterHttp.CreditHeader (Del RouterHttp.RoutingInfoHeader out)).
    assert (Hb : Get base "Content-Type" = mt) by (unfold base; by header_simpl).
    change (<[RouterApi.EncapsulatedKeyHeader := ?v]> ?h) with (SetHeader RouterApi.EncapsulatedKeyHeader (EncodeToString StdEncoding (RouterApi.EncapsulatedKey (RouterHttp.candidate input))) base).
    header_simpl. rewrite Hb, Hmt. cbn [negb]. rewrite Hcand, Decode_Encode by by left.
    assert (EncodeToString StdEncoding key ≠ "") as Hs.
    { intros E. apply Hne, (EncodeToString_inj StdEncoding); [by left|by rewrite E]. }
    assert (String.length (EncodeToString StdEncoding key) ≠ 0%nat) as Hl by (by destruct (EncodeToString StdEncoding key)).
    rewrite (proj2 (Nat.eqb_neq _ 0) Hl), (proj2 (Nat.ltb_ge _ _) Hlen). cbn [orb].
    rewrite ParseInt_pretty by done. by rewrite (proj2 (Z.leb_gt _ _)) by lia. }
  split_and!; [done|by exists opener|]. unfold generateHandler. rewrite Hp, Hrcv. cbn [EncapsulatedKey MediaType]. rewrite Hdec.
  destruct (EncapsulateResponse opener hello) as [[c mt']|e] eqn:E; [right|by left].
  exists (SetHeader "Content-Type" mt' ∅), c. split; [done|]. rewrite Get_Set_eq. by apply Hresp.
Qed.

(** Nothing else reaches the key in the TPM: other media types, an empty, long
    or undecodable key and an amount that is no positive number are refused
    with status 400 before the body is looked at. *)
Lemma bad_request_refused s h body e :
  requestParams h = Err e → generateHandler s h body = PlainResponse (BinaryBadRequest (public_message e) new_writer).
Proof. intros Hr. unfold generateHandler. by rewrite Hr. Qed.
End node.

(** ** A node *)

Section demo.
#[local] Instance demo_sha : Sha256Lib := toy_sha256.
#[local] Instance demo_sort : SliceSort := insertion_slice_sort.
#[local] Instance demo_order : RangeOrder := elements_order.
#[local] Instance demo_x509 : Evidence.X509Lib := Evidence.demo_x509.
#[local] Instance demo_tpm2 : Tpm2 := Verify.demo_tpm2.
#[local] Instance demo_kem : KemLib := Verify.demo_kem.
#[local] Instance demo_quote_wire : ProtoWire Evidence.PbTPMQuoteAttestation := Verify.demo_quote_wire.
#[local] Instance demo_error_wire : ProtoWire PbError := text_error_wire.
#[local] Instance demo_sessions : SessionTpm := {|
  session := nat; tpm2_PolicySession := Some 3%nat; tpm2_PolicyPCR _ _ _ := Some tt; tpm2_ECDHZGen _ _ _ p := Some (Some p) |}.

Definition demo_pcrs : gmap Z (list byte) := list_to_map ((λ p, (p, [byte_of p])) <$> 9 :: AttestPCRSelection).
Definition demo_evidence : list Evidence.SignedEvidencePiece :=
  [ Evidence.MkPiece Evidence.TpmtPublic [x01] [x0a];
    Evidence.MkPiece Evidence.NvidiaCCIntermediateCertificate [x05] [];
    Evidence.MkPiece Evidence.TpmQuote (Verify.encoded (Evidence.MkPbQuote [x00] (Some demo_pcrs))) [] ].
Definition demo_NotAfter (c : Evidence.certificate (X509Lib:=demo_x509)) : Z := byte_val (c : byte) * minute.
Definition demo_node : result failure RouterComService :=
  NewRouterCom demo_NotAfter 0x81000000 demo_evidence.
Definition demo_service : RouterComService :=
  match demo_node with Ok s => s | Err _ => MkRouterCom [] [] ∅ 0 [] [] end.
Lemma demo_node_ok : demo_node = Ok demo_service.
Proof. vm_compute. reflexivity. Qed.

Lemma NewRouterCom_from_evidence_witness :
  shutdowns demo_service = [4 * minute] ∧ pcrValues demo_service !! 9 = None ∧ is_Some (pcrValues demo_service !! 12).
Proof.
  destruct (NewRouterCom_from_evidence demo_NotAfter 0x81000000 demo_evidence demo_service demo_node_ok)
    as (_ & (i & q & vals & _ & _ & _ & _ & Hv) & Hall & Hs & _).
  split; [rewrite Hs; vm_compute; reflexivity|]. split; [rewrite Hv; vm_compute; reflexivity|]. apply Hall. vm_compute. do 8 right. left.
Defined.

(** Libraries that do not encrypt, whose key is the one of the demo candidate. *)
Definition demo_key_lib : MessageLib := {|
  http_request := list byte; http_response := list byte; bhttp_message := list byte;
  EncodeRequest r := Ok r; DecodeRequest m := Ok m; EncodeResponse r := Ok r; DecodeResponse m := Ok m;
  IsIndeterminateLength m := (100 <? length m)%nat;
  Messages.sender := unit; receiver := unit; Messages.public_key := unit; request_sealer := list byte; request_opener := list byte;
  response_opener_func := unit; ciphertext := list byte; receiver_key _ := tt;
  NewRequestSealer _ m _ _ := Ok m; sealed_request s := s; EncapsulateKey _ _ := Ok ([x0a; x0b], tt);
  NewRequestOpener _ _ c _ _ := Ok c; opened_message op := op;
  NewResponseSealer _ m _ _ := Ok m; open_response _ c _ _ := Ok c;
|}.
Lemma demo_key_laws : MessageLaws demo_key_lib.
Proof. constructor; simpl; intros; simplify_eq; eauto. Qed.

Definition demo_mk (code : Z) (h : Header) (body : list byte) : list byte := body.
Lemma request_reaches_node_witness :
  requestParams (RouterHttp.Rewrite RouterHttp.demo_input {[ "Content-Type" := [MediaTypeRequest] ]}).1
    = Ok (MkRequestParams MediaTypeRequest [x0a; x0b] 3670016).
Proof.
  pose proof (request_reaches_node (L:=demo_key_lib) (LL:=demo_key_laws) (U:=text_url) (I:=binary_uuid) (NL:=NonceLocking.inmem_locker) (λ _, Ok tt) demo_mk demo_service tt tt (string_bytes "hi") (string_bytes "hi") MediaTypeRequest
    [x0a; x0b] tt {[ "Content-Type" := [MediaTypeRequest] ]} RouterHttp.demo_input) as H.
  destruct H as [H _]; [reflexivity|vm_compute; reflexivity|reflexivity|vm_compute; reflexivity|reflexivity|discriminate
    |vm_compute; repeat constructor|reflexivity|vm_compute; split; [discriminate|reflexivity]|exact H].
Defined.
End demo.
