(* ===== verification/NodeSetup.v ===== *)
(** How a compute node prepares its TPM and collects its evidence: the attestors of
    [attestation/attest] that use the TPM and the one of test deployments, and
    [vtpm.go] and [evidence.go] of [cmd/mem-compute].  The device is open; handles in
    error texts and log lines are left out. *)

From S2P Require Import Prelude Bytes GoLib GoStrings TpmKeys TpmOps TpmSpec TpmSim TpmStore.
From S2P Require Evidence Verify RouterCom.
Import Verify (HmacLib, hmac_sha256).

Section node.
Context {H : Sha256Lib} {T : Tpm2} {TS : TpmStructs} {TD : TpmDevice} {SO : SliceSort} {R : RangeOrder}.
Context {WQ : ProtoWire Evidence.PbTPMQuoteAttestation} {HM : HmacLib}.

(** ** [attestation/attest] *)

Definition TPMTPublicAttestor_CreateSignedEvidence (targetObjectHandle : Z) : M Evidence.SignedEvidencePiece :=
  '(outPublic, name) ← wrapf "failed to read public" (exec (tpm2.ReadPublic targetObjectHandle));
  publicContents ← lift (lib "failed to get public contents" (Public_Contents outPublic));
  mret (Evidence.MkPiece Evidence.TpmtPublic (Marshal_TPMTPublic publicContents) name).

Definition CertifyREKCreationAttestor_CreateSignedEvidence
    (attestationKeyHandle childKeyHandle rekCreationTicketHandle rekCreationHashHandle : Z) : M Evidence.SignedEvidencePiece :=
  ticketData ← wrapf "failed to read NV index" (NVReadEXNoAuthorization rekCreationTicketHandle);
  ticket ← lift (lib "failed to unmarshal ticket" (Unmarshal_Ticket ticketData));
  hashData ← wrapf "failed to read NV index" (NVReadEXNoAuthorization rekCreationHashHandle);
  hash ← lift (lib "failed to unmarshal hash" (Unmarshal_2BDigest hashData));
  '(certifyInfo, signature) ← wrapf "failed to certify creation of key"
    (CertifyCreationKey attestationKeyHandle ticket hash childKeyHandle);
  mret (Evidence.MkPiece Evidence.CertifyRekCreation (Marshal_TPM2BAttest certifyInfo) (Marshal_TPMTSignature signature)).

Definition TPMQuoteAttestor_CreateSignedEvidence (attestationKeyHandle : Z) : M Evidence.SignedEvidencePiece :=
  let pcrSelection := PCClientCompatible_PCRs RouterCom.AttestPCRSelection in
  '(_, name) ← exec (tpm2.ReadPublic attestationKeyHandle);
  '(quoted, signature) ← exec (tpm2.Quote attestationKeyHandle name pcrSelection signing_scheme);
  pcrValues ← PCRRead RouterCom.AttestPCRSelection;
  tpmst ← lift (lib "tpm2" (Contents quoted));
  data ← lift (wrap_err Failed (marshal_message (Evidence.Quote_MarshalProto
    (Evidence.MkQuote (Marshal_TPMSAttest tpmst) (Some pcrValues)))));
  mret (Evidence.MkPiece Evidence.TpmQuote data (Marshal_TPMTSignature signature)).

(** The nonce is what [crypto/rand] reads. *)
Definition FakeAttestor_CreateSignedEvidence (sharedSecret : list byte) (nonce : result goerror (list byte)) :
    M Evidence.SignedEvidencePiece :=
  nonce ← lift (fwrap "failed to create nonce" (wrap_err Failed nonce));
  mret (Evidence.MkPiece Evidence.EvidenceTypeUnspecified nonce (hmac_sha256 sharedSecret nonce)).

(** ** [vtpm.go] *)

Definition ak_template : template :=
  MkTemplate TPMAlgSHA256 [SignEncrypt; Restricted; FixedTPM; FixedParent; SensitiveDataOrigin; UserWithAuth; NoDA] []
    (RSAParms signing_scheme 2048).

Definition setupSimulatorAttestationKey (handle : Z) : M unit :=
  createSigningResponse ← wrapf "failed to ak key" (exec (tpm2.CreatePrimary TPMRHOwner ak_template));
  deferred (tpm2.FlushContext createSigningResponse) (
    _ ← wrapf "failed to clear persistent handle" (MaybeClearPersistentHandle handle);
    wrapf "could not persist attestation key" (PersistObject createSigningResponse handle)).

Record TPMOperator := MkOperator {
  primaryKeyHandle : Z;
  childKeyHandle : Z;
  rekCreationTicketHandle : Z;
  rekCreationHashHandle : Z;
  attestationKeyHandle : Z;
}.

Definition SetupAttestationKey (t : TPMOperator) : M unit :=
  wrapf "could not setup simulator AK for handle" (setupSimulatorAttestationKey (attestationKeyHandle t)).

Definition SetupEncryptionKeys (t : TPMOperator) : M unit :=
  createPrimaryKeyResponse ← wrapf "could not create primary key" CreateECCPrimaryKey;
  deferred (tpm2.FlushContext createPrimaryKeyResponse) (
    _ ← wrapf "error clearing handle" (MaybeClearPersistentHandle (primaryKeyHandle t));
    _ ← wrapf "could not persist primary key" (PersistObject createPrimaryKeyResponse (primaryKeyHandle t));
    goldenPcrValues ← PCRRead RouterCom.AttestPCRSelection;
    authorizationPolicyDigest ← wrapf "could not get desired policy digest" (GetTPMPCRPolicyDigest goldenPcrValues);
    loadResponse ← wrapf "could not create primary key"
      (CreateECCEncryptionKey createPrimaryKeyResponse authorizationPolicyDigest);
    deferred (tpm2.FlushContext loadResponse.2) (
      _ ← wrapf "error clearing handle" (MaybeClearPersistentHandle (childKeyHandle t));
      _ ← wrapf "could not persist child key" (PersistObject loadResponse.2 (childKeyHandle t));
      _ ← wrapf "error clearing nv index" (MaybeClearNVIndex (rekCreationTicketHandle t));
      _ ← wrapf "could not write creation ticket to NVRAM"
        (WriteToNVRamNoAuth (rekCreationTicketHandle t) (Marshal_Ticket loadResponse.1.2));
      _ ← wrapf "error clearing nv index" (MaybeClearNVIndex (rekCreationHashHandle t));
      wrapf "could not write creation hash to NVRAM"
        (WriteToNVRamNoAuth (rekCreationHashHandle t) (Marshal_2BDigest loadResponse.1.1)))).

Definition setupTPM (t : TPMOperator) : M unit :=
  _ ← wrapf "failed to setup attestation key on TPM" (SetupAttestationKey t);
  wrapf "failed to setup encryption keys on TPM" (SetupEncryptionKeys t).

(** ** [evidence.go] *)

(** The configuration has the handles of the operator. *)
Definition fake_secret : list byte := string_bytes "123456".
Definition collectEvidence (tpmCfg : TPMOperator) (nonce : result goerror (list byte)) : M (list Evidence.SignedEvidencePiece) :=
  ak ← wrapf "failed to attest ak" (TPMTPublicAttestor_CreateSignedEvidence (attestationKeyHandle tpmCfg));
  let akTPMPTEvidence := Evidence.MkPiece Evidence.EvidenceTypeUnspecified (Evidence.Data ak) (Evidence.Signature ak) in
  certifyREKSignedEvidence ← wrapf "failed to certify rek" (CertifyREKCreationAttestor_CreateSignedEvidence
    (attestationKeyHandle tpmCfg) (childKeyHandle tpmCfg) (rekCreationTicketHandle tpmCfg) (rekCreationHashHandle tpmCfg));
  tpmQuoteEvidence ← wrapf "failed to attest tpmquote" (TPMQuoteAttestor_CreateSignedEvidence (attestationKeyHandle tpmCfg));
  rekTPMPTEvidence ← wrapf "failed to attest rek" (TPMTPublicAttestor_CreateSignedEvidence (childKeyHandle tpmCfg));
  fakeEvidence ← wrapf "failed to create fake evidence" (FakeAttestor_CreateSignedEvidence fake_secret nonce);
  mret [akTPMPTEvidence; certifyREKSignedEvidence; tpmQuoteEvidence; rekTPMPTEvidence; fakeEvidence].

(** The handles of [main.go], and those [collectFakeTPMEvidence] has of its own. *)
Definition main_operator : TPMOperator := MkOperator 0x81010001 0x81000000 0x01c0000A 0x01c0000B 0x81000003.
Definition fake_config : TPMOperator := MkOperator 0x81010001 0x81000000 0x01c0000A 0x01c0000B 0x81000003.
Definition collectFakeTPMEvidence (nonce : result goerror (list byte)) : M (list Evidence.SignedEvidencePiece) :=
  collectEvidence fake_config nonce.
End node.

(** ** Nothing is left behind *)

Section balance.
Context {H : Sha256Lib} {T : Tpm2} {TS : TpmStructs} {RL : RsaLib} {TD : TpmDevice} {on_P256 : Z → Z → Prop}.
Context {TE : TpmEffects on_P256} {SO : SliceSort} {R : RangeOrder}.
Context (flush_works : ∀ h d, enabled (tpm2.FlushContext h) (view_of d) → ∃ d', Execute (tpm2.FlushContext h) d = (Ok tt, d')).
#[local] Hint Resolve balanced_MaybeClearPersistentHandle balanced_PersistObject balanced_MaybeClearNVIndex
  balanced_WriteToNVRamNoAuth balanced_PCRRead balanced_GetTPMPCRPolicyDigest : tpm.

Lemma takes_wrapf {A} (f : A → Z) msg (m : M A) : takes f m → takes f (wrapf msg m).
Proof.
  intros Hm d r d'. unfold wrapf. destruct (m d) as [[r1 d1]|] eqn:E; cbn; [|done]. intros [= <- <-].
  specialize (Hm _ _ _ E). by destruct r1 as [a|[]].
Qed.

Lemma SetupAttestationKey_balanced t : is_persistent (attestationKeyHandle t) → keeps same_live (SetupAttestationKey t).
Proof.
  intros Hh. unfold SetupAttestationKey, setupSimulatorAttestationKey. apply keeps_wrapf.
  apply (takes_flushed flush_works id).
  - apply takes_wrapf, takes_exec. intros v a v' (pub & _ & Ht & Hn & ->). eauto.
  - intros h. balance.
Qed.

Lemma SetupEncryptionKeys_balanced t : is_persistent (primaryKeyHandle t) → is_persistent (childKeyHandle t) →
  keeps same_live (SetupEncryptionKeys t).
Proof.
  intros Hp Hc. unfold SetupEncryptionKeys. apply (takes_flushed flush_works id); [apply takes_wrapf, takes_CreateECCPrimaryKey|].
  intros h. do 4 (apply keeps_bind; [apply _|balance|intros ?]). apply (takes_flushed flush_works snd); [apply takes_wrapf, takes_CreateECCEncryptionKey|].
  intros x. balance.
Qed.

(** C23. Preparing the TPM leaves nothing behind that is not persistent.  Whatever
    commands fail on the way, at any point and with any error, as long as transient
    objects and sessions can be flushed: when [setupTPM] returns, with or without an
    error, the TPM holds the same transient objects and the same sessions as before. *)
Theorem setupTPM_leaves_nothing t d r d' :
  is_persistent (attestationKeyHandle t) → is_persistent (primaryKeyHandle t) → is_persistent (childKeyHandle t) →
  setupTPM t d = Some (r, d') →
  (∀ h, is_transient h → objects (view_of d') !! h = objects (view_of d) !! h) ∧ sessions (view_of d') = sessions (view_of d).
Proof.
  intros Ha Hp Hc. intros Hrun.
  assert (keeps same_live (setupTPM t)) as Hk; [|by apply (Hk _ _ _ Hrun)].
  unfold setupTPM. apply keeps_bind; [apply _| |intros _]; apply keeps_wrapf; auto using SetupAttestationKey_balanced, SetupEncryptionKeys_balanced.
Qed.
End balance.

(** ** A node that is prepared *)

Section honest.
Context {H : Sha256Lib} {T : Tpm2} {TS : TpmStructs} {RL : RsaLib} {TD : TpmDevice} {on_P256 : Z → Z → Prop}.
Context {TE : TpmEffects on_P256} {RT : ReliableTpm on_P256} {SL : TpmStructsLaws TS} {SO : SliceSort} {R : RangeOrder}.
Context {K : KemLib} {KC : KemCurve on_P256} {X : Evidence.X509Lib} {WQ : ProtoWire Evidence.PbTPMQuoteAttestation}.
Context {WL : ProtoWireLaws Evidence.PbTPMQuoteAttestation} {HM : HmacLib}.

Definition set_objects_then f g v : set_objects f (set_objects g v) = set_objects (f ∘ g) v := eq_refl.

Lemma transients_insert h o v : is_transient h → transients (set_objects (<[h:=o]>) v) = {[h]} ∪ transients v.
Proof. intros Hh. unfold transients. cbn. rewrite dom_insert_L. set_solver. Qed.
Lemma transients_insert_persistent h o v : is_persistent h → transients (set_objects (<[h:=o]>) v) = transients v.
Proof.
  intros Hh%persistent_not_transient. unfold transients. cbn. rewrite dom_insert_L. apply set_eq. intros x.
  rewrite !elem_of_filter, elem_of_union, elem_of_singleton. naive_solver.
Qed.

(** A transient object is made persistent and flushed: what is left. *)
Lemma persisted_view t p o o' v : is_transient t → is_persistent p → objects v !! t = None →
  delete t (<[p:=o]> (delete p (<[t:=o']> (objects v)))) = <[p:=o]> (objects v).
Proof.
  intros Ht Hp Hn. assert (t ≠ p) as Hne by (unfold is_transient, is_persistent in *; lia).
  rewrite insert_delete_eq, delete_insert_ne, delete_insert_id by done. done.
Qed.

Lemma runs_SetupAttestationKey t (Q : unit → view → Prop) v :
  is_persistent (attestationKeyHandle t) → (size (transients v) < 3)%nat →
  (∀ pub, created_from on_P256 ak_template pub → Q tt (set_objects (<[attestationKeyHandle t := MkObject ak_template pub]>) v)) →
  runs (SetupAttestationKey t) Q v.
Proof.
  intros Hh Hs HQ. unfold SetupAttestationKey, setupSimulatorAttestationKey. apply runs_wrapf, runs_bind, runs_wrapf, runs_exec; [done|].
  intros h v' (pub & Hpub & Ht & Hn & ->). specialize (HQ pub Hpub).
  assert (attestationKeyHandle t ≠ h) as Hne by (unfold is_transient, is_persistent in *; lia).
  apply runs_deferred, runs_bind, runs_wrapf, runs_MaybeClearPersistentHandle; [done|].
  eapply runs_wrapf, runs_PersistObject; [done|done| |by cbn; rewrite lookup_delete_eq|].
  { cbn. rewrite lookup_delete_ne, lookup_insert_eq by done. done. }
  split; [left; cbn; rewrite decide_True by done; rewrite lookup_insert_ne, lookup_delete_ne, lookup_insert_eq by done; by eexists|].
  intros [] v' ->. rewrite decide_True by done. unfold set_objects in *. cbn. by rewrite persisted_view.
Qed.

(** What the setup of the keys leaves on the device: the request encryption key [rek],
    bound to the registers as they are, with the proof of its creation in NV memory. *)
Record prepared (t : TPMOperator) (v v' : view) (m : gmap Z (list byte)) (policy : list byte) (rek : TPMTPublic)
    (name hash : list byte) (ticket : TPMTTKCreation) : Prop := {
  pr_pcrs k : m !! k = if decide (k ∈ RouterCom.AttestPCRSelection) then Some (pcr v k) else None;
  pr_policy : GetSoftwarePCRPolicyDigest m = Ok policy;
  pr_rek : created_from on_P256 (encryption_template policy) rek;
  pr_name : ObjectName rek = Some name;
  pr_hash : length hash = 32%nat;
  pr_issued : (name, hash, ticket) ∈ issued v';
  pr_child : objects v' !! childKeyHandle t = Some (MkObject (encryption_template policy) rek);
  pr_others h : h ≠ childKeyHandle t → h ≠ primaryKeyHandle t → objects v' !! h = objects v !! h;
  pr_ticket : nvs v' !! rekCreationTicketHandle t =
    Some (MkNV nv_attributes (Z.of_nat (length (Marshal_Ticket ticket))) (Some (Marshal_Ticket ticket)));
  pr_digest : nvs v' !! rekCreationHashHandle t =
    Some (MkNV nv_attributes (Z.of_nat (length (Marshal_2BDigest hash))) (Some (Marshal_2BDigest hash)));
  pr_pcr : pcr v' = pcr v;
  pr_buffer : buffer_max v' = buffer_max v;
}.

Definition good_handles (t : TPMOperator) : Prop :=
  is_persistent (attestationKeyHandle t) ∧ is_persistent (primaryKeyHandle t) ∧ is_persistent (childKeyHandle t) ∧
  attestationKeyHandle t ≠ primaryKeyHandle t ∧ attestationKeyHandle t ≠ childKeyHandle t ∧ primaryKeyHandle t ≠ childKeyHandle t ∧
  rekCreationTicketHandle t ≠ rekCreationHashHandle t.

Lemma size_insert_le (x : Z) (s : gset Z) : (size ({[x]} ∪ s) ≤ 1 + size s)%nat.
Proof. rewrite size_union_alt, size_singleton. apply Nat.add_le_mono_l, subseteq_size. set_solver. Qed.

Lemma NoDup_attested : NoDup RouterCom.AttestPCRSelection ∧ Forall (λ k, 0 ≤ k < 24) RouterCom.AttestPCRSelection.
Proof. split; [|by repeat constructor]. apply (bool_decide_unpack _). by vm_compute. Qed.

(** *** The steps of the setup *)

Lemma runs_replace {A} msg1 msg2 h p o (k : M A) Q v :
  is_transient h → is_persistent p → objects v !! h = Some o → runs k Q (set_objects (<[p:=o]>) v) →
  runs (_ ← wrapf msg1 (MaybeClearPersistentHandle p); _ ← wrapf msg2 (PersistObject h p); k) Q v.
Proof.
  intros Hh Hp Ho Hk. assert (p ≠ h) as Hne by (unfold is_transient, is_persistent in *; lia).
  apply runs_bind, runs_wrapf, runs_MaybeClearPersistentHandle; [done|].
  eapply runs_bind, runs_wrapf, runs_PersistObject; [done|done|by cbn; rewrite lookup_delete_ne|by cbn; rewrite lookup_delete_eq|].
  unfold set_objects in *. cbn. by rewrite insert_delete_eq.
Qed.

Lemma runs_store {A} msg1 msg2 i data (k : unit → M A) Q v :
  Z.of_nat (length data) < 2 ^ 16 → Z.of_nat (length data) ≤ buffer_max v →
  runs (k tt) Q (set_nvs (<[i := MkNV nv_attributes (Z.of_nat (length data)) (Some data)]>) v) →
  runs (_ ← wrapf msg1 (MaybeClearNVIndex i); u ← wrapf msg2 (WriteToNVRamNoAuth i data); k u) Q v.
Proof.
  intros H16 Hmax Hk. apply runs_bind, runs_wrapf, runs_MaybeClearNVIndex.
  apply runs_bind, runs_wrapf, runs_WriteToNVRamNoAuth; [by cbn; rewrite lookup_delete_eq|done|done|].
  unfold set_nvs in *. cbn. by rewrite insert_delete_eq.
Qed.
Lemma runs_store_last msg1 msg2 i data (Q : unit → view → Prop) v :
  Z.of_nat (length data) < 2 ^ 16 → Z.of_nat (length data) ≤ buffer_max v →
  Q tt (set_nvs (<[i := MkNV nv_attributes (Z.of_nat (length data)) (Some data)]>) v) →
  runs (_ ← wrapf msg1 (MaybeClearNVIndex i); wrapf msg2 (WriteToNVRamNoAuth i data)) Q v.
Proof.
  intros H16 Hmax HQ. apply runs_bind, runs_wrapf, runs_MaybeClearNVIndex.
  apply runs_wrapf, runs_WriteToNVRamNoAuth; [by cbn; rewrite lookup_delete_eq|done|done|].
  unfold set_nvs in *. cbn. by rewrite insert_delete_eq.
Qed.

Lemma runs_CreateECCEncryptionKey p policy o (Q : list byte * TPMTTKCreation * Z → view → Prop) v :
  objects v !! p = Some o → storage_key o → (size (transients v) < 3)%nat →
  (∀ h rek name hash ticket made1, is_transient h → objects v !! h = None → created_from on_P256 (encryption_template policy) rek →
    ObjectName rek = Some name → length hash = 32%nat →
    Q (hash, ticket, h) (set_objects (<[h := MkObject (encryption_template policy) rek]>) (created (name, hash, ticket) made1 v))) →
  runs (CreateECCEncryptionKey p policy) Q v.
Proof.
  intros Ho Hst Hsz HQ. unfold CreateECCEncryptionKey. apply runs_bind, runs_exec; [by eexists|]. intros [pub0 pname] v' [-> _].
  apply runs_bind, runs_exec; [by exists o|]. intros [[[private public] hash] ticket] v' (rek & name & Hrek & Hpub & Hname & Hlen & Hfresh & ->).
  apply runs_bind, runs_exec.
  { split_and!; [by exists o|eexists; by left|done]. }
  intros [h hname] v' (t & pub & Hin & Hc & Hh & Hn & ->). cbn in *. assert (pub = rek) as -> by congruence.
  apply elem_of_cons in Hin as [[= ->]|Hin]; [|by destruct (Hfresh t)]. apply runs_ret. by eapply HQ.
Qed.

Lemma runs_SetupEncryptionKeys t v :
  good_handles t → (size (transients v) < 2)%nat → (size (sessions v) < 3)%nat → 72 ≤ buffer_max v →
  runs (SetupEncryptionKeys t) (λ _ v', ∃ m policy rek name hash ticket, prepared t v v' m policy rek name hash ticket) v.
Proof.
  intros (Ha & Hp & Hc & Hap & Hac & Hpc & Hnv) Hsz Hss Hbuf. unfold SetupEncryptionKeys.
  apply runs_bind, runs_wrapf, runs_exec; [split; [done|lia]|]. intros t1 v1 (ppub & Hppub & Ht1 & Hn1 & ->).
  pose (o1 := MkObject primary_template ppub). apply runs_deferred, (runs_replace _ _ _ _ o1); [done|done|by cbn; rewrite lookup_insert_eq|].
  apply runs_bind, runs_PCRRead; [apply NoDup_attested..|]. intros m Hm.
  apply runs_bind, runs_wrapf, runs_GetTPMPCRPolicyDigest; [done|]. intros policy Hpol.
  assert (primaryKeyHandle t ≠ t1 ∧ childKeyHandle t ≠ t1) as [HPt1 HCt1] by (unfold is_transient, is_persistent in *; lia).
  eapply runs_bind, runs_wrapf, (runs_CreateECCEncryptionKey _ _ o1).
  { cbn. by rewrite lookup_insert_ne, lookup_insert_eq. }
  { split; cbn; set_solver. }
  { rewrite transients_insert_persistent, transients_insert by done. pose proof (size_insert_le t1 (transients v)). lia. }
  intros t2 rek name hash ticket made1 Ht2 Hn2 Hrek Hname Hlen. cbn in Hn2. cbn [fst snd].
  assert (primaryKeyHandle t ≠ t2 ∧ childKeyHandle t ≠ t2) as [HPt2 HCt2] by (unfold is_transient, is_persistent in *; lia).
  rewrite lookup_insert_ne in Hn2 by done. apply lookup_insert_None in Hn2 as [Hn2 Ht12].
  pose (o2 := MkObject (encryption_template policy) rek).
  apply runs_deferred, (runs_replace _ _ _ _ o2); [done|done|by cbn; rewrite lookup_insert_eq|].
  pose proof (length_Marshal_Ticket ticket) as Ltk. pose proof (length_Marshal_2BDigest hash) as Lh.
  apply (runs_store _ _ _ _ (λ _, _)); [lia|cbn; lia|]. apply runs_store_last; [lia|cbn; lia|].
  (* the deferred flushes *)
  split; [left; cbn; rewrite decide_True by done; rewrite lookup_insert_ne, lookup_insert_eq by done; by eexists|]. intros u2 v2 E2.
  cbn in E2. rewrite decide_True in E2 by done. subst v2.
  split; [left; cbn; rewrite decide_True by done; rewrite lookup_delete_ne, !lookup_insert_ne, lookup_insert_eq by done; by eexists|].
  intros u3 v3 E3. cbn in E3. rewrite decide_True in E3 by done. subst v3.
  exists m, policy, rek, name, hash, ticket. split; cbn; try done.
  - left.
  - by rewrite !lookup_delete_ne, lookup_insert_eq.
  - intros h Hh1 Hh2. destruct (decide (h = t1)) as [->|]; [by rewrite lookup_delete_eq|]. rewrite lookup_delete_ne by done.
    destruct (decide (h = t2)) as [->|]; [by rewrite lookup_delete_eq|]. by rewrite lookup_delete_ne, !lookup_insert_ne.
  - by rewrite lookup_insert_ne, lookup_insert_eq.
  - by rewrite lookup_insert_eq.
Qed.

(** *** The attestors *)

Lemma runs_TPMTPublicAttestor h o (Q : Evidence.SignedEvidencePiece → view → Prop) v :
  objects v !! h = Some o →
  (∀ name, ObjectName (ob_public o) = Some name → Q (Evidence.MkPiece Evidence.TpmtPublic (Marshal_TPMTPublic (ob_public o)) name) v) →
  runs (TPMTPublicAttestor_CreateSignedEvidence h) Q v.
Proof.
  intros Ho HQ. unfold TPMTPublicAttestor_CreateSignedEvidence. apply runs_bind, runs_wrapf, runs_exec; [by eexists|].
  intros [pub name] v' (-> & o' & Ho' & Hpub & Hname). assert (o' = o) as -> by congruence. cbn in Hpub, Hname.
  apply runs_bind. eapply runs_lift; [by rewrite Hpub|]. apply runs_ret. by apply HQ.
Qed.

Lemma runs_CertifyREKCreationAttestor t ak rek name hash ticket (Q : Evidence.SignedEvidencePiece → view → Prop) v n1 n2 :
  nvs v !! rekCreationTicketHandle t = Some (MkNV nv_attributes n1 (Some (Marshal_Ticket ticket))) → n1 = Z.of_nat (length (Marshal_Ticket ticket)) →
  nvs v !! rekCreationHashHandle t = Some (MkNV nv_attributes n2 (Some (Marshal_2BDigest hash))) → n2 = Z.of_nat (length (Marshal_2BDigest hash)) →
  length hash = 32%nat → 72 ≤ buffer_max v →
  objects v !! attestationKeyHandle t = Some ak → attestation_key signing_scheme ak → objects v !! childKeyHandle t = Some rek →
  ObjectName (ob_public rek) = Some name → (name, hash, ticket) ∈ issued v →
  (∀ a sig info, Contents a = Some info → Attested_Creation info = Some name → signed_with (ob_public ak) info sig →
    Q (Evidence.MkPiece Evidence.CertifyRekCreation (Marshal_TPM2BAttest a) (Marshal_TPMTSignature sig)) v) →
  runs (CertifyREKCreationAttestor_CreateSignedEvidence (attestationKeyHandle t) (childKeyHandle t)
    (rekCreationTicketHandle t) (rekCreationHashHandle t)) Q v.
Proof.
  intros Htk -> Hh -> Hlen Hbuf Hak Hkey Hrek Hname Hiss HQ. unfold CertifyREKCreationAttestor_CreateSignedEvidence.
  assert (OwnerRead ∈ nv_attributes) as Hattr by (unfold nv_attributes; set_solver).
  pose proof (length_Marshal_Ticket ticket). pose proof (length_Marshal_2BDigest hash).
  eapply runs_bind, runs_wrapf, runs_NVReadEX; [done|done|done|done|cbn; lia|lia|].
  apply runs_bind. eapply runs_lift; [by rewrite Unmarshal_Marshal_Ticket|].
  eapply runs_bind, runs_wrapf, runs_NVReadEX; [done|done|done|done|cbn; lia|lia|].
  apply runs_bind. eapply runs_lift; [rewrite Unmarshal_Marshal_2BDigest by lia; done|]. unfold CertifyCreationKey.
  apply runs_bind, runs_wrapf, runs_bind, runs_wrapf, runs_exec; [by eexists|]. intros [p1 signName] v' [-> _].
  apply runs_bind, runs_wrapf, runs_exec; [by eexists|]. intros [p2 targetName] v' [-> _].
  apply runs_wrapf, runs_exec; [split; [by exists ak|by exists rek, name]|].
  intros [a sig] v' (-> & ak' & obj & name' & info & Hak' & Hobj & Hname' & _ & Hc & Hatt & Hsig).
  assert (ak' = ak) as -> by congruence. assert (obj = rek) as -> by congruence. assert (name' = name) as -> by congruence.
  apply runs_ret. by eapply HQ.
Qed.

Lemma runs_TPMQuoteAttestor h ak (Q : Evidence.SignedEvidencePiece → view → Prop) v :
  (∀ q, is_Some (proto_marshal (M:=Evidence.PbTPMQuoteAttestation) q)) →
  objects v !! h = Some ak → attestation_key signing_scheme ak →
  (∀ info sig m data, (∀ k, m !! k = if decide (k ∈ RouterCom.AttestPCRSelection) then Some (pcr v k) else None) →
    Attested_Quote info = Some (sha256 (concat (pcr v <$> slices_sort RouterCom.AttestPCRSelection))) → signed_with (ob_public ak) info sig →
    marshal_message (Evidence.Quote_MarshalProto (Evidence.MkQuote (Marshal_TPMSAttest info) (Some m))) = Ok data →
    Q (Evidence.MkPiece Evidence.TpmQuote data (Marshal_TPMTSignature sig)) v) →
  runs (TPMQuoteAttestor_CreateSignedEvidence h) Q v.
Proof.
  intros Htot Hak Hkey HQ. unfold TPMQuoteAttestor_CreateSignedEvidence. apply runs_bind, runs_exec; [by eexists|]. intros [p name] v' [-> _].
  apply runs_bind, runs_exec; [by exists ak|]. intros [a sig] v' (-> & ak' & info & Hak' & Hc & Hatt & Hsig).
  assert (ak' = ak) as -> by congruence. cbn in Hc, Hsig. unfold selected in Hatt. rewrite PCRs_indices in Hatt by apply NoDup_attested.
  apply runs_bind, runs_PCRRead; [apply NoDup_attested..|]. intros m Hm. apply runs_bind. eapply runs_lift; [by rewrite Hc|].
  destruct (Htot (Evidence.Quote_MarshalProto (Evidence.MkQuote (Marshal_TPMSAttest info) (Some m)))) as [data Hd].
  assert (marshal_message (Evidence.Quote_MarshalProto (Evidence.MkQuote (Marshal_TPMSAttest info) (Some m))) = Ok data) as Hmar
    by (unfold marshal_message; by rewrite Hd).
  apply runs_bind. eapply runs_lift; [by rewrite Hmar|]. apply runs_ret. by eapply HQ.
Qed.

(** *** What the verifier and the service make of it *)

Lemma ak_public ak : created_from on_P256 ak_template ak → ∃ N E, TpmPub ak = Ok (RSAPublicKey N E).
Proof.
  intros (Ht & _ & _ & [e He] & [n Hn]). unfold TpmPub. rewrite Ht, He, Hn. cbn. unfold RSAPub. eauto.
Qed.
Lemma signed_accepted ak N E info sig : TpmPub ak = Ok (RSAPublicKey N E) → signed_with ak info sig →
  Verify.verify_signed_attest (N, E) info (Marshal_TPMTSignature sig) = Ok tt.
Proof.
  intros Hak Hs. destruct (Hs N E Hak) as (s & Hr & Hv). unfold Verify.verify_signed_attest.
  rewrite Unmarshal_Marshal_Signature. cbn. rewrite Hr. cbn. by rewrite Hv.
Qed.
Lemma REKCreation_accepts ak N E a sig info name : TpmPub ak = Ok (RSAPublicKey N E) → signed_with ak info sig →
  Contents a = Some info → Attested_Creation info = Some name →
  Verify.REKCreation (N, E) (Evidence.MkPiece Evidence.CertifyRekCreation (Marshal_TPM2BAttest a) (Marshal_TPMTSignature sig)) = Ok a.
Proof.
  intros Hak Hs Hc Ha. unfold Verify.REKCreation. cbn [Evidence.Data Evidence.Signature]. rewrite Unmarshal_Marshal_TPM2B. cbn.
  rewrite Hc. cbn. rewrite Ha. cbn. by rewrite (signed_accepted ak).
Qed.

Lemma registers_keys (m : gmap Z (list byte)) v : (∀ k, m !! k = if decide (k ∈ RouterCom.AttestPCRSelection) then Some (pcr v k) else None) →
  slices_sort (range_map m).*1 = slices_sort RouterCom.AttestPCRSelection ∧
  concatenatedPCRs m (slices_sort RouterCom.AttestPCRSelection) = concat (pcr v <$> slices_sort RouterCom.AttestPCRSelection).
Proof.
  intros Hm. split.
  - apply (StronglySorted_unique Z.le); [apply slices_sort_sorted..|]. rewrite !slices_sort_perm, range_map_keys.
    apply NoDup_Permutation; [apply range_keys_nodup|apply NoDup_attested|]. intros k. rewrite range_keys_elem, elem_of_dom, Hm.
    case_decide; [naive_solver|]. split; [intros [? [=]]|done].
  - unfold concatenatedPCRs. assert (∀ k, k ∈ slices_sort RouterCom.AttestPCRSelection → m !! k = Some (pcr v k)) as Hs.
    { intros k Hk. rewrite slices_sort_perm in Hk. by rewrite Hm, decide_True. }
    revert Hs. generalize (slices_sort RouterCom.AttestPCRSelection). intros l. induction l as [|k l IH]; intros Hs; [done|].
    cbn [mbind list_bind fmap list_fmap concat]. rewrite (Hs k) by set_solver. cbn. f_equal. apply IH. set_solver.
Qed.

Lemma unmarshal_marshalled_quote q data :
  marshal_message (Evidence.Quote_MarshalProto q) = Ok data → Verify.unmarshal_quote data = Ok q.
Proof.
  intros Hd. unfold Verify.unmarshal_quote. rewrite (unmarshal_marshalled _ _ Hd). cbn [mbind result_bind].
  by rewrite Evidence.Quote_roundtrip.
Qed.

Lemma TPMQuote_accepts ak N E info sig m data v : TpmPub ak = Ok (RSAPublicKey N E) → signed_with ak info sig →
  (∀ k, m !! k = if decide (k ∈ RouterCom.AttestPCRSelection) then Some (pcr v k) else None) →
  Attested_Quote info = Some (sha256 (concat (pcr v <$> slices_sort RouterCom.AttestPCRSelection))) →
  marshal_message (Evidence.Quote_MarshalProto (Evidence.MkQuote (Marshal_TPMSAttest info) (Some m))) = Ok data →
  Verify.TPMQuote (N, E) (Evidence.MkPiece Evidence.TpmQuote data (Marshal_TPMTSignature sig)) = Ok m.
Proof.
  intros Hak Hs Hm Ha Hd. unfold Verify.TPMQuote. cbn [Evidence.Data Evidence.Signature].
  rewrite (unmarshal_marshalled_quote _ _ Hd). cbn [mbind result_bind Evidence.TmpstAttestQuote Evidence.quote_PCRValues].
  rewrite Unmarshal_Marshal_TPMS. cbn [lib mbind result_bind]. rewrite (signed_accepted ak) by done. cbn [mbind result_bind].
  destruct (registers_keys m v Hm) as [Hk Hcat]. rewrite Hk, Hcat, Ha. cbn [lib mbind result_bind].
  pose proof (length_sha256 (concat (pcr v <$> slices_sort RouterCom.AttestPCRSelection))) as Hl.
  rewrite (proj2 (Nat.ltb_ge _ _)) by lia. rewrite take_ge by lia. rewrite bool_decide_eq_true_2 by done. cbn [negb].
  f_equal. apply Verify.collect_values. rewrite <- Hk. by rewrite slices_sort_perm.
Qed.

Lemma rek_key policy rek : created_from on_P256 (encryption_template policy) rek →
  ∃ k b, HpkePub rek = Ok k ∧ Kem_MarshalBinary k = Some b ∧ b ≠ [] ∧ Kem_UnmarshalBinaryPublicKey b = Some k.
Proof.
  intros (Ht & _ & _ & Hc & x & y & Hu & Hon). specialize (Hon eq_refl). destruct (on_P256_range _ _ Hon) as [Hx Hy].
  destruct (Kem_point _ _ Hon) as (k & b & Hk & Hb & Hne & Hback). exists k, b. split; [|done]. unfold HpkePub.
  assert (TpmPub rek = Ok (ECDSAPublicKey P256 (be_val x) (be_val y))) as -> by (unfold TpmPub; rewrite Ht, Hc, Hu; done).
  cbn -[be_bytes uncompressed_point]. rewrite uncompressed_point_spec by done. by rewrite Hk.
Qed.

Lemma TPMT_accepts m policy rek name : GetSoftwarePCRPolicyDigest m = Ok policy → created_from on_P256 (encryption_template policy) rek →
  ObjectName rek = Some name → Verify.TPMT name (Evidence.MkPiece Evidence.TpmtPublic (Marshal_TPMTPublic rek) name) m = Ok tt.
Proof.
  intros Hp (_ & Ha & _) Hn. unfold Verify.TPMT. cbn [Evidence.Data]. rewrite Unmarshal_Marshal_Public. cbn [lib mbind result_bind].
  rewrite Hn. cbn [lib mbind result_bind]. rewrite bool_decide_eq_true_2 by done. cbn [negb]. rewrite Hp. cbn.
  by rewrite Ha, bool_decide_eq_true_2.
Qed.

Lemma golden_accepts m v : (∀ k, m !! k = if decide (k ∈ RouterCom.AttestPCRSelection) then Some (pcr v k) else None) →
  RouterCom.golden_loop m RouterCom.AttestPCRSelection ∅ = Ok m.
Proof.
  intros Hm. assert (∃ g, RouterCom.golden_loop m RouterCom.AttestPCRSelection ∅ = Ok g) as [g Hg].
  { assert (∀ acc l, Forall (λ k, k ∈ RouterCom.AttestPCRSelection) l → ∃ g, RouterCom.golden_loop m l acc = Ok g) as Hl.
    - intros acc l. revert acc. induction l as [|k l IH]; intros acc Hf; [by eexists|]. inversion_clear Hf as [|?? Hk Hf']. cbn.
      pose proof (proj1 (Forall_forall _ _) (proj2 NoDup_attested) k Hk). cbn in *. rewrite (proj2 (Z.ltb_ge _ _)) by lia.
      rewrite Hm, decide_True by done. by apply IH.
    - apply Hl, Forall_forall. done. }
  rewrite Hg. f_equal. apply RouterCom.golden_loop_spec in Hg as [_ Hg]. apply map_eq. intros k. rewrite Hg. case_decide as Hin; [done|].
  by rewrite Hm, decide_False, lookup_empty.
Qed.

(** The five pieces of a prepared node. *)
Definition five_pieces (ak rek : TPMTPublic) (akName name nonce data : list byte) (a : TPM2BAttest) (sig1 sig2 : TPMTSignature) :
    list Evidence.SignedEvidencePiece :=
  [ Evidence.MkPiece Evidence.EvidenceTypeUnspecified (Marshal_TPMTPublic ak) akName;
    Evidence.MkPiece Evidence.CertifyRekCreation (Marshal_TPM2BAttest a) (Marshal_TPMTSignature sig1);
    Evidence.MkPiece Evidence.TpmQuote data (Marshal_TPMTSignature sig2);
    Evidence.MkPiece Evidence.TpmtPublic (Marshal_TPMTPublic rek) name;
    Evidence.MkPiece Evidence.EvidenceTypeUnspecified nonce (hmac_sha256 fake_secret nonce) ].

Lemma verifier_accepts ak rek akName name nonce data a sig1 sig2 info1 info2 m policy v key b :
  created_from on_P256 ak_template ak → created_from on_P256 (encryption_template policy) rek → ObjectName rek = Some name →
  Contents a = Some info1 → Attested_Creation info1 = Some name → signed_with ak info1 sig1 →
  (∀ k, m !! k = if decide (k ∈ RouterCom.AttestPCRSelection) then Some (pcr v k) else None) →
  Attested_Quote info2 = Some (sha256 (concat (pcr v <$> slices_sort RouterCom.AttestPCRSelection))) → signed_with ak info2 sig2 →
  marshal_message (Evidence.Quote_MarshalProto (Evidence.MkQuote (Marshal_TPMSAttest info2) (Some m))) = Ok data →
  GetSoftwarePCRPolicyDigest m = Ok policy → HpkePub rek = Ok key → Kem_MarshalBinary key = Some b →
  Verify.Fake_VerifyComputeNode fake_secret (five_pieces ak rek akName name nonce data a sig1 sig2) =
    Ok (Verify.MkComputeData Verify.KEM_P256_HKDF_SHA256 Verify.KDF_HKDF_SHA256 Verify.AEAD_AES128GCM b).
Proof.
  intros Hak Hrek Hname Hc Ha1 Hs1 Hm Ha2 Hs2 Hd Hpol Hkey Hb. destruct (ak_public ak Hak) as (N & E & Hpub).
  unfold Verify.Fake_VerifyComputeNode, five_pieces. cbn [Evidence.Data Evidence.Signature].
  rewrite (Unmarshal_Marshal_Public ak). cbn [lib mbind result_bind]. rewrite Hpub. cbn [fwrap wrap_err Verify.rsa_key mbind result_bind].
  rewrite (REKCreation_accepts ak N E a sig1 info1 name) by done. cbn [fwrap wrap_err mbind result_bind].
  rewrite Hc. cbn [fwrap lib wrap_err mbind result_bind]. rewrite Ha1. cbn [fwrap lib wrap_err mbind result_bind].
  rewrite (TPMQuote_accepts ak N E info2 sig2 m data v) by done. cbn [fwrap wrap_err mbind result_bind].
  rewrite (TPMT_accepts m policy rek name) by done. cbn [fwrap wrap_err mbind result_bind].
  rewrite (Unmarshal_Marshal_Public rek). cbn [lib mbind result_bind]. rewrite bool_decide_eq_true_2 by done. cbn [negb].
  rewrite Hkey. cbn [fwrap wrap_err mbind result_bind]. by rewrite Hb.
Qed.

Lemma service_starts NotAfter ak rek akName name nonce data a sig1 sig2 info2 m policy v key b handle :
  created_from on_P256 (encryption_template policy) rek → ObjectName rek = Some name →
  (∀ k, m !! k = if decide (k ∈ RouterCom.AttestPCRSelection) then Some (pcr v k) else None) →
  marshal_message (Evidence.Quote_MarshalProto (Evidence.MkQuote (Marshal_TPMSAttest info2) (Some m))) = Ok data →
  HpkePub rek = Ok key → Kem_MarshalBinary key = Some b → b ≠ [] → Kem_UnmarshalBinaryPublicKey b = Some key →
  RouterCom.NewRouterCom NotAfter handle (five_pieces ak rek akName name nonce data a sig1 sig2) =
    Ok (RouterCom.MkRouterCom key name m handle (five_pieces ak rek akName name nonce data a sig1 sig2) []).
Proof.
  intros (_ & _ & (name' & Hname' & Hnn) & _) Hname Hm Hd Hkey Hb Hbn Hback. assert (name' = name) as -> by congruence.
  set (e := five_pieces ak rek akName name nonce data a sig1 sig2).
  assert (RouterCom.scan_evidence NotAfter (RouterCom.MkScan [] [] ∅ []) e = Ok (RouterCom.MkScan b name m [])) as Hscan.
  { unfold e, five_pieces. cbn [RouterCom.scan_evidence]. unfold RouterCom.scan_item. cbn [Evidence.Type_ Evidence.Data Evidence.Signature mbind result_bind].
    rewrite (unmarshal_marshalled_quote _ _ Hd). cbn [fwrap wrap_err mbind result_bind Evidence.quote_PCRValues].
    unfold RouterCom.tpmptToPubKeyBytes. rewrite Unmarshal_Marshal_Public. cbn [lib mbind result_bind]. rewrite Hkey.
    cbn [fwrap wrap_err mbind result_bind]. by rewrite Hb. }
  unfold RouterCom.NewRouterCom. rewrite Hscan. cbn [mbind result_bind RouterCom.sc_pubKeyBytes RouterCom.sc_name RouterCom.sc_pcrs RouterCom.sc_shutdowns].
  assert ((length b =? 0)%nat = false) as -> by (apply Nat.eqb_neq; by destruct b).
  assert ((length name =? 0)%nat = false) as -> by (apply Nat.eqb_neq; by destruct name).
  assert ((size m =? 0)%nat = false) as ->.
  { apply Nat.eqb_neq. intros Hs%map_size_empty_inv. specialize (Hm 0). by rewrite Hs in Hm. }
  rewrite Hback. cbn [lib mbind result_bind]. by rewrite (golden_accepts m v).
Qed.

(** C7. An honest node is accepted.  On any TPM that works as specified, with room for
    what the setup loads, whatever its registers, its persistent objects and its NV
    memory hold: preparing it and collecting the evidence end without an error, the
    verifier of test deployments accepts the evidence and returns the public key of
    the request encryption key that is now in the TPM; the service starts from the same
    evidence, with that key, its name, and the values the attested registers have; and
    a session for these values satisfies the policy of the key in the TPM. *)
Theorem honest_node_accepted t NotAfter nonce d :
  good_handles t → (size (transients (view_of d)) < 2)%nat → (size (sessions (view_of d)) < 3)%nat → 72 ≤ buffer_max (view_of d) →
  (∀ q, is_Some (proto_marshal (M:=Evidence.PbTPMQuoteAttestation) q)) →
  ∃ evidence d' rek key b s,
    (_ ← setupTPM t; collectEvidence t (Ok nonce)) d = Some (Ok evidence, d') ∧
    ob_public <$> objects (view_of d') !! childKeyHandle t = Some rek ∧ HpkePub rek = Ok key ∧ Kem_MarshalBinary key = Some b ∧
    Verify.Fake_VerifyComputeNode fake_secret evidence =
      Ok (Verify.MkComputeData Verify.KEM_P256_HKDF_SHA256 Verify.KDF_HKDF_SHA256 Verify.AEAD_AES128GCM b) ∧
    RouterCom.NewRouterCom NotAfter (childKeyHandle t) evidence = Ok s ∧
    RouterCom.pubKey s = key ∧ ObjectName rek = Some (RouterCom.pubKeyNameBytes s) ∧
    (∀ k, RouterCom.pcrValues s !! k = if decide (k ∈ RouterCom.AttestPCRSelection) then Some (pcr (view_of d) k) else None) ∧
    GetSoftwarePCRPolicyDigest (RouterCom.pcrValues s) = Ok (AuthPolicy rek).
Proof.
  intros Hh Htr Hse Hbuf Htot. pose proof Hh as (Ha & Hp & Hc & Hap & Hac & Hpc & Hnv). set (v := view_of d) in *.
  enough (runs (_ ← setupTPM t; collectEvidence t (Ok nonce)) (λ evidence v', ∃ rek key b s,
    ob_public <$> objects v' !! childKeyHandle t = Some rek ∧ HpkePub rek = Ok key ∧ Kem_MarshalBinary key = Some b ∧
    Verify.Fake_VerifyComputeNode fake_secret evidence =
      Ok (Verify.MkComputeData Verify.KEM_P256_HKDF_SHA256 Verify.KDF_HKDF_SHA256 Verify.AEAD_AES128GCM b) ∧
    RouterCom.NewRouterCom NotAfter (childKeyHandle t) evidence = Ok s ∧
    RouterCom.pubKey s = key ∧ ObjectName rek = Some (RouterCom.pubKeyNameBytes s) ∧
    (∀ k, RouterCom.pcrValues s !! k = if decide (k ∈ RouterCom.AttestPCRSelection) then Some (pcr v k) else None) ∧
    GetSoftwarePCRPolicyDigest (RouterCom.pcrValues s) = Ok (AuthPolicy rek)) v) as Hrun.
  { destruct (Hrun d eq_refl) as (e & d' & E & rek & key & b & s & HQ). by exists e, d', rek, key, b, s. }
  apply runs_bind, runs_bind, runs_wrapf, runs_SetupAttestationKey; [done|fold v; lia|]. intros ak Hak.
  set (v1 := set_objects _ v). apply runs_wrapf. eapply runs_mono.
  { apply runs_SetupEncryptionKeys; [done| |done|done]. unfold v1. by rewrite transients_insert_persistent. }
  intros u v2 (m & policy & rek & name & hash & ticket & [Pm Ppol Prek Pname Phash Piss Pchild Poth Ptk Pdg Ppcr Pbuf]).
  cbn [pcr v1 set_objects] in Pm. change (pcr v1) with (pcr v) in *. change (buffer_max v1) with (buffer_max v) in *.
  assert (objects v2 !! attestationKeyHandle t = Some (MkObject ak_template ak)) as Hako.
  { rewrite Poth by done. unfold v1. cbn. apply lookup_insert_eq. }
  assert (attestation_key signing_scheme (MkObject ak_template ak)) as Hkey by (split_and!; cbn; [set_solver..|by eexists]).
  destruct (rek_key policy rek Prek) as (key & b & Hhp & Hb & Hbn & Hback).
  unfold collectEvidence. eapply runs_bind, runs_wrapf, runs_TPMTPublicAttestor; [done|]. intros akName Hakn. cbn [Evidence.Data Evidence.Signature].
  eapply runs_bind, runs_wrapf, runs_CertifyREKCreationAttestor; [done|done|done|done|done|lia|done|done|done|done|done|].
  intros a sig1 info1 Hc1 Ha1 Hs1. eapply runs_bind, runs_wrapf, runs_TPMQuoteAttestor; [done|done|done|].
  intros info2 sig2 m' data Hm' Ha2 Hs2 Hd. rewrite Ppcr in Hm', Ha2.
  assert (m' = m) as -> by (apply map_eq; intros k; by rewrite Hm', Pm).
  eapply runs_bind, runs_wrapf, runs_TPMTPublicAttestor; [done|]. intros name' Hname'. cbn in Hname'. assert (name' = name) as -> by congruence.
  apply runs_bind, runs_wrapf. apply runs_bind. eapply runs_lift; [done|]. apply runs_ret, runs_ret.
  exists rek, key, b. eexists. split_and!; [by rewrite Pchild|done|done| | | | | |].
  - eapply (verifier_accepts ak rek akName name nonce data a sig1 sig2 info1 info2 m policy v); done.
  - eapply (service_starts NotAfter ak rek akName name nonce data a sig1 sig2 info2 m policy v); done.
  - done.
  - done.
  - done.
  - cbn [RouterCom.pcrValues]. destruct Prek as (_ & -> & _). done.
Qed.
End honest.

(** ** The TPM in software, and one that cannot write *)

Section demo.
#[local] Existing Instances sim_sha sim_tpm2 sim_structs sim_rsa sim_kem sim_curve sim_structs_laws.
#[local] Instance demo_sort : SliceSort := insertion_slice_sort.
#[local] Instance demo_order : RangeOrder := elements_order.
#[local] Instance demo_x509 : Evidence.X509Lib := Evidence.demo_x509.
#[local] Instance demo_hmac : HmacLib := {| hmac_sha256 secret b := sha256 (secret ++ b) |}.
#[local] Instance demo_quote_wire : ProtoWire Evidence.PbTPMQuoteAttestation := Verify.demo_quote_wire.
#[local] Instance demo_quote_laws : ProtoWireLaws Evidence.PbTPMQuoteAttestation.
Proof.
  apply record_wire_laws. intros [q [m|]]; cbn -[string_bytes bytes_string]; rewrite string_bytes_string; [|done]. do 2 f_equal.
  rewrite <- map_fmap_compose. rewrite <- (map_fmap_id m) at 2. apply map_fmap_ext. intros i x _. cbn. apply string_bytes_string.
Qed.

Lemma honest_node_accepted_witness : ∃ evidence (d' : view) b,
  (_ ← setupTPM main_operator; collectEvidence main_operator (Ok [x11])) fresh_tpm = Some (Ok evidence, d') ∧
  Verify.Fake_VerifyComputeNode fake_secret evidence =
    Ok (Verify.MkComputeData Verify.KEM_P256_HKDF_SHA256 Verify.KDF_HKDF_SHA256 Verify.AEAD_AES128GCM b).
Proof.
  destruct (honest_node_accepted (TE:=sim_effects) (RT:=sim_reliable) main_operator (λ _, 0) [x11] fresh_tpm)
    as (evidence & d' & rek & key & b & s & E & _ & _ & _ & Hf & _).
  - unfold good_handles, is_persistent. cbn. lia.
  - vm_compute. lia.
  - vm_compute. lia.
  - cbn. lia.
  - intros q. by eexists.
  - exists evidence, d', b. split; [exact E|exact Hf].
Defined.

(** Writing to NV memory fails, the rest works: the setup fails half way. *)
Definition flaky_Execute {A} (c : tpm2.command A) : view → result goerror A * view :=
  match c with tpm2.NVWrite _ _ _ _ _ => refused | c => sim_Execute c end.
Lemma flaky_ok {A} (c : tpm2.command A) v a v' : flaky_Execute c v = (Ok a, v') → effect sim_P256 c v a v'.
Proof. destruct c; intros E; first [exact (sim_ok _ _ _ _ E)|by unfold flaky_Execute, refused in E]. Qed.
Lemma flaky_err {A} (c : tpm2.command A) v e v' : flaky_Execute c v = (Err e, v') → v' = v.
Proof. destruct c; intros E; first [exact (sim_err _ _ _ _ E)|unfold flaky_Execute, refused in E; by simplify_eq]. Qed.
Definition flaky_device : TpmDevice := {| device := view; Execute A := flaky_Execute |}.
Definition flaky_effects : TpmEffects (TD:=flaky_device) sim_P256 :=
  {| view_of (v : device (TpmDevice:=flaky_device)) := v; Execute_ok A := flaky_ok; Execute_err A := flaky_err |}.
Definition flaky_start : device (TpmDevice:=flaky_device) := fresh_tpm.
Definition flaky_run := setupTPM (TD:=flaky_device) main_operator flaky_start.

Lemma setupTPM_leaves_nothing_witness : ∃ e (d' : view), flaky_run = Some (Err e, d') ∧ sessions d' = ∅ ∧
  is_Some (objects d' !! childKeyHandle main_operator) ∧ ∀ h, is_transient h → objects d' !! h = None.
Proof.
  assert (match flaky_run with Some (Err _, d') => bool_decide (is_Some (objects (d' : view) !! childKeyHandle main_operator)) | _ => false end = true)
    as Hrun by (vm_compute; reflexivity).
  destruct flaky_run as [[[u|e] d']|] eqn:E; try discriminate Hrun. apply bool_decide_eq_true in Hrun.
  destruct (setupTPM_leaves_nothing (TD:=flaky_device) (TE:=flaky_effects)) with (t := main_operator) (d := flaky_start) (r := @Err failure unit e) (d' := d')
    as [Ho Hs].
  - intros h d He. destruct (sim_enabled (tpm2.FlushContext h) d He) as ([] & d1 & E1). by exists d1.
  - unfold is_persistent. cbn. lia.
  - unfold is_persistent. cbn. lia.
  - unfold is_persistent. cbn. lia.
  - exact E.
  - exists e, d'. split; [done|]. split; [exact Hs|]. split; [exact Hrun|]. intros h Hh. etrans; [exact (Ho h Hh)|apply lookup_empty].
Defined.
End demo.
