(* ===== verification/Attest.v ===== *)
(** The other attestors of [attestation/attest]: TEE reports and TDX collateral,
    certificates of cloud providers and of Nvidia, and the event log.  Devices, cloud
    services and the libraries that parse what they return are classes or arguments;
    values inside error texts and log lines are left out. *)

From Stdlib Require Import Strings.Ascii.
From Stdlib Require Strings.String.
From S2P Require Import Prelude Bytes Base64 GoLib GoStrings TpmKeys TpmOps TpmSpec TpmStore Statement.
From S2P Require Evidence Verify.
Import Verify (TeeLib, tdx_quote, snp_attestation, QuoteToProto, url_Path).

(** ** Libraries *)

(** Fields of a certificate of [crypto/x509]. *)
Class CertFields {X : Evidence.X509Lib} := {
  Issuer_CommonName : Evidence.certificate → string;
  cert_Signature : Evidence.certificate → list byte;
  CRLDistributionPoints : Evidence.certificate → list string;
  IssuingCertificateURL : Evidence.certificate → list string;
}.

(** [encoding/pem]: type and bytes of the first block, and what follows it. *)
Class PemLib := { pem_Decode : list byte → option (string * list byte * list byte) }.

(** [pcs] of [go-tdx-guest]: the URLs of Intel's service, the headers its issuer
    chains come in, and the FMSPC extension of a certificate. *)
Class PcsLib {X : Evidence.X509Lib} := {
  PckCrlURL : string → string;
  QeIdentityURL : string;
  TcbInfoURL : string → string;
  SgxPckCrlIssuerChainPhrase : string;
  SgxQeIdentityIssuerChainPhrase : string;
  TcbInfoIssuerChainPhrase : string;
  PckCertificateExtensions_FMSPC : Evidence.certificate → result goerror string;
}.

(** The parts of a quote, the errors of [verify], and [abi] and [verify] of
    [go-sev-guest]; verifying a report fetches its certificates. *)
Class TeeParts {X : Evidence.X509Lib} {TL : TeeLib} := {
  QuoteV4 : Type;
  as_QuoteV4 : tdx_quote → option QuoteV4;
  PckCertChain : QuoteV4 → option (list byte);
  ErrPCKCertChainNil : goerror;
  ErrPCKCertChainInvalid : goerror;
  snp_report : Type;
  ReportToProto : list byte → result goerror snp_report;
  ReportToAbiBytes : snp_report → result goerror (list byte);
  ReportToSignatureDER : list byte → result goerror (list byte);
  CertTable_Unmarshal : list byte → result goerror unit;
  GetAttestationFromReport : snp_report → result goerror snp_attestation;
  Marshal_SnpAttestation : snp_attestation → result goerror (list byte);
}.

(** What answers requests: the getter of the Intel services and plain HTTP, where
    reading the body of an answer can fail as well. *)
Class Network := {
  net : Type;
  getter_Get : string → net → result goerror (Evidence.Headers * list byte) * net;
  http_Get : string → net → result goerror (result goerror (list byte)) * net;
}.

(** Changing the scheme of a parsed URL. *)
Class UrlScheme {U : UrlLib} := { with_scheme : url → string → url }.

Definition liberr {A} (r : result goerror A) : result failure A := wrap_err Failed r.

(** Programs that send requests. *)
Section net_programs.
Context {NW : Network}.
Definition N (A : Type) : Type := net → result failure A * net.
#[global] Instance N_ret : MRet N := λ A a n, (Ok a, n).
#[global] Instance N_bind : MBind N := λ A B k m n,
  let '(r, n) := m n in match r with Ok a => k a n | Err e => (Err e, n) end.
Definition nlift {A} (r : result failure A) : N A := λ n, (r, n).
Definition nwrap {A} (msg : string) (m : N A) : N A := λ n, let '(r, n) := m n in (fwrap msg r, n).
Definition get (url : string) : N (Evidence.Headers * list byte) := λ n, let '(r, n) := getter_Get url n in (liberr r, n).

Lemma N_bind_ok {A B} (m : N A) (k : A → N B) n b n' :
  (m ≫= k) n = (Ok b, n') ↔ ∃ a n1, m n = (Ok a, n1) ∧ k a n1 = (Ok b, n').
Proof. unfold mbind, N_bind. destruct (m n) as [[a|e] n1]; naive_solver. Qed.
Lemma nlift_ok {A} (r : result failure A) n a n' : nlift r n = (Ok a, n') ↔ r = Ok a ∧ n' = n.
Proof. unfold nlift. naive_solver. Qed.
Lemma nwrap_ok {A} msg (m : N A) n a n' : nwrap msg m n = (Ok a, n') ↔ m n = (Ok a, n').
Proof. unfold nwrap. destruct (m n) as [[b|e] n1]; cbn; naive_solver. Qed.
Lemma get_ok url n a n' : get url n = (Ok a, n') ↔ getter_Get url n = (Ok a, n').
Proof. unfold get, liberr. destruct (getter_Get url n) as [[b|e] n1]; cbn; naive_solver. Qed.
End net_programs.
#[export] Hint Rewrite @N_bind_ok @nlift_ok @nwrap_ok @get_ok @result_bind_ok @fwrap_ok @lib_ok : net.

(** ** [url.QueryUnescape] *)

Definition hex_value (c : ascii) : option Z :=
  let n := Z.of_N (N_of_ascii c) in
  if (48 <=? n) && (n <=? 57) then Some (n - 48)
  else if (97 <=? n) && (n <=? 102) then Some (n - 87)
  else if (65 <=? n) && (n <=? 70) then Some (n - 55)
  else None.
Definition percent : ascii := "%"%char.
Definition plus : ascii := "+"%char.
Definition space : ascii := " "%char.

Fixpoint unescape (l : list ascii) : option (list ascii) :=
  match l with
  | [] => Some []
  | c :: l =>
      if bool_decide (c = percent) then
        match l with
        | a :: b :: l => x ← hex_value a; y ← hex_value b; cons (char_of (16 * x + y)) <$> unescape l
        | _ => None
        end
      else cons (if bool_decide (c = plus) then space else c) <$> unescape l
  end.
Definition QueryUnescape (s : string) : option string := of_chars <$> unescape (chars s).

(** ** Issuer chains and quotes *)

Section tee.
Context {X : Evidence.X509Lib} {CF : CertFields} {PL : PemLib} {PC : PcsLib} {TL : TeeLib} {TP : TeeParts}.
Context {R : RangeOrder} {WC : ProtoWire Evidence.PbTDXCollateral}.

Abbreviation certificate := Evidence.certificate.
Abbreviation piece := Evidence.SignedEvidencePiece.

Definition platformIssuer : string := "Intel SGX PCK Platform CA".
Definition platformIssuerID : string := "platform".
Definition processorIssuer : string := "Intel SGX PCK Processor CA".
Definition processorIssuerID : string := "processor".
Definition certificateType : string := "CERTIFICATE".

Definition extractCaFromPckCert (pckCert : certificate) : result failure string :=
  let pckIssuer := Issuer_CommonName pckCert in
  if bool_decide (pckIssuer = platformIssuer) then Ok platformIssuerID
  else if bool_decide (pckIssuer = processorIssuer) then Ok processorIssuerID
  else fail "nil certificate".

(** The intermediate certificate and the root. *)
Definition headerToIssuerChain (header : Evidence.Headers) (phrase : string) : result failure (certificate * certificate) :=
  match header !! phrase with
  | None => fail "issuer chain is empty"
  | Some [chain] =>
      if bool_decide (chain = ""%string) then fail "issuer chain certificates missing"
      else
        certChain ← lib "unable to decode issuer chain" (QueryUnescape chain);
        '(type, der, rem) ← lib "could not parse PEM formatted signing certificate" (pem_Decode (string_bytes certChain));
        if bool_decide (rem = []) then fail "could not parse PEM formatted signing certificate"
        else if negb (bool_decide (type = certificateType)) then fail "unexpected PEM block type"
        else
          intermediateCert ← fwrap "could not interpret DER bytes of signing certificate" (lib "x509" (Evidence.ParseCertificate der));
          '(type, der, rem) ← lib "could not parse PEM formatted root certificate" (pem_Decode rem);
          if negb (bool_decide (rem = [])) then fail "could not parse PEM formatted root certificate"
          else if negb (bool_decide (type = certificateType)) then fail "unexpected PEM block type"
          else
            rootCert ← fwrap "could not interpret DER bytes of root certificate" (lib "x509" (Evidence.ParseCertificate der));
            Ok (intermediateCert, rootCert)
  | Some _ => fail "issuer chain is expected to be of size 1"
  end.

Record PCKCertificateChain := MkChain { PCKCertificate : certificate; IntermediateCertificate : certificate; RootCertificate : certificate }.

(** A block of the chain that is a certificate, and what follows it. *)
Definition chain_block (rem : list byte) : result failure (list byte * list byte) :=
  match pem_Decode rem with
  | Some (type, der, rem) => if bool_decide (type = certificateType) then Ok (der, rem) else Err (Failed ErrPCKCertChainInvalid)
  | None => Err (Failed ErrPCKCertChainInvalid)
  end.
Definition more_follows (rem : list byte) : result failure unit :=
  if bool_decide (rem = []) then Err (Failed ErrPCKCertChainInvalid) else Ok tt.

Definition ExtractChainFromQuoteV4 (quote : QuoteV4) : result failure PCKCertificateChain :=
  match PckCertChain quote with
  | None => Err (Failed ErrPCKCertChainNil)
  | Some certChainBytes =>
      '(pck, rem) ← chain_block certChainBytes;
      _ ← more_follows rem;
      pckCert ← fwrap "could not interpret PCK leaf certificate DER bytes" (lib "x509" (Evidence.ParseCertificate pck));
      '(intermediate, rem) ← chain_block rem;
      _ ← more_follows rem;
      intermediateCert ← fwrap "could not interpret Intermediate CA certificate DER bytes" (lib "x509" (Evidence.ParseCertificate intermediate));
      '(root, rem) ← chain_block rem;
      if negb (bool_decide (rem = [])) && negb (bool_decide (rem = [x00])) then fail "unexpected trailing bytes were found in PCK Certificate Chain"
      else
        rootCert ← fwrap "could not interpret Root CA certificate DER bytes" (lib "x509" (Evidence.ParseCertificate root));
        Ok (MkChain pckCert intermediateCert rootCert)
  end.

Definition ExtractChainFromQuote (quote : tdx_quote) : result failure PCKCertificateChain :=
  match as_QuoteV4 quote with Some q => ExtractChainFromQuoteV4 q | None => fail "unsupported quote type" end.

(** ** Reports of TEE devices *)

Definition ReportSize : nat := 1184.
Definition ReportDataSize : nat := 64.

(** The device supports TDX or fails with the error; the chain is used before its
    error is looked at. *)
Definition tdx_piece (chain : result failure PCKCertificateChain) (rawQuoteBytes : list byte) : result failure piece :=
  match chain with
  | Err _ => Err Panicked
  | Ok chain => Ok (Evidence.MkPiece Evidence.TdxReport rawQuoteBytes (cert_Signature (RootCertificate chain)))
  end.
Definition TDXTEEAttestor_CreateSignedEvidence (Nonce : list byte) (IsSupported : result goerror unit)
    (GetRawQuote : list byte → result goerror (list byte)) : result failure piece :=
  _ ← liberr IsSupported;
  if negb (bool_decide (length Nonce = ReportDataSize)) then fail "the TEENonce size is wrong. TDX device requires 64"
  else
    rawQuoteBytes ← liberr (GetRawQuote Nonce);
    report ← lib "could not parse attestation report" (QuoteToProto rawQuoteBytes);
    tdx_piece (ExtractChainFromQuote report) rawQuoteBytes.

(** The same for both SEV-SNP attestors once they have the report. *)
Definition snp_piece (raw report : list byte) : result failure piece :=
  report ← liberr (ReportToProto report);
  attestation ← liberr (GetAttestationFromReport report);
  attestationBytes ← liberr (Marshal_SnpAttestation attestation);
  Ok (Evidence.MkPiece Evidence.SevSnpReport attestationBytes raw).
Definition SEVSNPTEEAttestor_CreateSignedEvidence (Nonce : list byte) (IsSupported : bool)
    (GetRawQuote : list byte → result goerror (list byte)) : result failure piece :=
  if negb IsSupported then fail "SEVSNP or configfs is not supported on this platform"
  else if negb (bool_decide (length Nonce = ReportDataSize)) then fail "the TEENonce size is wrong. SEV-SNP device requires 64"
  else
    raw ← liberr (GetRawQuote Nonce);
    snp_piece raw raw.

Definition RawReportToSignedEvidencePiece (raw : list byte) : result failure piece :=
  if (length raw <? ReportSize)%nat then fail "raw report is too small"
  else
    let reportBytes := take ReportSize raw in
    let certBytes := drop ReportSize raw in
    report ← fwrap "could not parse attestation report" (liberr (ReportToProto reportBytes));
    _ ← fwrap "could not parse certificate table" (liberr (CertTable_Unmarshal certBytes));
    raw ← fwrap "could not interpret report" (liberr (ReportToAbiBytes report));
    signature ← liberr (ReportToSignatureDER reportBytes);
    Ok (Evidence.MkPiece Evidence.SevSnpReport raw signature).

(** Which TEE: the device files, then two looks at the kernel messages, which may not
    be there to read. *)
Inductive TEEType := NoTEE | Tdx | SevSnp.
Definition checkTDXInDmesg (dmesg : option string) : bool :=
  match dmesg with Some output => str_contains output "Memory Encryption Features active: Intel TDX" | None => false end.
Definition checkSEVSNPInDmesg (dmesg : option string) : bool :=
  match dmesg with Some output => str_contains output "Memory Encryption Features active: AMD SEV" | None => false end.
Definition GetTEEType (sev_guest tdx_guest : bool) (dmesg1 dmesg2 : option string) : TEEType :=
  if sev_guest then SevSnp
  else if tdx_guest then Tdx
  else if checkTDXInDmesg dmesg1 then Tdx
  else if checkSEVSNPInDmesg dmesg2 then SevSnp
  else NoTEE.

(** ** TDX collateral *)

Definition Collateral_MarshalBinary (cb : Evidence.TDXCollateral) : result failure (list byte) :=
  match Evidence.Collateral_MarshalProto cb with
  | None => Err Panicked
  | Some p => liberr (marshal_message p)
  end.

Section collateral.
Context {NW : Network}.

Definition getQeIdentity : N (Evidence.Headers * list byte) := get QeIdentityURL.
Definition getTcbInfo (fmspc : string) : N (Evidence.Headers * list byte) := get (TcbInfoURL fmspc).

Definition TDXCollateralAttestor_CreateSignedEvidence (pckCertificate : certificate) : N piece :=
  ca ← nlift (fwrap "failed to extract ca from pck cert" (extractCaFromPckCert pckCertificate));
  pckCrl ← nwrap "failed to get crl" (get (PckCrlURL ca));
  pckCrlCerts ← nlift (fwrap "failed to get pck crl certs" (headerToIssuerChain pckCrl.1 SgxPckCrlIssuerChainPhrase));
  qe ← nwrap "qe identity get request failed" getQeIdentity;
  qeCerts ← nlift (fwrap "failed to get qe certs" (headerToIssuerChain qe.1 SgxQeIdentityIssuerChainPhrase));
  rootURL ← nlift (match CRLDistributionPoints qeCerts.2 with
                   | [url] => Ok url
                   | _ => fail "got more root certificate revocation lists than expected: %!w(<nil>)"
                   end);
  rootCrl ← nwrap "failed to get root crl" (get rootURL);
  fmspc ← nlift (liberr (PckCertificateExtensions_FMSPC pckCertificate));
  tcb ← nwrap "failed to get tcb info" (getTcbInfo fmspc);
  tcbCerts ← nlift (fwrap "failed to get tcb certs" (headerToIssuerChain tcb.1 TcbInfoIssuerChainPhrase));
  cbBytes ← nlift (fwrap "failed to marshal certificate bundle" (Collateral_MarshalBinary
    (Evidence.MkCollateral rootCrl.2 rootCrl.1 pckCrl.2 pckCrl.1 (Some pckCrlCerts.2) (Some pckCrlCerts.1)
       qe.2 qe.1 (Some qeCerts.2) (Some qeCerts.1) tcb.2 tcb.1 (Some tcbCerts.2) (Some tcbCerts.1))));
  mret (Evidence.MkPiece Evidence.TdxCollateral cbBytes []).
End collateral.

(** ** Azure: reports through the TPM *)

Section azure.
Context {H : Sha256Lib} {T : Tpm2} {TS : TpmStructs} {TD : TpmDevice}.

Definition AzureTDReportReadNVIndex : Z := 0x1400001.
Definition AzureTDReportWriteNVIndex : Z := 0x1400002.
Definition AzureSEVSNPReportSize : nat := 1184.
Definition AzureSEVSNPReportOffset : nat := 32.
Definition AzureTDXReportSize : nat := 1024.
Definition AzureTDXReportOffset : nat := 32.

(** [raw[offset:offset+size]]; the slice has no room behind what was read, unless the
    TPM answered more than it was asked for. *)
Definition slice (raw : list byte) (offset size : nat) : result failure (list byte) :=
  if (offset + size <=? length raw)%nat then Ok (take size (drop offset raw)) else Err Panicked.

Definition AzureSEVSNPTEEAttestor_CreateSignedEvidence : M piece :=
  let emptyNonce := replicate ReportDataSize x00 in
  _ ← wrapf "failed to write empty nonce to NV index" (WriteToNVRamNoAuth AzureTDReportWriteNVIndex emptyNonce);
  raw ← wrapf "failed to read TD report from NV index" (NVReadEXNoAuthorization AzureTDReportReadNVIndex);
  report ← lift (slice raw AzureSEVSNPReportOffset AzureSEVSNPReportSize);
  lift (snp_piece raw report).

Definition AzureTDXTEEAttestor_CreateSignedEvidence (Nonce : list byte) (GetQuote : list byte → result failure (list byte)) : M piece :=
  _ ← wrapf "failed to write empty nonce to NV index" (WriteToNVRamNoAuth AzureTDReportWriteNVIndex Nonce);
  raw ← wrapf "failed to read TD report from NV index" (NVReadEXNoAuthorization AzureTDReportReadNVIndex);
  report ← lift (slice raw AzureTDXReportOffset AzureTDXReportSize);
  rawQuoteBytes ← lift (fwrap "failed to get tdx report" (GetQuote report));
  report ← lift (lib "could not parse attestation report" (QuoteToProto rawQuoteBytes));
  chain ← lift (fwrap "failed to extract chain" (ExtractChainFromQuote report));
  lift (tdx_piece (Ok chain) rawQuoteBytes).

(** ** Certificates of attestation keys *)

Definition GceAKCertNVIndexRSA : Z := 0x01c10000.
Definition AzureAKCertNVIndexRSA : Z := 0x1C101D0.

Definition GceAkCertificateAttestor_CreateSignedEvidence : M piece :=
  certData ← NVReadEXNoAuthorization GceAKCertNVIndexRSA;
  cert ← lift (fwrap "failed to parse Certificate" (lib "x509" (Evidence.ParseCertificate certData)));
  mret (Evidence.MkPiece Evidence.GceAkCertificate certData (cert_Signature cert)).

(** The loop tries shorter and shorter prefixes, down to 801 bytes. *)
Fixpoint try_prefixes (tpmDerBytes : list byte) (end_ : nat) : option certificate :=
  match end_ with
  | O => None
  | Datatypes.S shorter =>
      if (800 <? end_)%nat then
        match Evidence.ParseCertificate (take end_ tpmDerBytes) with
        | Some certificate => Some certificate
        | None => try_prefixes tpmDerBytes shorter
        end
      else None
  end.
Definition ParseAzureAKCertificate (tpmDerBytes : list byte) : result failure certificate :=
  match Evidence.ParseCertificate tpmDerBytes with
  | Some certificate => Ok certificate
  | None => lib "could not parse azure AK certificate" (try_prefixes tpmDerBytes (length tpmDerBytes))
  end.

Definition AzureAkCertificateAttestor_CreateSignedEvidence : M piece :=
  certData ← NVReadEXNoAuthorization AzureAKCertNVIndexRSA;
  cert ← lift (fwrap "failed to parse azure certificate from nv ram" (ParseAzureAKCertificate certData));
  mret (Evidence.MkPiece Evidence.AzureAkCertificate (Evidence.Raw cert) (cert_Signature cert)).
End azure.

(** ** The metadata service of Azure *)

Definition URLEncoding : Encoding := MkEncoding "-" "_" true.
Definition AzureTDXReportURL : string := "http://169.254.169.254".

(** An answer: status, the length it declares, and its body as it is read; and the JSON
    decoder that refuses unknown fields. *)
Record quote_answer := MkQuoteAnswer { qa_StatusCode : Z; qa_ContentLength : Z; qa_Body : result goerror (list byte) }.

(** [json.Marshal] of a structure with one text of base64 characters. *)
Definition quote_body (report : list byte) : list byte :=
  string_bytes ("{" +:+ of_chars ["034"%char] +:+ "report" +:+ of_chars ["034"%char; ":"%char; "034"%char]
    +:+ EncodeToString URLEncoding report +:+ of_chars ["034"%char] +:+ "}").

Definition HTTPMetadataQuoteService_GetQuote (Do : string → list byte → result goerror quote_answer)
    (decode_quote : list byte → option string) (report : list byte) : result failure (list byte) :=
  response ← fwrap "Request failed" (liberr (Do (AzureTDXReportURL +:+ "/acc/tdquote") (quote_body report)));
  body ← match qa_Body response with Ok body => Ok body | Err _ => fail "Failed to read response body" end;
  if negb (qa_StatusCode response =? 200) || (qa_ContentLength response =? 0) then fail "Request failed"
  else
    quote ← lib "Error unmarshalling quote response from azure" (decode_quote body);
    lib "Error decoding quote from azure" (DecodeString RawURLEncoding quote).

(** ** The intermediate certificate of GCE *)

Section gce.
Context {U : UrlLib} {US : UrlScheme} {NW : Network}.

Definition allowedDomain : string := "storage.googleapis.com".
Definition HasSuffix (s suffix : string) : bool := bool_decide (is_Some (strip (rev (chars suffix)) (rev (chars s)))).

Definition CheckDomainAndSchemeGetter (urlUnverified : string) : N certificate :=
  parsedURL ← nlift (lib "invalid URL" (url_parse urlUnverified));
  if negb (HasSuffix (url_host parsedURL) allowedDomain) && negb (bool_decide (url_host parsedURL = allowedDomain)) then
    nlift (fail "URL host must be storage.googleapis.com or its subdomain")
  else
    let parsedURL := if negb (bool_decide (url_scheme parsedURL = "https"%string)) then with_scheme parsedURL "https" else parsedURL in
    body ← nwrap "failed to download certificate" (λ n, let '(r, n) := http_Get (url_string parsedURL) n in (liberr r, n));
    certData ← nlift (liberr body);
    nlift (fwrap "failed to parse certificate" (lib "x509" (Evidence.ParseCertificate certData))).

Fixpoint get_certs (certificateGetter : string → N certificate) (urls : list string) : N (list certificate) :=
  match urls with
  | [] => mret []
  | url :: urls =>
      cert ← nwrap "failed to get intermediate cert" (certificateGetter url);
      certs ← get_certs certificateGetter urls;
      mret (cert :: certs)
  end.
Definition GceAkIntermediateCertificateAttestor_CreateSignedEvidence (tpmCert : certificate)
    (certificateGetter : string → N certificate) : N piece :=
  intermediateCerts ← get_certs certificateGetter (IssuingCertificateURL tpmCert);
  match intermediateCerts with
  | [intermediateCert] =>
      mret (Evidence.MkPiece Evidence.GceAkIntermediateCertificate (Evidence.Raw intermediateCert) (cert_Signature intermediateCert))
  | _ => nlift (fail "multiple intermediate certs found")
  end.
End gce.

(** ** Nvidia *)

(** The provider's answer: whether the GPU passed, and the token. *)
Record AttestationResult := MkAttestation { Result : bool; JWTToken : option string }.

(** Also the result the attestor then holds. *)
Definition NVidiaAttestor_CreateSignedEvidence (Nonce : list byte) (evidenceType : Evidence.EvidenceType)
    (Attest : list byte → result goerror AttestationResult) (held : option AttestationResult) :
    result failure piece * option AttestationResult :=
  if negb (bool_decide (length Nonce = 32%nat)) then (fail "the TEENonce size is wrong. TDX device requires 32 bytes", held)
  else
    match Attest Nonce with
    | Err err => (Err (Failed (ErrorWrap "failed to get remote evidence" err)), None)
    | Ok res =>
        (if negb (Result res) then fail "attestation failed"
         else match JWTToken res with
              | None => Err Panicked (* the raw token is logged *)
              | Some _ => fwrap "failed to create evidence piece" (liberr (Evidence.SignedEvidencePieceFromJWT (JWTToken res) evidenceType))
              end, Some res)
    end.

(** What is used of a key of the key set. *)
Record JWK := MkJWK { Kid : string; X5c : list string }.

Section nvidia.
Context {J : JsonLib} (json_object : list byte → option (gmap string any)).

(** The first key the token names. *)
Fixpoint find_key (kid : string) (keys : list JWK) : result failure certificate :=
  match keys with
  | [] => fail "no matching key found"
  | key :: keys =>
      if bool_decide (Kid key = kid) then
        match X5c key with
        | [] => fail "no X5C certificate chain found"
        | [first] | [first; _] =>
            certDer ← lib "failed to decode certificate from base64" (DecodeString StdEncoding first);
            lib "x509" (Evidence.ParseCertificate certDer)
        | _ => fail "multiple certificates found in X5C"
        end
      else find_key kid keys
  end.

Definition GetCertificateForJWT (jwtToken : string) (jwks : list JWK) : result failure certificate :=
  match Evidence.Split Evidence.dot jwtToken with
  | [part0; _; _] =>
      headerBytes ← lib "failed to decode JWT header" (DecodeString RawURLEncoding part0);
      header ← lib "failed to unmarshal JWT header" (json_object headerBytes);
      kid ← lib "JWT header missing 'kid' claim" (header !! "kid"%string ≫= any_string);
      find_key kid jwks
  | _ => fail "invalid JWT format"
  end.

(** The answer of the key service: its status and its body as it is read. *)
Definition fetchNvidiaJWKS (jwks_Unmarshal : list byte → option (list JWK)) (answer : result goerror (Z * result goerror (list byte))) :
    result failure (list JWK) :=
  '(status, body) ← fwrap "failed to fetch JWKS" (liberr answer);
  if negb (status =? 200) then fail "failed to fetch JWKS, status code"
  else
    body ← fwrap "failed to read JWKS response" (liberr body);
    lib "failed to unmarshal JWKS" (jwks_Unmarshal body).

Definition GetCertificate jwks_Unmarshal (answer : result goerror (Z * result goerror (list byte))) (jwtToken : string) : result failure certificate :=
  jwks ← fwrap "failed to fetch JWKS" (fetchNvidiaJWKS jwks_Unmarshal answer);
  GetCertificateForJWT jwtToken jwks.

Definition NvidiaCCIntermediateCertificateAttestor_CreateSignedEvidence (JWTToken : string) (evidenceType : Evidence.EvidenceType)
    (GetCertificate : string → result failure certificate) : result failure piece :=
  intermediateCertificate ← fwrap "failed to get intermediate certificate" (GetCertificate JWTToken);
  Ok (Evidence.MkPiece evidenceType (Evidence.Raw intermediateCertificate) (cert_Signature intermediateCertificate)).
End nvidia.

(** ** The event log *)

(** What is read, a library that parses and replays it against registers and extracts
    the state of the firmware. *)
Definition EventLogAttestor_CreateSignedEvidence {WL : ProtoWire Verify.FirmwareLogState} {log : Type}
    (ParseAndReplay : list byte → list Evidence.MeasurementRegister → result goerror log)
    (FirmwareLogState : log → result goerror Verify.FirmwareLogState)
    (LogReader : result goerror (list byte)) (ExpectedPCRValues : list Evidence.MeasurementRegister) : result failure piece :=
  rawEventLog ← liberr LogReader;
  eventLog ← liberr (ParseAndReplay rawEventLog ExpectedPCRValues);
  flg ← liberr (FirmwareLogState eventLog);
  msg ← liberr (marshal_message flg);
  Ok (Evidence.MkPiece Evidence.EventLog msg []).
End tee.

(** ** Text and PEM *)

(** [url.QueryEscape], as a service uses it. *)
Definition unreserved (c : ascii) : bool :=
  let n := Z.of_N (N_of_ascii c) in
  ((48 <=? n) && (n <=? 57)) || ((65 <=? n) && (n <=? 90)) || ((97 <=? n) && (n <=? 122)) || bool_decide (n ∈ [45; 46; 95; 126]).
Definition upper_digit (n : Z) : ascii := char_of (if n <? 10 then 48 + n else 55 + n).
Definition escape_char (c : ascii) : list ascii :=
  let n := Z.of_N (N_of_ascii c) in
  if unreserved c then [c] else if bool_decide (c = space) then [plus] else [percent; upper_digit (n / 16); upper_digit (n mod 16)].
Definition QueryEscape (s : string) : string := of_chars (chars s ≫= escape_char).

Lemma unescape_escape_char c l : unescape (escape_char c ++ l) = cons c <$> unescape l.
Proof. destruct c as [[] [] [] [] [] [] [] []]; reflexivity. Qed.
Lemma unescape_escape l : unescape (l ≫= escape_char) = Some l.
Proof. induction l as [|c l IH]; [done|]. cbn [mbind list_bind]. by rewrite unescape_escape_char, IH. Qed.
Lemma Unescape_Escape s : QueryUnescape (QueryEscape s) = Some s.
Proof.
  unfold QueryUnescape, QueryEscape. rewrite String.list_ascii_of_string_of_list_ascii, unescape_escape. cbn.
  by rewrite String.string_of_list_ascii_of_string.
Qed.

(** Text with the block of a certificate in front. *)
Class PemLaws {PL : PemLib} := {
  pem_text : list byte → list byte;
  pem_text_cons der : pem_text der ≠ [];
  pem_Decode_text der rest : pem_Decode (pem_text der ++ rest) = Some (certificateType, der, rest);
}.

Section chains.
Context {X : Evidence.X509Lib} {XL : Evidence.X509Laws X} {PL : PemLib} {PLaws : PemLaws}.

(** The chain a service sends is the chain the attestor sees. *)
Lemma issuer_chain_read h phrase (intermediate root : Evidence.certificate) :
  h !! phrase = Some [QueryEscape (bytes_string (pem_text (Evidence.Raw intermediate) ++ pem_text (Evidence.Raw root)))] →
  headerToIssuerChain h phrase = Ok (intermediate, root).
Proof.
  intros Hh. unfold headerToIssuerChain. rewrite Hh. case_bool_decide as Hne.
  - exfalso. apply (f_equal QueryUnescape) in Hne. rewrite Unescape_Escape in Hne. injection Hne as Hne. apply (f_equal string_bytes) in Hne.
    rewrite string_bytes_string in Hne. by apply app_nil in Hne as [?%pem_text_cons _].
  - rewrite Unescape_Escape. cbn [lib mbind result_bind]. rewrite string_bytes_string, pem_Decode_text. cbn [lib mbind result_bind].
    rewrite bool_decide_false by apply pem_text_cons. rewrite (bool_decide_true (certificateType = _)) by done. cbn [negb].
    rewrite Evidence.ParseCertificate_Raw. cbn [lib fwrap wrap_err mbind result_bind].
    rewrite <- (app_nil_r (pem_text (Evidence.Raw root))), pem_Decode_text. cbn [lib mbind result_bind].
    rewrite !bool_decide_true by done. cbn [negb]. by rewrite Evidence.ParseCertificate_Raw.
Qed.
End chains.

(** ** The verifier and Intel's services *)

(** The paths of the URLs, which the verifier tells requests apart by. *)
Class PcsLaws {X : Evidence.X509Lib} {TL : TeeLib} {PC : PcsLib} := {
  PckCrlURL_path ca : url_Path (PckCrlURL ca) = Some "/sgx/certification/v4/pckcrl";
  QeIdentityURL_path : url_Path QeIdentityURL = Some "/tdx/certification/v4/qe/identity";
  TcbInfoURL_path fmspc : url_Path (TcbInfoURL fmspc) = Some "/tdx/certification/v4/tcb";
}.
Definition root_crl_path : string := "/IntelSGXRootCA.der".

Ltac net_steps := repeat match goal with
  | H : (_ ≫= _) _ = (Ok _, _) |- _ => apply N_bind_ok in H as (? & ? & ? & ?)
  | H : nlift _ _ = (Ok _, _) |- _ => apply nlift_ok in H as [? ->]
  | H : nwrap _ _ _ = (Ok _, _) |- _ => apply nwrap_ok in H
  | H : get _ _ = (Ok _, _) |- _ => apply get_ok in H
  | H : fwrap _ _ = Ok _ |- _ => apply fwrap_ok in H
  | H : lib _ _ = Ok _ |- _ => apply lib_ok in H
  | H : liberr _ = Ok _ |- _ => apply wrap_err_ok in H
  | H : _ ≫= _ = Ok _ |- _ => apply result_bind_ok in H as (? & ? & ?)
  end.

Section tdx.
Context {X : Evidence.X509Lib} {XL : Evidence.X509Laws X} {CF : CertFields} {PL : PemLib} {PC : PcsLib} {TL : TeeLib} {TP : TeeParts}.
Context {CL : Verify.CertLib} {EC : Verify.EmbeddedCerts} {R : RangeOrder}.
Context {WC : ProtoWire Evidence.PbTDXCollateral} {WCL : ProtoWireLaws Evidence.PbTDXCollateral} {NW : Network} {PCL : PcsLaws}.

Lemma marshalled_collateral cb b : Collateral_MarshalBinary cb = Ok b → Verify.unmarshal_collateral b = Ok cb.
Proof.
  unfold Collateral_MarshalBinary. destruct (Evidence.Collateral_MarshalProto cb) as [p|] eqn:E; [|done]. intros Hb. net_steps.
  unfold marshal_message in Hb. destruct (proto_marshal p) as [b'|] eqn:Ep; [|done]. injection Hb as ->.
  unfold Verify.unmarshal_collateral, unmarshal_message. rewrite (proto_unmarshal_marshal _ _ Ep). cbn.
  by rewrite (Evidence.Collateral_roundtrip _ _ _ E).
Qed.

(** What the attestor asked for, in this order, and what it was answered. *)
Record asked (ca rootURL fmspc : string) (crl qe root tcb : Evidence.Headers * list byte) (n n' : net) : Prop := {
  asked_in_order : ∃ n1 n2 n3, getter_Get (PckCrlURL ca) n = (Ok crl, n1) ∧ getter_Get QeIdentityURL n1 = (Ok qe, n2) ∧
    getter_Get rootURL n2 = (Ok root, n3) ∧ getter_Get (TcbInfoURL fmspc) n3 = (Ok tcb, n');
}.

Lemma collateral_inv pck n p n' : TDXCollateralAttestor_CreateSignedEvidence pck n = (Ok p, n') →
  ∃ ca rootURL fmspc crl qe root tcb cb, asked ca rootURL fmspc crl qe root tcb n n' ∧ Evidence.Type_ p = Evidence.TdxCollateral ∧
    extractCaFromPckCert pck = Ok ca ∧ PckCertificateExtensions_FMSPC pck = Ok fmspc ∧
    Verify.unmarshal_collateral (Evidence.Data p) = Ok cb ∧
    crl = (Evidence.PckCrlHeaders cb, Evidence.PckCrlBody cb) ∧ qe = (Evidence.QeHeaders cb, Evidence.QeBody cb) ∧
    root = (Evidence.RootCrlHeaders cb, Evidence.RootCrlBody cb) ∧ tcb = (Evidence.TcbHeaders cb, Evidence.TcbBody cb).
Proof.
  unfold TDXCollateralAttestor_CreateSignedEvidence, getQeIdentity, getTcbInfo. intros Hp. net_steps.
  match goal with H : match ?u with _ => _ end = Ok _ |- _ => destruct u as [|url [|]]; [done| |done]; injection H as <- end.
  match goal with H : mret _ _ = _ |- _ => injection H as <- <- end.
  match goal with H : Collateral_MarshalBinary _ = _ |- _ => apply marshalled_collateral in H end.
  repeat match goal with x : Evidence.Headers * list byte |- _ => destruct x end.
  do 8 eexists. split_and!; [constructor; do 3 eexists; split_and!; eassumption|done|eassumption|eassumption|eassumption|done..].
Qed.

(** The verifier accepts the report exactly when the library accepts it with collateral
    from the getter. *)
Definition library_accepts (rawQuote : list byte) (g : string → option (Evidence.Headers * list byte)) : Prop :=
  ∃ q root options, QuoteToProto rawQuote = Some q ∧ Verify.pem_cert Verify.TDXRootCertBytes = Some root ∧
    Verify.RootOfTrustToOptions (Verify.certificateToPEMString (Some root)) = Some options ∧ Verify.TdxQuote q options g = true.

Lemma TDXReport_ok root cb p : Verify.TDXReport root cb p = Ok tt ↔
  ∃ q options, QuoteToProto (Evidence.Data p) = Some q ∧ Verify.RootOfTrustToOptions (Verify.certificateToPEMString (Some root)) = Some options ∧
    Verify.TdxQuote q options (Verify.Getter_Get cb) = true.
Proof.
  unfold Verify.TDXReport. rewrite result_bind_ok. split.
  - intros (q & Hq%lib_ok & Hv). destruct (Verify.RootOfTrustToOptions _) as [o|]; [|done]. exists q, o. by destruct (Verify.TdxQuote _ _ _).
  - intros (q & o & Hq & Ho & Hv). exists q. rewrite lib_ok. split; [done|]. by rewrite Ho, Hv.
Qed.

Lemma GetTDXRootCert_ok root : Verify.GetTDXRootCert = Ok root ↔ Verify.pem_cert Verify.TDXRootCertBytes = Some root.
Proof.
  unfold Verify.GetTDXRootCert, Verify.pem_certificate, Verify.pem_cert. rewrite result_bind_ok, bind_Some.
  setoid_rewrite lib_ok. setoid_rewrite fwrap_ok. by setoid_rewrite lib_ok.
Qed.

Lemma verify_tee_tdx p1 p2 cb : Evidence.Type_ p1 = Evidence.TdxReport → Evidence.Type_ p2 = Evidence.TdxCollateral →
  Verify.unmarshal_collateral (Evidence.Data p2) = Ok cb →
  Verify.verify_tee [p1; p2] = Ok tt ↔ library_accepts (Evidence.Data p1) (Verify.Getter_Get cb).
Proof.
  intros H1 H2 Hcb.
  assert (Verify.maybeGetEvidencePieceFromList Evidence.SevSnpReport [p1; p2] = None ∧
    Verify.maybeGetEvidencePieceFromList Evidence.TdxReport [p1; p2] = Some p1 ∧
    Verify.maybeGetEvidencePieceFromList Evidence.TdxCollateral [p1; p2] = Some p2) as (E1 & E2 & E3).
  { unfold Verify.maybeGetEvidencePieceFromList. cbn [list_find]. by rewrite H1, H2. }
  unfold Verify.verify_tee, library_accepts. rewrite E1, E2, E3. cbn [lib].
  rewrite result_bind_ok. setoid_rewrite GetTDXRootCert_ok. split.
  - intros (root & Hr & Hv). cbn [mbind result_bind] in Hv. rewrite Hcb in Hv. apply fwrap_ok, TDXReport_ok in Hv as (q & o & ? & ? & ?). by exists q, root, o.
  - intros (q & root & o & ? & ? & ? & ?). exists root. split; [done|]. cbn [mbind result_bind]. rewrite Hcb. apply fwrap_ok, TDXReport_ok. by exists q, o.
Qed.

(** A node with TDX, its quote and its collateral. *)
Lemma TDXTEEAttestor_ok Nonce IsSupported GetRawQuote p :
  TDXTEEAttestor_CreateSignedEvidence Nonce IsSupported GetRawQuote = Ok p →
  length Nonce = 64%nat ∧ GetRawQuote Nonce = Ok (Evidence.Data p) ∧ Evidence.Type_ p = Evidence.TdxReport ∧
  ∃ q chain, QuoteToProto (Evidence.Data p) = Some q ∧ ExtractChainFromQuote q = Ok chain ∧
    Evidence.Signature p = cert_Signature (RootCertificate chain).
Proof.
  unfold TDXTEEAttestor_CreateSignedEvidence. intros Hp. apply result_bind_ok in Hp as (? & _ & Hp). case_bool_decide as Hl; [|done].
  cbn [negb] in Hp. net_steps. unfold tdx_piece in *. destruct (ExtractChainFromQuote _) as [chain|] eqn:Ec; [|done].
  match goal with H : Ok _ = Ok p |- _ => injection H as <- end. split_and!; [done|done|done|]. by do 2 eexists.
Qed.

(** C8. The verifier checks the report of a TDX node with what Intel's services told the
    node.  When the node has made its report and its collateral, it asked the services
    for the revocation list of the processor authority that issued its certificate, the
    identity of the quoting enclave, the list of the root, and the TCB information of
    its platform, in this order; the verifier accepts the two pieces exactly when the
    library accepts the quote of the device with a getter that gives, for each of these
    URLs, headers and body exactly as the service answered the node (for the list of the
    root, when its URL has the path the verifier knows). *)
Theorem tdx_collateral_replayed Nonce IsSupported GetRawQuote pck report n collateral n' :
  TDXTEEAttestor_CreateSignedEvidence Nonce IsSupported GetRawQuote = Ok report →
  TDXCollateralAttestor_CreateSignedEvidence pck n = (Ok collateral, n') →
  ∃ rawQuote ca rootURL fmspc crl qe root tcb g,
    GetRawQuote Nonce = Ok rawQuote ∧ extractCaFromPckCert pck = Ok ca ∧ PckCertificateExtensions_FMSPC pck = Ok fmspc ∧
    asked ca rootURL fmspc crl qe root tcb n n' ∧
    (Verify.verify_tee [report; collateral] = Ok tt ↔ library_accepts rawQuote g) ∧
    g (PckCrlURL ca) = Some crl ∧ g QeIdentityURL = Some qe ∧ g (TcbInfoURL fmspc) = Some tcb ∧
    (url_Path rootURL = Some root_crl_path → g rootURL = Some root).
Proof.
  intros (_ & Hq & Ht & _)%TDXTEEAttestor_ok (ca & rootURL & fmspc & crl & qe & root & tcb & cb & Ha & Ht' & Hca & Hf & Hcb & -> & -> & -> & ->)%collateral_inv.
  exists (Evidence.Data report), ca, rootURL, fmspc. do 4 eexists. exists (Verify.Getter_Get cb).
  split_and!; [done|done|done|exact Ha|by apply verify_tee_tdx|..]; unfold Verify.Getter_Get.
  - by rewrite PckCrlURL_path.
  - by rewrite QeIdentityURL_path.
  - by rewrite TcbInfoURL_path.
  - by intros ->.
Qed.
End tdx.

(** ** Certificates in NV memory *)

Section azure_certificate.
Context {X : Evidence.X509Lib} {XL : Evidence.X509Laws X} {CF : CertFields}.

(** A parser that takes nothing behind the certificate. *)
Definition strict (c : Evidence.certificate) : Prop := ∀ rest, rest ≠ [] → Evidence.ParseCertificate (Evidence.Raw c ++ rest) = None.

Lemma try_prefixes_padded c pad n : strict c → (800 < length (Evidence.Raw c) ≤ n)%nat → (n ≤ length (Evidence.Raw c ++ pad))%nat →
  try_prefixes (Evidence.Raw c ++ pad) n = Some c.
Proof.
  intros Hs. induction n as [|n IH]; intros Hn Hle; [lia|]. cbn [try_prefixes]. rewrite (proj2 (Nat.ltb_lt _ _)) by lia.
  destruct (decide (S n = length (Evidence.Raw c))) as [->|Hne].
  - by rewrite take_app_length, Evidence.ParseCertificate_Raw.
  - rewrite take_app_ge by lia. rewrite Hs; [apply IH; lia|].
    rewrite length_app in Hle. intros Ht%(f_equal length). rewrite length_take in Ht. cbn in Ht. lia.
Qed.

(** Padding is cut off, unless the certificate is short. *)
Lemma ParseAzureAKCertificate_padded c pad : strict c → pad = [] ∨ (800 < length (Evidence.Raw c))%nat →
  ParseAzureAKCertificate (Evidence.Raw c ++ pad) = Ok c.
Proof.
  intros Hs Hp. unfold ParseAzureAKCertificate. destruct (decide (pad = [])) as [->|Hne].
  - by rewrite app_nil_r, Evidence.ParseCertificate_Raw.
  - destruct Hp as [->|Hl]; [done|]. rewrite (Hs pad Hne), try_prefixes_padded; [done|done|rewrite length_app; lia|done].
Qed.
Lemma try_prefixes_short b n : (n ≤ 800)%nat → try_prefixes b n = None.
Proof. destruct n; cbn [try_prefixes]; [done|]. intros Hn. by rewrite (proj2 (Nat.ltb_ge _ _)) by lia. Qed.

Context {H : Sha256Lib} {T : Tpm2} {TS : TpmStructs} {RL : RsaLib} {TD : TpmDevice} {on_P256 : Z → Z → Prop}.
Context {TE : TpmEffects on_P256} {RT : ReliableTpm on_P256} {SL : TpmStructsLaws TS}.

(** An NV index that holds data and can be read. *)
Definition holds (i : Z) (data : list byte) (v : view) : Prop := ∃ n, nvs v !! i = Some n ∧ nv_data n = Some data ∧
  OwnerRead ∈ nv_attributes_of n ∧ nv_size n = Z.of_nat (length data) ∧ nv_size n < 2 ^ 16 ∧ 0 < buffer_max v.
Lemma runs_NVReadEX_holds i data Q v : holds i data v → Q data v → runs (NVReadEXNoAuthorization i) Q v.
Proof. intros (n & ? & ? & ? & ? & ? & ?) HQ. by eapply runs_NVReadEX. Qed.

(** The piece of an Azure node is the certificate in its NV memory, whatever follows it
    there; that of a node at GCE is what the memory holds. *)
Lemma azure_ak_certificate_read c pad v : strict c → pad = [] ∨ (800 < length (Evidence.Raw c))%nat →
  holds AzureAKCertNVIndexRSA (Evidence.Raw c ++ pad) v →
  runs AzureAkCertificateAttestor_CreateSignedEvidence
    (λ p v', v' = v ∧ p = Evidence.MkPiece Evidence.AzureAkCertificate (Evidence.Raw c) (cert_Signature c)) v.
Proof.
  intros Hs Hp Hh. apply runs_bind, (runs_NVReadEX_holds _ _ _ _ Hh), runs_bind.
  eapply runs_lift; [by rewrite ParseAzureAKCertificate_padded|]. by apply runs_ret.
Qed.
Lemma gce_ak_certificate_read c v : holds GceAKCertNVIndexRSA (Evidence.Raw c) v →
  runs GceAkCertificateAttestor_CreateSignedEvidence
    (λ p v', v' = v ∧ p = Evidence.MkPiece Evidence.GceAkCertificate (Evidence.Raw c) (cert_Signature c)) v.
Proof.
  intros Hh. apply runs_bind, (runs_NVReadEX_holds _ _ _ _ Hh), runs_bind.
  eapply runs_lift; [by rewrite Evidence.ParseCertificate_Raw|]. by apply runs_ret.
Qed.
End azure_certificate.

(** ** Certificates that are fetched *)

Section fetched.
Context {X : Evidence.X509Lib} {XL : Evidence.X509Laws X} {U : UrlLib} {US : UrlScheme} {NW : Network}.

Lemma strip_Some prefix l rest : strip prefix l = Some rest ↔ l = prefix ++ rest.
Proof.
  induction prefix as [|p prefix IH] in l |- *; cbn [strip app]; [naive_solver|].
  destruct l as [|c l]; [done|]. case_bool_decide as Hc; [rewrite IH|]; naive_solver.
Qed.
Lemma HasSuffix_spec s suffix : HasSuffix s suffix = true ↔ ∃ front, s = front +:+ suffix.
Proof.
  unfold HasSuffix. rewrite bool_decide_eq_true. split.
  - intros [r Hr%strip_Some]. exists (of_chars (rev r)). apply (f_equal (@rev _)) in Hr. rewrite rev_involutive, rev_app_distr, rev_involutive in Hr.
    rewrite <- (String.string_of_list_ascii_of_string s), <- (String.string_of_list_ascii_of_string (_ +:+ _)). f_equal.
    by rewrite chars_app, String.list_ascii_of_string_of_list_ascii.
  - intros [front ->]. exists (rev (chars front)). apply strip_Some. by rewrite chars_app, rev_app_distr.
Qed.

(** The request goes to a host that ends in the name of the service, over https; the host
    need not be a subdomain of it, as the error text says. *)
Lemma CheckDomainAndSchemeGetter_ok s n c n' :
  (∀ u t, url_scheme (with_scheme u t) = t) → (∀ u t, url_host (with_scheme u t) = url_host u) →
  CheckDomainAndSchemeGetter s n = (Ok c, n') →
  ∃ u u' front data, url_parse s = Some u ∧ url_host u = front +:+ allowedDomain ∧ url_scheme u' = "https"%string ∧ url_host u' = url_host u ∧
    http_Get (url_string u') n = (Ok (Ok data), n') ∧ Evidence.ParseCertificate data = Some c.
Proof.
  intros Hsch Hhost Hc. unfold CheckDomainAndSchemeGetter in Hc. apply N_bind_ok in Hc as (u & n1 & Hu & Hc). net_steps.
  assert (∃ front, url_host u = front +:+ allowedDomain) as [front Hf].
  { apply HasSuffix_spec. destruct (HasSuffix _ _) eqn:E; [done|]. exfalso. case_bool_decide as Heq; [|done].
    assert (HasSuffix allowedDomain allowedDomain = true) by done. congruence. }
  destruct (negb _ && _); [done|]. exists u.
  set (v := if negb (bool_decide (url_scheme u = "https"%string)) then with_scheme u "https" else u) in Hc. cbv zeta in Hc.
  assert (url_scheme v = "https"%string ∧ url_host v = url_host u) as [Hv1 Hv2].
  { unfold v. case_bool_decide; cbn [negb]; [done|]. by rewrite Hsch, Hhost. }
  net_steps. exists v, front. destruct (http_Get (url_string v) n) as [[body|e] n2] eqn:Eg; cbn in *; [|congruence].
  simplify_eq. eexists. split_and!; try done.
Qed.
End fetched.

(** ** The token of a GPU *)

Section gpu.
Context {X : Evidence.X509Lib} {XL : Evidence.X509Laws X} {CF : CertFields} {CL : Verify.CertLib} {EC : Verify.EmbeddedCerts} {JW : Verify.JwtLib}.

(** A token in three parts, the last the base64 text of its signature. *)
Definition token (part0 part1 : string) (sig : list byte) : string :=
  (part0 +:+ "." +:+ part1) +:+ "." +:+ EncodeToString RawURLEncoding sig.
Definition plain (part : string) : Prop := Evidence.no_char Evidence.dot part = true.

Lemma token_ToJWT part0 part1 sig t :
  token part0 part1 sig = Evidence.ToJWT (Evidence.MkPiece t (Evidence.jwt_content part0 part1) sig).
Proof. unfold token, Evidence.ToJWT, Evidence.jwt_content. cbn [Evidence.Data]. by rewrite String.string_of_list_byte_of_string. Qed.

Lemma token_piece part0 part1 sig t : plain part0 → plain part1 →
  Evidence.SignedEvidencePieceFromJWT (Some (token part0 part1 sig)) t = Ok (Evidence.MkPiece t (Evidence.jwt_content part0 part1) sig).
Proof. intros H0 H1. rewrite (token_ToJWT _ _ _ t). by apply Evidence.jwt_roundtrip. Qed.

Lemma NVidiaAttestor_ok Nonce t Attest held p st :
  NVidiaAttestor_CreateSignedEvidence Nonce t Attest held = (Ok p, st) →
  ∃ raw, Attest Nonce = Ok (MkAttestation true (Some raw)) ∧ st = Some (MkAttestation true (Some raw)) ∧
    Evidence.SignedEvidencePieceFromJWT (Some raw) t = Ok p.
Proof.
  unfold NVidiaAttestor_CreateSignedEvidence. case_bool_decide; [|done]. cbn [negb].
  destruct (Attest Nonce) as [[[] [raw|]]|]; cbn [Result JWTToken negb]; intros [= Hp <-]; try done.
  apply fwrap_ok, wrap_err_ok in Hp. by exists raw.
Qed.

Context {J : JsonLib} (json_object : list byte → option (gmap string any)).

(** The certificate is the first of one or two of the first key that the header of the
    token names. *)
Lemma find_key_ok kid keys c : find_key kid keys = Ok c ↔
  ∃ i key first others der, list_find (λ k, Kid k = kid) keys = Some (i, key) ∧ X5c key = first :: others ∧ (length others ≤ 1)%nat ∧
    DecodeString StdEncoding first = Some der ∧ Evidence.ParseCertificate der = Some c.
Proof.
  induction keys as [|key keys IH]; cbn [find_key list_find]; [naive_solver|]. case_bool_decide as Hk.
  - rewrite decide_True by done. split.
    + destruct (X5c key) as [|first [|second [|third others]]] eqn:E; intros Hc; [done|..|done]; net_steps;
        do 5 eexists; (split_and!; [done|exact E|cbn; lia|eassumption|eassumption]).
    + intros (i & key' & first & others & der & [= <- <-] & -> & Hl & Hd & Hp).
      destruct others as [|? [|]]; cbn in Hl; [..|lia]; rewrite Hd; cbn; by rewrite Hp.
  - rewrite decide_False by done. rewrite IH. split; intros (i & key' & first & others & der & Hf & Hr).
    + exists (S i), key', first, others, der. by rewrite Hf.
    + destruct (list_find _ keys) as [[i' k']|]; [|done]. injection Hf as <- <-. exists i', k', first, others, der. by split.
Qed.

Lemma GetCertificateForJWT_ok part0 part1 sig keys c : plain part0 → plain part1 →
  GetCertificateForJWT json_object (token part0 part1 sig) keys = Ok c ↔
  ∃ headerBytes header kid, DecodeString RawURLEncoding part0 = Some headerBytes ∧ json_object headerBytes = Some header ∧
    header !! "kid"%string ≫= any_string = Some kid ∧ find_key kid keys = Ok c.
Proof.
  intros H0 H1. unfold GetCertificateForJWT, token.
  assert (Evidence.Split Evidence.dot ((part0 +:+ "." +:+ part1) +:+ "." +:+ EncodeToString RawURLEncoding sig) =
    [part0; part1; EncodeToString RawURLEncoding sig]) as ->.
  { rewrite Evidence.append_assoc'.
    change ("." +:+ ?b) with (String Evidence.dot b). change ((String Evidence.dot part1) +:+ ?b) with (String Evidence.dot (part1 +:+ b)).
    rewrite Evidence.Split_append by done. f_equal. change ("." +:+ ?b) with (String Evidence.dot b).
    rewrite Evidence.Split_append by done. by rewrite Evidence.Split_no_char by apply Evidence.jwt_signature_no_dot. }
  rewrite result_bind_ok. setoid_rewrite lib_ok. setoid_rewrite result_bind_ok. setoid_rewrite lib_ok. setoid_rewrite result_bind_ok.
  setoid_rewrite lib_ok. naive_solver.
Qed.

Lemma GetIntermediateCert_ok p c : Evidence.Data p = Evidence.Raw c →
  ∀ c', Verify.GetIntermediateCert p = Ok c' ↔ c' = c ∧ ∃ root, Verify.pem_cert Verify.NRASRootCert = Some root ∧
    Verify.x509_Verify c (Verify.UnhandledCriticalExtensions c) [root] [] = true.
Proof.
  intros Hd c'. unfold Verify.GetIntermediateCert, Verify.pem_cert. rewrite Hd, Evidence.ParseCertificate_Raw. cbn [lib mbind result_bind].
  destruct (Verify.pem_Decode Verify.NRASRootCert) as [block|]; cbn; [|naive_solver].
  destruct (Evidence.ParseCertificate block) as [root|]; cbn; [|naive_solver].
  unfold Verify.verifyIntermediateCert. cbn. destruct (Verify.x509_Verify _ _ _ _) eqn:E; cbn; split.
  - intros [= <-]. split; [done|]. by exists root.
  - by intros [-> _].
  - done.
  - intros (_ & root' & [= <-] & Hv). congruence.
Qed.

(** The verifier checks the very token that Nvidia's service issued, with the key of the
    certificate the key set has for it, once that is below the embedded root. *)
Theorem nvidia_token_verified Nonce eta certType Attest held gpu st part0 part1 sig keys certPiece :
  plain part0 → plain part1 → eta ≠ certType →
  NVidiaAttestor_CreateSignedEvidence Nonce eta Attest held = (Ok gpu, st) →
  (JWTToken <$> st) = Some (Some (token part0 part1 sig)) →
  NvidiaCCIntermediateCertificateAttestor_CreateSignedEvidence (token part0 part1 sig) certType
    (λ jwt, GetCertificateForJWT json_object jwt keys) = Ok certPiece →
  ∃ cert, GetCertificateForJWT json_object (token part0 part1 sig) keys = Ok cert ∧
    (Verify.verify_nvidia eta certType [gpu; certPiece] = Ok tt ↔
      ∃ root c x y, Verify.pem_cert Verify.NRASRootCert = Some root ∧
        Verify.x509_Verify cert (Verify.UnhandledCriticalExtensions cert) [root] [] = true ∧
        Verify.cert_PublicKey cert = ECDSAPublicKey c x y ∧ Verify.jwt_Parse (token part0 part1 sig) (c, x, y) = Some true).
Proof.
  intros H0 H1 Hne (raw & Ha & -> & Hp)%NVidiaAttestor_ok [= ->] Hc. rewrite token_piece in Hp by done. injection Hp as <-.
  unfold NvidiaCCIntermediateCertificateAttestor_CreateSignedEvidence in Hc. net_steps. rename x into cert.
  match goal with H : Ok _ = Ok _ |- _ => injection H as <- end. exists cert. split; [done|].
  set (gpu := Evidence.MkPiece eta _ sig). set (cp := Evidence.MkPiece certType _ _).
  assert (Verify.maybeGetEvidencePieceFromList eta [gpu; cp] = Some gpu) as E1.
  { unfold Verify.maybeGetEvidencePieceFromList. cbn [list_find]. by rewrite decide_True. }
  assert (Verify.maybeGetEvidencePieceFromList certType [gpu; cp] = Some cp) as E2.
  { unfold Verify.maybeGetEvidencePieceFromList. cbn [list_find]. by rewrite decide_False, decide_True. }
  unfold Verify.verify_nvidia. rewrite E1, E2. cbn [lib mbind result_bind]. rewrite result_bind_ok. setoid_rewrite fwrap_ok.
  setoid_rewrite (GetIntermediateCert_ok cp cert eq_refl).
  change (bytes_string (Evidence.Data gpu) +:+ "." +:+ EncodeToString RawURLEncoding (Evidence.Signature gpu)) with (Evidence.ToJWT gpu).
  assert (Evidence.ToJWT gpu = token part0 part1 sig) as Htok by (symmetry; apply token_ToJWT). split.
  - intros (c' & (-> & root & Hr & Hv) & Hj). rewrite Htok in Hj. unfold Verify.VerifyJWT in Hj.
    destruct (Verify.cert_PublicKey cert) as [|c x y|] eqn:Ek; [by net_steps| |by net_steps]. destruct (Verify.jwt_Parse _ _) as [[]|] eqn:Ep; [|done..]. by exists root, c, x, y.
  - intros (root & c & x & y & Hr & Hv & Hk & Hj). exists cert. split; [split; [done|by exists root]|].
    unfold Verify.VerifyJWT. rewrite Hk, Htok, Hj. done.
Qed.
End gpu.

(** ** Laws and a run *)

Section demo.
#[local] Existing Instance Evidence.demo_x509.
#[local] Existing Instance Evidence.demo_x509_laws.
#[local] Existing Instance Verify.demo_certs.
#[local] Existing Instance Verify.demo_embedded.
#[local] Instance demo_range : RangeOrder := elements_order.

#[local] Instance demo_fields : CertFields := {|
  Issuer_CommonName _ := platformIssuer; cert_Signature c := [c]; CRLDistributionPoints _ := [root_crl_path]; IssuingCertificateURL _ := [] |}.

(** A block is its bytes, each behind a mark, and an end mark. *)
Fixpoint marked_block (b : list byte) : option (list byte * list byte) :=
  match b with
  | x00 :: rest => Some ([], rest)
  | x01 :: c :: rest => '(der, rest) ← marked_block rest; Some (c :: der, rest)
  | _ => None
  end.
Definition marked_text (der : list byte) : list byte := (der ≫= λ c, [x01; c]) ++ [x00].
Lemma marked_block_text der rest : marked_block (marked_text der ++ rest) = Some (der, rest).
Proof. unfold marked_text. rewrite <- app_assoc. induction der as [|c der IH]; cbn in *; [done|]. by rewrite IH. Qed.
#[local] Instance demo_pem : PemLib := {| pem_Decode b := '(der, rest) ← marked_block b; Some (certificateType, der, rest) |}.
#[local] Instance demo_pem_laws : PemLaws.
Proof.
  refine {| pem_text := marked_text |}.
  - intros der Hd. unfold marked_text in Hd. by apply app_nil in Hd as [_ ?].
  - intros der rest. cbn -[marked_block]. by rewrite marked_block_text.
Defined.

#[local] Instance demo_pcs : PcsLib := {|
  PckCrlURL _ := "/sgx/certification/v4/pckcrl"; QeIdentityURL := "/tdx/certification/v4/qe/identity"; TcbInfoURL _ := "/tdx/certification/v4/tcb";
  SgxPckCrlIssuerChainPhrase := "Pck"; SgxQeIdentityIssuerChainPhrase := "Qe"; TcbInfoIssuerChainPhrase := "Tcb";
  PckCertificateExtensions_FMSPC _ := Ok "50806f000000"%string |}.
(** A quote is its certificates; the library wants all collateral. *)
#[local] Instance demo_tee : TeeLib := {|
  snp_attestation := unit; Verify.Unmarshal_SnpAttestation _ := Some tt; Verify.SnpAttestationContext _ _ := true;
  tdx_quote := list byte; QuoteToProto b := Some b; Verify.tdx_options := string; Verify.RootOfTrustToOptions s := Some s;
  Verify.TdxQuote _ _ g := bool_decide (Forall (λ u, is_Some (g u)) [PckCrlURL ""; QeIdentityURL; TcbInfoURL ""; root_crl_path]);
  url_Path u := Some u |}.
#[local] Instance demo_parts : TeeParts := {|
  QuoteV4 := list byte; as_QuoteV4 q := Some q; PckCertChain q := Some q;
  ErrPCKCertChainNil := ErrorNew "nil"; ErrPCKCertChainInvalid := ErrorNew "invalid";
  snp_report := unit; ReportToProto _ := Ok tt; ReportToAbiBytes _ := Ok []; ReportToSignatureDER _ := Ok []; CertTable_Unmarshal _ := Ok tt;
  GetAttestationFromReport _ := Ok tt; Marshal_SnpAttestation _ := Ok [] |}.
#[local] Instance demo_pcs_laws : PcsLaws.
Proof. by constructor. Qed.

(** The service answers each URL with itself and a chain, and counts the requests. *)
Definition demo_chain : string := QueryEscape (bytes_string (marked_text [x21] ++ marked_text [x20])).
#[local] Instance demo_network : Network := {|
  net := nat;
  getter_Get u n := (Ok ({["Pck" := [demo_chain]; "Qe" := [demo_chain]; "Tcb" := [demo_chain]]}, string_bytes u), S n);
  http_Get u n := (Ok (Ok []), S n) |}.

(** Lists in the same style: a mark before each element. *)
Definition marked_list {A} (f : A → list byte) (l : list A) : list byte := (l ≫= λ a, x01 :: f a) ++ [x00].
Fixpoint read_list {A} (p : list byte → option (A * list byte)) (fuel : nat) (b : list byte) : option (list A * list byte) :=
  match fuel, b with
  | S _, x00 :: rest => Some ([], rest)
  | S fuel, x01 :: rest => '(a, rest) ← p rest; '(l, rest) ← read_list p fuel rest; Some (a :: l, rest)
  | _, _ => None
  end.
Definition reads {A} (p : list byte → option (A * list byte)) (f : A → list byte) : Prop := ∀ a rest, p (f a ++ rest) = Some (a, rest).
Definition list_reader {A} (p : list byte → option (A * list byte)) (b : list byte) : option (list A * list byte) := read_list p (length b) b.
Lemma reads_list {A} (p : list byte → option (A * list byte)) f : reads p f → reads (list_reader p) (marked_list f).
Proof.
  intros Hp l rest. unfold list_reader, marked_list. rewrite <- app_assoc.
  assert (∀ fuel, (length l < fuel)%nat → read_list p fuel ((l ≫= λ a, x01 :: f a) ++ [x00] ++ rest) = Some (l, rest)) as Hr.
  { induction l as [|a l IH]; intros [|fuel] Hf; cbn in Hf; try lia; [done|]. cbn [mbind list_bind app read_list].
    rewrite <- app_assoc, Hp. cbn [mbind option_bind]. rewrite IH by lia. done. }
  apply Hr. rewrite !length_app. enough (length l ≤ length (l ≫= λ a, x01 :: f a))%nat by (cbn; lia).
  clear Hr. induction l as [|a l IH]; [done|]. cbn [mbind list_bind]. rewrite length_app. cbn [length]. lia.
Qed.
Definition text_reader (b : list byte) : option (string * list byte) := '(t, rest) ← marked_block b; Some (bytes_string t, rest).
Lemma reads_text : reads text_reader (λ t, marked_text (string_bytes t)).
Proof. intros t rest. unfold text_reader. rewrite marked_block_text. cbn. by rewrite bytes_string_bytes. Qed.

(** A message as a list of fields, each a list of lists of texts. *)
Definition bytes_field (b : list byte) : list (list string) := [[bytes_string b]].
Definition field_bytes (f : list (list string)) : list byte := string_bytes (default "" (head (default [] (head f)))).
Definition headers_field (h : list (string * list string)) : list (list string) := (λ e, e.1 :: e.2) <$> h.
Definition field_headers (f : list (list string)) : list (string * list string) := (λ e, (default "" (head e), tail e)) <$> f.
Lemma field_bytes_field b : field_bytes (bytes_field b) = b.
Proof. apply string_bytes_string. Qed.
Lemma field_headers_field h : field_headers (headers_field h) = h.
Proof. unfold field_headers, headers_field. rewrite <- list_fmap_compose. rewrite <- (list_fmap_id h) at 2. apply list_fmap_ext. by intros _ [] _. Qed.

Definition collateral_fields (p : Evidence.PbTDXCollateral) : list (list (list string)) :=
  [headers_field (Evidence.pb_root_crl_headers p); headers_field (Evidence.pb_pck_crl_headers p);
   headers_field (Evidence.pb_qe_headers p); headers_field (Evidence.pb_tcb_headers p)] ++
  (bytes_field <$> [Evidence.pb_root_crl_body p; Evidence.pb_pck_crl_body p; Evidence.pb_pck_crl_root_certificate p;
     Evidence.pb_pck_crl_intermediate_certificate p; Evidence.pb_qe_body p; Evidence.pb_qe_root_certificate p;
     Evidence.pb_qe_intermediate_certificate p; Evidence.pb_tcb_body p; Evidence.pb_tcb_root_certificate p; Evidence.pb_tcb_intermediate_certificate p]).
Definition fields_collateral (fs : list (list (list string))) : Evidence.PbTDXCollateral :=
  let h i := field_headers (default [] (fs !! i)) in let b i := field_bytes (default [] (fs !! i)) in
  Evidence.MkPbCollateral (b 4%nat) (h 0%nat) (b 5%nat) (h 1%nat) (b 6%nat) (b 7%nat) (b 8%nat) (h 2%nat) (b 9%nat) (b 10%nat) (b 11%nat) (h 3%nat) (b 12%nat) (b 13%nat).
Definition fields_text : list (list (list string)) → list byte := marked_list (marked_list (marked_list (λ t, marked_text (string_bytes t)))).
Definition fields_reader : list byte → option (list (list (list string)) * list byte) := list_reader (list_reader (list_reader text_reader)).
#[local] Instance demo_wire : ProtoWire Evidence.PbTDXCollateral := {|
  proto_marshal m := Some (fields_text (collateral_fields m));
  proto_unmarshal b := '(fs, _) ← fields_reader b; Some (fields_collateral fs) |}.
#[local] Instance demo_wire_laws : ProtoWireLaws Evidence.PbTDXCollateral.
Proof.
  constructor. intros m b [= <-]. cbn [proto_unmarshal demo_wire]. rewrite <- (app_nil_r (fields_text _)).
  unfold fields_reader, fields_text. rewrite (reads_list _ _ (reads_list _ _ (reads_list _ _ reads_text))). cbn [mbind option_bind]. f_equal.
  destruct m. unfold fields_collateral, collateral_fields. cbn -[field_bytes bytes_field field_headers headers_field].
  by rewrite !field_bytes_field, !field_headers_field.
Qed.

Definition demo_quote : list byte := marked_text [x22] ++ marked_text [x21] ++ marked_text [x20] ++ [x00].
Definition demo_report : Evidence.SignedEvidencePiece := Evidence.MkPiece Evidence.TdxReport demo_quote [x20].
Definition demo_start : net := 0%nat.
Definition demo_end : net := 4%nat.
Definition demo_pck : Evidence.certificate := x22.
Definition demo_collateral : Evidence.SignedEvidencePiece :=
  match (TDXCollateralAttestor_CreateSignedEvidence demo_pck demo_start).1 with Ok p => p | Err _ => demo_report end.

(** The node's evidence is accepted. *)
Lemma tdx_collateral_replayed_witness : Verify.verify_tee [demo_report; demo_collateral] = Ok tt ∧
  ∃ g : string → option (Evidence.Headers * list byte), library_accepts demo_quote g ∧
    g QeIdentityURL = Some ({["Pck" := [demo_chain]; "Qe" := [demo_chain]; "Tcb" := [demo_chain]]}, string_bytes QeIdentityURL).
Proof.
  destruct (tdx_collateral_replayed (replicate 64 x07) (Ok tt) (λ _, Ok demo_quote) demo_pck demo_report demo_start demo_collateral demo_end)
    as (rawQuote & ca & rootURL & fmspc & crl & qe & root & tcb & g & Hq & _ & _ & [(n1 & n2 & n3 & _ & Hqe & _)] & Hv & _ & Hg & _).
  - vm_compute. reflexivity.
  - vm_compute. reflexivity.
  - injection Hq as <-. injection Hqe as <- <-.
    assert (Verify.verify_tee [demo_report; demo_collateral] = Ok tt) as Hok by (vm_compute; reflexivity).
    split; [exact Hok|]. exists g. split; [by apply Hv|exact Hg].
Defined.
End demo.
