(* ===== verification/ClientParams.v ===== *)
(** The client's configuration and request parameters ([request_params.go],
    [config.go], [option.go], [models/models.go], and of [client.go] the first
    part of [NewFromConfig], the setters, [paramsForRequest] and
    [validNormalizedHost]). *)

From Stdlib Require Import Floats.SpecFloat Strings.Ascii.
From stdpp Require Import pretty.
From S2P Require Import Prelude GoLib Float64 GoStrings Http AnonErrors Credit.
From S2P Require Currency Tags Messages.

(** ** [models/models.go] *)

Record Model := MkModel { Name : string; ContextLength : Z }.

(** The embedded [models.yaml]. *)
Definition models : list Model :=
  [MkModel "llama3.2:1b" 128000; MkModel "qwen2:1.5b-instruct" 32768;
   MkModel "gpt-oss:20b" 32768; MkModel "gemma3:1b" 32768].

(** The conversion of a float to [int64] truncates; [undef] stands for a number
    out of range. *)
Definition to_int64 (undef : float64 → Z) (x : float64) : Z :=
  match (if f64_ltb x f64_zero then f64_ceil x else f64_floor x) with
  | Some z => if (- 2 ^ 63 <=? z) && (z <? 2 ^ 63) then z else undef x
  | None => undef x
  end.

Definition OutputTokenCreditMultiplier : float64 := f64_of_Z 2.

Section params.
Context (undef : float64 → Z) {R : RangeOrder}.

Definition Model_GetMaxCreditAmountPerRequest (m : Model) : Z :=
  to_int64 undef (f64_mul (f64_of_Z (ContextLength m)) OutputTokenCreditMultiplier).

Definition GetModel (name : string) : result err Model :=
  match list_find (λ model, Name model = name) models with
  | Some (_, model) => Ok model
  | None => Err (ErrNew "model not found")
  end.
Definition IsValid (name : string) : bool := is_ok (GetModel name).

Definition GetMaxCreditAmountPerRequest : Z :=
  Model_GetMaxCreditAmountPerRequest
    (foldl (λ maxModel model, if ContextLength maxModel <? ContextLength model then model else maxModel)
      (MkModel "" 0) models).

(** ** [request_params.go] *)

Record RequestParams := MkParams { CreditAmount : Z; NodeTags : list string }.

Definition DefaultRequestParams : RequestParams := MkParams 0 ["llm"].

Definition CreditAmountHeader : string := "X-Confsec-Credit-Amount".
Definition NodeTagsHeader : string := "X-Confsec-Node-Tags".
Definition BadgeHeader : string := "X-Confsec-Badge".
Definition DeprecatedCreditLimitHeader : string := "X-Confident-Security-Credit-Limit".
Definition DeprecatedNodeTagsHeader : string := "X-Confident-Security-Node-Tags".

Definition Values (h : Header) (key : string) : list string := default [] (h !! CanonicalHeaderKey key).

Definition parse_tags (val : string) : list string :=
  filter (λ tag, tag ≠ "") (TrimSpace <$> Split val ",").

Definition RequestParamsFromConfSecHeaders (h : Header) (p : RequestParams) : result err RequestParams :=
  let limitVal := Get h CreditAmountHeader in
  let limitVal := if bool_decide (limitVal = "") then Get h DeprecatedCreditLimitHeader else limitVal in
  amount ← (if bool_decide (limitVal = "") then Ok (CreditAmount p)
            else match ParseInt limitVal with
                 | Some limit => Ok limit
                 | None => Err (ErrNew "failed to parse credit amount header value as an integer")
                 end);
  let tagsVals := Values h NodeTagsHeader in
  let tagsVals := if (length tagsVals =? 0)%nat then Values h DeprecatedNodeTagsHeader else tagsVals in
  Ok (MkParams amount (match tagsVals with [] => NodeTags p | val :: _ => parse_tags val end)).

(** ** Configuration *)

Definition ErrMaxCreditAmountViolated : err := ErrNew "maximum credit amount violated".

Definition RoundCreditAmount (creditAmount : Z) : result err Z :=
  cur ← currency_err (Currency.Rounded undef (f64_of_Z creditAmount) f64_one);
  currency_err (Currency.Amount cur).

Record Config := MkConfig {
  APIKey : string;
  APIURL : string;
  cfg_MaxCandidateNodes : Z;
  cfg_DefaultRequestParams : RequestParams;
  cfg_MaxCreditAmountPerRequest : Z;
}.
Definition DefaultConfig (DefaultAPIURL : string) : Config :=
  MkConfig "" DefaultAPIURL 3 DefaultRequestParams 0.

(** What the setters and requests use of a client. *)
Record Client := MkClient {
  params : RequestParams;
  maxCandidateNodes : Z;
  maxCreditAmountPerRequest : Z;
}.

(** The options that change these fields. *)
Inductive Option :=
| WithCreditAmount (limit : Z)
| WithNodeTags (tags : list string)
| WithMaxCandidateNodes (maxCandidates : Z).
Definition apply_option (c : Client) (opt : Option) : Client :=
  match opt with
  | WithCreditAmount limit => MkClient (MkParams limit (NodeTags (params c))) (maxCandidateNodes c) (maxCreditAmountPerRequest c)
  | WithNodeTags tags => MkClient (MkParams (CreditAmount (params c)) tags) (maxCandidateNodes c) (maxCreditAmountPerRequest c)
  | WithMaxCandidateNodes n => MkClient (params c) n (maxCreditAmountPerRequest c)
  end.

Definition validateCreditAmount (c : Client) (limit : Z) : result err unit :=
  if limit <? 1 then Err (ErrNew "credit amount is zero or negative")
  else if maxCreditAmountPerRequest c <? limit then Err (Wrapped "credit amount is over max credit amount" ErrMaxCreditAmountViolated)
  else Ok tt.

Definition tags_err {A} (r : result goerror A) : result err A := wrap_err (λ _, ErrNew "invalid tags") r.

(** The check of the model tags, common to [NewFromConfig] and the setters: at
    most one, of a known model. *)
Definition check_model_tags (t : gset string) : result err unit :=
  match Tags.GetValues t "model" with
  | [] => Ok tt
  | [name] => _ ← GetModel name; Ok tt
  | _ => Err (ErrNew "multiple models specified in default node tags")
  end.

Definition default_credit_amount (amount : Z) (defaultTags : gset string) : result err Z :=
  if amount =? 0 then _ ← check_model_tags defaultTags; Ok GetMaxCreditAmountPerRequest else Ok amount.

(** [NewFromConfig] up to the creation of clients for the services. *)
Definition NewFromConfig (cfg : Config) (opts : list Option) : result err Client :=
  if bool_decide (APIURL cfg = "") then Err (ErrNew "missing auth API url")
  else
    let nodeTags := NodeTags (cfg_DefaultRequestParams cfg) in
    defaultTags ← wrap_err (Wrapped "invalid default tags") (tags_err (Tags.FromSlice nodeTags));
    creditAmount ← default_credit_amount (CreditAmount (cfg_DefaultRequestParams cfg)) defaultTags;
    creditAmount ← RoundCreditAmount creditAmount;
    let maxCreditAmount := cfg_MaxCreditAmountPerRequest cfg in
    let maxCreditAmount := if maxCreditAmount =? 0 then GetMaxCreditAmountPerRequest else maxCreditAmount in
    maxCreditAmount ← RoundCreditAmount maxCreditAmount;
    let c := foldl apply_option (MkClient (MkParams creditAmount nodeTags) (cfg_MaxCandidateNodes cfg) maxCreditAmount) opts in
    if maxCandidateNodes c <? 1 then Err (ErrNew "max candidate nodes should be at least 1")
    else if bool_decide (APIKey cfg = "") then Err (ErrNew "missing api key")
    else _ ← validateCreditAmount c (CreditAmount (params c)); Ok c.

(** ** Setters

    [SetDefaultCreditAmount] is the wallet's answer. *)

Definition SetDefaultCreditAmountPerRequest (SetDefaultCreditAmount : Z → result err unit) (limit : Z) (c : Client) :
    result err unit * Client :=
  match (_ ← validateCreditAmount c limit; SetDefaultCreditAmount limit) with
  | Err e => (Err e, c)
  | Ok _ => (Ok tt, MkClient (MkParams limit (NodeTags (params c))) (maxCandidateNodes c) (maxCreditAmountPerRequest c))
  end.

Definition set_tags (tags : list string) (c : Client) : Client :=
  MkClient (MkParams (CreditAmount (params c)) tags) (maxCandidateNodes c) (maxCreditAmountPerRequest c).

(** The tags are stored before they are checked. *)
Definition SetDefaultNodeTags (tagslist : list string) (c : Client) : result err unit * Client :=
  let c := set_tags tagslist c in
  (newTags ← tags_err (Tags.FromSlice (NodeTags (params c))); check_model_tags newTags, c).

Definition SetDefaultModel (model : string) (c : Client) : result err unit * Client :=
  match Tags.FromSlice (NodeTags (params c)) with
  | Err _ => (Err (ErrNew "failed to convert tags list to Tags"), c)
  | Ok reqTags =>
      match Tags.AddTagPair (Tags.RemoveKey reqTags "model").1 "model" model with
      | Err _ => (Err (ErrNew "failed to add model tag"), c)
      | Ok reqTags => SetDefaultNodeTags (Tags.Slice reqTags) c
      end
  end.

(** ** Requests *)

Definition GetPromptPaths : list string :=
  ["/api/generate"; "/api/chat"; "/v1/completions"; "/v1/chat/completions"].

Definition paramsForRequest (requestParamsFunc : option (Header → RequestParams → result err RequestParams))
    (header : Header) (path : string) (c : Client) : result err RequestParams :=
  p ← match requestParamsFunc with
      | None => Ok (params c)
      | Some f => newParams ← f header (params c); _ ← validateCreditAmount c (CreditAmount newParams); Ok newParams
      end;
  requestTags ← tags_err (Tags.FromSlice (NodeTags p));
  if bool_decide (path ∈ GetPromptPaths) && negb (Tags.ContainsKey requestTags "model") then
    Err (ErrNew "unable to send request without 'model' node tag set and no default fallback model")
  else Ok p.

Definition validNormalizedHost (Host urlHost : string) : result err string :=
  let host := if bool_decide (Host = "") then urlHost else Host in
  host ← (if bool_decide (":"%char ∈ chars host)
          then wrap_err (λ _, ErrNew "failed to split host and port") (SplitHost host) else Ok host);
  if bool_decide (host = Messages.UnroutableHostname) then Ok host
  else Err (ErrNew "hostname must be confsec.invalid").
End params.

(** ** Defaults and requests *)

Section valid.
Context (undef : float64 → Z) {R : RangeOrder}.

Lemma validateCreditAmount_ok c limit :
  validateCreditAmount c limit = Ok tt ↔ 1 ≤ limit ≤ maxCreditAmountPerRequest c.
Proof.
  unfold validateCreditAmount. destruct (Z.ltb_spec limit 1), (Z.ltb_spec (maxCreditAmountPerRequest c) limit);
    split; try done; lia.
Qed.

(** What a caller does with a client. *)
Inductive client_step (SetDefaultCreditAmount : Z → result err unit) : Client → Client → Prop :=
| cs_amount limit c : client_step SetDefaultCreditAmount c (SetDefaultCreditAmountPerRequest SetDefaultCreditAmount limit c).2
| cs_tags tagslist c : client_step SetDefaultCreditAmount c (SetDefaultNodeTags tagslist c).2
| cs_model model c : client_step SetDefaultCreditAmount c (SetDefaultModel model c).2.

Definition client_ok (c : Client) : Prop :=
  1 ≤ maxCandidateNodes c ∧ 1 ≤ CreditAmount (params c) ≤ maxCreditAmountPerRequest c.

Lemma NewFromConfig_ok cfg opts c : NewFromConfig undef cfg opts = Ok c → client_ok c.
Proof.
  unfold NewFromConfig. case_bool_decide; [done|].
  intros (t & _ & H1)%result_bind_ok. apply result_bind_ok in H1 as (a1 & _ & H1).
  apply result_bind_ok in H1 as (a2 & _ & H1). apply result_bind_ok in H1 as (a3 & _ & H1).
  set (c0 := foldl _ _ _) in H1. destruct (Z.ltb_spec (maxCandidateNodes c0) 1); [done|].
  case_bool_decide; [done|]. apply result_bind_ok in H1 as ([] & Hv%validateCreditAmount_ok & [= <-]). done.
Qed.

Lemma client_step_ok S c c' : client_step S c c' → client_ok c → client_ok c' ∧ maxCreditAmountPerRequest c' = maxCreditAmountPerRequest c.
Proof.
  intros Hs [Hn Ha]. destruct Hs as [limit c|tagslist c|model c].
  - unfold SetDefaultCreditAmountPerRequest. destruct (_ ≫= _) as [[]|] eqn:E; [|done].
    apply result_bind_ok in E as ([] & Hv%validateCreditAmount_ok & _). done.
  - done.
  - unfold SetDefaultModel. destruct (Tags.FromSlice _); [|done]. by destruct (Tags.AddTagPair _ _ _).
Qed.

Lemma client_run_ok S c c' :
  rtc (client_step S) c c' → client_ok c → client_ok c' ∧ maxCreditAmountPerRequest c' = maxCreditAmountPerRequest c.
Proof.
  induction 1 as [|c c1 c2 H _ IH]; [done|]. intros Hc. destruct (client_step_ok _ _ _ H Hc) as [Hc1 <-]. by apply IH.
Qed.
End valid.

(** No request costs more than the client allows.  For a client that was
    created and then reconfigured in any way, the default amount stays between 1
    and the maximum fixed at creation; and any request that is let through, with
    or without header overrides, has an amount in the same bounds, tags of legal
    length, and names a model if its path is a prompt path. *)
Theorem request_params_valid (undef : float64 → Z) {R : RangeOrder} S cfg opts c0 c header path p :
  NewFromConfig undef cfg opts = Ok c0 → rtc (client_step S) c0 c →
  (1 ≤ maxCandidateNodes c ∧ 1 ≤ CreditAmount (params c) ≤ maxCreditAmountPerRequest c0) ∧
  (paramsForRequest (Some RequestParamsFromConfSecHeaders) header path c = Ok p →
    1 ≤ CreditAmount p ≤ maxCreditAmountPerRequest c0 ∧
    ∃ t, Tags.FromSlice (NodeTags p) = Ok t ∧ Tags.tags_wf t ∧
      (path ∈ GetPromptPaths → ∃ model, Tags.pair_tag "model" model ∈ t)).
Proof.
  intros H0 Hrun. destruct (client_run_ok _ _ _ Hrun (NewFromConfig_ok _ _ _ _ H0)) as [[Hn Ha] Hm].
  rewrite <- Hm. split; [done|]. unfold paramsForRequest. intros (p' & Hp & H)%result_bind_ok.
  apply result_bind_ok in Hp as (p1 & _ & Hp). apply result_bind_ok in Hp as ([] & Hv%validateCreditAmount_ok & [= ->]).
  apply result_bind_ok in H as (t & Ht%wrap_err_ok & H). destruct (_ && _) eqn:E; [done|]. injection H as ->.
  split; [done|]. exists t. split; [done|]. split; [by eapply Tags.FromSlice_wf|]. intros Hpath.
  rewrite bool_decide_eq_true_2 in E by done. simpl in E. apply negb_false_iff in E. by apply Tags.ContainsKey_spec.
Qed.

Definition demo_config : Config := MkConfig "key" "https://api" 3 (MkParams 100 ["llm"; "model=llama3.2:1b"]) 1000.
Definition demo_client : Client := MkClient (MkParams 100 ["llm"; "model=llama3.2:1b"]) 3 1024.
Lemma request_params_valid_witness :
  1 ≤ CreditAmount (MkParams 50 ["model=x"]) ≤ 1024.
Proof.
  assert (NewFromConfig (λ _, 0) (R:=elements_order) demo_config [] = Ok demo_client) as H by (vm_compute; reflexivity).
  apply (request_params_valid (λ _, 0) (R:=elements_order) (λ _, Ok tt) demo_config [] demo_client demo_client
    {[ "X-Confsec-Credit-Amount" := ["50"]; "X-Confsec-Node-Tags" := [" model=x , "] ]} "/api/chat" (MkParams 50 ["model=x"])
    H (rtc_refl _ _)).
  vm_compute. reflexivity.
Defined.

(** A tag as it can be written in the header. *)
Definition header_tag (tag : string) : Prop := tag ≠ "" ∧ TrimSpace tag = tag ∧ ","%char ∉ chars tag.

Lemma parse_tags_Join tags : tags ≠ [] → Forall header_tag tags → parse_tags (Join tags ",") = tags.
Proof.
  intros Hne Hf. unfold parse_tags. rewrite Split_Join; [|done|eapply Forall_impl; [exact Hf|]; by intros ? (_ & _ & ?)].
  clear Hne. induction Hf as [|t tags (Ht & Htrim & _) _ IH]; [done|].
  rewrite fmap_cons, filter_cons, Htrim, decide_True by done. by f_equal.
Qed.

(** Parameters in headers arrive as written: an amount of 64 bits in decimal
    and a list of tags separated by commas replace the defaults by exactly that
    amount and those tags; without the headers the defaults are kept; an empty
    tags header means no tags. *)
Theorem header_params (amount : Z) tags p :
  in_int64 amount → tags ≠ [] → Forall header_tag tags →
  RequestParamsFromConfSecHeaders
    (SetHeader CreditAmountHeader (pretty amount) (SetHeader NodeTagsHeader (Join tags ",") ∅)) p = Ok (MkParams amount tags) ∧
  RequestParamsFromConfSecHeaders ∅ p = Ok p ∧
  RequestParamsFromConfSecHeaders (SetHeader NodeTagsHeader "" ∅) p = Ok (MkParams (CreditAmount p) []).
Proof.
  intros Ha Hne Hf. split_and!; [|by destruct p|done]. unfold RequestParamsFromConfSecHeaders.
  header_simpl. assert (pretty amount ≠ "") as Hp.
  { intros E. apply ParseInt_pretty in Ha. rewrite E in Ha. done. }
  rewrite !(bool_decide_eq_false_2 _ Hp), ParseInt_pretty by done. cbn [mbind result_bind].
  change (Values (SetHeader CreditAmountHeader (pretty amount) (SetHeader NodeTagsHeader (Join tags ",") ∅)) NodeTagsHeader)
    with (default [] (SetHeader CreditAmountHeader (pretty amount) (SetHeader NodeTagsHeader (Join tags ",") ∅) !! CanonicalHeaderKey NodeTagsHeader)).
  unfold SetHeader. rewrite lookup_insert_ne by (by vm_compute). rewrite lookup_insert_eq. cbn [from_option id length Nat.eqb].
  by rewrite parse_tags_Join.
Qed.

Lemma header_params_witness :
  RequestParamsFromConfSecHeaders
    (SetHeader CreditAmountHeader (pretty 250) (SetHeader NodeTagsHeader (Join ["llm"; "model=gemma3:1b"] ",") ∅)) DefaultRequestParams
    = Ok (MkParams 250 ["llm"; "model=gemma3:1b"]).
Proof.
  apply header_params; [unfold in_int64; lia|done|].
  repeat constructor; try (vm_compute; reflexivity); apply (bool_decide_unpack _); vm_compute; exact Logic.I.
Defined.

(** Default tags are kept even when they are refused.  [SetDefaultNodeTags]
    with a tag that is too long reports an error, but the tags have become the
    defaults: from then on every request without tags of its own fails, and
    [SetDefaultModel] cannot repair it. *)
Theorem refused_tags_stick {R : RangeOrder} tagslist c :
  Exists (λ tag, Tags.MaxTagLength < Tags.tag_len tag)%nat tagslist →
  let '(r, c') := SetDefaultNodeTags tagslist c in
  is_ok r = false ∧ NodeTags (params c') = tagslist ∧
  (∀ header path, Values header NodeTagsHeader = [] → Values header DeprecatedNodeTagsHeader = [] →
    is_ok (paramsForRequest (Some RequestParamsFromConfSecHeaders) header path c') = false) ∧
  ∀ model, ∃ e, SetDefaultModel model c' = (Err e, c').
Proof.
  intros Hbad. cbn [SetDefaultNodeTags].
  assert (∃ e, Tags.FromSlice tagslist = Err e) as [e He].
  { destruct (Tags.FromSlice tagslist) as [t|e] eqn:E; [|by eexists]. exfalso.
    apply Tags.FromSlice_wf in E as [Hwf ->]. apply Exists_exists in Hbad as (tag & Hin & Hlen).
    specialize (Hwf tag ltac:(by apply elem_of_list_to_set)). lia. }
  unfold SetDefaultNodeTags, set_tags. cbn [params NodeTags]. rewrite He. split_and!; [done|done| |].
  - intros header path Hv Hd. unfold paramsForRequest, RequestParamsFromConfSecHeaders. rewrite Hv, Hd.
    cbn [length Nat.eqb params NodeTags].
    destruct (if bool_decide _ then _ else _); [|done]. cbn [mbind result_bind].
    destruct (validateCreditAmount _ _); [|done]. cbn [mbind result_bind NodeTags]. by rewrite He.
  - intros model. unfold SetDefaultModel. cbn [params NodeTags]. rewrite He. by eexists.
Qed.

Definition long_tag : string := of_chars (replicate 513 "x"%char).
Lemma refused_tags_stick_witness :
  is_ok (paramsForRequest (R:=elements_order) (Some RequestParamsFromConfSecHeaders) ∅ "/v1/models"
    (SetDefaultNodeTags (R:=elements_order) [long_tag] demo_client).2) = false.
Proof.
  pose proof (refused_tags_stick (R:=elements_order) [long_tag] demo_client) as H.
  assert (Exists (λ tag, Tags.MaxTagLength < Tags.tag_len tag)%nat [long_tag]) as Hb
    by (left; apply Nat.ltb_lt; vm_compute; reflexivity).
  specialize (H Hb). destruct (SetDefaultNodeTags [long_tag] demo_client) as [r c']. apply H; reflexivity.
Defined.
