(* ===== verification/CMem.v ===== *)
(** The C side of the library in package [main] ([common.go], [registry.go],
    [util.go]): heap blocks, C strings and arrays of them, what [cgo] converts
    between C and Go, and the registry of handles. *)

From S2P Require Import Prelude Bytes.

(** ** The registry

    A handle is a [uintptr]; [add] counts, so that after 2^64 objects it wraps. *)

Section registry.
Context {T : Type}.

Record registry := MkRegistry { reg_m : gmap Z T; nextID : Z }.
Definition newRegistry : registry := MkRegistry ∅ 1.
Definition reg_add (v : T) (r : registry) : Z * registry :=
  (nextID r, MkRegistry (<[nextID r := v]> (reg_m r)) (wrap_u 64 (nextID r + 1))).
Definition reg_get (id : Z) (r : registry) : option T := reg_m r !! id.
Definition reg_remove (id : Z) (r : registry) : registry := MkRegistry (delete id (reg_m r)) (nextID r).
(** Writing through the pointer [get] returned. *)
Definition reg_set (id : Z) (v : T) (r : registry) : registry := MkRegistry (<[id := v]> (reg_m r)) (nextID r).

(** Handles in use were given out. *)
Definition reg_ok (r : registry) : Prop := 1 ≤ nextID r ∧ ∀ id, is_Some (reg_get id r) → 1 ≤ id < nextID r.

(** [r'] comes from [r] with at most [k] new handles: while the counter does not
    wrap, no old handle comes back to life. *)
Definition reg_evolves (k : Z) (r r' : registry) : Prop :=
  reg_ok r → nextID r + k < 2 ^ 64 →
  reg_ok r' ∧ nextID r ≤ nextID r' ≤ nextID r + k ∧
  ∀ id, id < nextID r → is_Some (reg_get id r') → is_Some (reg_get id r).

Lemma newRegistry_ok : reg_ok newRegistry.
Proof. split; [cbn; lia|]. intros id []. done. Qed.

Lemma reg_evolves_refl k r : 0 ≤ k → reg_evolves k r r.
Proof. intros Hk Hok Hb. split_and!; [done|lia|lia|done]. Qed.
Lemma reg_evolves_trans k1 k2 r1 r2 r3 :
  0 ≤ k2 → reg_evolves k1 r1 r2 → reg_evolves k2 r2 r3 → reg_evolves (k1 + k2) r1 r3.
Proof.
  intros Hk H12 H23 Hok Hb. destruct (H12 Hok ltac:(lia)) as (Hok2 & Hn2 & Hd2).
  destruct (H23 Hok2 ltac:(lia)) as (Hok3 & Hn3 & Hd3). split_and!; [done|lia|lia|].
  intros id Hid Hs. apply Hd2; [done|]. apply Hd3; [lia|done].
Qed.

Lemma reg_add_spec v r :
  reg_ok r → nextID r + 1 < 2 ^ 64 →
  let '(id, r') := reg_add v r in
  reg_get id r = None ∧ id ≠ 0 ∧ reg_get id r' = Some v ∧ ∀ id', id' ≠ id → reg_get id' r' = reg_get id' r.
Proof.
  intros [Hpos Hok] Hb. cbn. split_and!; [|lia|apply lookup_insert_eq|intros id' Hne; by apply lookup_insert_ne].
  destruct (reg_get (nextID r) r) eqn:E; [|done]. specialize (Hok (nextID r)). rewrite E in Hok.
  specialize (Hok ltac:(eauto)). lia.
Qed.

Lemma reg_add_evolves v r : reg_evolves 1 r (reg_add v r).2.
Proof.
  intros [Hpos Hok] Hb. cbn. rewrite wrap_u_small by lia. split_and!; [split; [cbn; lia|]|lia|lia|].
  - unfold reg_get. cbn. intros id. destruct (decide (id = nextID r)) as [->|]; [lia|].
    rewrite lookup_insert_ne by done. intros Hs%Hok. lia.
  - unfold reg_get. cbn. intros id Hid. rewrite lookup_insert_ne by lia. done.
Qed.
Lemma reg_remove_evolves id r : reg_evolves 0 r (reg_remove id r).
Proof.
  intros [Hpos Hok] Hb. unfold reg_ok, reg_get. cbn. split_and!; [done| |lia|lia|].
  - intros id'. rewrite lookup_delete_is_Some. intros [_ H]. by apply Hok.
  - intros id' Hid. by rewrite lookup_delete_is_Some; intros [_ ?].
Qed.
Lemma reg_set_evolves id v r : is_Some (reg_get id r) → reg_evolves 0 r (reg_set id v r).
Proof.
  intros Hs [Hpos Hok] Hb. unfold reg_ok, reg_get. cbn. split_and!; [done| |lia|lia|].
  - intros id'. destruct (decide (id' = id)) as [->|]; [by intros _; apply Hok|]. rewrite lookup_insert_ne by done. apply Hok.
  - intros id' Hid. destruct (decide (id' = id)) as [->|]; [done|]. by rewrite lookup_insert_ne.
Qed.
End registry.
Arguments registry : clear implicits.
#[export] Hint Resolve reg_add_evolves reg_remove_evolves reg_set_evolves : core.

(** ** C memory

    A block holds bytes or pointers; [NULL] is 0.  Reading through a pointer that
    is not a live block, reading past its end and freeing it twice are undefined
    behaviour, here the result [None]. *)

Inductive block := Chars (b : list byte) | Ptrs (l : list Z).
Record cmem := MkMem { blocks : gmap Z block; next_addr : Z }.

Definition cgo (A : Type) : Type := cmem → option (A * cmem).
#[export] Instance cgo_ret : MRet cgo := λ A a h, Some (a, h).
#[export] Instance cgo_bind : MBind cgo := λ A B f m h, '(a, h) ← m h; f a h.
Definition fault {A} : cgo A := λ _, None.

Definition malloc (b : block) : cgo Z :=
  λ h, Some (next_addr h, MkMem (<[next_addr h := b]> (blocks h)) (next_addr h + 1)).
Definition load (p : Z) : cgo block := λ h, b ← blocks h !! p; Some (b, h).
Definition store (p : Z) (b : block) : cgo unit :=
  λ h, match blocks h !! p with Some _ => Some (tt, MkMem (<[p := b]> (blocks h)) (next_addr h)) | None => None end.
Definition free (p : Z) : cgo unit :=
  λ h, if p =? 0 then Some (tt, h)
       else match blocks h !! p with Some _ => Some (tt, MkMem (delete p (blocks h)) (next_addr h)) | None => None end.

(** [C.CString], [C.GoString], [C.GoBytes]. *)
Fixpoint until_nul (b : list byte) : option (list byte) :=
  match b with
  | [] => None
  | x00 :: _ => Some []
  | c :: b => cons c <$> until_nul b
  end.
Definition CString (s : list byte) : cgo Z := malloc (Chars (s ++ [x00])).
Definition GoString (p : Z) : cgo (list byte) :=
  if p =? 0 then mret []
  else b ← load p;
       match b with
       | Chars b => match until_nul b with Some s => mret s | None => fault end
       | Ptrs _ => fault
       end.
(** A negative length panics. *)
Definition GoBytes (p n : Z) : cgo (list byte) :=
  if n =? 0 then mret []
  else if n <? 0 then fault
  else b ← load p;
       match b with
       | Chars b => if n <=? Z.of_nat (length b) then mret (take (Z.to_nat n) b) else fault
       | Ptrs _ => fault
       end.
(** [C.int] of a wider integer. *)
Definition C_int (z : Z) : Z := wrap_s 32 z.

(** ** [common.go] *)

Definition ptr_at (arr : Z) (i : nat) : cgo Z :=
  b ← load arr;
  match b with Ptrs l => match l !! i with Some p => mret p | None => fault end | Chars _ => fault end.
Definition store_ptr (arr : Z) (i : nat) (p : Z) : cgo unit :=
  b ← load arr;
  match b with
  | Ptrs l => if decide (i < length l)%nat then store arr (Ptrs (<[i := p]> l)) else fault
  | Chars _ => fault
  end.

Fixpoint read_strs (arr : Z) (i n : nat) : cgo (list (list byte)) :=
  match n with
  | O => mret []
  | S n => p ← ptr_at arr i; s ← GoString p; rest ← read_strs arr (S i) n; mret (s :: rest)
  end.
(** A nil slice is [None]. *)
Definition cStrArrayToGoStrSlice (arr arrLen : Z) : cgo (option (list (list byte))) :=
  if (arr =? 0) || (arrLen =? 0) then mret None
  else strs ← read_strs arr 0 (Z.to_nat arrLen); mret (Some strs).

Fixpoint write_strs (arr : Z) (i : nat) (slice : list (list byte)) : cgo unit :=
  match slice with
  | [] => mret tt
  | s :: slice => p ← CString s; _ ← store_ptr arr i p; write_strs arr (S i) slice
  end.
Definition goStrSliceToCStrArray (slice : option (list (list byte))) : cgo Z :=
  match slice with
  | None => mret 0
  | Some slice => arr ← malloc (Ptrs (replicate (length slice) 0)); _ ← write_strs arr 0 slice; mret arr
  end.

Fixpoint free_strs (arr : Z) (i n : nat) : cgo unit :=
  match n with
  | O => mret tt
  | S n => p ← ptr_at arr i; _ ← free p; free_strs arr (S i) n
  end.
Definition freeCStrArray (arr arrLen : Z) : cgo unit :=
  if (arr =? 0) || (arrLen =? 0) then mret tt
  else _ ← free_strs arr 0 (Z.to_nat arrLen); free arr.

(** [setError]: the new value of the out parameter. *)
Definition setError (text : list byte) : cgo Z := CString text.

(** [util.go]. *)
Definition Confsec_Free (p : Z) : cgo unit := free p.

(** ** Strings *)

Definition nul_free (s : list byte) : Prop := x00 ∉ s.
(** What C sees of a Go string. *)
Definition cut (s : list byte) : list byte := default s (until_nul s).

Lemma until_nul_app s t : until_nul (s ++ x00 :: t) = Some (cut s).
Proof.
  unfold cut. induction s as [|c s IH]; [done|]. cbn [app until_nul].
  destruct c; try done; rewrite IH; by destruct (until_nul s).
Qed.
Lemma until_nul_none s : nul_free s → until_nul s = None.
Proof.
  unfold nul_free. induction s as [|c s IH]; [done|]. rewrite not_elem_of_cons. intros [Hc Hs].
  cbn [until_nul]. destruct c; try done; by rewrite IH.
Qed.
Lemma cut_nul_free s : nul_free s → cut s = s.
Proof. intros H. unfold cut. by rewrite until_nul_none. Qed.
Lemma fmap_cut l : Forall nul_free l → cut <$> l = l.
Proof. induction 1 as [|s l Hs _ IH]; [done|]. cbn. rewrite (cut_nul_free s Hs). f_equal. exact IH. Qed.
Lemma cut_prefix s : cut s `prefix_of` s.
Proof.
  unfold cut. induction s as [|c s IH]; [done|]. cbn [until_nul].
  destruct c; try (apply prefix_nil); destruct (until_nul s); cbn in *; by apply prefix_cons.
Qed.

(** ** Total correctness of calls into C *)

Definition mem_ok (h : cmem) : Prop := 1 ≤ next_addr h ∧ ∀ p, is_Some (blocks h !! p) → 1 ≤ p < next_addr h.

Definition wp {A} (m : cgo A) (h : cmem) (Q : A → cmem → Prop) : Prop :=
  match m h with Some (a, h') => Q a h' | None => False end.

Lemma wp_ret {A} (a : A) h (Q : A → cmem → Prop) : Q a h → wp (mret a) h Q.
Proof. done. Qed.
Lemma wp_bind {A B} (m : cgo A) (f : A → cgo B) h Q : wp m h (λ a h, wp (f a) h Q) → wp (m ≫= f) h Q.
Proof. unfold wp, mbind, cgo_bind. by destruct (m h) as [[a h']|]. Qed.
Lemma wp_mono {A} (m : cgo A) h (Q Q' : A → cmem → Prop) : wp m h Q → (∀ a h, Q a h → Q' a h) → wp m h Q'.
Proof. unfold wp. destruct (m h) as [[a h']|]; auto. Qed.
Lemma wp_run {A} (m : cgo A) h Q : wp m h Q ↔ ∃ a h', m h = Some (a, h') ∧ Q a h'.
Proof.
  unfold wp. destruct (m h) as [[a h']|]; [|by split; [|intros (? & ? & ? & _)]].
  split; [eauto|]. by intros (? & ? & [= <- <-] & ?).
Qed.

(** The memory after a [malloc]. *)
Definition alloc (b : block) (h : cmem) : cmem := MkMem (<[next_addr h := b]> (blocks h)) (next_addr h + 1).
Lemma alloc_ok b h : mem_ok h → mem_ok (alloc b h).
Proof.
  intros [Hp Hok]. split; [cbn; lia|]. cbn. intros p. destruct (decide (p = next_addr h)) as [->|]; [lia|].
  rewrite lookup_insert_ne by done. intros Hs%Hok. lia.
Qed.
Lemma mem_ok_free h k : mem_ok h → next_addr h ≤ k → blocks h !! k = None.
Proof. intros [_ Hok] Hk. destruct (blocks h !! k) eqn:E; [|done]. specialize (Hok k). rewrite E in Hok. specialize (Hok ltac:(eauto)). lia. Qed.

Lemma wp_malloc b h Q : Q (next_addr h) (alloc b h) → wp (malloc b) h Q.
Proof. done. Qed.
Lemma wp_CString s h Q : Q (next_addr h) (alloc (Chars (s ++ [x00])) h) → wp (CString s) h Q.
Proof. done. Qed.
Lemma wp_load p b h Q : blocks h !! p = Some b → Q b h → wp (load p) h Q.
Proof. intros Hp HQ. unfold wp, load. by rewrite Hp. Qed.
Lemma wp_free p h Q :
  p ≠ 0 → is_Some (blocks h !! p) → Q tt (MkMem (delete p (blocks h)) (next_addr h)) → wp (free p) h Q.
Proof. intros Hp [b Hb] HQ. unfold wp, free. rewrite (proj2 (Z.eqb_neq p 0)) by done. by rewrite Hb. Qed.
Lemma wp_GoString p s t h (Q : list byte → cmem → Prop) :
  p ≠ 0 → blocks h !! p = Some (Chars (s ++ x00 :: t)) → Q (cut s) h → wp (GoString p) h Q.
Proof.
  intros Hp Hb HQ. unfold GoString. rewrite (proj2 (Z.eqb_neq p 0)) by done. apply wp_bind, (wp_load _ _ _ _ Hb).
  cbn. by rewrite until_nul_app.
Qed.

Lemma C_int_small z : 0 ≤ z < 2 ^ 31 → C_int z = z.
Proof. unfold C_int, wrap_s. intros Hz. rewrite (Z.mod_small (z + _)) by (cbn; lia). lia. Qed.
Lemma wp_GoBytes p n b h (Q : list byte → cmem → Prop) :
  p ≠ 0 → blocks h !! p = Some (Chars b) → 0 ≤ n ≤ Z.of_nat (length b) → Q (take (Z.to_nat n) b) h → wp (GoBytes p n) h Q.
Proof.
  intros Hp Hb Hn HQ. unfold GoBytes. destruct (Z.eqb_spec n 0) as [->|]; [by apply wp_ret|].
  rewrite (proj2 (Z.ltb_ge n 0)) by lia. apply wp_bind, (wp_load _ _ _ _ Hb). by rewrite (proj2 (Z.leb_le _ _)) by lia.
Qed.

(** ** Arrays of strings *)

Definition str_block (s : list byte) : block := Chars (s ++ [x00]).

(** An array at [arr] whose strings follow it in memory. *)
Definition with_array (arr : Z) (slice : list (list byte)) (B : gmap Z block) : gmap Z block :=
  <[arr := Ptrs (seqZ (arr + 1) (Z.of_nat (length slice)))]> (map_seqZ (arr + 1) (str_block <$> slice) ∪ B).

Lemma wp_ptr_at arr l i p h (Q : Z → cmem → Prop) : blocks h !! arr = Some (Ptrs l) → l !! i = Some p → Q p h → wp (ptr_at arr i) h Q.
Proof. intros Ha Hi HQ. apply wp_bind, (wp_load _ _ _ _ Ha). by rewrite Hi. Qed.

Lemma write_strs_spec arr done slice h :
  arr < next_addr h → blocks h !! arr = Some (Ptrs (done ++ replicate (length slice) 0)) →
  wp (write_strs arr (length done) slice) h (λ _ h',
    blocks h' = <[arr := Ptrs (done ++ seqZ (next_addr h) (Z.of_nat (length slice)))]>
                  (map_seqZ (next_addr h) (str_block <$> slice) ∪ blocks h) ∧
    next_addr h' = next_addr h + Z.of_nat (length slice)).
Proof.
  induction slice as [|s slice IH] in done, h |- *; intros Hlt Ha; cbn [write_strs].
  - apply wp_ret. cbn in Ha |- *. rewrite (left_id_L ∅ (∪)). split; [by rewrite insert_id|lia].
  - apply wp_bind, wp_CString, wp_bind. unfold store_ptr. apply wp_bind.
    assert (Ha1 : blocks (alloc (str_block s) h) !! arr = Some (Ptrs (done ++ replicate (length (s :: slice)) 0))).
    { cbn. by rewrite lookup_insert_ne by lia. }
    apply (wp_load _ _ _ _ Ha1). rewrite decide_True by (rewrite length_app, length_replicate; cbn; lia).
    rewrite (insert_app_r_alt _ _ (length done)) by lia. rewrite Nat.sub_diag. cbn [length replicate list_insert insert].
    unfold store, wp at 1. rewrite Ha1. cbn [blocks next_addr].
    set (h2 := MkMem _ _). specialize (IH (done ++ [next_addr h]) h2). rewrite length_app, Nat.add_1_r in IH. eapply wp_mono; [apply IH|].
    + cbn. lia.
    + cbn. by rewrite lookup_insert_eq, <- app_assoc.
    + intros _ h' [-> ->]. subst h2. cbn [blocks next_addr alloc]. split; [|lia]. cbn [fmap list_fmap]. rewrite map_seqZ_cons.
      rewrite <- app_assoc. cbn [app]. rewrite Nat2Z.inj_succ, (seqZ_cons (next_addr h) (Z.succ _)), Z.pred_succ by lia. unfold Z.succ.
      set (m := map_seqZ (next_addr h + 1) (str_block <$> slice)).
      assert (Hm : ∀ k, k ≤ next_addr h → m !! k = None).
      { intros k Hk. apply lookup_map_seqZ_None. left. lia. }
      apply map_eq. intros k. destruct (decide (k = arr)) as [->|Hk]; [by rewrite !lookup_insert_eq|].
      rewrite !lookup_insert_ne by done. destruct (decide (k = next_addr h)) as [->|Hq].
      * rewrite lookup_union_r by (apply Hm; lia). rewrite lookup_insert_ne, lookup_insert_eq by lia.
        by rewrite (lookup_union_Some_l _ _ _ _ (lookup_insert_eq _ _ _)).
      * rewrite !lookup_union. by rewrite !lookup_insert_ne by done.
Qed.

Lemma goStrSlice_spec slice h :
  mem_ok h →
  wp (goStrSliceToCStrArray (Some slice)) h (λ arr h',
    arr = next_addr h ∧ blocks h' = with_array arr slice (blocks h) ∧ next_addr h' = arr + 1 + Z.of_nat (length slice)).
Proof.
  intros Hok. apply wp_bind, wp_malloc, wp_bind. eapply wp_mono.
  { apply (write_strs_spec _ []); [cbn; lia|]. cbn. apply lookup_insert_eq. }
  intros _ h' [Hb Hn]. apply wp_ret. cbn in Hn |- *. split_and!; [done| |lia]. rewrite Hb. unfold with_array. cbn [alloc blocks app next_addr].
  rewrite <- insert_union_r by (apply lookup_map_seqZ_None; left; lia). by rewrite insert_insert_eq.
Qed.

Lemma with_array_str arr slice B i s :
  slice !! i = Some s → with_array arr slice B !! (arr + 1 + Z.of_nat i) = Some (str_block s).
Proof.
  intros Hi. unfold with_array. rewrite lookup_insert_ne by lia. apply lookup_union_Some_l.
  apply lookup_map_seqZ_Some. split; [lia|]. replace (Z.to_nat _) with i by lia. by rewrite list_lookup_fmap, Hi.
Qed.
Lemma with_array_ptr arr slice B : with_array arr slice B !! arr = Some (Ptrs (seqZ (arr + 1) (Z.of_nat (length slice)))).
Proof. apply lookup_insert_eq. Qed.

Lemma read_strs_spec arr slice B i done rest h :
  slice = done ++ rest → length done = i → 1 ≤ arr → blocks h = with_array arr slice B →
  wp (read_strs arr i (length rest)) h (λ strs h', strs = cut <$> rest ∧ h' = h).
Proof.
  intros Hs Hi Ha Hb. induction rest as [|s rest IH] in i, done, Hs, Hi |- *; [done|]. cbn [length read_strs].
  assert (Hsi : slice !! i = Some s) by (subst; apply list_lookup_middle; done).
  apply wp_bind. eapply (wp_ptr_at _ _ _ (arr + 1 + Z.of_nat i)); [rewrite Hb; apply with_array_ptr| |].
  { apply lookup_seqZ. split; [done|]. apply lookup_lt_Some in Hsi. lia. }
  apply wp_bind. eapply (wp_GoString _ s []); [lia|rewrite Hb; by apply with_array_str|].
  apply wp_bind. eapply wp_mono; [apply (IH (S i) (done ++ [s])); [by rewrite <- app_assoc|rewrite length_app; cbn; lia]|].
  intros strs h' [-> ->]. by apply wp_ret.
Qed.

(** Both ways through C, strings come back cut at their first NUL. *)
Lemma cStrArray_spec arr slice B h :
  1 ≤ arr → blocks h = with_array arr slice B →
  wp (cStrArrayToGoStrSlice arr (Z.of_nat (length slice))) h (λ strs h',
    strs = (if decide (slice = []) then None else Some (cut <$> slice)) ∧ h' = h).
Proof.
  intros Ha Hb. unfold cStrArrayToGoStrSlice. rewrite (proj2 (Z.eqb_neq arr 0)) by lia.
  destruct slice as [|s slice]; [done|]. rewrite (proj2 (Z.eqb_neq _ 0)) by (cbn; lia). cbn [orb decide].
  apply wp_bind. rewrite Nat2Z.id. eapply wp_mono; [by apply (read_strs_spec arr (s :: slice) B 0 [])|].
  intros strs h' [-> ->]. by apply wp_ret.
Qed.

Lemma free_strs_spec arr ptrs i n q xs B h :
  blocks h = <[arr := Ptrs ptrs]> (map_seqZ q xs ∪ B) → 1 ≤ arr < q → length xs = n → drop i ptrs = seqZ q (Z.of_nat n) →
  (∀ k, q ≤ k < q + Z.of_nat n → B !! k = None) →
  wp (free_strs arr i n) h (λ _ h', blocks h' = <[arr := Ptrs ptrs]> B ∧ next_addr h' = next_addr h).
Proof.
  induction n as [|n IH] in i, q, xs, h |- *; intros Hb Hq Hx Hd HB; cbn [free_strs].
  - destruct xs; [|done]. apply wp_ret. cbn in Hb. by rewrite (left_id_L ∅ (∪)) in Hb.
  - destruct xs as [|x xs]; [done|]. injection Hx as Hx. rewrite Nat2Z.inj_succ, seqZ_cons, Z.pred_succ in Hd by lia.
    assert (Hi : ptrs !! i = Some q).
    { pose proof (lookup_drop ptrs i 0) as H. rewrite Hd, Nat.add_0_r in H. by symmetry. }
    apply wp_bind. eapply wp_ptr_at; [rewrite Hb; apply lookup_insert_eq|done|].
    apply wp_bind, wp_free; [lia| |].
    { rewrite Hb, lookup_insert_ne by lia. rewrite map_seqZ_cons. erewrite lookup_union_Some_l by apply lookup_insert_eq. eauto. }
    eapply wp_mono; [apply (IH (S i) (q + 1) xs)|cbn; intros _ h' [-> ->]; done].
    + cbn [blocks]. rewrite Hb, map_seqZ_cons, <- insert_union_l. rewrite insert_insert_ne, delete_insert_eq by lia.
      rewrite delete_id; [done|]. rewrite lookup_insert_ne by lia. apply lookup_union_None. split; [|apply HB; lia].
      apply lookup_map_seqZ_None. left. lia.
    + lia.
    + done.
    + change (S i) with (1 + i)%nat. rewrite Nat.add_comm, <- drop_drop, Hd. done.
    + intros k Hk. apply HB. lia.
Qed.

Lemma freeCStrArray_spec arr slice B h :
  slice ≠ [] → blocks h = with_array arr slice B → 1 ≤ arr →
  (∀ k, arr ≤ k ≤ arr + Z.of_nat (length slice) → B !! k = None) →
  wp (freeCStrArray arr (Z.of_nat (length slice))) h (λ _ h', blocks h' = B ∧ next_addr h' = next_addr h).
Proof.
  intros Hne Hb Ha HB. unfold freeCStrArray. rewrite (proj2 (Z.eqb_neq arr 0)) by lia.
  rewrite (proj2 (Z.eqb_neq _ 0)) by (destruct slice; [done|cbn; lia]). cbn [orb]. rewrite Nat2Z.id. apply wp_bind.
  eapply wp_mono.
  { eapply (free_strs_spec arr _ 0 (length slice) (arr + 1) (str_block <$> slice) B); [exact Hb|lia|by rewrite length_fmap|by rewrite drop_0|].
    intros k Hk. apply HB. lia. }
  intros _ h' [Hb' Hn]. apply wp_free; [lia|rewrite Hb', lookup_insert_eq; eauto|]. cbn. split; [|done].
  rewrite Hb'. rewrite delete_insert_eq. apply delete_id, HB. lia.
Qed.

(** A slice of strings written out for C with [goStrSliceToCStrArray] is
    read back by [cStrArrayToGoStrSlice] as the same slice, each string cut at
    its first NUL byte (so unchanged when none holds one), without touching
    memory; [freeCStrArray] then frees the array and every string exactly once
    and leaves the heap as it was.  No step reads or frees a pointer that is
    not a live block. *)
Theorem str_array_roundtrip slice h :
  mem_ok h → slice ≠ [] →
  ∃ arr h', goStrSliceToCStrArray (Some slice) h = Some (arr, h') ∧ arr ≠ 0 ∧
    cStrArrayToGoStrSlice arr (Z.of_nat (length slice)) h' = Some (Some (cut <$> slice), h') ∧
    (Forall nul_free slice → cut <$> slice = slice) ∧
    ∃ h'', freeCStrArray arr (Z.of_nat (length slice)) h' = Some (tt, h'') ∧ blocks h'' = blocks h.
Proof.
  intros Hok Hne. destruct (proj1 (wp_run _ _ _) (goStrSlice_spec slice h Hok)) as (arr & h' & Hrun & Harr & Hb & Hn).
  pose proof Hok as [Hpos Hlive]. exists arr, h'. split_and!; [done|lia| | |].
  - destruct (proj1 (wp_run _ _ _) (cStrArray_spec arr slice (blocks h) h' ltac:(lia) Hb)) as (strs & h1 & -> & -> & ->).
    by rewrite decide_False.
  - apply fmap_cut.
  - assert (Hfree : ∀ k, arr ≤ k ≤ arr + Z.of_nat (length slice) → blocks h !! k = None) by (intros k Hk; apply mem_ok_free; [done|lia]).
    destruct (proj1 (wp_run _ _ _) (freeCStrArray_spec arr slice (blocks h) h' Hne Hb ltac:(lia) Hfree)) as ([] & h2 & Hf & Hb2 & _). eauto.
Qed.

Definition demo_strs : list (list byte) := [string_bytes "llm"; [x61; x00; x62]].
Lemma str_array_roundtrip_witness :
  ∃ arr h', goStrSliceToCStrArray (Some demo_strs) (MkMem ∅ 1) = Some (arr, h') ∧
    cStrArrayToGoStrSlice arr 2 h' = Some (Some [string_bytes "llm"; [x61]], h') ∧
    ∃ h'', freeCStrArray arr 2 h' = Some (tt, h'') ∧ blocks h'' = ∅.
Proof.
  destruct (str_array_roundtrip demo_strs (MkMem ∅ 1)) as (arr & h' & H1 & _ & H2 & _ & H3).
  - split; [cbn; lia|]. intros p. cbn. rewrite lookup_empty. by intros [? ?].
  - discriminate.
  - exists arr, h'. split_and!; [exact H1|exact H2|exact H3].
Defined.
