(* ===== verification/CStream.v ===== *)
(** Reading a response body in chunks ([response_stream.go] of package [main]):
    the split function, [bufio.Scanner] as far as the stream uses it, and the
    chunks it delivers. *)

From S2P Require Import Prelude Bytes.
From S2P Require Messages.

(** ** Bodies

    What the successive [Read]s give: bytes and possibly an error; after the
    list, [io.EOF].  Errors are their texts. *)

Inductive read_err := EOF | ReadFailure (text : list byte).
Record body := MkBody { reads : list (list byte * option read_err); closed : bool }.
Definition ErrBodyReadAfterClose : list byte := string_bytes "http: invalid Read on closed Body".
Definition body_Close (b : body) : body := MkBody (reads b) true.

(** [io.ReadAll]. *)
Fixpoint read_all (rs : list (list byte * option read_err)) : list byte * option (list byte) :=
  match rs with
  | [] => ([], None)
  | (b, Some EOF) :: _ => (b, None)
  | (b, Some (ReadFailure e)) :: _ => (b, Some e)
  | (b, None) :: rs => let '(rest, e) := read_all rs in (b ++ rest, e)
  end.
Fixpoint after_all (rs : list (list byte * option read_err)) : list (list byte * option read_err) :=
  match rs with [] => [] | (_, Some _) :: rs => rs | (_, None) :: rs => after_all rs end.
Definition ReadAll (b : body) : result (list byte) (list byte) * body :=
  if closed b then (Err ErrBodyReadAfterClose, b)
  else let '(bytes, e) := read_all (reads b) in
       (match e with None => Ok bytes | Some e => Err e end, MkBody (after_all (reads b)) false).

(** ** [scanChunk] *)

Definition defaultChunkSize : nat := Z.to_nat Messages.UserChunkLen.

(** How far to advance, and the token. *)
Definition scanChunk (data : list byte) (atEOF : bool) : nat * option (list byte) :=
  if atEOF && (length data =? 0)%nat then (0%nat, None)
  else if (defaultChunkSize <=? length data)%nat then (defaultChunkSize, Some (take defaultChunkSize data))
  else if atEOF then (length data, Some data)
  else (0%nat, None).

(** ** [bufio.Scanner]

    The bytes it holds and the error of its reader.  Since every token of
    [scanChunk] advances and a read is asked for only when less than a chunk is
    held, neither the limit of the token size nor the one of empty tokens is
    reached. *)

Record scanner := MkScanner { sc_buf : list byte; sc_err : option read_err }.
Definition NewScanner : scanner := MkScanner [] None.
Definition maxConsecutiveEmptyReads : nat := 100.
Definition ErrNoProgress : list byte := string_bytes "multiple Read calls return no data or error".

(** The inner loop: read until there is data or an error. *)
Fixpoint fill (loop : nat) (rs : list (list byte * option read_err)) :
    list byte * option read_err * list (list byte * option read_err) :=
  match rs with
  | [] => ([], Some EOF, [])
  | (b, Some e) :: rs => (b, Some e, rs)
  | (b, None) :: rs =>
      if (0 <? length b)%nat then (b, None, rs)
      else if (maxConsecutiveEmptyReads <? S loop)%nat then ([], Some (ReadFailure ErrNoProgress), rs)
      else fill (S loop) rs
  end.
Definition read_more (sc : scanner) (b : body) : scanner * body :=
  if closed b then (MkScanner (sc_buf sc) (Some (ReadFailure ErrBodyReadAfterClose)), b)
  else let '(data, e, rs) := fill 0 (reads b) in (MkScanner (sc_buf sc ++ data) e, MkBody rs false).

Definition is_some_err (e : option read_err) : bool := match e with Some _ => true | None => false end.

(** One pass splits, shuts down, or reads and goes on. *)
Fixpoint Scan_loop (fuel : nat) (sc : scanner) (b : body) : option (option (list byte) * scanner * body) :=
  match fuel with
  | O => None
  | S fuel =>
      let '(advance, token) :=
        if (0 <? length (sc_buf sc))%nat || is_some_err (sc_err sc) then scanChunk (sc_buf sc) (is_some_err (sc_err sc))
        else (0%nat, None) in
      match token with
      | Some tok => Some (Some tok, MkScanner (drop advance (sc_buf sc)) (sc_err sc), b)
      | None =>
          if is_some_err (sc_err sc) then Some (None, MkScanner [] (sc_err sc), b)
          else let '(sc, b) := read_more sc b in Scan_loop fuel sc b
      end
  end.
(** The token, or nothing: every pass but the last two consumes a read. *)
Definition Scan (sc : scanner) (b : body) : option (option (list byte) * scanner * body) :=
  Scan_loop (length (reads b) + 3) sc b.
(** [Err] hides the end of the input. *)
Definition Scanner_Err (sc : scanner) : option (list byte) :=
  match sc_err sc with Some (ReadFailure e) => Some e | _ => None end.

(** ** Termination *)

Lemma fill_decreases loop rs : let '(_, e, rs') := fill loop rs in e = None → (length rs' < length rs)%nat.
Proof.
  induction rs as [|[b [e|]] rs IH] in loop |- *; [done..|]. cbn [fill].
  destruct (0 <? length b)%nat; [cbn; lia|]. destruct (maxConsecutiveEmptyReads <? S loop)%nat; [done|].
  specialize (IH (S loop)). destruct (fill (S loop) rs) as [[d e] rs']. intros He. specialize (IH He). cbn. lia.
Qed.

Lemma Scan_loop_total fuel sc b :
  (length (reads b) + (if is_some_err (sc_err sc) then 0 else 2) < fuel)%nat → is_Some (Scan_loop fuel sc b).
Proof.
  induction fuel as [|fuel IH] in sc, b |- *; intros Hf; [lia|]. cbn [Scan_loop].
  destruct (if _ || _ then _ else _) as [advance [tok|]]; [eauto|]. destruct (sc_err sc) as [e|] eqn:Ee; [by eauto|]. cbn [is_some_err] in Hf |- *.
  unfold read_more. destruct (closed b); [apply IH; cbn; lia|].
  pose proof (fill_decreases 0 (reads b)) as Hd. destruct (fill 0 (reads b)) as [[d e] rs'] eqn:Ef. apply IH. cbn.
  destruct e as [e|]; [|specialize (Hd eq_refl); cbn; lia]. cbn.
  assert (length rs' ≤ length (reads b))%nat; [|lia]. clear -Ef. generalize dependent 0%nat.
  induction (reads b) as [|[b0 [e0|]] rs IH]; intros loop Ef; cbn [fill] in Ef; [by injection Ef as <- <- <-|injection Ef as <- <- <-; cbn; lia|].
  destruct (0 <? length b0)%nat; [by injection Ef|]. destruct (maxConsecutiveEmptyReads <? S loop)%nat; [injection Ef as <- <- <-; cbn; lia|].
  apply IH in Ef. cbn. lia.
Qed.
Lemma Scan_total sc b : is_Some (Scan sc b).
Proof. apply Scan_loop_total. destruct (is_some_err (sc_err sc)); lia. Qed.

(** ** Bodies that are read to their end *)

(** No failing read, and never more than a hundred empty reads in a row. *)
Fixpoint steady (loop : nat) (rs : list (list byte * option read_err)) : Prop :=
  match rs with
  | [] => True
  | (_, Some e) :: _ => e = EOF
  | ([], None) :: rs => (loop < maxConsecutiveEmptyReads)%nat ∧ steady (S loop) rs
  | (_ :: _, None) :: rs => steady 0 rs
  end.
#[export] Instance steady_dec loop rs : Decision (steady loop rs).
Proof.
  revert loop. induction rs as [|[[|c b] [e|]] rs IH]; intros loop; cbn [steady]; try apply _.
  - destruct e as [|e]; [by left|by right].
  - destruct e as [|e]; [by left|by right].
Defined.

Lemma steady_mono loop loop' rs : (loop' ≤ loop)%nat → steady loop rs → steady loop' rs.
Proof.
  induction rs as [|[[|c b] [e|]] rs IH] in loop, loop' |- *; intros Hl H; cbn [steady] in *; try done.
  destruct H as [H1 H2]. split; [lia|]. apply (IH (S loop)); [lia|done].
Qed.

Lemma fill_steady loop rs :
  steady loop rs →
  let '(data, e, rs') := fill loop rs in
  (read_all rs).1 = data ++ (if is_some_err e then [] else (read_all rs').1) ∧
  (e = Some EOF ∨ e = None ∧ data ≠ [] ∧ steady 0 rs').
Proof.
  induction rs as [|[[|c b] [e|]] rs IH] in loop |- *; intros H; cbn [steady fill read_all] in *.
  - by split; [|left].
  - subst e. by split; [|left].
  - destruct H as [H1 H2]. cbn [length]. rewrite (proj2 (Nat.ltb_ge _ _)) by lia.
    rewrite (proj2 (Nat.ltb_ge _ _)) by lia. specialize (IH (S loop) H2). destruct (fill (S loop) rs) as [[d e] rs'].
    destruct (read_all rs). exact IH.
  - subst e. split; [|by left]. cbn. by rewrite app_nil_r.
  - cbn [length]. rewrite (proj2 (Nat.ltb_lt _ _)) by lia. split; [by destruct (read_all rs)|right]. by split_and!.
Qed.

(** What is still to come from a scanner on its body. *)
Definition rest_of (sc : scanner) (b : body) : list byte :=
  sc_buf sc ++ (if is_some_err (sc_err sc) then [] else (read_all (reads b)).1).
Definition in_order (sc : scanner) (b : body) : Prop :=
  sc_err sc = Some EOF ∨ sc_err sc = None ∧ closed b = false ∧ steady 0 (reads b).

Lemma scanChunk_small data : (length data < defaultChunkSize)%nat → scanChunk data false = (0%nat, None).
Proof. intros H. unfold scanChunk. cbn [andb]. by rewrite (proj2 (Nat.leb_gt _ _)). Qed.
Lemma scanChunk_big data atEOF :
  (defaultChunkSize ≤ length data)%nat → scanChunk data atEOF = (defaultChunkSize, Some (take defaultChunkSize data)).
Proof.
  intros H. unfold scanChunk. assert (0 < defaultChunkSize)%nat by (vm_compute; lia).
  rewrite (proj2 (Nat.eqb_neq (length data) 0)), andb_false_r, (proj2 (Nat.leb_le _ _)) by lia. done.
Qed.

(** [Scan] takes the next chunk off what is still to come. *)
Lemma Scan_loop_spec fuel sc b r :
  in_order sc b → Scan_loop fuel sc b = Some r →
  let '(tok, sc', b') := r in
  tok = (if decide (rest_of sc b = []) then None else Some (take defaultChunkSize (rest_of sc b))) ∧
  in_order sc' b' ∧ rest_of sc' b' = drop defaultChunkSize (rest_of sc b) ∧ closed b' = closed b.
Proof.
  induction fuel as [|fuel IH] in sc, b |- *; intros Ho H; [done|]. cbn [Scan_loop] in H.
  destruct (decide (defaultChunkSize ≤ length (sc_buf sc))%nat) as [Hbig|Hsmall].
  - assert (0 < defaultChunkSize)%nat by (vm_compute; lia). rewrite (proj2 (Nat.ltb_lt _ _)) in H by lia. cbn [orb] in H.
    rewrite scanChunk_big in H by done. injection H as <-. unfold rest_of. cbn [sc_buf sc_err].
    rewrite decide_False by (intros [Hn _]%app_eq_nil; rewrite Hn in Hbig; cbn [length] in Hbig; lia). rewrite take_app_le, drop_app_le by done. by split_and!.
  - destruct Ho as [He|(He & Hc & Hs)]; unfold rest_of; rewrite He in H |- *; cbn [is_some_err] in H |- *.
    + rewrite orb_true_r in H. rewrite app_nil_r. destruct (sc_buf sc) as [|c buf] eqn:Eb.
      * cbn in H. injection H as <-. cbn. split_and!; [done|by left|by rewrite drop_nil|done].
      * unfold scanChunk in H. cbn [andb] in H. rewrite (proj2 (Nat.eqb_neq _ 0)) in H by (cbn; lia).
        rewrite (proj2 (Nat.leb_gt _ _)) in H by lia. injection H as <-. cbn [sc_buf sc_err].
        rewrite decide_False, take_ge, !drop_ge by (done || lia). split_and!; [done|by left|done|done].
    + assert (Hst : (if (0 <? length (sc_buf sc))%nat || false then scanChunk (sc_buf sc) false else (0%nat, None)) = (0%nat, None)).
      { destruct ((0 <? length (sc_buf sc))%nat || false); [apply scanChunk_small; lia|done]. }
      rewrite Hst in H. unfold read_more in H. rewrite Hc in H. pose proof (fill_steady 0 (reads b) Hs) as Hf.
      destruct (fill 0 (reads b)) as [[d e] rs']. destruct Hf as [Hall Hf].
      assert (Hrest : rest_of (MkScanner (sc_buf sc ++ d) e) (MkBody rs' false) = sc_buf sc ++ (read_all (reads b)).1).
      { unfold rest_of. cbn. by rewrite Hall, <- app_assoc. }
      apply IH in H as H'; [|destruct Hf as [->|(-> & _ & Hs')]; [by left|by right]].
      rewrite Hrest in H'. destruct r as [[tok sc'] b']. by rewrite Hc.
Qed.

Lemma Scan_spec sc b :
  in_order sc b →
  ∃ sc' b', Scan sc b = Some (if decide (rest_of sc b = []) then None else Some (take defaultChunkSize (rest_of sc b)), sc', b') ∧
    in_order sc' b' ∧ rest_of sc' b' = drop defaultChunkSize (rest_of sc b) ∧ closed b' = closed b.
Proof.
  intros Ho. destruct (Scan_total sc b) as [[[tok sc'] b'] E]. destruct (Scan_loop_spec _ _ _ _ Ho E) as (-> & ?). eauto.
Qed.
