(* ===== verification/CLib.v ===== *)
(** The C library (package [main]): the exported functions of [client.go],
    [response.go] and [response_stream.go] on the registries of handles and the
    C heap, and their Go wrappers ([client_wrappers.go], [response_wrappers.go],
    [response_stream_wrappers.go]). *)

From Stdlib Require Import Strings.Ascii.
From S2P Require Import Prelude Bytes GoLib Float64 GoStrings Http AnonErrors CMem CStream.
From S2P Require ClientParams.

(** ** State

    Responses are shared by pointer between their handle and their streams. *)

Record response := MkResponse {
  rp_StatusCode : Z;
  rp_Status : string;
  rp_Proto : string;
  rp_Header : Header;
  rp_URL : option string;  (* of the request, if the response has one *)
  rp_Body : body;
}.
Record responseStream := MkStream { st_resp : nat; st_scanner : scanner; st_done : bool }.

Record lib := MkLib {
  clientsRegistry : registry ClientParams.Client;
  responsesRegistry : registry nat;
  streamsRegistry : registry responseStream;
  objects : list response;
  mem : cmem;
}.
Definition new_lib (h : cmem) : lib := MkLib newRegistry newRegistry newRegistry [] h.
Definition set_clients r l := MkLib r (responsesRegistry l) (streamsRegistry l) (objects l) (mem l).
Definition set_responses r l := MkLib (clientsRegistry l) r (streamsRegistry l) (objects l) (mem l).
Definition set_streams r l := MkLib (clientsRegistry l) (responsesRegistry l) r (objects l) (mem l).
Definition set_objects o l := MkLib (clientsRegistry l) (responsesRegistry l) (streamsRegistry l) o (mem l).
Definition set_mem h l := MkLib (clientsRegistry l) (responsesRegistry l) (streamsRegistry l) (objects l) h.

(** Calls; [None] is a crash. *)
Definition L (A : Type) : Type := lib → option (A * lib).
#[export] Instance L_ret : MRet L := λ A a l, Some (a, l).
#[export] Instance L_bind : MBind L := λ A B f m l, '(a, l) ← m l; f a l.
Definition C {A} (m : cgo A) : L A := λ l, '(a, h) ← m (mem l); Some (a, set_mem h l).
Definition modify (f : lib → lib) : L unit := λ l, Some (tt, f l).
Definition gets {A} (f : lib → A) : L A := λ l, Some (f l, l).
(** A write through the pointer a registry holds. *)
Definition reg_write {T} (id : Z) (f : T → T) (r : registry T) : registry T :=
  MkRegistry (alter f id (reg_m r)) (nextID r).

Definition text (s : string) : list byte := string_bytes s.
Definition ErrNoAPIKey : list byte := text "missing API key".
Definition ErrInvalidEnv : list byte := text "invalid environment".
Definition ErrClientNotFound : list byte := text "client not found".
Definition ErrResponseNotFound : list byte := text "response not found".
Definition ErrResponseIsStreaming : list byte := text "response body is streaming".
Definition ErrResponseIsNotStreaming : list byte := text "response body is not streaming".
Definition ErrResponseStreamNotFound : list byte := text "response stream not found".
Definition ErrSerializationFailure : list byte := text "serialization failure".

(** The result of an exported function and its [errStr], 0 when it is not set. *)
Definition fails {A} (v : A) (e : list byte) : L (A * Z) := p ← C (setError e); mret (v, p).
Definition succeeds {A} (v : A) : L (A * Z) := mret (v, 0).

(** ** [client.go] *)

Definition stagingAPIURL : string := "https://app.stage.confident.security".
Definition prodAPIURL : string := "https://app.confident.security".
Definition EnvironmentStaging : string := "staging".
Definition EnvironmentProd : string := "prod".

(** The fields of [openpcc.Config] that [Confsec_ClientCreate] sets. *)
Record ClientConfig := MkClientConfig {
  cc_config : ClientParams.Config;
  cc_Environment : string;
  cc_ConcurrentRequestsTarget : Z;
}.
Definition DefaultClientConfig : ClientConfig :=
  MkClientConfig (ClientParams.DefaultConfig "") EnvironmentProd 2.

(** What [http.ReadRequest] parses. *)
Record http_request {Rest : Type} := MkHttpRequest {
  rq_Scheme : string;
  rq_URLHost : string;
  rq_Host : string;
  rq_TLS : bool;
  rq_rest : Rest;
}.
Arguments http_request : clear implicits.
Definition full_URL {Rest} (req : http_request Rest) : http_request Rest :=
  let scheme := if bool_decide (rq_Scheme req = "") then if rq_TLS req then "https" else "http" else rq_Scheme req in
  let host := if bool_decide (rq_URLHost req = "") then rq_Host req else rq_URLHost req in
  MkHttpRequest _ scheme host (rq_Host req) (rq_TLS req) (rq_rest req).

Section client.
Context (undef : float64 → Z) {R : RangeOrder}.
(** The text of an error. *)
Context (Error : err → list byte).

Definition apiURL_of (env : string) : option string :=
  if bool_decide (env = EnvironmentProd) then Some prodAPIURL
  else if bool_decide (env = EnvironmentStaging) then Some stagingAPIURL else None.

Definition make_config (apiKey : list byte) (crt mcn : Z) (nodeTags : option (list (list byte))) (count : Z)
    (env apiURL : string) : ClientConfig :=
  let config := cc_config DefaultClientConfig in
  MkClientConfig
    (ClientParams.MkConfig (bytes_string apiKey) apiURL
       (if 0 <? mcn then mcn else ClientParams.cfg_MaxCandidateNodes config)
       (if 0 <? count
        then ClientParams.MkParams (ClientParams.CreditAmount (ClientParams.cfg_DefaultRequestParams config))
               (bytes_string <$> default [] nodeTags)
        else ClientParams.cfg_DefaultRequestParams config)
       (ClientParams.cfg_MaxCreditAmountPerRequest config))
    env (if 0 <? crt then crt else cc_ConcurrentRequestsTarget DefaultClientConfig).

(** [connect] is how the rest of [openpcc.NewFromConfig], which creates the
    clients of the services, ends for the configuration it is given. *)
Definition Confsec_ClientCreate (connect : ClientConfig → option err)
    (apiKey crt mcn defaultNodeTags defaultNodeTagsCount env : Z) : L (Z * Z) :=
  if apiKey =? 0 then fails 0 ErrNoAPIKey
  else
    transparencyEnv ← (if env =? 0 then mret (text EnvironmentProd) else C (GoString env));
    match apiURL_of (bytes_string transparencyEnv) with
    | None => fails 0 ErrInvalidEnv
    | Some apiURL =>
        nodeTags ← C (cStrArrayToGoStrSlice defaultNodeTags defaultNodeTagsCount);
        key ← C (GoString apiKey);
        let config := make_config key crt mcn nodeTags defaultNodeTagsCount (bytes_string transparencyEnv) apiURL in
        match (client ← ClientParams.NewFromConfig undef (cc_config config) [];
               match connect config with Some e => Err e | None => Ok client end) with
        | Err e => fails 0 (Error e)
        | Ok client =>
            id ← (λ l, let '(id, r) := reg_add client (clientsRegistry l) in Some (id, set_clients r l));
            succeeds id
        end
    end.

Definition get_client (handle : Z) : L (option ClientParams.Client) := gets (λ l, reg_get handle (clientsRegistry l)).

(** [closed] is how [Client.Close] ends. *)
Definition Confsec_ClientDestroy (closed : option err) (handle : Z) : L (unit * Z) :=
  client ← get_client handle;
  match client with
  | None => fails tt ErrClientNotFound
  | Some _ =>
      match closed with
      | Some e => fails tt (Error e)
      | None => _ ← modify (λ l, set_clients (reg_remove handle (clientsRegistry l)) l); succeeds tt
      end
  end.

Definition Confsec_ClientGetDefaultCreditAmountPerRequest (handle : Z) : L (Z * Z) :=
  client ← get_client handle;
  match client with
  | None => fails 0 ErrClientNotFound
  | Some client => succeeds (ClientParams.CreditAmount (ClientParams.params client))
  end.

Definition Confsec_ClientGetMaxCandidateNodes (handle : Z) : L (Z * Z) :=
  client ← get_client handle;
  match client with
  | None => fails 0 ErrClientNotFound
  | Some client => succeeds (C_int (ClientParams.maxCandidateNodes client))
  end.

(** The tags and their number.  In this package a slice of tags without elements
    is nil. *)
Definition nil_slice (l : list string) : option (list (list byte)) :=
  match l with [] => None | _ => Some (string_bytes <$> l) end.
Definition Confsec_ClientGetDefaultNodeTags (handle : Z) : L (Z * option Z * Z) :=
  client ← get_client handle;
  match client with
  | None => fails (0, None) ErrClientNotFound
  | Some client =>
      let nodeTags := ClientParams.NodeTags (ClientParams.params client) in
      arr ← C (goStrSliceToCStrArray (nil_slice nodeTags));
      succeeds (arr, Some (Z.of_nat (length nodeTags)))
  end.

Definition Confsec_ClientSetDefaultNodeTags (handle defaultNodeTags defaultNodeTagsCount : Z) : L (unit * Z) :=
  client ← get_client handle;
  match client with
  | None => fails tt ErrClientNotFound
  | Some client =>
      nodeTags ← C (cStrArrayToGoStrSlice defaultNodeTags defaultNodeTagsCount);
      let '(r, client') := ClientParams.SetDefaultNodeTags (bytes_string <$> default [] nodeTags) client in
      _ ← modify (λ l, set_clients (reg_write handle (λ _, client') (clientsRegistry l)) l);
      match r with Err e => fails tt (Error e) | Ok _ => succeeds tt end
  end.

(** [walletStatusJSON] is the marshalled status of the wallet. *)
Definition Confsec_ClientGetWalletStatus (walletStatusJSON : option (list byte)) (handle : Z) : L (Z * Z) :=
  client ← get_client handle;
  match client with
  | None => fails 0 ErrClientNotFound
  | Some _ =>
      match walletStatusJSON with
      | None => fails 0 ErrSerializationFailure
      | Some json => p ← C (CString json); succeeds p
      end
  end.

Definition Confsec_ClientDoRequest {Rest} (ReadRequest : list byte → result (list byte) (http_request Rest))
    (RoundTrip : ClientParams.Client → http_request Rest → result err response)
    (handle request requestLength : Z) : L (Z * Z) :=
  client ← get_client handle;
  match client with
  | None => fails 0 ErrClientNotFound
  | Some client =>
      reqBytes ← C (GoBytes request (C_int requestLength));
      match ReadRequest reqBytes with
      | Err e => fails 0 e
      | Ok req =>
          match RoundTrip client (full_URL req) with
          | Err e => fails 0 (Error e)
          | Ok resp =>
              id ← (λ l, let '(id, r) := reg_add (length (objects l)) (responsesRegistry l) in
                         Some (id, set_objects (objects l ++ [resp]) (set_responses r l)));
              succeeds id
          end
      end
  end.
End client.

(** ** [response.go] *)

(** [strings.ToLower] on the bytes of a text, as far as looking for ASCII text
    goes: besides the ASCII capitals, the Kelvin sign and the dotted capital I
    have ASCII lower case. *)
Fixpoint ToLower (l : list ascii) : list ascii :=
  match l with
  | [] => []
  | c1 :: l1 =>
      match l1 with
      | c2 :: l2 =>
          if bool_decide (c1 = asc 196) && bool_decide (c2 = asc 176) then "i"%char :: ToLower l2
          else
            match l2 with
            | c3 :: l3 =>
                if bool_decide (c1 = asc 226) && bool_decide (c2 = asc 132) && bool_decide (c3 = asc 170)
                then "k"%char :: ToLower l3 else lower_char c1 :: ToLower l1
            | [] => lower_char c1 :: ToLower l1
            end
      | [] => [lower_char c1]
      end
  end.
Definition lower (s : string) : string := of_chars (ToLower (chars s)).

Definition streamingTypes : list string := ["text/event-stream"; "application/x-ndjson"; "application/stream+json"].
Definition isStreaming (r : response) : bool :=
  if str_contains (lower (Get (rp_Header r) "Transfer-Encoding")) "chunked" then true
  else
    let contentType := lower (Get (rp_Header r) "Content-Type") in
    if existsb (λ streamType, str_contains contentType streamType) streamingTypes then true
    else bool_decide (Get (rp_Header r) "Content-Length" = "") && (rp_StatusCode r =? StatusOK).

Record ResponseMetadata := MkMetadata {
  md_StatusCode : Z;
  md_ReasonPhrase : string;
  md_HTTPVersion : string;
  md_URL : string;
  md_Headers : list (string * string);
}.
(** The values of a name are looked up under its canonical form. *)
Definition getMetadata {R : RangeOrder} (r : response) : ResponseMetadata :=
  let url := default "" (rp_URL r) in
  let headers := foldl (λ headers '(k, _), headers ++ ((λ v, (k, v)) <$> ClientParams.Values (rp_Header r) k)) []
                   (range_map (rp_Header r)) in
  MkMetadata (rp_StatusCode r) (rp_Status r) (rp_Proto r) url headers.

(** The pointer behind a handle, and what it points to. *)
Definition get_response (handle : Z) : L (option (nat * response)) :=
  gets (λ l, o ← reg_get handle (responsesRegistry l); r ← objects l !! o; Some (o, r)).
Definition with_body (b : body) (r : response) : response :=
  MkResponse (rp_StatusCode r) (rp_Status r) (rp_Proto r) (rp_Header r) (rp_URL r) b.
Definition close_response (o : nat) : L unit :=
  modify (λ l, set_objects (alter (λ r, with_body (body_Close (rp_Body r)) r) o (objects l)) l).

Definition Confsec_ResponseDestroy (handle : Z) : L (unit * Z) :=
  resp ← get_response handle;
  match resp with
  | None => fails tt ErrResponseNotFound
  | Some (o, _) =>
      _ ← close_response o;
      _ ← modify (λ l, set_responses (reg_remove handle (responsesRegistry l)) l); succeeds tt
  end.

(** [marshal] is [json.Marshal]. *)
Definition Confsec_ResponseGetMetadata {R : RangeOrder} (marshal : ResponseMetadata → result (list byte) (list byte))
    (handle : Z) : L (Z * Z) :=
  resp ← get_response handle;
  match resp with
  | None => fails 0 ErrResponseNotFound
  | Some (_, r) =>
      match marshal (getMetadata r) with
      | Err e => fails 0 e
      | Ok b => p ← C (CString b); succeeds p
      end
  end.

Definition Confsec_ResponseIsStreaming (handle : Z) : L (bool * Z) :=
  resp ← get_response handle;
  match resp with None => fails false ErrResponseNotFound | Some (_, r) => succeeds (isStreaming r) end.

Definition Confsec_ResponseGetBody (handle : Z) : L (Z * Z) :=
  resp ← get_response handle;
  match resp with
  | None => fails 0 ErrResponseNotFound
  | Some (o, r) =>
      if isStreaming r then fails 0 ErrResponseIsStreaming
      else
        let '(bytes, b) := ReadAll (rp_Body r) in
        _ ← modify (λ l, set_objects (alter (with_body b) o (objects l)) l);
        match bytes with
        | Err e => fails 0 e
        | Ok bytes => p ← C (CString bytes); succeeds p
        end
  end.

Definition newResponseStream (o : nat) : responseStream := MkStream o NewScanner false.
Definition Confsec_ResponseGetStream (handle : Z) : L (Z * Z) :=
  resp ← get_response handle;
  match resp with
  | None => fails 0 ErrResponseNotFound
  | Some (o, r) =>
      if negb (isStreaming r) then fails 0 ErrResponseIsNotStreaming
      else
        id ← (λ l, let '(id, r) := reg_add (newResponseStream o) (streamsRegistry l) in Some (id, set_streams r l));
        succeeds id
  end.

(** ** [response_stream.go] *)

(** The stream behind a handle, and the response it reads. *)
Definition get_stream (handle : Z) : L (option (responseStream * response)) :=
  gets (λ l, s ← reg_get handle (streamsRegistry l); r ← objects l !! st_resp s; Some (s, r)).

Definition Confsec_ResponseStreamGetNext (handle : Z) : L (Z * Z) :=
  stream ← get_stream handle;
  match stream with
  | None => fails 0 ErrResponseStreamNotFound
  | Some (stream, r) =>
      if st_done stream then succeeds 0
      else
        match Scan (st_scanner stream) (rp_Body r) with
        | None => λ _, None
        | Some (token, sc, b) =>
            let set_stream done := modify (λ l, set_streams (reg_write handle (λ _, MkStream (st_resp stream) sc done) (streamsRegistry l)) l) in
            _ ← modify (λ l, set_objects (alter (with_body b) (st_resp stream) (objects l)) l);
            _ ← set_stream false;
            match Scanner_Err sc with
            | Some e => fails 0 e
            | None =>
                match token with
                | None => _ ← close_response (st_resp stream); _ ← set_stream true; succeeds 0
                | Some chunk => p ← C (CString chunk); succeeds p
                end
            end
        end
  end.

Definition Confsec_ResponseStreamDestroy (handle : Z) : L (unit * Z) :=
  stream ← get_stream handle;
  match stream with
  | None => fails tt ErrResponseStreamNotFound
  | Some (stream, _) =>
      _ ← close_response (st_resp stream);
      _ ← modify (λ l, set_streams (reg_remove handle (streamsRegistry l)) l); succeeds tt
  end.

(** ** Handles *)

(** [l'] comes from [l] with at most [k] new handles per registry. *)
Definition lib_evolves (k : Z) (l l' : lib) : Prop :=
  reg_evolves k (clientsRegistry l) (clientsRegistry l') ∧
  reg_evolves k (responsesRegistry l) (responsesRegistry l') ∧
  reg_evolves k (streamsRegistry l) (streamsRegistry l').
Definition evolves {A} (k : Z) (m : L A) : Prop := ∀ l a l', m l = Some (a, l') → lib_evolves k l l'.

Lemma lib_evolves_refl k l : 0 ≤ k → lib_evolves k l l.
Proof. intros Hk. by split_and!; apply reg_evolves_refl. Qed.
Lemma lib_evolves_trans k1 k2 l1 l2 l3 :
  0 ≤ k2 → lib_evolves k1 l1 l2 → lib_evolves k2 l2 l3 → lib_evolves (k1 + k2) l1 l3.
Proof. intros Hk (?&?&?) (?&?&?). split_and!; by eapply reg_evolves_trans. Qed.
Lemma reg_write_evolves {T} id (f : T → T) r : reg_evolves 0 r (reg_write id f r).
Proof.
  intros [Hpos Hok] Hb. unfold reg_ok, reg_get. cbn. split_and!; [done| |lia|lia|].
  - intros id'. rewrite lookup_alter_is_Some. apply Hok.
  - intros id' Hid. by rewrite lookup_alter_is_Some.
Qed.

Lemma evolves_ret {A} (a : A) : evolves 1 (mret a).
Proof. intros l b l' [= <- <-]. by apply lib_evolves_refl. Qed.
Lemma evolves_gets {A} (f : lib → A) : evolves 0 (gets f).
Proof. intros l a l' [= <- <-]. by apply lib_evolves_refl. Qed.
Lemma evolves_C {A} (m : cgo A) : evolves 0 (C m).
Proof.
  intros l a l' H. unfold C in H. destruct (m (mem l)) as [[b h]|]; [|done]. injection H as <- <-.
  split_and!; by apply reg_evolves_refl.
Qed.
Lemma evolves_crash {A} k : evolves k ((λ _, None) : L A).
Proof. done. Qed.
Lemma evolves_bind {A B} (m : L A) (f : A → L B) : evolves 0 m → (∀ a, evolves 1 (f a)) → evolves 1 (m ≫= f).
Proof.
  intros Hm Hf l b l2 H. unfold mbind, L_bind in H. destruct (m l) as [[a l1]|] eqn:E; [|done].
  change 1 with (0 + 1). eapply lib_evolves_trans; [lia|by eapply Hm|by eapply Hf].
Qed.
(** A call that ends by registering an object. *)
Lemma evolves_add {A B} (m : L A) (f : A → B) : evolves 1 m → evolves 1 (a ← m; succeeds (f a)).
Proof.
  intros Hm l b l2 H. unfold mbind, L_bind in H. destruct (m l) as [[a l1]|] eqn:E; [|done].
  injection H as <- <-. by eapply Hm.
Qed.
Lemma evolves_modify f : (∀ l, lib_evolves 0 l (f l)) → evolves 0 (modify f).
Proof. intros Hf l a l' [= <- <-]. apply Hf. Qed.
Lemma evolves_fails {A} (v : A) e : evolves 1 (fails v e).
Proof. apply evolves_bind; [apply evolves_C|intros; apply evolves_ret]. Qed.
Lemma evolves_succeeds {A} (v : A) : evolves 1 (succeeds v).
Proof. apply evolves_ret. Qed.

Ltac registers :=
  split_and!; cbn; first [apply reg_evolves_refl; lia | apply reg_remove_evolves | apply reg_write_evolves | apply reg_add_evolves].
Ltac evolves_tac :=
  repeat first
    [ apply evolves_fails | apply evolves_succeeds | apply evolves_crash | apply evolves_gets | apply evolves_C
    | apply evolves_add; intros ? ? ? [= <- <-]; registers
    | apply evolves_modify; intros; registers
    | apply evolves_bind; [|intros]
    | case_match ].

(** One call into the library by the C program, or anything the program does
    with its memory between two calls. *)
Inductive lib_step {R : RangeOrder} {Rest : Type} (undef : float64 → Z) (Error : err → list byte) : lib → lib → Prop :=
| ls_memory h l : lib_step undef Error l (set_mem h l)
| ls_create connect key crt mcn tags n env l r l' :
    Confsec_ClientCreate undef Error connect key crt mcn tags n env l = Some (r, l') → lib_step undef Error l l'
| ls_destroy closed h l r l' : Confsec_ClientDestroy Error closed h l = Some (r, l') → lib_step undef Error l l'
| ls_amount h l r l' : Confsec_ClientGetDefaultCreditAmountPerRequest h l = Some (r, l') → lib_step undef Error l l'
| ls_nodes h l r l' : Confsec_ClientGetMaxCandidateNodes h l = Some (r, l') → lib_step undef Error l l'
| ls_tags h l r l' : Confsec_ClientGetDefaultNodeTags h l = Some (r, l') → lib_step undef Error l l'
| ls_set_tags h tags n l r l' : Confsec_ClientSetDefaultNodeTags Error h tags n l = Some (r, l') → lib_step undef Error l l'
| ls_wallet json h l r l' : Confsec_ClientGetWalletStatus json h l = Some (r, l') → lib_step undef Error l l'
| ls_request (ReadRequest : _ → result _ (http_request Rest)) RoundTrip h p n l r l' :
    Confsec_ClientDoRequest Error ReadRequest RoundTrip h p n l = Some (r, l') → lib_step undef Error l l'
| ls_response_destroy h l r l' : Confsec_ResponseDestroy h l = Some (r, l') → lib_step undef Error l l'
| ls_metadata marshal h l r l' : Confsec_ResponseGetMetadata marshal h l = Some (r, l') → lib_step undef Error l l'
| ls_streaming h l r l' : Confsec_ResponseIsStreaming h l = Some (r, l') → lib_step undef Error l l'
| ls_body h l r l' : Confsec_ResponseGetBody h l = Some (r, l') → lib_step undef Error l l'
| ls_stream h l r l' : Confsec_ResponseGetStream h l = Some (r, l') → lib_step undef Error l l'
| ls_next h l r l' : Confsec_ResponseStreamGetNext h l = Some (r, l') → lib_step undef Error l l'
| ls_stream_destroy h l r l' : Confsec_ResponseStreamDestroy h l = Some (r, l') → lib_step undef Error l l'.

Section handles.
Context {R : RangeOrder} {Rest : Type} (undef : float64 → Z) (Error : err → list byte).

Lemma lib_step_evolves l l' : lib_step (Rest:=Rest) undef Error l l' → lib_evolves 1 l l'.
Proof.
  intros H. destruct H as
    [h l|connect key crt mcn tags n env l r l' H|closed h l r l' H|h l r l' H|h l r l' H|h l r l' H|h tags n l r l' H
    |json h l r l' H|RR RT h p n l r l' H|h l r l' H|marshal h l r l' H|h l r l' H|h l r l' H|h l r l' H|h l r l' H|h l r l' H];
    [by split_and!; apply reg_evolves_refl|revert l r l' H..].
  - change (evolves 1 (Confsec_ClientCreate undef Error connect key crt mcn tags n env)).
    unfold Confsec_ClientCreate. case_match; [apply evolves_fails|]. apply evolves_bind; [|intros tenv; evolves_tac].
    case_match; [|apply evolves_C]. intros l a l' [= <- <-]. by apply lib_evolves_refl.
  - change (evolves 1 (Confsec_ClientDestroy Error closed h)). unfold Confsec_ClientDestroy, get_client. evolves_tac.
  - change (evolves 1 (Confsec_ClientGetDefaultCreditAmountPerRequest h)).
    unfold Confsec_ClientGetDefaultCreditAmountPerRequest, get_client. evolves_tac.
  - change (evolves 1 (Confsec_ClientGetMaxCandidateNodes h)). unfold Confsec_ClientGetMaxCandidateNodes, get_client. evolves_tac.
  - change (evolves 1 (Confsec_ClientGetDefaultNodeTags h)). unfold Confsec_ClientGetDefaultNodeTags, get_client. evolves_tac.
  - change (evolves 1 (Confsec_ClientSetDefaultNodeTags Error h tags n)). unfold Confsec_ClientSetDefaultNodeTags, get_client. evolves_tac.
  - change (evolves 1 (Confsec_ClientGetWalletStatus json h)). unfold Confsec_ClientGetWalletStatus, get_client. evolves_tac.
  - change (evolves 1 (Confsec_ClientDoRequest Error RR RT h p n)). unfold Confsec_ClientDoRequest, get_client. evolves_tac.
  - change (evolves 1 (Confsec_ResponseDestroy h)). unfold Confsec_ResponseDestroy, get_response, close_response. evolves_tac.
  - change (evolves 1 (Confsec_ResponseGetMetadata marshal h)). unfold Confsec_ResponseGetMetadata, get_response. evolves_tac.
  - change (evolves 1 (Confsec_ResponseIsStreaming h)). unfold Confsec_ResponseIsStreaming, get_response. evolves_tac.
  - change (evolves 1 (Confsec_ResponseGetBody h)). unfold Confsec_ResponseGetBody, get_response. evolves_tac.
  - change (evolves 1 (Confsec_ResponseGetStream h)). unfold Confsec_ResponseGetStream, get_response. evolves_tac.
  - change (evolves 1 (Confsec_ResponseStreamGetNext h)). unfold Confsec_ResponseStreamGetNext, get_stream, close_response. evolves_tac.
  - change (evolves 1 (Confsec_ResponseStreamDestroy h)). unfold Confsec_ResponseStreamDestroy, get_stream, close_response. evolves_tac.
Qed.

Lemma lib_steps_evolve n l l' : nsteps (lib_step (Rest:=Rest) undef Error) n l l' → lib_evolves (Z.of_nat n) l l'.
Proof.
  induction 1 as [l|n l1 l2 l3 H12 _ IH]; [by apply lib_evolves_refl|].
  rewrite Nat2Z.inj_succ, <- Z.add_1_l. eapply lib_evolves_trans; [lia|by apply lib_step_evolves|done].
Qed.

Lemma evolved_dead {T} k (r r' : registry T) h :
  reg_ok r → nextID r + k < 2 ^ 64 → reg_evolves k r r' → h < nextID r → reg_get h r = None → reg_get h r' = None.
Proof.
  intros Hok Hk He Hlt Hn. destruct (He Hok Hk) as (_ & _ & Hd). destruct (reg_get h r') eqn:E; [|done].
  destruct (Hd h Hlt) as [? ?]; [rewrite E; eauto|congruence].
Qed.
Lemma lib_start_ok h : reg_ok (clientsRegistry (new_lib h)) ∧ reg_ok (responsesRegistry (new_lib h)) ∧ reg_ok (streamsRegistry (new_lib h)).
Proof. split_and!; apply newRegistry_ok. Qed.

(** A handle that is gone in a state reached from the start is gone for ever. *)
Lemma dead_stays_dead {T} (reg : lib → registry T) n m start l l2 h :
  (∀ k l l', lib_evolves k l l' → reg_evolves k (reg l) (reg l')) → reg (new_lib start) = newRegistry →
  nsteps (lib_step (Rest:=Rest) undef Error) n (new_lib start) l → nsteps (lib_step (Rest:=Rest) undef Error) m l l2 →
  Z.of_nat n + Z.of_nat m + 1 < 2 ^ 64 → h < nextID (reg l) → reg_get h (reg l) = None → reg_get h (reg l2) = None.
Proof.
  intros Hreg H0 Hn%lib_steps_evolve%Hreg Hm%lib_steps_evolve%Hreg Hb Hh Hd. rewrite H0 in Hn.
  destruct (Hn newRegistry_ok) as (Hok & [_ Hid] & _); [cbn; lia|]. cbn in Hid.
  eapply (evolved_dead (Z.of_nat m)); [done|lia|done..].
Qed.

(** What every function answers for a handle it does not know. *)
Definition client_refused (h : Z) (l : lib) : Prop :=
  let refused {A} (v : A) (call : L (A * Z)) := call l = fails v ErrClientNotFound l in
  (∀ closed, refused tt (Confsec_ClientDestroy Error closed h)) ∧
  refused 0 (Confsec_ClientGetDefaultCreditAmountPerRequest h) ∧
  refused 0 (Confsec_ClientGetMaxCandidateNodes h) ∧
  refused (0, None) (Confsec_ClientGetDefaultNodeTags h) ∧
  (∀ tags n, refused tt (Confsec_ClientSetDefaultNodeTags Error h tags n)) ∧
  (∀ json, refused 0 (Confsec_ClientGetWalletStatus json h)) ∧
  (∀ (RR : _ → result _ (http_request Rest)) RT p n, refused 0 (Confsec_ClientDoRequest Error RR RT h p n)).
Definition response_refused (h : Z) (l : lib) : Prop :=
  let refused {A} (v : A) (call : L (A * Z)) := call l = fails v ErrResponseNotFound l in
  refused tt (Confsec_ResponseDestroy h) ∧ (∀ marshal, refused 0 (Confsec_ResponseGetMetadata marshal h)) ∧
  refused false (Confsec_ResponseIsStreaming h) ∧ refused 0 (Confsec_ResponseGetBody h) ∧
  refused 0 (Confsec_ResponseGetStream h).
Definition stream_refused (h : Z) (l : lib) : Prop :=
  let refused {A} (v : A) (call : L (A * Z)) := call l = fails v ErrResponseStreamNotFound l in
  refused 0 (Confsec_ResponseStreamGetNext h) ∧ refused tt (Confsec_ResponseStreamDestroy h).

Lemma client_dead_refused h l : reg_get h (clientsRegistry l) = None → client_refused h l.
Proof.
  intros Hd. assert (Hg : get_client h l = Some (None, l)) by (unfold get_client, gets; by rewrite Hd).
  unfold client_refused. split_and!; intros;
    unfold Confsec_ClientDestroy, Confsec_ClientGetDefaultCreditAmountPerRequest, Confsec_ClientGetMaxCandidateNodes,
      Confsec_ClientGetDefaultNodeTags, Confsec_ClientSetDefaultNodeTags, Confsec_ClientGetWalletStatus, Confsec_ClientDoRequest,
      mbind at 1, L_bind at 1; by rewrite Hg.
Qed.
Lemma response_dead_refused h l : reg_get h (responsesRegistry l) = None → response_refused h l.
Proof.
  intros Hd. assert (Hg : get_response h l = Some (None, l)) by (unfold get_response, gets; by rewrite Hd).
  unfold response_refused. split_and!; intros;
    unfold Confsec_ResponseDestroy, Confsec_ResponseGetMetadata, Confsec_ResponseIsStreaming, Confsec_ResponseGetBody,
      Confsec_ResponseGetStream, mbind at 1, L_bind at 1; by rewrite Hg.
Qed.
Lemma stream_dead_refused h l : reg_get h (streamsRegistry l) = None → stream_refused h l.
Proof.
  intros Hd. assert (Hg : get_stream h l = Some (None, l)) by (unfold get_stream, gets; by rewrite Hd).
  unfold stream_refused. split_and!; intros;
    unfold Confsec_ResponseStreamGetNext, Confsec_ResponseStreamDestroy, mbind at 1, L_bind at 1; by rewrite Hg.
Qed.

Lemma destroy_client closed h l l1 :
  Confsec_ClientDestroy Error closed h l = Some ((tt, 0), l1) → 1 ≤ next_addr (mem l) →
  is_Some (reg_get h (clientsRegistry l)) ∧ clientsRegistry l1 = reg_remove h (clientsRegistry l).
Proof.
  unfold Confsec_ClientDestroy, get_client, gets, mbind, L_bind. destruct (reg_get h (clientsRegistry l)) eqn:E.
  - destruct closed; cbn; [|intros [= <-]; eauto]. intros [= H _] ?. lia.
  - cbn. intros [= H _] ?. lia.
Qed.
Lemma destroy_response h l l1 :
  Confsec_ResponseDestroy h l = Some ((tt, 0), l1) → 1 ≤ next_addr (mem l) →
  is_Some (reg_get h (responsesRegistry l)) ∧ responsesRegistry l1 = reg_remove h (responsesRegistry l).
Proof.
  unfold Confsec_ResponseDestroy, get_response, gets, mbind, L_bind, option_bind. destruct (reg_get h (responsesRegistry l)) as [o|] eqn:E; cbn.
  - destruct (objects l !! o); cbn; [intros [= <-]; eauto|]. intros [= H _] ?. lia.
  - intros [= H _] ?. lia.
Qed.
Lemma destroy_stream h l l1 :
  Confsec_ResponseStreamDestroy h l = Some ((tt, 0), l1) → 1 ≤ next_addr (mem l) →
  is_Some (reg_get h (streamsRegistry l)) ∧ streamsRegistry l1 = reg_remove h (streamsRegistry l).
Proof.
  unfold Confsec_ResponseStreamDestroy, get_stream, gets, mbind, L_bind, option_bind. destruct (reg_get h (streamsRegistry l)) as [s|] eqn:E; cbn.
  - destruct (objects l !! st_resp s); cbn; [intros [= <-]; eauto|]. intros [= H _] ?. lia.
  - intros [= H _] ?. lia.
Qed.

(** The destruction of a handle as a step, from a state that was reached. *)
Lemma destroyed_dead {T} (reg : lib → registry T) n m start l l1 l2 h :
  (∀ k l l', lib_evolves k l l' → reg_evolves k (reg l) (reg l')) → reg (new_lib start) = newRegistry →
  nsteps (lib_step (Rest:=Rest) undef Error) n (new_lib start) l → lib_step (Rest:=Rest) undef Error l l1 →
  nsteps (lib_step (Rest:=Rest) undef Error) m l1 l2 → Z.of_nat n + Z.of_nat m + 2 < 2 ^ 64 →
  is_Some (reg_get h (reg l)) → reg l1 = reg_remove h (reg l) → reg_get h (reg l2) = None.
Proof.
  intros Hreg H0 Hn Hs Hm Hb Hlive H1.
  pose proof Hn as He%lib_steps_evolve%Hreg. rewrite H0 in He.
  destruct (He newRegistry_ok) as ([_ Hok] & _ & _); [cbn; lia|]. apply Hok in Hlive.
  eapply (dead_stays_dead reg (n + 1) m); [done|done|eapply nsteps_trans; [done|by apply nsteps_once]|done|lia| |].
  - rewrite H1. cbn. lia.
  - rewrite H1. apply lookup_delete_eq.
Qed.

(** In any sequence of fewer than 2^64 - 2 calls of the C program, with any
    arguments and any use of its own memory in between, a handle of a client,
    of a response or of a stream that was destroyed is dead for good: every
    later call with it, whatever was created meanwhile, sets the corresponding
    not-found error and does nothing else.  In particular no handle is ever
    given out twice. *)
Theorem destroyed_handles_refused n m start l l1 l2 h :
  nsteps (lib_step (Rest:=Rest) undef Error) n (new_lib start) l →
  nsteps (lib_step (Rest:=Rest) undef Error) m l1 l2 →
  Z.of_nat n + Z.of_nat m + 2 < 2 ^ 64 → 1 ≤ next_addr (mem l) →
  (∀ closed, Confsec_ClientDestroy Error closed h l = Some ((tt, 0), l1) → client_refused h l2) ∧
  (Confsec_ResponseDestroy h l = Some ((tt, 0), l1) → response_refused h l2) ∧
  (Confsec_ResponseStreamDestroy h l = Some ((tt, 0), l1) → stream_refused h l2).
Proof.
  intros Hn Hm Hb Hmem. split_and!.
  - intros closed H. apply client_dead_refused. destruct (destroy_client _ _ _ _ H Hmem).
    eapply (destroyed_dead clientsRegistry); [by intros ? ? ? (? & _)|done|done|by eapply ls_destroy|done..].
  - intros H. apply response_dead_refused. destruct (destroy_response _ _ _ H Hmem).
    eapply (destroyed_dead responsesRegistry); [by intros ? ? ? (_ & ? & _)|done|done|by eapply ls_response_destroy|done..].
  - intros H. apply stream_dead_refused. destruct (destroy_stream _ _ _ H Hmem).
    eapply (destroyed_dead streamsRegistry); [by intros ? ? ? (_ & _ & ?)|done|done|by eapply ls_stream_destroy|done..].
Qed.
End handles.

(** ** A client is created and destroyed *)

Definition demo_start : cmem := MkMem {[ 1 := Chars (text "key" ++ [x00]) ]} 2.
Definition demo_create : L (Z * Z) :=
  Confsec_ClientCreate (R:=elements_order) (λ _, 0) (λ _, []) (λ _, None) 1 0 0 0 0 0.
Definition state_after {A} (m : L A) (l : lib) : lib := match m l with Some (_, l) => l | None => l end.
Definition demo_created : lib := state_after demo_create (new_lib demo_start).
Definition demo_destroyed : lib := state_after (Confsec_ClientDestroy (λ _, []) None 1) demo_created.
Example demo_create_runs : demo_create (new_lib demo_start) = Some ((1, 0), demo_created).
Proof. vm_compute. reflexivity. Qed.
Example demo_destroy_runs : Confsec_ClientDestroy (λ _, []) None 1 demo_created = Some ((tt, 0), demo_destroyed).
Proof. vm_compute. reflexivity. Qed.

Lemma destroyed_handles_refused_witness :
  Confsec_ClientGetMaxCandidateNodes 1 demo_created = Some ((3, 0), demo_created) ∧
  Confsec_ClientGetMaxCandidateNodes 1 demo_destroyed = fails 0 ErrClientNotFound demo_destroyed.
Proof.
  split; [by vm_compute|].
  assert (Hn : nsteps (lib_step (R:=elements_order) (Rest:=unit) (λ _, 0) (λ _, [])) 1 (new_lib demo_start) demo_created).
  { apply nsteps_once. eapply ls_create. exact demo_create_runs. }
  destruct (destroyed_handles_refused (R:=elements_order) (Rest:=unit) (λ _, 0) (λ _, []) 1 0 demo_start
    demo_created demo_destroyed demo_destroyed 1 Hn (nsteps_O _ _)) as (H & _); [cbn; lia|vm_compute; discriminate|].
  destruct (H None demo_destroy_runs) as (_ & _ & H3 & _). exact H3.
Defined.
