(* ===== verification/CApi.v ===== *)
(** The Go wrappers of the C library ([client_wrappers.go],
    [response_wrappers.go], [response_stream_wrappers.go]): what they return,
    and that they give back the C memory they take. *)

From S2P Require Import Prelude Bytes GoLib Float64 Http AnonErrors CMem CStream CLib.
From S2P Require ClientParams Messages.

(** The text of a wrapper's error. *)
Abbreviation goresult := (result (list byte)).

(** [if errStr != nil { err := fmt.Errorf(what, C.GoString(errStr)); C.free(errStr) }] *)
Definition take_error (what : string) (errStr : Z) : L (option (list byte)) :=
  if errStr =? 0 then mret None
  else s ← C (GoString errStr); _ ← C (free errStr); mret (Some (text what ++ s)).
(** [if p != nil { defer C.free(p) }] *)
Definition deferred_free (p : Z) : L unit := if p =? 0 then mret tt else C (free p).

Definition no_result (what : string) (errStr : Z) : L (goresult unit) :=
  e ← take_error what errStr; mret (match e with Some e => Err e | None => Ok tt end).

Section wrappers.
Context (undef : float64 → Z) {R : RangeOrder} (Error : err → list byte).

(** ** [client_wrappers.go] *)

(** The C array of a slice with elements, [NULL] for one without. *)
Definition tags_array (tags : list (list byte)) : L Z :=
  match tags with [] => mret 0 | _ => C (goStrSliceToCStrArray (Some tags)) end.
Definition tags_free (arr : Z) (tags : list (list byte)) : L unit :=
  match tags with [] => mret tt | _ => C (freeCStrArray arr (Z.of_nat (length tags))) end.

Definition ClientCreate (connect : ClientConfig → option err) (apiKey : list byte) (crt mcn : Z)
    (defaultNodeTags : list (list byte)) (env : list byte) : L (goresult Z) :=
  nodeTags ← tags_array defaultNodeTags;
  envStr ← (if bool_decide (env = []) then mret 0 else C (CString env));
  key ← C (CString apiKey);
  '(clientID, errStr) ← Confsec_ClientCreate undef Error connect key (C_int crt) (C_int mcn) nodeTags
                          (Z.of_nat (length defaultNodeTags)) envStr;
  e ← take_error "failed to create client: " errStr;
  _ ← tags_free nodeTags defaultNodeTags;
  mret (match e with Some e => Err e | None => Ok clientID end).

Definition ClientDestroy (closed : option err) (handle : Z) : L (goresult unit) :=
  '(_, errStr) ← Confsec_ClientDestroy Error closed handle;
  no_result "failed to destroy client: " errStr.

Definition ClientGetDefaultCreditAmountPerRequest (handle : Z) : L (goresult Z) :=
  '(creditAmount, errStr) ← Confsec_ClientGetDefaultCreditAmountPerRequest handle;
  e ← take_error "failed to get default credit amount per request: " errStr;
  mret (match e with Some e => Err e | None => Ok creditAmount end).

Definition ClientGetMaxCandidateNodes (handle : Z) : L (goresult Z) :=
  '(maxCandidateNodes, errStr) ← Confsec_ClientGetMaxCandidateNodes handle;
  e ← take_error "failed to get max candidate nodes: " errStr;
  mret (match e with Some e => Err e | None => Ok maxCandidateNodes end).

Definition ClientGetDefaultNodeTags (handle : Z) : L (goresult (option (list (list byte)))) :=
  '((nodeTags, numTags), errStr) ← Confsec_ClientGetDefaultNodeTags handle;
  e ← take_error "failed to get default node tags: " errStr;
  match e with
  | Some e => mret (Err e)
  | None => tags ← C (cStrArrayToGoStrSlice nodeTags (default 0 numTags)); mret (Ok tags)
  end.

Definition ClientSetDefaultNodeTags (handle : Z) (defaultNodeTags : list (list byte)) : L (goresult unit) :=
  nodeTags ← tags_array defaultNodeTags;
  '(_, errStr) ← Confsec_ClientSetDefaultNodeTags Error handle nodeTags (Z.of_nat (length defaultNodeTags));
  r ← no_result "failed to set default node tags: " errStr;
  _ ← tags_free nodeTags defaultNodeTags;
  mret r.

(** A wrapper that turns the C string it gets into its result. *)
Definition string_result {A} (what : string) (call : L (Z * Z)) (decode : Z → L (goresult A)) : L (goresult A) :=
  '(p, errStr) ← call;
  e ← take_error what errStr;
  r ← match e with Some e => mret (Err e) | None => decode p end;
  _ ← deferred_free p;
  mret r.

(** [Unmarshal] is [json.Unmarshal] into a wallet status. *)
Definition ClientGetWalletStatus {Status} (Unmarshal : list byte → goresult Status)
    (walletStatusJSON : option (list byte)) (handle : Z) : L (goresult Status) :=
  string_result "failed to get wallet status: " (Confsec_ClientGetWalletStatus walletStatusJSON handle)
    (λ p, s ← C (GoString p); mret (Unmarshal s)).

Definition ClientDoRequest {Rest} (ReadRequest : list byte → goresult (http_request Rest))
    (RoundTrip : ClientParams.Client → http_request Rest → result err response) (handle : Z) (req : list byte) : L (goresult Z) :=
  reqBytes ← C (CString req);
  '(reqID, errStr) ← Confsec_ClientDoRequest Error ReadRequest RoundTrip handle reqBytes (Z.of_nat (length req));
  e ← take_error "failed to do request: " errStr;
  _ ← C (free reqBytes);
  mret (match e with Some e => Err e | None => Ok reqID end).

(** ** [response_wrappers.go] *)

Definition go_string (p : Z) : L (goresult (list byte)) := s ← C (GoString p); mret (Ok s).

Definition ResponseDestroy (handle : Z) : L (goresult unit) :=
  '(_, errStr) ← Confsec_ResponseDestroy handle; no_result "failed to destroy response: " errStr.
Definition ResponseGetMetadata (marshal : ResponseMetadata → result (list byte) (list byte)) (handle : Z) : L (goresult (list byte)) :=
  string_result "failed to get response metadata: " (Confsec_ResponseGetMetadata marshal handle) go_string.
Definition ResponseIsStreaming (handle : Z) : L (goresult bool) :=
  '(isStreaming, errStr) ← Confsec_ResponseIsStreaming handle;
  e ← take_error "failed to check if response is streaming: " errStr;
  mret (match e with Some e => Err e | None => Ok isStreaming end).
Definition ResponseGetBody (handle : Z) : L (goresult (list byte)) :=
  string_result "failed to get response body: " (Confsec_ResponseGetBody handle) go_string.
Definition ResponseGetStream (handle : Z) : L (goresult Z) :=
  '(stream, errStr) ← Confsec_ResponseGetStream handle;
  e ← take_error "failed to get response stream: " errStr;
  mret (match e with Some e => Err e | None => Ok stream end).

(** ** [response_stream_wrappers.go] *)

(** The end of the stream is a nil slice. *)
Definition ResponseStreamGetNext (handle : Z) : L (goresult (option (list byte))) :=
  string_result "failed to get streaming response chunk: " (Confsec_ResponseStreamGetNext handle)
    (λ p, if p =? 0 then mret (Ok None) else s ← C (GoString p); mret (Ok (Some s))).
Definition ResponseStreamDestroy (handle : Z) : L (goresult unit) :=
  '(_, errStr) ← Confsec_ResponseStreamDestroy handle; no_result "failed to destroy response stream: " errStr.
End wrappers.

(** ** Calls that end *)

Definition lwp {A} (m : L A) (l : lib) (Q : A → lib → Prop) : Prop :=
  match m l with Some (a, l') => Q a l' | None => False end.
Lemma lwp_bind {A B} (m : L A) (f : A → L B) l Q : lwp m l (λ a l, lwp (f a) l Q) → lwp (m ≫= f) l Q.
Proof. unfold lwp, mbind, L_bind. by destruct (m l) as [[a l']|]. Qed.
Lemma L_bind_some {A B} (m : L A) (f : A → L B) l a l' : m l = Some (a, l') → (m ≫= f) l = f a l'.
Proof. unfold mbind, L_bind. by intros ->. Qed.
Lemma L_bind_none {A B} (m : L A) (f : A → L B) l : m l = None → (m ≫= f) l = None.
Proof. unfold mbind, L_bind. by intros ->. Qed.
Lemma lwp_ret {A} (a : A) l (Q : A → lib → Prop) : Q a l → lwp (mret a) l Q.
Proof. done. Qed.
Lemma lwp_C {A} (m : cgo A) l (Q : A → lib → Prop) : wp m (mem l) (λ a h, Q a (set_mem h l)) → lwp (C m) l Q.
Proof. unfold wp, lwp, C. cbn. by destruct (m (mem l)) as [[a h]|]. Qed.
Lemma lwp_gets {A} (f : lib → A) l (Q : A → lib → Prop) : Q (f l) l → lwp (gets f) l Q.
Proof. done. Qed.
Lemma lwp_modify f l (Q : unit → lib → Prop) : Q tt (f l) → lwp (modify f) l Q.
Proof. done. Qed.
Lemma lwp_mono {A} (m : L A) l (Q Q' : A → lib → Prop) : lwp m l Q → (∀ a l', Q a l' → Q' a l') → lwp m l Q'.
Proof. unfold lwp. destruct (m l) as [[a l']|]; auto. Qed.
Lemma lwp_run {A} (m : L A) l Q : lwp m l Q ↔ ∃ a l', m l = Some (a, l') ∧ Q a l'.
Proof.
  unfold lwp. destruct (m l) as [[a l']|]; [|by split; [|intros (? & ? & ? & _)]].
  split; [eauto|]. by intros (? & ? & [= <- <-] & ?).
Qed.

(** ** C memory

    The blocks after a call are those before it and what it hands out: a
    string behind a pointer that is not [NULL]. *)

Definition adds (p : Z) (s : list byte) (h h' : cmem) : Prop :=
  mem_ok h' ∧ next_addr h ≤ next_addr h' ∧
  (p = 0 ∧ blocks h' = blocks h ∨
   p ≠ 0 ∧ blocks h !! p = None ∧ blocks h' = <[p := str_block s]> (blocks h)).
(** An exported function hands out an error or a string, not both. *)
Definition hands_out (m : L (Z * Z)) : Prop :=
  ∀ l, mem_ok (mem l) → lwp m l (λ '(p, e) l', ∃ s, if decide (e = 0) then adds p s (mem l) (mem l') else p = 0 ∧ adds e s (mem l) (mem l')).
Definition hands_error {A} (m : L (A * Z)) : Prop :=
  ∀ l, mem_ok (mem l) → lwp m l (λ '(_, e) l', ∃ s, adds e s (mem l) (mem l')).
Definition same_memory (l l' : lib) : Prop := mem_ok (mem l') ∧ blocks (mem l') = blocks (mem l).
(** A call that ends and gives all memory back. *)
Definition clean {A} (m : L A) : Prop := ∀ l, mem_ok (mem l) → lwp m l (λ _ l', same_memory l l').

Lemma adds_none h h' : mem_ok h' → next_addr h ≤ next_addr h' → blocks h' = blocks h → adds 0 [] h h'.
Proof. intros. split_and!; [done..|by left]. Qed.
Lemma adds_alloc s h : mem_ok h → adds (next_addr h) s h (alloc (str_block s) h).
Proof.
  intros Hok. split_and!; [by apply alloc_ok|cbn; lia|right]. pose proof Hok as [? _].
  split_and!; [lia|apply mem_ok_free; [done|lia]|done].
Qed.

Lemma free_added p s h h' (Q : unit → cmem → Prop) :
  p ≠ 0 → mem_ok h → adds p s h h' →
  (∀ h'', mem_ok h'' → next_addr h ≤ next_addr h'' → blocks h'' = blocks h → Q tt h'') → wp (free p) h' Q.
Proof.
  intros Hp Hok (Hok' & Hle & [[? _]|(_ & Hnone & Hb)]) HQ; [done|].
  apply wp_free; [done|rewrite Hb, lookup_insert_eq; eauto|]. apply HQ; cbn; [|done|].
  - destruct Hok' as [Hp' Hl]. split; [done|]. cbn. intros q. rewrite lookup_delete_is_Some. intros [_ H]. by apply Hl.
  - rewrite Hb, delete_insert_eq. by apply delete_id.
Qed.

Lemma take_error_spec what e s l l' (Q : option (list byte) → lib → Prop) :
  mem_ok (mem l) → adds e s (mem l) (mem l') →
  (∀ h, mem_ok h → next_addr (mem l) ≤ next_addr h → blocks h = blocks (mem l) →
    Q (if decide (e = 0) then None else Some (text what ++ cut s)) (set_mem h l')) →
  lwp (take_error what e) l' Q.
Proof.
  intros Hok Ha HQ. unfold take_error. destruct (Z.eqb_spec e 0) as [->|He].
  - apply lwp_ret. destruct Ha as (Hok' & Hle & [[_ Hb]|[? _]]); [|done]. specialize (HQ (mem l') Hok' Hle Hb).
    rewrite decide_True in HQ by done. by destruct l'.
  - apply lwp_bind, lwp_C. pose proof Ha as (_ & _ & [[? _]|(_ & _ & Hb)]); [done|].
    eapply (wp_GoString _ s []); [done|rewrite Hb; apply lookup_insert_eq|].
    apply lwp_bind, lwp_C. cbn. eapply free_added; [done|exact Hok|exact Ha|]. intros h Hh Hle Hbl. apply lwp_ret.
    specialize (HQ h Hh Hle Hbl). by rewrite decide_False in HQ.
Qed.

(** *** The wrappers around exported functions *)

Lemma clean_no_result {A} what (m : L (A * Z)) :
  hands_error m → clean ('(_, e) ← m; no_result what e).
Proof.
  intros Hm l Hok. apply lwp_bind. eapply lwp_mono; [by apply Hm|]. intros [a e] l' (s & Ha). unfold no_result.
  apply lwp_bind. eapply take_error_spec; [exact Hok|done|]. intros h Hh _ Hb. apply lwp_ret. by split.
Qed.
Lemma clean_value {A B} what (m : L (A * Z)) (f : A → option (list byte) → B) :
  hands_error m → clean ('(a, e) ← m; e ← take_error what e; mret (f a e)).
Proof.
  intros Hm l Hok. apply lwp_bind. eapply lwp_mono; [by apply Hm|]. intros [a e] l' (s & Ha).
  apply lwp_bind. eapply take_error_spec; [exact Hok|done|]. intros h Hh _ Hb. apply lwp_ret. by split.
Qed.

(** A decoder of the result that reads the string and leaves memory alone. *)
Definition decodes {A} (decode : Z → L (goresult A)) : Prop :=
  ∀ p s l, (p = 0 ∨ blocks (mem l) !! p = Some (str_block s)) → lwp (decode p) l (λ _ l', l' = l).

Lemma clean_string_result {A} what m (decode : Z → L (goresult A)) :
  hands_out m → decodes decode → clean (string_result what m decode).
Proof.
  intros Hm Hd l Hok. unfold string_result. apply lwp_bind. eapply lwp_mono; [by apply Hm|].
  intros [p e] l' (s & Ha). cbn beta iota. apply lwp_bind. unfold deferred_free. destruct (decide (e = 0)) as [->|He].
  - change (take_error what 0) with (mret None : L (option (list byte))). apply lwp_ret, lwp_bind. eapply lwp_mono.
    { eapply (Hd p s). destruct Ha as (_ & _ & [[-> _]|(_ & _ & ->)]); [by left|right; apply lookup_insert_eq]. }
    intros r l2 ->. apply lwp_bind. destruct (Z.eqb_spec p 0) as [->|Hp].
    + apply lwp_ret, lwp_ret. destruct Ha as (Hok' & _ & [[_ Hb]|[? _]]); [|done]. by split.
    + apply lwp_C. eapply free_added; [done|exact Hok|exact Ha|]. intros h Hh _ Hb. apply lwp_ret. by split.
  - destruct Ha as [-> Ha]. eapply take_error_spec; [exact Hok|done|]. intros h Hh _ Hb. rewrite decide_False by done.
    apply lwp_bind, lwp_ret, lwp_bind. change (0 =? 0) with true. cbn iota. apply lwp_ret, lwp_ret. by split.
Qed.

Lemma lwp_GoString p s l : p = 0 ∨ blocks (mem l) !! p = Some (str_block s) → lwp (C (GoString p)) l (λ _ l', l' = l).
Proof.
  intros Hp. apply lwp_C. destruct (decide (p = 0)) as [->|Hne]; [by destruct l|].
  destruct Hp as [?|Hp]; [done|]. eapply (wp_GoString _ s []); [done|done|]. by destruct l.
Qed.
Lemma decodes_go_string : decodes go_string.
Proof. intros p s l Hp. apply lwp_bind. eapply lwp_mono; [by apply (lwp_GoString p s)|]. by intros r l' ->. Qed.

(** *** The exported functions *)

Definition hands_error_at {A} (m : L (A * Z)) (l : lib) : Prop :=
  lwp m l (λ '(_, e) l', ∃ s, adds e s (mem l) (mem l')).
Definition hands_out_at (m : L (Z * Z)) (l : lib) : Prop :=
  lwp m l (λ '(p, e) l', ∃ s, if decide (e = 0) then adds p s (mem l) (mem l') else p = 0 ∧ adds e s (mem l) (mem l')).
(** Steps that do not touch C memory. *)
Definition quiet {A} (m : L A) : Prop := ∀ l, lwp m l (λ _ l', mem l' = mem l).

Lemma quiet_gets {A} (f : lib → A) : quiet (gets f).
Proof. done. Qed.
Lemma quiet_modify f : (∀ l, mem (f l) = mem l) → quiet (modify f).
Proof. intros Hf l. apply Hf. Qed.

Lemma error_fails {A} (v : A) e l : mem_ok (mem l) → hands_error_at (fails v e) l.
Proof. intros Hok. exists e. by apply adds_alloc. Qed.
Lemma error_succeeds {A} (v : A) l : mem_ok (mem l) → hands_error_at (succeeds v) l.
Proof. intros Hok. exists []. by apply adds_none. Qed.
Lemma error_bind {A B} (m : L A) (f : A → L (B * Z)) l :
  lwp m l (λ a l1, mem l1 = mem l ∧ hands_error_at (f a) l1) → hands_error_at (m ≫= f) l.
Proof. intros H. apply lwp_bind. eapply lwp_mono; [exact H|]. intros a l1 [Hm He]. unfold hands_error_at in He. by rewrite Hm in He. Qed.
Lemma error_quiet {A B} (m : L A) (f : A → L (B * Z)) l :
  quiet m → mem_ok (mem l) → (∀ a l1, mem_ok (mem l1) → hands_error_at (f a) l1) → hands_error_at (m ≫= f) l.
Proof. intros Hm Hok Hf. apply error_bind. eapply lwp_mono; [apply Hm|]. intros a l1 He. split; [done|]. apply Hf. by rewrite He. Qed.

Lemma out_fails e l : mem_ok (mem l) → hands_out_at (fails 0 e) l.
Proof.
  intros Hok. exists e. destruct Hok as [Hp Hl] eqn:E. rewrite decide_False by (cbn; lia). split; [done|]. by apply adds_alloc.
Qed.
Lemma out_none l : mem_ok (mem l) → hands_out_at (succeeds 0) l.
Proof. intros Hok. exists []. rewrite decide_True by done. by apply adds_none. Qed.
Lemma out_string s l : mem_ok (mem l) → hands_out_at (p ← C (CString s); succeeds p) l.
Proof. intros Hok. exists s. cbn -[str_block]. by apply adds_alloc. Qed.
Lemma out_quiet {A} (m : L A) (f : A → L (Z * Z)) l :
  quiet m → mem_ok (mem l) → (∀ a l1, mem_ok (mem l1) → hands_out_at (f a) l1) → hands_out_at (m ≫= f) l.
Proof.
  intros Hm Hok Hf. apply lwp_bind. eapply lwp_mono; [apply Hm|]. intros a l1 He. specialize (Hf a l1).
  rewrite He in Hf. specialize (Hf Hok). unfold hands_out_at in Hf. by rewrite He in Hf.
Qed.
Lemma error_add {A B} (m : L A) (f : A → B) l : quiet m → mem_ok (mem l) → hands_error_at (a ← m; succeeds (f a)) l.
Proof. intros Hm Hok. by apply error_quiet; [..|intros; apply error_succeeds]. Qed.

(** Follows the branches of a function that only writes strings. *)
Ltac memory_tac :=
  repeat first
    [ by apply error_fails | by apply error_succeeds | by apply out_fails | by apply out_none | by apply out_string
    | apply error_quiet; [by first [apply quiet_gets | apply quiet_modify]|done|intros]
    | apply out_quiet; [by first [apply quiet_gets | apply quiet_modify]|done|intros]
    | apply error_add; [by intros ?|done]
    | case_match ].

Section exported.
Context (undef : float64 → Z) {R : RangeOrder} (Error : err → list byte).

Lemma Confsec_ClientDestroy_error closed h : hands_error (Confsec_ClientDestroy Error closed h).
Proof. intros l Hok. change (hands_error_at (Confsec_ClientDestroy Error closed h) l). unfold Confsec_ClientDestroy, get_client. memory_tac. Qed.
Lemma Confsec_amount_error h : hands_error (Confsec_ClientGetDefaultCreditAmountPerRequest h).
Proof. intros l Hok. change (hands_error_at (Confsec_ClientGetDefaultCreditAmountPerRequest h) l). unfold Confsec_ClientGetDefaultCreditAmountPerRequest, get_client. memory_tac. Qed.
Lemma Confsec_nodes_error h : hands_error (Confsec_ClientGetMaxCandidateNodes h).
Proof. intros l Hok. change (hands_error_at (Confsec_ClientGetMaxCandidateNodes h) l). unfold Confsec_ClientGetMaxCandidateNodes, get_client. memory_tac. Qed.
Lemma Confsec_wallet_out json h : hands_out (Confsec_ClientGetWalletStatus json h).
Proof. intros l Hok. change (hands_out_at (Confsec_ClientGetWalletStatus json h) l). unfold Confsec_ClientGetWalletStatus, get_client. memory_tac. Qed.
Lemma Confsec_ResponseDestroy_error h : hands_error (Confsec_ResponseDestroy h).
Proof. intros l Hok. change (hands_error_at (Confsec_ResponseDestroy h) l). unfold Confsec_ResponseDestroy, get_response, close_response. memory_tac. Qed.
Lemma Confsec_metadata_out marshal h : hands_out (Confsec_ResponseGetMetadata marshal h).
Proof. intros l Hok. change (hands_out_at (Confsec_ResponseGetMetadata marshal h) l). unfold Confsec_ResponseGetMetadata, get_response. memory_tac. Qed.
Lemma Confsec_streaming_error h : hands_error (Confsec_ResponseIsStreaming h).
Proof. intros l Hok. change (hands_error_at (Confsec_ResponseIsStreaming h) l). unfold Confsec_ResponseIsStreaming, get_response. memory_tac. Qed.
Lemma Confsec_body_out h : hands_out (Confsec_ResponseGetBody h).
Proof. intros l Hok. change (hands_out_at (Confsec_ResponseGetBody h) l). unfold Confsec_ResponseGetBody, get_response. memory_tac. Qed.
Lemma Confsec_stream_error h : hands_error (Confsec_ResponseGetStream h).
Proof. intros l Hok. change (hands_error_at (Confsec_ResponseGetStream h) l). unfold Confsec_ResponseGetStream, get_response. memory_tac. Qed.
Lemma Confsec_StreamDestroy_error h : hands_error (Confsec_ResponseStreamDestroy h).
Proof. intros l Hok. change (hands_error_at (Confsec_ResponseStreamDestroy h) l). unfold Confsec_ResponseStreamDestroy, get_stream, close_response. memory_tac. Qed.
Lemma Confsec_next_out h : hands_out (Confsec_ResponseStreamGetNext h).
Proof.
  intros l Hok. change (hands_out_at (Confsec_ResponseStreamGetNext h) l).
  unfold Confsec_ResponseStreamGetNext, get_stream, close_response. apply out_quiet; [done..|]. intros [[s r]|] l1 Hok1; [|by apply out_fails].
  case_match; [by apply out_none|]. destruct (Scan_total (st_scanner s) (rp_Body r)) as [[[token sc] b] ->]. memory_tac.
Qed.
End exported.

(** *** Arrays of tags *)

Definition holds_tags (arr : Z) (tags : list (list byte)) (B : gmap Z block) (h : cmem) : Prop :=
  if decide (tags = []) then arr = 0 ∧ blocks h = B
  else 1 ≤ arr ∧ blocks h = with_array arr tags B ∧ ∀ k, arr ≤ k ≤ arr + Z.of_nat (length tags) → B !! k = None.

(** The array and its strings are live, so a new block is none of them. *)
Lemma with_array_live arr tags B k :
  arr ≤ k ≤ arr + Z.of_nat (length tags) → is_Some (with_array arr tags B !! k).
Proof.
  intros Hk. destruct (decide (k = arr)) as [->|]; [rewrite with_array_ptr; eauto|].
  destruct (lookup_lt_is_Some_2 tags (Z.to_nat (k - arr - 1))) as [s Hs]; [lia|].
  exists (str_block s). rewrite <- (with_array_str arr tags B _ s Hs). f_equal. lia.
Qed.
Lemma holds_tags_alloc arr tags B h b :
  mem_ok h → holds_tags arr tags B h → holds_tags arr tags (<[next_addr h := b]> B) (alloc b h).
Proof.
  intros [_ Hl]. unfold holds_tags. destruct (decide (tags = [])); [by intros [-> <-]|]. intros (Ha & Hb & HB).
  assert (Hn : ∀ k, arr ≤ k ≤ arr + Z.of_nat (length tags) → k < next_addr h).
  { intros k Hk. apply Hl. rewrite Hb. by apply with_array_live. }
  pose proof (Hn (arr + Z.of_nat (length tags)) ltac:(lia)) as Hlast. split_and!; [done| |].
  - cbn. rewrite Hb. unfold with_array. rewrite insert_insert_ne by lia. f_equal. apply insert_union_r, lookup_map_seqZ_None.
    right. rewrite length_fmap. lia.
  - intros k Hk. specialize (Hn k Hk). rewrite lookup_insert_ne by lia. by apply HB.
Qed.
Lemma holds_tags_same arr tags B h h' : blocks h' = blocks h → holds_tags arr tags B h → holds_tags arr tags B h'.
Proof. intros Hb. unfold holds_tags. by rewrite Hb. Qed.

Lemma with_array_ok slice h h' :
  mem_ok h → blocks h' = with_array (next_addr h) slice (blocks h) → next_addr h' = next_addr h + 1 + Z.of_nat (length slice) → mem_ok h'.
Proof.
  intros [Hp Hl] Hb Hn. split; [lia|]. intros p. rewrite Hb, Hn. unfold with_array.
  destruct (decide (p = next_addr h)) as [->|]; [lia|]. rewrite lookup_insert_ne by done.
  intros [b [Hs|Hs]%lookup_union_Some_raw].
  - apply lookup_map_seqZ_Some in Hs as [? Hs%lookup_lt_Some]. rewrite length_fmap in Hs. lia.
  - destruct Hs as [_ Hs]. specialize (Hl p ltac:(eauto)). lia.
Qed.

Lemma tags_array_spec tags l (Q : Z → lib → Prop) :
  mem_ok (mem l) →
  (∀ arr h, mem_ok h → next_addr (mem l) ≤ next_addr h → holds_tags arr tags (blocks (mem l)) h → Q arr (set_mem h l)) →
  lwp (tags_array tags) l Q.
Proof.
  intros Hok HQ. destruct (decide (tags = [])) as [->|Hne].
  - apply lwp_ret. specialize (HQ 0 (mem l) Hok ltac:(lia)). destruct l. by apply HQ.
  - assert (tags_array tags = C (goStrSliceToCStrArray (Some tags))) as -> by (by destruct tags).
    apply lwp_C. eapply wp_mono; [by apply goStrSlice_spec|]. intros arr h (-> & Hb & Hn). pose proof Hok as [? _]. apply HQ.
    + by eapply with_array_ok.
    + lia.
    + unfold holds_tags. rewrite decide_False by done. split_and!; [lia|done|]. intros k Hk. apply mem_ok_free; [done|lia].
Qed.

Lemma tags_free_spec arr tags B l (Q : unit → lib → Prop) :
  mem_ok (mem l) → holds_tags arr tags B (mem l) →
  (∀ h, mem_ok h → next_addr (mem l) ≤ next_addr h → blocks h = B → Q tt (set_mem h l)) → lwp (tags_free arr tags) l Q.
Proof.
  intros Hok Ht HQ. unfold holds_tags in Ht. destruct (decide (tags = [])) as [->|Hne].
  - destruct Ht as [-> Hb]. apply lwp_ret. specialize (HQ (mem l) Hok ltac:(lia) Hb). by destruct l.
  - destruct Ht as (Ha & Hb & HB). assert (tags_free arr tags = C (freeCStrArray arr (Z.of_nat (length tags)))) as -> by (by destruct tags).
    apply lwp_C. eapply wp_mono; [by eapply freeCStrArray_spec|]. intros [] h [Hb' Hn]. apply HQ; [|lia|done].
    destruct Hok as [Hp Hl]. split; [lia|]. rewrite Hb', Hn. intros p Hs. apply Hl. rewrite Hb. unfold with_array.
    destruct (decide (p = arr)) as [->|]; [rewrite lookup_insert_eq; eauto|]. rewrite lookup_insert_ne by done.
    apply lookup_union_is_Some. by right.
Qed.

Lemma tags_read_spec arr tags B l (Q : option (list (list byte)) → lib → Prop) :
  holds_tags arr tags B (mem l) → Q (if decide (tags = []) then None else Some (cut <$> tags)) l →
  lwp (C (cStrArrayToGoStrSlice arr (Z.of_nat (length tags)))) l Q.
Proof.
  intros Ht HQ. apply lwp_C. unfold holds_tags in Ht. destruct (decide (tags = [])) as [->|Hne].
  - destruct Ht as [-> _]. by destruct l.
  - destruct Ht as (Ha & Hb & _). eapply wp_mono; [by eapply cStrArray_spec|]. intros strs h [-> ->].
    rewrite decide_False by done. by destruct l.
Qed.

Section arrays.
Context (undef : float64 → Z) {R : RangeOrder} (Error : err → list byte).

Lemma Confsec_SetTags_error h arr tags B l :
  mem_ok (mem l) → holds_tags arr tags B (mem l) →
  hands_error_at (Confsec_ClientSetDefaultNodeTags Error h arr (Z.of_nat (length tags))) l.
Proof.
  intros Hok Ht. unfold Confsec_ClientSetDefaultNodeTags, get_client. apply error_bind.
  assert (Hg : lwp (gets (λ l, reg_get h (clientsRegistry l))) l (λ a l1, l1 = l)) by done.
  eapply lwp_mono; [exact Hg|]. intros [c|] l1 ->; (split; [done|]); [|by apply error_fails].
  apply error_bind. eapply tags_read_spec; [done|]. split; [done|]. memory_tac.
Qed.

Lemma ClientSetDefaultNodeTags_clean h tags : clean (ClientSetDefaultNodeTags Error h tags).
Proof.
  intros l Hok. apply lwp_bind. apply tags_array_spec; [done|]. intros arr h1 Hok1 _ Ht. apply lwp_bind.
  eapply lwp_mono; [eapply (Confsec_SetTags_error h arr tags _ (set_mem h1 l)); [done|exact Ht]|].
  intros [_ e] l2 (s & Ha). unfold no_result. apply lwp_bind, lwp_bind. eapply take_error_spec; [|exact Ha|]; [done|].
  intros h2 Hok2 _ Hb2. apply lwp_ret, lwp_bind. eapply tags_free_spec; [done|by eapply holds_tags_same|].
  intros h3 Hok3 _ Hb3. apply lwp_ret. by split.
Qed.

Lemma Confsec_Create_error connect key s env arr crt mcn tags B l :
  mem_ok (mem l) → holds_tags arr tags B (mem l) → blocks (mem l) !! key = Some (str_block s) →
  (env ≠ 0 → ∃ t, blocks (mem l) !! env = Some (str_block t)) →
  hands_error_at (Confsec_ClientCreate undef Error connect key crt mcn arr (Z.of_nat (length tags)) env) l.
Proof.
  intros Hok Ht Hk He. assert (1 ≤ key) as Hkey by (apply Hok; eauto). unfold Confsec_ClientCreate. rewrite (proj2 (Z.eqb_neq key 0)) by lia. cbv iota.
  assert (Henv : lwp (if env =? 0 then mret (text EnvironmentProd) else C (GoString env)) l (λ _ l1, l1 = l)).
  { destruct (Z.eqb_spec env 0) as [->|Hne]; [done|]. destruct (He Hne) as [t Het]. apply lwp_C.
    eapply (wp_GoString _ t []); [done|done|by destruct l]. }
  apply error_bind. eapply lwp_mono; [exact Henv|]. intros tenv l1 ->. split; [done|]. destruct (apiURL_of (bytes_string tenv)) as [apiURL|]; [|by apply error_fails].
  apply error_bind. eapply tags_read_spec; [done|]. split; [done|]. apply error_bind, lwp_C.
  eapply (wp_GoString _ s []); [lia|done|]. split; [done|]. replace (set_mem (mem l) l) with l by by destruct l. memory_tac.
Qed.

(** The strings a wrapper allocates itself, then the call. *)
Lemma ClientCreate_leaks connect apiKey crt mcn tags env l :
  mem_ok (mem l) →
  lwp (ClientCreate undef Error connect apiKey crt mcn tags env) l (λ _ l', mem_ok (mem l') ∧ ∃ key envp,
    blocks (mem l) !! key = None ∧ blocks (mem l) !! envp = None ∧ key ≠ envp ∧
    blocks (mem l') = <[key := str_block apiKey]> (if decide (env = []) then blocks (mem l) else <[envp := str_block env]> (blocks (mem l)))).
Proof.
  intros Hok. apply lwp_bind, tags_array_spec; [done|]. intros arr h1 Hok1 Hle1 Ht1. apply lwp_bind.
  set (B1 := if decide (env = []) then blocks (mem l) else <[next_addr h1 := str_block env]> (blocks (mem l))).
  assert (Henv : lwp (if bool_decide (env = []) then mret 0 else C (CString env)) (set_mem h1 l) (λ p l2, mem_ok (mem l2) ∧
    next_addr h1 ≤ next_addr (mem l2) ∧ holds_tags arr tags B1 (mem l2) ∧
    (p ≠ 0 → blocks (mem l2) !! p = Some (str_block env)) ∧ (env ≠ [] → next_addr h1 < next_addr (mem l2)))).
  { unfold B1. case_bool_decide as He; [apply lwp_ret; rewrite decide_True by done; by split_and!|].
    rewrite decide_False by done. apply lwp_C, wp_CString. change (Chars (env ++ [x00])) with (str_block env). split_and!; cbn -[str_block]; [by apply alloc_ok|lia|by apply holds_tags_alloc| |lia].
    intros _. apply lookup_insert_eq. }
  eapply lwp_mono; [exact Henv|]. clear Henv. intros envp l2 (Hok2 & Hle2 & Ht2 & Hep & Hlt). apply lwp_bind, lwp_C, wp_CString.
  change (Chars (apiKey ++ [x00])) with (str_block apiKey). apply lwp_bind. eapply lwp_mono.
  { eapply (Confsec_Create_error connect _ apiKey envp arr); cbn [set_mem mem]; [by apply alloc_ok|by apply holds_tags_alloc|apply lookup_insert_eq|].
    intros Hne. specialize (Hep Hne). exists env. cbn. rewrite lookup_insert_ne; [done|]. intros Heq.
    rewrite <- Heq, mem_ok_free in Hep; [done|done|lia]. }
  intros [id e] l3 (s & Ha). apply lwp_bind. eapply take_error_spec; [|exact Ha|]; [by apply alloc_ok|]. intros h4 Hok4 _ Hb4.
  apply lwp_bind. eapply tags_free_spec; [done|eapply holds_tags_same; [exact Hb4|by apply holds_tags_alloc]|].
  intros h5 Hok5 _ Hb5. apply lwp_ret. cbn [set_mem mem]. split; [done|].
  destruct (decide (env = [])) as [->|Hne].
  - exists (next_addr (mem l2)), (next_addr (mem l2) + 1). split_and!; [apply mem_ok_free; [done|lia]..|lia|done].
  - specialize (Hlt Hne). exists (next_addr (mem l2)), (next_addr h1). split_and!; [apply mem_ok_free; [done|lia]..|lia|done].
Qed.

Lemma nil_slice_array slice l (Q : Z → lib → Prop) :
  lwp (tags_array (string_bytes <$> slice)) l Q → lwp (C (goStrSliceToCStrArray (nil_slice slice))) l Q.
Proof. destruct slice; [by destruct l|done]. Qed.

(** The array of default tags is read, never freed. *)
Lemma ClientGetDefaultNodeTags_leaks h l c :
  mem_ok (mem l) → reg_get h (clientsRegistry l) = Some c →
  let tags := string_bytes <$> ClientParams.NodeTags (ClientParams.params c) in
  lwp (ClientGetDefaultNodeTags h) l (λ r l', r = Ok (if decide (tags = []) then None else Some (cut <$> tags)) ∧
    mem_ok (mem l') ∧ ∃ arr, holds_tags arr tags (blocks (mem l)) (mem l')).
Proof.
  intros Hok Hc tags. apply lwp_bind, lwp_bind. apply lwp_gets. rewrite Hc. apply lwp_bind.
  apply nil_slice_array, tags_array_spec; [done|]. fold tags. intros arr h1 Hok1 _ Ht. apply lwp_ret.
  change (take_error "failed to get default node tags: " 0) with (mret None : L (option (list byte))).
  apply lwp_bind, lwp_ret, lwp_bind. cbn [default from_option]. rewrite <- (length_fmap string_bytes). fold tags.
  eapply tags_read_spec; [exact Ht|]. apply lwp_ret. split_and!; [done|done|]. by exists arr.
Qed.

(** With no client there is nothing to leave behind. *)
Lemma ClientGetDefaultNodeTags_unknown h l :
  mem_ok (mem l) → reg_get h (clientsRegistry l) = None →
  lwp (ClientGetDefaultNodeTags h) l (λ r l',
    r = Err (text "failed to get default node tags: " ++ cut ErrClientNotFound) ∧ same_memory l l').
Proof.
  intros Hok Hc. apply lwp_bind, lwp_bind, lwp_gets. rewrite Hc. apply lwp_bind, lwp_C, wp_CString, lwp_ret, lwp_bind.
  change (Chars (ErrClientNotFound ++ [x00])) with (str_block ErrClientNotFound). pose proof Hok as [Hpos _].
  eapply take_error_spec; [exact Hok|by apply adds_alloc|]. intros h1 Hok1 _ Hb1. rewrite decide_False by lia.
  apply lwp_ret. by split_and!.
Qed.

(** The length of a request as the library sees it. *)
Lemma C_int_le z : 0 ≤ z → C_int z ≤ z.
Proof. intros Hz. unfold C_int, wrap_s. pose proof (Z.mod_le (z + 2 ^ (32 - 1)) (2 ^ 32)). lia. Qed.

Section do_request.
Context {Rest : Type} (RR : list byte → goresult (http_request Rest)) (RT : ClientParams.Client → http_request Rest → result err response).

Lemma Confsec_ClientDoRequest_error h p req l :
  mem_ok (mem l) → p ≠ 0 → blocks (mem l) !! p = Some (str_block req) →
  reg_get h (clientsRegistry l) = None ∨ 0 ≤ C_int (Z.of_nat (length req)) →
  hands_error_at (Confsec_ClientDoRequest Error RR RT h p (Z.of_nat (length req))) l.
Proof.
  intros Hok Hne Hp Hcase. unfold Confsec_ClientDoRequest, get_client. apply error_bind, lwp_gets. split; [done|].
  destruct (reg_get h (clientsRegistry l)) as [c|]; [|by apply error_fails]. destruct Hcase as [?|Hn]; [done|].
  apply error_bind, lwp_C. eapply (wp_GoBytes _ _ (req ++ [x00])); [done|done| |].
  { rewrite length_app. pose proof (C_int_le (Z.of_nat (length req))). cbn. lia. }
  split; [done|]. replace (set_mem (mem l) l) with l by by destruct l. memory_tac.
Qed.

Lemma ClientDoRequest_clean h req l :
  mem_ok (mem l) → reg_get h (clientsRegistry l) = None ∨ 0 ≤ C_int (Z.of_nat (length req)) →
  lwp (ClientDoRequest Error RR RT h req) l (λ _ l', same_memory l l').
Proof.
  intros Hok Hcase. apply lwp_bind, lwp_C, wp_CString. change (Chars (req ++ [x00])) with (str_block req).
  set (p := next_addr (mem l)). set (l1 := set_mem _ l). pose proof Hok as [Hpos _].
  assert (Hok1 : mem_ok (mem l1)) by by apply alloc_ok.
  assert (Hp : blocks (mem l1) !! p = Some (str_block req)) by apply lookup_insert_eq.
  assert (Hcall := Confsec_ClientDoRequest_error h p req l1 Hok1 ltac:(unfold p; lia) Hp Hcase).
  apply lwp_bind. eapply lwp_mono; [exact Hcall|]. intros [id e] l2 (s & Ha). apply lwp_bind.
  eapply take_error_spec; [exact Hok1|exact Ha|]. intros h2 Hok2 Hle2 Hb2. apply lwp_bind, lwp_C. cbn [set_mem mem].
  eapply (free_added p req (mem l)); [lia|done| |intros h3 Hok3 _ Hb3; apply lwp_ret; by split].
  split_and!; [done|cbn in Hle2; lia|right]. rewrite Hb2. split_and!; [lia|apply mem_ok_free; [done|lia]|done].
Qed.

(** A length that is negative as a C [int] panics in [C.GoBytes]. *)
Lemma ClientDoRequest_panics h req l c :
  reg_get h (clientsRegistry l) = Some c → C_int (Z.of_nat (length req)) < 0 →
  ClientDoRequest Error RR RT h req l = None.
Proof.
  intros Hc Hn. unfold ClientDoRequest.
  erewrite L_bind_some by reflexivity. apply L_bind_none. unfold Confsec_ClientDoRequest, get_client.
  erewrite L_bind_some by reflexivity. cbn [clientsRegistry set_mem]. rewrite Hc. apply L_bind_none. unfold C, GoBytes.
  by rewrite (proj2 (Z.eqb_neq _ _)), (proj2 (Z.ltb_lt _ _)) by lia.
Qed.
End do_request.
End arrays.

(** *** The memory of the whole API *)

Section api.
Context (undef : float64 → Z) {R : RangeOrder} (Error : err → list byte).

(** C31. From any state of the library with a sane C heap, whatever the handle,
    the arguments and the answers of the services are: every Go wrapper but the
    three below ends without reading or freeing memory that is not its own, and
    on success and on every error path the C heap holds afterwards exactly the
    blocks it held before.
    - [ClientDoRequest] does so too, except for a known client and a request
      whose length is negative as a C [int] (2^31 bytes to 2^32 - 1, for one),
      where it panics.
    - [ClientCreate] ends, with success or an error, and leaves exactly the copies
      of the API key and, if there is one, of the environment.
    - [ClientGetDefaultNodeTags] gives memory back for an unknown client, and
      leaves the array of tags it was handed for a known one. *)
Theorem wrappers_free_memory {Rest Status : Type} :
  (∀ closed h, clean (ClientDestroy Error closed h)) ∧
  (∀ h, clean (ClientGetDefaultCreditAmountPerRequest h)) ∧
  (∀ h, clean (ClientGetMaxCandidateNodes h)) ∧
  (∀ h tags, clean (ClientSetDefaultNodeTags Error h tags)) ∧
  (∀ (um : list byte → goresult Status) json h, clean (ClientGetWalletStatus um json h)) ∧
  (∀ (RR : list byte → goresult (http_request Rest)) RT h req l, mem_ok (mem l) →
    if decide (is_Some (reg_get h (clientsRegistry l)) ∧ C_int (Z.of_nat (length req)) < 0)
    then ClientDoRequest Error RR RT h req l = None
    else lwp (ClientDoRequest Error RR RT h req) l (λ _ l', same_memory l l')) ∧
  (∀ h, clean (ResponseDestroy h)) ∧ (∀ marshal h, clean (ResponseGetMetadata marshal h)) ∧
  (∀ h, clean (ResponseIsStreaming h)) ∧ (∀ h, clean (ResponseGetBody h)) ∧ (∀ h, clean (ResponseGetStream h)) ∧
  (∀ h, clean (ResponseStreamGetNext h)) ∧ (∀ h, clean (ResponseStreamDestroy h)) ∧
  (∀ connect apiKey crt mcn tags env l, mem_ok (mem l) →
    lwp (ClientCreate undef Error connect apiKey crt mcn tags env) l (λ _ l', mem_ok (mem l') ∧ ∃ key envp,
      blocks (mem l) !! key = None ∧ blocks (mem l) !! envp = None ∧ key ≠ envp ∧
      blocks (mem l') = <[key := str_block apiKey]> (if decide (env = []) then blocks (mem l) else <[envp := str_block env]> (blocks (mem l))))) ∧
  ∀ h l, mem_ok (mem l) →
    match reg_get h (clientsRegistry l) with
    | None => lwp (ClientGetDefaultNodeTags h) l (λ r l',
        r = Err (text "failed to get default node tags: " ++ cut ErrClientNotFound) ∧ same_memory l l')
    | Some c =>
        let tags := string_bytes <$> ClientParams.NodeTags (ClientParams.params c) in
        lwp (ClientGetDefaultNodeTags h) l (λ r l', r = Ok (if decide (tags = []) then None else Some (cut <$> tags)) ∧
          mem_ok (mem l') ∧ ∃ arr, holds_tags arr tags (blocks (mem l)) (mem l'))
    end.
Proof.
  split_and!; intros.
  - apply clean_no_result, Confsec_ClientDestroy_error.
  - apply clean_value, Confsec_amount_error.
  - apply clean_value, Confsec_nodes_error.
  - apply ClientSetDefaultNodeTags_clean.
  - apply clean_string_result; [apply Confsec_wallet_out|].
    intros p s l Hp. apply lwp_bind. eapply lwp_mono; [by apply (lwp_GoString p s)|]. by intros r l' ->.
  - case_decide as Hd; [destruct Hd as [[c Hc] Hn]; by eapply ClientDoRequest_panics|]. apply ClientDoRequest_clean; [done|].
    destruct (reg_get h (clientsRegistry l)); [|by left]. right. apply Z.nlt_ge. intros ?. by apply Hd.
  - apply clean_no_result, Confsec_ResponseDestroy_error.
  - apply clean_string_result; [apply Confsec_metadata_out|apply decodes_go_string].
  - apply clean_value, Confsec_streaming_error.
  - apply clean_string_result; [apply Confsec_body_out|apply decodes_go_string].
  - apply clean_value, Confsec_stream_error.
  - apply clean_string_result; [apply Confsec_next_out|]. intros p s l Hp. destruct (Z.eqb_spec p 0); [done|].
    apply lwp_bind. eapply lwp_mono; [by apply (lwp_GoString p s)|]. by intros r l' ->.
  - apply clean_no_result, Confsec_StreamDestroy_error.
  - by apply ClientCreate_leaks.
  - case_match eqn:Hc; [by apply ClientGetDefaultNodeTags_leaks|by apply ClientGetDefaultNodeTags_unknown].
Qed.
End api.

(** ** Streams *)

(** What a caller does: next chunks until the end. *)
Fixpoint read_stream (fuel : nat) (handle : Z) : L (goresult (list (list byte))) :=
  match fuel with
  | O => λ _, None
  | S fuel =>
      r ← ResponseStreamGetNext handle;
      match r with
      | Err e => mret (Err e)
      | Ok None => mret (Ok [])
      | Ok (Some chunk) =>
          rest ← read_stream fuel handle;
          mret (match rest with Err e => Err e | Ok chunks => Ok (chunk :: chunks) end)
      end
  end.

(** An open stream: its scanner and the body it reads. *)
Definition stream_at (h : Z) (o : nat) (sc : scanner) (b : body) (l : lib) : Prop :=
  reg_get h (streamsRegistry l) = Some (MkStream o sc false) ∧ (∃ r, objects l !! o = Some r ∧ rp_Body r = b) ∧ in_order sc b.
Definition stream_ended (h : Z) (o : nat) (l : lib) : Prop :=
  (∃ sc, reg_get h (streamsRegistry l) = Some (MkStream o sc true)) ∧ ∃ r, objects l !! o = Some r ∧ closed (rp_Body r) = true.

Lemma in_order_no_error sc b : in_order sc b → Scanner_Err sc = None.
Proof. unfold Scanner_Err. by intros [->|(-> & _)]. Qed.

Lemma Confsec_next_spec h o sc b l :
  mem_ok (mem l) → stream_at h o sc b l →
  lwp (Confsec_ResponseStreamGetNext h) l (λ '(p, e) l', e = 0 ∧
    if decide (rest_of sc b = []) then p = 0 ∧ mem l' = mem l ∧ stream_ended h o l'
    else p = next_addr (mem l) ∧ mem l' = alloc (str_block (take defaultChunkSize (rest_of sc b))) (mem l) ∧
      ∃ sc' b', stream_at h o sc' b' l' ∧ rest_of sc' b' = drop defaultChunkSize (rest_of sc b)).
Proof.
  intros Hok (Hs & (r & Hr & Hb) & Ho). unfold Confsec_ResponseStreamGetNext, get_stream. apply lwp_bind.
  apply lwp_gets.
  assert ((s ← reg_get h (streamsRegistry l); r ← objects l !! st_resp s; Some (s, r)) = Some (MkStream o sc false, r)) as ->.
  { rewrite Hs. cbn. by rewrite Hr. }
  cbv beta iota. cbn [st_done st_scanner st_resp]. rewrite Hb. destruct (Scan_spec sc b Ho) as (sc' & b' & -> & Ho' & Hrest & _). apply lwp_bind, lwp_modify.
  apply lwp_bind, lwp_modify. rewrite (in_order_no_error _ _ Ho'). destruct (decide (rest_of sc b = [])) as [He|Hne].
  - apply lwp_bind, lwp_modify, lwp_bind, lwp_modify, lwp_ret. split_and!; [done|done|done|]. split.
    + exists sc'. unfold reg_get in Hs |- *. cbn [set_streams set_objects streamsRegistry reg_write reg_m]. by rewrite !lookup_alter_eq, Hs.
    + eexists. cbn [set_streams set_objects objects]. rewrite !list_lookup_alter_eq, Hr. by split.
  - apply lwp_bind, lwp_C, wp_CString, lwp_ret. split_and!; [done|done|done|]. exists sc', b'. split; [|done].
    unfold stream_at. split_and!; [| |done].
    + unfold reg_get in Hs |- *. cbn [set_streams set_objects set_mem streamsRegistry reg_write reg_m]. by rewrite lookup_alter_eq, Hs.
    + eexists. cbn [set_streams set_objects set_mem objects]. rewrite list_lookup_alter_eq, Hr. by split.
Qed.

Lemma GetNext_spec h o sc b l :
  mem_ok (mem l) → stream_at h o sc b l →
  lwp (ResponseStreamGetNext h) l (λ r l', same_memory l l' ∧
    if decide (rest_of sc b = []) then r = Ok None ∧ stream_ended h o l'
    else r = Ok (Some (cut (take defaultChunkSize (rest_of sc b)))) ∧
      ∃ sc' b', stream_at h o sc' b' l' ∧ rest_of sc' b' = drop defaultChunkSize (rest_of sc b)).
Proof.
  intros Hok Hs. unfold ResponseStreamGetNext, string_result. apply lwp_bind. eapply lwp_mono; [by apply Confsec_next_spec|].
  intros [p e] l' [-> H].
  change (take_error "failed to get streaming response chunk: " 0) with (mret None : L (option (list byte))).
  apply lwp_bind, lwp_ret, lwp_bind. destruct (decide (rest_of sc b = [])).
  - destruct H as (-> & Hm & Hend). change (0 =? 0) with true. apply lwp_ret, lwp_bind, lwp_ret, lwp_ret.
    split_and!; [|done|done]. unfold same_memory. by rewrite Hm.
  - destruct H as (-> & Hm & sc' & b' & Hs' & Hrest). pose proof Hok as [Hp _]. rewrite (proj2 (Z.eqb_neq _ 0)) by lia.
    apply lwp_bind, lwp_C. eapply (wp_GoString _ (take defaultChunkSize (rest_of sc b)) []); [lia|rewrite Hm; apply lookup_insert_eq|].
    apply lwp_ret, lwp_bind. unfold deferred_free. rewrite (proj2 (Z.eqb_neq _ 0)) by lia. apply lwp_C. cbn [set_mem mem].
    eapply free_added; [lia|exact Hok|rewrite Hm; by apply adds_alloc|]. intros h' Hh' _ Hb'. apply lwp_ret.
    split; [by split|]. split; [done|]. by exists sc', b'.
Qed.

(** The chunks of a text: full ones, then the rest of it. *)
Fixpoint chunked (fuel : nat) (l : list byte) : list (list byte) :=
  match fuel, l with
  | S fuel, _ :: _ => take defaultChunkSize l :: chunked fuel (drop defaultChunkSize l)
  | _, _ => []
  end.
Lemma chunked_spec fuel l :
  (length l ≤ fuel)%nat →
  concat (chunked fuel l) = l ∧ Forall (λ c, 0 < length c ≤ defaultChunkSize)%nat (chunked fuel l) ∧
  ∀ i, (S i < length (chunked fuel l))%nat → length (nth i (chunked fuel l) []) = defaultChunkSize.
Proof.
  assert (Hpos : (0 < defaultChunkSize)%nat) by (vm_compute; lia).
  induction fuel as [|fuel IH] in l |- *; intros Hl; (destruct l as [|x l]; [by split_and!; [|constructor|cbn; lia]|]); [cbn in Hl; lia|].
  cbn [chunked]. destruct (IH (drop defaultChunkSize (x :: l))) as (Hc & Hf & Hi); [rewrite length_drop; cbn in *; lia|]. split_and!.
  - cbn [concat]. by rewrite Hc, take_drop.
  - constructor; [rewrite length_take; cbn; lia|done].
  - intros [|i] Hlt; cbn [length nth] in *.
    + rewrite length_take. destruct (decide (defaultChunkSize ≤ S (length l))%nat); [cbn; lia|].
      rewrite (drop_ge (x :: l)) in Hlt by (cbn; lia). destruct fuel; cbn in Hlt; lia.
    + apply Hi. lia.
Qed.

Lemma read_stream_spec fuel h o sc b l :
  mem_ok (mem l) → stream_at h o sc b l → (length (rest_of sc b) < fuel)%nat →
  lwp (read_stream fuel h) l (λ r l', r = Ok (cut <$> chunked (length (rest_of sc b)) (rest_of sc b)) ∧
    same_memory l l' ∧ stream_ended h o l').
Proof.
  assert (Hpos : (0 < defaultChunkSize)%nat) by (vm_compute; lia).
  assert (Hext : ∀ f f' l, (length l ≤ f)%nat → (length l ≤ f')%nat → chunked f l = chunked f' l).
  { induction f as [|f IH]; intros [|f'] [|x k] H1 H2; cbn [length] in *; try done; try lia.
    cbn [chunked]. f_equal. apply IH; rewrite length_drop; cbn [length]; lia. }
  induction fuel as [|fuel IH] in sc, b, l |- *; intros Hok Hs Hf; [lia|]. cbn [read_stream]. apply lwp_bind.
  eapply lwp_mono; [by apply GetNext_spec|]. intros r l1 [[Hok1 Hb1] H]. destruct (decide (rest_of sc b = [])) as [He|Hne].
  - destruct H as [-> Hend]. apply lwp_ret. rewrite He. by split_and!.
  - destruct H as (-> & sc' & b' & Hs' & Hrest). apply lwp_bind. eapply lwp_mono.
    { apply (IH sc' b' l1 Hok1 Hs'). rewrite Hrest, length_drop. destruct (rest_of sc b); [done|cbn in *; lia]. }
    intros r2 l2 (-> & [Hok2 Hb2] & Hend). apply lwp_ret. split_and!; [|split; [done|congruence]|done]. f_equal.
    destruct (rest_of sc b) as [|x k] eqn:E; [done|]. cbn [length chunked]. rewrite fmap_cons. f_equal. rewrite Hrest. f_equal.
    apply Hext; rewrite ?length_drop; cbn [length]; lia.
Qed.

(** C30. A streaming response is delivered in order, completely and exactly
    once: when the body is open and its reads neither fail nor stay empty for
    more than a hundred times in a row, [ResponseGetStream] opens a stream whose
    [ResponseStreamGetNext] calls end after finitely many chunks; the chunks are
    those of the body, concatenated they are the whole body, every one but the
    last has 128 bytes and none is empty, and each arrives as C sees it, cut at
    its first NUL byte, so that a body without NUL arrives unchanged.  At the
    end the body is closed, the stream is marked as done and the C heap is what
    it was. *)
Theorem stream_delivers h o r l :
  mem_ok (mem l) → reg_ok (streamsRegistry l) → nextID (streamsRegistry l) + 1 < 2 ^ 64 →
  reg_get h (responsesRegistry l) = Some o → objects l !! o = Some r → isStreaming r = true →
  closed (rp_Body r) = false → steady 0 (reads (rp_Body r)) →
  let content := (read_all (reads (rp_Body r))).1 in
  ∃ s l1 chunks l2,
    ResponseGetStream h l = Some (Ok s, l1) ∧
    read_stream (S (length content)) s l1 = Some (Ok (cut <$> chunks), l2) ∧
    concat chunks = content ∧ Forall (λ c, 0 < length c ≤ 128)%nat chunks ∧
    (∀ i, (S i < length chunks)%nat → length (nth i chunks []) = 128%nat) ∧
    (nul_free content → concat (cut <$> chunks) = content) ∧
    same_memory l l2 ∧ stream_ended s o l2.
Proof.
  intros Hok Hreg Hid Hh Hr Hst Hcl Hsteady content. pose proof (reg_add_spec (newResponseStream o) _ Hreg Hid) as Hadd.
  set (l1 := set_streams (reg_add (newResponseStream o) (streamsRegistry l)).2 l).
  assert (Hget : ResponseGetStream h l = Some (Ok (nextID (streamsRegistry l)), l1)).
  { unfold ResponseGetStream, Confsec_ResponseGetStream. unfold mbind, L_bind.
    assert (get_response h l = Some (Some (o, r), l)) as -> by (unfold get_response, gets; rewrite Hh; cbn; by rewrite Hr).
    cbn [mbind option_bind]. by rewrite Hst. }
  assert (Hat : stream_at (nextID (streamsRegistry l)) o NewScanner (rp_Body r) l1).
  { split_and!; [by apply Hadd|by exists r|by right]. }
  destruct (proj1 (lwp_run _ _ _) (read_stream_spec (S (length content)) _ _ _ _ l1 Hok Hat (Nat.lt_succ_diag_r _)))
    as (res & l2 & Hrun & -> & Hsame & Hend).
  change (rest_of NewScanner (rp_Body r)) with content in Hrun.
  destruct (chunked_spec (length content) content (le_n _)) as (Hc & Hf & Hi).
  exists (nextID (streamsRegistry l)), l1, (chunked (length content) content), l2. split_and!; try done.
  intros Hnul. transitivity (concat (chunked (length content) content)); [|done]. f_equal.
  apply fmap_cut. apply Forall_forall. intros c Hin Hx. apply Hnul. rewrite <- Hc. apply list_elem_of_In, in_concat.
  exists c. by rewrite <- !list_elem_of_In.
Qed.

(** ** A stream *)

Definition demo_response (rs : list (list byte * option read_err)) : response :=
  MkResponse 200 "200 OK" "HTTP/1.1" {[ "Content-Type" := ["TEXT/Event-Stream"] ]} None (MkBody rs false).
Definition demo_lib (rs : list (list byte * option read_err)) : lib :=
  MkLib newRegistry (reg_add 0%nat newRegistry).2 newRegistry [demo_response rs] (MkMem ∅ 1).
Definition demo_reads : list (list byte * option read_err) :=
  [(replicate 100 x61, None); ([], None); (replicate 40 x62, Some EOF)].
Definition demo_read (rs : list (list byte * option read_err)) : option (goresult (list (list byte))) :=
  match ResponseGetStream 1 (demo_lib rs) with
  | Some (Ok s, l) => fst <$> read_stream 200 s l
  | _ => None
  end.

Example demo_chunks : demo_read demo_reads = Some (Ok [replicate 100 x61 ++ replicate 28 x62; replicate 12 x62]).
Proof. vm_compute. reflexivity. Qed.
(** A NUL byte cuts its chunk. *)
Example demo_nul : demo_read [([x61; x00; x62], None)] = Some (Ok [[x61]]).
Proof. vm_compute. reflexivity. Qed.
(** Bytes that were read together with an error never arrive. *)
Example demo_error : ∃ e, demo_read [(replicate 300 x61, Some (ReadFailure (text "reset")))] = Some (Err e).
Proof. eexists. vm_compute. reflexivity. Qed.

Lemma demo_mem_ok : mem_ok (MkMem ∅ 1).
Proof. split; [cbn; lia|]. intros p. cbn. rewrite lookup_empty. by intros []. Qed.

Lemma stream_delivers_witness :
  ∃ s l1 chunks l2, ResponseGetStream 1 (demo_lib demo_reads) = Some (Ok s, l1) ∧
    read_stream 141 s l1 = Some (Ok (cut <$> chunks), l2) ∧ concat (cut <$> chunks) = replicate 100 x61 ++ replicate 40 x62.
Proof.
  destruct (stream_delivers 1 0 (demo_response demo_reads) (demo_lib demo_reads)) as (s & l1 & chunks & l2 & H1 & H2 & _ & _ & _ & H3 & _).
  - exact demo_mem_ok.
  - exact newRegistry_ok.
  - vm_compute. reflexivity.
  - vm_compute. reflexivity.
  - reflexivity.
  - vm_compute. reflexivity.
  - reflexivity.
  - vm_compute. repeat constructor.
  - exists s, l1, chunks, l2. split; [exact H1|]. split; [exact H2|]. apply H3.
    apply (bool_decide_eq_true_1 (x00 ∉ _)). vm_compute. reflexivity.
Defined.

Lemma wrappers_free_memory_witness :
  lwp (ResponseGetBody 7) (new_lib (MkMem ∅ 1)) (λ _ l', same_memory (new_lib (MkMem ∅ 1)) l').
Proof.
  destruct (wrappers_free_memory (R:=elements_order) (Rest:=unit) (Status:=unit) (λ _, 0) (λ _, []))
    as (_ & _ & _ & _ & _ & _ & _ & _ & _ & H & _).
  apply H. exact demo_mem_ok.
Defined.
