(* ===== verification/Client.v ===== *)
(** The client's round trip ([client.go], [verified_node.go]): getting a payment
    and verified nodes, sealing the request for every candidate node, sending it
    through the router, and settling the payment with the refund that arrives in
    the trailers of the response. *)

From S2P Require Import Prelude Bytes Base64 GoLib Http AnonErrors Credit CreditText RouterApi Messages.
From S2P Require Import WalletStats Transfer Wallet ClientParams.
From S2P Require Currency Nonce Uuidv7 Tags RouterHttp.

(** A verified node; the data its evidence vouches for is the library's public
    key, or the failure to unmarshal it. *)
Record VerifiedNode {L : MessageLib} := MkVerifiedNode {
  Manifest : ComputeManifest;
  TrustedKey : result goerror public_key;
  VerifiedAt : Z;
}.

Definition lib_err {A} (r : result goerror A) : result err A := wrap_err (λ _, ErrNew "library error") r.

(** ** Payments

    The client holds one payment of the wallet. *)

Definition paying : Type := payment * Wallet.
Definition pay_Success (u : option UnblindedCredit) (pw : paying) : result err unit * paying :=
  let '(r, p, w) := Success u pw.1 pw.2 in (r, (p, w)).
Definition pay_Cancel (pw : paying) : result err unit * paying :=
  let '(r, p, w) := Cancel pw.1 pw.2 in (r, (p, w)).

Section client.
Context {I : UuidLib} {T : TimestampLib} {L : MessageLib}.
Context {WC : ProtoWire PbCredit} {WI : ProtoWire (list PbComputeCandidate)}.

Definition encodeCreditHeader (credit : BlindedCredit) : result err string :=
  creditProto ← wrap_err (Wrapped "failed to marshal credit") (BlindedCredit_MarshalProto credit);
  creditBytes ← wrap_err (λ _, ErrNew "failed to marshal credit") (marshal_message creditProto);
  Ok (EncodeToString StdEncoding creditBytes).

Definition parseRefundHeader (refundHeader : string) : result err UnblindedCredit :=
  match DecodeString StdEncoding refundHeader with
  | None => Err (ErrNew "failed to base64 decode")
  | Some creditBytes =>
      creditProto ← wrap_err (λ _, ErrNew "failed to unmarshal") (unmarshal_message creditBytes);
      wrap_err (Wrapped "failed to unmarshal proto") (UnblindedCredit_UnmarshalProto (Some creditProto))
  end.

(** ** [refundReader]

    The body of the router's response, with the trailers that have arrived once
    the body is at its end. *)

Record refundReader := MkRefundReader { eof : bool; refunded : bool; rr_closed : bool; trailer : Header }.

(** The amount the refund callback is called with, on success. *)
Definition doRefund (r : refundReader) (pw : paying) : result err Z * refundReader * paying :=
  if refunded r then (Ok 0, r, pw)
  else
    let r := MkRefundReader (eof r) true (rr_closed r) (trailer r) in
    let val := Get (trailer r) RouterHttp.RefundHeader in
    match (if bool_decide (val = "") then Ok None else Some <$> parseRefundHeader val) with
    | Err e => (Err e, r, pw)
    | Ok credit =>
        let '(res, pw) := pay_Success credit pw in
        (_ ← res; Ok (match credit with Some c => Currency.AmountOrZero (u_value c) | None => 0 end), r, pw)
    end.

(** What reading the body gives; the end comes with the trailers. *)
Inductive body_read := BodyData | BodyEOF (tr : Header) | BodyError.

Definition rr_Read (b : body_read) (r : refundReader) (pw : paying) : refundReader * paying :=
  match b with
  | BodyEOF tr =>
      let '(_, r, pw) := doRefund (MkRefundReader true (refunded r) (rr_closed r) tr) pw in (r, pw)
  | _ => (r, pw)
  end.

(** Closing drains what is left, [rest] being the trailers after that (or what
    there was when draining failed); whether draining or closing failed only
    shows in the error. *)
Definition rr_Close (rest : Header) (ioErr : result err unit) (r : refundReader) (pw : paying) :
    result err unit * refundReader * paying :=
  if rr_closed r then (Ok tt, r, pw)
  else
    let r := MkRefundReader (eof r) (refunded r) true (if eof r then trailer r else rest) in
    let '(refundErr, r, pw) := doRefund r pw in
    (match ioErr, refundErr with
     | Err e, Err e' => Err (Joined e (Wrapped "failed to do refund" e'))
     | Err e, Ok _ => Err e
     | Ok _, Err e' => Err (Wrapped "failed to do refund" e')
     | Ok _, Ok _ => Ok tt
     end, r, pw).

(** ** [doRouterRequest] *)

Definition toCandidate (sealer : request_sealer) (n : VerifiedNode) : result err (ComputeCandidate * response_opener_func) :=
  nodePubKey ← wrap_err (λ _, ErrNew "failed to unmarshal public key for node") (TrustedKey n);
  '(encapKey, openerFunc) ← wrap_err (λ _, ErrNew "failed to encapsulate key for node") (EncapsulateKey sealer nodePubKey);
  Ok (MkCandidate (ID (Manifest n)) encapKey, openerFunc).

Fixpoint candidates_loop (sealer : request_sealer) (nodes : list VerifiedNode) (candidates : list ComputeCandidate)
    (sealers : gmap uuid response_opener_func) : result err (list ComputeCandidate * gmap uuid response_opener_func) :=
  match nodes with
  | [] => Ok (candidates, sealers)
  | node :: nodes =>
      '(candidate, openerFunc) ← wrap_err (Wrapped "failed to create candidate for node") (toCandidate sealer node);
      candidates_loop sealer nodes (candidates ++ [candidate]) (<[ID (Manifest node) := openerFunc]> sealers)
  end.

(** The router's answer: status, headers, the sealed body, the trailers that end
    it and the outcome of draining and closing it. *)
Record RouterResponse := MkRouterResponse {
  StatusCode : Z;
  resp_Header : Header;
  resp_Body : ciphertext;
  resp_Trailer : Header;
  resp_io : result err unit;
}.

Definition ErrNotEnoughVerifiedNodes : err := ErrNew "did not find enough verified nodes to route the request".

(** The request to the router. *)
Definition router_headers (mediaType routingInfo creditHeader confsecPing : string) : Header :=
  let h := SetHeader RouterHttp.CreditHeader creditHeader
             (SetHeader RouterHttp.RoutingInfoHeader routingInfo (SetHeader "Content-Type" mediaType ∅)) in
  if bool_decide (confsecPing = "") then h else SetHeader "X-Confsec-Ping" confsecPing h.

Definition prepare (snd : sender) (credit : BlindedCredit) (nodes : list VerifiedNode) (req : http_request) (confsecPing : string) :
    result err (Header * ciphertext * gmap uuid response_opener_func) :=
  match nodes with
  | [] => Err ErrNotEnoughVerifiedNodes
  | _ =>
      '(sealer, reqMediaType) ← wrap_err (λ _, ErrNew "failed to encapsulate compute request") (EncapsulateRequest snd req);
      '(candidates, sealers) ← candidates_loop sealer nodes [] ∅;
      routingInfo ← wrap_err (λ _, ErrNew "failed to marshal compute request info to text") (RequestInfo_MarshalText candidates);
      creditHeader ← encodeCreditHeader credit;
      Ok (router_headers reqMediaType routingInfo creditHeader confsecPing, sealed_request sealer, sealers)
  end.

(** The response to the caller: the router's own for a ping, else the
    decapsulated one.  [Do] sends the request to the router. *)
Inductive client_response := PingResponse | NodeResponse (resp : http_response).

(** From the response of the router on: the variable [err] of the source at the
    time of the return decides whether the body is closed, so an answer for a
    node that is no candidate leaves it open. *)
Definition open_response_body (confsecPing : string) (sealers : gmap uuid response_opener_func) (resp : RouterResponse) :
    result (bool * err) client_response :=
  if negb (bool_decide (confsecPing = "")) then Ok PingResponse
  else
    match Uuidv7.Parse (Get (resp_Header resp) RouterHttp.NodeIDHeader) with
    | Err _ => Err (true, ErrNew "failed to parse router response X-Node-ID header")
    | Ok nodeID =>
        match sealers !! nodeID with
        | None => Err (false, ErrNew "router returned response for non-candidate node")
        | Some openerFunc =>
            match DecapsulateResponse openerFunc (Get (resp_Header resp) "Content-Type") (resp_Body resp) with
            | Err _ => Err (true, ErrNew "failed to decapsulate compute response")
            | Ok r => Ok (NodeResponse r)
            end
        end
    end.

Definition fresh_reader : refundReader := MkRefundReader false false false ∅.

Definition doRouterRequest (Do : Header → ciphertext → result err RouterResponse) (snd : sender) (credit : BlindedCredit)
    (nodes : list VerifiedNode) (req : http_request) (confsecPing : string) (pw : paying) :
    result err (client_response * refundReader) * paying :=
  match prepare snd credit nodes req confsecPing with
  | Err e => (Err e, pw)
  | Ok (h, body, sealers) =>
      match Do h body with
      | Err e => (Err (Wrapped "failed to do client router request" e), pw)
      | Ok resp =>
          if negb (StatusCode resp =? StatusOK) then (Err (ErrNew "router error"), pw)
          else
            match open_response_body confsecPing sealers resp with
            | Ok r => (Ok (r, fresh_reader), pw)
            | Err (false, e) => (Err e, pw)
            | Err (true, e) =>
                let '(closeErr, _, pw) := rr_Close (resp_Trailer resp) (resp_io resp) fresh_reader pw in
                (Err (match closeErr with Err c => Joined e c | Ok _ => e end), pw)
            end
      end
  end.

(** ** [requestResources]

    Two goroutines answer on one channel; the order in which they do is the order
    of the list. *)

Record resource := MkResource {
  paymentOk : bool;
  res_payment : option paying;
  res_nodes : list VerifiedNode;
  res_err : option err;
}.
Definition payment_resource (r : result err paying) : resource :=
  match r with
  | Ok pw => MkResource true (Some pw) [] None
  | Err e => MkResource false None [] (Some e)
  end.
Definition nodes_resource (r : result err (list VerifiedNode)) : resource :=
  match r with
  | Ok nodes => MkResource false None nodes None
  | Err e => MkResource false None [] (Some e)
  end.

Definition join_err (e1 e2 : option err) : option err :=
  match e1, e2 with
  | Some a, Some b => Some (Joined a b)
  | Some a, None | None, Some a => Some a
  | None, None => None
  end.
Definition collect (out : resource) (r : resource) : resource :=
  MkResource (paymentOk out || paymentOk r) (if paymentOk r then res_payment r else res_payment out)
    (if (length (res_nodes r) =? 0)%nat then res_nodes out else res_nodes r) (join_err (res_err out) (res_err r)).

(** The payment and the nodes, or the error with the payment as it was left. *)
Definition requestResources (results : list resource) : result (err * option paying) (paying * list VerifiedNode) :=
  let out := foldl collect (MkResource false None [] None) results in
  match res_err out, res_payment out with
  | Some e, Some pw =>
      if paymentOk out then let '(_, pw) := pay_Cancel pw in Err (e, Some pw) else Err (e, None)
  | Some e, None => Err (e, None)
  | None, Some pw => Ok (pw, res_nodes out)
  | None, None => Err (ErrNew "no payment", None)
  end.

(** ** [RoundTrip] *)

Record ClientRequest := MkClientRequest {
  URL_Scheme : string;
  URL_Host : string;
  URL_Path : string;
  Host : string;
  req_Header : Header;
  (** the request as the message library encodes it, with its final headers *)
  req_message : Header → http_request;
}.

(** What the services answer. *)
Record Services := MkServices {
  sv_BeginPayment : Z → result err paying;
  sv_FindVerifiedNodes : Z → gset string → result err (list VerifiedNode);
  sv_nodes_first : bool;
  sv_GetBadge : result err string;
  sv_Do : Header → ciphertext → result err RouterResponse;
}.

Definition credit_of (p : payment) : option BlindedCredit :=
  match p with Begun c | Completed c => Some c | _ => None end.

(** The outcome of a round trip and, once one was begun, the payment. *)
Definition RoundTrip {R : RangeOrder} (snd : sender) (c : Client) (sv : Services) (r : ClientRequest) :
    result err (client_response * refundReader) * option paying :=
  if bool_decide (URL_Scheme r = "") then (Err (ErrNew "request URL needs a scheme"), None)
  else
    match (_ ← validNormalizedHost (Host r) (URL_Host r);
           p ← wrap_err (Wrapped "failed to get parameters for request")
                 (paramsForRequest (Some RequestParamsFromConfSecHeaders) (req_Header r) (URL_Path r) c);
           nodeTags ← tags_err (Tags.FromSlice (NodeTags p));
           Ok (p, nodeTags)) with
    | Err e => (Err e, None)
    | Ok (p, nodeTags) =>
        let pay := payment_resource (sv_BeginPayment sv (CreditAmount p)) in
        let find := nodes_resource (sv_FindVerifiedNodes sv (maxCandidateNodes c) nodeTags) in
        match requestResources (if sv_nodes_first sv then [find; pay] else [pay; find]) with
        | Err (e, pw) => (Err (Wrapped "failed to get resources" e), pw)
        | Ok (pw, nodes) =>
            let cancel e := let '(_, pw) := pay_Cancel pw in (Err e, Some pw) in
            match sv_GetBadge sv, credit_of pw.1 with
            | Err e, _ => cancel (Wrapped "failed to get badge" e)
            | Ok _, None => cancel (ErrNew "payment without credit")
            | Ok badge, Some credit =>
                let h := SetHeader BadgeHeader badge (req_Header r) in
                let '(res, pw) := doRouterRequest (sv_Do sv) snd credit nodes (req_message r h) (Get h "X-Confsec-Ping") pw in
                match res with
                | Ok resp => (Ok resp, Some pw)
                | Err e => let '(_, pw) := pay_Cancel pw in (Err (Wrapped "tcloud" e), Some pw)
                end
            end
        end
    end.

(** ** Settling

    The payment was settled once: cancelled, or spent with some refund. *)

Definition settled_once (pw pw' : paying) : Prop :=
  pw' = (pay_Cancel pw).2 ∨ ∃ u, pw' = (pay_Success u pw).2.

Lemma settled_completed pw pw' credit :
  pw.1 = Begun credit → settled_once pw pw' → pw'.1 = Completed credit.
Proof.
  destruct pw as [p w]. simpl. intros -> [->|[u ->]]; unfold pay_Cancel, pay_Success, Cancel, Success; cbn [fst snd];
    by destruct (complete _ w).
Qed.

Lemma completed_final pw credit :
  pw.1 = Completed credit → (pay_Cancel pw).2 = pw ∧ ∀ u, (pay_Success u pw).2 = pw.
Proof. destruct pw as [p w]. simpl. by intros ->. Qed.

Lemma settled_cancel pw pw' credit : pw.1 = Begun credit → settled_once pw pw' → (pay_Cancel pw').2 = pw'.
Proof. intros Hb Hs. eapply completed_final, settled_completed; eauto. Qed.

(** The refund a trailer asks for. *)
Definition refund_of (tr : Header) : result err (option UnblindedCredit) :=
  let val := Get tr RouterHttp.RefundHeader in if bool_decide (val = "") then Ok None else Some <$> parseRefundHeader val.

Lemma doRefund_state r pw :
  let '(_, r', pw') := doRefund r pw in
  refunded r' = true ∧ eof r' = eof r ∧ rr_closed r' = rr_closed r ∧ trailer r' = trailer r ∧
  pw' = if refunded r then pw else match refund_of (trailer r) with Ok u => (pay_Success u pw).2 | Err _ => pw end.
Proof.
  unfold doRefund. destruct (refunded r) eqn:E; [done|]. cbn [trailer]. fold (refund_of (trailer r)).
  destruct (refund_of (trailer r)) as [u|]; [|done]. destruct (pay_Success u pw) as [[]]; done.
Qed.

(** What the trailers do to the payment. *)
Definition settle (tr : Header) (pw : paying) : paying :=
  match refund_of tr with Ok u => (pay_Success u pw).2 | Err _ => pw end.

(** The caller reads and closes a body that ends with the trailers [Tr]; when it
    cannot be drained there are none. *)
Inductive body_step (Tr : Header) : refundReader * paying → refundReader * paying → Prop :=
| bs_data r pw : body_step Tr (r, pw) (rr_Read BodyData r pw)
| bs_error r pw : body_step Tr (r, pw) (rr_Read BodyError r pw)
| bs_eof r pw : body_step Tr (r, pw) (rr_Read (BodyEOF Tr) r pw)
| bs_close r pw : body_step Tr (r, pw) ((rr_Close Tr (Ok tt) r pw).1.2, (rr_Close Tr (Ok tt) r pw).2)
| bs_close_failed e r pw : body_step Tr (r, pw) ((rr_Close ∅ (Err e) r pw).1.2, (rr_Close ∅ (Err e) r pw).2).

Definition untouched (pw : paying) (x : refundReader * paying) : Prop :=
  refunded x.1 = false ∧ eof x.1 = false ∧ rr_closed x.1 = false ∧ x.2 = pw.

(** Once the trailers have been acted on nothing changes the payment. *)
Lemma body_step_final Tr x y : body_step Tr x y → refunded x.1 = true → refunded y.1 = true ∧ y.2 = x.2.
Proof.
  destruct 1 as [r pw|r pw|r pw|r pw|e r pw]; simpl; intros Hr; [done|done|..].
  - unfold rr_Read, doRefund. cbn [refunded]. by rewrite Hr.
  - unfold rr_Close. destruct (rr_closed r); [done|]. unfold doRefund. cbn [refunded]. by rewrite Hr.
  - unfold rr_Close. destruct (rr_closed r); [done|]. unfold doRefund. cbn [refunded]. by rewrite Hr.
Qed.

Lemma doRefund_first e c tr pw :
  let '(_, r', pw') := doRefund (MkRefundReader e false c tr) pw in refunded r' = true ∧ pw' = settle tr pw.
Proof.
  pose proof (doRefund_state (MkRefundReader e false c tr) pw) as H. destruct (doRefund _ _) as [[? r'] pw'].
  cbn [refunded trailer] in H. naive_solver.
Qed.

Lemma close_first rest io r pw :
  refunded r = false → eof r = false → rr_closed r = false →
  refunded (rr_Close rest io r pw).1.2 = true ∧ (rr_Close rest io r pw).2 = settle rest pw.
Proof.
  intros Hr He Hc. unfold rr_Close. rewrite Hc, He, Hr.
  pose proof (doRefund_first false true rest pw) as H. by destruct (doRefund _ _) as [[? r'] pw'].
Qed.

Lemma body_step_open Tr pw x y :
  body_step Tr x y → untouched pw x →
  untouched pw y ∨ refunded y.1 = true ∧ (y.2 = settle Tr pw ∨ y.2 = settle ∅ pw).
Proof.
  destruct 1 as [r pw0|r pw0|r pw0|r pw0|e r pw0]; intros (Hr & He & Hc & Hpw); simpl in Hr, He, Hc, Hpw; subst pw0.
  - by left.
  - by left.
  - right. unfold rr_Read. rewrite Hr. pose proof (doRefund_first true (rr_closed r) Tr pw) as H.
    destruct (doRefund _ _) as [[? r'] pw']. naive_solver.
  - right. destruct (close_first Tr (Ok tt) r pw Hr He Hc). auto.
  - right. destruct (close_first ∅ (Err e) r pw Hr He Hc). auto.
Qed.

Lemma body_run Tr pw x y :
  rtc (body_step Tr) x y → untouched pw x →
  untouched pw y ∨ refunded y.1 = true ∧ (y.2 = settle Tr pw ∨ y.2 = settle ∅ pw).
Proof.
  intros Hrun. assert (∀ x y, rtc (body_step Tr) x y → refunded x.1 = true → refunded y.1 = true ∧ y.2 = x.2) as Hfinal.
  { clear. induction 1 as [|x1 x2 x3 H _ IH]; [done|]. intros Hr. destruct (body_step_final _ _ _ H Hr) as [Hr' <-]. by apply IH. }
  induction Hrun as [|x1 x2 x3 H Hrest IH]; [by left|]. intros Hu.
  destruct (body_step_open _ _ _ _ H Hu) as [Hu'|[Hr Hs]]; [by apply IH|].
  destruct (Hfinal _ _ Hrest Hr) as [Hr3 ->]. by right.
Qed.

(** *** The round trip *)

Lemma requestResources_payment (pay : result err paying) (find : result err (list VerifiedNode)) (first : bool) :
  let results := if first then [nodes_resource find; payment_resource pay] else [payment_resource pay; nodes_resource find] in
  match pay with
  | Ok pw =>
      match find with
      | Ok nodes => requestResources results = Ok (pw, nodes)
      | Err e => requestResources results = Err (e, Some (pay_Cancel pw).2)
      end
  | Err _ => ∃ e', requestResources results = Err (e', None)
  end.
Proof.
  destruct first, pay as [pw|e], find as [[|n nodes]|e']; cbn; unfold requestResources; cbn; eauto;
    by destruct (pay_Cancel pw).
Qed.

Lemma doRouterRequest_payment Do snd credit nodes req ping pw res pw' :
  doRouterRequest Do snd credit nodes req ping pw = (res, pw') →
  match res with
  | Ok (_, r) => pw' = pw ∧ r = fresh_reader
  | Err _ => pw' = pw ∨ ∃ tr, pw' = settle tr pw
  end.
Proof.
  unfold doRouterRequest. destruct (prepare _ _ _ _ _) as [[[h body] sealers]|e]; [|intros; simplify_eq; auto].
  destruct (Do h body) as [resp|e]; [|intros; simplify_eq; auto].
  destruct (negb _); [intros; simplify_eq; auto|].
  destruct (open_response_body ping sealers resp) as [r|[[] e]]; [intros; simplify_eq; auto| |intros; simplify_eq; auto].
  pose proof (close_first (resp_Trailer resp) (resp_io resp) fresh_reader pw eq_refl eq_refl eq_refl) as [_ H].
  destruct (rr_Close _ _ _ _) as [[ce r] pw1]. simpl in H. intros; simplify_eq. right. eauto.
Qed.

Lemma settle_then_cancel tr pw credit :
  pw.1 = Begun credit → settled_once pw (pay_Cancel (settle tr pw)).2.
Proof.
  intros Hb. unfold settle. destruct (refund_of tr) as [u|]; [|by left]. right. exists u.
  apply (settled_cancel pw _ credit); [done|]. right. by exists u.
Qed.
End client.

Lemma paramsForRequest_tags {R : RangeOrder} f h path c p :
  paramsForRequest f h path c = Ok p → is_ok (Tags.FromSlice (NodeTags p)) = true.
Proof.
  unfold paramsForRequest. intros (p' & _ & H)%result_bind_ok. apply result_bind_ok in H as (t & Ht%wrap_err_ok & H).
  destruct (_ && _); [done|]. injection H as <-. by rewrite Ht.
Qed.

Lemma round_trip_refused {R : RangeOrder} {L : MessageLib} c (r : ClientRequest) e :
  (_ ← validNormalizedHost (Host r) (URL_Host r);
   p ← wrap_err (Wrapped "failed to get parameters for request")
         (paramsForRequest (Some RequestParamsFromConfSecHeaders) (req_Header r) (URL_Path r) c);
   nodeTags ← tags_err (Tags.FromSlice (NodeTags p)); Ok (p, nodeTags)) = Err e →
  is_ok (validNormalizedHost (Host r) (URL_Host r)) = false ∨
  is_ok (paramsForRequest (Some RequestParamsFromConfSecHeaders) (req_Header r) (URL_Path r) c) = false.
Proof.
  destruct (validNormalizedHost _ _); [|by left]. cbn [mbind result_bind].
  destruct (paramsForRequest _ _ _ _) as [p|] eqn:Ep; [|by right]. apply paramsForRequest_tags in Ep. cbn [wrap_err mbind result_bind].
  by destruct (Tags.FromSlice _).
Qed.

(** C16. Every payment is settled exactly once.  When a round trip has begun a
    payment and fails, at whatever point and with whatever answer of the services,
    the payment has been cancelled or spent, once (a request that is refused for
    its URL, host or parameters begins none).  When it succeeds the payment
    is still open and belongs to the body of the response: it stays open while the
    caller reads, and from the end of the body or its closing on it is spent with
    the refund of the trailers (or without one when the rest of the body cannot be
    read), unless the refund is malformed.  No order in which wallet and node
    finder answer loses a payment. *)
Theorem round_trip_settles {I : UuidLib} {T : TimestampLib} {L : MessageLib}
    {WC : ProtoWire PbCredit} {WI : ProtoWire (list PbComputeCandidate)} {R : RangeOrder} snd c sv r pw credit res opw :
  (∀ amount, sv_BeginPayment sv amount = Ok pw) → pw.1 = Begun credit →
  RoundTrip snd c sv r = (res, opw) →
  match res with
  | Err _ =>
      (opw = None ∧ (URL_Scheme r = "" ∨ is_ok (validNormalizedHost (Host r) (URL_Host r)) = false ∨
        is_ok (paramsForRequest (Some RequestParamsFromConfSecHeaders) (req_Header r) (URL_Path r) c) = false)) ∨
      ∃ pw', opw = Some pw' ∧ settled_once pw pw' ∧ pw'.1 = Completed credit
  | Ok (_, body) =>
      opw = Some pw ∧
      ∀ Tr body' pw', rtc (body_step Tr) (body, pw) (body', pw') →
        (refunded body' = false ∧ eof body' = false ∧ rr_closed body' = false ∧ pw' = pw) ∨
        (refunded body' = true ∧ (pw' = settle Tr pw ∨ pw' = (pay_Success None pw).2))
  end.
Proof.
  intros Hbegin Hb. unfold RoundTrip. case_bool_decide; [intros; simplify_eq; auto|].
  destruct (_ ≫= _) as [[p nodeTags]|e] eqn:Epre; [|apply round_trip_refused in Epre; intros; simplify_eq; tauto].
  clear Epre.
  pose proof (requestResources_payment (sv_BeginPayment sv (CreditAmount p))
    (sv_FindVerifiedNodes sv (maxCandidateNodes c) nodeTags) (sv_nodes_first sv)) as Hres.
  rewrite Hbegin in *. cbn zeta in Hres.
  assert (settled_once pw (pay_Cancel pw).2) as Hcancel by by left.
  pose proof (settled_completed _ _ _ Hb Hcancel) as Hdone.
  destruct (sv_FindVerifiedNodes _ _ _) as [nodes|e]; rewrite Hres; [|intros; simplify_eq; eauto 10].
  destruct (sv_GetBadge sv) as [badge|e]; [|destruct (pay_Cancel pw); intros; simplify_eq; eauto 10].
  rewrite Hb. cbn [credit_of].
  destruct (doRouterRequest _ _ _ _ _ _ _) as [[[resp body]|e] pw1] eqn:Ed; apply doRouterRequest_payment in Ed.
  - destruct Ed as [-> ->]. intros; simplify_eq. split; [done|]. intros Tr body' pw' Hrun.
    apply (body_run Tr pw) in Hrun; [|done]. destruct Hrun as [(?&?&?&?)|[? [?|?]]]; auto 10.
  - destruct (pay_Cancel pw1) as [? pw2] eqn:E2. intros; simplify_eq. right. exists pw2. split; [done|].
    assert (settled_once pw pw2) as Hs.
    { replace pw2 with (pay_Cancel pw1).2 by by rewrite E2.
      destruct Ed as [->|[tr ->]]; [done|by eapply settle_then_cancel]. }
    split; [done|]. by eapply settled_completed.
Qed.

(** A malformed refund blocks the wallet.  When the refund in the trailers
    cannot be parsed, the first attempt is the only one: whatever the caller reads
    or closes afterwards, the payment stays open, neither spent nor cancelled, so
    that the wallet waits for it when it is closed. *)
Theorem malformed_refund_keeps_payment {I : UuidLib} {T : TimestampLib} {L : MessageLib} {WC : ProtoWire PbCredit}
    Tr Tr' pw body' pw' :
  is_ok (refund_of Tr) = false →
  rtc (body_step Tr') (rr_Read (BodyEOF Tr) fresh_reader pw) (body', pw') →
  refunded body' = true ∧ pw' = pw.
Proof.
  intros Hbad Hrun. assert (refunded (rr_Read (BodyEOF Tr) fresh_reader pw).1 = true ∧ (rr_Read (BodyEOF Tr) fresh_reader pw).2 = pw) as [Hr Hp].
  { unfold rr_Read. cbn [refunded fresh_reader rr_closed]. pose proof (doRefund_first true false Tr pw) as H.
    unfold settle in H. destruct (doRefund _ _) as [[? ?] ?]. destruct (refund_of Tr); [done|]. naive_solver. }
  change (refunded (body', pw').1 = true ∧ (body', pw').2 = pw).
  induction Hrun as [|x1 x2 x3 H _ IH]; [done|]. destruct (body_step_final _ _ _ H Hr) as [Hr' Hs]. apply IH; congruence.
Qed.

(** An answer in the name of another node loses its refund.  When the router
    answers with status 200 for a node that was no candidate, the body is not
    closed and the payment is left open whatever the trailers say; [RoundTrip]
    then cancels it, so the credit goes back to the wallet as unspent. *)
Theorem non_candidate_answer {I : UuidLib} {T : TimestampLib} {L : MessageLib}
    {WC : ProtoWire PbCredit} {WI : ProtoWire (list PbComputeCandidate)} Do snd credit nodes req h body sealers resp nodeID pw :
  prepare snd credit nodes req "" = Ok (h, body, sealers) → Do h body = Ok resp → StatusCode resp = StatusOK →
  Uuidv7.Parse (Get (resp_Header resp) RouterHttp.NodeIDHeader) = Ok nodeID → nodeID ∉ ((ID ∘ Manifest) <$> nodes) →
  ∃ e, doRouterRequest Do snd credit nodes req "" pw = (Err e, pw).
Proof.
  intros Hp Hd Hs Hid Hn. unfold doRouterRequest. rewrite Hp, Hd, Hs. cbn [negb Z.eqb StatusOK]. 
  unfold open_response_body. rewrite bool_decide_eq_true_2 by done. cbn [negb]. rewrite Hid.
  assert (sealers !! nodeID = None) as ->; [|by eexists].
  unfold prepare in Hp. destruct nodes as [|n nodes]; [done|].
  apply result_bind_ok in Hp as ([sealer mt] & _ & Hp). apply result_bind_ok in Hp as ([cs ss] & Hc & Hp).
  apply result_bind_ok in Hp as (ri & _ & Hp). apply result_bind_ok in Hp as (ch & _ & [= <- <- <-]).
  revert Hc Hn. generalize (n :: nodes) as ns. clear. intros ns.
  assert (∀ ns cs0 (ss0 : gmap uuid response_opener_func), candidates_loop sealer ns cs0 ss0 = Ok (cs, ss) →
    nodeID ∉ ((ID ∘ Manifest) <$> ns) → ss0 !! nodeID = None → ss !! nodeID = None) as Hloop; [|by intros; eapply Hloop].
  clear ns. induction ns as [|n ns IH]; intros cs0 ss0; cbn [candidates_loop]; [by intros [= <- <-]|].
  intros ([cand f] & _ & H)%result_bind_ok Hn H0. rewrite fmap_cons, not_elem_of_cons in Hn.
  eapply IH; [exact H|naive_solver|]. by rewrite lookup_insert_ne by naive_solver.
Qed.

(** ** A concrete client for the witnesses *)

Definition node_id : N := (7 * 2 ^ 76)%N.
Definition demo_node : VerifiedNode (L:=plain_lib) :=
  MkVerifiedNode plain_lib (MkManifest node_id {[ "llm" ]} []) (Ok tt) 0.
Definition demo_paying : paying := (Begun (MkBlinded demo_value CreditText.demo_nonce [x0a]), add_payment 1 (fresh_wallet 3670016 0)).
Definition demo_answer (id : N) (tr : Header) : RouterResponse (L:=plain_lib) :=
  MkRouterResponse (L:=plain_lib) 200
    (SetHeader "Content-Type" MediaTypeResponse (SetHeader "X-Node-ID" (@uuid_string binary_uuid id) ∅)) [x42] tr (Ok tt).
Definition demo_services (id : N) : Services (L:=plain_lib) :=
  MkServices (L:=plain_lib) (λ _, Ok demo_paying) (λ _ _, Ok [demo_node]) true (Ok "badge") (λ _ _, Ok (demo_answer id ∅)).
Definition demo_request : ClientRequest (L:=plain_lib) :=
  MkClientRequest (L:=plain_lib) "http" "confsec.invalid" "/v1/models" "confsec.invalid:80" ∅ (λ _, [x41]).

Lemma round_trip_settles_witness :
  ∃ pw', (RoundTrip (I:=binary_uuid) (T:=unix_timestamp) (L:=plain_lib) (WC:=fixed_credit_wire demo_value CreditText.demo_nonce)
      (WI:=RouterApi.demo_wire) (R:=elements_order) tt demo_client (demo_services 0) demo_request).2 = Some pw' ∧
    settled_once demo_paying pw'.
Proof.
  destruct (RoundTrip (I:=binary_uuid) (T:=unix_timestamp) (L:=plain_lib) (WC:=fixed_credit_wire demo_value CreditText.demo_nonce)
      (WI:=RouterApi.demo_wire) (R:=elements_order) tt demo_client (demo_services 0) demo_request) as [res opw] eqn:E.
  assert (is_ok res = false ∧ is_Some opw) as [Hres Hopw].
  { pose proof (f_equal (λ x, is_ok x.1) E) as H1. pose proof (f_equal (λ x, bool_decide (is_Some x.2)) E) as H2. clear E.
    cbn [fst snd] in H1, H2. split; [rewrite <- H1; vm_compute; reflexivity|].
    apply (bool_decide_unpack (is_Some opw)). rewrite <- H2. vm_compute. exact Logic.I. }
  pose proof (@round_trip_settles binary_uuid unix_timestamp plain_lib (fixed_credit_wire demo_value CreditText.demo_nonce)
    RouterApi.demo_wire elements_order tt demo_client (demo_services 0) demo_request demo_paying _ res opw
    (λ _, eq_refl) eq_refl E) as H.
  destruct res as [?|e]; [discriminate Hres|]. destruct H as [[-> _]|(pw' & -> & Hs & _)]; [by destruct Hopw|].
  exists pw'. split; [reflexivity|exact Hs].
Defined.

Lemma malformed_refund_keeps_payment_witness :
  (rr_Read (T:=unix_timestamp) (WC:=fixed_credit_wire demo_value CreditText.demo_nonce)
    (BodyEOF (SetHeader "X-Refund" "%" ∅)) fresh_reader demo_paying).2 = demo_paying.
Proof.
  destruct (rr_Read (T:=unix_timestamp) (WC:=fixed_credit_wire demo_value CreditText.demo_nonce)
    (BodyEOF (SetHeader "X-Refund" "%" ∅)) fresh_reader demo_paying) as [b pw] eqn:E.
  apply (@malformed_refund_keeps_payment binary_uuid unix_timestamp plain_lib (fixed_credit_wire demo_value CreditText.demo_nonce)
    (SetHeader "X-Refund" "%" ∅) ∅ demo_paying b pw); [vm_compute; reflexivity|]. rewrite E. apply rtc_refl.
Defined.

Lemma non_candidate_answer_witness :
  ∃ e, doRouterRequest (I:=binary_uuid) (T:=unix_timestamp) (L:=plain_lib) (WC:=fixed_credit_wire demo_value CreditText.demo_nonce)
      (WI:=RouterApi.demo_wire) (λ _ _, Ok (demo_answer (7 * 2 ^ 76 + 1) ∅)) tt
      (MkBlinded demo_value CreditText.demo_nonce [x0a]) [demo_node] [x41] "" demo_paying = (Err e, demo_paying).
Proof.
  destruct (prepare (I:=binary_uuid) (T:=unix_timestamp) (L:=plain_lib) (WC:=fixed_credit_wire demo_value CreditText.demo_nonce)
      (WI:=RouterApi.demo_wire) tt (MkBlinded demo_value CreditText.demo_nonce [x0a]) [demo_node] [x41] "")
    as [[[h body] sealers]|e] eqn:E; [|vm_compute in E; discriminate E].
  refine (@non_candidate_answer binary_uuid unix_timestamp plain_lib (fixed_credit_wire demo_value CreditText.demo_nonce)
    RouterApi.demo_wire _ tt _ _ _ h body sealers (demo_answer (7 * 2 ^ 76 + 1) ∅) (7 * 2 ^ 76 + 1)%N demo_paying E eq_refl eq_refl _ _).
  - vm_compute. reflexivity.
  - apply (bool_decide_unpack _). vm_compute. exact Logic.I.
Defined.
