(* ===== verification/NodeFinder.v ===== *)
(** Finding verified nodes ([cached_node_finder.go], [simple_node_finder.go]): the
    query to the router with verification of each manifest, and the cache of
    answers with shuffling. *)

From Stdlib Require Import Strings.Ascii Strings.String.
From S2P Require Import Prelude GoHeap GoLib GoStrings AnonErrors Credit RouterApi Messages Client.
From S2P Require Tags Evidence.

(** ** [cryptoShuffle]

    The random numbers are the list of what the source gives, [None] being a
    failure; both loops of the source are this one. *)

Fixpoint shuffle_loop {A} (i : nat) (draws : list (option nat)) (l : list A) : result err (list A) :=
  match i with
  | O => Ok l
  | S i' =>
      match draws with
      | Some j :: draws => shuffle_loop i' draws (swap i j l)
      | _ => Err (ErrNew "random source failed")
      end
  end.
Definition shuffleNodes {A} (draws : list (option nat)) (originalNodes : list A) : result err (list A) :=
  match originalNodes with
  | [] => Ok []
  | _ => shuffle_loop (length originalNodes - 1) draws originalNodes
  end.

(** [rand.Int] with bound [i + 1]. *)
Fixpoint draws_in_range (i : nat) (draws : list nat) : Prop :=
  match i, draws with
  | O, [] => True
  | S i', j :: draws => (j ≤ i)%nat ∧ draws_in_range i' draws
  | _, _ => False
  end.

(** ** [simpleNodeFinder] *)

(** [safeInt32]. *)
Definition safeInt32 (v : Z) : option Z := if (v <? - 2 ^ 31) || (2 ^ 31 - 1 <? v) then None else Some v.

Section simple.
Context {I : UuidLib} {R : RangeOrder} {L : MessageLib}.

(** The items of the answer whose manifest can be unmarshalled and whose evidence
    verifies, in order. *)
Fixpoint verified_items (VerifyComputeNode : list Evidence.SignedEvidencePiece → result err (result goerror public_key))
    (now : Z) (items : list PbComputeManifest) : list VerifiedNode :=
  match items with
  | [] => []
  | item :: items =>
      let rest := verified_items VerifyComputeNode now items in
      match Manifest_UnmarshalProto item with
      | Err _ => rest
      | Ok manifest =>
          match VerifyComputeNode (manifest_Evidence manifest) with
          | Err _ => rest
          | Ok data => MkVerifiedNode L manifest data now :: rest
          end
      end
  end.

(** [query] sends the request with the attestation token and decodes the list. *)
Definition simple_FindVerifiedNodes (GetAttestationToken : result err BlindedCredit)
    (query : BlindedCredit → Z → list string → result err (list PbComputeManifest)) VerifyComputeNode (now : Z)
    (maxNodes : Z) (tagslist : gset string) : result err (list VerifiedNode) :=
  token ← wrap_err (Wrapped "failed to get authenticate and get attestation token") GetAttestationToken;
  match safeInt32 maxNodes with
  | None => Err (ErrNew "expected max nodes to be safely convertable to int32")
  | Some limit =>
      items ← query token limit (Tags.Slice tagslist);
      Ok (verified_items VerifyComputeNode now items)
  end.
End simple.

(** ** [CachedNodeFinder] *)

(** The LRU cache of [golang-lru]: what it holds, of at most [MaxCacheSize]
    entries; adding may evict others, getting changes nothing of the content. *)
Class LruCache (V : Type) := {
  lru : Type;
  lru_content : lru → gmap string V;
  lru_Get : string → lru → option V * lru;
  lru_Add : string → V → lru → lru;
}.
Class LruLaws (V : Type) {C : LruCache V} := {
  lru_Get_content k c : (lru_Get k c).1 = lru_content c !! k ∧ lru_content (lru_Get k c).2 = lru_content c;
  lru_Add_new k v c : lru_content (lru_Add k v c) !! k = Some v;
  lru_Add_other k v c k' : k' ≠ k → lru_content (lru_Add k v c) !! k' = lru_content c !! k' ∨ lru_content (lru_Add k v c) !! k' = None;
}.

Section cached.
Context {R : RangeOrder} {N : Type}.

Record cacheEntry := MkEntry { nodes : list N; expiresAt : Z }.
Context {C : LruCache cacheEntry}.

Record CachedNodeFinderConfig := MkCacheConfig { cfg_Tags : gset string; ExpiresAfter : Z; MaxCacheSize : Z }.
Definition DefaultCachedNodeFinderConfig : CachedNodeFinderConfig := MkCacheConfig ∅ (60 * second) 100.

Definition normalizedCacheKey (tagslist : gset string) : string :=
  if (size tagslist =? 0)%nat then "" else Join (merge_sort string_le (Tags.Slice tagslist)) "|".

Definition isExpired (now : Z) (e : cacheEntry) : bool := expiresAt e <? now.

(** The retries: the answers of the finder one after the other; an error is
    permanent, an empty answer is tried again until the backoff stops, which is
    where the list ends. *)
Fixpoint retry_find (answers : list (result err (list N))) : result err (list N) :=
  match answers with
  | [] => Err (ErrNew "no nodes")
  | Err e :: _ => Err e
  | Ok [] :: answers => retry_find answers
  | Ok nodes :: _ => Ok nodes
  end.

(** [now] is the time of the look-up, [later] that of the new entry. *)
Definition FindVerifiedNodes (cfg : CachedNodeFinderConfig) (now later : Z) (draws : list (option nat))
    (find : Z → gset string → list (result err (list N))) (maxNodes : Z) (tagslist : gset string) (c : lru) :
    result err (list N) * lru :=
  let cacheKey := normalizedCacheKey tagslist in
  let '(entry, c) := lru_Get cacheKey c in
  match (match entry with Some e => if isExpired now e then None else Some e | None => None end) with
  | Some e => (shuffleNodes draws (nodes e), c)
  | None =>
      match retry_find (find maxNodes tagslist) with
      | Err e => (Err e, c)
      | Ok ns => (shuffleNodes draws ns, lru_Add cacheKey (MkEntry ns (later + ExpiresAfter cfg)) c)
      end
  end.

Definition ListCachedVerifiedNodes (cfg : CachedNodeFinderConfig) (now later : Z) (draws : list (option nat))
    (find : Z → gset string → list (result err (list N))) (c : lru) : result err (list N) * lru :=
  FindVerifiedNodes cfg now later draws find 100 (cfg_Tags cfg) c.
End cached.

(** ** Shuffling *)

Lemma shuffle_loop_spec {A} i draws (l : list A) :
  draws_in_range i draws → (i < length l)%nat →
  ∃ l', shuffle_loop i (Some <$> draws) l = Ok l' ∧ l' ≡ₚ l ∧ ∀ k, (i < k)%nat → l' !! k = l !! k.
Proof.
  revert draws l. induction i as [|i IH]; intros draws l Hd Hl.
  - destruct draws; [|done]. exists l. done.
  - destruct draws as [|j draws]; [done|]. destruct Hd as [Hj Hd]. cbn [fmap list_fmap shuffle_loop].
    destruct (IH draws (swap (S i) j l) Hd) as (l' & -> & Hp & Hk); [rewrite swap_length; lia|].
    exists l'. split; [done|]. split; [by rewrite Hp, swap_perm|]. intros k Hlt. rewrite Hk by lia. apply swap_lookup_other; lia.
Qed.

(** Different random numbers give different orders. *)
Lemma shuffle_loop_inj {A} i draws draws' (l l' : list A) :
  NoDup l → draws_in_range i draws → draws_in_range i draws' → (i < length l)%nat →
  shuffle_loop i (Some <$> draws) l = Ok l' → shuffle_loop i (Some <$> draws') l = Ok l' → draws = draws'.
Proof.
  revert draws draws' l. induction i as [|i IH]; intros draws draws' l Hnd Hd Hd' Hl H H'.
  - by destruct draws, draws'.
  - destruct draws as [|j draws], draws' as [|j' draws']; try done. destruct Hd as [Hj Hd], Hd' as [Hj' Hd'].
    cbn [fmap list_fmap shuffle_loop] in H, H'.
    assert (j = j') as ->.
    { assert (∀ j ds, (j ≤ S i)%nat → draws_in_range i ds → shuffle_loop i (Some <$> ds) (swap (S i) j l) = Ok l' → l' !! S i = l !! j) as Hlast.
      { intros k ds Hk Hds Hs. destruct (shuffle_loop_spec i ds (swap (S i) k l) Hds) as (l2 & Hl2 & _ & Habove); [rewrite swap_length; lia|].
        rewrite Hs in Hl2. injection Hl2 as <-. rewrite Habove by lia. apply swap_lookup_i; lia. }
      pose proof (Hlast _ _ Hj Hd H) as E1. pose proof (Hlast _ _ Hj' Hd' H') as E2. rewrite E1 in E2.
      destruct (lookup_lt_is_Some_2 l j ltac:(lia)) as [x Hx]. eapply NoDup_lookup; [done|exact Hx|congruence]. }
    f_equal. eapply (IH _ _ (swap (S i) j' l)); [by rewrite swap_perm|done|done|rewrite swap_length; lia|done|done].
Qed.

(** Shuffling is fair.  It never fails on numbers in range, only reorders the
    nodes, and different random numbers give different orders of different
    nodes: as there are as many sequences of numbers as orders, each order is
    equally likely. *)
Theorem shuffle_fair {A} (l : list A) draws draws' :
  draws_in_range (length l - 1) draws → draws_in_range (length l - 1) draws' →
  ∃ l1 l2, shuffleNodes (Some <$> draws) l = Ok l1 ∧ shuffleNodes (Some <$> draws') l = Ok l2 ∧
    l1 ≡ₚ l ∧ l2 ≡ₚ l ∧ (NoDup l → l1 = l2 → draws = draws').
Proof.
  intros Hd Hd'. destruct l as [|x l].
  - exists [], []. destruct draws, draws'; done.
  - assert (length (x :: l) - 1 < length (x :: l))%nat as Hlt by (simpl; lia).
    unfold shuffleNodes. destruct (shuffle_loop_spec _ draws (x :: l) Hd Hlt) as (l1 & H1 & Hp1 & _).
    destruct (shuffle_loop_spec _ draws' (x :: l) Hd' Hlt) as (l2 & H2 & Hp2 & _).
    exists l1, l2. split_and!; try done. intros Hnd ->. by eapply shuffle_loop_inj.
Qed.

Lemma shuffle_fair_witness :
  ∃ l1 l2, shuffleNodes (Some <$> [0; 0]%nat) [1; 2; 3] = Ok l1 ∧ shuffleNodes (Some <$> [1; 0]%nat) [1; 2; 3] = Ok l2 ∧ l1 ≠ l2.
Proof.
  destruct (shuffle_fair [1; 2; 3] [0; 0]%nat [1; 0]%nat) as (l1 & l2 & H1 & H2 & _ & _ & Hne);
    [simpl; lia|simpl; lia|].
  exists l1, l2. split; [exact H1|]. split; [exact H2|]. intros ->.
  assert (NoDup [1; 2; 3]) as Hnd by (apply (bool_decide_unpack _); vm_compute; exact Logic.I).
  specialize (Hne Hnd eq_refl). discriminate Hne.
Defined.

Lemma shuffleNodes_perm {A} draws (l l' : list A) : shuffleNodes draws l = Ok l' → l' ≡ₚ l.
Proof.
  unfold shuffleNodes. destruct l as [|x l]; [by intros [= <-]|]. generalize (length (x :: l) - 1)%nat as i.
  intros i. generalize (x :: l) as k. clear. revert draws. induction i as [|i IH]; intros draws k; cbn [shuffle_loop]; [by intros [= <-]|].
  destruct draws as [|[j|] draws]; [done| |done]. intros H%IH. by rewrite H, swap_perm.
Qed.

(** ** The cache *)

(** Tags that the separator keeps apart. *)
Definition plain_tags (t : gset string) : Prop := ∀ tag, tag ∈ t → tag ≠ "" ∧ "|"%char ∉ chars tag.

Lemma Join_empty parts c sep : Join parts (String c sep) = "" → parts = [] ∨ parts = [""].
Proof.
  destruct parts as [|p [|q parts]]; [by left|intros H; simpl in H; right; by rewrite H|].
  intros H. by destruct p.
Qed.

Lemma sorted_tags_perm {R : RangeOrder} s : merge_sort string_le (Tags.Slice s) ≡ₚ elements s.
Proof. rewrite merge_sort_Permutation. apply range_keys_perm. Qed.

Lemma cacheKey_empty {R : RangeOrder} t : plain_tags t → normalizedCacheKey t = "" → t = ∅.
Proof.
  intros Ht. unfold normalizedCacheKey. destruct (Nat.eqb_spec (size t) 0) as [H0|H0]; [by apply size_empty_inv, leibniz_equiv in H0|].
  intros H. exfalso. pose proof (sorted_tags_perm t) as Hp. apply Join_empty in H as [H|H]; rewrite H in Hp.
  - apply Permutation_length in Hp. unfold size, set_size in H0. simpl in *. lia.
  - assert ("" ∈ t) as [? _]%Ht; [|done]. apply elem_of_elements. rewrite <- Hp. by left.
Qed.

Lemma cacheKey_split {R : RangeOrder} t :
  plain_tags t → t ≠ ∅ → Split (normalizedCacheKey t) "|" = merge_sort string_le (Tags.Slice t).
Proof.
  intros Ht Hne. unfold normalizedCacheKey. destruct (Nat.eqb_spec (size t) 0) as [H0|H0]; [by apply size_empty_inv, leibniz_equiv in H0|].
  pose proof (sorted_tags_perm t) as Hp. apply Split_Join.
  - intros Hn. rewrite Hn in Hp. apply Permutation_length in Hp. unfold size, set_size in H0. simpl in *. lia.
  - apply Forall_forall. intros p Hin. rewrite Hp in Hin. apply elem_of_elements in Hin. by apply Ht.
Qed.

(** The key of a cache entry determines its tags. *)
Lemma cacheKey_inj {R : RangeOrder} t t' :
  plain_tags t → plain_tags t' → normalizedCacheKey t = normalizedCacheKey t' → t = t'.
Proof.
  intros Ht Ht' Heq. destruct (decide (t = ∅)) as [->|Hne].
  - symmetry. by apply cacheKey_empty.
  - destruct (decide (t' = ∅)) as [->|Hne']; [by apply cacheKey_empty|].
    pose proof (cacheKey_split t Ht Hne) as E. rewrite Heq, (cacheKey_split t' Ht' Hne') in E.
    apply set_eq. intros x.
    pose proof (sorted_tags_perm t) as P. pose proof (sorted_tags_perm t') as P'. rewrite <- E in P.
    transitivity (x ∈ elements t); [symmetry; apply elem_of_elements|].
    transitivity (x ∈ elements t'); [by rewrite <- P, <- P'|apply elem_of_elements].
Qed.

(** What was found when: every entry is an answer to a query for its tags, and
    expires a fixed time after it. *)
Definition from_history {R : RangeOrder} {N} {C : LruCache (cacheEntry (N:=N))} (cfg : CachedNodeFinderConfig)
    (H : list (gset string * list N * Z)) (c : lru) : Prop :=
  ∀ k e, lru_content c !! k = Some e →
    ∃ tags t, (tags, nodes e, t) ∈ H ∧ k = normalizedCacheKey tags ∧ expiresAt e = t + ExpiresAfter cfg.

(** The cache gives fresh answers for the right tags.  As long as tags are not
    empty and contain no [|], what a call returns is a reordering of an answer of
    the finder to a query for the same tags: the answer it just got, or an
    earlier one no older than the configured time; and the cache keeps
    this property. *)
Theorem cached_answers {R : RangeOrder} {N} {C : LruCache (cacheEntry (N:=N))} {CL : LruLaws (cacheEntry (N:=N))}
    cfg H c now later draws find maxNodes tagslist r c' :
  from_history cfg H c → plain_tags tagslist → (∀ tags ns t, (tags, ns, t) ∈ H → plain_tags tags) →
  FindVerifiedNodes cfg now later draws find maxNodes tagslist c = (r, c') →
  from_history cfg (match retry_find (find maxNodes tagslist) with Ok ns => (tagslist, ns, later) :: H | Err _ => H end) c' ∧
  ∀ ns, r = Ok ns → ∃ ns0, ns ≡ₚ ns0 ∧
    (retry_find (find maxNodes tagslist) = Ok ns0 ∨ ∃ t, (tagslist, ns0, t) ∈ H ∧ now ≤ t + ExpiresAfter cfg).
Proof.
  intros Hc Htags Hplain. unfold FindVerifiedNodes.
  destruct (lru_Get_content (V:=cacheEntry) (normalizedCacheKey tagslist) c) as [Hget Hsame].
  destruct (lru_Get (normalizedCacheKey tagslist) c) as [entry c1]. cbn [fst snd] in Hget, Hsame. subst entry.
  assert (from_history cfg (match retry_find (find maxNodes tagslist) with Ok ns => (tagslist, ns, later) :: H | Err _ => H end) c1) as Hc1.
  { intros k e. rewrite Hsame. intros (tags & t & Hin & ? & ?)%Hc. exists tags, t. split; [|done]. destruct (retry_find _); [by right|done]. }
  destruct (match lru_content c !! normalizedCacheKey tagslist with Some e => if isExpired now e then None else Some e | None => None end) as [e|] eqn:He.
  - intros [= <- <-]. split; [done|]. intros ns Hs%shuffleNodes_perm. exists (nodes e). split; [done|]. right.
    destruct (lru_content c !! normalizedCacheKey tagslist) as [e'|] eqn:El; [|done].
    destruct (isExpired now e') eqn:Ex; [done|]. injection He as ->. apply Hc in El as (tags & t & Hin & Hk & Hexp).
    apply cacheKey_inj in Hk; [|done|by eapply Hplain]. subst tags. exists t. split; [done|].
    unfold isExpired in Ex. apply Z.ltb_ge in Ex. lia.
  - destruct (retry_find (find maxNodes tagslist)) as [ns0|e]; intros [= <- <-]; [|by split].
    split.
    + intros k e' Hk. destruct (decide (k = normalizedCacheKey tagslist)) as [->|Hne].
      * rewrite lru_Add_new in Hk. injection Hk as <-. exists tagslist, later. split; [by left|done].
      * destruct (lru_Add_other _ (MkEntry ns0 (later + ExpiresAfter cfg)) c1 k Hne) as [E|E]; rewrite E in Hk; [|done]. by apply Hc1.
    + intros ns Hs%shuffleNodes_perm. exists ns0. split; [done|by left].
Qed.

(** The cache does not know limits.  The limit of a query is not part of the
    key: once nodes are cached for some tags, a query for them with any other
    limit gets all of them, however many were asked for. *)
Theorem cache_ignores_limit {R : RangeOrder} {N} {C : LruCache (cacheEntry (N:=N))} {CL : LruLaws (cacheEntry (N:=N))}
    cfg c now later draws find maxNodes tagslist e ns c' :
  lru_content c !! normalizedCacheKey tagslist = Some e → now ≤ expiresAt e →
  FindVerifiedNodes cfg now later draws find maxNodes tagslist c = (Ok ns, c') → length ns = length (nodes e).
Proof.
  intros He Hexp. unfold FindVerifiedNodes.
  destruct (lru_Get_content (V:=cacheEntry) (normalizedCacheKey tagslist) c) as [Hget _].
  destruct (lru_Get (normalizedCacheKey tagslist) c) as [entry c1]. cbn [fst] in Hget. subst entry. rewrite He.
  unfold isExpired. destruct (Z.ltb_spec (expiresAt e) now); [lia|]. intros [= Hs _]. apply shuffleNodes_perm in Hs. by rewrite Hs.
Qed.

(** A cache that never evicts, for the witnesses. *)
Definition map_lru (V : Type) : LruCache V :=
  {| lru := gmap string V; lru_content c := c; lru_Get k c := (c !! k, c); lru_Add k v c := <[k := v]> c |}.
Lemma map_lru_laws V : @LruLaws V (map_lru V).
Proof. constructor; simpl; [done|intros; by rewrite lookup_insert_eq|intros; left; by rewrite lookup_insert_ne]. Qed.

Lemma cached_answers_witness :
  ∃ ns0, [5; 7] ≡ₚ ns0 ∧ (retry_find [Ok []; Ok [7; 5]] = Ok ns0 ∨ ∃ t, ({[ "llm" ]} : gset string, ns0, t) ∈ (@nil (gset string * list Z * Z)) ∧ 10 ≤ t + 60 * second).
Proof.
  destruct (FindVerifiedNodes (R:=elements_order) (N:=Z) (C:=map_lru _) DefaultCachedNodeFinderConfig 10 11 [Some 0%nat]
    (λ _ _, [Ok []; Ok [7; 5]]) 3 {[ "llm" ]} (∅ : gmap string cacheEntry)) as [r c'] eqn:E.
  pose proof (@cached_answers elements_order Z (map_lru _) (map_lru_laws _) DefaultCachedNodeFinderConfig [] ∅ 10 11 [Some 0%nat]
    (λ _ _, [Ok []; Ok [7; 5]]) 3 {[ "llm" ]} r c') as H.
  destruct H as [_ H]; [intros k e Hk; discriminate Hk|intros tag ->%elem_of_singleton; split; [done|apply (bool_decide_unpack _); vm_compute; exact Logic.I]|by intros ??? ?%elem_of_nil|exact E|].
  apply H. vm_compute in E. injection E as <- _. reflexivity.
Defined.

Lemma cache_ignores_limit_witness :
  ∃ ns c', FindVerifiedNodes (R:=elements_order) (N:=Z) (C:=map_lru _) DefaultCachedNodeFinderConfig 10 11 [Some 0%nat; Some 0%nat]
    (λ _ _, []) 1 ∅ ({[ "" := MkEntry [7; 5; 3] 100 ]} : gmap string cacheEntry) = (Ok ns, c') ∧ length ns = 3%nat.
Proof.
  destruct (FindVerifiedNodes (R:=elements_order) (N:=Z) (C:=map_lru _) DefaultCachedNodeFinderConfig 10 11 [Some 0%nat; Some 0%nat]
    (λ _ _, []) 1 ∅ ({[ "" := MkEntry [7; 5; 3] 100 ]} : gmap string cacheEntry)) as [[ns|e] c'] eqn:E; [|vm_compute in E; discriminate E].
  exists ns, c'. split; [reflexivity|].
  apply (@cache_ignores_limit elements_order Z (map_lru _) (map_lru_laws _) DefaultCachedNodeFinderConfig
    ({[ "" := MkEntry [7; 5; 3] 100 ]} : gmap string cacheEntry) 10 11 [Some 0%nat; Some 0%nat]
    (λ _ _, []) 1 ∅ (MkEntry [7; 5; 3] 100) ns c'); [reflexivity|simpl; lia|exact E].
Defined.
